(* ===== verification/_CoqProject ===== *)
-Q . S2P
Root.v
Prelude.v
Table.v
RustStr.v
Float64.v
TextMerge.v
Graph.v
EventLog.v
MergeEngine.v
Conflict.v
MergeFs.v
MergeFsReads.v
VaiDir.v
Workspace.v
Version.v
Diff.v
Submit.v
SubmitFrame.v
Replay.v
Issue.v
WorkQueue.v
Escalation.v
MergePatterns.v
Watcher.v
ScopeHistory.v
ScopeInference.v
Pagination.v
Compute.v
Fleet.v
ServerRepo.v
ServerPull.v
ServerUpload.v
Remote.v
HttpAdapter.v
RemotePush.v
RemoteRoundTrip.v
EventStream.v
EventStreamPg.v
FileWorkspace.v
Auth.v
AuthKeys.v
AuthServer.v
AuthAdmin.v
AuthSystem.v
AuthProps.v
RateLimit.v
IssuePg.v
IssueServer.v
QueueServer.v
DeskSystem.v
DeskFrame.v
DeskProps.v
Agent.v
AgentProps.v
AgentSystem.v
AgentExamples.v
GraphServer.v
GraphServerProps.v
WatcherServer.v
WatcherServerProps.v
VersionServer.v
VersionServerProps.v
EscalationServer.v
EscalationServerProps.v
Migration.v
MigrationProps.v
