(* ===== verification/Root.v ===== *)
(** The vai verification library.

    vai is a version control system for agents: workspaces hold the changes of an
    agent as an overlay over the project, a submission merges the overlay into the
    project and records a version, an event log keeps what happened, and a semantic
    graph and a conflict engine look at the changes as changes of code entities.
    This library models the Rust code of that core and proves what it does. Paths
    below are those of the repository, under [src/src/].

    ** Files

    - [Prelude]: outcomes of a Rust call ([Ok], [Err], panic), the state monad that
      keeps the state reached on every outcome, slices and splices with their bounds
      checks, stable sorting, list lemmas.
    - [RustStr]: the string and byte functions of the standard library the program
      calls (UTF-8 decoding, lines, splitting, trimming, decimal numbers, the order
      on strings), each written out.
    - [TextMerge] (merge/mod.rs): level 1 of the merge. [lcs_indices], [compute_hunks],
      [hunks_overlap] and [apply_two_hunk_sets], over any type of lines. Theorems:
      the subsequence is a longest one; a diff applied to its base gives the modified
      text; the merge of two diffs is the text that both describe ([render], a
      definition line by line); exactly when the merge panics.
    - [Graph] (graph/mod.rs): syntax trees as values (tree-sitter is a parameter),
      the extraction of entities and relationships from Rust, the graph's tables and
      searches, and the breadth-first search of reachable entities.
    - [EventLog] (event_log/mod.rs): event kinds, ids, appending and queries; the log
      is the list of its events.
    - [MergeEngine] (merge/mod.rs): levels 2 and 3: changed entities, entity
      substitution, referential conflicts, and [try_merge_file].
    - [Conflict] (conflict/mod.rs): scope footprints and overlap classification.
    - [MergeFs] (merge_fs.rs): the file abstraction. The trait is the class [MergeFs];
      [MergeFsSpec] is what clients rely on: the state shows a content for each key,
      and each operation is the corresponding one on that function. [S3MergeFs],
      which buffers writes, implements it ([S3MergeFsSpec]); the disk is modelled
      with its own operations. [MergeFsReads]: what clients that only read rely on,
      which the disk promises too ([disk_reads]).
    - [VaiDir]: the metadata directory as one record, which the local operations
      share. [Workspace] (workspace/mod.rs), [Version] (version/mod.rs) and [Diff]
      (diff/mod.rs) are the operations on it.
    - [Submit] (merge/mod.rs): submission, from the diff over the fast-forward or the
      three-way merge to the new version. Its theorems hold for any implementation
      of [MergeFsSpec]; [merge_all] is the merge as a function of the contents.
      [SubmitFrame]: what any submission, refused or not, may touch, as a logic of
      partial correctness over the effects of the merge.
    - [Table], [Replay], [Float64]: what the stores below share: tables with a primary
      key, the replay of an event log into the status of each object, and IEEE
      doubles with their two-digit rendering.
    - [Issue] (issue/mod.rs): the issue store. Whatever operations and foreign events
      are interleaved, replaying the log gives the status of every issue; the hourly
      limit of an agent; filters; and when an issue reads back as it was created.
    - [Escalation] (escalation/mod.rs), [MergePatterns] (merge_patterns/mod.rs): the
      life cycle of escalations and of learned merge patterns, with the invariant
      that decides when a conflict is resolved automatically.
    - [WorkQueue] (work_queue/mod.rs): scope prediction over [Graph], the split of the
      open issues by [Conflict] footprints, and the claim, which composes [Issue],
      [Workspace] and [EventLog].
    - [Watcher] (watcher/mod.rs): watchers that report problems and create issues in
      [Issue]; at most one issue per problem, rate limits, suppression.
    - [ScopeHistory] (scope_history/mod.rs), [ScopeInference] (scope_inference/mod.rs):
      the records of past intents with their weights, and the inferred scope. A query of
      the graph can fail, and the database takes a limited number of variables: the
      inference is either exact or reports such an error.
    - [Pagination] (storage/pagination.rs, server/pagination.rs): validated page
      queries, their SQL and the response envelope.
    - [Compute] (server/compute/): the provider of machines as the class
      [ComputeProvider], the laws its clients rely on as [ReliableProvider], and the
      in-memory provider, which obeys them. [Fleet] (server/worker_registry.rs,
      storage/postgres/worker.rs, server/worker.rs): the workers of the server over
      any provider: spawning is split into its pieces (the test of the cap, the row, the
      call to the provider), which interleave with the other tasks, so that two spawners
      can pass the cap by one and no more; a pass of the spawner that nobody interrupts
      fills the fleet as far as keys and provider allow, and a pass of the reconciler
      frees exactly what dead workers held.

    - [ServerRepo] (server/workspace.rs, server/mod.rs): one project of the server:
      its object store, rows and events as a record, and the handlers that create,
      fill, discard and submit workspaces and read the project. [run_submit] calls
      [Submit] over [S3MergeFs].
    - [ServerPull]: requests as a step function on that record; every request keeps
      the state well formed and either makes no version or makes the next one
      ([quiet], [merges]), so that a pull covers any history of requests.
      [ServerUpload]: from a snapshot upload over the submission to the project.
    - [Remote] (remote/mod.rs, remote/tarball.rs): push, pull, force pull and sync of
      a working tree over the port [RemoteAdapter]; [RemoteSpec] is what a client
      relies on, and a pull over anything that obeys it converges. [HttpAdapter]
      (remote/http_adapter.rs) implements the port by the handlers of [ServerRepo]
      and obeys the contract; [RemotePush] and [RemoteRoundTrip]: what a push
      refuses, what it makes of the server, and that another clone then pulls it.

    - [EventStream] and [EventStreamPg] (server/ws.rs, server/mod.rs,
      storage/postgres/event.rs): the events that a server pushes to its clients, from
      the replay buffer of a local server and from the table of a hosted one. A
      connection, the hub and the table are one state; broadcasts, messages,
      deliveries and failures are its steps. The replay and the storing of the filter are
      two steps, and what is broadcast between them is lost ([raced]); rows become visible
      in the order of the commits, which need not be that of their ids. What a client that
      reconnects has been sent is proved by induction over the reachable states.
    - [FileWorkspace] (file_workspace/mod.rs): the workspace of a server agent, over the
      class [RemoteRepo]: planning, submitting and pulling. What is refused is proved over
      the reads of the files and whatever answers the server gives; what a pull brings and
      a local submission makes, over [MergeFsSpec] and the laws [RemoteRepoSpec].
    - [Auth], [AuthKeys] (storage/postgres/org.rs, storage/postgres/auth.rs): the tables of
      accounts and credentials with their constraints. [AuthServer] (auth/jwt.rs,
      server/auth.rs, server/mod.rs): access tokens over the class [JwtLib], the
      middleware, the permission check, the exchange of credentials. [AuthAdmin]
      (server/admin.rs): the handlers of administration. [AuthSystem]: requests as the
      steps of a state machine, with what every step keeps ([keeps]). [AuthProps]: the
      theorems, among them who is granted what, that a revoked key stays dead, and how
      a user becomes the administrator.
    - [RateLimit] (server/mod.rs): the limiter and its middleware: exactly the requests
      within the limit pass.

    - [IssuePg] (storage/postgres/issue.rs): the tables of issues, comments, mentions, links
      and attachments of a repository, next to its [ServerRepo] in a [Desk]; their
      statements with the constraints of the schema. [IssueServer] (server/issue.rs): the
      handlers over them. [QueueServer] (server/work_queue.rs, server/workspace.rs): the
      work queue, the claim of an issue and the release of a claim; what the queue shows
      ([offered]), what a claim changes ([claimed]) and how each refusal answers.
      [DeskFrame]: a relation on desks that the elementary writes obey is obeyed by every
      request. [DeskSystem]: all these requests as steps ([handle]); most of them are tame, which
      means that they keep the rows and open no issue, and the four that are not are
      looked at one by one; so claims are exclusive. [DeskProps]: who changes a comment,
      what an attachment comes back as (an error when its name or type makes no header),
      and what a release and a closing do.
    - [WatcherServer] (storage/postgres/watcher.rs, server/watcher.rs): the watchers of a
      hosted repository next to its [Desk]. [WatcherServerProps]: their requests, interleaved
      with those about issues, keep the tables in order; the reports of an hour stay within
      the policy; a problem has one issue for good, closed or not.
    - [EscalationServer] (storage/postgres/escalation.rs, server/escalation.rs): the table of
      escalations that failed merges fill, its lists and the resolution.
      [EscalationServerProps]: a refused merge raises one and leaves the project; none is
      lost or rewritten, and the last resolution counts.
    - [VersionServer] (storage/postgres/version.rs, server/version.rs): the details of a
      version, its patches and the rollback, over a [ServerRepo] and the directory of the
      repository on the server. [VersionServerProps]: the log names no content that the
      store has not, whatever the requests; so the details cover what a version changed
      and the patches are between recorded contents; and a rollback, which clients do not
      see.
    - [Migration] (migration/mod.rs, server/mod.rs): the move of a local repository to a
      hosted one: what the client sends, the transaction over the tables with the keys that
      repositories share, and the upload and reading of source files. [MigrationProps]: a
      migration into a repository as its creation leaves it, with a seeded first version,
      fails and changes nothing or brings what the theorem lists; a repeated one brings
      nothing twice, an upload that succeeds is served; and when the links of
      versions to their merges, or the issues, are lost.
    - [GraphServer] (storage/postgres/graph.rs, server/graph.rs): the graph of a hosted
      repository: its rows, the breadth-first walk in both directions, the listing and
      searching handlers and the refresh from the files of the project. [GraphServerProps]:
      the walk finds exactly what is within the hop limit, by an invariant on the levels of
      its queue; dependencies, blast radius, details and listing follow from it; a refresh
      makes the entities of each source file exactly those that the file has.
    - [Agent] (agent/mod.rs): the commands of an agent: configuration and state on a disk,
      the HTTP client with its retries, and claim, download, submit, reset, close, status,
      prompt, setup and verify. [AgentProps]: a claim survives a crash, a download is
      complete or refused, the checks run in order, and a request is repeated at most
      three times. [AgentSystem]: the routes and the JSON that connect [Agent] to the
      handlers of [QueueServer] and [IssueServer] over a network that delivers or loses a
      message: a claim that is given up leaves no trace, a closed issue stays closed, and
      the issue that an agent reads is the one the server holds. [AgentExamples]: concrete
      formats and worlds for the witnesses, and what goes wrong when a reply is lost.

    ** Conventions

    A Rust function is a definition of the same name. Loops are structural
    recursions; where the source walks a graph or a table, fuel bounds the walk and
    a theorem shows that it suffices ([lcs_walk]: the sum of the lengths; [bfs_loop]:
    the number of entities it can queue). A panic is [None] or [Panic] and never an
    arbitrary value. The iteration order of hash maps and directories is a parameter,
    with the hypothesis that it is a permutation where a theorem needs one. Instants
    and random identifiers are read from streams ([clock], [uuid]). Byte offsets and
    indices, which are bounded by the length of a text in memory, are natural
    numbers; parsed and printed numbers have 64 bits, and the successor of the
    largest version number wraps as in a release build. TOML, JSON and SQLite rows
    are the values that they encode. Reads and writes of the metadata directory do
    not fail in the model except where a file is missing; file contents go through
    [MergeFs], whose failures are modelled.

    ** Not modelled

    The handlers of the server that report its status and list its workspaces, its registry
    of local repositories, the SQLite wrapper and the filesystem back end, the encryption of stored
    secrets, the command line with its printing and its generator of loop scripts, and the
    dashboard are I/O around this core. The archive, compression, hash, base64, token,
    TOML and JSON libraries are parameters with their laws. SQL statements are operations
    on lists of rows with the constraints of the schema. Each request of the server is one
    step, since it holds a lock for the requests that write; the steps that take no lock
    and whose order matters, the spawning of a worker and the connection of an event
    stream, are split. The disk of an agent is the map of its files: a
    directory is there when a file is below it, and removing a directory or a file that
    is there does not fail; the target of a download is apart from the metadata
    directory, and [submit] reaches the server through a [RemoteRepo] that is a parameter
    of it. TypeScript extraction, the older remote client and the segment files of the
    event log are to be added. *)
From stdpp Require Import base.
