(* ===== verification/Prelude.v ===== *)
(** Shared vocabulary of the development: Rust outcomes (value, error, panic),
    slices and splices with their bounds checks, stable sorting, the string
    functions of the standard library that the program uses, and the hint
    databases and tactics the component files rely on. *)
From stdpp Require Export base tactics option list numbers strings gmap sorting.
From Stdlib Require Export Sorted.

#[export] Set Default Goal Selector "!".

Declare Scope vai_scope.
Delimit Scope vai_scope with vai.
Open Scope vai_scope.

(** ** Outcomes *)

(** What a Rust call can do: return [Ok], return [Err], or panic. *)
Inductive outcome (E A : Type) : Type :=
  | Ok (a : A)
  | Err (e : E)
  | Panic.
Arguments Ok {E A} a.
Arguments Err {E A} e.
Arguments Panic {E A}.

#[export] Instance outcome_ret E : MRet (outcome E) := fun A a => Ok a.
#[export] Instance outcome_bind E : MBind (outcome E) := fun A B f m =>
  match m with Ok a => f a | Err e => Err e | Panic => Panic end.

(** A call whose [None] is a panic. *)
Definition or_panic {E A} (o : option A) : outcome E A :=
  match o with Some a => Ok a | None => Panic end.

Definition map_err {E E' A} (f : E -> E') (m : outcome E A) : outcome E' A :=
  match m with Ok a => Ok a | Err e => Err (f e) | Panic => Panic end.

(** Stateful calls: the state reached is kept on every outcome, because a Rust
    function that returns early keeps the effects it had. *)
Definition M (S E A : Type) : Type := S -> outcome E A * S.

#[export] Instance M_ret S E : MRet (M S E) := fun A a s => (Ok a, s).
#[export] Instance M_bind S E : MBind (M S E) := fun A B f m s =>
  match m s with
  | (Ok a, s') => f a s'
  | (Err e, s') => (Err e, s')
  | (Panic, s') => (Panic, s')
  end.

Definition get_st {S E} : M S E S := fun s => (Ok s, s).
Definition put_st {S E} (s' : S) : M S E unit := fun _ => (Ok tt, s').
Definition modify_st {S E} (f : S -> S) : M S E unit := fun s => (Ok tt, f s).
Definition fail {S E A} (e : E) : M S E A := fun s => (Err e, s).
Definition lift {S E A} (o : outcome E A) : M S E A := fun s => (o, s).

Lemma M_bind_ok {S E A B} (m : M S E A) (f : A -> M S E B) s a s' :
  m s = (Ok a, s') -> (m ≫= f) s = f a s'.
Proof. intros H. unfold mbind, M_bind. by rewrite H. Qed.

Lemma M_bind_err {S E A B} (m : M S E A) (f : A -> M S E B) s e s' :
  m s = (Err e, s') -> (m ≫= f) s = (Err e, s').
Proof. intros H. unfold mbind, M_bind. by rewrite H. Qed.

Lemma M_bind_panic {S E A B} (m : M S E A) (f : A -> M S E B) s s' :
  m s = (Panic, s') -> (m ≫= f) s = (Panic, s').
Proof. intros H. unfold mbind, M_bind. by rewrite H. Qed.

(** [for x in l { f(x)?; }] *)
Fixpoint for_each {S E A} (f : A -> M S E unit) (l : list A) : M S E unit :=
  match l with
  | [] => mret tt
  | x :: l' => f x ≫= fun _ => for_each f l'
  end.

(** ** Slices *)

(** [v[a..b]], a panic when [a > b] or [b > v.len()]; also [v.get(a..b)], whose
    [None] is a value. *)
Definition slice {A} (v : list A) (a b : nat) : option (list A) :=
  if decide (a <= b <= length v) then Some (take (b - a) (drop a v)) else None.

(** [v[a..]] *)
Definition slice_from {A} (v : list A) (a : nat) : option (list A) :=
  slice v a (length v).

(** [v.splice(a..b, r)] *)
Definition splice {A} (v : list A) (a b : nat) (r : list A) : option (list A) :=
  if decide (a <= b <= length v) then Some (take a v ++ r ++ drop b v) else None.

Lemma slice_Some {A} (v : list A) a b :
  a <= b <= length v -> slice v a b = Some (take (b - a) (drop a v)).
Proof. intros H. unfold slice. by rewrite decide_True. Qed.

Lemma slice_None {A} (v : list A) a b :
  slice v a b = None <-> b < a \/ length v < b.
Proof. unfold slice. case_decide; split; intros; try done; lia. Qed.

Lemma slice_empty {A} (v : list A) a : a <= length v -> slice v a a = Some [].
Proof. intros. rewrite slice_Some by lia. by rewrite Nat.sub_diag. Qed.

Lemma slice_from_Some {A} (v : list A) a :
  a <= length v -> slice_from v a = Some (drop a v).
Proof.
  intros. unfold slice_from. rewrite slice_Some by lia.
  f_equal. apply take_ge. rewrite length_drop. lia.
Qed.

Lemma slice_is_Some {A} (v : list A) a b l :
  slice v a b = Some l ->
  a <= b <= length v /\ l = take (b - a) (drop a v).
Proof. unfold slice. case_decide; [|done]. by intros [= <-]. Qed.

Lemma splice_Some {A} (v : list A) a b r :
  a <= b <= length v -> splice v a b r = Some (take a v ++ r ++ drop b v).
Proof. intros H. unfold splice. by rewrite decide_True. Qed.

Lemma slice_snoc {A} (v : list A) a b x :
  a <= b -> v !! b = Some x ->
  slice v a (S b) = (fun l => l ++ [x]) <$> slice v a b.
Proof.
  intros Hab Hx. pose proof (lookup_lt_Some _ _ _ Hx).
  rewrite !slice_Some by lia. simpl. f_equal.
  replace (S b - a) with (S (b - a)) by lia.
  apply take_S_r. rewrite lookup_drop. by replace (a + (b - a)) with b by lia.
Qed.

Lemma slice_cons {A} (v : list A) a b x :
  a < b -> v !! a = Some x ->
  slice v a b = cons x <$> slice v (S a) b.
Proof.
  intros Hab Hx. destruct (decide (b <= length v)) as [Hb|Hb].
  - rewrite !slice_Some by lia. simpl. f_equal.
    rewrite (drop_S _ _ _ Hx). by replace (b - a) with (S (b - S a)) by lia.
  - assert (Hn : forall i, slice v i b = None) by (intros; apply slice_None; lia).
    by rewrite !Hn.
Qed.

(** ** Stable sorting: [sort_by] and [sort_by_key] *)

Section sort.
Context {A : Type} (leb : A -> A -> bool).

Fixpoint insert_by (x : A) (l : list A) : list A :=
  match l with
  | [] => [x]
  | y :: l' => if leb x y then x :: y :: l' else y :: insert_by x l'
  end.

Definition sort_by (l : list A) : list A := foldr insert_by [] l.

Lemma insert_by_perm x l : insert_by x l ≡ₚ x :: l.
Proof.
  induction l as [|y l IH]; simpl; [done|].
  destruct (leb x y); [done|]. rewrite IH. apply Permutation_swap.
Qed.

Lemma sort_by_perm l : sort_by l ≡ₚ l.
Proof. induction l as [|x l IH]; simpl; [done|]. by rewrite insert_by_perm, IH. Qed.

Lemma sort_by_elem_of x l : x ∈ sort_by l <-> x ∈ l.
Proof. by rewrite sort_by_perm. Qed.

Lemma sort_by_length l : length (sort_by l) = length l.
Proof. by rewrite sort_by_perm. Qed.

Context (leb_total : forall x y, leb x y = false -> leb y x = true).
Context (leb_trans : forall x y z, leb x y = true -> leb y z = true -> leb x z = true).

Lemma insert_by_sorted x l :
  StronglySorted leb l -> StronglySorted leb (insert_by x l).
Proof using leb_total leb_trans.
  induction 1 as [|y l Hs IH Hy]; simpl; [by repeat constructor|].
  destruct (leb x y) eqn:E.
  - constructor; [by constructor|]. constructor; [by rewrite E|].
    eapply Forall_impl; [exact Hy|]. intros z Hz.
    apply Is_true_true in Hz. apply Is_true_true. by apply (leb_trans x y z).
  - constructor; [done|]. rewrite insert_by_perm. constructor; [|done].
    apply Is_true_true. by apply leb_total.
Qed.

Lemma sort_by_sorted l : StronglySorted leb (sort_by l).
Proof using leb_total leb_trans.
  induction l as [|x l IH]; simpl; [constructor|]. by apply insert_by_sorted.
Qed.

(** Stability: what holds of every pair of [l] in the order that the
    comparison puts them (the order of [l] when it does not separate them)
    holds of every pair of the sorted list. *)
Lemma insert_by_pairs (R : A -> A -> Prop) x l :
  StronglySorted leb l ->
  Forall (fun y => if leb x y then R x y else R y x) l ->
  StronglySorted R l -> StronglySorted R (insert_by x l).
Proof using leb_trans.
  induction l as [|y l IH]; intros Hs HR HP; simpl; [by repeat constructor|].
  apply Forall_cons in HR as [Hxy HR].
  apply StronglySorted_inv in Hs as [Hs Hy].
  apply StronglySorted_inv in HP as [HP HPy].
  destruct (leb x y) eqn:E.
  - constructor; [by constructor|]. constructor; [done|].
    rewrite Forall_forall in HR, Hy |- *. intros z Hz.
    specialize (HR z Hz). specialize (Hy z Hz). apply Is_true_true in Hy.
    by rewrite (leb_trans x y z E Hy) in HR.
  - constructor; [by apply IH|]. rewrite insert_by_perm. by constructor.
Qed.

Lemma sort_by_pairs (R : A -> A -> Prop) l :
  StronglySorted (fun x y => if leb x y then R x y else R y x) l ->
  StronglySorted R (sort_by l).
Proof using leb_total leb_trans.
  induction 1 as [|x l Hs IH Hx]; simpl; [constructor|].
  apply insert_by_pairs; [apply sort_by_sorted| |done].
  by rewrite sort_by_perm.
Qed.
End sort.

(** ** Lists *)

Lemma filter_all {A} (P : A -> Prop) `{forall x, Decision (P x)} (l : list A) :
  Forall P l -> filter P l = l.
Proof. induction 1 as [|x l Hx _ IH]; [done|]. rewrite filter_cons_True by done. by rewrite IH. Qed.

Lemma filter_none {A} (P : A -> Prop) `{forall x, Decision (P x)} (l : list A) :
  Forall (fun x => ~ P x) l -> filter P l = [].
Proof. induction 1 as [|x l Hx _ IH]; [done|]. by rewrite filter_cons_False. Qed.

Lemma StronglySorted_conj {A} (R1 R2 : A -> A -> Prop) l :
  StronglySorted R1 l -> StronglySorted R2 l ->
  StronglySorted (fun x y => R1 x y /\ R2 x y) l.
Proof.
  induction 1 as [|x l H1 IH HF1]; [constructor|].
  intros [H2 HF2]%StronglySorted_inv. constructor; [by apply IH|].
  apply Forall_and. by split.
Qed.

Lemma StronglySorted_mono {A} (R1 R2 : A -> A -> Prop) l :
  (forall x y, R1 x y -> R2 x y) -> StronglySorted R1 l -> StronglySorted R2 l.
Proof.
  intros HR. induction 1 as [|x l H1 IH HF1]; constructor; [done|].
  eapply Forall_impl; [exact HF1|]. auto.
Qed.

(** [l.sort_by_key(key)] *)
Lemma sort_by_key_sorted {A} (key : A -> nat) l :
  StronglySorted (fun a b => key a <= key b) (sort_by (fun a b => key a <=? key b) l).
Proof.
  eapply StronglySorted_mono; [|apply sort_by_sorted].
  - intros x y H%Is_true_true. simpl in H. by apply Nat.leb_le.
  - intros x y H%Nat.leb_gt. apply Nat.leb_le. lia.
  - intros x y z H1%Nat.leb_le H2%Nat.leb_le. apply Nat.leb_le. lia.
Qed.

Lemma StronglySorted_elem {A} (R : A -> A -> Prop) l x y :
  StronglySorted R l -> x ∈ l -> y ∈ l -> x = y \/ R x y \/ R y x.
Proof.
  induction 1 as [|z l _ IH HF]; [by intros ?%not_elem_of_nil|].
  rewrite Forall_forall in HF. rewrite !elem_of_cons.
  intros [->|Hx] [->|Hy]; auto.
Qed.

Lemma StronglySorted_app_intro {A} (R : A -> A -> Prop) l1 l2 :
  StronglySorted R l1 -> StronglySorted R l2 ->
  (forall x y, x ∈ l1 -> y ∈ l2 -> R x y) -> StronglySorted R (l1 ++ l2).
Proof.
  induction 1 as [|x l H1 IH HF1]; intros H2 Hx; simpl; [done|]. constructor.
  - apply IH; [done|]. intros; apply Hx; set_solver.
  - apply Forall_app; split; [done|]. apply Forall_forall. intros; apply Hx; set_solver.
Qed.

(** A stable sort by a key keeps the elements of each key in order. *)
Lemma sort_by_key_filter {A} (key : A -> nat) l k :
  filter (fun x => key x = k) (sort_by (fun x y => key x <=? key y) l) =
  filter (fun x => key x = k) l.
Proof.
  induction l as [|x l IH]; simpl; [done|].
  rewrite filter_cons, <-IH. clear IH.
  induction (sort_by _ l) as [|y l' IH]; simpl; [by rewrite filter_cons|].
  destruct (Nat.leb_spec (key x) (key y)).
  - by rewrite (filter_cons _ x).
  - rewrite !filter_cons, IH. repeat case_decide; try done; lia.
Qed.

Lemma size_list_to_set_le `{Countable A} (l : list A) :
  size (list_to_set l : gset A) <= length l.
Proof.
  induction l as [|x l IH]; [done|]. rewrite list_to_set_cons. simpl.
  rewrite size_union_alt, size_singleton.
  pose proof (subseteq_size (list_to_set l ∖ {[x]}) (list_to_set l : gset A) ltac:(set_solver)). lia.
Qed.

Lemma filter_key_perm {A} (key : A -> nat) l l' k :
  l ≡ₚ l' -> NoDup (key <$> l) ->
  filter (fun x => key x = k) l = filter (fun x => key x = k) l'.
Proof.
  intros Hp Hnd.
  assert (Hf : forall m, NoDup (key <$> m) -> length (filter (fun x => key x = k) m) <= 1).
  { induction m as [|x m IH]; simpl; [lia|]. intros [Hx Hm]%NoDup_cons.
    rewrite filter_cons. case_decide as Hk; [|by apply IH]. simpl.
    rewrite filter_none; [done|]. apply Forall_forall. intros y Hy Hky.
    apply Hx, list_elem_of_fmap. exists y. split; [congruence|done]. }
  assert (Hpf : filter (fun x => key x = k) l ≡ₚ filter (fun x => key x = k) l') by (by rewrite Hp).
  specialize (Hf l Hnd).
  destruct (filter _ l) as [|x [|]] eqn:E; simpl in Hf; [| |lia].
  - by apply Permutation_nil_l in Hpf as ->.
  - by apply Permutation_singleton_l in Hpf as ->.
Qed.

Lemma exists_nil {A} (P : A -> Prop) : (exists y, y ∈ [] /\ P y) <-> False.
Proof. split; [|done]. by intros (y & ?%not_elem_of_nil & _). Qed.

Lemma exists_cons {A} (P : A -> Prop) x l :
  (exists y, y ∈ x :: l /\ P y) <-> P x \/ (exists y, y ∈ l /\ P y).
Proof.
  split.
  - intros (y & [->|Hy]%elem_of_cons & HP); [by left|]. right. by exists y.
  - intros [HP|(y & Hy & HP)]; [exists x|exists y]; (split; [|done]); [by left|by right].
Qed.

Create HintDb vai.

(** ** Rows by position, for counts that are wide integers *)

Definition take_z {A} (n : Z) (l : list A) : list A := take (Z.to_nat (Z.min n (Z.of_nat (length l)))) l.
Definition drop_z {A} (n : Z) (l : list A) : list A := drop (Z.to_nat (Z.min n (Z.of_nat (length l)))) l.

Lemma take_z_nat {A} n (l : list A) : take_z n l = take (Z.to_nat n) l.
Proof.
  unfold take_z. destruct (Z.le_gt_cases n (Z.of_nat (length l))) as [|H]; [by rewrite Z.min_l|].
  rewrite !take_ge by lia. done.
Qed.

Lemma drop_z_nat {A} n (l : list A) : drop_z n l = drop (Z.to_nat n) l.
Proof.
  unfold drop_z. destruct (Z.le_gt_cases n (Z.of_nat (length l))) as [|H]; [by rewrite Z.min_l|].
  rewrite !drop_ge by lia. done.
Qed.

(** ** Deduplication *)

(** [l.filter(|x| seen.insert(x))]: the first occurrence of each. *)
Fixpoint first_occurrences (seen : gset string) (l : list string) : list string :=
  match l with
  | [] => []
  | x :: l' =>
      if decide (x ∈ seen) then first_occurrences seen l'
      else x :: first_occurrences ({[x]} ∪ seen) l'
  end.

Lemma first_occurrences_elem seen l x : x ∈ first_occurrences seen l <-> x ∈ l /\ x ∉ seen.
Proof.
  revert seen. induction l as [|y l IH]; intros seen; simpl; [set_solver|].
  case_decide; [rewrite IH; set_solver|]. rewrite elem_of_cons, IH.
  destruct (decide (x = y)) as [->|]; set_solver.
Qed.

Lemma first_occurrences_NoDup seen l : NoDup (first_occurrences seen l).
Proof.
  revert seen. induction l as [|y l IH]; intros seen; simpl; [constructor|].
  case_decide; [apply IH|]. constructor; [|apply IH].
  rewrite first_occurrences_elem. set_solver.
Qed.

(** Calls that stay within a preorder of states. *)
Section along.
Context {S E : Type} (R : S -> S -> Prop) `{!PreOrder R}.

Definition along {A} (m : M S E A) : Prop := forall s, R s (m s).2.

Lemma along_ret {A} (a : A) : along (mret a).
Proof using Type*. intros s. reflexivity. Qed.
Lemma along_fail {A} e : along (A:=A) (fail e).
Proof using Type*. intros s. reflexivity. Qed.
Lemma along_get : along get_st.
Proof using Type*. intros s. reflexivity. Qed.
Lemma along_lift {A} (o : outcome E A) : along (lift o).
Proof using Type*. intros s. reflexivity. Qed.
Lemma along_bind {A B} (m : M S E A) (k : A -> M S E B) : along m -> (forall a, along (k a)) -> along (m ≫= k).
Proof using Type*.
  intros Hm Hk s. specialize (Hm s). unfold mbind, M_bind. destruct (m s) as [[a|e|] s1]; simpl in *; [|done..].
  etransitivity; [exact Hm|apply Hk].
Qed.
Lemma along_for_each {A} (f : A -> M S E unit) l : (forall x, along (f x)) -> along (for_each f l).
Proof using Type*. intros Hf. induction l as [|x l IH]; simpl; [apply along_ret|]. by apply along_bind. Qed.
End along.
