(* ===== verification/Table.v ===== *)
(** A table with a primary key, as the list of its rows in insertion order: the
    lookup and the update of a row by its key, and the insertion of a new row. *)
From S2P Require Import Prelude.

Section table.
Context {A K : Type} `{EqDecision K} (key : A -> K).

(** [SELECT .. WHERE key = ?] *)
Definition find_by (k : K) (l : list A) : option A := head (filter (fun x => key x = k) l).

(** [UPDATE .. WHERE key = ?] *)
Definition update_by (k : K) (f : A -> A) (l : list A) : list A :=
  (fun x => if decide (key x = k) then f x else x) <$> l.

Lemma find_by_Some k l x : find_by k l = Some x -> x ∈ l /\ key x = k.
Proof. unfold find_by. intros H%head_Some_elem_of%list_elem_of_filter. tauto. Qed.

Lemma find_by_None k l : find_by k l = None <-> k ∉ key <$> l.
Proof.
  unfold find_by. rewrite head_None. split.
  - intros Hn (x & -> & Hx)%list_elem_of_fmap.
    assert (x ∈ filter (fun y => key y = key x) l) as Hin by by apply list_elem_of_filter.
    rewrite Hn in Hin. by apply not_elem_of_nil in Hin.
  - intros Hn. apply elem_of_nil_inv. intros x [<- Hx]%list_elem_of_filter.
    by apply Hn, list_elem_of_fmap_2.
Qed.

Lemma find_by_elem k l x : NoDup (key <$> l) -> x ∈ l -> key x = k -> find_by k l = Some x.
Proof.
  unfold find_by. intros Hnd Hin <-. induction l as [|y l IH]; [by apply not_elem_of_nil in Hin|].
  simpl in Hnd. apply NoDup_cons in Hnd as [Hy Hnd]. apply elem_of_cons in Hin as [<-|Hin].
  - by rewrite filter_cons_True.
  - rewrite filter_cons_False; [by apply IH|]. intros He. apply Hy. rewrite He.
    by apply list_elem_of_fmap_2.
Qed.

Lemma keys_inj l x y : NoDup (key <$> l) -> x ∈ l -> y ∈ l -> key x = key y -> x = y.
Proof.
  intros Hnd Hx Hy He. apply (find_by_elem _ _ _ Hnd Hx) in He.
  pose proof (find_by_elem _ _ _ Hnd Hy eq_refl). congruence.
Qed.

Lemma find_by_snoc k l x :
  find_by k (l ++ [x]) =
  match find_by k l with Some y => Some y | None => if decide (key x = k) then Some x else None end.
Proof.
  unfold find_by. rewrite filter_app. destruct (filter (fun x => key x = k) l); [|done]. simpl.
  case_decide; [by rewrite filter_cons_True|by rewrite filter_cons_False].
Qed.

Lemma find_by_app_l k l l' x : find_by k l = Some x -> find_by k (l ++ l') = Some x.
Proof. unfold find_by. rewrite filter_app. by destruct (filter _ l). Qed.

Lemma find_by_update k k' f l :
  (forall x, key x = k -> key (f x) = key x) ->
  find_by k' (update_by k f l) = if decide (k' = k) then f <$> find_by k' l else find_by k' l.
Proof.
  intros Hf. unfold find_by, update_by. induction l as [|x l IH]; simpl; [by case_decide|].
  destruct (decide (key x = k)) as [Hx|Hx].
  - destruct (decide (k' = k)) as [->|Hk].
    + by rewrite !filter_cons_True by (rewrite ?Hf; done).
    + by rewrite !filter_cons_False by (rewrite ?Hf; congruence).
  - destruct (decide (key x = k')) as [<-|Hk].
    + rewrite !filter_cons_True by done. by rewrite decide_False.
    + by rewrite !filter_cons_False by done.
Qed.

Lemma update_by_keys k f l :
  (forall x, key x = k -> key (f x) = key x) -> key <$> update_by k f l = key <$> l.
Proof.
  intros Hf. unfold update_by. rewrite <-list_fmap_compose. apply list_fmap_ext.
  intros i x _. simpl. case_decide; auto.
Qed.

Lemma update_by_length k f l : length (update_by k f l) = length l.
Proof. apply length_fmap. Qed.

Lemma update_by_elem k f l y :
  y ∈ update_by k f l <-> exists x, x ∈ l /\ y = if decide (key x = k) then f x else x.
Proof. unfold update_by. rewrite list_elem_of_fmap. naive_solver. Qed.

Lemma update_by_Forall (P : A -> Prop) k f l :
  Forall P l -> (forall x, x ∈ l -> key x = k -> P x -> P (f x)) -> Forall P (update_by k f l).
Proof.
  rewrite !Forall_forall. intros HP Hf y (x & Hx & ->)%update_by_elem. case_decide; auto.
Qed.

Lemma update_by_twice k f g l :
  (forall x, key x = k -> key (g x) = key x) ->
  update_by k f (update_by k g l) = update_by k (fun x => f (g x)) l.
Proof.
  intros Hg. unfold update_by. rewrite <-list_fmap_compose. apply list_fmap_ext.
  intros i x _. simpl. destruct (decide (key x = k)) as [Hx|Hx].
  - rewrite Hg by done. by rewrite decide_True.
  - by rewrite decide_False.
Qed.

(** Only the row of the key matters. *)
Lemma update_by_ext k f g l x :
  NoDup (key <$> l) -> find_by k l = Some x -> f x = g x -> update_by k f l = update_by k g l.
Proof.
  intros Hnd Hx Hfg. unfold update_by. apply list_fmap_ext. intros i y Hy. simpl.
  case_decide as Hk; [|done]. apply list_elem_of_lookup_2 in Hy.
  rewrite (find_by_elem k l y Hnd Hy Hk) in Hx. congruence.
Qed.

Lemma update_by_none k f l : k ∉ key <$> l -> update_by k f l = l.
Proof.
  intros Hn. unfold update_by. rewrite <-(list_fmap_id l) at 2. apply list_fmap_ext.
  intros i x Hx. simpl. case_decide as Hk; [|done]. destruct Hn. rewrite <-Hk.
  by eapply list_elem_of_fmap_2, list_elem_of_lookup_2.
Qed.

(** The row of the key and the rows around it. *)
Lemma update_by_split k l x :
  NoDup (key <$> l) -> find_by k l = Some x ->
  exists l1 l2, l = l1 ++ x :: l2 /\ forall f, update_by k f l = l1 ++ f x :: l2.
Proof.
  intros Hnd Hx. apply find_by_Some in Hx as [Hin <-].
  apply list_elem_of_split in Hin as (l1 & l2 & ->). exists l1, l2. split; [done|]. intros f.
  rewrite fmap_app in Hnd. simpl in Hnd. apply NoDup_app in Hnd as (_ & Hd & Hnd).
  apply NoDup_cons in Hnd as [Hl2 _].
  transitivity (update_by (key x) f l1 ++ f x :: update_by (key x) f l2).
  { unfold update_by. rewrite fmap_app, fmap_cons. by rewrite decide_True. }
  rewrite !update_by_none; [done|done|]. intros Hl1. apply (Hd (key x) Hl1). by left.
Qed.

Lemma snoc_keys_NoDup l x :
  NoDup (key <$> l) -> find_by (key x) l = None -> NoDup (key <$> (l ++ [x])).
Proof.
  intros Hnd Hn%find_by_None. rewrite fmap_app. apply NoDup_app. split_and!; [done| |apply NoDup_singleton].
  intros y Hy ->%list_elem_of_singleton. done.
Qed.

Lemma filter_keys_NoDup (P : A -> Prop) `{!forall x, Decision (P x)} l :
  NoDup (key <$> l) -> NoDup (key <$> filter P l).
Proof.
  intros Hnd. induction l as [|x l IH]; [done|]. rewrite fmap_cons in Hnd. apply NoDup_cons in Hnd as [Hx Hnd].
  rewrite filter_cons. case_decide; [|auto]. rewrite fmap_cons. apply NoDup_cons. split; [|auto].
  intros (y & Hy & [_ Hin]%list_elem_of_filter)%list_elem_of_fmap. apply Hx. rewrite Hy.
  by apply list_elem_of_fmap_2.
Qed.
End table.
