(* ===== verification/RustStr.v ===== *)
(** The functions of Rust's [str], [String] and [u8] slices that the program
    calls: UTF-8 decoding, [lines], [split], prefix and suffix tests, trimming,
    and the decimal printing and parsing of unsigned integers. A [String] is a
    [string] (its UTF-8 bytes), a [Vec<u8>] is a [list ascii]. *)
From S2P Require Import Prelude.
From Stdlib Require Export Ascii.
From Stdlib Require Import DecimalString DecimalN DecimalPos.
Open Scope list_scope.

Abbreviation bytes := (list ascii).

Definition bytes_of : string -> bytes := String.list_ascii_of_string.
Definition string_of : bytes -> string := String.string_of_list_ascii.

Lemma string_of_bytes_of s : string_of (bytes_of s) = s.
Proof. apply String.string_of_list_ascii_of_string. Qed.

Lemma bytes_of_string_of b : bytes_of (string_of b) = b.
Proof. apply String.list_ascii_of_string_of_list_ascii. Qed.

(** ** Decoding *)

Definition in_range (lo hi : N) (a : ascii) : bool :=
  (lo <=? N_of_ascii a)%N && (N_of_ascii a <=? hi)%N.

(** The ranges the continuation bytes must lie in, by leading byte; [None] for
    a byte that starts no sequence. *)
Definition utf8_ranges (b0 : ascii) : option (list (N * N)) :=
  let c := (0x80, 0xBF)%N in
  if in_range 0 0x7F b0 then Some []
  else if in_range 0xC2 0xDF b0 then Some [c]
  else if in_range 0xE0 0xE0 b0 then Some [(0xA0, 0xBF)%N; c]
  else if in_range 0xED 0xED b0 then Some [(0x80, 0x9F)%N; c]
  else if in_range 0xE1 0xEF b0 then Some [c; c]
  else if in_range 0xF0 0xF0 b0 then Some [(0x90, 0xBF)%N; c; c]
  else if in_range 0xF4 0xF4 b0 then Some [(0x80, 0x8F)%N; c; c]
  else if in_range 0xF1 0xF3 b0 then Some [c; c; c]
  else None.

Fixpoint utf8_conts (rs : list (N * N)) (l : bytes) (k : nat) : bool * nat :=
  match rs with
  | [] => (true, k)
  | (lo, hi) :: rs' =>
      match l with
      | b :: l' => if in_range lo hi b then utf8_conts rs' l' (S k) else (false, k)
      | [] => (false, k)
      end
  end.

(** The first chunk of [b0 :: l]: whether it is a code point, and its length
    (a maximal ill-formed part otherwise). *)
Definition utf8_chunk (b0 : ascii) (l : bytes) : bool * nat :=
  match utf8_ranges b0 with
  | Some rs => utf8_conts rs l 1
  | None => (false, 1)
  end.

(** U+FFFD *)
Definition replacement : bytes := ascii_of_N <$> [0xEF; 0xBF; 0xBD]%N.

Fixpoint utf8_lossy_go (fuel : nat) (l : bytes) : bytes :=
  match fuel, l with
  | S fuel, b0 :: l' =>
      let '(ok, n) := utf8_chunk b0 l' in
      (if ok then take n l else replacement) ++ utf8_lossy_go fuel (drop n l)
  | _, _ => []
  end.

(** [String::from_utf8_lossy] *)
Definition from_utf8_lossy (l : bytes) : string := string_of (utf8_lossy_go (length l) l).

Fixpoint utf8_valid_go (fuel : nat) (l : bytes) : bool :=
  match fuel, l with
  | S fuel, b0 :: l' =>
      let '(ok, n) := utf8_chunk b0 l' in ok && utf8_valid_go fuel (drop n l)
  | _, _ => true
  end.

(** [std::str::from_utf8] *)
Definition from_utf8 (l : bytes) : option string :=
  if utf8_valid_go (length l) l then Some (string_of l) else None.

Lemma utf8_conts_ge rs l k : k <= (utf8_conts rs l k).2.
Proof.
  revert l k; induction rs as [|[lo hi] rs IH]; intros l k; simpl; [done|].
  destruct l as [|b l]; simpl; [done|].
  destruct (in_range lo hi b); simpl; [|done].
  specialize (IH l (S k)). lia.
Qed.

Lemma utf8_chunk_pos b0 l : 1 <= (utf8_chunk b0 l).2.
Proof.
  unfold utf8_chunk. destruct (utf8_ranges b0); [|done]. apply utf8_conts_ge.
Qed.

Lemma utf8_lossy_valid fuel l :
  length l <= fuel -> utf8_valid_go fuel l = true -> utf8_lossy_go fuel l = l.
Proof.
  revert l; induction fuel as [|fuel IH]; intros [|b0 l] Hl Hv; simpl in *; try done; [lia|].
  pose proof (utf8_chunk_pos b0 l) as Hpos.
  destruct (utf8_chunk b0 l) as [ok n]; simpl in Hpos.
  apply andb_true_iff in Hv as [-> Hv].
  rewrite IH; [apply take_drop| |done].
  rewrite length_drop. simpl. lia.
Qed.

(** Decoding well-formed text loses nothing. *)
Lemma from_utf8_lossy_valid l s : from_utf8 l = Some s -> from_utf8_lossy l = s.
Proof.
  unfold from_utf8, from_utf8_lossy. destruct (utf8_valid_go _ _) eqn:E; [|done].
  intros [= <-]. by rewrite utf8_lossy_valid.
Qed.

(** ** Searching and splitting *)

Definition starts_with (p s : string) : bool := String.prefix p s.

Fixpoint strip_prefix (p s : string) : option string :=
  match p, s with
  | EmptyString, _ => Some s
  | String a p', String b s' => if ascii_dec a b then strip_prefix p' s' else None
  | String _ _, EmptyString => None
  end.

Fixpoint ends_with (suf s : string) : bool :=
  String.eqb s suf || match s with EmptyString => false | String _ s' => ends_with suf s' end.

Fixpoint str_contains (sub s : string) : bool :=
  String.prefix sub s ||
  match s with EmptyString => false | String _ s' => str_contains sub s' end.

(** [s.split(p)] for a character test [p]: the pieces between the characters
    that satisfy it; [n] such characters make [n + 1] pieces. *)
Fixpoint split_by (p : ascii -> bool) (s : string) : list string :=
  match s with
  | EmptyString => [EmptyString]
  | String a s' =>
      if p a then EmptyString :: split_by p s'
      else match split_by p s' with
           | w :: ws => String a w :: ws
           | [] => [String a EmptyString]
           end
  end.

Definition split_on (c : ascii) : string -> list string :=
  split_by (fun a => Ascii.eqb a c).

(** [s.split_once(c)] *)
Fixpoint split_once (c : ascii) (s : string) : option (string * string) :=
  match s with
  | EmptyString => None
  | String a s' =>
      if ascii_dec a c then Some (EmptyString, s')
      else match split_once c s' with
           | Some (x, y) => Some (String a x, y)
           | None => None
           end
  end.

Definition LF : ascii := "010"%char.
Definition CR : ascii := "013"%char.

(** Removes one trailing carriage return. *)
Fixpoint strip_cr (s : string) : string :=
  match s with
  | EmptyString => EmptyString
  | String a EmptyString => if ascii_dec a CR then EmptyString else s
  | String a s' => String a (strip_cr s')
  end.

(** [s.lines()]: the pieces that end in a line feed lose it and one carriage
    return before it; a last piece without a line feed is kept unless empty. *)
Fixpoint lines_of_pieces (ps : list string) : list string :=
  match ps with
  | [] => []
  | [p] => if String.eqb p EmptyString then [] else [p]
  | p :: ps' => strip_cr p :: lines_of_pieces ps'
  end.

Definition lines (s : string) : list string := lines_of_pieces (split_on LF s).

(** [v.join(sep)] *)
Definition join (sep : string) (l : list string) : string := String.concat sep l.

(** ** Characters and trimming *)

Definition is_ascii_ws (a : ascii) : bool := in_range 9 13 a || in_range 32 32 a.

(** The UTF-8 encodings of the code points with the [White_Space] property. *)
Definition ws_encodings : list bytes :=
  map (map ascii_of_N)
    ([[9]; [10]; [11]; [12]; [13]; [32]; [0xC2; 0x85]; [0xC2; 0xA0];
      [0xE1; 0x9A; 0x80]; [0xE2; 0x80; 0x80]; [0xE2; 0x80; 0x81]; [0xE2; 0x80; 0x82];
      [0xE2; 0x80; 0x83]; [0xE2; 0x80; 0x84]; [0xE2; 0x80; 0x85]; [0xE2; 0x80; 0x86];
      [0xE2; 0x80; 0x87]; [0xE2; 0x80; 0x88]; [0xE2; 0x80; 0x89]; [0xE2; 0x80; 0x8A];
      [0xE2; 0x80; 0xA8]; [0xE2; 0x80; 0xA9]; [0xE2; 0x80; 0xAF]; [0xE2; 0x81; 0x9F];
      [0xE3; 0x80; 0x80]]%N).

Fixpoint strip_bytes (p l : bytes) : option bytes :=
  match p, l with
  | [], _ => Some l
  | a :: p', b :: l' => if ascii_dec a b then strip_bytes p' l' else None
  | _ :: _, [] => None
  end.

Fixpoint strip_any (ps : list bytes) (l : bytes) : option bytes :=
  match ps with
  | [] => None
  | p :: ps' => match strip_bytes p l with Some r => Some r | None => strip_any ps' l end
  end.

Fixpoint strip_while (fuel : nat) (ps : list bytes) (l : bytes) : bytes :=
  match fuel with
  | 0 => l
  | S fuel => match strip_any ps l with Some r => strip_while fuel ps r | None => l end
  end.

Definition trim_start_bytes (l : bytes) : bytes := strip_while (length l) ws_encodings l.
Definition trim_end_bytes (l : bytes) : bytes :=
  rev (strip_while (length l) (map (@rev ascii) ws_encodings) (rev l)).

(** [s.trim()] *)
Definition trim (s : string) : string :=
  string_of (trim_end_bytes (trim_start_bytes (bytes_of s))).

(** ** Unsigned decimals *)

Definition u64_bound : N := (2 ^ 64)%N.

(** [n.to_string()] *)
Definition print_u64 (n : N) : string := NilZero.string_of_uint (N.to_uint n).

(** [s.parse::<u64>().ok()] (and [usize] on the 64-bit targets): an optional
    plus sign, at least one digit, and nothing else; [None] on overflow. *)
Definition parse_u64 (s : string) : option N :=
  let digits := match s with String "+"%char s' => s' | _ => s end in
  match NilZero.uint_of_string digits with
  | Some d => let n := N.of_uint d in if (n <? u64_bound)%N then Some n else None
  | None => None
  end.

Lemma uint_head_not_plus d s :
  NilZero.string_of_uint d = s -> forall s', s <> String "+"%char s'.
Proof. intros <- s' H. destruct d; discriminate. Qed.

Lemma to_uint_nonnil n : N.to_uint n <> Decimal.Nil.
Proof.
  intros H. pose proof (DecimalN.Unsigned.of_to n) as E. rewrite H in E.
  simpl in E. by subst.
Qed.

Lemma parse_print_u64 n : (n < u64_bound)%N -> parse_u64 (print_u64 n) = Some n.
Proof.
  intros Hn. unfold parse_u64, print_u64.
  set (s := NilZero.string_of_uint (N.to_uint n)).
  assert (Hs : match s with String "+"%char s' => s' | _ => s end = s).
  { pose proof (uint_head_not_plus (N.to_uint n) s eq_refl) as H.
    destruct s as [|a s']; [done|].
    destruct (ascii_dec a "+"%char) as [->|Ha]; [by destruct (H s')|].
    destruct a as [[] [] [] [] [] [] [] []]; try done. }
  rewrite Hs. unfold s.
  rewrite NilZero.usu by apply to_uint_nonnil.
  rewrite DecimalN.Unsigned.of_to. by apply N.ltb_lt in Hn as ->.
Qed.

(** ** Order on strings: [Ord] compares bytes *)

Lemma string_leb_total x y : String.leb x y = false -> String.leb y x = true.
Proof. destruct (String.leb_total x y) as [H|H]; congruence. Qed.

Lemma ascii_compare_N a b : Ascii.compare a b = N.compare (N_of_ascii a) (N_of_ascii b).
Proof. done. Qed.

Lemma string_leb_cons a x b y :
  String.leb (String a x) (String b y) = true <->
  (N_of_ascii a < N_of_ascii b)%N \/ (a = b /\ String.leb x y = true).
Proof.
  unfold String.leb. simpl. rewrite ascii_compare_N.
  destruct (N.compare_spec (N_of_ascii a) (N_of_ascii b)) as [E|E|E].
  - assert (a = b) as -> by (by rewrite <-(ascii_N_embedding a), E, ascii_N_embedding).
    split; [by right|]. intros [?|[_ ?]]; [lia|done].
  - split; [by left|done].
  - split; [done|]. intros [?|[-> _]]; lia.
Qed.

Lemma string_leb_trans x y z :
  String.leb x y = true -> String.leb y z = true -> String.leb x z = true.
Proof.
  revert y z; induction x as [|a x IH]; intros [|b y] [|c z]; try done.
  rewrite !string_leb_cons. intros [?|[-> Hxy]] [?|[-> Hyz]].
  - left; lia.
  - by left.
  - by left.
  - right. split; [done|]. by apply (IH y).
Qed.

Lemma string_leb_antisym x y : String.leb x y = true -> String.leb y x = true -> x = y.
Proof. apply String.leb_antisym. Qed.

(** [v.sort()] on strings. *)
Definition sort_strings : list string -> list string := sort_by String.leb.

(** [v.dedup()]: runs of equal elements are cut to their first. *)
Fixpoint dedup {A} `{EqDecision A} (l : list A) : list A :=
  match l with
  | [] => []
  | x :: l' => x :: match dedup l' with
                    | y :: l'' => if decide (x = y) then l'' else y :: l''
                    | [] => []
                    end
  end.

(** The elements of a set, sorted. *)
Definition sorted_elements (X : gset string) : list string := sort_strings (elements X).

Lemma sort_strings_unique l1 l2 : l1 ≡ₚ l2 -> sort_strings l1 = sort_strings l2.
Proof.
  intros Hp.
  assert (Hs : forall l, StronglySorted (fun x y => String.leb x y = true) (sort_strings l)).
  { intros l. eapply StronglySorted_mono;
      [|apply (sort_by_sorted String.leb string_leb_total string_leb_trans)].
    intros x y. by rewrite Is_true_true. }
  assert (Hp' : sort_strings l1 ≡ₚ sort_strings l2) by (unfold sort_strings; by rewrite !sort_by_perm).
  pose proof (Hs l1) as Hs1. pose proof (Hs l2) as Hs2. clear Hs. revert Hp' Hs1 Hs2.
  generalize (sort_strings l1) (sort_strings l2). clear.
  intros l1; induction l1 as [|x l1 IH]; intros l2 Hp H1 H2.
  { by apply Permutation_nil_l in Hp as ->. }
  destruct l2 as [|y l2]; [by apply Permutation_nil_r in Hp|].
  apply StronglySorted_inv in H1 as [H1 F1]. apply StronglySorted_inv in H2 as [H2 F2].
  rewrite Forall_forall in F1, F2.
  assert (x = y) as ->.
  { assert (Hx : x ∈ y :: l2) by (rewrite <-Hp; by left).
    assert (Hy : y ∈ x :: l1) by (rewrite Hp; by left).
    apply elem_of_cons in Hx as [|Hx]; [done|]. apply elem_of_cons in Hy as [|Hy]; [done|].
    apply string_leb_antisym; [by apply F1|by apply F2]. }
  f_equal. apply IH; [|done..]. by apply Permutation.Permutation_cons_inv in Hp.
Qed.

Lemma elem_of_sorted_elements x X : x ∈ sorted_elements X <-> x ∈ X.
Proof. unfold sorted_elements, sort_strings. by rewrite sort_by_elem_of, elem_of_elements. Qed.

Lemma sorted_elements_nil X : sorted_elements X = [] <-> X = ∅.
Proof.
  split; [|by intros ->]. intros H. apply set_eq. intros x.
  rewrite <-elem_of_sorted_elements, H. set_solver.
Qed.

Lemma sorted_elements_length X : length (sorted_elements X) = size X.
Proof. unfold sorted_elements, sort_strings. rewrite sort_by_length. done. Qed.

Lemma sorted_elements_ext X Y : X ≡ Y -> sorted_elements X = sorted_elements Y.
Proof. intros H. unfold sorted_elements. apply sort_strings_unique. by rewrite H. Qed.

Lemma dedup_elem `{EqDecision A} (l : list A) x : x ∈ dedup l <-> x ∈ l.
Proof.
  induction l as [|y l IH]; simpl; [done|]. rewrite !elem_of_cons, <-IH.
  destruct (dedup l) as [|z l']; [done|]. case_decide as E; [|done]. subst z.
  rewrite elem_of_cons. tauto.
Qed.

(** Deduplicating a sorted list leaves each element once. *)
Lemma dedup_sorted_NoDup l :
  StronglySorted (fun x y => String.leb x y = true) l ->
  StronglySorted (fun x y => String.leb x y = true /\ x <> y) (dedup l).
Proof.
  induction 1 as [|x l Hs IH HF]; simpl; [constructor|].
  assert (HF' : Forall (fun y => String.leb x y = true) (dedup l)).
  { apply Forall_forall. intros y Hy. rewrite dedup_elem in Hy. rewrite Forall_forall in HF. by apply HF. }
  destruct (dedup l) as [|y l'] eqn:E; [repeat constructor|].
  apply StronglySorted_inv in IH as [IH Hy]. apply Forall_cons in HF' as [Hxy HF'].
  case_decide as D.
  - subst y. by constructor.
  - constructor; [by constructor|]. constructor; [done|].
    rewrite Forall_forall in Hy, HF' |- *. intros z Hz. split; [by apply (HF' z)|].
    intros ->. destruct (Hy z Hz) as [Hyz Hne]. apply Hne.
    by apply string_leb_antisym.
Qed.

(** ** Prefixes *)

Lemma string_app_cons a p r : String a p +:+ r = String a (p +:+ r).
Proof. done. Qed.
Lemma string_app_nil r : EmptyString +:+ r = r.
Proof. done. Qed.
Ltac str_app := rewrite ?string_app_cons, ?string_app_nil in *.

Lemma strip_prefix_app p s : strip_prefix p (p +:+ s) = Some s.
Proof. induction p as [|a p IH]; simpl; [done|]. by destruct (ascii_dec a a). Qed.

Lemma strip_prefix_Some p s r : strip_prefix p s = Some r <-> s = p +:+ r.
Proof.
  split; [|intros ->; apply strip_prefix_app].
  revert s; induction p as [|a p IH]; intros s; simpl; [by intros [= ->]|].
  destruct s as [|b s]; [done|]. destruct (ascii_dec a b) as [->|]; [|done].
  by intros ->%IH.
Qed.

Lemma strip_prefix_None p s : strip_prefix p s = None <-> forall r, s <> p +:+ r.
Proof.
  split.
  - intros H r ->. by rewrite strip_prefix_app in H.
  - intros H. destruct (strip_prefix p s) as [r|] eqn:E; [|done].
    apply strip_prefix_Some in E. by destruct (H r).
Qed.

Lemma starts_with_spec p s : starts_with p s = true <-> exists r, s = p +:+ r.
Proof.
  unfold starts_with. revert s; induction p as [|a p IH]; intros s; simpl.
  { destruct s; (split; [|done]); intros _; by eexists. }
  destruct s as [|b s]; [split; [done|by intros []]|]. simpl.
  destruct (ascii_dec a b) as [->|Hab].
  - rewrite IH. split; intros [r Hr]; exists r; rewrite string_app_cons in *; congruence.
  - split; [done|]. intros [r Hr]. rewrite string_app_cons in Hr. congruence.
Qed.

Lemma string_app_assoc (a b c : string) : a +:+ b +:+ c = (a +:+ b) +:+ c.
Proof. induction a as [|x a IH]; [done|]. by rewrite !string_app_cons, IH. Qed.

Lemma string_app_inj_l (p x y : string) : p +:+ x = p +:+ y -> x = y.
Proof. induction p as [|a p IH]; [done|]. rewrite !string_app_cons. intros [= H]. by apply IH. Qed.

Fixpoint has_char (c : ascii) (s : string) : bool :=
  match s with EmptyString => false | String a s' => bool_decide (a = c) || has_char c s' end.

Lemma split_once_Some c s x y :
  split_once c s = Some (x, y) <-> s = x +:+ String c y /\ has_char c x = false.
Proof.
  revert x y; induction s as [|a s IH]; intros x y; simpl.
  { split; [done|]. intros [H _]. by destruct x. }
  destruct (ascii_dec a c) as [->|Hac].
  - split; [intros [= <- <-]; done|]. intros [H Hx]. destruct x as [|b x]; str_app; simpl in *.
    + by injection H as <-.
    + injection H as <- _. apply orb_false_iff in Hx as [Hx _].
      by apply bool_decide_eq_false in Hx.
  - destruct (split_once c s) as [[x' y']|] eqn:E.
    + destruct (proj1 (IH x' y') eq_refl) as [Hs Hx']. split.
      * intros [= <- <-]. simpl. rewrite Hx'. split; [by rewrite Hs|].
        by rewrite bool_decide_eq_false_2.
      * intros [H Hx]. destruct x as [|b x]; str_app; simpl in *; [congruence|].
        injection H as <- H. apply orb_false_iff in Hx as [_ Hx].
        specialize (proj2 (IH x y) (conj H Hx)). congruence.
    + split; [done|]. intros [H Hx]. destruct x as [|b x]; str_app; simpl in *; [congruence|].
      injection H as <- H. apply orb_false_iff in Hx as [_ Hx].
      by specialize (proj2 (IH x y) (conj H Hx)).
Qed.

(** A decimal number has no slash. *)
Lemma print_u64_no_char c n : in_range 48 57 c = false -> has_char c (print_u64 n) = false.
Proof.
  intros Hc. unfold print_u64. generalize (N.to_uint n). clear n.
  assert (H : forall d, has_char c (NilEmpty.string_of_uint d) = false).
  { induction d as [|d IH|d IH|d IH|d IH|d IH|d IH|d IH|d IH|d IH|d IH]; simpl; [done|..];
      rewrite IH, orb_false_r; apply bool_decide_eq_false; intros <-; done. }
  intros d. unfold NilZero.string_of_uint. destruct d; try apply H.
  simpl. rewrite orb_false_r. apply bool_decide_eq_false. by intros <-.
Qed.

(** ** Trimming the texts the program writes *)

Definition plain_char (a : ascii) : bool := in_range 33 126 a.

Lemma strip_any_plain a l :
  plain_char a = true ->
  strip_any ws_encodings (a :: l) = None /\
  strip_any (map (@rev ascii) ws_encodings) (a :: l) = None.
Proof.
  destruct a as [[] [] [] [] [] [] [] []]; intros H;
    first [discriminate H | split; reflexivity].
Qed.

Lemma strip_while_plain fuel ps l :
  (forall a l', l = a :: l' -> strip_any ps l = None) -> strip_any ps [] = None ->
  strip_while fuel ps l = l.
Proof.
  intros H H0. destruct fuel; [done|]. simpl. destruct l as [|a l]; [by rewrite H0|].
  by rewrite (H a l eq_refl).
Qed.

Lemma trim_plain_line x :
  Forall (fun a => plain_char a = true) (bytes_of x) -> x <> EmptyString ->
  trim x = x /\ trim (x +:+ String LF EmptyString) = x.
Proof.
  intros HF Hne.
  assert (Happ : bytes_of (x +:+ String LF EmptyString) = bytes_of x ++ [LF]).
  { clear. induction x as [|a x IH]; [done|]. rewrite string_app_cons.
    change (a :: bytes_of (x +:+ String LF EmptyString) = a :: (bytes_of x ++ [LF])). by rewrite IH. }
  unfold trim. rewrite Happ.
  assert (Hl : bytes_of x <> []) by (by destruct x).
  clear Happ Hne. rewrite <-(string_of_bytes_of x) at 2 4. revert HF Hl. generalize (bytes_of x). clear.
  intros l HF Hne.
  assert (Hs : forall l', trim_start_bytes (l ++ l') = l ++ l').
  { intros l'. unfold trim_start_bytes. destruct l as [|a l]; [done|].
    apply Forall_cons in HF as [Ha _]. apply strip_while_plain; [|reflexivity].
    intros b m E. rewrite E. injection E as <- _. exact (proj1 (strip_any_plain a m Ha)). }
  assert (Hr : forall fuel, strip_while fuel (map (@rev ascii) ws_encodings) (rev l) = rev l).
  { intros fuel. apply strip_while_plain; [|reflexivity]. intros a m Ea.
    assert (Ha : plain_char a = true).
    { rewrite Forall_forall in HF. apply HF. apply list_elem_of_In, in_rev. rewrite Ea. by left. }
    rewrite Ea. exact (proj2 (strip_any_plain a m Ha)). }
  pose proof (Hs []) as Hs0. rewrite app_nil_r in Hs0. rewrite Hs0, Hs.
  unfold trim_end_bytes. rewrite Hr, rev_app_distr, length_app, Nat.add_comm.
  assert (Hlf : strip_any (map (@rev ascii) ws_encodings) (LF :: rev l) = Some (rev l)) by reflexivity.
  change (rev [LF] ++ rev l) with (LF :: rev l). cbn [length Nat.add strip_while].
  by rewrite Hlf, Hr, rev_involutive.
Qed.

Lemma print_u64_plain n : Forall (fun a => plain_char a = true) (bytes_of (print_u64 n)).
Proof.
  unfold print_u64. generalize (N.to_uint n). clear n.
  assert (H : forall d, Forall (fun a => plain_char a = true) (bytes_of (NilEmpty.string_of_uint d))).
  { induction d; simpl; constructor; done. }
  intros d. destruct d; try apply H. by repeat constructor.
Qed.

(** ** Characters *)

(** The classification and the case mapping of characters outside ASCII, which
    come from the Unicode tables of the standard library. *)
Class Unicode : Type := {
  unicode_alphanumeric : string -> bool;
  unicode_lowercase : string -> string
}.

Fixpoint chars_go (fuel : nat) (l : bytes) : list string :=
  match fuel, l with
  | S fuel, b0 :: l' =>
      let n := (utf8_chunk b0 l').2 in string_of (take n l) :: chars_go fuel (drop n l)
  | _, _ => []
  end.

(** [s.chars()], each character as its encoding. *)
Definition chars (s : string) : list string := chars_go (String.length s) (bytes_of s).

Fixpoint split_pieces (p : string -> bool) (cs : list string) : list string :=
  match cs with
  | [] => [EmptyString]
  | c :: cs' =>
      if p c then EmptyString :: split_pieces p cs'
      else match split_pieces p cs' with
           | w :: ws => (c +:+ w) :: ws
           | [] => [c]
           end
  end.

(** [s.split(|c: char| p(c))] *)
Definition split_chars (p : string -> bool) (s : string) : list string := split_pieces p (chars s).

Definition ascii_alphanumeric (a : ascii) : bool :=
  in_range 48 57 a || in_range 65 90 a || in_range 97 122 a.

(** ASCII lower case; also what SQLite folds. *)
Definition lower_ascii (a : ascii) : ascii :=
  if in_range 65 90 a then ascii_of_N (N_of_ascii a + 32) else a.

Definition is_ascii (s : string) : bool := forallb (in_range 0 127) (bytes_of s).

Section unicode.
Context {unicode : Unicode}.

(** [char::is_alphanumeric] *)
Definition is_alphanumeric (c : string) : bool :=
  match c with
  | String a EmptyString => ascii_alphanumeric a
  | _ => unicode_alphanumeric c
  end.

(** [str::to_lowercase] *)
Definition to_lowercase (s : string) : string :=
  if is_ascii s then string_of (lower_ascii <$> bytes_of s) else unicode_lowercase s.
End unicode.

(** The tables cut down to ASCII, for evaluation. *)
Definition ascii_unicode : Unicode := {|
  unicode_alphanumeric := fun _ => false;
  unicode_lowercase := fun s => s
|}.
