(* ===== verification/Float64.v ===== *)
(** Rust's [f64]: the binary64 operations of the Standard Library's executable
    specification of IEEE 754, the conversion from integers, decimal literals and
    the formatting of a value with two decimals. *)
From S2P Require Import Prelude RustStr.
From Stdlib Require Import SpecFloat.

Abbreviation f64 := spec_float.

Definition f64_add : f64 -> f64 -> f64 := SFadd 53 1024.
Definition f64_sub : f64 -> f64 -> f64 := SFsub 53 1024.
Definition f64_mul : f64 -> f64 -> f64 := SFmul 53 1024.
Definition f64_div : f64 -> f64 -> f64 := SFdiv 53 1024.
Definition f64_abs : f64 -> f64 := SFabs.
(** [a < b] and [a <= b]: false when one of them is not a number. *)
Definition f64_lt : f64 -> f64 -> bool := SFltb.
Definition f64_le : f64 -> f64 -> bool := SFleb.
Definition f64_zero : f64 := S754_zero false.

(** [n as f64] *)
Definition f64_of_N (n : N) : f64 := binary_normalize 53 1024 (Z.of_N n) 0 false.

(** The literal [num/den]: both are exact, so that the quotient is the number
    nearest to the fraction. *)
Definition f64_lit (num den : N) : f64 := f64_div (f64_of_N num) (f64_of_N den).

(** [|m * 2^e|] in hundredths, to the nearest, ties to even. *)
Definition hundredths (m : positive) (e : Z) : N :=
  let n := (Npos m * 100)%N in
  match e with
  | Zneg p =>
      let d := (2 ^ Npos p)%N in
      let q := (n / d)%N in
      match (2 * (n mod d) ?= d)%N with
      | Lt => q
      | Gt => q + 1
      | Eq => if N.even q then q else q + 1
      end%N
  | _ => (n * 2 ^ Z.to_N e)%N
  end.

Definition two_digits (n : N) : string :=
  if (n <? 10)%N then "0" +:+ print_u64 n else print_u64 n.

(** [format!("{x:.2}")] *)
Definition fixed2 (x : f64) : string :=
  let sign (s : bool) := if s then "-"%string else ""%string in
  match x with
  | S754_nan => "NaN"
  | S754_infinity s => sign s +:+ "inf"
  | S754_zero s => sign s +:+ "0.00"
  | S754_finite s m e =>
      let n := hundredths m e in
      sign s +:+ print_u64 (n / 100) +:+ "." +:+ two_digits (n mod 100)
  end.

Example fixed2_fifth : fixed2 (f64_lit 1 5) = "0.20"%string.
Proof. reflexivity. Qed.
Example fixed2_tie : fixed2 (f64_lit 1 8) = "0.12"%string.
Proof. reflexivity. Qed.
Example fixed2_big : fixed2 (f64_lit 1234567 10) = "123456.70"%string.
Proof. reflexivity. Qed.
