(* ===== verification/TextMerge.v ===== *)
(** Level 1 of the merge engine ([src/src/merge/mod.rs]): the longest common
    subsequence of two line sequences, the hunks of a line diff, the overlap
    test, and the application of two hunk sets to the base. The algorithms are
    stated for any type of lines with decidable equality; the merge engine
    instantiates it with [string]. *)
From S2P Require Import Prelude RustStr.

Section text.
Context {line : Type} `{EqDecision line}.
Implicit Types a b base modified : list line.

(** ** Definitions *)

(** One row of the table, [dp[i]], from the next one, [dp[i + 1]]; [x = a[i]]
    and the columns are filled from the right. *)
Fixpoint dp_row (x : line) b (next : list nat) : list nat :=
  match b with
  | [] => [0]
  | y :: b' =>
      let cur := dp_row x b' (tail next) in
      (if decide (x = y) then 1 + default 0 (next !! 1)
       else Nat.max (default 0 (next !! 0)) (default 0 (cur !! 0))) :: cur
  end.

Fixpoint dp_table a b : list (list nat) :=
  match a with
  | [] => [replicate (S (length b)) 0]
  | x :: a' =>
      let rest := dp_table a' b in
      dp_row x b (default [] (rest !! 0)) :: rest
  end.

Definition dp_at (dp : list (list nat)) (i j : nat) : nat :=
  default 0 (default [] (dp !! i) !! j).

(** The walk through the table, [while i < m && j < n]. *)
Fixpoint lcs_walk (fuel : nat) a b (dp : list (list nat)) (i j : nat) : list (nat * nat) :=
  match fuel with
  | 0 => []
  | S fuel =>
      match a !! i, b !! j with
      | Some x, Some y =>
          if decide (x = y) then (i, j) :: lcs_walk fuel a b dp (S i) (S j)
          else if dp_at dp i (S j) <=? dp_at dp (S i) j
               then lcs_walk fuel a b dp (S i) j
               else lcs_walk fuel a b dp i (S j)
      | _, _ => []
      end
  end.

Definition lcs_indices a b : list (nat * nat) :=
  let m := length a in
  let n := length b in
  if (m =? 0) || (n =? 0) then []
  else lcs_walk (m + n) a b (dp_table a b) 0 0.

(** A contiguous change: base lines [base_start .. base_end] become [new_lines]. *)
Record Hunk : Type := mkHunk {
  base_start : nat;
  base_end : nat;
  new_lines : list line
}.

Fixpoint hunks_loop modified (pairs : list (nat * nat)) (base_pos mod_pos : nat)
    (hunks : list Hunk) : option (list Hunk * nat * nat) :=
  match pairs with
  | [] => Some (hunks, base_pos, mod_pos)
  | (bi, mi) :: pairs' =>
      hunks' ← (if (base_pos <? bi) || (mod_pos <? mi)
                then nl ← slice modified mod_pos mi; Some (hunks ++ [mkHunk base_pos bi nl])
                else Some hunks);
      hunks_loop modified pairs' (S bi) (S mi) hunks'
  end.

(** [None] is the panic of a slice out of bounds. *)
Definition compute_hunks base modified : option (list Hunk) :=
  '(hunks, base_pos, mod_pos) ← hunks_loop modified (lcs_indices base modified) 0 0 [];
  hunks' ← (if (base_pos <? length base) || (mod_pos <? length modified)
            then nl ← slice_from modified mod_pos;
                 Some (hunks ++ [mkHunk base_pos (length base) nl])
            else Some hunks);
  Some (filter (fun h => base_start h < base_end h \/ new_lines h <> []) hunks').

Definition is_nil {A} (l : list A) : bool := match l with [] => true | _ => false end.

Definition hunk_pair_overlap (ha hb : Hunk) : bool :=
  let a_start := base_start ha in
  let a_end := base_end ha in
  let b_start := base_start hb in
  let b_end := base_end hb in
  if (a_start <? a_end) && (b_start <? b_end)
  then (a_start <? b_end) && (b_start <? a_end)
  else if (a_start =? a_end) && (b_start =? b_end) && (a_start =? b_start)
       then negb (is_nil (new_lines ha)) && negb (is_nil (new_lines hb))
       else false.

Definition hunks_overlap (a b : list Hunk) : bool :=
  existsb (fun ha => existsb (hunk_pair_overlap ha) b) a.

Definition sort_hunks : list Hunk -> list Hunk :=
  sort_by (fun h1 h2 => base_start h1 <=? base_start h2).

(** The loop over the sorted hunks and the copy of the remaining base lines. *)
Fixpoint apply_loop base (pos : nat) (all : list Hunk) : option (list line) :=
  match all with
  | [] => slice_from base pos
  | h :: all' =>
      unchanged ← slice base pos (base_start h);
      rest ← apply_loop base (if pos <? base_end h then base_end h else pos) all';
      Some (unchanged ++ new_lines h ++ rest)
  end.

(** The merged lines, when both hunk sets are non-empty. *)
Definition merge_lines base (head_hunks ws_hunks : list Hunk) : option (list line) :=
  apply_loop base 0 (sort_hunks (head_hunks ++ ws_hunks)).

(** ** Longest common subsequence *)

(** Reference definition. *)
Fixpoint lcs_len a : list line -> nat :=
  fix go b :=
    match a, b with
    | x :: a', y :: b' => if decide (x = y) then S (lcs_len a' b') else lcs_len a' b `max` go b'
    | _, _ => 0
    end.

Lemma lcs_len_nil_l b : lcs_len [] b = 0.
Proof. by destruct b. Qed.
Lemma lcs_len_nil_r a : lcs_len a [] = 0.
Proof. by destruct a. Qed.
Lemma lcs_len_cons x a y b :
  lcs_len (x :: a) (y :: b) =
  if decide (x = y) then S (lcs_len a b) else lcs_len a (y :: b) `max` lcs_len (x :: a) b.
Proof. done. Qed.

Lemma sublist_tail {A} (z : A) c l x : z :: c `sublist_of` x :: l -> c `sublist_of` l.
Proof.
  inversion 1; subst; [done|].
  eapply sublist_cons_l in H2 as (k1 & k2 & -> & H2). by apply sublist_inserts_l, sublist_cons.
Qed.

Lemma sublist_uncons {A} (c l : list A) x :
  c `sublist_of` x :: l -> c `sublist_of` l \/ exists c', c = x :: c' /\ c' `sublist_of` l.
Proof. inversion 1; subst; eauto. Qed.

Lemma lcs_len_max c a b :
  c `sublist_of` a -> c `sublist_of` b -> length c <= lcs_len a b.
Proof.
  revert b c; induction a as [|x a IHa]; intros b c Ha Hb.
  { apply sublist_nil_r in Ha as ->. simpl. lia. }
  revert c Ha Hb; induction b as [|y b IHb]; intros c Ha Hb.
  { apply sublist_nil_r in Hb as ->. simpl. lia. }
  rewrite lcs_len_cons. case_decide as Hxy.
  - destruct c as [|z c]; simpl; [lia|].
    apply sublist_tail in Ha, Hb. specialize (IHa b c Ha Hb). lia.
  - apply sublist_uncons in Ha as [Ha|(c' & -> & Ha)].
    + specialize (IHa (y :: b) c Ha Hb). lia.
    + apply sublist_uncons in Hb as [Hb|(c'' & [= ? _] & _)]; [|done].
      specialize (IHb (x :: c') (sublist_skip _ _ _ Ha) Hb). lia.
Qed.

(** The table holds the reference lengths of the suffixes. *)
Lemma dp_row_length x b next : length (dp_row x b next) = S (length b).
Proof. revert next; induction b; intros; simpl; auto. Qed.

Lemma lookup_tail {A} (l : list A) i : tail l !! i = l !! S i.
Proof. by destruct l. Qed.

Lemma dp_row_lookup x a b next :
  (forall j, j <= length b -> next !! j = Some (lcs_len a (drop j b))) ->
  forall j, j <= length b -> dp_row x b next !! j = Some (lcs_len (x :: a) (drop j b)).
Proof.
  revert next; induction b as [|y b IH]; intros next Hn j Hj; simpl in *.
  { replace j with 0 by lia. done. }
  assert (Ht : forall k, k <= length b -> tail next !! k = Some (lcs_len a (drop k b))).
  { intros k Hk. rewrite lookup_tail. apply (Hn (S k)). lia. }
  destruct j as [|j]; simpl; [|apply IH; [done|lia]].
  pose proof (IH _ Ht 0 ltac:(lia)) as Hc.
  pose proof (Hn 0 ltac:(lia)) as H0. pose proof (Hn 1 ltac:(lia)) as H1.
  rewrite H0, H1, Hc. simpl. rewrite drop_0. by case_decide.
Qed.

Lemma dp_table_lookup a b i j :
  i <= length a -> j <= length b ->
  dp_table a b !! i ≫= (.!! j) = Some (lcs_len (drop i a) (drop j b)).
Proof.
  revert i j; induction a as [|x a IH]; intros i j Hi Hj; simpl in *.
  { replace i with 0 by lia. rewrite drop_0, lcs_len_nil_l. simpl.
    change (0 :: replicate (length b) 0) with (replicate (S (length b)) 0).
    apply lookup_replicate_2. lia. }
  destruct i as [|i]; simpl; [|apply IH; lia].
  apply dp_row_lookup; [|done]. intros k Hk.
  specialize (IH 0 k ltac:(lia) Hk). rewrite drop_0 in IH.
  by destruct (dp_table a b !! 0).
Qed.

Lemma dp_at_spec a b i j :
  i <= length a -> j <= length b ->
  dp_at (dp_table a b) i j = lcs_len (drop i a) (drop j b).
Proof.
  intros Hi Hj. pose proof (dp_table_lookup a b i j Hi Hj) as H.
  unfold dp_at. destruct (dp_table a b !! i) as [r|]; simpl in *; [|done].
  by rewrite H.
Qed.

(** An increasing matching of [a] and [b] from positions [i] and [j] on. *)
Fixpoint matching a b (i j : nat) (pairs : list (nat * nat)) : Prop :=
  match pairs with
  | [] => i <= length a /\ j <= length b
  | (p, q) :: pairs' =>
      i <= p /\ j <= q /\ (exists x, a !! p = Some x /\ b !! q = Some x) /\
      matching a b (S p) (S q) pairs'
  end.

Lemma matching_le a b i i' j j' pairs :
  matching a b i' j' pairs -> i <= i' -> j <= j' -> matching a b i j pairs.
Proof. destruct pairs as [|[p q] ps]; simpl; intuition lia. Qed.

Lemma matching_bound a b i j pairs :
  matching a b i j pairs -> i <= length a /\ j <= length b.
Proof.
  destruct pairs as [|[p q] ps]; simpl; [done|].
  intros (? & ? & (x & Hp%lookup_lt_Some & Hq%lookup_lt_Some) & _). lia.
Qed.

Lemma lcs_walk_spec fuel a b i j :
  length a - i + (length b - j) <= fuel -> i <= length a -> j <= length b ->
  let pairs := lcs_walk fuel a b (dp_table a b) i j in
  matching a b i j pairs /\ length pairs = lcs_len (drop i a) (drop j b).
Proof.
  revert i j; induction fuel as [|fuel IH]; intros i j Hf Hi Hj; simpl.
  { rewrite (drop_ge a) by lia. by rewrite lcs_len_nil_l. }
  destruct (a !! i) as [x|] eqn:Hx; simpl.
  2:{ apply lookup_ge_None in Hx. by rewrite (drop_ge a), lcs_len_nil_l by lia. }
  destruct (b !! j) as [y|] eqn:Hy; simpl.
  2:{ apply lookup_ge_None in Hy. by rewrite (drop_ge b), lcs_len_nil_r by lia. }
  pose proof (lookup_lt_Some _ _ _ Hx). pose proof (lookup_lt_Some _ _ _ Hy).
  rewrite !dp_at_spec by lia.
  rewrite (drop_S _ _ _ Hx), (drop_S _ _ _ Hy), lcs_len_cons.
  rewrite <-(drop_S _ _ _ Hx), <-(drop_S _ _ _ Hy).
  case_decide as Hxy.
  - subst y. specialize (IH (S i) (S j)) as [IHm IHl]; [lia..|]. simpl.
    split; [|by rewrite IHl]. split_and!; [lia|lia|by exists x|done].
  - destruct (_ <=? _) eqn:E.
    + apply Nat.leb_le in E.
      specialize (IH (S i) j) as [IHm IHl]; [lia..|]. split; [|rewrite IHl; lia].
      eapply matching_le; eauto.
    + apply Nat.leb_gt in E.
      specialize (IH i (S j)) as [IHm IHl]; [lia..|]. split; [|rewrite IHl; lia].
      eapply matching_le; eauto.
Qed.

Lemma lcs_indices_spec a b :
  matching a b 0 0 (lcs_indices a b) /\ length (lcs_indices a b) = lcs_len a b.
Proof.
  unfold lcs_indices. destruct (_ || _) eqn:E.
  - split; [simpl; lia|]. apply orb_true_iff in E as [E|E]; apply Nat.eqb_eq in E.
    + destruct a; [|done]. by rewrite lcs_len_nil_l.
    + destruct b; [|done]. by rewrite lcs_len_nil_r.
  - destruct (lcs_walk_spec (length a + length b) a b 0 0) as [Hm Hl]; [lia..|].
    split; [done|]. by rewrite Hl, !drop_0.
Qed.

(** ** Hunks of a diff *)

(** What [compute_hunks] yields for a base of [n] lines: hunks inside the base,
    none of them empty, separated by at least one common line. *)
Definition hunk_wf (n : nat) (h : Hunk) : Prop :=
  base_start h <= base_end h <= n /\ (base_start h < base_end h \/ new_lines h <> []).

Definition hunks_wf (n : nat) (hs : list Hunk) : Prop :=
  Forall (hunk_wf n) hs /\ StronglySorted (fun h1 h2 => base_end h1 < base_start h2) hs.

(** The hunks pushed from positions [bp] and [mp] on. *)
Fixpoint hunks_from base modified (pairs : list (nat * nat)) (bp mp : nat) : list Hunk :=
  match pairs with
  | [] =>
      if (bp <? length base) || (mp <? length modified)
      then [mkHunk bp (length base) (drop mp modified)] else []
  | (bi, mi) :: pairs' =>
      (if (bp <? bi) || (mp <? mi)
       then [mkHunk bp bi (take (mi - mp) (drop mp modified))] else [])
      ++ hunks_from base modified pairs' (S bi) (S mi)
  end.

Lemma hunks_loop_from base modified pairs bp mp acc :
  matching base modified bp mp pairs ->
  ('(hunks, base_pos, mod_pos) ← hunks_loop modified pairs bp mp acc;
   (if (base_pos <? length base) || (mod_pos <? length modified)
    then nl ← slice_from modified mod_pos;
         Some (hunks ++ [mkHunk base_pos (length base) nl])
    else Some hunks)) = Some (acc ++ hunks_from base modified pairs bp mp).
Proof.
  revert bp mp acc; induction pairs as [|[bi mi] ps IH]; intros bp mp acc Hm; simpl.
  - destruct Hm as [Hb Hm]. destruct (_ || _); [|by rewrite app_nil_r].
    by rewrite slice_from_Some.
  - destruct Hm as (? & ? & (x & _ & Hq%lookup_lt_Some) & Hm).
    destruct (_ || _); simpl; [rewrite slice_Some by lia; simpl|]; rewrite IH by done.
    + by rewrite <-app_assoc.
    + done.
Qed.

Lemma hunks_from_lb base modified pairs bp mp :
  matching base modified bp mp pairs ->
  Forall (fun h => bp <= base_start h) (hunks_from base modified pairs bp mp).
Proof.
  revert bp mp; induction pairs as [|[bi mi] ps IH]; intros bp mp Hm; simpl.
  - destruct (_ || _); repeat constructor.
  - destruct Hm as (? & ? & _ & Hm). apply Forall_app; split.
    + destruct (_ || _); repeat constructor.
    + eapply Forall_impl; [by apply IH|]. simpl; lia.
Qed.

Lemma hunks_from_wf base modified pairs bp mp :
  matching base modified bp mp pairs ->
  hunks_wf (length base) (hunks_from base modified pairs bp mp).
Proof.
  revert bp mp; induction pairs as [|[bi mi] ps IH]; intros bp mp Hm; simpl.
  - destruct (_ || _) eqn:E; [|repeat constructor]. destruct Hm as [Hb Hm].
    split; [|repeat constructor]. constructor; [|done]. split; simpl; [lia|].
    apply orb_true_iff in E as [E|E]; apply Nat.ltb_lt in E; [by left|].
    right. intros Hd%(f_equal length). rewrite length_drop in Hd. simpl in Hd. lia.
  - destruct Hm as (? & ? & (x & Hp%lookup_lt_Some & Hq%lookup_lt_Some) & Hm).
    destruct (IH _ _ Hm) as [HF HS].
    destruct (_ || _) eqn:E; [|done]. simpl. split.
    + constructor; [|done]. split; simpl; [lia|].
      apply orb_true_iff in E as [E|E]; apply Nat.ltb_lt in E; [by left|].
      right. intros Hd%(f_equal length).
      rewrite length_take, length_drop in Hd. simpl in Hd. lia.
    + constructor; [done|]. eapply Forall_impl; [by apply hunks_from_lb|]. simpl; lia.
Qed.

Lemma compute_hunks_eq base modified :
  compute_hunks base modified = Some (hunks_from base modified (lcs_indices base modified) 0 0).
Proof.
  destruct (lcs_indices_spec base modified) as [Hm _].
  pose proof (hunks_loop_from _ _ _ _ _ [] Hm) as Hl.
  destruct (hunks_from_wf _ _ _ _ _ Hm) as [Hf _].
  unfold compute_hunks. destruct (hunks_loop _ _ _ _ _) as [[[hs bp] mp]|]; simpl in *; [|done].
  rewrite Hl. simpl. f_equal. rewrite filter_all; [done|].
  eapply Forall_impl; [exact Hf|]. by intros h [_ ?].
Qed.

Lemma compute_hunks_wf base modified hs :
  compute_hunks base modified = Some hs -> hunks_wf (length base) hs.
Proof.
  rewrite compute_hunks_eq. intros [= <-]. apply hunks_from_wf, lcs_indices_spec.
Qed.

(** ** Applying hunks *)

(** The position after a hunk. *)
Lemma apply_pos_max pos e : (if pos <? e then e else pos) = pos `max` e.
Proof. destruct (Nat.ltb_spec pos e); lia. Qed.

Lemma apply_loop_cons base pos h hs :
  apply_loop base pos (h :: hs) =
  (unchanged ← slice base pos (base_start h);
   rest ← apply_loop base (pos `max` base_end h) hs;
   Some (unchanged ++ new_lines h ++ rest)).
Proof. simpl. by rewrite apply_pos_max. Qed.

Lemma apply_loop_skip base pos x hs :
  base !! pos = Some x ->
  Forall (fun h => S pos <= base_start h <= base_end h) hs ->
  apply_loop base pos hs = cons x <$> apply_loop base (S pos) hs.
Proof.
  intros Hx Hlb. pose proof (lookup_lt_Some _ _ _ Hx) as Hlt.
  destruct Hlb as [|h hs Hh _].
  - simpl. unfold slice_from. by apply slice_cons.
  - rewrite !apply_loop_cons.
    replace (S pos `max` base_end h) with (pos `max` base_end h) by lia.
    destruct (decide (S pos = base_start h)) as [<-|Hne].
    + rewrite slice_snoc with (x := x), !slice_empty by (done || lia). simpl.
      by destruct (apply_loop _ _ _).
    + rewrite (slice_cons _ _ _ x) by (done || lia).
      destruct (slice base (S pos) (base_start h)); simpl; [|done].
      by destruct (apply_loop _ _ _).
Qed.

(** A successful application leaves the hunks apart, in order. *)
Lemma apply_loop_apart base pos hs l :
  apply_loop base pos hs = Some l ->
  Forall (fun h => pos <= base_start h) hs /\
  StronglySorted (fun h1 h2 => base_end h1 <= base_start h2) hs.
Proof.
  revert pos l; induction hs as [|h hs IH]; intros pos l; [repeat constructor|].
  rewrite apply_loop_cons. intros (u & [Hu _]%slice_is_Some & Hr)%bind_Some.
  apply bind_Some in Hr as (r & [HF HS]%IH & _).
  split; constructor; try done; try lia.
  - eapply Forall_impl; [exact HF|]. simpl; lia.
  - eapply Forall_impl; [exact HF|]. simpl; lia.
Qed.

(** *** What a set of hunks says about the base, line by line *)

(** The lines inserted before base line [p]. *)
Definition inserted_at (hs : list Hunk) (p : nat) : list line :=
  mjoin (new_lines <$> filter (fun h => base_start h = p) hs).

(** Whether base line [p] is replaced or deleted. *)
Definition removed_at (hs : list Hunk) (p : nat) : bool :=
  existsb (fun h => (base_start h <=? p) && (p <? base_end h)) hs.

(** The text the hunks describe, from line [pos] of the base on. *)
Fixpoint render_from (pos : nat) base (hs : list Hunk) : list line :=
  match base with
  | [] => inserted_at hs pos
  | x :: base' =>
      inserted_at hs pos ++ (if removed_at hs pos then [] else [x]) ++
      render_from (S pos) base' hs
  end.

Definition render base hs : list line := render_from 0 base hs.

Lemma inserted_at_app hs1 hs2 p :
  inserted_at (hs1 ++ hs2) p = inserted_at hs1 p ++ inserted_at hs2 p.
Proof. unfold inserted_at. by rewrite filter_app, fmap_app, join_app. Qed.

Lemma removed_at_app hs1 hs2 p :
  removed_at (hs1 ++ hs2) p = removed_at hs1 p || removed_at hs2 p.
Proof. apply existsb_app. Qed.

Lemma inserted_at_cons h hs p :
  inserted_at (h :: hs) p =
  (if decide (base_start h = p) then new_lines h else []) ++ inserted_at hs p.
Proof. unfold inserted_at. rewrite filter_cons. by case_decide. Qed.

Lemma inserted_at_later hs p :
  Forall (fun h => p < base_start h) hs -> inserted_at hs p = [].
Proof.
  induction 1 as [|h hs Hh _ IH]; [done|].
  rewrite inserted_at_cons, decide_False, IH by lia. done.
Qed.

Lemma removed_at_later hs p :
  Forall (fun h => p < base_start h) hs -> removed_at hs p = false.
Proof.
  induction 1 as [|h hs Hh _ IH]; [done|]. simpl. rewrite IH.
  by destruct (Nat.leb_spec (base_start h) p); [lia|].
Qed.

Lemma render_from_ext pos base hs hs' :
  (forall p, pos <= p -> inserted_at hs p = inserted_at hs' p) ->
  (forall p, pos <= p -> removed_at hs p = removed_at hs' p) ->
  render_from pos base hs = render_from pos base hs'.
Proof.
  revert pos; induction base as [|x base IH]; intros pos Hi Hr; simpl; [by apply Hi|].
  rewrite Hi, Hr, IH by (intros; apply Hi || apply Hr || done; lia). done.
Qed.

(** Passing a first hunk that is behind [pos]. *)
Lemma render_from_behind pos base h hs :
  base_start h < pos -> base_end h <= pos ->
  render_from pos base (h :: hs) = render_from pos base hs.
Proof.
  intros Hs He. apply render_from_ext; intros p Hp.
  - by rewrite inserted_at_cons, decide_False by lia.
  - simpl. destruct (Nat.ltb_spec p (base_end h)); [lia|]. by rewrite andb_false_r.
Qed.

Lemma render_from_nil pos base : render_from pos base [] = base.
Proof. revert pos; induction base as [|x base IH]; intros pos; simpl; [done|]. by rewrite IH. Qed.

(** Before the first hunk the base is copied. *)
Lemma render_from_gap pos k base hs :
  Forall (fun h => pos + k <= base_start h) hs -> k <= length base ->
  render_from pos base hs = take k base ++ render_from (pos + k) (drop k base) hs.
Proof.
  revert pos base; induction k as [|k IH]; intros pos base HF Hk.
  { by rewrite Nat.add_0_r, take_0, drop_0. }
  destruct base as [|x base]; simpl in *; [lia|].
  rewrite inserted_at_later, removed_at_later
    by (eapply Forall_impl; [exact HF|]; simpl; lia).
  simpl. rewrite (IH (S pos)); [by rewrite Nat.add_succ_r| |lia].
  eapply Forall_impl; [exact HF|]. simpl; lia.
Qed.

(** Inside a replacement the base lines are dropped. *)
Lemma render_from_inside p base h hs :
  base_start h < p <= base_end h -> base_end h - p <= length base ->
  Forall (fun h' => base_end h <= base_start h') hs ->
  render_from p base (h :: hs) = render_from (base_end h) (drop (base_end h - p) base) hs.
Proof.
  remember (base_end h - p) as k eqn:Hk. revert p base Hk.
  induction k as [|k IH]; intros p base Hk Hp Hl HF.
  { replace (base_end h) with p by lia. rewrite drop_0. apply render_from_behind; lia. }
  destruct base as [|x base]; simpl in Hl; [lia|]. simpl.
  rewrite inserted_at_cons, decide_False, inserted_at_later by
    (lia || (eapply Forall_impl; [exact HF|]; simpl; lia)).
  destruct (Nat.leb_spec (base_start h) p); [|lia].
  destruct (Nat.ltb_spec p (base_end h)); [|lia]. simpl.
  apply IH; [lia..|done].
Qed.

Lemma render_from_hunk base h hs :
  base_start h <= base_end h -> base_end h - base_start h <= length base ->
  Forall (fun h' => base_end h <= base_start h') hs ->
  render_from (base_start h) base (h :: hs) =
  new_lines h ++ render_from (base_end h) (drop (base_end h - base_start h) base) hs.
Proof.
  intros Hse Hl HF. destruct (decide (base_start h = base_end h)) as [He|He].
  - rewrite <-He, Nat.sub_diag, drop_0. destruct base as [|x base]; simpl.
    + by rewrite inserted_at_cons, decide_True by done.
    + rewrite inserted_at_cons, decide_True by done.
      rewrite render_from_behind by lia. rewrite <-app_assoc. do 2 f_equal.
      destruct (Nat.ltb_spec (base_start h) (base_end h)); [lia|]. by rewrite andb_false_r.
  - destruct base as [|x base]; simpl in Hl; [lia|]. cbn [render_from].
    rewrite inserted_at_cons, decide_True by done.
    rewrite inserted_at_later by (eapply Forall_impl; [exact HF|]; simpl; lia).
    rewrite render_from_inside by (done || lia). simpl.
    destruct (Nat.leb_spec (base_start h) (base_start h)); [|lia].
    destruct (Nat.ltb_spec (base_start h) (base_end h)); [|lia]. simpl.
    rewrite app_nil_r.
    by replace (base_end h - base_start h) with (S (base_end h - S (base_start h))) by lia.
Qed.

(** The loop computes exactly the text that the hunks describe. *)
Lemma apply_loop_render base pos hs :
  Forall (hunk_wf (length base)) hs ->
  Forall (fun h => pos <= base_start h) hs ->
  StronglySorted (fun h1 h2 => base_end h1 <= base_start h2) hs ->
  pos <= length base ->
  apply_loop base pos hs = Some (render_from pos (drop pos base) hs).
Proof.
  revert pos; induction hs as [|h hs IH]; intros pos Hwf Hlb Hs Hpos.
  { simpl. by rewrite slice_from_Some, render_from_nil. }
  apply Forall_cons in Hwf as [[[Hse Hel] _] Hwf]. apply Forall_cons in Hlb as [Hph Hlb].
  apply StronglySorted_inv in Hs as [Hs HF].
  rewrite apply_loop_cons, slice_Some by lia. simpl.
  replace (pos `max` base_end h) with (base_end h) by lia.
  rewrite IH by done. simpl. f_equal.
  rewrite (render_from_gap pos (base_start h - pos)).
  - rewrite drop_drop. replace (pos + (base_start h - pos)) with (base_start h) by lia.
    rewrite render_from_hunk; [|done|rewrite length_drop; lia|done].
    rewrite drop_drop.
    by replace (base_start h + (base_end h - base_start h)) with (base_end h) by lia.
  - constructor; [lia|]. eapply Forall_impl; [exact HF|]. simpl; lia.
  - rewrite length_drop. lia.
Qed.

Lemma hunks_wf_apart n hs :
  hunks_wf n hs -> StronglySorted (fun h1 h2 => base_end h1 <= base_start h2) hs.
Proof. intros [_ HS]. eapply StronglySorted_mono; [|exact HS]. simpl; lia. Qed.

Lemma apply_loop_from base modified pairs bp mp :
  matching base modified bp mp pairs ->
  apply_loop base bp (hunks_from base modified pairs bp mp) = Some (drop mp modified).
Proof.
  revert bp mp; induction pairs as [|[bi mi] ps IH]; intros bp mp Hm.
  - destruct Hm as [Hb Hm]. simpl. destruct (_ || _) eqn:E; simpl.
    + rewrite slice_empty by done.
      destruct (Nat.ltb_spec bp (length base)); simpl; rewrite slice_from_Some by lia; simpl.
      * by rewrite drop_all, app_nil_r.
      * rewrite (drop_ge base) by lia. by rewrite app_nil_r.
    + apply orb_false_iff in E as [?%Nat.ltb_ge ?%Nat.ltb_ge].
      rewrite slice_from_Some by lia. by rewrite !drop_ge by lia.
  - simpl in Hm. destruct Hm as (? & ? & (x & Hp & Hq) & Hm).
    pose proof (lookup_lt_Some _ _ _ Hp). pose proof (lookup_lt_Some _ _ _ Hq).
    assert (Hskip : apply_loop base bi (hunks_from base modified ps (S bi) (S mi))
                    = Some (drop mi modified)).
    { rewrite (apply_loop_skip _ _ x), (IH _ _ Hm); [|done|].
      - simpl. by rewrite (drop_S _ _ _ Hq).
      - pose proof (hunks_from_lb _ _ _ _ _ Hm) as Hlb.
        destruct (hunks_from_wf _ _ _ _ _ Hm) as [Hwf _].
        rewrite Forall_forall in Hlb, Hwf |- *. intros h Hh.
        specialize (Hlb h Hh). specialize (Hwf h Hh) as [? _]. simpl in *; lia. }
    cbn [hunks_from]. destruct (_ || _) eqn:E.
    + cbn [app]. rewrite apply_loop_cons. simpl.
      rewrite slice_empty by lia. simpl.
      replace (bp `max` bi) with bi by lia. rewrite Hskip. simpl. f_equal.
      replace mi with (mp + (mi - mp)) at 2 by lia.
      by rewrite <-drop_drop, take_drop.
    + apply orb_false_iff in E as [?%Nat.ltb_ge ?%Nat.ltb_ge].
      replace bp with bi by lia. replace mp with mi by lia. done.
Qed.

(** A text compared with itself has no hunks. *)
Lemma lcs_walk_refl fuel a i :
  length a - i <= fuel ->
  lcs_walk fuel a a (dp_table a a) i i = (fun k => (k, k)) <$> seq i (length a - i).
Proof.
  revert i; induction fuel as [|fuel IH]; intros i Hf; simpl.
  { by replace (length a - i) with 0 by lia. }
  destruct (a !! i) as [x|] eqn:Hx.
  - pose proof (lookup_lt_Some _ _ _ Hx). rewrite decide_True by done.
    replace (length a - i) with (S (length a - S i)) by lia. simpl. f_equal. apply IH. lia.
  - apply lookup_ge_None in Hx. by replace (length a - i) with 0 by lia.
Qed.

Lemma hunks_from_diagonal a k i :
  i + k = length a -> hunks_from a a ((fun j => (j, j)) <$> seq i k) i i = [].
Proof.
  revert i; induction k as [|k IH]; intros i Hk; simpl.
  - by replace i with (length a) by lia; rewrite Nat.ltb_irrefl.
  - rewrite Nat.ltb_irrefl. simpl. apply IH. lia.
Qed.

Lemma compute_hunks_same a : compute_hunks a a = Some [].
Proof.
  rewrite compute_hunks_eq. f_equal. unfold lcs_indices.
  destruct a as [|x a]; [done|]. cbn [length Nat.eqb orb].
  rewrite lcs_walk_refl by (simpl; lia). apply hunks_from_diagonal. simpl. lia.
Qed.

Lemma compute_hunks_nil base modified :
  compute_hunks base modified = Some [] -> base = modified.
Proof.
  intros Hc. rewrite compute_hunks_eq in Hc. injection Hc as Hc.
  destruct (lcs_indices_spec base modified) as [Hm _].
  pose proof (apply_loop_from _ _ _ _ _ Hm) as Ha. rewrite Hc in Ha. simpl in Ha.
  rewrite slice_from_Some, !drop_0 in Ha by lia. by injection Ha.
Qed.

(** ** Two hunk sets *)

(** A pure insertion of one side at a position the other side replaces; it is a
    position [hunks_overlap] does not look at. *)
Definition inserts_within (replaced inserted : list Hunk) (strict : bool) : Prop :=
  exists r i, r ∈ replaced /\ i ∈ inserted /\ base_start i = base_end i /\
    base_start i < base_end r /\
    (if strict then base_start r < base_start i else base_start r <= base_start i).

Definition mixed_collision (head_hunks ws_hunks : list Hunk) : Prop :=
  inserts_within head_hunks ws_hunks false \/ inserts_within ws_hunks head_hunks true.

#[export] Instance inserts_within_dec A B strict : Decision (inserts_within A B strict).
Proof.
  destruct (decide (Exists (fun r => Exists (fun i =>
    base_start i = base_end i /\ base_start i < base_end r /\
    base_start r + (if strict then 1 else 0) <= base_start i) B) A)) as [H|H]; [left|right].
  - apply Exists_exists in H as (r & Hr & (i & Hi & ?)%Exists_exists).
    exists r, i. destruct strict; intuition lia.
  - intros (r & i & Hr & Hi & ?). apply H, Exists_exists. exists r. split; [done|].
    apply Exists_exists. exists i. destruct strict; intuition lia.
Defined.

#[export] Instance mixed_collision_dec A B : Decision (mixed_collision A B).
Proof. unfold mixed_collision. apply _. Defined.

Lemma hunks_overlap_false A B :
  hunks_overlap A B = false ->
  forall ha hb, ha ∈ A -> hb ∈ B -> hunk_pair_overlap ha hb = false.
Proof.
  intros Ho ha hb Ha Hb. apply not_true_iff_false. intros Ht.
  apply not_true_iff_false in Ho. apply Ho, existsb_exists. exists ha.
  split; [by apply list_elem_of_In|]. apply existsb_exists. exists hb.
  split; [by apply list_elem_of_In|done].
Qed.

Lemma pair_overlap_ranges ha hb :
  hunk_pair_overlap ha hb = false ->
  base_start ha < base_end ha -> base_start hb < base_end hb ->
  base_end hb <= base_start ha \/ base_end ha <= base_start hb.
Proof.
  unfold hunk_pair_overlap. intros Ho H1%Nat.ltb_lt H2%Nat.ltb_lt.
  rewrite H1, H2 in Ho. simpl in Ho. apply andb_false_iff in Ho as [?%Nat.ltb_ge|?%Nat.ltb_ge]; auto.
Qed.

Lemma base_start_leb_total (x y : Hunk) :
  (base_start x <=? base_start y) = false -> (base_start y <=? base_start x) = true.
Proof. rewrite Nat.leb_gt, Nat.leb_le. lia. Qed.

Lemma base_start_leb_trans (x y z : Hunk) :
  (base_start x <=? base_start y) = true -> (base_start y <=? base_start z) = true ->
  (base_start x <=? base_start z) = true.
Proof. rewrite !Nat.leb_le. lia. Qed.

Lemma sort_hunks_pairs (R : Hunk -> Hunk -> Prop) n A B :
  hunks_wf n A -> hunks_wf n B ->
  (forall x y, x ∈ A -> y ∈ A -> base_end x < base_start y -> R x y) ->
  (forall x y, x ∈ B -> y ∈ B -> base_end x < base_start y -> R x y) ->
  (forall x y, x ∈ A -> y ∈ B -> base_start x <= base_start y -> R x y) ->
  (forall x y, x ∈ A -> y ∈ B -> base_start y < base_start x -> R y x) ->
  StronglySorted R (sort_hunks (A ++ B)).
Proof.
  intros [FA SA] [FB SB] HA HB H1 H2. rewrite Forall_forall in FA, FB.
  apply sort_by_pairs; [apply base_start_leb_total|apply base_start_leb_trans|].
  assert (Hside : forall l, (forall h, h ∈ l -> hunk_wf n h) ->
    (forall x y, x ∈ l -> y ∈ l -> base_end x < base_start y -> R x y) ->
    StronglySorted (fun x y => base_end x < base_start y) l ->
    StronglySorted (fun x y => if base_start x <=? base_start y then R x y else R y x) l).
  { intros l Hw HR HS. induction HS as [|x l HS IH HF]; constructor.
    - apply IH; [intros h Hh; apply Hw|intros y z Hy Hz; apply HR]; by constructor.
    - rewrite Forall_forall in HF |- *. intros y Hy. specialize (HF y Hy).
      destruct (Hw x) as [? _]; [by constructor|].
      destruct (Nat.leb_spec (base_start x) (base_start y)); [|lia].
      by apply HR; [constructor|constructor|]. }
  apply StronglySorted_app_intro; [by apply Hside..|].
  intros x y Hx Hy. destruct (Nat.leb_spec (base_start x) (base_start y)); auto.
Qed.

Lemma merge_order_apart n A B :
  hunks_wf n A -> hunks_wf n B -> hunks_overlap A B = false -> ~ mixed_collision A B ->
  StronglySorted (fun h1 h2 => base_end h1 <= base_start h2) (sort_hunks (A ++ B)).
Proof.
  intros HA HB Ho Hm. pose proof (hunks_overlap_false _ _ Ho) as Hp.
  pose proof HA as [FA _]. pose proof HB as [FB _]. rewrite Forall_forall in FA, FB.
  apply (sort_hunks_pairs _ n); [done..|lia|lia| |]; intros x y Hx Hy Hxy;
    destruct (FA x Hx) as [? _], (FB y Hy) as [? _];
    destruct (decide (base_start x = base_end x)) as [Ex|Ex];
    destruct (decide (base_start y = base_end y)) as [Ey|Ey]; try lia.
  - destruct (decide (base_end x <= base_start y)); [done|].
    destruct Hm. left. exists x, y. split_and!; [done..|lia|lia].
  - destruct (pair_overlap_ranges x y (Hp x y Hx Hy)); lia.
  - destruct (decide (base_end y <= base_start x)); [done|].
    destruct Hm. right. exists y, x. split_and!; [done..|lia|lia].
  - destruct (pair_overlap_ranges x y (Hp x y Hx Hy)); lia.
Qed.

Lemma merge_order_collides base A B :
  hunks_wf (length base) A -> hunks_wf (length base) B ->
  mixed_collision A B -> merge_lines base A B = None.
Proof.
  intros HA HB Hm. unfold merge_lines.
  destruct (apply_loop base 0 _) as [l|] eqn:Happ; [|done]. exfalso.
  apply apply_loop_apart in Happ as [_ HS].
  assert (Hno : forall r i, r ∈ A ++ B -> i ∈ A ++ B ->
    base_start i = base_end i -> base_start r < base_end r -> base_start i < base_end r ->
    base_start r < base_start i -> False).
  { intros r i Hr Hi ? ? ? ?.
    destruct (StronglySorted_elem _ _ r i HS) as [->|[?|?]];
      [by apply sort_by_elem_of..|lia|lia|lia]. }
  destruct Hm as [(r & i & Hr & Hi & Ei & Hir & Hri)|(r & i & Hr & Hi & Ei & Hir & Hri)].
  2:{ apply (Hno r i); [set_solver..|done|lia|lia|lia]. }
  destruct (decide (base_start r = base_start i)) as [Eri|].
  2:{ apply (Hno r i); [set_solver..|done|lia|lia|lia]. }
  (* the replacement of the head comes first in the sorted order *)
  assert (HS2 : StronglySorted (fun x y => ~ (x = i /\ y = r)) (sort_hunks (A ++ B))).
  { apply (sort_hunks_pairs _ (length base)); [done..| | | |].
    - intros x y _ _ Hlt [-> ->]. lia.
    - intros x y _ _ Hlt [-> ->]. lia.
    - intros x y Hx Hy Hlt [-> ->]. destruct HA as [_ SA].
      destruct (StronglySorted_elem _ _ r i SA) as [->|[?|?]]; [done..|lia|lia|lia].
    - intros x y Hx Hy Hlt [-> ->]. lia. }
  destruct (StronglySorted_elem _ _ i r (StronglySorted_conj _ _ _ HS HS2))
    as [->|[[_ Hn]|[? _]]]; [apply sort_by_elem_of; set_solver..|lia|by apply Hn|lia].
Qed.

(** ** Properties *)

(** C7. [lcs_indices] returns a longest common subsequence: its pairs increase in
    both components, each relates equal lines, and no common subsequence of the
    two line sequences is longer. *)
Theorem lcs_indices_longest a b :
  let pairs := lcs_indices a b in
  StronglySorted (fun p q => p.1 < q.1 /\ p.2 < q.2) pairs /\
  Forall (fun p => exists x, a !! p.1 = Some x /\ b !! p.2 = Some x) pairs /\
  (forall c, c `sublist_of` a -> c `sublist_of` b -> length c <= length pairs).
Proof.
  simpl. destruct (lcs_indices_spec a b) as [Hm Hl].
  assert (Hinc : forall i j pairs, matching a b i j pairs ->
    Forall (fun p => i <= p.1 /\ j <= p.2 /\ exists x, a !! p.1 = Some x /\ b !! p.2 = Some x) pairs /\
    StronglySorted (fun p q => p.1 < q.1 /\ p.2 < q.2) pairs).
  { intros i j pairs; revert i j; induction pairs as [|[p q] ps IH]; intros i j H; [repeat constructor|].
    destruct H as (? & ? & Hx & H). apply IH in H as [HF HS]. split; constructor; [done| |done|];
      (eapply Forall_impl; [exact HF|]); simpl; intros [p' q']; simpl; intuition lia. }
  destruct (Hinc _ _ _ Hm) as [HF HS]. split_and!; [done| |].
  - eapply Forall_impl; [exact HF|]. by intros ? (? & ? & ?).
  - intros c Ha Hb. rewrite Hl. by apply lcs_len_max.
Qed.

(** [compute_hunks] never panics, its hunks are ordered, inside the base and
    apart from each other, and applying them to the base gives the modified
    text back, line for line. *)
Theorem compute_hunks_roundtrip base modified :
  exists hs, compute_hunks base modified = Some hs /\
    hunks_wf (length base) hs /\
    apply_loop base 0 hs = Some modified /\
    render base hs = modified.
Proof.
  destruct (lcs_indices_spec base modified) as [Hm _].
  pose proof (hunks_from_wf _ _ _ _ _ Hm) as Hw.
  pose proof (apply_loop_from _ _ _ _ _ Hm) as Ha. rewrite drop_0 in Ha.
  eexists. split; [apply compute_hunks_eq|]. split_and!; [done..|].
  assert (Hr : Some (render base (hunks_from base modified (lcs_indices base modified) 0 0))
               = Some modified) by
    (rewrite <-Ha, apply_loop_render;
     [done|apply Hw|by eapply Forall_impl; [apply hunks_from_lb|]|by eapply hunks_wf_apart|lia]).
  by injection Hr.
Qed.

Lemma merge_lines_rendered base A B :
  hunks_wf (length base) A -> hunks_wf (length base) B ->
  hunks_overlap A B = false -> ~ mixed_collision A B ->
  merge_lines base A B = Some (render base (A ++ B)).
Proof.
  intros HA HB Ho Hm. pose proof (merge_order_apart _ _ _ HA HB Ho Hm) as HS.
  unfold merge_lines. rewrite apply_loop_render.
  - rewrite drop_0. f_equal. apply render_from_ext; intros p _.
    + unfold inserted_at, sort_hunks. by rewrite sort_by_key_filter.
    + apply eq_iff_eq_true. unfold removed_at. rewrite !existsb_exists.
      setoid_rewrite <-list_elem_of_In. unfold sort_hunks. by setoid_rewrite sort_by_elem_of.
  - unfold sort_hunks. rewrite sort_by_perm. apply Forall_app. split; [apply HA|apply HB].
  - apply Forall_forall. lia.
  - done.
  - lia.
Qed.

(** C1. When the overlap test passes, and no insertion of one side falls within a
    replacement of the other, the textual merge succeeds and is exactly the text
    that the two diffs describe together: before each base line come the lines
    either side inserts there, and the base line is kept unless one side removes
    it. *)
Theorem merge_lines_applies_both base head ws head_hunks ws_hunks :
  compute_hunks base head = Some head_hunks ->
  compute_hunks base ws = Some ws_hunks ->
  hunks_overlap head_hunks ws_hunks = false ->
  ~ mixed_collision head_hunks ws_hunks ->
  merge_lines base head_hunks ws_hunks = Some (render base (head_hunks ++ ws_hunks)).
Proof.
  intros HA%compute_hunks_wf HB%compute_hunks_wf. by apply merge_lines_rendered.
Qed.

(** The overlap test does not rule every panic out: once it has passed, the
    merge panics on a slice exactly when an insertion of the workspace lies at or
    inside a range that HEAD replaces, or an insertion of HEAD lies strictly
    inside a range that the workspace replaces. *)
Theorem merge_lines_panics_iff base head ws head_hunks ws_hunks :
  compute_hunks base head = Some head_hunks ->
  compute_hunks base ws = Some ws_hunks ->
  hunks_overlap head_hunks ws_hunks = false ->
  (merge_lines base head_hunks ws_hunks = None <-> mixed_collision head_hunks ws_hunks).
Proof.
  intros HA%compute_hunks_wf HB%compute_hunks_wf Ho.
  split; [|by apply merge_order_collides].
  intros Hn.
  destruct (decide (mixed_collision head_hunks ws_hunks)) as [|Hm]; [done|].
  by rewrite (merge_lines_rendered _ _ _ HA HB Ho Hm) in Hn.
Qed.

Lemma inserted_at_elem hs p : inserted_at hs p <> [] -> exists h, h ∈ hs /\ base_start h = p /\ new_lines h <> [].
Proof.
  induction hs as [|h hs IH]; [done|]. rewrite inserted_at_cons. case_decide as Hh.
  - destruct (new_lines h) eqn:E.
    + intros (h' & ? & ? & ?)%IH. exists h'. split; [by right|done].
    + intros _. exists h. rewrite E. split_and!; [by left|done|done].
  - intros (h' & ? & ? & ?)%IH. exists h'. split; [by right|done].
Qed.

(** Which side is HEAD does not matter for the merged lines, when neither
    order of the two sides has a colliding insertion. *)
Theorem merge_lines_comm base head ws head_hunks ws_hunks :
  compute_hunks base head = Some head_hunks ->
  compute_hunks base ws = Some ws_hunks ->
  hunks_overlap head_hunks ws_hunks = false ->
  ~ mixed_collision head_hunks ws_hunks ->
  ~ mixed_collision ws_hunks head_hunks ->
  merge_lines base head_hunks ws_hunks = merge_lines base ws_hunks head_hunks.
Proof.
  intros HA%compute_hunks_wf HB%compute_hunks_wf Ho H1 H2.
  pose proof (hunks_overlap_false _ _ Ho) as Hp.
  assert (Ho' : hunks_overlap ws_hunks head_hunks = false).
  { apply not_true_iff_false. unfold hunks_overlap. rewrite existsb_exists.
    intros (hb & Hb%list_elem_of_In & (ha & Ha%list_elem_of_In & Hab)%existsb_exists).
    specialize (Hp ha hb Ha Hb). revert Hp Hab. unfold hunk_pair_overlap.
    rewrite (andb_comm (base_start hb <? base_end hb)), (andb_comm (base_start hb =? base_end hb)).
    rewrite (Nat.eqb_sym (base_start hb) (base_start ha)).
    destruct (_ && (base_start hb <? _)); [rewrite andb_comm; congruence|].
    destruct (_ && _); [rewrite andb_comm|]; congruence. }
  rewrite !merge_lines_rendered by done. f_equal.
  apply render_from_ext; intros p _.
  2:{ rewrite !removed_at_app. apply orb_comm. }
  rewrite !inserted_at_app.
  destruct (decide (inserted_at head_hunks p = [])) as [->|Ea]; [by rewrite app_nil_r|].
  destruct (decide (inserted_at ws_hunks p = [])) as [->|Eb]; [by rewrite app_nil_r|].
  exfalso. apply inserted_at_elem in Ea as (x & Hx & Hxp & Hxn), Eb as (y & Hy & Hyp & Hyn).
  destruct HA as [FA _], HB as [FB _]. rewrite Forall_forall in FA, FB.
  destruct (FA x Hx) as [? _], (FB y Hy) as [? _].
  specialize (Hp x y Hx Hy).
  destruct (decide (base_start x = base_end x)) as [Ex|Ex];
    destruct (decide (base_start y = base_end y)) as [Ey|Ey].
  - unfold hunk_pair_overlap in Hp. rewrite Ex, Ey, !Nat.ltb_irrefl in Hp. simpl in Hp.
    rewrite !Nat.eqb_refl, (proj2 (Nat.eqb_eq _ _)) in Hp by lia. simpl in Hp.
    by destruct (new_lines x), (new_lines y).
  - apply H2. left. exists y, x. split_and!; [done..|lia|lia].
  - apply H1. left. exists x, y. split_and!; [done..|lia|lia].
  - destruct (pair_overlap_ranges x y Hp); lia.
Qed.
End text.

(** ** Bytes *)

(** The lines of a file ([None] never arises: decoding is total). *)
Definition split_lines (content : bytes) : list string :=
  let s := from_utf8_lossy content in
  if String.eqb s "" then [] else lines s.

Fixpoint ends_with_newline (b : bytes) : bool :=
  match b with
  | [] => false
  | [a] => Ascii.eqb a LF
  | _ :: b' => ends_with_newline b'
  end.

(** [None] is the panic of the slice [base[pos..hunk.base_start]]. *)
Definition apply_two_hunk_sets (base : list string) (head_raw ws_raw : bytes)
    (head_hunks ws_hunks : list Hunk) : option bytes :=
  if is_nil head_hunks then Some ws_raw
  else if is_nil ws_hunks then Some head_raw
  else
    result_lines ← merge_lines base head_hunks ws_hunks;
    let out := bytes_of (join (String LF EmptyString) result_lines) in
    let had_newline := ends_with_newline head_raw || ends_with_newline ws_raw in
    Some (if had_newline && negb (ends_with_newline out) then out ++ [LF] else out).

(** A line that [lines] gives back unchanged. *)
Definition clean_line (l : string) : bool :=
  negb (existsb (fun a => Ascii.eqb a LF) (bytes_of l)) && String.eqb (strip_cr l) l.

Lemma split_on_app l s :
  existsb (fun a => Ascii.eqb a LF) (bytes_of l) = false ->
  split_on LF (l +:+ String LF s) = l :: split_on LF s.
Proof.
  unfold split_on. induction l as [|a l IH]; simpl; [done|].
  intros [Ha Hl]%orb_false_iff. by rewrite Ha, IH.
Qed.

Lemma split_on_last l :
  existsb (fun a => Ascii.eqb a LF) (bytes_of l) = false -> split_on LF l = [l].
Proof.
  unfold split_on. induction l as [|a l IH]; simpl; [done|].
  intros [Ha Hl]%orb_false_iff. by rewrite Ha, IH.
Qed.

Lemma split_on_nonnil p s : split_by p s <> [].
Proof. induction s as [|a s IH]; simpl; [done|]. destruct (p a); [done|]. by destruct (split_by p s). Qed.

Lemma lines_of_pieces_cons p ps :
  ps <> [] -> lines_of_pieces (p :: ps) = strip_cr p :: lines_of_pieces ps.
Proof. by destruct ps. Qed.

Lemma lines_cons l s :
  clean_line l = true -> lines (l +:+ String LF s) = l :: lines s.
Proof.
  unfold clean_line, lines. intros [Hl%negb_true_iff Hc%String.eqb_eq]%andb_true_iff.
  rewrite split_on_app by done. rewrite lines_of_pieces_cons by apply split_on_nonnil.
  by rewrite Hc.
Qed.

Lemma lines_one l : clean_line l = true -> l <> EmptyString -> lines l = [l].
Proof.
  unfold clean_line, lines. intros [Hl%negb_true_iff _]%andb_true_iff Hne.
  rewrite split_on_last by done. simpl. by apply String.eqb_neq in Hne as ->.
Qed.

Lemma lines_join ls :
  Forall (fun l => clean_line l = true) ls -> last ls <> Some EmptyString ->
  lines (join (String LF EmptyString) ls) = ls.
Proof.
  unfold join. induction 1 as [|l ls Hl HF IH]; intros Hlast; [done|].
  destruct ls as [|l' ls].
  - simpl. apply lines_one; [done|]. by intros ->.
  - etrans; [by apply (lines_cons l (String.concat _ (l' :: ls)))|]. f_equal. by apply IH.
Qed.

Lemma string_of_app a b : string_of (a ++ b) = string_of a +:+ string_of b.
Proof.
  induction a as [|x a IH]; [done|]. change (String x (string_of (a ++ b)) = String x (string_of a +:+ string_of b)).
  by rewrite IH.
Qed.

Lemma lines_join_newline ls :
  Forall (fun l => clean_line l = true) ls -> ls <> [] ->
  lines (join (String LF EmptyString) ls +:+ String LF EmptyString) = ls.
Proof.
  unfold join. induction 1 as [|l ls Hl HF IH]; intros Hne; [done|].
  destruct ls as [|l' ls].
  - cbn [String.concat]. by rewrite lines_cons.
  - cbn [String.concat].
    assert (Happ : forall a b c : string, (a +:+ b) +:+ c = a +:+ (b +:+ c)).
    { intros a b c. induction a as [|x a IHa]; [done|]. apply (f_equal (String x)), IHa. } 
    rewrite !Happ. etrans; [by apply (lines_cons l)|]. f_equal. by apply IH.
Qed.

(** The bytes of a textual merge read back as the merged lines, provided no
    line ends in a carriage return and the last merged line is not blank. *)
Theorem apply_two_hunk_sets_lines base head_raw ws_raw head_hunks ws_hunks ls out :
  head_hunks <> [] -> ws_hunks <> [] ->
  merge_lines base head_hunks ws_hunks = Some ls ->
  Forall (fun l => clean_line l = true) ls ->
  last ls <> Some EmptyString -> ls <> [] ->
  apply_two_hunk_sets base head_raw ws_raw head_hunks ws_hunks = Some out ->
  lines (string_of out) = ls.
Proof.
  intros Hh Hw Hm HF Hlast Hne. unfold apply_two_hunk_sets.
  destruct head_hunks; [done|]. destruct ws_hunks; [done|]. cbn [is_nil]. rewrite Hm. simpl.
  intros [= <-]. destruct (_ && _).
  - rewrite string_of_app, string_of_bytes_of. by apply lines_join_newline.
  - rewrite string_of_bytes_of. by apply lines_join.
Qed.

(** ** Witnesses *)

Definition hunks_of (base modified : list string) : list Hunk :=
  default [] (compute_hunks base modified).

Lemma merge_lines_applies_both_witness :
  merge_lines ["a"; "b"; "c"; "d"]%string
    (hunks_of ["a"; "b"; "c"; "d"]%string ["a"; "B"; "c"; "d"]%string)
    (hunks_of ["a"; "b"; "c"; "d"]%string ["a"; "b"; "c"; "n"; "d"]%string)
  = Some (render ["a"; "b"; "c"; "d"]%string
      (hunks_of ["a"; "b"; "c"; "d"]%string ["a"; "B"; "c"; "d"]%string ++
       hunks_of ["a"; "b"; "c"; "d"]%string ["a"; "b"; "c"; "n"; "d"]%string)).
Proof.
  apply (merge_lines_applies_both _ ["a"; "B"; "c"; "d"]%string ["a"; "b"; "c"; "n"; "d"]%string);
    [reflexivity..|].
  apply (bool_decide_unpack _). vm_compute. exact I.
Defined.

(** HEAD replaces [b] and [c]; the workspace inserts a line between them. *)
Lemma merge_lines_panics_iff_witness :
  merge_lines ["a"; "b"; "c"; "d"]%string
    (hunks_of ["a"; "b"; "c"; "d"]%string ["a"; "x"; "d"]%string)
    (hunks_of ["a"; "b"; "c"; "d"]%string ["a"; "b"; "n"; "c"; "d"]%string) = None.
Proof.
  apply (merge_lines_panics_iff _ ["a"; "x"; "d"]%string ["a"; "b"; "n"; "c"; "d"]%string);
    [reflexivity..|].
  apply (bool_decide_unpack _). vm_compute. exact I.
Defined.

Lemma merge_lines_comm_witness :
  merge_lines ["a"; "b"; "c"; "d"]%string
    (hunks_of ["a"; "b"; "c"; "d"]%string ["a"; "B"; "c"; "d"]%string)
    (hunks_of ["a"; "b"; "c"; "d"]%string ["a"; "b"; "c"; "n"; "d"]%string)
  = merge_lines ["a"; "b"; "c"; "d"]%string
    (hunks_of ["a"; "b"; "c"; "d"]%string ["a"; "b"; "c"; "n"; "d"]%string)
    (hunks_of ["a"; "b"; "c"; "d"]%string ["a"; "B"; "c"; "d"]%string).
Proof.
  apply (merge_lines_comm _ ["a"; "B"; "c"; "d"]%string ["a"; "b"; "c"; "n"; "d"]%string);
    [reflexivity..| |]; apply (bool_decide_unpack _); vm_compute; exact I.
Defined.

Lemma apply_two_hunk_sets_lines_witness :
  let base := ["a"; "b"; "c"]%string in
  let nl := String LF EmptyString in
  let head := bytes_of ("A" +:+ nl +:+ "b" +:+ nl +:+ "c" +:+ nl) in
  let ws := bytes_of ("a" +:+ nl +:+ "b" +:+ nl +:+ "C" +:+ nl) in
  lines (string_of (default [] (apply_two_hunk_sets base head ws
    (hunks_of base (split_lines head)) (hunks_of base (split_lines ws))))) = ["A"; "b"; "C"]%string.
Proof.
  intros base nl head ws.
  apply (apply_two_hunk_sets_lines base head ws
    (hunks_of base (split_lines head)) (hunks_of base (split_lines ws))).
  1, 2: intros H; vm_compute in H; discriminate.
  - reflexivity.
  - repeat constructor.
  - discriminate.
  - discriminate.
  - reflexivity.
Defined.
