(* ===== verification/Graph.v ===== *)
(** The semantic graph ([src/src/graph/mod.rs]): entity and relationship kinds,
    stable identifiers, the extraction of entities from a Rust syntax tree, the
    call edges, the tables of the snapshot, and the breadth-first search that
    bounds a blast radius. The tree-sitter parser and SHA-256 are parameters; a
    table is the list of its rows, and each SQL statement of the file is
    translated to the list operation it denotes. *)
From S2P Require Import Prelude RustStr.

(** ** Kinds *)

Inductive EntityKind : Type :=
  | Function | Method | Struct | Enum | Trait | Impl | Module_ | UseStatement
  | Class_ | Interface | TypeAlias | Component | Hook | ExportStatement.

#[export] Instance EntityKind_eq_dec : EqDecision EntityKind.
Proof. solve_decision. Defined.

Definition kind_as_str (k : EntityKind) : string :=
  match k with
  | Function => "function"
  | Method => "method"
  | Struct => "struct"
  | Enum => "enum"
  | Trait => "trait"
  | Impl => "impl"
  | Module_ => "module"
  | UseStatement => "use_statement"
  | Class_ => "class"
  | Interface => "interface"
  | TypeAlias => "type_alias"
  | Component => "component"
  | Hook => "hook"
  | ExportStatement => "export_statement"
  end.

Definition kind_from_str (s : string) : option EntityKind :=
  match s with
  | "function" => Some Function
  | "method" => Some Method
  | "struct" => Some Struct
  | "enum" => Some Enum
  | "trait" => Some Trait
  | "impl" => Some Impl
  | "module" => Some Module_
  | "use_statement" => Some UseStatement
  | "class" => Some Class_
  | "interface" => Some Interface
  | "type_alias" => Some TypeAlias
  | "component" => Some Component
  | "hook" => Some Hook
  | "export_statement" => Some ExportStatement
  | _ => None
  end%string.

Inductive RelationshipKind : Type := Contains | Imports | Calls | Implements | Extends.

#[export] Instance RelationshipKind_eq_dec : EqDecision RelationshipKind.
Proof. solve_decision. Defined.

Definition rel_kind_as_str (k : RelationshipKind) : string :=
  match k with
  | Contains => "contains"
  | Imports => "imports"
  | Calls => "calls"
  | Implements => "implements"
  | Extends => "extends"
  end.

Definition rel_kind_from_str (s : string) : option RelationshipKind :=
  match s with
  | "contains" => Some Contains
  | "imports" => Some Imports
  | "calls" => Some Calls
  | "implements" => Some Implements
  | "extends" => Some Extends
  | _ => None
  end%string.

Record Entity : Type := mkEntity {
  e_id : string;
  e_kind : EntityKind;
  e_name : string;
  qualified_name : string;
  e_file_path : string;
  byte_range : nat * nat;
  line_range : nat * nat;
  parent_entity : option string
}.

Record Relationship : Type := mkRelationship {
  r_id : string;
  r_kind : RelationshipKind;
  from_entity : string;
  to_entity : string
}.

#[export] Instance Entity_eq_dec : EqDecision Entity.
Proof. solve_decision. Defined.
#[export] Instance Relationship_eq_dec : EqDecision Relationship.
Proof. solve_decision. Defined.

Inductive GraphError : Type :=
  | GSqlite (e : string) | GIo (e : string) | GLanguage (e : string) | GParse (e : string).

(** ** Syntax trees *)

(** A tree-sitter node: its kind, byte range, first and last rows, and its
    children, each with its field name, if any, and whether it is named. *)
#[warnings="-register-all"]
Inductive Node : Type :=
  mkNode (kind : string) (start_byte end_byte start_row end_row : nat)
         (children : list (option string * bool * Node)).

Definition node_kind (n : Node) : string := let 'mkNode k _ _ _ _ _ := n in k.
Definition start_byte (n : Node) : nat := let 'mkNode _ s _ _ _ _ := n in s.
Definition end_byte (n : Node) : nat := let 'mkNode _ _ e _ _ _ := n in e.
Definition start_row (n : Node) : nat := let 'mkNode _ _ _ r _ _ := n in r.
Definition end_row (n : Node) : nat := let 'mkNode _ _ _ _ r _ := n in r.
Definition node_children (n : Node) : list (option string * bool * Node) :=
  let 'mkNode _ _ _ _ _ c := n in c.

(** Continues with the first child of a field. *)
Definition with_field {B} (name : string) (d : B) (k : Node -> B) :
    list (option string * bool * Node) -> B :=
  fix go l :=
    match l with
    | [] => d
    | (Some f, _, c) :: l' => if String.eqb f name then k c else go l'
    | (None, _, _) :: l' => go l'
    end.

Definition child_by_field_name (n : Node) (name : string) : option Node :=
  with_field name None Some (node_children n).

(** What a traversal of the named children collects, in order. *)
Definition collect_named {E R} (f : Node -> list E * list R) :
    list (option string * bool * Node) -> list E * list R :=
  fix go l :=
    match l with
    | [] => ([], [])
    | (_, named, c) :: l' =>
        if (named : bool) then ((f c).1 ++ (go l').1, (f c).2 ++ (go l').2) else go l'
    end.

(** The bytes of a node always lie in the source it was parsed from, so the
    slice in [utf8_text] does not fail. *)
Definition node_text (n : Node) (source : bytes) : option string :=
  slice source (start_byte n) (end_byte n) ≫= from_utf8.

Section extraction.
(** SHA-256, as lowercase hexadecimal. *)
Variable sha256_hex : string -> string.

Definition compute_id (file_path qname : string) : string :=
  sha256_hex (file_path +:+ "::" +:+ qname).

Definition new_relationship (kind : RelationshipKind) (from to : string) : Relationship :=
  mkRelationship (sha256_hex (rel_kind_as_str kind +:+ "::" +:+ from +:+ "::" +:+ to))
    kind from to.

(** The scope stack holds (entity id, qualified name) pairs, innermost last. *)
Definition qualify (name : string) (parent_stack : list (string * string)) : string :=
  match last parent_stack with
  | Some (_, prefix) =>
      let clean_prefix := match split_on "@" prefix with p :: _ => p | [] => prefix end in
      clean_prefix +:+ "::" +:+ name
  | None => name
  end.

(** The entity of [node] named [name], with a given qualified name. *)
Definition entity_of (node : Node) (file_path : string)
    (parent_stack : list (string * string)) (kind : EntityKind) (name qname : string) : Entity :=
  mkEntity (compute_id file_path qname) kind name qname file_path
    (start_byte node, end_byte node) (S (start_row node), S (end_row node))
    (fst <$> last parent_stack).

Definition extract_function (node : Node) (source : bytes) (file_path : string)
    (parent_stack : list (string * string)) (inside_impl : bool) : option Entity :=
  name_node ← child_by_field_name node "name";
  name ← node_text name_node source;
  Some (entity_of node file_path parent_stack (if inside_impl then Method else Function)
          name (qualify name parent_stack)).

Definition extract_named_item (node : Node) (source : bytes) (file_path : string)
    (parent_stack : list (string * string)) (kind : EntityKind)
    (name_kinds : list string) : option Entity :=
  name_node ← child_by_field_name node "name";
  if decide (node_kind name_node ∈ name_kinds) then
    name ← node_text name_node source;
    Some (entity_of node file_path parent_stack kind name (qualify name parent_stack))
  else None.

Definition extract_impl_item (node : Node) (source : bytes) (file_path : string)
    (parent_stack : list (string * string)) : option Entity :=
  type_node ← child_by_field_name node "type";
  type_name ← node_text type_node source;
  let name :=
    match child_by_field_name node "trait" with
    | Some trait_node => default "" (node_text trait_node source) +:+ " for " +:+ type_name
    | None => type_name
    end in
  let qname := qualify name parent_stack +:+ "@" +:+ print_u64 (N.of_nat (start_byte node)) in
  Some (entity_of node file_path parent_stack Impl name qname).

(** [s.trim_start_matches(p)] and [s.trim_end_matches(c)]. *)
Definition trim_start_matches (p s : string) : string :=
  string_of (strip_while (String.length s) [bytes_of p] (bytes_of s)).
Definition trim_end_matches (c : ascii) (s : string) : string :=
  string_of (rev (strip_while (String.length s) [[c]] (rev (bytes_of s)))).

Definition extract_use_declaration (node : Node) (source : bytes) (file_path : string)
    (parent_stack : list (string * string)) : option Entity :=
  text ← node_text node source;
  let name := trim (trim_end_matches ";" (trim_start_matches "use " text)) in
  let qname := "use::" +:+ name +:+ "@" +:+ print_u64 (N.of_nat (start_byte node)) in
  Some (entity_of node file_path parent_stack UseStatement name qname).

Definition add_contains_rel (parent_stack : list (string * string)) (child_id : string) :
    list Relationship :=
  match last parent_stack with
  | Some (parent_id, _) => [new_relationship Contains parent_id child_id]
  | None => []
  end.

(** The entities and relationships pushed while visiting [node]; the scope stack
    is an argument because the code pops whatever it pushes. *)
Fixpoint extract_entities (source : bytes) (file_path : string)
    (parent_stack : list (string * string)) (inside_impl : bool) (node : Node) {struct node} :
    list Entity * list Relationship :=
  match node with
  | mkNode kind _ _ _ _ children =>
      let leaf (e : option Entity) :=
        match e with
        | Some entity => ([entity], add_contains_rel parent_stack (e_id entity))
        | None => ([], [])
        end in
      let scope (e : option Entity) (in_impl : bool) :=
        match e with
        | Some entity =>
            let stack := parent_stack ++ [(e_id entity, qualified_name entity)] in
            let body :=
              with_field "body" ([], [])
                (fun body =>
                   match body with
                   | mkNode _ _ _ _ _ cs =>
                       collect_named (extract_entities source file_path stack in_impl) cs
                   end) children in
            (entity :: body.1, add_contains_rel parent_stack (e_id entity) ++ body.2)
        | None => ([], [])
        end in
      if String.eqb kind "function_item" then
        leaf (extract_function node source file_path parent_stack inside_impl)
      else if String.eqb kind "struct_item" then
        leaf (extract_named_item node source file_path parent_stack Struct ["type_identifier"%string])
      else if String.eqb kind "enum_item" then
        leaf (extract_named_item node source file_path parent_stack Enum ["type_identifier"%string])
      else if String.eqb kind "trait_item" then
        scope (extract_named_item node source file_path parent_stack Trait ["type_identifier"%string]) false
      else if String.eqb kind "impl_item" then
        scope (extract_impl_item node source file_path parent_stack) true
      else if String.eqb kind "mod_item" then
        scope (extract_named_item node source file_path parent_stack Module_ ["identifier"%string]) false
      else if String.eqb kind "use_declaration" then
        leaf (extract_use_declaration node source file_path parent_stack)
      else if String.eqb kind "source_file" then
        collect_named (extract_entities source file_path parent_stack false) children
      else ([], [])
  end.

(** Runs a step over the named children, in order. *)
Definition fold_named {S} (f : Node -> S -> S) : list (option string * bool * Node) -> S -> S :=
  fix go l acc :=
    match l with
    | [] => acc
    | (_, named, c) :: l' => go l' (if (named : bool) then f c acc else acc)
    end.

(** The first answer among the named children. *)
Definition find_named {B} (f : Node -> option B) : list (option string * bool * Node) -> option B :=
  fix go l :=
    match l with
    | [] => None
    | (_, named, c) :: l' =>
        if (named : bool) then match f c with Some b => Some b | None => go l' end else go l'
    end.

Fixpoint extract_final_identifier (source : bytes) (node : Node) {struct node} : option string :=
  match node with
  | mkNode kind _ _ _ _ children =>
      if String.eqb kind "identifier" then node_text node source
      else if String.eqb kind "scoped_identifier" then
        with_field "name" None (fun n => node_text n source) children
      else if String.eqb kind "field_expression" then
        with_field "field" None (fun n => node_text n source) children
      else if String.eqb kind "generic_function" then
        with_field "function" None (extract_final_identifier source) children
      else None
  end.

(** The call edges to the candidates [ids]: none to the caller itself, none that
    is already there. *)
Fixpoint push_calls (caller_id : string) (ids : list string) (rels : list Relationship) :
    list Relationship :=
  match ids with
  | [] => rels
  | target_id :: ids' =>
      push_calls caller_id ids'
        (if String.eqb target_id caller_id then rels
         else
           let rel := new_relationship Calls caller_id target_id in
           if existsb (fun r => String.eqb (r_id r) (r_id rel)) rels then rels
           else rels ++ [rel])
  end.

Fixpoint collect_calls (source : bytes) (caller_id : string)
    (name_to_ids : gmap string (list string)) (node : Node) (rels : list Relationship)
    {struct node} : list Relationship :=
  match node with
  | mkNode kind _ _ _ _ children =>
      let rels' :=
        if String.eqb kind "call_expression" then
          match with_field "function" None (extract_final_identifier source) children with
          | Some name =>
              match name_to_ids !! name with
              | Some ids => push_calls caller_id ids rels
              | None => rels
              end
          | None => rels
          end
        else rels in
      fold_named (collect_calls source caller_id name_to_ids) children rels'
  end.

Fixpoint find_node_at_range (start end_ : nat) (node : Node) {struct node} : option Node :=
  match node with
  | mkNode _ s e _ _ children =>
      if (s =? start) && (e =? end_) then Some node
      else
        find_named (fun child =>
          if (start_byte child <=? start) && (end_ <=? end_byte child)
          then find_node_at_range start end_ child else None) children
  end.

Definition name_map (entities : list Entity) : gmap string (list string) :=
  foldl (fun m e => <[e_name e := default [] (m !! e_name e) ++ [e_id e]]> m) ∅ entities.

Fixpoint build_calls_loop (root : Node) (source : bytes) (name_to_ids : gmap string (list string))
    (entities : list Entity) (rels : list Relationship) : list Relationship :=
  match entities with
  | [] => rels
  | e :: entities' =>
      build_calls_loop root source name_to_ids entities'
        (if decide (e_kind e = Function \/ e_kind e = Method) then
           match find_node_at_range (byte_range e).1 (byte_range e).2 root with
           | Some func_node =>
               match child_by_field_name func_node "body" with
               | Some body => collect_calls source (e_id e) name_to_ids body rels
               | None => rels
               end
           | None => rels
           end
         else rels)
  end.

Definition build_calls_relationships (root : Node) (source : bytes) (entities : list Entity)
    (rels : list Relationship) : list Relationship :=
  build_calls_loop root source (name_map entities) entities rels.

(** The Rust grammar: loading it can fail; parsing can yield no tree. *)
Variable ts_rust : outcome string (bytes -> option Node).

Definition parse_rust_source (file_path : string) (source : bytes) :
    outcome GraphError (list Entity * list Relationship) :=
  match ts_rust with
  | Ok parse =>
      match parse source with
      | Some root =>
          let '(entities, rels) := extract_entities source file_path [] false root in
          Ok (entities, build_calls_relationships root source entities rels)
      | None => Err (GParse ("failed to parse " +:+ file_path))
      end
  | Err e => Err (GLanguage e)
  | Panic => Panic
  end.
End extraction.

(** ** The extracted entities *)

Lemma Node_ind' (P : Node -> Prop) :
  (forall k s e r1 r2 cs, Forall (fun x => P x.2) cs -> P (mkNode k s e r1 r2 cs)) ->
  forall n, P n.
Proof.
  intros H. fix IH 1. intros [k s e r1 r2 cs]. apply H.
  induction cs as [|[[f nm] c] cs IHcs]; constructor; [apply IH|apply IHcs].
Qed.

(** The recursion of [extract_entities] goes to the children of a node and to the
    children of its body. *)
Lemma Node_ind2 (P : Node -> Prop) :
  (forall k s e r1 r2 cs,
     Forall (fun x => P x.2 /\ Forall (fun y => P y.2) (node_children x.2)) cs ->
     P (mkNode k s e r1 r2 cs)) ->
  forall n, P n.
Proof.
  intros H n.
  assert (HQ : P n /\ Forall (fun y => P y.2) (node_children n)); [|by destruct HQ].
  induction n as [k s e r1 r2 cs IH] using Node_ind'. split; [by apply H|].
  simpl. eapply Forall_impl; [exact IH|]. by intros [? ?] [? _].
Qed.

(** What a parser guarantees of a tree: a child lies inside its parent, and after
    the children before it. *)
Definition children_wf (f : Node -> Prop) (hi : nat) :
    nat -> list (option string * bool * Node) -> Prop :=
  fix go lo l :=
    match l with
    | [] => True
    | (_, _, c) :: l' => lo <= start_byte c /\ end_byte c <= hi /\ f c /\ go (end_byte c) l'
    end.

Fixpoint tree_wf (n : Node) : Prop :=
  match n with
  | mkNode _ s e _ _ cs => s <= e /\ children_wf tree_wf e s cs
  end.

Definition within (lo hi : nat) (e : Entity) : Prop :=
  lo <= (byte_range e).1 /\ (byte_range e).1 <= (byte_range e).2 /\ (byte_range e).2 <= hi.

(** The relation of an entity to a later one: it encloses it, or ends before it. *)
Definition laminar (e1 e2 : Entity) : Prop :=
  within (byte_range e1).1 (byte_range e1).2 e2 \/ (byte_range e1).2 <= (byte_range e2).1.

Definition layout_ok (lo hi : nat) (es : list Entity) : Prop :=
  Forall (within lo hi) es /\ StronglySorted laminar es.

Lemma tree_wf_le n : tree_wf n -> start_byte n <= end_byte n.
Proof. destruct n. by intros [? _]. Qed.

Lemma within_mono lo lo' hi hi' e : within lo hi e -> lo' <= lo -> hi <= hi' -> within lo' hi' e.
Proof. unfold within. lia. Qed.

Lemma layout_ok_mono lo lo' hi hi' es :
  layout_ok lo hi es -> lo' <= lo -> hi <= hi' -> layout_ok lo' hi' es.
Proof.
  intros [HF HS] ? ?. split; [|done]. eapply Forall_impl; [exact HF|].
  intros e He. by eapply within_mono.
Qed.

Lemma layout_ok_nil lo hi : layout_ok lo hi [].
Proof. repeat constructor. Qed.

Lemma layout_ok_app lo mid hi es1 es2 :
  layout_ok lo mid es1 -> layout_ok mid hi es2 -> lo <= mid <= hi -> layout_ok lo hi (es1 ++ es2).
Proof.
  intros [F1 S1] [F2 S2] ?. split.
  - apply Forall_app; split; (eapply Forall_impl; [done|]); intros e He; eapply within_mono; eauto; lia.
  - apply StronglySorted_app_intro; [done..|]. rewrite Forall_forall in F1, F2.
    intros x y Hx Hy. right. specialize (F1 x Hx). specialize (F2 y Hy). unfold within in *. lia.
Qed.

Lemma layout_ok_cons lo hi e es :
  within lo hi e -> layout_ok (byte_range e).1 (byte_range e).2 es -> layout_ok lo hi (e :: es).
Proof.
  intros He [HF HS]. split; constructor; [done| |done|].
  - eapply Forall_impl; [exact HF|]. intros e' He'. unfold within in *. lia.
  - eapply Forall_impl; [exact HF|]. intros e' He'. by left.
Qed.

Lemma collect_layout (f : Node -> list Entity * list Relationship) lo hi cs :
  lo <= hi -> children_wf tree_wf hi lo cs ->
  Forall (fun x => tree_wf x.2 -> layout_ok (start_byte x.2) (end_byte x.2) (f x.2).1) cs ->
  layout_ok lo hi (collect_named f cs).1.
Proof.
  intros Hle Hwf HF. revert lo Hle Hwf.
  induction HF as [|[[fl nm] c] cs Hc HF IH]; intros lo Hle Hwf; simpl; [apply layout_ok_nil|].
  simpl in Hwf. destruct Hwf as (Hs & He & Hc' & Hwf). pose proof (tree_wf_le c Hc').
  specialize (IH (end_byte c) He Hwf). destruct nm; simpl.
  - eapply layout_ok_app; [|exact IH|lia].
    eapply layout_ok_mono; [by apply Hc|done|done].
  - eapply layout_ok_mono; [exact IH|lia|done].
Qed.

Lemma with_field_elim {B} (Q : B -> Prop) name d k cs :
  Q d -> Forall (fun x => Q (k x.2)) cs -> Q (with_field name d k cs).
Proof.
  intros Hd. induction 1 as [|[[[f|] nm] c] cs Hc _ IH]; simpl; [done| |done].
  by destruct (String.eqb f name).
Qed.

Lemma children_wf_Forall hi lo cs :
  children_wf tree_wf hi lo cs ->
  Forall (fun x => lo <= start_byte x.2 /\ end_byte x.2 <= hi /\ tree_wf x.2) cs.
Proof.
  revert lo; induction cs as [|[[f nm] c] cs IH]; intros lo; simpl; [constructor|].
  intros (? & ? & Hc & H). constructor; [done|].
  apply IH in H. eapply Forall_impl; [exact H|]. simpl. intros x (? & ? & ?).
  pose proof (tree_wf_le c Hc). split_and!; [lia|done|done].
Qed.

Section extraction_facts.
Variable sha256_hex : string -> string.

(** Every entity the visit of a node makes from the node itself has its range. *)
Lemma extracted_range node source fp stack imp kind kinds e :
  extract_function sha256_hex node source fp stack imp = Some e \/
  extract_named_item sha256_hex node source fp stack kind kinds = Some e \/
  extract_impl_item sha256_hex node source fp stack = Some e \/
  extract_use_declaration sha256_hex node source fp stack = Some e ->
  byte_range e = (start_byte node, end_byte node) /\ parent_entity e = fst <$> last stack.
Proof.
  intros [H|[H|[H|H]]]; repeat first [apply bind_Some in H as (? & _ & H)|case_decide];
    try done; by injection H as <-.
Qed.

(** Case analysis of one visit: nothing, one entity, an entity and what its body
    holds, or what the children hold. *)
Lemma extract_entities_cases (Q : list Entity * list Relationship -> Prop)
    source fp stack imp k s e r1 r2 cs :
  let extract := extract_entities sha256_hex source fp in
  let own x := byte_range x = (s, e) /\ parent_entity x = fst <$> last stack in
  Q ([], []) ->
  (forall x, own x -> Q ([x], add_contains_rel sha256_hex stack (e_id x))) ->
  (forall x b, own x ->
     b = ([], []) \/ (exists c in_impl, c ∈ cs /\
       b = collect_named (extract (stack ++ [(e_id x, qualified_name x)]) in_impl)
             (node_children c.2)) ->
     Q (x :: b.1, add_contains_rel sha256_hex stack (e_id x) ++ b.2)) ->
  Q (collect_named (extract stack false) cs) ->
  Q (extract stack imp (mkNode k s e r1 r2 cs)).
Proof.
  intros extract own Hnil Hleaf Hscope Hroot.
  pose proof (extracted_range (mkNode k s e r1 r2 cs) source fp stack) as Hr. simpl in Hr.
  assert (Hl : forall o, (forall x, o = Some x -> own x) ->
    Q (match o with Some x => ([x], add_contains_rel sha256_hex stack (e_id x)) | None => ([], []) end)).
  { intros [x|] Hx; auto. }
  assert (Hs : forall o in_impl, (forall x, o = Some x -> own x) ->
    Q (match o with
       | Some x =>
           let b := with_field "body" ([], []) (fun body => match body with
             | mkNode _ _ _ _ _ bs => collect_named (extract
                 (stack ++ [(e_id x, qualified_name x)]) in_impl) bs end) cs in
           (x :: b.1, add_contains_rel sha256_hex stack (e_id x) ++ b.2)
       | None => ([], []) end)).
  { intros [x|] in_impl Hx; [|done]. apply Hscope; [auto|].
    apply (with_field_elim (fun b => b = ([], []) \/ exists c in_impl, c ∈ cs /\
      b = collect_named (extract (stack ++ [(e_id x, qualified_name x)]) in_impl)
            (node_children c.2))); [by left|].
    apply Forall_forall. intros c Hc. right. exists c, in_impl. split; [done|].
    by destruct c as [? []]. }
  unfold extract in *. cbn [extract_entities].
  repeat match goal with |- context [String.eqb k ?s] => destruct (String.eqb k s) end;
    first [ apply Hl; intros x Hx; by eapply (Hr imp Function []); eauto
          | apply Hl; intros x Hx; eapply (Hr imp); right; left; exact Hx
          | apply Hs; intros x Hx; eapply (Hr imp); right; left; exact Hx
          | apply Hs; intros x Hx; by eapply (Hr imp Function []); eauto
          | done ].
Qed.

Lemma extract_entities_layout source fp node : forall stack imp,
  tree_wf node ->
  layout_ok (start_byte node) (end_byte node)
    (extract_entities sha256_hex source fp stack imp node).1.
Proof.
  induction node as [k s e r1 r2 cs IH] using Node_ind2. intros stack imp [Hse Hcs].
  pose proof (children_wf_Forall _ _ _ Hcs) as Hall. cbn [start_byte end_byte].
  apply (extract_entities_cases (fun p => layout_ok s e p.1)).
  - apply layout_ok_nil.
  - intros x [Hx _]. apply layout_ok_cons; [unfold within; rewrite Hx; simpl; lia|apply layout_ok_nil].
  - intros x b [Hx _] Hb.
    apply layout_ok_cons; [unfold within; rewrite Hx; simpl; lia|]. rewrite Hx. simpl.
    destruct Hb as [->|(c & in_impl & Hc & ->)]; [apply layout_ok_nil|].
    rewrite Forall_forall in IH, Hall.
    destruct (IH c Hc) as [_ Hb], (Hall c Hc) as (? & ? & Hwf).
    destruct c as [fn [bk bs be br1 br2 bcs]]. simpl in *. destruct Hwf as [? Hwf].
    eapply layout_ok_mono; [|done|done]. apply collect_layout; [done|done|].
    eapply Forall_impl; [exact Hb|]. auto.
  - apply collect_layout; [done|done|]. eapply Forall_impl; [exact IH|]. intros x [Hx _]. auto.
Qed.

Definition contains_of (e : Entity) : list Relationship :=
  match parent_entity e with
  | Some p => [new_relationship sha256_hex Contains p (e_id e)]
  | None => []
  end.

Lemma collect_contains (f : Node -> list Entity * list Relationship) cs :
  Forall (fun x => (f x.2).2 = flat_map contains_of (f x.2).1) cs ->
  (collect_named f cs).2 = flat_map contains_of (collect_named f cs).1.
Proof.
  induction 1 as [|[[fl nm] c] cs Hc HF IH]; simpl in *; [done|].
  destruct nm; simpl; [|done]. by rewrite flat_map_app, Hc, IH.
Qed.

Lemma add_contains_of stack e :
  parent_entity e = fst <$> last stack ->
  add_contains_rel sha256_hex stack (e_id e) = contains_of e.
Proof. unfold add_contains_rel, contains_of. intros ->. by destruct (last stack) as [[]|]. Qed.

Lemma extract_entities_contains_of source fp node : forall stack imp,
  let r := extract_entities sha256_hex source fp stack imp node in
  r.2 = flat_map contains_of r.1.
Proof.
  induction node as [k s e r1 r2 cs IH] using Node_ind2. intros stack imp r. subst r.
  apply (extract_entities_cases (fun p => p.2 = flat_map contains_of p.1)); simpl.
  - done.
  - intros x [_ Hp]. by rewrite add_contains_of, app_nil_r.
  - intros x b [_ Hp] Hb. rewrite add_contains_of by done. f_equal.
    destruct Hb as [->|(c & in_impl & Hc & ->)]; [done|]. apply collect_contains.
    rewrite Forall_forall in IH. destruct (IH c Hc) as [_ Hb].
    eapply Forall_impl; [exact Hb|]. auto.
  - apply collect_contains. eapply Forall_impl; [exact IH|]. intros x [Hx _]. apply Hx.
Qed.
End extraction_facts.

(** ** The snapshot tables *)

Record GraphSnapshot : Type := mkSnapshot {
  entities : list Entity;
  relationships : list Relationship
}.

Definition is_continuation (a : ascii) : bool := in_range 0x80 0xBF a.

Fixpoint skip_continuation (s : bytes) : bytes :=
  match s with
  | a :: s' => if is_continuation a then skip_continuation s' else s
  | [] => []
  end.

(** [s LIKE p]: [%] stands for any text, [_] for one character, and letters
    match whatever their case. *)
Fixpoint sql_like (p : bytes) : bytes -> bool :=
  match p with
  | [] => fun s => match s with [] => true | _ => false end
  | c :: p' =>
      if Ascii.eqb c "%" then
        fix any (s : bytes) : bool :=
          sql_like p' s || match s with [] => false | _ :: s' => any s' end
      else if Ascii.eqb c "_" then
        fun s => match s with [] => false | _ :: s' => sql_like p' (skip_continuation s') end
      else
        fun s => match s with
                 | [] => false
                 | a :: s' => Ascii.eqb (lower_ascii a) (lower_ascii c) && sql_like p' s'
                 end
  end.

(** [ORDER BY file_path, line_start] *)
Definition by_file_line (x y : Entity) : bool :=
  if String.eqb (e_file_path x) (e_file_path y) then (line_range x).1 <=? (line_range y).1
  else String.leb (e_file_path x) (e_file_path y).

Definition by_file_byte (x y : Entity) : bool :=
  if String.eqb (e_file_path x) (e_file_path y) then (byte_range x).1 <=? (byte_range y).1
  else String.leb (e_file_path x) (e_file_path y).

Definition upsert_entity (e : Entity) (g : GraphSnapshot) : GraphSnapshot :=
  mkSnapshot (filter (fun x => e_id x <> e_id e) (entities g) ++ [e]) (relationships g).

Definition upsert_relationship (r : Relationship) (g : GraphSnapshot) : GraphSnapshot :=
  mkSnapshot (entities g) (filter (fun x => r_id x <> r_id r) (relationships g) ++ [r]).

Definition get_entity_ids_for_file (g : GraphSnapshot) (file_path : string) : list string :=
  e_id <$> filter (fun x => e_file_path x = file_path) (entities g).

Definition remove_file (file_path : string) (g : GraphSnapshot) : GraphSnapshot :=
  let ids := get_entity_ids_for_file g file_path in
  let rels := foldl (fun rs id => filter (fun r => ~ (from_entity r = id \/ to_entity r = id)) rs)
                (relationships g) ids in
  mkSnapshot (filter (fun x => e_file_path x <> file_path) (entities g)) rels.

Definition get_entity_by_id (g : GraphSnapshot) (id : string) : option Entity :=
  head (filter (fun x => e_id x = id) (entities g)).

Definition get_entities_by_name (g : GraphSnapshot) (name : string) : list Entity :=
  sort_by by_file_line (filter (fun x => e_name x = name) (entities g)).

Definition search_entities_by_name (g : GraphSnapshot) (pattern : string) : list Entity :=
  sort_by by_file_line
    (filter (fun x => sql_like (bytes_of ("%" +:+ pattern +:+ "%")) (bytes_of (e_name x)) = true)
       (entities g)).

Definition get_entities_in_file (g : GraphSnapshot) (file_path : string) : list Entity :=
  sort_by (fun x y => (byte_range x).1 <=? (byte_range y).1)
    (filter (fun x => e_file_path x = file_path) (entities g)).

Definition get_relationships_for_entity (g : GraphSnapshot) (id : string) : list Relationship :=
  filter (fun r => from_entity r = id \/ to_entity r = id) (relationships g).

Definition get_outgoing_relationships (g : GraphSnapshot) (id : string) : list Relationship :=
  filter (fun r => from_entity r = id) (relationships g).

Definition get_incoming_relationships (g : GraphSnapshot) (id : string) : list Relationship :=
  filter (fun r => to_entity r = id) (relationships g).

Definition all_entities (g : GraphSnapshot) : list Entity := sort_by by_file_byte (entities g).

Definition filter_entities (g : GraphSnapshot) (kind file name : option string) : list Entity :=
  sort_by by_file_line
    (filter (fun x =>
       match kind with Some k => String.eqb (kind_as_str (e_kind x)) k | None => true end &&
       match file with Some f => String.eqb (e_file_path x) f | None => true end &&
       match name with
       | Some n => sql_like (bytes_of ("%" +:+ n +:+ "%")) (bytes_of (e_name x))
       | None => true
       end = true) (entities g)).

Definition get_entities_by_ids (g : GraphSnapshot) (ids : list string) : list Entity :=
  match ids with
  | [] => []
  | _ => sort_by by_file_line (filter (fun x => e_id x ∈ ids) (entities g))
  end.

(** ** Reachability *)

(** The other end of a relationship of [id]. *)
Definition neighbor (id : string) (rel : Relationship) : string :=
  if decide (from_entity rel = id) then to_entity rel else from_entity rel.

(** The inner loop: newly visited neighbours are queued one hop further. *)
Fixpoint visit_neighbors (id : string) (hops : nat) (rels : list Relationship)
    (visited : gset string) (queue : list (string * nat)) : gset string * list (string * nat) :=
  match rels with
  | [] => (visited, queue)
  | rel :: rels' =>
      let n := neighbor id rel in
      if decide (n ∈ visited) then visit_neighbors id hops rels' visited queue
      else visit_neighbors id hops rels' ({[n]} ∪ visited) (queue ++ [(n, S hops)])
  end.

Fixpoint seed_queue (seed_ids : list string) (visited : gset string)
    (queue : list (string * nat)) : gset string * list (string * nat) :=
  match seed_ids with
  | [] => (visited, queue)
  | id :: ids =>
      if decide (id ∈ visited) then seed_queue ids visited queue
      else seed_queue ids ({[id]} ∪ visited) (queue ++ [(id, 0)])
  end.

(** [while let Some((id, hops)) = queue.pop_front()] *)
Fixpoint bfs_loop (fuel : nat) (g : GraphSnapshot) (max_hops : nat)
    (visited : gset string) (queue : list (string * nat)) : gset string :=
  match fuel, queue with
  | S fuel, (id, hops) :: queue' =>
      if max_hops <=? hops then bfs_loop fuel g max_hops visited queue'
      else
        let '(visited', queue'') :=
          visit_neighbors id hops (get_relationships_for_entity g id) visited queue' in
        bfs_loop fuel g max_hops visited' queue''
  | _, _ => visited
  end.

(** An id enters the queue at most once, so the seeds and the endpoints of the
    relationships bound the number of iterations. *)
Definition bfs_fuel (g : GraphSnapshot) (seed_ids : list string) : nat :=
  length seed_ids + 2 * length (relationships g).

Definition reachable_ids (g : GraphSnapshot) (seed_ids : list string) (max_hops : nat) : gset string :=
  let '(visited, queue) := seed_queue seed_ids ∅ [] in
  bfs_loop (bfs_fuel g seed_ids) g max_hops visited queue.

(** The relationships inside the reached set, by id; the first one found stays. *)
Definition connecting_relationships (g : GraphSnapshot) (ids : list string) : gmap string Relationship :=
  foldl (fun seen id =>
    foldl (fun seen rel =>
      if decide (from_entity rel ∈ ids /\ to_entity rel ∈ ids) then
        match seen !! r_id rel with Some _ => seen | None => <[r_id rel := rel]> seen end
      else seen) seen (get_relationships_for_entity g id)) ∅ ids.

Definition reachable_entities (g : GraphSnapshot) (seed_ids : list string) (max_hops : nat) :
    list Entity * list Relationship :=
  let ids := elements (reachable_ids g seed_ids max_hops) in
  (get_entities_by_ids g ids, snd <$> map_to_list (connecting_relationships g ids)).

(** *** Correctness of the search *)

Section reach.
Variable g : GraphSnapshot.
Variable seed_ids : list string.

Definition adjacent (x y : string) : Prop :=
  exists r, r ∈ relationships g /\
    (from_entity r = x /\ to_entity r = y \/ to_entity r = x /\ from_entity r = y).

(** At most [k] relationship traversals from a seed. *)
Fixpoint within_hops (k : nat) (x : string) : Prop :=
  match k with
  | 0 => x ∈ seed_ids
  | S k => within_hops k x \/ exists y, within_hops k y /\ adjacent y x
  end.

Lemma within_hops_le k k' x : k <= k' -> within_hops k x -> within_hops k' x.
Proof. induction 1; simpl; auto. Qed.

Lemma neighbor_adjacent x y :
  adjacent x y <-> exists r, r ∈ get_relationships_for_entity g x /\ neighbor x r = y.
Proof.
  unfold adjacent, get_relationships_for_entity, neighbor. split.
  - intros (r & Hr & H). exists r. rewrite list_elem_of_filter. case_decide; intuition congruence.
  - intros (r & [H Hr]%list_elem_of_filter & Hn). exists r. case_decide; intuition.
Qed.

Lemma visit_neighbors_spec id hops rels visited queue :
  exists new, let r := visit_neighbors id hops rels visited queue in
    r.2 = queue ++ ((fun n => (n, S hops)) <$> new) /\
    (forall x, x ∈ r.1 <-> x ∈ visited \/ exists rel, rel ∈ rels /\ neighbor id rel = x) /\
    (forall x, x ∈ new <-> x ∈ r.1 /\ x ∉ visited) /\ NoDup new.
Proof.
  revert visited queue; induction rels as [|rel rels IH]; intros visited queue; simpl.
  { exists []. simpl. rewrite app_nil_r. setoid_rewrite elem_of_nil. split_and!; [done|naive_solver|naive_solver|constructor]. }
  case_decide as Hn.
  - destruct (IH visited queue) as (new & H1 & H2 & H3 & H4). exists new. split_and!; [done| |done|done].
    intros x. rewrite H2. setoid_rewrite elem_of_cons. naive_solver.
  - destruct (IH ({[neighbor id rel]} ∪ visited) (queue ++ [(neighbor id rel, S hops)]))
      as (new & H1 & H2 & H3 & H4). exists (neighbor id rel :: new). split_and!.
    + rewrite H1. simpl. by rewrite <-app_assoc.
    + intros x. rewrite H2, elem_of_union, elem_of_singleton. setoid_rewrite elem_of_cons. naive_solver.
    + intros x. rewrite elem_of_cons, H3, H2, elem_of_union, elem_of_singleton.
      destruct (decide (x = neighbor id rel)) as [->|]; naive_solver.
    + constructor; [|done]. rewrite H3, elem_of_union, elem_of_singleton. naive_solver.
Qed.

Lemma seed_queue_spec ids visited queue :
  exists new, let r := seed_queue ids visited queue in
    r.2 = queue ++ ((fun n => (n, 0)) <$> new) /\
    (forall x, x ∈ r.1 <-> x ∈ visited \/ x ∈ ids) /\
    (forall x, x ∈ new <-> x ∈ r.1 /\ x ∉ visited) /\ NoDup new.
Proof.
  revert visited queue; induction ids as [|id ids IH]; intros visited queue; simpl.
  { exists []. simpl. rewrite app_nil_r. setoid_rewrite elem_of_nil. split_and!; [done|naive_solver|naive_solver|constructor]. }
  case_decide as Hn.
  - destruct (IH visited queue) as (new & H1 & H2 & H3 & H4). exists new. split_and!; [done| |done|done].
    intros x. rewrite H2, elem_of_cons. naive_solver.
  - destruct (IH ({[id]} ∪ visited) (queue ++ [(id, 0)])) as (new & H1 & H2 & H3 & H4).
    exists (id :: new). split_and!.
    + rewrite H1. simpl. by rewrite <-app_assoc.
    + intros x. rewrite H2, elem_of_cons, elem_of_union, elem_of_singleton. naive_solver.
    + intros x. rewrite elem_of_cons, H3, H2, elem_of_union, elem_of_singleton.
      destruct (decide (x = id)) as [->|]; naive_solver.
    + constructor; [|done]. rewrite H3, elem_of_union, elem_of_singleton. naive_solver.
Qed.

(** Every id the search can meet. *)
Definition universe : gset string :=
  list_to_set (seed_ids ++ (from_entity <$> relationships g) ++ (to_entity <$> relationships g)).

Lemma universe_size : size universe <= bfs_fuel g seed_ids.
Proof.
  unfold universe, bfs_fuel. etrans; [apply size_list_to_set_le|].
  rewrite !length_app, !length_fmap. lia.
Qed.

Lemma adjacent_universe x y : adjacent x y -> y ∈ universe.
Proof.
  intros (r & Hr & H). unfold universe. rewrite elem_of_list_to_set, !elem_of_app.
  right. rewrite !list_elem_of_fmap. destruct H as [[_ <-]|[_ <-]]; eauto.
Qed.

Variable max_hops : nat.

(** The queue holds nodes [A] at [h] hops, then nodes [B] one hop further; all
    that is within [h] hops is visited, and expanded unless still in [A]. *)
Record bfs_inv (h : nat) (A B : list string) (visited : gset string) : Prop := {
  inv_h : h <= max_hops;
  inv_sound x : x ∈ visited -> within_hops h x \/ x ∈ B;
  inv_A x : x ∈ A -> within_hops h x;
  inv_B x : x ∈ B -> h < max_hops /\ within_hops (S h) x /\ x ∈ visited;
  inv_complete x : within_hops h x -> x ∈ visited;
  inv_done x y : h < max_hops -> within_hops h x -> x ∉ A -> adjacent x y -> y ∈ visited;
  inv_universe : visited ⊆ universe
}.

Definition level_queue (h : nat) (A B : list string) : list (string * nat) :=
  ((fun n => (n, h)) <$> A) ++ ((fun n => (n, S h)) <$> B).

(** The next level. *)
Lemma bfs_inv_shift h b B visited :
  bfs_inv h [] (b :: B) visited -> bfs_inv (S h) (b :: B) [] visited.
Proof.
  intros [Hh Hs HA HB Hc Hd Hu]. destruct (HB b) as (Hlt & _ & _); [by left|].
  split; try done.
  - intros x [Hx|Hx]%Hs; left; [by apply (within_hops_le h); [lia|]|by apply HB].
  - intros x Hx. by apply HB.
  - by intros x ?%not_elem_of_nil.
  - intros x [Hx|(y & Hy & Hyx)]; [by apply Hc|].
    apply (Hd y); [done|done|by apply not_elem_of_nil|done].
  - intros x y _ Hx Hxb Hxy.
    assert (Hv : x ∈ visited).
    { destruct Hx as [Hx|(z & Hz & Hzx)]; [by apply Hc|].
      apply (Hd z); [done|done|by apply not_elem_of_nil|done]. }
    destruct (Hs x Hv) as [Hx'|?]; [|done].
    apply (Hd x); [done|done|by apply not_elem_of_nil|done].
Qed.

Lemma within_hops_closed h :
  (forall x y, within_hops h x -> adjacent x y -> within_hops h y) ->
  forall k x, within_hops k x -> within_hops h x.
Proof.
  intros Hcl. induction k as [|k IH]; intros x Hx.
  - by apply (within_hops_le 0); [lia|].
  - destruct Hx as [Hx|(y & Hy & Hyx)]; [by apply IH|]. eapply Hcl; eauto.
Qed.

Lemma bfs_inv_final h visited :
  bfs_inv h [] [] visited -> forall x, x ∈ visited <-> within_hops max_hops x.
Proof.
  intros [Hh Hs HA HB Hc Hd Hu] x. split.
  { intros [Hx|?%not_elem_of_nil]%Hs; [|done]. by apply (within_hops_le h). }
  intros Hx. apply Hc.
  destruct (decide (h = max_hops)) as [->|Hne]; [done|].
  apply (within_hops_closed h) with max_hops; [|done]. intros z y Hz Hzy.
  destruct (Hs y) as [?|?%not_elem_of_nil]; [|done|done].
  apply (Hd z); [lia|done|by apply not_elem_of_nil|done].
Qed.

(** One iteration that expands the first node of level [h]. *)
Lemma bfs_inv_expand h a A B visited :
  bfs_inv h (a :: A) B visited -> h < max_hops ->
  let r := visit_neighbors a h (get_relationships_for_entity g a) visited (level_queue h A B) in
  exists new, r.2 = level_queue h A (B ++ new) /\ bfs_inv h A (B ++ new) r.1 /\
    length new + size visited = size r.1.
Proof.
  intros [Hh Hs HA HB Hc Hd Hu] Hlt r.
  destruct (visit_neighbors_spec a h (get_relationships_for_entity g a) visited (level_queue h A B))
    as (new & H1 & H2 & H3 & H4). fold r in H1, H2, H3.
  setoid_rewrite <-neighbor_adjacent in H2.
  exists new. split_and!.
  - rewrite H1. unfold level_queue. by rewrite fmap_app, app_assoc.
  - split; [done|..].
    + intros x Hx. rewrite elem_of_app, H3. destruct (decide (x ∈ visited)) as [Hv|]; [|tauto].
      destruct (Hs x Hv); tauto.
    + intros x Hx. apply HA. by right.
    + intros x [Hx|Hx]%elem_of_app; [destruct (HB x Hx) as (? & ? & ?); split_and!; [done..|]|].
      { rewrite H2. by left. }
      apply H3 in Hx as [Hx Hnv]. split_and!; [done| |done].
      apply H2 in Hx as [?|Hadj]; [done|]. right. exists a. split; [|done]. apply HA. by left.
    + intros x Hx. rewrite H2. left. by apply Hc.
    + intros x y _ Hx HxA Hxy. rewrite H2. destruct (decide (x = a)) as [->|]; [by right|].
      left. apply (Hd x); [done|done| |done]. rewrite elem_of_cons. naive_solver.
    + intros x [Hx|Hx]%H2; [by apply Hu|by eapply adjacent_universe].
  - rewrite <-(size_list_to_set (C := gset string)) by exact H4.
    rewrite <-size_union.
    + f_equal. apply leibniz_equiv. intros x.
      rewrite elem_of_union, elem_of_list_to_set, H3, H2.
      destruct (decide (x ∈ visited)); naive_solver.
    + intros x. rewrite elem_of_list_to_set, H3. naive_solver.
Qed.

Lemma level_queue_length h A B : length (level_queue h A B) = length A + length B.
Proof. unfold level_queue. by rewrite length_app, !length_fmap. Qed.

Lemma bfs_loop_spec fuel : forall h A B visited,
  bfs_inv h A B visited ->
  length A + length B + size universe <= fuel + size visited ->
  forall x, x ∈ bfs_loop fuel g max_hops visited (level_queue h A B) <-> within_hops max_hops x.
Proof.
  induction fuel as [|fuel IH]; intros h A B visited Hinv Hf.
  { pose proof (subseteq_size _ _ (inv_universe _ _ _ _ Hinv)).
    destruct A, B; simpl in Hf; try lia. simpl. by apply (bfs_inv_final h). }
  assert (Hstep : forall h a A B, bfs_inv h (a :: A) B visited ->
    S (length A) + length B + size universe <= S fuel + size visited ->
    forall x, x ∈ bfs_loop (S fuel) g max_hops visited (level_queue h (a :: A) B) <->
              within_hops max_hops x).
  { clear h A B Hinv Hf. intros h a A B Hinv Hf.
    change (level_queue h (a :: A) B) with ((a, h) :: level_queue h A B). cbn [bfs_loop].
    destruct (Nat.leb_spec max_hops h) as [Hle|Hlt].
    - apply IH; [|lia]. destruct Hinv as [Hh Hs HA HB Hc Hd Hu]. split; try done.
      + intros x Hx. apply HA. by right.
      + intros x y ?. lia.
    - destruct (bfs_inv_expand h a A B visited Hinv Hlt) as (new & Hq & Hi & Hn).
      destruct (visit_neighbors _ _ _ _ _) as [v q]. simpl in *. rewrite Hq.
      apply IH; [done|]. rewrite length_app. lia. }
  destruct A as [|a A]; [|by apply Hstep].
  destruct B as [|b B]; [by apply (bfs_inv_final h)|].
  replace (level_queue h [] (b :: B)) with (level_queue (S h) (b :: B) []).
  - apply Hstep; [by apply bfs_inv_shift|]. simpl in *. lia.
  - unfold level_queue. simpl. by rewrite app_nil_r.
Qed.

(** The seeds, visited and queued once each. *)
Lemma bfs_inv_init new visited :
  (forall y, y ∈ visited <-> y ∈ seed_ids) -> (forall y, y ∈ new <-> y ∈ visited) -> NoDup new ->
  bfs_inv 0 new [] visited /\
  length new + length (@nil string) + size universe <= bfs_fuel g seed_ids + size visited.
Proof.
  intros Hv Hn Hnd. split.
  - split.
    + lia.
    + intros y Hy. left. by apply Hv.
    + intros y Hy. by apply Hv, Hn.
    + by intros y ?%not_elem_of_nil.
    + intros y Hy. by apply Hv.
    + intros y z _ Hy Hny. destruct Hny. by apply Hn, Hv.
    + intros y Hy. unfold universe. rewrite elem_of_list_to_set, elem_of_app. left. by apply Hv.
  - simpl. pose proof universe_size.
    assert (length new = size visited); [|lia].
    rewrite <-(size_list_to_set (C := gset string)) by exact Hnd. f_equal.
    apply leibniz_equiv. intros y. by rewrite elem_of_list_to_set, Hn.
Qed.

Lemma reachable_ids_within x : x ∈ reachable_ids g seed_ids max_hops <-> within_hops max_hops x.
Proof.
  unfold reachable_ids.
  destruct (seed_queue_spec seed_ids ∅ []) as (new & H1 & H2 & H3 & H4).
  destruct (seed_queue _ _ _) as [visited queue]. simpl in *. subst queue.
  destruct (bfs_inv_init new visited) as [Hinv Hfuel]; [set_solver..|done|].
  replace ((fun n => (n, 0)) <$> new) with (level_queue 0 new [])
    by (unfold level_queue; simpl; by rewrite app_nil_r).
  by apply bfs_loop_spec.
Qed.
End reach.

(** ** Call edges *)

Section calls.
Variable sha256_hex : string -> string.

(** What the call pass may add: fresh call edges between two distinct entities
    out of [sources] and [targets]. *)
Definition call_edges (sources targets : list string) (rels new : list Relationship) : Prop :=
  Forall (fun r => r_kind r = Calls /\ from_entity r ∈ sources /\ to_entity r ∈ targets /\
                   from_entity r <> to_entity r /\ r_id r ∉ r_id <$> rels) new /\
  NoDup (r_id <$> new).

Lemma call_edges_nil sources targets rels : call_edges sources targets rels [].
Proof. split; constructor. Qed.

Lemma call_edges_app sources targets rels new1 new2 :
  call_edges sources targets rels new1 -> call_edges sources targets (rels ++ new1) new2 ->
  call_edges sources targets rels (new1 ++ new2).
Proof.
  intros [F1 N1] [F2 N2]. split.
  - apply Forall_app; split; [done|]. eapply Forall_impl; [exact F2|].
    intros r (? & ? & ? & ? & Hn). rewrite fmap_app, elem_of_app in Hn. tauto.
  - rewrite fmap_app. apply NoDup_app. split_and!; [done| |done].
    intros id Hid Hid2. apply list_elem_of_fmap in Hid2 as (r & -> & Hr).
    rewrite Forall_forall in F2. destruct (F2 r Hr) as (_ & _ & _ & _ & Hn).
    apply Hn. rewrite fmap_app, elem_of_app. by right.
Qed.

(** A pass over the relationships that only appends call edges. *)
Definition adds_calls (sources targets : list string)
    (f : list Relationship -> list Relationship) : Prop :=
  forall rels, exists new, f rels = rels ++ new /\ call_edges sources targets rels new.

Lemma adds_calls_id sources targets : adds_calls sources targets (fun r => r).
Proof. intros rels. exists []. rewrite app_nil_r. split; [done|apply call_edges_nil]. Qed.

Lemma adds_calls_comp sources targets f h :
  adds_calls sources targets f -> adds_calls sources targets h ->
  adds_calls sources targets (fun r => h (f r)).
Proof.
  intros Hf Hh rels. destruct (Hf rels) as (n1 & -> & H1).
  destruct (Hh (rels ++ n1)) as (n2 & -> & H2).
  exists (n1 ++ n2). rewrite app_assoc. split; [done|]. by apply call_edges_app.
Qed.

Lemma push_calls_adds caller ids sources targets :
  caller ∈ sources -> (forall x, x ∈ ids -> x ∈ targets) ->
  adds_calls sources targets (push_calls sha256_hex caller ids).
Proof.
  intros Hc. induction ids as [|t ids IH]; intros Hids; [apply adds_calls_id|].
  apply (adds_calls_comp _ _ (fun rels => if String.eqb t caller then rels
    else let rel := new_relationship sha256_hex Calls caller t in
         if existsb (fun r => String.eqb (r_id r) (r_id rel)) rels then rels else rels ++ [rel])
    (push_calls sha256_hex caller ids));
    [|apply IH; intros x Hx; apply Hids; by right].
  intros rels. cbv beta zeta. set (rel := new_relationship sha256_hex Calls caller t).
  destruct (String.eqb_spec t caller) as [->|Ht]; [apply (adds_calls_id _ _ rels)|].
  destruct (existsb _ rels) eqn:E; [apply (adds_calls_id _ _ rels)|].
  exists [rel]. split; [done|]. split; [|apply NoDup_singleton].
  apply Forall_singleton. split_and!; [done|done|apply Hids; by left|simpl; congruence|].
  intros (r & Hr & Hin)%list_elem_of_fmap. apply not_true_iff_false in E.
  apply E, existsb_exists. exists r. split; [by apply list_elem_of_In|].
  apply String.eqb_eq. by rewrite Hr.
Qed.

Lemma fold_named_adds (f : Node -> list Relationship -> list Relationship) sources targets cs :
  Forall (fun x => adds_calls sources targets (f x.2)) cs ->
  adds_calls sources targets (fold_named f cs).
Proof.
  induction 1 as [|[[fl nm] c] cs Hc _ IH]; [apply adds_calls_id|].
  apply (adds_calls_comp _ _ (fun rels => if nm then f c rels else rels) (fold_named f cs)); [|exact IH].
  destruct nm; [exact Hc|apply adds_calls_id].
Qed.

Lemma collect_calls_adds source caller (m : gmap string (list string)) sources targets node :
  caller ∈ sources ->
  (forall n ids x, m !! n = Some ids -> x ∈ ids -> x ∈ targets) ->
  adds_calls sources targets (collect_calls sha256_hex source caller m node).
Proof.
  intros Hc Hm. induction node as [k s e r1 r2 cs IH] using Node_ind'.
  cbn [collect_calls].
  apply (adds_calls_comp _ _ (fun rels => if String.eqb k "call_expression" then
           match with_field "function" None (extract_final_identifier source) cs with
           | Some name => match m !! name with
                          | Some ids => push_calls sha256_hex caller ids rels
                          | None => rels end
           | None => rels end else rels)
    (fold_named (collect_calls sha256_hex source caller m) cs)); [|by apply fold_named_adds].
  destruct (String.eqb k _); [|apply adds_calls_id].
  destruct (with_field "function" None (extract_final_identifier source) cs) as [name|]; [|apply adds_calls_id].
  destruct (m !! name) as [ids|] eqn:E; [|apply adds_calls_id].
  apply push_calls_adds; [done|]. intros x Hx. by eapply Hm.
Qed.

Lemma name_map_targets es n ids x :
  name_map es !! n = Some ids -> x ∈ ids -> x ∈ e_id <$> es.
Proof.
  unfold name_map.
  assert (H : forall (m : gmap string (list string)) (acc : list string),
    (forall n ids x, m !! n = Some ids -> x ∈ ids -> x ∈ acc) ->
    forall n ids x, foldl (fun m e => <[e_name e := default [] (m !! e_name e) ++ [e_id e]]> m) m es !! n
      = Some ids -> x ∈ ids -> x ∈ acc ++ (e_id <$> es)).
  { induction es as [|e es IH]; intros m acc Hm; simpl; [by rewrite app_nil_r|].
    intros n1 ids1 x1 Hn1 Hx1.
    change (acc ++ e_id e :: list_fmap Entity string e_id es) with (acc ++ [e_id e] ++ (e_id <$> es)).
    rewrite app_assoc. eapply IH; [|exact Hn1|exact Hx1]. clear n1 ids1 x1 Hn1 Hx1.
    intros n' ids' x'.
    rewrite lookup_insert. case_decide as Hn.
    - intros [= <-]. rewrite !elem_of_app. intros [Hx|Hx]; [|by right].
      left. destruct (m !! e_name e) as [l|] eqn:El; simpl in Hx; [by eapply Hm|].
      by apply not_elem_of_nil in Hx.
    - intros Hl Hx. rewrite elem_of_app. left. by eapply Hm. }
  intros Hn Hx. rewrite <-(app_nil_l (e_id <$> es)).
  eapply (H ∅ []); [|exact Hn|exact Hx]. intros ??? Hl. by rewrite lookup_empty in Hl.
Qed.

Lemma build_calls_adds root source es rels :
  exists new, build_calls_relationships sha256_hex root source es rels = rels ++ new /\
    call_edges (e_id <$> es) (e_id <$> es) rels new.
Proof.
  unfold build_calls_relationships.
  assert (H : forall l, (forall e, e ∈ l -> e_id e ∈ e_id <$> es) ->
    adds_calls (e_id <$> es) (e_id <$> es)
      (build_calls_loop sha256_hex root source (name_map es) l)).
  { induction l as [|e l IH]; intros Hl; [apply adds_calls_id|].
    apply (adds_calls_comp _ _ (fun rels =>
      if decide (e_kind e = Function \/ e_kind e = Method) then
        match find_node_at_range (byte_range e).1 (byte_range e).2 root with
        | Some func_node => match child_by_field_name func_node "body" with
            | Some body => collect_calls sha256_hex source (e_id e) (name_map es) body rels
            | None => rels end
        | None => rels end else rels)
      (build_calls_loop sha256_hex root source (name_map es) l));
      [|apply IH; intros; apply Hl; by right].
    case_decide; [|apply adds_calls_id].
    destruct (find_node_at_range _ _ _); [|apply adds_calls_id].
    destruct (child_by_field_name _ _); [|apply adds_calls_id].
    apply collect_calls_adds; [apply Hl; by left|]. intros ???. apply name_map_targets. }
  apply H. intros e He. apply list_elem_of_fmap. eauto.
Qed.
End calls.

Section connecting.
Variables (g : GraphSnapshot) (ids : list string).

Definition connects (r : Relationship) : Prop := from_entity r ∈ ids /\ to_entity r ∈ ids.

Definition seen_ok (seen : gmap string Relationship) : Prop :=
  forall k r, seen !! k = Some r -> r_id r = k /\ r ∈ relationships g /\ connects r.

Definition keep_first (seen : gmap string Relationship) (rel : Relationship) : gmap string Relationship :=
  if decide (from_entity rel ∈ ids /\ to_entity rel ∈ ids) then
    match seen !! r_id rel with Some _ => seen | None => <[r_id rel := rel]> seen end
  else seen.

Lemma keep_first_ok seen rs :
  seen_ok seen -> (forall r, r ∈ rs -> r ∈ relationships g) ->
  let seen' := foldl keep_first seen rs in
  seen_ok seen' /\ (forall k, is_Some (seen !! k) -> is_Some (seen' !! k)) /\
  (forall r, r ∈ rs -> connects r -> is_Some (seen' !! r_id r)).
Proof.
  revert seen; induction rs as [|rel rs IH]; intros seen Hok Hrs; simpl.
  { split_and!; [done|done|]. by intros r ?%not_elem_of_nil. }
  assert (Hok' : seen_ok (keep_first seen rel) /\
    (forall k, is_Some (seen !! k) -> is_Some (keep_first seen rel !! k)) /\
    (connects rel -> is_Some (keep_first seen rel !! r_id rel))).
  { unfold keep_first. case_decide as Hc; [|by split_and!].
    destruct (seen !! r_id rel) as [r0|] eqn:E; [split_and!; [done|done|by rewrite E]|].
    split_and!.
    - intros k r. rewrite lookup_insert. case_decide as Hk; [|apply Hok].
      intros [= <-]. split_and!; [done|apply Hrs; by left|done].
    - intros k Hk. rewrite lookup_insert. by case_decide.
    - intros _. by rewrite lookup_insert_eq. }
  destruct Hok' as (H1 & H2 & H3).
  destruct (IH (keep_first seen rel)) as (I1 & I2 & I3); [done|intros; apply Hrs; by right|].
  split_and!; [done|auto|]. intros r [->|Hr]%elem_of_cons Hc; auto.
Qed.

Lemma connecting_ok l :
  let m := foldl (fun seen id => foldl keep_first seen (get_relationships_for_entity g id)) ∅ l in
  seen_ok m /\
  (forall id r, id ∈ l -> r ∈ get_relationships_for_entity g id -> connects r -> is_Some (m !! r_id r)).
Proof.
  assert (H : forall seen, seen_ok seen ->
    let m := foldl (fun seen id => foldl keep_first seen (get_relationships_for_entity g id)) seen l in
    seen_ok m /\ (forall k, is_Some (seen !! k) -> is_Some (m !! k)) /\
    (forall id r, id ∈ l -> r ∈ get_relationships_for_entity g id -> connects r -> is_Some (m !! r_id r))).
  { induction l as [|id l IH]; intros seen Hok; simpl.
    { split_and!; [done|done|]. by intros ?? ?%not_elem_of_nil. }
    destruct (keep_first_ok seen (get_relationships_for_entity g id)) as (K1 & K2 & K3); [done| |].
    { intros r Hr. by apply list_elem_of_filter in Hr as [_ ?]. }
    destruct (IH _ K1) as (I1 & I2 & I3). split_and!; [done|auto|].
    intros id' r [->|Hid]%elem_of_cons Hr Hc; [auto|by eapply I3]. }
  destruct (H ∅) as (H1 & _ & H3); [by intros k r; rewrite lookup_empty|]. by split.
Qed.

Lemma connecting_relationships_spec r :
  NoDup (r_id <$> relationships g) ->
  r ∈ snd <$> map_to_list (connecting_relationships g ids) <-> r ∈ relationships g /\ connects r.
Proof.
  intros Hnd. destruct (connecting_ok ids) as [Hok Hall].
  change (foldl _ ∅ ids) with (connecting_relationships g ids) in Hok, Hall.
  rewrite list_elem_of_fmap. split.
  - intros ([k r'] & -> & Hk%elem_of_map_to_list). simpl. by apply Hok in Hk as (_ & ? & ?).
  - intros [Hr Hc]. destruct (Hall (from_entity r) r) as [r' Hr'].
    + apply Hc.
    + apply list_elem_of_filter. auto.
    + done.
    + exists (r_id r, r'). split; [|by apply elem_of_map_to_list].
      apply Hok in Hr' as (Hid & Hr' & _). simpl.
      apply list_elem_of_lookup in Hr as [i Hi], Hr' as [j Hj].
      assert (i = j) as ->; [|congruence].
      eapply NoDup_lookup; [exact Hnd| |]; rewrite list_lookup_fmap; [by rewrite Hi|].
      rewrite Hj. simpl. by rewrite Hid.
Qed.
End connecting.

(** ** Properties *)

Section properties.
Variable sha256_hex : string -> string.

(** On the tree of a well-nested parse, the entities of a file are listed in
    the order of the source: each lies inside the root, and of any two the later
    one is either enclosed by the earlier one or starts after its end. *)
Theorem parse_rust_source_laminar parse file_path source root es rels :
  parse source = Some root -> tree_wf root ->
  parse_rust_source sha256_hex (Ok parse) file_path source = Ok (es, rels) ->
  Forall (within (start_byte root) (end_byte root)) es /\ StronglySorted laminar es.
Proof.
  intros Hp Hwf. unfold parse_rust_source. rewrite Hp.
  pose proof (extract_entities_layout sha256_hex source file_path root [] false Hwf) as Hl.
  destruct (extract_entities _ _ _ _ _ _) as [es' rels']. by intros [= <- <-].
Qed.

(** The relationships of a file are a [Contains] edge from each nested entity's
    parent to it, in the order of the entities, followed by [Calls] edges; a call
    edge joins two different entities of the file and none is repeated. *)
Theorem parse_rust_source_relationships parse file_path source es rels :
  parse_rust_source sha256_hex (Ok parse) file_path source = Ok (es, rels) ->
  exists calls, rels = flat_map (contains_of sha256_hex) es ++ calls /\
    NoDup (r_id <$> calls) /\
    Forall (fun r => r_kind r = Calls /\ from_entity r ∈ e_id <$> es /\
                     to_entity r ∈ e_id <$> es /\ from_entity r <> to_entity r) calls.
Proof.
  unfold parse_rust_source. destruct (parse source) as [root|]; [|done].
  pose proof (extract_entities_contains_of sha256_hex source file_path root [] false) as Hc.
  destruct (extract_entities _ _ _ _ _ _) as [es' rels']. simpl in Hc.
  destruct (build_calls_adds sha256_hex root source es' rels') as (new & Hb & HF & HN).
  intros [= <- <-]. exists new. rewrite Hb, Hc. split_and!; [done|done|].
  eapply Forall_impl; [exact HF|]. simpl. tauto.
Qed.
End properties.

Lemma within_hops_seeds g l1 l2 k x :
  (forall y, y ∈ l1 <-> y ∈ l2) -> within_hops g l1 k x <-> within_hops g l2 k x.
Proof.
  intros Hl. revert x. induction k as [|k IH]; intros x; simpl; [apply Hl|].
  rewrite IH. by setoid_rewrite IH.
Qed.

Lemma within_hops_no_seed g k x : ~ within_hops g [] k x.
Proof.
  revert x. induction k as [|k IH]; intros x; simpl; [apply not_elem_of_nil|].
  intros [H|(y & H & _)]; by apply IH in H.
Qed.

Lemma reachable_entities_NoDup g seed_ids max_hops :
  NoDup (entities g) -> NoDup (reachable_entities g seed_ids max_hops).1.
Proof.
  intros Hnd. unfold reachable_entities, get_entities_by_ids. simpl.
  destruct (elements _); [constructor|]. rewrite sort_by_perm. by apply NoDup_filter.
Qed.

Lemma reachable_entities_elem g seed_ids max_hops e :
  e ∈ (reachable_entities g seed_ids max_hops).1 <->
  e ∈ entities g /\ within_hops g seed_ids max_hops (e_id e).
Proof.
  unfold reachable_entities. simpl. rewrite <-reachable_ids_within, <-elem_of_elements.
  unfold get_entities_by_ids. destruct (elements _) as [|i l].
  - split; [by intros ?%not_elem_of_nil|]. by intros [_ ?%not_elem_of_nil].
  - rewrite sort_by_elem_of, list_elem_of_filter. tauto.
Qed.

(** The search returns exactly the entities at most [max_hops] relationship
    steps, in either direction, from a seed, and exactly the relationships between
    two such ids; the number of iterations allowed is always enough. *)
Theorem reachable_entities_spec g seed_ids max_hops :
  NoDup (r_id <$> relationships g) ->
  let '(es, rs) := reachable_entities g seed_ids max_hops in
  (forall e, e ∈ es <-> e ∈ entities g /\ within_hops g seed_ids max_hops (e_id e)) /\
  (forall r, r ∈ rs <-> r ∈ relationships g /\ within_hops g seed_ids max_hops (from_entity r) /\
                        within_hops g seed_ids max_hops (to_entity r)).
Proof.
  intros Hnd. pose proof (reachable_entities_elem g seed_ids max_hops) as He.
  destruct (reachable_entities g seed_ids max_hops) as [es rs] eqn:E. split; [exact He|].
  intros r. unfold reachable_entities in E. injection E as _ <-.
  rewrite connecting_relationships_spec by done. unfold connects.
  by rewrite !elem_of_elements, !reachable_ids_within.
Qed.

(** ** Witnesses *)

(** [fn a() { b() }] twice over: a tree with a function, an implementation block
    and a method that calls the function. *)
Definition sample_source : bytes := bytes_of "fn a(){} impl T{fn m(){a()}}".
Definition sample_tree : Node :=
  let field f n := (Some f, true, n) in
  let ident s e := mkNode "identifier" s e 0 0 [] in
  mkNode "source_file" 0 28 0 0
    [(None, true, mkNode "function_item" 0 8 0 0
       [field "name"%string (ident 3 4); field "body"%string (mkNode "block" 6 8 0 0 [])]);
     (None, true, mkNode "impl_item" 9 28 0 0
       [field "type"%string (mkNode "type_identifier" 14 15 0 0 []);
        field "body"%string (mkNode "declaration_list" 15 28 0 0
          [(None, true, mkNode "function_item" 16 27 0 0
             [field "name"%string (ident 19 20);
              field "body"%string (mkNode "block" 22 27 0 0
                [(None, true, mkNode "call_expression" 23 26 0 0
                   [field "function"%string (ident 23 24)])])])])])].
Definition sample_parse (source : bytes) : option Node := Some sample_tree.

Lemma parse_rust_source_laminar_witness :
  exists es rels,
    parse_rust_source (fun s => s) (Ok sample_parse) "a.rs" sample_source = Ok (es, rels) /\
    e_name <$> es = ["a"; "T"; "m"]%string /\ StronglySorted laminar es.
Proof.
  eexists _, _. split; [vm_compute; reflexivity|]. split; [reflexivity|].
  eapply (parse_rust_source_laminar (fun s => s) sample_parse "a.rs" sample_source sample_tree);
    [reflexivity|simpl; lia|vm_compute; reflexivity].
Defined.

Lemma parse_rust_source_relationships_witness :
  exists es calls,
    parse_rust_source (fun s => s) (Ok sample_parse) "a.rs" sample_source
      = Ok (es, flat_map (contains_of (fun s => s)) es ++ calls).
Proof.
  destruct (parse_rust_source (fun s => s) (Ok sample_parse) "a.rs" sample_source)
    as [[es rels]|e|] eqn:E; [|discriminate..].
  destruct (parse_rust_source_relationships (fun s => s) sample_parse "a.rs" sample_source es rels E)
    as (calls & -> & _ & _).
  exists es, calls. reflexivity.
Defined.

Definition sample_graph : GraphSnapshot :=
  mkSnapshot
    ((fun n => mkEntity n Function n n "a.rs" (0, 1) (1, 1) None) <$> ["a"; "b"; "c"; "d"]%string)
    [mkRelationship "r1" Calls "a" "b"; mkRelationship "r2" Calls "b" "c";
     mkRelationship "r3" Calls "c" "d"].

Lemma reachable_entities_spec_witness :
  (e_name <$> (reachable_entities sample_graph ["b"%string] 1).1) = ["a"; "b"; "c"]%string /\
  forall e, e ∈ (reachable_entities sample_graph ["b"%string] 1).1 <->
    e ∈ entities sample_graph /\ within_hops sample_graph ["b"%string] 1 (e_id e).
Proof.
  split; [vm_compute; reflexivity|].
  pose proof (reachable_entities_spec sample_graph ["b"%string] 1) as H.
  destruct (reachable_entities sample_graph ["b"%string] 1) as [es rs].
  apply H. apply (bool_decide_unpack _). vm_compute. exact I.
Defined.

(** ** Incremental update *)

Section update.
(** [parse_source_file], the parser that a file's extension selects. *)
Variable parse_source_file : string -> bytes -> outcome GraphError (list Entity * list Relationship).

(** The graph that is left, and the number of entities and relationships found. A
    file that does not parse has lost its entities. *)
Definition update_file (file_path : string) (source : bytes) (g : GraphSnapshot) :
    outcome GraphError (nat * nat) * GraphSnapshot :=
  let g1 := remove_file file_path g in
  match parse_source_file file_path source with
  | Err e => (Err e, g1)
  | Panic => (Panic, g1)
  | Ok (ents, rels) =>
      let g2 := foldl (fun g e => upsert_entity e g) g1 ents in
      let g3 := foldl (fun g r => upsert_relationship r g) g2 rels in
      (Ok (length ents, length rels), g3)
  end.
End update.
