(* ===== verification/EventLog.v ===== *)
(** The append-only event log ([src/src/event_log/mod.rs]): event kinds, what the
    index stores of each, and the log at the level of its contract: the list of
    its events in id order. *)
From S2P Require Import Prelude RustStr.

(** A UUID, as its hyphenated text. *)
Abbreviation Uuid := string.
(** A UTC instant, in nanoseconds. *)
Abbreviation DateTime := Z.

Record EntitySummary : Type := mkEntitySummary {
  es_id : string; es_kind : string; es_name : string;
  es_qualified_name : string; es_file_path : string
}.

Inductive ConflictSeverity : Type := SevLow | SevMedium | SevHigh.

#[export] Instance ConflictSeverity_eq_dec : EqDecision ConflictSeverity.
Proof. solve_decision. Defined.

Record ConflictInfo : Type := mkConflictInfo {
  ci_conflict_id : Uuid; entity_a : string; entity_b : string;
  ci_description : string; ci_severity : ConflictSeverity
}.

Inductive EventKind : Type :=
  | RepoInitialized (repo_id : Uuid) (name : string)
  | VersionCreated (version_id : string) (parent_version_id : option string) (intent : string)
  | WorkspaceCreated (workspace_id : Uuid) (intent base_version : string)
  | WorkspaceSubmitted (workspace_id : Uuid) (changes_summary : string)
  | WorkspaceDiscarded (workspace_id : Uuid) (reason : string)
  | EntityAdded (workspace_id : Uuid) (entity : EntitySummary)
  | EntityModified (workspace_id : Uuid) (entity_id change_description : string)
  | EntityRemoved (workspace_id : Uuid) (entity_id : string)
  | FileAdded (workspace_id : Uuid) (path hash : string)
  | FileModified (workspace_id : Uuid) (path old_hash new_hash : string)
  | FileRemoved (workspace_id : Uuid) (path : string)
  | MergeCompleted (workspace_id : Uuid) (new_version_id : string) (auto_resolved_conflicts : N)
  | MergeConflictDetected (workspace_id : Uuid) (conflict : ConflictInfo)
  | MergeConflictResolved (conflict_id : Uuid) (resolution resolved_by : string)
  | RollbackCreated (target_version_id new_version_id : string) (entity_filter : option string)
  | IssueCreated (issue_id : Uuid) (title creator priority : string)
  | IssueUpdated (issue_id : Uuid) (fields_changed : list string)
  | IssueAssigned (issue_id : Uuid) (agent_id : string)
  | IssueLinkedToWorkspace (issue_id workspace_id : Uuid)
  | IssueResolved (issue_id : Uuid) (resolution : string) (version_id : option string)
  | IssueClosed (issue_id : Uuid) (resolution : string)
  | EscalationCreated (escalation_id : Uuid) (escalation_type severity : string)
      (workspace_ids : list string) (summary : string)
  | EscalationResolved (escalation_id : Uuid) (resolution resolved_by : string)
  | CommentCreated (issue_id comment_id : Uuid) (author author_type : string)
      (parent_id : option Uuid) (mentions : list Uuid)
  | RepoAgentSecretSet (repo_id : Uuid) (key : string)
  | RepoAgentSecretDeleted (repo_id : Uuid) (key : string).

Definition event_type (k : EventKind) : string :=
  match k with
  | RepoInitialized _ _ => "RepoInitialized"
  | VersionCreated _ _ _ => "VersionCreated"
  | WorkspaceCreated _ _ _ => "WorkspaceCreated"
  | WorkspaceSubmitted _ _ => "WorkspaceSubmitted"
  | WorkspaceDiscarded _ _ => "WorkspaceDiscarded"
  | EntityAdded _ _ => "EntityAdded"
  | EntityModified _ _ _ => "EntityModified"
  | EntityRemoved _ _ => "EntityRemoved"
  | FileAdded _ _ _ => "FileAdded"
  | FileModified _ _ _ _ => "FileModified"
  | FileRemoved _ _ => "FileRemoved"
  | MergeCompleted _ _ _ => "MergeCompleted"
  | MergeConflictDetected _ _ => "MergeConflictDetected"
  | MergeConflictResolved _ _ _ => "MergeConflictResolved"
  | RollbackCreated _ _ _ => "RollbackCreated"
  | IssueCreated _ _ _ _ => "IssueCreated"
  | IssueUpdated _ _ => "IssueUpdated"
  | IssueAssigned _ _ => "IssueAssigned"
  | IssueLinkedToWorkspace _ _ => "IssueLinkedToWorkspace"
  | IssueResolved _ _ _ => "IssueResolved"
  | IssueClosed _ _ => "IssueClosed"
  | EscalationCreated _ _ _ _ _ => "EscalationCreated"
  | EscalationResolved _ _ _ => "EscalationResolved"
  | CommentCreated _ _ _ _ _ _ => "CommentCreated"
  | RepoAgentSecretSet _ _ => "RepoAgentSecretSet"
  | RepoAgentSecretDeleted _ _ => "RepoAgentSecretDeleted"
  end.

Definition event_workspace_id (k : EventKind) : option Uuid :=
  match k with
  | WorkspaceCreated w _ _ | WorkspaceSubmitted w _ | WorkspaceDiscarded w _
  | EntityAdded w _ | EntityModified w _ _ | EntityRemoved w _
  | FileAdded w _ _ | FileModified w _ _ _ | FileRemoved w _
  | MergeCompleted w _ _ | MergeConflictDetected w _ => Some w
  | _ => None
  end.

Definition event_entity_id (k : EventKind) : option string :=
  match k with
  | EntityAdded _ e => Some (es_id e)
  | EntityModified _ e _ | EntityRemoved _ e => Some e
  | _ => None
  end.

Record Event : Type := mkEvent {
  ev_id : N;
  timestamp : DateTime;
  ev_kind : EventKind
}.

(** ** The log *)

Abbreviation EventLog := (list Event).

(** [SELECT MAX(id) FROM events], plus one. *)
Definition next_id (log : EventLog) : N := (foldr N.max 0 (ev_id <$> log) + 1)%N.

Definition append (now : DateTime) (kind : EventKind) (log : EventLog) : Event * EventLog :=
  let event := mkEvent (next_id log) now kind in (event, log ++ [event]).

Definition query_by_type (log : EventLog) (ty : string) : list Event :=
  filter (fun e => event_type (ev_kind e) = ty) log.
Definition query_by_workspace (log : EventLog) (w : Uuid) : list Event :=
  filter (fun e => event_workspace_id (ev_kind e) = Some w) log.
Definition query_by_entity (log : EventLog) (id : string) : list Event :=
  filter (fun e => event_entity_id (ev_kind e) = Some id) log.
Definition get_by_id (log : EventLog) (id : N) : option Event :=
  head (filter (fun e => ev_id e = id) log).
Definition log_count (log : EventLog) : N := N.of_nat (length log).

(** ** Invariant *)

(** Ids increase along the log. *)
Definition log_wf (log : EventLog) : Prop := StronglySorted N.lt (ev_id <$> log).

Lemma foldr_max_ge l x : x ∈ l -> (x <= foldr N.max 0 l)%N.
Proof.
  induction l as [|y l IH]; [by intros ?%not_elem_of_nil|].
  intros [->|Hx]%elem_of_cons; simpl; [lia|]. specialize (IH Hx). lia.
Qed.

Lemma next_id_fresh log e : e ∈ log -> (ev_id e < next_id log)%N.
Proof.
  intros He. unfold next_id.
  assert (ev_id e <= foldr N.max 0 (ev_id <$> log))%N; [|lia].
  apply foldr_max_ge, list_elem_of_fmap. eauto.
Qed.

Lemma append_wf now kind log : log_wf log -> log_wf (append now kind log).2.
Proof.
  unfold log_wf, append. simpl. rewrite fmap_app. intros Hs.
  apply StronglySorted_app_intro; [done|repeat constructor|].
  intros x y (e & -> & He)%list_elem_of_fmap Hy%list_elem_of_singleton.
  subst y. simpl. by apply next_id_fresh.
Qed.

Lemma log_wf_app_l log1 log2 : log_wf (log1 ++ log2) -> log_wf log1.
Proof. unfold log_wf. rewrite fmap_app. apply StronglySorted_app_1_l. Qed.

(** An event of a log with increasing ids is found by its id. *)
Lemma get_by_id_elem log e : log_wf log -> e ∈ log -> get_by_id log (ev_id e) = Some e.
Proof.
  unfold log_wf, get_by_id. induction log as [|x log IH]; [by intros _ ?%not_elem_of_nil|].
  simpl. intros Hs [->|He]%elem_of_cons.
  - by rewrite filter_cons_True.
  - apply StronglySorted_inv in Hs as [Hs HF]. rewrite Forall_forall in HF.
    assert (ev_id x < ev_id e)%N by (apply HF, list_elem_of_fmap; eauto).
    rewrite filter_cons_False by lia. by apply IH.
Qed.

#[export] Hint Resolve append_wf : vai.
