(* ===== verification/MergeEngine.v ===== *)
(** The three-level analysis of one file ([src/src/merge/mod.rs]): the changed
    entities of two parses, the substitution of entities (level 2), the detection
    of referential conflicts (level 3) and [try_merge_file], which chains them to
    the textual merge of [TextMerge]. *)
From S2P Require Import Prelude RustStr TextMerge Graph EventLog.

Record ConflictRecord : Type := mkConflict {
  conflict_id : Uuid;
  c_workspace_id : Uuid;
  c_file_path : string;
  entity_ids : list string;
  description : string;
  severity : ConflictSeverity;
  merge_level : nat;
  resolved : bool
}.

(** [Uuid::new_v4()] is the argument [id]. *)
Definition make_conflict (id : Uuid) (file_path : string) (workspace_id : Uuid)
    (entity_ids : list string) (description : string) (severity : ConflictSeverity)
    (merge_level : nat) : ConflictRecord :=
  mkConflict id workspace_id file_path entity_ids description severity merge_level false.

Inductive FileMergeResult : Type :=
  | AutoMerged (content : bytes) (level : nat)
  | Conflicts (records : list ConflictRecord).

(** ** Changed entities *)

(** [ents.iter().map(|e| (e.id, e)).collect()]: a later entity of the same id wins. *)
Definition id_map (ents : list Entity) : gmap string Entity :=
  foldl (fun m e => <[e_id e := e]> m) ∅ ents.

(** [content.get(start..end.min(content.len()))] *)
Definition span (content : bytes) (e : Entity) : option bytes :=
  slice content (byte_range e).1 ((byte_range e).2 `min` length content).

Definition span_or_empty (content : bytes) (e : Entity) : bytes := default [] (span content e).

Definition is_changed (base_map mod_map : gmap string Entity)
    (base_content modified_content : bytes) (id : string) : bool :=
  match mod_map !! id, base_map !! id with
  | Some mod_ent, Some base_ent =>
      bool_decide (span_or_empty base_content base_ent <> span_or_empty modified_content mod_ent)
  | Some _, None => true
  | None, _ => false
  end.

Definition changed_entity_ids (base_ents : list Entity) (base_content : bytes)
    (modified_ents : list Entity) (modified_content : bytes) : gset string :=
  let base_map := id_map base_ents in
  let mod_map := id_map modified_ents in
  filter (fun id => is_changed base_map mod_map base_content modified_content id = true)
    (dom mod_map)
  ∪ filter (fun id => mod_map !! id = None) (dom base_map).

(** ** Level 2 *)

(** The replacements of the entities that HEAD also has, in the order in which the
    set of ids is walked; [Err tt] is the early [return None]. *)
Fixpoint collect_replacements (head workspace : bytes) (head_id_map ws_id_map : gmap string Entity)
    (ids : list string) : outcome unit (list (nat * nat * bytes)) :=
  match ids with
  | [] => Ok []
  | id :: ids' =>
      match ws_id_map !! id with
      | None => collect_replacements head workspace head_id_map ws_id_map ids'
      | Some ws_ent =>
          match span workspace ws_ent with
          | None => Err tt
          | Some ws_bytes =>
              rest ← collect_replacements head workspace head_id_map ws_id_map ids';
              match head_id_map !! id with
              | Some head_ent =>
                  Ok (((byte_range head_ent).1, (byte_range head_ent).2 `min` length head, ws_bytes)
                        :: rest)
              | None => Ok rest
              end
          end
      end
  end.

(** [sort_by_key(|b| Reverse(b.0))] *)
Definition sort_descending : list (nat * nat * bytes) -> list (nat * nat * bytes) :=
  sort_by (fun x y => y.1.1 <=? x.1.1).

(** One [splice] after the other; a range out of bounds is a panic. *)
Fixpoint splice_all (result : bytes) (reps : list (nat * nat * bytes)) : option bytes :=
  match reps with
  | [] => Some result
  | (start, end_, r) :: reps' =>
      result' ← splice result start end_ r;
      splice_all result' reps'
  end.

Fixpoint append_added (workspace : bytes) (head_id_map ws_id_map : gmap string Entity)
    (ids : list string) (result : bytes) (appended : bool) : outcome unit bytes :=
  match ids with
  | [] => Ok result
  | id :: ids' =>
      match head_id_map !! id with
      | Some _ => append_added workspace head_id_map ws_id_map ids' result appended
      | None =>
          match ws_id_map !! id with
          | None => append_added workspace head_id_map ws_id_map ids' result appended
          | Some ws_ent =>
              match span workspace ws_ent with
              | None => Err tt
              | Some ws_bytes =>
                  let r1 := if negb appended && negb (ends_with_newline result)
                            then result ++ [LF] else result in
                  let r2 := r1 ++ ws_bytes in
                  let r3 := if ends_with_newline r2 then r2 else r2 ++ [LF] in
                  append_added workspace head_id_map ws_id_map ids' r3 true
              end
          end
      end
  end.

(** [ids] is [ws_changed_ids] in the order its iteration gives, which is the same
    in both loops. *)
Definition merge_by_entity_substitution (head workspace : bytes) (head_ents ws_ents : list Entity)
    (ids : list string) : outcome unit bytes :=
  let head_id_map := id_map head_ents in
  let ws_id_map := id_map ws_ents in
  replacements ← collect_replacements head workspace head_id_map ws_id_map ids;
  result ← or_panic (splice_all head (sort_descending replacements));
  append_added workspace head_id_map ws_id_map ids result false.

(** ** Level 3 *)

Definition find_entity (ents : list Entity) (id : string) : option Entity :=
  head (filter (fun e => e_id e = id) ents).

Definition has_id (ents : list Entity) (id : string) : bool :=
  existsb (fun e => String.eqb (e_id e) id) ents.

(** [fresh i] is the identifier the [i]-th call of [Uuid::new_v4()] draws. *)
Definition modified_by_both (fresh : nat -> Uuid) (file_path : string) (workspace_id : Uuid)
    (base_ents head_ents : list Entity) (i : nat) (id : string) : ConflictRecord :=
  let name :=
    match find_entity base_ents id with
    | Some e => qualified_name e
    | None => match find_entity head_ents id with Some e => qualified_name e | None => "unknown" end
    end in
  make_conflict (fresh i) file_path workspace_id [id]
    ("Entity `" +:+ name +:+ "` was modified by both workspace and HEAD — manual resolution required")
    SevHigh 3.

(** HEAD removed the entity, or has it with other bytes. *)
Definition head_changed_it (base head : bytes) (head_ents : list Entity) (removed : Entity) : bool :=
  negb (has_id head_ents (e_id removed)) ||
  existsb (fun he => String.eqb (e_id he) (e_id removed) &&
                     bool_decide (span_or_empty base removed <> span_or_empty head he)) head_ents.

Fixpoint removed_but_modified (fresh : nat -> Uuid) (file_path : string) (workspace_id : Uuid)
    (base head : bytes) (head_ents : list Entity) (removed : list Entity)
    (conflicts : list ConflictRecord) : list ConflictRecord :=
  match removed with
  | [] => conflicts
  | r :: removed' =>
      removed_but_modified fresh file_path workspace_id base head head_ents removed'
        (if head_changed_it base head head_ents r then
           conflicts ++ [make_conflict (fresh (length conflicts)) file_path workspace_id [e_id r]
             ("Entity `" +:+ qualified_name r +:+
              "` removed in workspace but modified in HEAD — cannot auto-merge") SevHigh 3]
         else conflicts)
  end.

Fixpoint stale_references (fresh : nat -> Uuid) (file_path : string) (workspace_id : Uuid)
    (head_str : string) (removed : list Entity) (conflicts : list ConflictRecord) :
    list ConflictRecord :=
  match removed with
  | [] => conflicts
  | r :: removed' =>
      let reported := existsb (fun c => bool_decide (e_id r ∈ entity_ids c)) conflicts in
      let name := e_name r in
      stale_references fresh file_path workspace_id head_str removed'
        (if negb reported && negb (String.eqb name "") && str_contains name head_str then
           conflicts ++ [make_conflict (fresh (length conflicts)) file_path workspace_id [e_id r]
             ("Entity `" +:+ name +:+ "` removed/renamed in workspace but old name " +:+
              "still referenced in HEAD — possible stale call site") SevMedium 3]
         else conflicts)
  end.

(** [overlapping_ids] is the overlap in the order its iteration gives. *)
Definition detect_referential_conflicts (fresh : nat -> Uuid) (file_path : string)
    (workspace_id : Uuid) (base head : bytes) (base_ents head_ents ws_ents : list Entity)
    (overlapping_ids : list string) : list ConflictRecord :=
  let c1 := imap (modified_by_both fresh file_path workspace_id base_ents head_ents)
              overlapping_ids in
  let ws_removed := filter (fun e => has_id ws_ents (e_id e) = false) base_ents in
  let c2 := removed_but_modified fresh file_path workspace_id base head head_ents ws_removed c1 in
  let c3 := match from_utf8 head with
            | Some head_str => stale_references fresh file_path workspace_id head_str ws_removed c2
            | None => c2
            end in
  match c3 with
  | [] => [make_conflict (fresh 0) file_path workspace_id []
             ("Overlapping changes in `" +:+ file_path +:+ "` could not be auto-merged") SevHigh 3]
  | _ => c3
  end.

Section file.
(** The Rust parser of the graph component, the order in which a set of ids is
    iterated, and the identifiers drawn for the conflicts of this file. *)
Variable parse_rust_source : string -> bytes -> outcome GraphError (list Entity * list Relationship).
Variable iter_order : gset string -> list string.
Variable fresh : nat -> Uuid.

Definition text_conflict (file_path : string) (workspace_id : Uuid) : FileMergeResult :=
  Conflicts [make_conflict (fresh 0) file_path workspace_id []
    ("Overlapping text changes in `" +:+ file_path +:+ "`") SevMedium 1].

(** Levels 2 and 3 on three parses. *)
Definition merge_entities (file_path : string) (base head workspace : bytes) (workspace_id : Uuid)
    (base_ents head_ents ws_ents : list Entity) : option FileMergeResult :=
  let head_changed_ids := changed_entity_ids base_ents base head_ents head in
  let ws_changed_ids := changed_entity_ids base_ents base ws_ents workspace in
  let overlap := head_changed_ids ∩ ws_changed_ids in
  let level3 :=
    Some (Conflicts (detect_referential_conflicts fresh file_path workspace_id base head
      base_ents head_ents ws_ents (iter_order overlap))) in
  if decide (overlap = ∅) then
    match merge_by_entity_substitution head workspace head_ents ws_ents
            (iter_order ws_changed_ids) with
    | Ok merged => Some (AutoMerged merged 2)
    | Err _ => level3
    | Panic => None
    end
  else level3.

(** [None] is a panic. *)
Definition try_merge_file (file_path : string) (base head workspace : bytes)
    (workspace_id : Uuid) : option FileMergeResult :=
  let base_lines := split_lines base in
  head_hunks ← compute_hunks base_lines (split_lines head);
  ws_hunks ← compute_hunks base_lines (split_lines workspace);
  if negb (hunks_overlap head_hunks ws_hunks) then
    merged ← apply_two_hunk_sets base_lines head workspace head_hunks ws_hunks;
    Some (AutoMerged merged 1)
  else if ends_with ".rs" file_path then
    match parse_rust_source file_path base, parse_rust_source file_path head,
          parse_rust_source file_path workspace with
    | Panic, _, _ | Ok _, Panic, _ | Ok _, Ok _, Panic
    | Err _, Panic, _ | Err _, _, Panic | Ok _, Err _, Panic => None
    | Ok (base_ents, _), Ok (head_ents, _), Ok (ws_ents, _) =>
        merge_entities file_path base head workspace workspace_id base_ents head_ents ws_ents
    | _, _, _ => Some (text_conflict file_path workspace_id)
    end
  else Some (text_conflict file_path workspace_id).
End file.

(** ** Substitution *)

Definition hunk_of (r : nat * nat * bytes) : @Hunk ascii := mkHunk r.1.1 r.1.2 r.2.

Lemma splice_all_app result l1 l2 :
  splice_all result (l1 ++ l2) = splice_all result l1 ≫= fun r => splice_all r l2.
Proof.
  revert result; induction l1 as [|[[s e] r] l1 IH]; intros result; simpl; [done|].
  destruct (splice result s e r); simpl; [apply IH|done].
Qed.

(** Splicing ranges that do not overlap, the last one first, is one pass over the
    text. *)
Lemma splice_all_apply (text : bytes) p asc :
  p <= length text ->
  Forall (fun r => p <= r.1.1 <= r.1.2 /\ r.1.2 <= length text) asc ->
  StronglySorted (fun x y => x.1.2 <= y.1.1) asc ->
  exists t, apply_loop text p (hunk_of <$> asc) = Some t /\
    splice_all text (rev asc) = Some (take p text ++ t).
Proof.
  revert p; induction asc as [|[[s e] r] asc IH]; intros p Hp HF HS.
  { exists (drop p text). simpl. by rewrite slice_from_Some, take_drop. }
  apply Forall_cons in HF as [[Hpse He] HF]. apply StronglySorted_inv in HS as [HS Hlt].
  cbn [fst snd] in *.
  destruct (IH e) as (t & Ht & Hsp); [done| |done|].
  { rewrite Forall_forall in HF, Hlt |- *. intros x Hx.
    specialize (HF x Hx). specialize (Hlt x Hx). simpl in Hlt. lia. }
  exists (take (s - p) (drop p text) ++ r ++ t). split.
  - rewrite fmap_cons, apply_loop_cons. cbn [hunk_of base_start base_end new_lines fst snd].
    rewrite slice_Some by lia. replace (p `max` e) with e by lia. by rewrite Ht.
  - change (rev ((s, e, r) :: asc)) with (rev asc ++ [(s, e, r)]).
    rewrite splice_all_app, Hsp. simpl.
    rewrite splice_Some by (rewrite length_app, length_take; lia). simpl.
    rewrite take_app_le by (rewrite length_take; lia). rewrite take_take.
    rewrite drop_app_ge by (rewrite length_take; lia).
    replace (e - length (take e text)) with 0 by (rewrite length_take; lia).
    rewrite drop_0, Nat.min_l by lia. rewrite (app_assoc (take p text)), take_take_drop.
    by replace (p + (s - p)) with s by lia.
Qed.

Lemma append_added_extends workspace hm wm ids result b out :
  append_added workspace hm wm ids result b = Ok out -> exists added, out = result ++ added.
Proof.
  revert result b; induction ids as [|id ids IH]; intros result b; simpl.
  { intros [= <-]. exists []. by rewrite app_nil_r. }
  destruct (hm !! id); [apply IH|]. destruct (wm !! id) as [w|]; [|apply IH].
  destruct (span workspace w) as [ws|]; [|done]. intros (added & ->)%IH.
  destruct (negb b && _), (ends_with_newline _); rewrite <-?app_assoc; by eexists.
Qed.

Lemma append_added_no_panic workspace hm wm ids result b :
  append_added workspace hm wm ids result b <> Panic.
Proof.
  revert result b; induction ids as [|id ids IH]; intros result b; simpl; [done|].
  destruct (hm !! id); [apply IH|]. destruct (wm !! id) as [w|]; [|apply IH].
  destruct (span workspace w) as [ws|]; [apply IH|done].
Qed.

Lemma append_added_none workspace hm wm ids result b :
  (forall id, id ∈ ids -> is_Some (hm !! id) \/ wm !! id = None) ->
  append_added workspace hm wm ids result b = Ok result.
Proof.
  revert result b; induction ids as [|id ids IH]; intros result b Hids; simpl; [done|].
  assert (IH' : append_added workspace hm wm ids result b = Ok result).
  { apply IH. intros x Hx. apply Hids. by right. }
  destruct (Hids id) as [[h ->]|E]; [by left|done|].
  destruct (hm !! id); [done|]. by rewrite E.
Qed.

(** Ranges of the text that are not empty and pairwise disjoint. *)
Definition disjoint_ranges (n : nat) (reps : list (nat * nat * bytes)) : Prop :=
  Forall (fun r => r.1.1 < r.1.2 <= n) reps /\
  StronglySorted (fun x y => x.1.2 <= y.1.1 \/ y.1.2 <= x.1.1) reps.

Lemma apart_NoDup n asc :
  Forall (fun r => r.1.1 < r.1.2 <= n) asc ->
  StronglySorted (fun x y => x.1.2 <= y.1.1) asc ->
  NoDup (base_start ∘ hunk_of <$> asc).
Proof.
  intros HF. induction 1 as [|x l HS IH Hx]; [constructor|]. rewrite fmap_cons.
  apply Forall_cons in HF as [Hxr HF]. constructor; [|by apply IH].
  intros (y & Hxy & Hy)%list_elem_of_fmap. rewrite Forall_forall in HF, Hx.
  specialize (HF y Hy). specialize (Hx y Hy). simpl in Hxy. lia.
Qed.

Lemma splice_all_disjoint (text : bytes) reps :
  disjoint_ranges (length text) reps ->
  splice_all text (sort_descending reps) = Some (render text (hunk_of <$> reps)).
Proof.
  intros [HF HD]. set (desc := sort_descending reps).
  assert (Hperm : desc ≡ₚ reps) by apply sort_by_perm.
  assert (Hdesc : StronglySorted (fun x y => y.1.2 <= x.1.1) desc).
  { apply sort_by_pairs.
    - intros x y ?%Nat.leb_gt. apply Nat.leb_le. lia.
    - intros x y z ?%Nat.leb_le ?%Nat.leb_le. apply Nat.leb_le. lia.
    - clear desc Hperm. induction HD as [|x l HD IH Hx]; constructor.
      + apply IH. by apply Forall_cons in HF as [_ HF].
      + apply Forall_cons in HF as [Hxr HF]. rewrite Forall_forall in HF, Hx |- *.
        intros y Hy. specialize (HF y Hy). specialize (Hx y Hy).
        destruct (Nat.leb_spec y.1.1 x.1.1); lia. }
  set (asc := rev desc).
  assert (Hpa : asc ≡ₚ reps) by (unfold asc; by rewrite <-Permutation_rev).
  assert (Hasc : StronglySorted (fun x y => x.1.2 <= y.1.1) asc).
  { unfold asc. clear -Hdesc. induction Hdesc as [|x l HS IH Hx]; simpl; [constructor|].
    apply StronglySorted_app_intro; [done|repeat constructor|].
    intros y z Hy%list_elem_of_In%in_rev%list_elem_of_In Hz%list_elem_of_singleton. subst z.
    rewrite Forall_forall in Hx. by apply Hx. }
  assert (HFa : Forall (fun r => r.1.1 < r.1.2 <= length text) asc) by (by rewrite Hpa).
  destruct (splice_all_apply text 0 asc) as (t & Ht & Hs); [lia| |done|].
  { eapply Forall_impl; [exact HFa|]. simpl; lia. }
  assert (Hra : rev asc = desc) by apply rev_involutive.
  rewrite Hra in Hs. rewrite Hs. simpl. f_equal.
  rewrite apply_loop_render in Ht.
  - injection Ht as <-. rewrite drop_0. apply render_from_ext; intros p _.
    + unfold inserted_at. do 2 f_equal. apply filter_key_perm; [by rewrite Hpa|].
      rewrite <-list_fmap_compose. by apply (apart_NoDup (length text)).
    + apply eq_iff_eq_true. unfold removed_at. rewrite !existsb_exists.
      setoid_rewrite <-list_elem_of_In. by setoid_rewrite Hpa.
  - apply Forall_fmap. eapply Forall_impl; [exact HFa|]. intros [[a b] r] ?.
    cbn in *. unfold hunk_wf. simpl. lia.
  - apply Forall_forall. intros; lia.
  - clear -Hasc. induction Hasc as [|x l HS IH Hx]; constructor; [done|].
    apply Forall_fmap. eapply Forall_impl; [exact Hx|]. done.
  - lia.
Qed.

(** ** Records *)

(** The records of one file: the [i]-th carries the [i]-th identifier drawn, names
    one entity, and is open. *)
Definition records_wf (fresh : nat -> Uuid) (file_path : string) (workspace_id : Uuid)
    (cs : list ConflictRecord) : Prop :=
  forall i c, cs !! i = Some c ->
    conflict_id c = fresh i /\ c_file_path c = file_path /\ c_workspace_id c = workspace_id /\
    merge_level c = 3 /\ resolved c = false /\ severity c <> SevLow /\
    exists id, entity_ids c = [id].

Definition reports (sev : ConflictSeverity) (cs : list ConflictRecord) (id : string) : Prop :=
  exists c, c ∈ cs /\ severity c = sev /\ entity_ids c = [id].

Lemma records_wf_snoc fresh fp w cs id d s :
  records_wf fresh fp w cs -> s <> SevLow ->
  records_wf fresh fp w (cs ++ [make_conflict (fresh (length cs)) fp w [id] d s 3]).
Proof.
  intros H Hs i c. rewrite lookup_app_Some. intros [Hi|[Hl Hi]]; [by apply H|].
  apply list_lookup_singleton_Some in Hi as [Hi <-]. simpl.
  replace i with (length cs) by lia. split_and!; [done..|by exists id].
Qed.

Lemma reports_snoc sev cs i fp w id' d s id :
  reports sev (cs ++ [make_conflict i fp w [id'] d s 3]) id <->
  reports sev cs id \/ (s = sev /\ id' = id).
Proof.
  unfold reports. split.
  - intros (c & [Hc| ->%list_elem_of_singleton]%elem_of_app & Hs & Hi); [left; eauto|].
    right. simpl in *. split; [done|congruence].
  - intros [(c & Hc & Hs & Hi)|[<- <-]].
    + exists c. rewrite elem_of_app. auto.
    + eexists. rewrite elem_of_app, list_elem_of_singleton. eauto.
Qed.

Lemma modified_by_both_wf fresh fp w be he ov :
  let cs := imap (modified_by_both fresh fp w be he) ov in
  records_wf fresh fp w cs /\ (forall id, reports SevHigh cs id <-> id ∈ ov) /\
  (forall id, ~ reports SevMedium cs id).
Proof.
  simpl. split_and!.
  - intros i c. rewrite list_lookup_imap. intros (id & Hi & ->)%fmap_Some. simpl.
    split_and!; [done..|by exists id].
  - intros id. split.
    + intros (c & Hc & _ & Hid). apply list_elem_of_lookup in Hc as (i & Hi).
      rewrite list_lookup_imap in Hi. apply fmap_Some in Hi as (id' & Hi & ->).
      injection Hid as ->. by eapply list_elem_of_lookup_2.
    + intros (i & Hi)%list_elem_of_lookup. exists (modified_by_both fresh fp w be he i id).
      split; [|done]. eapply list_elem_of_lookup_2 with i. by rewrite list_lookup_imap, Hi.
  - intros id (c & Hc & Hs & _). apply list_elem_of_lookup in Hc as (i & Hi).
    rewrite list_lookup_imap in Hi. by apply fmap_Some in Hi as (id' & Hi & ->).
Qed.

Lemma removed_but_modified_spec fresh fp w base head he removed cs :
  records_wf fresh fp w cs ->
  let cs' := removed_but_modified fresh fp w base head he removed cs in
  records_wf fresh fp w cs' /\
  (forall id, reports SevHigh cs' id <-> reports SevHigh cs id \/
     exists r, r ∈ removed /\ e_id r = id /\ head_changed_it base head he r = true) /\
  (forall id, reports SevMedium cs' id <-> reports SevMedium cs id).
Proof.
  simpl. revert cs; induction removed as [|r removed IH]; intros cs Hcs; simpl.
  { split_and!; [done| |done]. intros id. rewrite exists_nil. tauto. }
  set (cs1 := if head_changed_it _ _ _ r then _ else cs).
  assert (H1 : records_wf fresh fp w cs1).
  { subst cs1. case_match; [by apply records_wf_snoc|done]. }
  destruct (IH cs1 H1) as (Hwf & Hh & Hm). split_and!; [done| |].
  - intros id. rewrite Hh, exists_cons. subst cs1.
    destruct (head_changed_it base head he r); [rewrite reports_snoc|]; intuition congruence.
  - intros id. rewrite Hm. subst cs1. case_match; [rewrite reports_snoc|]; intuition congruence.
Qed.

Lemma reported_iff fresh fp w cs id :
  records_wf fresh fp w cs ->
  existsb (fun c => bool_decide (id ∈ entity_ids c)) cs = true <->
  exists sev, reports sev cs id.
Proof.
  intros Hcs. rewrite existsb_exists. split.
  - intros (c & Hc%list_elem_of_In & Hid%bool_decide_eq_true). exists (severity c), c.
    split_and!; [done..|]. apply list_elem_of_lookup in Hc as (i & Hi).
    destruct (Hcs i c Hi) as (_ & _ & _ & _ & _ & _ & id' & He).
    rewrite He in Hid |- *. by apply list_elem_of_singleton in Hid as ->.
  - intros (sev & c & Hc & _ & Hid). exists c. split; [by apply list_elem_of_In|].
    rewrite Hid. apply bool_decide_eq_true. by left.
Qed.

Definition names_it (head_str : string) (r : Entity) : bool :=
  negb (String.eqb (e_name r) "") && str_contains (e_name r) head_str.

Lemma stale_references_spec fresh fp w head_str removed cs :
  records_wf fresh fp w cs ->
  let cs' := stale_references fresh fp w head_str removed cs in
  records_wf fresh fp w cs' /\
  (forall id, reports SevHigh cs' id <-> reports SevHigh cs id) /\
  (forall id, reports SevMedium cs' id <-> reports SevMedium cs id \/
     (~ reports SevHigh cs id /\
      exists r, r ∈ removed /\ e_id r = id /\ names_it head_str r = true)).
Proof.
  simpl. revert cs; induction removed as [|r removed IH]; intros cs Hcs; simpl.
  { split_and!; [done..|]. intros id. rewrite exists_nil. tauto. }
  rewrite <-andb_assoc. fold (names_it head_str r).
  set (cs1 := if negb _ && _ then _ else cs).
  assert (H1 : records_wf fresh fp w cs1).
  { subst cs1. case_match; [by apply records_wf_snoc|done]. }
  destruct (IH cs1 H1) as (Hwf & Hh & Hm). split_and!; [done| |].
  - intros id. rewrite Hh. subst cs1. case_match; [rewrite reports_snoc|]; intuition congruence.
  - intros id. rewrite Hm, exists_cons.
    assert (Hcs1 : forall id, reports SevHigh cs1 id <-> reports SevHigh cs id).
    { intros id'. subst cs1. case_match; [rewrite reports_snoc|]; intuition congruence. }
    rewrite Hcs1. subst cs1.
    pose proof (reported_iff fresh fp w cs (e_id r) Hcs) as Hrep.
    destruct (existsb _ cs); simpl.
    + destruct (decide (e_id r = id)) as [<-|]; [|tauto].
      destruct (proj1 Hrep eq_refl) as ([] & Hr); [|tauto..].
      destruct Hr as (c & Hc & Hs & _). apply list_elem_of_lookup in Hc as (i & Hi).
      by destruct (Hcs i c Hi) as (_ & _ & _ & _ & _ & ? & _).
    + assert (Hn : forall sev, ~ reports sev cs (e_id r)).
      { intros sev Hr. by discriminate (proj2 Hrep (ex_intro _ sev Hr)). }
      destruct (names_it head_str r); [rewrite reports_snoc|]; [|intuition congruence].
      destruct (decide (e_id r = id)) as [<-|]; [|tauto]. specialize (Hn SevHigh). tauto.
Qed.

(** ** Properties *)

(** C15. The records of level 3 are exactly the conflicts: never an empty list,
    every record open, of this file and workspace, with its own identifier;
    a high one for each entity that both sides changed, or that the workspace
    removed and HEAD changed, and a medium one for each removed entity, not
    reported so, whose name HEAD's text still contains. Only when there is none
    of these is there the one record that names no entity. *)
Theorem detect_referential_conflicts_spec fresh fp w base head be he we ov :
  let cs := detect_referential_conflicts fresh fp w base head be he we ov in
  let removed := filter (fun e => has_id we (e_id e) = false) be in
  let high id := id ∈ ov \/
    exists r, r ∈ removed /\ e_id r = id /\ head_changed_it base head he r = true in
  let stale id := exists s r, from_utf8 head = Some s /\ r ∈ removed /\ e_id r = id /\
    names_it s r = true in
  (records_wf fresh fp w cs /\ cs <> [] /\
   (forall id, reports SevHigh cs id <-> high id) /\
   (forall id, reports SevMedium cs id <-> stale id /\ ~ high id)) \/
  ((forall id, ~ high id /\ ~ stale id) /\ exists d,
   cs = [make_conflict (fresh 0) fp w [] d SevHigh 3]).
Proof.
  simpl. unfold detect_referential_conflicts.
  destruct (modified_by_both_wf fresh fp w be he ov) as (W1 & H1 & M1).
  set (c1 := imap _ ov) in *. set (removed := filter _ be).
  destruct (removed_but_modified_spec fresh fp w base head he removed c1 W1) as (W2 & H2 & M2).
  set (c2 := removed_but_modified _ _ _ _ _ _ _ _) in *.
  set (c3 := match from_utf8 head with Some _ => _ | None => _ end).
  set (high := fun id => id ∈ ov \/
    exists r, r ∈ removed /\ e_id r = id /\ head_changed_it base head he r = true).
  set (stale := fun id => exists s r, from_utf8 head = Some s /\ r ∈ removed /\ e_id r = id /\
    names_it s r = true).
  assert (Hhigh : forall id, reports SevHigh c2 id <-> high id) by (intros id; by rewrite H2, H1).
  assert (H3 : records_wf fresh fp w c3 /\ (forall id, reports SevHigh c3 id <-> high id) /\
     (forall id, reports SevMedium c3 id <-> stale id /\ ~ high id)).
  { subst c3. unfold stale. destruct (from_utf8 head) as [s|] eqn:Hs.
    - destruct (stale_references_spec fresh fp w s removed c2 W2) as (W3 & H3 & M3).
      split_and!; [done| |]; intros id; [by rewrite H3|].
      rewrite M3, M2, Hhigh. specialize (M1 id). split; [|naive_solver].
      intros [?|[? (r & ?)]]; [done|]. split; [|done]. by exists s, r.
    - split_and!; [done..|]. intros id. rewrite M2. specialize (M1 id). split; [done|].
      by intros [(s & r & ? & _) _]. }
  destruct H3 as (W3 & H3 & M3). destruct c3 as [|c c3'] eqn:E; [|left; split_and!; done].
  right. split; [|eauto]. intros id.
  assert (Hnil : forall sev, ~ reports sev [] id) by (intros sev (c & ?%not_elem_of_nil & _); done).
  assert (Hh : ~ high id) by (rewrite <-H3; apply Hnil). split; [done|].
  intros Hst. by apply (Hnil SevMedium), M3.
Qed.

(** What the replacements are. *)
Lemma collect_replacements_elem head workspace hm wm ids reps s e r :
  collect_replacements head workspace hm wm ids = Ok reps ->
  (s, e, r) ∈ reps <-> exists id, id ∈ ids /\ exists we he,
    wm !! id = Some we /\ hm !! id = Some he /\
    span workspace we = Some r /\ s = (byte_range he).1 /\ e = (byte_range he).2 `min` length head.
Proof.
  revert reps; induction ids as [|id ids IH]; intros reps; simpl.
  { intros [= <-]. by rewrite exists_nil, elem_of_nil. }
  rewrite exists_cons. destruct (wm !! id) as [we|] eqn:Hw.
  2:{ intros ->%IH. naive_solver. }
  destruct (span workspace we) as [b|] eqn:Hb; [|done].
  destruct (collect_replacements _ _ _ _ ids) as [rest| |]; [|done..].
  specialize (IH rest eq_refl). simpl. destruct (hm !! id) as [he|] eqn:Hh; intros [= <-].
  - rewrite elem_of_cons, IH. naive_solver.
  - rewrite IH. naive_solver.
Qed.

Lemma collect_replacements_no_panic head workspace hm wm ids :
  collect_replacements head workspace hm wm ids <> Panic.
Proof.
  induction ids as [|id ids IH]; simpl; [done|].
  destruct (wm !! id) as [we|]; [|done]. destruct (span workspace we); [|done].
  destruct (collect_replacements _ _ _ _ ids); [|done..]. by destruct (hm !! id).
Qed.

(** When the spans of the entities to replace are disjoint in HEAD, the
    substitution of entities does not panic, and what it returns is HEAD with each
    of those spans, and nothing else, replaced by the workspace's span of the same
    entity, followed by added text. *)
Theorem merge_by_entity_substitution_disjoint head workspace head_ents ws_ents ids reps :
  collect_replacements head workspace (id_map head_ents) (id_map ws_ents) ids = Ok reps ->
  disjoint_ranges (length head) reps ->
  let res := merge_by_entity_substitution head workspace head_ents ws_ents ids in
  res <> Panic /\
  (forall out, res = Ok out ->
     exists added, out = render head (hunk_of <$> reps) ++ added) /\
  (forall s e r, (s, e, r) ∈ reps <-> exists id, id ∈ ids /\ exists we he,
     id_map ws_ents !! id = Some we /\ id_map head_ents !! id = Some he /\
     span workspace we = Some r /\ s = (byte_range he).1 /\
     e = (byte_range he).2 `min` length head).
Proof.
  intros Hc Hd. simpl. unfold merge_by_entity_substitution. rewrite Hc. simpl.
  rewrite (splice_all_disjoint head reps Hd). simpl. split_and!.
  - apply append_added_no_panic.
  - intros out. apply append_added_extends.
  - intros s e r. by apply collect_replacements_elem.
Qed.

(** Entities that the workspace removed are skipped: when these are all its
    changed entities, the substitution "merges" to HEAD as it was, and the removal
    is lost. *)
Theorem merge_by_entity_substitution_drops_removals head workspace head_ents ws_ents ids :
  (forall id, id ∈ ids -> id_map ws_ents !! id = None) ->
  merge_by_entity_substitution head workspace head_ents ws_ents ids = Ok head.
Proof.
  intros Hids. unfold merge_by_entity_substitution.
  assert (Hc : collect_replacements head workspace (id_map head_ents) (id_map ws_ents) ids = Ok []).
  { induction ids as [|id ids IH]; [done|]. simpl. rewrite (Hids id) by (by left).
    apply IH. intros x Hx. apply Hids. by right. }
  rewrite Hc. simpl. apply append_added_none. intros id Hid. right. by apply Hids.
Qed.

(** A method inside an [impl] block: both spans change, and the inner span is
    spliced before the outer one, whose end offset is the one of the old text. *)
Theorem splice_all_nested (text inner outer : bytes) s s' e' e :
  s < s' -> s' <= e' -> e' <= e -> e <= length text ->
  e <= s' + length inner + (length text - e') ->
  splice_all text (sort_descending [(s, e, outer); (s', e', inner)]) =
  Some (take s text ++ outer ++
        drop e (take s' text ++ inner ++ drop e' text)).
Proof.
  intros H1 H2 H3 H4 H5. unfold sort_descending. simpl.
  destruct (Nat.leb_spec s' s); [lia|]. simpl.
  rewrite splice_Some by lia. simpl.
  rewrite splice_Some.
  2:{ rewrite !length_app, length_take, length_drop. lia. }
  simpl. by rewrite take_app_le, take_take, Nat.min_l by (rewrite ?length_take; lia).
Qed.

Section file_properties.
Variable parse_rust_source : string -> bytes -> outcome GraphError (list Entity * list Relationship).
Variable iter_order : gset string -> list string.
Variable fresh : nat -> Uuid.

(** A file that only one side changed: the merge is that side's bytes as they
    are, at level 1, whatever the file is. *)
Theorem try_merge_file_one_side fp base head workspace w :
  (split_lines head = split_lines base ->
   try_merge_file parse_rust_source iter_order fresh fp base head workspace w =
     Some (AutoMerged workspace 1)) /\
  (split_lines head <> split_lines base -> split_lines workspace = split_lines base ->
   try_merge_file parse_rust_source iter_order fresh fp base head workspace w =
     Some (AutoMerged head 1)).
Proof.
  unfold try_merge_file. split.
  - intros ->. rewrite compute_hunks_same. simpl.
    destruct (compute_hunks_roundtrip (split_lines base) (split_lines workspace)) as (hs & Hc & _).
    by rewrite Hc.
  - intros Hne ->. rewrite compute_hunks_same.
    destruct (compute_hunks_roundtrip (split_lines base) (split_lines head)) as (hs & Hc & _).
    rewrite Hc. simpl. destruct hs as [|h hs].
    { apply compute_hunks_nil in Hc. congruence. }
    assert (Ho : hunks_overlap (h :: hs) [] = false).
    { clear. unfold hunks_overlap. generalize (h :: hs) as l. by induction l. }
    by rewrite Ho.
Qed.

(** A file that is not Rust: the result is the textual merge when the diffs
    do not overlap, a panic when the overlap test misses a collision, and one open
    conflict of medium severity when they overlap. *)
Theorem try_merge_file_text fp base head workspace w :
  ends_with ".rs" fp = false ->
  exists hh wh,
    compute_hunks (split_lines base) (split_lines head) = Some hh /\
    compute_hunks (split_lines base) (split_lines workspace) = Some wh /\
    let res := try_merge_file parse_rust_source iter_order fresh fp base head workspace w in
    (hunks_overlap hh wh = true ->
       exists d, res = Some (Conflicts [make_conflict (fresh 0) fp w [] d SevMedium 1])) /\
    (hunks_overlap hh wh = false -> ~ mixed_collision hh wh ->
       exists out, res = Some (AutoMerged out 1)) /\
    (hunks_overlap hh wh = false -> mixed_collision hh wh -> res = None).
Proof.
  intros Hrs.
  destruct (compute_hunks_roundtrip (split_lines base) (split_lines head)) as (hh & Hh & Wh & _).
  destruct (compute_hunks_roundtrip (split_lines base) (split_lines workspace)) as (wh & Hw & Ww & _).
  exists hh, wh. split_and!; [done..|]. simpl.
  unfold try_merge_file. rewrite Hh, Hw, Hrs. simpl. split_and!.
  - intros ->. simpl. unfold text_conflict. by eexists.
  - intros Ho Hm. rewrite Ho. simpl. unfold apply_two_hunk_sets.
    pose proof (merge_lines_rendered _ _ _ Wh Ww Ho Hm) as Hr.
    destruct (is_nil hh), (is_nil wh); simpl; eauto. rewrite Hr. simpl. eauto.
  - intros Ho Hm. rewrite Ho. simpl. unfold apply_two_hunk_sets.
    pose proof (merge_order_collides _ _ _ Wh Ww Hm) as Hr.
    assert (hh <> [] /\ wh <> []) as [? ?].
    { destruct Hm as [(r & i & Hr1 & Hi & _)|(r & i & Hr1 & Hi & _)];
        split; intros ->; by apply not_elem_of_nil in Hr1 || apply not_elem_of_nil in Hi. }
    destruct hh; [done|]. destruct wh; [done|]. simpl. by rewrite Hr.
Qed.
End file_properties.

(** ** Witnesses *)

Definition wit_entity (id name : string) (s e : nat) : Entity :=
  mkEntity id Function name name "a.rs" (s, e) (0, 0) None.

Lemma merge_by_entity_substitution_disjoint_witness :
  exists added, bytes_of "fn f {2} fn g {1}" =
    render (bytes_of "fn f {0} fn g {1}") (hunk_of <$> [(0, 8, bytes_of "fn f {2}")]) ++ added.
Proof.
  apply (merge_by_entity_substitution_disjoint
    (bytes_of "fn f {0} fn g {1}") (bytes_of "fn f {2} fn g {0}")
    [wit_entity "f" "f" 0 8; wit_entity "g" "g" 9 17]
    [wit_entity "f" "f" 0 8; wit_entity "g" "g" 9 17] ["f"%string]).
  - reflexivity.
  - split; repeat constructor.
  - reflexivity.
Defined.

Lemma merge_by_entity_substitution_drops_removals_witness :
  merge_by_entity_substitution (bytes_of "fn f {0} fn g {1}") (bytes_of "fn g {0}")
    [wit_entity "f" "f" 0 8; wit_entity "g" "g" 9 17] [wit_entity "g" "g" 0 8] ["f"%string]
  = Ok (bytes_of "fn f {0} fn g {1}").
Proof.
  apply merge_by_entity_substitution_drops_removals.
  intros id ->%list_elem_of_singleton. reflexivity.
Defined.

(** [impl S { fn f {0} }], in which the workspace writes [999] for [0]. *)
Lemma splice_all_nested_witness :
  splice_all (bytes_of "impl S { fn f {0} }
fn g {}") (sort_descending
    [(0, 19, bytes_of "impl S { fn f {999} }"); (9, 17, bytes_of "fn f {999}")]) =
  Some (bytes_of "impl S { fn f {999} } }
fn g {}").
Proof.
  rewrite (splice_all_nested _ _ _ 0 9 17 19); [reflexivity|simpl; lia..].
Defined.

(** HEAD replaces the second and third lines; the workspace adds one between them. *)
Lemma try_merge_file_text_witness :
  try_merge_file (fun _ _ => Panic) (fun _ => []) (fun _ => "u"%string) "a.txt"
    (bytes_of "a
b
c
d
") (bytes_of "a
x
d
") (bytes_of "a
b
n
c
d
") "w" = None.
Proof.
  destruct (try_merge_file_text (fun _ _ => Panic) (fun _ => []) (fun _ => "u"%string) "a.txt"
    (bytes_of "a
b
c
d
") (bytes_of "a
x
d
") (bytes_of "a
b
n
c
d
") "w" eq_refl) as (hh & wh & Hh & Hw & _ & _ & H).
  vm_compute in Hh. injection Hh as <-. vm_compute in Hw. injection Hw as <-.
  apply H; [reflexivity|]. apply (bool_decide_unpack _). vm_compute. exact I.
Defined.
