(* ===== verification/Conflict.v ===== *)
(** The conflict engine ([src/src/conflict/mod.rs]): the scope footprint of each
    active workspace, the classification of the overlap of two of them, and the
    engine's operations as functions on its map of scopes. *)
From S2P Require Import Prelude RustStr EventLog.

Record WorkspaceScope : Type := mkScope {
  sc_workspace_id : Uuid;
  sc_intent : string;
  write_files : gset string;
  write_entities : gset string;
  blast_radius : gset string
}.

Inductive OverlapLevel : Type := LNone | LLow | LMedium | LHigh | LCritical.

#[export] Instance OverlapLevel_eq_dec : EqDecision OverlapLevel.
Proof. solve_decision. Defined.

Definition level_as_str (l : OverlapLevel) : string :=
  match l with
  | LNone => "none"
  | LLow => "low"
  | LMedium => "medium"
  | LHigh => "high"
  | LCritical => "critical"
  end.

(** The derived order of the variants. *)
Definition level_rank (l : OverlapLevel) : nat :=
  match l with LNone => 0 | LLow => 1 | LMedium => 2 | LHigh => 3 | LCritical => 4 end.

Record OverlapResult : Type := mkOverlap {
  o_level : OverlapLevel;
  your_workspace : Uuid;
  other_workspace : Uuid;
  other_intent : string;
  overlapping_files : list string;
  overlapping_entities : list string;
  recommendation : string
}.

(** Entities that [a] writes and that [b] depends on, but does not write. *)
Definition in_blast (a b : WorkspaceScope) : gset string :=
  filter (fun id => id ∈ blast_radius b /\ id ∉ write_entities b) (write_entities a).

Definition referential (a b : WorkspaceScope) : list string :=
  dedup (dedup (sort_strings (sorted_elements (in_blast a b) ++ sorted_elements (in_blast b a)))).

Definition classify_overlap (a b : WorkspaceScope) : OverlapResult :=
  let files := sorted_elements (write_files a ∩ write_files b) in
  let shared := sorted_elements (write_entities a ∩ write_entities b) in
  let refs := referential a b in
  let result level files entities text :=
    mkOverlap level (sc_workspace_id a) (sc_workspace_id b) (sc_intent b) files entities text in
  let who := "workspace '" +:+ sc_workspace_id b +:+ "' (intent: " +:+ sc_intent b +:+ ")" in
  if 1 <? length shared then
    result LCritical files shared
      ("Multiple entities are modified in both your workspace and " +:+ who +:+
       ". Coordinate before submitting to avoid severe conflicts.")
  else if negb (bool_decide (shared = [])) then
    result LMedium files shared
      ("You and " +:+ who +:+ " are modifying the same entity. " +:+
       "Consider submitting in sequence to avoid merge conflicts.")
  else if negb (bool_decide (refs = [])) then
    result LHigh files refs
      ("Your changes affect entities that " +:+ who +:+ " depends on. " +:+
       "Review the dependency chain before submitting.")
  else if negb (bool_decide (files = [])) then
    result LLow files []
      ("Both you and " +:+ who +:+ " have modified the same file(s) " +:+
       "but different entities. Verify there are no unintended overwrites.")
  else result LNone [] [] "".

(** ** The engine *)

Abbreviation Engine := (gmap Uuid WorkspaceScope).

Definition empty_engine : Engine := ∅.

Section engine.
(** The order in which the values of the hash map are iterated. *)
Variable values : Engine -> list WorkspaceScope.

Definition updated_scope (e : Engine) (w : Uuid) (intent : string) (path_list : list string) :
    WorkspaceScope :=
  let scope := default (mkScope w intent ∅ ∅ ∅) (e !! w) in
  mkScope (sc_workspace_id scope) intent (list_to_set path_list)
    (write_entities scope) (blast_radius scope).

Definition update_scope (e : Engine) (w : Uuid) (intent : string) (path_list : list string) :
    list OverlapResult * Engine :=
  let updated := updated_scope e w intent path_list in
  let e' := <[w := updated]> e in
  let others := filter (fun s => sc_workspace_id s <> w) (values e') in
  let results := filter (fun r => o_level r <> LNone) (classify_overlap updated <$> others) in
  (sort_by (fun a b => level_rank (o_level b) <=? level_rank (o_level a)) results, e').
End engine.

Definition remove_workspace (e : Engine) (w : Uuid) : Engine := delete w e.
Definition get_scope (e : Engine) (w : Uuid) : option WorkspaceScope := e !! w.
Definition tracked_count (e : Engine) : nat := size e.

(** ** Classification *)

Lemma in_blast_elem a b id :
  id ∈ in_blast a b <->
  id ∈ write_entities a /\ id ∈ blast_radius b /\ id ∉ write_entities b.
Proof. unfold in_blast. rewrite elem_of_filter. tauto. Qed.

Lemma referential_elem a b id : id ∈ referential a b <-> id ∈ in_blast a b \/ id ∈ in_blast b a.
Proof.
  unfold referential. rewrite !dedup_elem. unfold sort_strings.
  by rewrite sort_by_elem_of, elem_of_app, !elem_of_sorted_elements.
Qed.

Lemma referential_sym a b : referential a b = referential b a.
Proof.
  unfold referential. do 2 f_equal. apply sort_strings_unique.
  by rewrite Permutation_app_comm.
Qed.

Lemma referential_nil a b : referential a b = [] <-> in_blast a b = ∅ /\ in_blast b a = ∅.
Proof.
  split.
  - intros H. assert (Hn : forall id, id ∉ referential a b) by (rewrite H; intros; apply not_elem_of_nil).
    split; apply set_eq; intros id; specialize (Hn id); rewrite referential_elem in Hn; set_solver.
  - unfold referential. by intros [-> ->].
Qed.

(** The level, as the table of cases it is. *)
Definition spec_level (a b : WorkspaceScope) : OverlapLevel :=
  let shared := write_entities a ∩ write_entities b in
  if 1 <? size shared then LCritical
  else if decide (shared <> ∅) then LMedium
  else if decide (in_blast a b ∪ in_blast b a <> ∅) then LHigh
  else if decide (write_files a ∩ write_files b <> ∅) then LLow
  else LNone.

Lemma classify_level a b : o_level (classify_overlap a b) = spec_level a b.
Proof.
  unfold classify_overlap, spec_level. rewrite sorted_elements_length.
  destruct (1 <? _); [done|].
  assert (Hb : forall (P Q : Prop) `{Decision P} `{Decision Q}, (P <-> ~ Q) ->
    negb (bool_decide P) = bool_decide Q).
  { intros P Q HP HQ HPQ. repeat case_bool_decide; tauto. }
  rewrite (Hb _ (write_entities a ∩ write_entities b <> ∅) _ _).
  2:{ rewrite sorted_elements_nil. destruct (decide (write_entities a ∩ write_entities b = ∅)); tauto. }
  rewrite (Hb _ (in_blast a b ∪ in_blast b a <> ∅) _ _).
  2:{ rewrite referential_nil. destruct (decide (in_blast a b ∪ in_blast b a = ∅)); set_solver. }
  rewrite (Hb _ (write_files a ∩ write_files b <> ∅) _ _).
  2:{ rewrite sorted_elements_nil. destruct (decide (write_files a ∩ write_files b = ∅)); tauto. }
  unfold bool_decide. by repeat case_decide.
Qed.

(** The overlap of two workspaces has a level that depends only on the sets
    of the two footprints, names exactly the shared files and the shared (or
    referenced) entities, each once and in order, and is the same seen from either
    side. *)
Theorem classify_overlap_spec a b :
  let r := classify_overlap a b in
  o_level r = spec_level a b /\
  your_workspace r = sc_workspace_id a /\ other_workspace r = sc_workspace_id b /\
  (o_level r <> LNone ->
     overlapping_files r = sorted_elements (write_files a ∩ write_files b)) /\
  (forall id, id ∈ overlapping_entities r <->
     match o_level r with
     | LCritical | LMedium => id ∈ write_entities a ∩ write_entities b
     | LHigh => id ∈ in_blast a b ∪ in_blast b a
     | LLow | LNone => False
     end) /\
  let r' := classify_overlap b a in
  o_level r' = o_level r /\ overlapping_files r' = overlapping_files r /\
  overlapping_entities r' = overlapping_entities r.
Proof.
  simpl. split; [apply classify_level|].
  split; [by unfold classify_overlap; repeat case_match|].
  split; [by unfold classify_overlap; repeat case_match|].
  unfold classify_overlap.
  rewrite (sorted_elements_ext (write_files b ∩ write_files a) (write_files a ∩ write_files b))
    by set_solver.
  rewrite (sorted_elements_ext (write_entities b ∩ write_entities a)
    (write_entities a ∩ write_entities b)) by set_solver.
  rewrite (referential_sym b a).
  repeat case_match; simpl; split_and!; try done; intros id;
    rewrite ?elem_of_sorted_elements, ?referential_elem, ?elem_of_union, ?elem_of_nil; done.
Qed.

(** ** The engine's invariant and behaviour *)

Definition values_ok (values : Engine -> list WorkspaceScope) : Prop :=
  forall e, values e ≡ₚ (map_to_list e).*2.

(** Every scope is stored under its own workspace. *)
Definition engine_wf (e : Engine) : Prop := forall w s, e !! w = Some s -> sc_workspace_id s = w.

Lemma updated_scope_id e w intent ps : engine_wf e -> sc_workspace_id (updated_scope e w intent ps) = w.
Proof. intros He. unfold updated_scope. destruct (e !! w) eqn:E; simpl; [by apply He|done]. Qed.

Lemma update_scope_wf values e w intent ps :
  engine_wf e -> engine_wf (update_scope values e w intent ps).2.
Proof.
  intros He w' s. simpl. intros [[<- <-]|[_ Hs]]%lookup_insert_Some; [by apply updated_scope_id|].
  by apply He.
Qed.

Lemma remove_workspace_wf e w : engine_wf e -> engine_wf (remove_workspace e w).
Proof.
  intros He w' s. unfold remove_workspace. intros [_ Hs]%lookup_delete_Some. by apply He.
Qed.

#[export] Hint Resolve update_scope_wf remove_workspace_wf : vai.

Lemma values_elem values e s :
  values_ok values -> s ∈ values e <-> exists w, e !! w = Some s.
Proof.
  intros Hv. rewrite (Hv e), list_elem_of_fmap. split.
  - intros ([w s'] & -> & Hs%elem_of_map_to_list). eauto.
  - intros (w & Hs). exists (w, s). by rewrite elem_of_map_to_list.
Qed.

(** Updating a scope reports every other tracked workspace that overlaps the
    new footprint and no other, the most severe first, and replaces the file set
    of this workspace only; the engine stays well formed. *)
Theorem update_scope_spec values e w intent ps :
  values_ok values -> engine_wf e ->
  let '(results, e') := update_scope values e w intent ps in
  let mine := updated_scope e w intent ps in
  engine_wf e' /\
  (forall w', e' !! w' = if decide (w' = w) then Some mine else e !! w') /\
  (forall r, r ∈ results <-> exists w' s, w' <> w /\ e !! w' = Some s /\
     r = classify_overlap mine s /\ spec_level mine s <> LNone) /\
  NoDup (other_workspace <$> results) /\
  StronglySorted (fun a b => level_rank (o_level b) <= level_rank (o_level a)) results.
Proof.
  intros Hv He. destruct (update_scope values e w intent ps) as [results e'] eqn:E.
  pose proof (update_scope_wf values e w intent ps He) as Hwf. rewrite E in Hwf.
  unfold update_scope in E. injection E as <- <-. simpl in *.
  set (mine := updated_scope e w intent ps) in *. set (e' := <[w:=mine]> e) in *.
  assert (Hother : forall s, s ∈ filter (fun s => sc_workspace_id s <> w) (values e') <->
    exists w', w' <> w /\ e !! w' = Some s).
  { intros s. rewrite list_elem_of_filter, values_elem by done. split.
    - intros [Hne (w' & Hs)]. pose proof (Hwf _ _ Hs) as Hid. exists w'.
      apply lookup_insert_Some in Hs as [[<- <-]|[? Hs]]; [done|]. split; [congruence|done].
    - intros (w' & Hne & Hs). rewrite (He _ _ Hs). split; [done|]. exists w'.
      unfold e'. by rewrite lookup_insert_ne. }
  split_and!; [done| | | |].
  - intros w'. unfold e'. case_decide as D; [subst; by rewrite lookup_insert_eq|].
    by rewrite lookup_insert_ne.
  - intros r. rewrite sort_by_elem_of, list_elem_of_filter, list_elem_of_fmap. split.
    + intros [Hl (s & -> & (w' & ? & Hs)%Hother)]. exists w', s.
      rewrite <-classify_level. done.
    + intros (w' & s & Hne & Hs & -> & Hl). rewrite classify_level. split; [done|].
      exists s. split; [done|]. apply Hother. eauto.
  - rewrite sort_by_perm.
    apply (sublist_NoDup _ (other_workspace <$> (classify_overlap mine <$> filter (fun s => sc_workspace_id s <> w) (values e')))).
    2:{ apply fmap_sublist, sublist_filter. }
    assert (Hf : other_workspace <$> (classify_overlap mine <$> filter (fun s => sc_workspace_id s <> w) (values e'))
      = sc_workspace_id <$> filter (fun s => sc_workspace_id s <> w) (values e')).
    { rewrite <-list_fmap_compose. apply list_fmap_ext. intros i s _. simpl.
      by unfold classify_overlap; repeat case_match. }
    rewrite Hf. apply (sublist_NoDup _ (sc_workspace_id <$> values e')).
    2:{ apply fmap_sublist, sublist_filter. }
    rewrite (Hv e'). clear -Hwf.
    assert (Hk : sc_workspace_id <$> (map_to_list e').*2 = (map_to_list e').*1).
    { rewrite <-list_fmap_compose. apply list_fmap_ext. intros i [w' s] Hi. simpl.
      apply Hwf, elem_of_map_to_list. by eapply list_elem_of_lookup_2. }
    rewrite Hk. apply NoDup_fst_map_to_list.
  - eapply StronglySorted_mono; [|apply sort_by_sorted].
    + intros x y. simpl. by rewrite Is_true_true, Nat.leb_le.
    + intros x y. rewrite Nat.leb_gt, Nat.leb_le. lia.
    + intros x y z. rewrite !Nat.leb_le. lia.
Qed.

(** What the server does with its engine: [update_scope] when a workspace uploads
    files and [remove_workspace] when it is submitted or discarded. *)
Inductive engine_step (values : Engine -> list WorkspaceScope) : Engine -> Engine -> Prop :=
  | step_update e w intent ps : engine_step values e (update_scope values e w intent ps).2
  | step_remove e w : engine_step values e (remove_workspace e w).

Definition files_only (e : Engine) : Prop :=
  engine_wf e /\ map_Forall (fun _ s => write_entities s = ∅ /\ blast_radius s = ∅) e.

Lemma reachable_files_only values e : rtc (engine_step values) empty_engine e -> files_only e.
Proof.
  intros Hr. assert (H0 : files_only empty_engine) by (split; [intros ? ?; done|apply map_Forall_empty]).
  revert H0. induction Hr as [|e1 e2 e3 Hs _ IH]; [done|]. intros [Hwf HF]. apply IH.
  destruct Hs as [e w intent ps|e w]; split; auto with vai.
  - apply map_Forall_insert_2; [|done]. unfold updated_scope. simpl.
    destruct (e !! w) eqn:E; simpl; [by apply (HF w)|done].
  - intros w' s. unfold remove_workspace. intros [_ Hs]%lookup_delete_Some. by apply (HF w').
Qed.

(** In every engine that the server's calls can reach the footprints hold
    files only, so an update reports exactly the other workspaces that share a
    file, each at level low: the levels medium, high and critical do not occur. *)
Theorem reachable_update_scope_low values e w intent ps :
  values_ok values -> rtc (engine_step values) empty_engine e ->
  let results := (update_scope values e w intent ps).1 in
  (forall r, r ∈ results -> o_level r = LLow /\ overlapping_entities r = []) /\
  (forall w', w' ∈ other_workspace <$> results <->
     w' <> w /\ exists s p, e !! w' = Some s /\ p ∈ write_files s /\ p ∈ ps).
Proof.
  intros Hv Hr. destruct (reachable_files_only _ _ Hr) as [Hwf HF].
  pose proof (update_scope_spec values e w intent ps Hv Hwf) as Hs.
  destruct (update_scope values e w intent ps) as [results e'] eqn:E.
  destruct Hs as (_ & _ & Hres & _ & _). simpl.
  set (mine := updated_scope e w intent ps) in *.
  assert (Hm : write_entities mine = ∅ /\ blast_radius mine = ∅).
  { unfold mine, updated_scope. simpl. destruct (e !! w) eqn:Ew; simpl; [by apply (HF w)|done]. }
  destruct Hm as [Hme Hmb].
  assert (Hlev : forall w' s, e !! w' = Some s ->
    spec_level mine s = if decide (write_files mine ∩ write_files s <> ∅) then LLow else LNone).
  { intros w' s Hw. destruct (HF _ _ Hw) as [Hse Hsb].
    assert (Hb : in_blast mine s ∪ in_blast s mine = ∅).
    { apply set_eq. intros id. rewrite elem_of_union, !in_blast_elem, Hme, Hse. set_solver. }
    unfold spec_level. rewrite Hb, Hme, intersection_empty_l_L, size_empty. cbn [Nat.ltb Nat.leb].
    repeat (case_decide; try done); set_solver. }
  split.
  - intros r (w' & s & _ & Hw & -> & Hl)%Hres.
    destruct (classify_overlap_spec mine s) as (Hll & _ & _ & _ & He & _).
    rewrite (Hlev _ _ Hw) in Hll, Hl. case_decide; [|done]. split; [done|].
    rewrite Hll in He. destruct (overlapping_entities _) as [|x l]; [done|].
    exfalso. apply (He x). by left.
  - intros w'. rewrite list_elem_of_fmap. split.
    + intros (r & -> & (w'' & s & Hne & Hw & -> & Hl)%Hres).
      destruct (classify_overlap_spec mine s) as (_ & _ & -> & _).
      rewrite (Hwf _ _ Hw). split; [done|]. rewrite (Hlev _ _ Hw) in Hl.
      case_decide as D; [|done]. apply set_choose_L in D as [p [Hp Hp']%elem_of_intersection].
      exists s, p. split_and!; [done..|]. by apply elem_of_list_to_set in Hp.
    + intros (Hne & s & p & Hw & Hp & Hps). exists (classify_overlap mine s).
      destruct (classify_overlap_spec mine s) as (_ & _ & -> & _).
      split; [by rewrite (Hwf _ _ Hw)|]. apply Hres. exists w', s. split_and!; [done..|].
      rewrite (Hlev _ _ Hw), decide_True; [done|]. intros HE.
      apply (not_elem_of_empty (C:=gset string) p). rewrite <-HE.
      apply elem_of_intersection. split; [by apply elem_of_list_to_set|done].
Qed.

(** ** Witnesses *)

Definition wit_values (e : Engine) : list WorkspaceScope := (map_to_list e).*2.

Definition wit_engine : Engine :=
  (update_scope wit_values empty_engine "w1" "add login" ["src/auth.rs"; "src/lib.rs"]%string).2.

Lemma update_scope_spec_witness :
  exists r, r ∈ (update_scope wit_values wit_engine "w2" "fix" ["src/lib.rs"]%string).1 /\
    other_workspace r = "w1"%string /\ overlapping_files r = ["src/lib.rs"%string].
Proof.
  pose proof (update_scope_spec wit_values wit_engine "w2" "fix" ["src/lib.rs"%string]
    (fun e => Permutation_refl _)
    (update_scope_wf _ _ _ _ _ (fun w s H => ltac:(by rewrite lookup_empty in H)))) as H.
  destruct (update_scope wit_values wit_engine _ _ _) as [results e'].
  destruct H as (_ & _ & H & _). simpl.
  eexists. split_and!.
  - apply H. exists "w1"%string, (default (mkScope "" "" ∅ ∅ ∅) (wit_engine !! "w1"%string)).
    split_and!; [done|reflexivity|reflexivity|].
    apply (bool_decide_unpack _). vm_compute. exact I.
  - reflexivity.
  - vm_compute. reflexivity.
Defined.

Lemma reachable_update_scope_low_witness :
  "w1"%string ∈ other_workspace <$>
    (update_scope wit_values wit_engine "w2" "fix" ["src/lib.rs"]%string).1.
Proof.
  apply (reachable_update_scope_low wit_values wit_engine "w2" "fix" ["src/lib.rs"%string]).
  - intros e. reflexivity.
  - apply rtc_once. apply (step_update _ empty_engine).
  - split; [done|]. exists (default (mkScope "" "" ∅ ∅ ∅) (wit_engine !! "w1"%string)), "src/lib.rs"%string.
    split_and!; [reflexivity| |by left].
    apply (bool_decide_unpack _). vm_compute. exact I.
Defined.
