(* ===== verification/MergeFs.v ===== *)
(** The file abstraction of the merge engine ([src/src/merge_fs.rs]): the trait as
    a class, what its clients rely on as a second class, the implementation on a
    local disk, and the one that buffers in memory what it writes to an object
    store. *)
From S2P Require Import Prelude RustStr.

(** [io::ErrorKind]; messages are not kept. *)
Inductive IoError : Type := NotFound | InvalidInput | OtherError.

#[export] Instance IoError_eq_dec : EqDecision IoError.
Proof. solve_decision. Defined.

Class MergeFs (S : Type) : Type := {
  read_file : string -> M S IoError bytes;
  write_file : string -> bytes -> M S IoError unit;
  list_files : string -> M S IoError (list string);
  exists_file : string -> M S IoError bool;
  delete_file : string -> M S IoError unit
}.

(** The contract: a state that is well formed shows a content for each key; a
    read does not change what is shown, a write and a deletion change one key. *)
Class MergeFsSpec (S : Type) `{MergeFs S} : Type := {
  fs_wf : S -> Prop;
  fs_key : string -> Prop;
  fs_prefix : string -> Prop;
  fs_lookup : S -> string -> option bytes;
  read_file_spec s k : fs_wf s -> fs_key k -> exists s',
    read_file k s = (match fs_lookup s k with Some c => Ok c | None => Err NotFound end, s') /\
    fs_wf s' /\ fs_lookup s' = fs_lookup s;
  write_file_spec s k c : fs_wf s -> fs_key k -> exists s',
    write_file k c s = (Ok tt, s') /\ fs_wf s' /\
    forall k', fs_key k' -> fs_lookup s' k' = if decide (k' = k) then Some c else fs_lookup s k';
  list_files_spec s p : fs_wf s -> fs_prefix p -> exists s' keys,
    list_files p s = (Ok keys, s') /\ fs_wf s' /\ fs_lookup s' = fs_lookup s /\ NoDup keys /\
    forall k, k ∈ keys <-> is_Some (fs_lookup s k) /\ exists rel, k = p +:+ rel;
  exists_file_spec s k : fs_wf s -> fs_key k -> exists s',
    exists_file k s = (Ok (bool_decide (is_Some (fs_lookup s k))), s') /\
    fs_wf s' /\ fs_lookup s' = fs_lookup s;
  delete_file_spec s k : fs_wf s -> fs_key k -> exists s',
    delete_file k s = (Ok tt, s') /\ fs_wf s' /\
    forall k', fs_key k' -> fs_lookup s' k' = if decide (k' = k) then None else fs_lookup s k';
  fs_key_overlay rel : fs_key ("overlay/" +:+ rel);
  fs_key_base rel : fs_key ("base/" +:+ rel);
  fs_key_snapshot n rel : fs_key ("snapshot/v" +:+ print_u64 n +:+ "/" +:+ rel);
  fs_prefix_overlay : fs_prefix "overlay/";
  fs_prefix_snapshot n : fs_prefix ("snapshot/v" +:+ print_u64 n +:+ "/")
}.

(** [s.trim_end_matches('/')] *)
Fixpoint trim_end_slashes (s : string) : string :=
  match s with
  | EmptyString => EmptyString
  | String a s' =>
      match trim_end_slashes s' with
      | EmptyString => if Ascii.eqb a "/" then EmptyString else String a EmptyString
      | t => String a t
      end
  end.

(** ** The local disk *)

(** A disk, by path; directories exist as far as files are in them. Paths are
    taken as the texts that [join] builds. *)
Abbreviation Disk := (gmap string bytes).

(** [base.join(rel)] *)
Definition path_join (base rel : string) : string :=
  if starts_with "/" rel then rel
  else if ends_with "/" base || String.eqb base "" then base +:+ rel
  else base +:+ "/" +:+ rel.

Definition is_dir (d : Disk) (p : string) : bool :=
  existsb (fun f => starts_with (p +:+ "/") f) (elements (dom d)).
Definition below_file (d : Disk) (p : string) : bool :=
  existsb (fun f => starts_with (f +:+ "/") p) (elements (dom d)).
Definition path_exists (d : Disk) (p : string) : bool :=
  bool_decide (is_Some (d !! p)) || is_dir d p.

(** [path.replace('\\', "/")] *)
Fixpoint normalise_separators (s : string) : string :=
  match s with
  | EmptyString => EmptyString
  | String a s' => String (if Ascii.eqb a "\" then "/"%char else a) (normalise_separators s')
  end.

Section disk.
Variables (vai_dir workspace_id repo_root : string).
(** The order in which a directory tree is walked. *)
Variable walk : gset string -> list string.

Definition disk_resolve (key : string) : outcome IoError string :=
  match strip_prefix "overlay/" key with
  | Some rel =>
      Ok (path_join (path_join (path_join (path_join vai_dir "workspaces") workspace_id) "overlay") rel)
  | None =>
      match strip_prefix "base/" key with
      | Some rel => Ok (path_join repo_root rel)
      | None =>
          match strip_prefix "snapshot/" key with
          | Some rest =>
              match split_once "/" rest with
              | Some (ver, rel) =>
                  Ok (path_join (path_join (path_join (path_join vai_dir "versions") ver) "snapshot") rel)
              | None => Err InvalidInput
              end
          | None => Err InvalidInput
          end
      end
  end.

Definition disk_prefix_root (prefix : string) : outcome IoError (string * string) :=
  if String.eqb prefix "overlay/" || String.eqb prefix "overlay" then
    Ok (path_join (path_join (path_join vai_dir "workspaces") workspace_id) "overlay", "overlay/")
  else if String.eqb prefix "base/" || String.eqb prefix "base" then Ok (repo_root, "base/")
  else match strip_prefix "snapshot/" prefix with
       | Some rest =>
           let ver := trim_end_slashes rest in
           if String.eqb ver "" then Err InvalidInput
           else Ok (path_join (path_join (path_join vai_dir "versions") ver) "snapshot",
                    "snapshot/" +:+ ver +:+ "/")
       | None => Err InvalidInput
       end.

Definition list_recursive (d : Disk) (root prefix : string) : list string :=
  omap (fun f => rel ← strip_prefix (root +:+ "/") f; Some (prefix +:+ normalise_separators rel))
    (walk (dom d)).

Definition disk_read_file (key : string) : M Disk IoError bytes := fun d =>
  (path ← disk_resolve key;
   match d !! path with
   | Some c => Ok c
   | None => Err (if is_dir d path then OtherError else NotFound)
   end, d).

Definition disk_write_file (key : string) (content : bytes) : M Disk IoError unit :=
  path ← lift (disk_resolve key);
  d ← get_st;
  if is_dir d path || below_file d path then fail OtherError
  else put_st (<[path := content]> d).

Definition disk_list_files (prefix : string) : M Disk IoError (list string) :=
  '(root, canonical_prefix) ← lift (disk_prefix_root prefix);
  d ← get_st;
  mret (list_recursive d root canonical_prefix).

Definition disk_exists (key : string) : M Disk IoError bool :=
  path ← lift (disk_resolve key);
  d ← get_st;
  mret (path_exists d path).

Definition disk_delete_file (key : string) : M Disk IoError unit :=
  path ← lift (disk_resolve key);
  d ← get_st;
  if path_exists d path then
    match d !! path with
    | Some _ => put_st (delete path d)
    | None => fail OtherError
    end
  else mret tt.

Instance DiskMergeFs : MergeFs Disk := {|
  read_file := disk_read_file;
  write_file := disk_write_file;
  list_files := disk_list_files;
  exists_file := disk_exists;
  delete_file := disk_delete_file
|}.
End disk.

(** ** The object store *)

(** One repository's files in the store, the error that the store answers with
    while it is out of reach, and the buffers of [S3MergeFs]. *)
Record S3 : Type := mkS3 {
  store : gmap string bytes;
  store_down : bool;
  read_cache : gmap string bytes;
  pending_writes : gmap string bytes;
  pending_deletes : list string
}.

Definition new_s3 (files : gmap string bytes) (down : bool) : S3 := mkS3 files down ∅ ∅ [].

Section s3.
Variables (overlay_prefix base_prefix : string).

Definition s3_path (key : string) : outcome IoError string :=
  match strip_prefix "overlay/" key with
  | Some rel => Ok (overlay_prefix +:+ rel)
  | None =>
      match strip_prefix "base/" key with
      | Some rel => Ok (base_prefix +:+ rel)
      | None =>
          match strip_prefix "snapshot/" key with
          | Some rest =>
              match split_once "/" rest with
              | Some (ver, rel) => Ok ("versions/" +:+ ver +:+ "/snapshot/" +:+ rel)
              | None => Err InvalidInput
              end
          | None => Err InvalidInput
          end
      end
  end.

Definition s3_prefix (prefix : string) : outcome IoError (string * string) :=
  if String.eqb prefix "overlay/" || String.eqb prefix "overlay" then
    Ok (overlay_prefix, "overlay/"%string)
  else if String.eqb prefix "base/" || String.eqb prefix "base" then
    Ok (base_prefix, "base/"%string)
  else match strip_prefix "snapshot/" prefix with
       | Some rest =>
           let ver := trim_end_slashes rest in
           if String.eqb ver "" then Err InvalidInput
           else Ok ("versions/" +:+ ver +:+ "/snapshot/", "snapshot/" +:+ ver +:+ "/")
       | None => Err InvalidInput
       end.

Definition s3_read_file (key : string) : M S3 IoError bytes :=
  path ← lift (s3_path key);
  s ← get_st;
  match pending_writes s !! path with
  | Some content => mret content
  | None =>
      if bool_decide (path ∈ pending_deletes s) then fail NotFound
      else match read_cache s !! path with
           | Some content => mret content
           | None =>
               if store_down s then fail NotFound
               else match store s !! path with
                    | None => fail NotFound
                    | Some content =>
                        _ ← put_st (mkS3 (store s) (store_down s) (<[path := content]> (read_cache s))
                                         (pending_writes s) (pending_deletes s));
                        mret content
                    end
           end
  end.

Definition s3_write_file (key : string) (content : bytes) : M S3 IoError unit :=
  path ← lift (s3_path key);
  modify_st (fun s => mkS3 (store s) (store_down s) (read_cache s)
    (<[path := content]> (pending_writes s)) (filter (fun p => p <> path) (pending_deletes s))).

(** The listing of the store, then the buffered writes, less what is deleted; each
    key once; sorted. *)
Definition s3_list_files (prefix : string) : M S3 IoError (list string) :=
  '(s3_pre, merge_prefix) ← lift (s3_prefix prefix);
  s ← get_st;
  let s3_files := if store_down s then [] else
    filter (fun p => starts_with s3_pre p) (elements (dom (store s))) in
  let pending := filter (fun p => starts_with s3_pre p) (elements (dom (pending_writes s))) in
  let keys := omap (fun p => rel ← strip_prefix s3_pre p; Some (merge_prefix +:+ rel))
    (filter (fun p => p ∉ pending_deletes s) (s3_files ++ pending)) in
  mret (sorted_elements (list_to_set keys)).

Definition s3_exists (key : string) : M S3 IoError bool :=
  path ← lift (s3_path key);
  s ← get_st;
  if bool_decide (is_Some (pending_writes s !! path)) then mret true
  else if bool_decide (path ∈ pending_deletes s) then mret false
  else if bool_decide (is_Some (read_cache s !! path)) then mret true
  else if store_down s then fail OtherError
  else mret (bool_decide (is_Some (store s !! path))).

Definition s3_delete_file (key : string) : M S3 IoError unit :=
  path ← lift (s3_path key);
  modify_st (fun s => mkS3 (store s) (store_down s) (delete path (read_cache s))
    (delete path (pending_writes s))
    (if bool_decide (path ∈ pending_deletes s) then pending_deletes s
     else pending_deletes s ++ [path])).

(** The buffers are taken first, so that a failed [put] loses them. *)
Definition s3_flush : M S3 IoError unit := fun s =>
  let taken := mkS3 (store s) (store_down s) (read_cache s) ∅ [] in
  if store_down s then
    (if bool_decide (pending_writes s = ∅) then Ok tt else Err OtherError, taken)
  else
    let written := pending_writes s ∪ store s in
    (Ok tt, mkS3 (foldl (fun m p => delete p m) written (pending_deletes s))
              false (read_cache s) ∅ []).

Instance S3MergeFs : MergeFs S3 := {|
  read_file := s3_read_file;
  write_file := s3_write_file;
  list_files := s3_list_files;
  exists_file := s3_exists;
  delete_file := s3_delete_file
|}.
End s3.

(** ** What [S3MergeFs] shows *)

(** The contents at a store path: a pending write, else nothing if a deletion is
    pending, else what the store has. *)
Definition s3_at (s : S3) (p : string) : option bytes :=
  match pending_writes s !! p with
  | Some c => Some c
  | None => if bool_decide (p ∈ pending_deletes s) then None else store s !! p
  end.

(** The store answers, nothing is both written and deleted, and the cache agrees
    with the store. *)
Definition s3_wf (s : S3) : Prop :=
  store_down s = false /\
  (forall p, p ∈ pending_deletes s -> pending_writes s !! p = None /\ read_cache s !! p = None) /\
  (forall p c, read_cache s !! p = Some c -> store s !! p = Some c).

Lemma new_s3_wf files : s3_wf (new_s3 files false).
Proof. split_and!; [done|by intros p ?%not_elem_of_nil|done]. Qed.

Section s3_refinement.
Variables (overlay_prefix base_prefix : string).
(** No store path belongs to two name spaces. *)
Hypothesis apart : forall x y,
  overlay_prefix +:+ x <> base_prefix +:+ y /\
  overlay_prefix +:+ x <> "versions/" +:+ y /\
  base_prefix +:+ x <> "versions/" +:+ y.

Abbreviation path := (s3_path overlay_prefix base_prefix).

Definition s3_key (k : string) : Prop := exists p, path k = Ok p.

(** The three kinds of keys and their paths. *)
Lemma s3_path_cases k p :
  path k = Ok p <->
  (exists rel, k = "overlay/" +:+ rel /\ p = overlay_prefix +:+ rel) \/
  (exists rel, k = "base/" +:+ rel /\ p = base_prefix +:+ rel) \/
  (exists ver rel, k = "snapshot/" +:+ ver +:+ "/" +:+ rel /\ has_char "/" ver = false /\
     p = "versions/" +:+ ver +:+ "/snapshot/" +:+ rel).
Proof using.
  unfold s3_path. split.
  - destruct (strip_prefix "overlay/" k) as [rel|] eqn:E1.
    { apply strip_prefix_Some in E1. intros [= <-]. left; eauto. }
    destruct (strip_prefix "base/" k) as [rel|] eqn:E2.
    { apply strip_prefix_Some in E2. intros [= <-]. right; left; eauto. }
    destruct (strip_prefix "snapshot/" k) as [rest|] eqn:E3; [|done].
    destruct (split_once "/" rest) as [[ver rel]|] eqn:E4; [|done].
    apply strip_prefix_Some in E3. apply split_once_Some in E4 as [-> Hv].
    intros [= <-]. right; right. exists ver, rel. done.
  - intros [(rel & -> & ->)|[(rel & -> & ->)|(ver & rel & -> & Hv & ->)]].
    + by rewrite strip_prefix_app.
    + by rewrite strip_prefix_app.
    + assert (H : split_once "/" (ver +:+ "/" +:+ rel) = Some (ver, rel))
        by (by apply split_once_Some).
      rewrite strip_prefix_app, H. done.
Qed.

Lemma s3_path_inj k1 k2 p : path k1 = Ok p -> path k2 = Ok p -> k1 = k2.
Proof using apart.
  rewrite !s3_path_cases.
  intros [(r1 & -> & H1)|[(r1 & -> & H1)|(v1 & r1 & -> & Hv1 & H1)]]
         [(r2 & -> & H2)|[(r2 & -> & H2)|(v2 & r2 & -> & Hv2 & H2)]]; subst p.
  all: try (exfalso; destruct (apart r1 r2) as [? _]; congruence).
  all: try (exfalso; destruct (apart r2 r1) as [? _]; congruence).
  - by apply string_app_inj_l in H2 as ->.
  - exfalso. by destruct (apart r1 (v2 +:+ "/snapshot/" +:+ r2)) as (_ & ? & _).
  - by apply string_app_inj_l in H2 as ->.
  - exfalso. by destruct (apart r1 (v2 +:+ "/snapshot/" +:+ r2)) as (_ & _ & ?).
  - exfalso. destruct (apart r2 (v1 +:+ "/snapshot/" +:+ r1)) as (_ & ? & _). congruence.
  - exfalso. destruct (apart r2 (v1 +:+ "/snapshot/" +:+ r1)) as (_ & _ & ?). congruence.
  - apply string_app_inj_l in H2.
    assert (H : forall v r, has_char "/" v = false ->
      split_once "/" (v +:+ "/snapshot/" +:+ r) = Some (v, "snapshot/" +:+ r)).
    { intros v r Hv. by apply split_once_Some. }
    pose proof (H v1 r1 Hv1) as E1. rewrite H2, H in E1 by done. injection E1 as -> H'. str_app. by subst.
Qed.

Definition s3_lookup (s : S3) (k : string) : option bytes :=
  match path k with Ok p => s3_at s p | _ => None end.

Lemma s3_read_spec s k : s3_wf s -> s3_key k -> exists s',
  s3_read_file overlay_prefix base_prefix k s =
    (match s3_lookup s k with Some c => Ok c | None => Err NotFound end, s') /\
  s3_wf s' /\ s3_lookup s' = s3_lookup s.
Proof using.
  intros Hwf [p Hp]. pose proof Hwf as (Hd & Hdis & Hc).
  unfold s3_lookup, s3_read_file, mbind, M_bind, lift, get_st. rewrite Hp. unfold s3_at.
  destruct (pending_writes s !! p) as [c|] eqn:E1; [by exists s|].
  case_bool_decide as E2; [by exists s|].
  destruct (read_cache s !! p) as [c|] eqn:E3.
  { exists s. by rewrite (Hc _ _ E3). }
  rewrite Hd. destruct (store s !! p) as [c|] eqn:E4; [|by exists s].
  eexists. split_and!; [done| |done]. split_and!; [done| |]; simpl.
  { intros p' Hp'. destruct (Hdis p' Hp'). rewrite lookup_insert_ne; [done|]. by intros <-. }
  intros p' c' [[<- <-]|[_ H]]%lookup_insert_Some; [done|by apply Hc].
Qed.

(** An update at one path is an update at one key. *)
Lemma s3_lookup_update s s' k p (o : option bytes) :
  path k = Ok p -> (forall p', s3_at s' p' = if decide (p' = p) then o else s3_at s p') ->
  forall k', s3_key k' -> s3_lookup s' k' = if decide (k' = k) then o else s3_lookup s k'.
Proof using apart.
  intros Hp Hat k' [p' Hp']. unfold s3_lookup. rewrite Hp', Hat.
  destruct (decide (k' = k)) as [->|Hk].
  - rewrite decide_True; [done|congruence].
  - rewrite decide_False; [done|]. intros ->. apply Hk. by eapply s3_path_inj.
Qed.

Lemma s3_write_spec s k c : s3_wf s -> s3_key k -> exists s',
  s3_write_file overlay_prefix base_prefix k c s = (Ok tt, s') /\ s3_wf s' /\
  forall k', s3_key k' -> s3_lookup s' k' = if decide (k' = k) then Some c else s3_lookup s k'.
Proof using apart.
  intros (Hd & Hdis & Hc) [p Hp].
  unfold s3_write_file, mbind, M_bind, lift, modify_st. rewrite Hp.
  eexists. split_and!; [done| |].
  - split_and!; [done| |done]. simpl. intros p' [Hne Hin]%list_elem_of_filter.
    rewrite lookup_insert_ne by congruence. by apply Hdis.
  - apply (s3_lookup_update _ _ _ p); [done|]. intros p'. unfold s3_at. simpl.
    destruct (decide (p' = p)) as [->|Hne]; [by rewrite lookup_insert_eq|].
    rewrite lookup_insert_ne by done. destruct (pending_writes s !! p'); [done|].
    assert (H : p' ∈ filter (fun p' => p' <> p) (pending_deletes s) <-> p' ∈ pending_deletes s)
      by (rewrite list_elem_of_filter; tauto).
    by rewrite (bool_decide_ext _ _ H).
Qed.

Lemma s3_exists_spec s k : s3_wf s -> s3_key k -> exists s',
  s3_exists overlay_prefix base_prefix k s =
    (Ok (bool_decide (is_Some (s3_lookup s k))), s') /\
  s3_wf s' /\ s3_lookup s' = s3_lookup s.
Proof using.
  intros Hwf [p Hp]. pose proof Hwf as (Hd & Hdis & Hc). exists s. split_and!; [|done..].
  unfold s3_lookup, s3_exists, mbind, M_bind, lift, get_st. rewrite Hp. unfold s3_at.
  destruct (pending_writes s !! p) as [c|] eqn:E1; [done|]. simpl.
  case_bool_decide as E2; [done|].
  destruct (read_cache s !! p) as [c|] eqn:E3; [by rewrite (Hc _ _ E3)|].
  simpl. by rewrite Hd.
Qed.

Lemma s3_delete_spec s k : s3_wf s -> s3_key k -> exists s',
  s3_delete_file overlay_prefix base_prefix k s = (Ok tt, s') /\ s3_wf s' /\
  forall k', s3_key k' -> s3_lookup s' k' = if decide (k' = k) then None else s3_lookup s k'.
Proof using apart.
  intros (Hd & Hdis & Hc) [p Hp].
  unfold s3_delete_file, mbind, M_bind, lift, modify_st. rewrite Hp.
  eexists. split_and!; [done| |].
  - split_and!; [done| |]; simpl.
    + intros p' Hin. destruct (decide (p' = p)) as [->|Hne]; [by rewrite !lookup_delete_eq|].
      rewrite !lookup_delete_ne by done. apply Hdis. revert Hin.
      case_bool_decide; [done|]. by intros [?| ->%list_elem_of_singleton]%elem_of_app.
    + intros p' c [_ H]%lookup_delete_Some. by apply Hc.
  - apply (s3_lookup_update _ _ _ p); [done|]. intros p'. unfold s3_at. simpl.
    destruct (decide (p' = p)) as [->|Hne].
    + rewrite lookup_delete_eq, bool_decide_eq_true_2; [done|].
      case_bool_decide; [done|]. apply elem_of_app. right. by left.
    + rewrite lookup_delete_ne by done. destruct (pending_writes s !! p'); [done|].
      assert (H : p' ∈ (if bool_decide (p ∈ pending_deletes s) then pending_deletes s
                       else pending_deletes s ++ [p]) <-> p' ∈ pending_deletes s).
      { case_bool_decide; [done|]. rewrite elem_of_app, list_elem_of_singleton. tauto. }
      by rewrite (bool_decide_ext _ _ H).
Qed.

Lemma trim_end_slashes_one x : has_char "/" x = false -> trim_end_slashes (x +:+ "/") = x.
Proof using.
  induction x as [|a x IH]; [done|]. rewrite string_app_cons. simpl.
  intros [Ha Hx]%orb_false_iff. rewrite IH by done. destruct x as [|b x]; [|done].
  apply bool_decide_eq_false in Ha. by rewrite (proj2 (Ascii.eqb_neq a "/") Ha).
Qed.

(** A list prefix and the store prefix that corresponds to it. *)
Definition prefix_ok (pf sp : string) : Prop :=
  s3_prefix overlay_prefix base_prefix pf = Ok (sp, pf) /\
  forall rel, path (pf +:+ rel) = Ok (sp +:+ rel).

Lemma prefix_ok_overlay : prefix_ok "overlay/" overlay_prefix.
Proof using. split; [done|]. intros rel. apply s3_path_cases. left. eauto. Qed.

Lemma prefix_ok_snapshot ver :
  has_char "/" ver = false -> ver <> EmptyString ->
  prefix_ok ("snapshot/" +:+ ver +:+ "/") ("versions/" +:+ ver +:+ "/snapshot/").
Proof using.
  intros Hv Hne. split.
  - unfold s3_prefix. rewrite strip_prefix_app, trim_end_slashes_one by done.
    by rewrite (proj2 (String.eqb_neq ver "") Hne).
  - intros rel. apply s3_path_cases. right; right. exists ver, rel.
    by rewrite <-!string_app_assoc.
Qed.

Lemma s3_list_spec s pf sp : s3_wf s -> prefix_ok pf sp -> exists s' keys,
  s3_list_files overlay_prefix base_prefix pf s = (Ok keys, s') /\ s3_wf s' /\
  s3_lookup s' = s3_lookup s /\ NoDup keys /\
  forall k, k ∈ keys <-> is_Some (s3_lookup s k) /\ exists rel, k = pf +:+ rel.
Proof using.
  intros Hwf [Hpf Hpath]. pose proof Hwf as (Hd & Hdis & Hc).
  unfold s3_list_files, mbind, M_bind, lift, get_st. rewrite Hpf, Hd.
  eexists s, _. split_and!; [done..| |].
  { unfold sorted_elements, sort_strings. rewrite sort_by_perm. apply NoDup_elements. }
  intros k. rewrite elem_of_sorted_elements, elem_of_list_to_set, list_elem_of_omap. split.
  - intros (p & [Hnd Hin]%list_elem_of_filter & Hk).
    apply bind_Some in Hk as (rel & ->%strip_prefix_Some & [= <-]). split; [|by exists rel].
    unfold s3_lookup, s3_at. rewrite Hpath. rewrite bool_decide_eq_false_2 by done.
    apply elem_of_app in Hin as [[_ Hin]%list_elem_of_filter|[_ Hin]%list_elem_of_filter];
      apply elem_of_elements, elem_of_dom in Hin as [c Hin]; rewrite Hin; [|done].
    by destruct (pending_writes s !! _).
  - intros [[c Hl] [rel ->]]. unfold s3_lookup, s3_at in Hl. rewrite Hpath in Hl.
    exists (sp +:+ rel). rewrite strip_prefix_app. split; [|done].
    assert (Hsw : starts_with sp (sp +:+ rel) = true) by (apply starts_with_spec; by exists rel).
    apply list_elem_of_filter.
    destruct (pending_writes s !! _) as [c'|] eqn:E.
    + split; [intros Hin; destruct (Hdis _ Hin); congruence|]. apply elem_of_app. right.
      apply list_elem_of_filter. rewrite Hsw. split; [done|].
      apply elem_of_elements, elem_of_dom. by exists c'.
    + case_bool_decide as Hnd; [done|]. split; [done|]. apply elem_of_app. left.
      apply list_elem_of_filter. rewrite Hsw. split; [done|].
      apply elem_of_elements, elem_of_dom. by exists c.
Qed.

Program Definition S3MergeFsSpec : @MergeFsSpec S3 (S3MergeFs overlay_prefix base_prefix) := {|
  fs_wf := s3_wf;
  fs_key := s3_key;
  fs_prefix pf := exists sp, prefix_ok pf sp;
  fs_lookup := s3_lookup;
  read_file_spec := s3_read_spec;
  write_file_spec := s3_write_spec;
  exists_file_spec := s3_exists_spec;
  delete_file_spec := s3_delete_spec
|}.
Next Obligation. intros s pf Hwf [sp Hp]. by apply (s3_list_spec s pf sp). Qed.
Next Obligation. intros rel. eexists. apply s3_path_cases. left. eauto. Qed.
Next Obligation. intros rel. eexists. apply s3_path_cases. right; left. eauto. Qed.
Next Obligation.
  intros n rel. eexists. apply s3_path_cases. right; right.
  exists ("v" +:+ print_u64 n), rel. split_and!; [|apply print_u64_no_char; done|done].
  by rewrite <-!string_app_assoc.
Qed.
Next Obligation. eexists. apply prefix_ok_overlay. Qed.
Next Obligation.
  intros n. exists ("versions/" +:+ ("v" +:+ print_u64 n) +:+ "/snapshot/").
  apply (prefix_ok_snapshot ("v" +:+ print_u64 n)); [apply print_u64_no_char; done|done].
Qed.

(** Flushing a well-formed state writes to the store exactly what the state
    shows and empties the buffers; the state still shows the same at every path
    that was not both cached and rewritten. *)
Theorem s3_flush_spec s :
  s3_wf s ->
  let '(res, s') := s3_flush s in
  res = Ok tt /\ pending_writes s' = ∅ /\ pending_deletes s' = [] /\
  (forall p, store s' !! p = s3_at s p) /\ (forall p, s3_at s' p = s3_at s p) /\
  (s3_wf s' <-> forall p c c', read_cache s !! p = Some c -> pending_writes s !! p = Some c' -> c = c').
Proof using.
  intros (Hd & Hdis & Hc). unfold s3_flush. rewrite Hd.
  set (st := foldl _ _ _).
  assert (Hst : forall p, st !! p = s3_at s p).
  { intros p. unfold st, s3_at.
    assert (Hf : forall l (m : gmap string bytes),
      foldl (fun m p => delete p m) m l !! p = if bool_decide (p ∈ l) then None else m !! p).
    { induction l as [|x l IH]; intros m; simpl; [done|]. rewrite IH.
      destruct (decide (x = p)) as [->|Hne].
      - rewrite lookup_delete_eq, (bool_decide_eq_true_2 (p ∈ p :: l)) by (by left). by case_match.
      - rewrite lookup_delete_ne by done.
        assert (Hin : p ∈ x :: l <-> p ∈ l) by (rewrite elem_of_cons; intuition congruence).
        by rewrite (bool_decide_ext _ _ Hin). }
    rewrite Hf. case_bool_decide as E; [by destruct (Hdis _ E) as [-> _]|].
    destruct (pending_writes s !! p) as [c|] eqn:Ep.
    - by rewrite (lookup_union_Some_l _ _ _ _ Ep).
    - by rewrite lookup_union_r. }
  split_and!; [done..| |].
  - intros p. unfold s3_at at 1. simpl. by rewrite lookup_empty.
  - split.
    + intros (_ & _ & Hc') p c c' Hp Hw. specialize (Hc' p c Hp). simpl in Hc'.
      rewrite Hst in Hc'. unfold s3_at in Hc'. rewrite Hw in Hc'. congruence.
    + intros Hcc. split_and!; [done|by intros p ?%not_elem_of_nil|]. simpl. intros p c Hp.
      rewrite Hst. unfold s3_at. destruct (pending_writes s !! p) as [c'|] eqn:Ew.
      { by rewrite (Hcc p c c' Hp Ew). }
      case_bool_decide as E; [|by apply Hc]. destruct (Hdis _ E). congruence.
Qed.
End s3_refinement.

(** ** Keys of the three name spaces *)

Definition okey (p : string) : string := "overlay/" +:+ p.
Definition bkey (p : string) : string := "base/" +:+ p.
Definition skey (id p : string) : string := "snapshot/" +:+ id +:+ "/" +:+ p.

Lemma okey_inj p q : okey p = okey q -> p = q.
Proof. apply string_app_inj_l. Qed.
Lemma bkey_inj p q : bkey p = bkey q -> p = q.
Proof. apply string_app_inj_l. Qed.
Lemma skey_inj id p q : skey id p = skey id q -> p = q.
Proof. unfold skey. intros E%string_app_inj_l%string_app_inj_l. by apply (string_app_inj_l "/") in E. Qed.

(** ** Sessions *)

Inductive FileOp : Type :=
  | OpRead (key : string)
  | OpExists (key : string)
  | OpWrite (key : string) (content : bytes)
  | OpDelete (key : string).

Definition op_key (op : FileOp) : string :=
  match op with OpRead k | OpExists k | OpWrite k _ | OpDelete k => k end.

(** What an operation answers. *)
Inductive FileAns : Type := AnsContent (c : option bytes) | AnsBool (b : bool) | AnsDone.

Section session.
Context {S : Type} `{MergeFs S}.

(** One operation; a missing file is an answer. *)
Definition run_op (op : FileOp) : M S IoError FileAns := fun s =>
  match op with
  | OpRead k => match read_file k s with
                | (Ok c, s') => (Ok (AnsContent (Some c)), s')
                | (Err NotFound, s') => (Ok (AnsContent None), s')
                | (Err e, s') => (Err e, s')
                | (Panic, s') => (Panic, s')
                end
  | OpExists k => (b ← exists_file k; mret (AnsBool b)) s
  | OpWrite k c => (_ ← write_file k c; mret AnsDone) s
  | OpDelete k => (_ ← delete_file k; mret AnsDone) s
  end.

Fixpoint run_ops (ops : list FileOp) : M S IoError (list FileAns) :=
  match ops with
  | [] => mret []
  | op :: ops' => a ← run_op op; rest ← run_ops ops'; mret (a :: rest)
  end.
End session.

(** The same on a function from keys to contents. *)
Definition spec_op (op : FileOp) (f : string -> option bytes) : FileAns * (string -> option bytes) :=
  match op with
  | OpRead k => (AnsContent (f k), f)
  | OpExists k => (AnsBool (bool_decide (is_Some (f k))), f)
  | OpWrite k c => (AnsDone, fun k' => if decide (k' = k) then Some c else f k')
  | OpDelete k => (AnsDone, fun k' => if decide (k' = k) then None else f k')
  end.

Fixpoint spec_ops (ops : list FileOp) (f : string -> option bytes) :
    list FileAns * (string -> option bytes) :=
  match ops with
  | [] => ([], f)
  | op :: ops' =>
      let '(a, f') := spec_op op f in
      let '(rest, f'') := spec_ops ops' f' in (a :: rest, f'')
  end.

Lemma spec_ops_ext (K : string -> Prop) ops f g :
  (forall k, K k -> f k = g k) -> Forall (fun op => K (op_key op)) ops ->
  (spec_ops ops f).1 = (spec_ops ops g).1 /\
  forall k, K k -> (spec_ops ops f).2 k = (spec_ops ops g).2 k.
Proof.
  revert f g; induction ops as [|op ops IH]; intros f g Hfg HF; [done|].
  apply Forall_cons in HF as [Hop HF]. simpl.
  destruct (spec_op op f) as [a f'] eqn:Ef. destruct (spec_op op g) as [b g'] eqn:Eg.
  assert (a = b /\ forall k, K k -> f' k = g' k) as [<- Hfg'].
  { destruct op; simpl in *; injection Ef as <- <-; injection Eg as <- <-; (split; [try done; by rewrite (Hfg _ Hop)|]);
      intros k' Hk; try case_decide; try done; by apply Hfg. }
  specialize (IH f' g' Hfg' HF). destruct (spec_ops ops f'), (spec_ops ops g'). simpl in *.
  destruct IH as [-> IH]. done.
Qed.

(** Against any implementation of the contract, a session answers as the function
    does. *)
Lemma run_ops_spec {S : Type} `{MergeFsSpec S} ops s :
  fs_wf s -> Forall (fun op => fs_key (op_key op)) ops ->
  exists s', run_ops ops s = (Ok (spec_ops ops (fs_lookup s)).1, s') /\ fs_wf s' /\
    forall k, fs_key k -> fs_lookup s' k = (spec_ops ops (fs_lookup s)).2 k.
Proof.
  revert s; induction ops as [|op ops IH]; intros s Hwf HF; [by exists s|].
  apply Forall_cons in HF as [Hop HF].
  assert (Hstep : exists s', run_op op s = (Ok (spec_op op (fs_lookup s)).1, s') /\ fs_wf s' /\
    forall k, fs_key k -> fs_lookup s' k = (spec_op op (fs_lookup s)).2 k).
  { destruct op as [k|k|k c|k]; simpl in *.
    - destruct (read_file_spec s k) as (s' & Hr & Hwf' & Hl); [done..|]. exists s'.
      rewrite Hr, Hl. by destruct (fs_lookup s k).
    - destruct (exists_file_spec s k) as (s' & Hr & Hwf' & Hl); [done..|]. exists s'.
      by rewrite (M_bind_ok _ _ _ _ _ Hr), Hl.
    - destruct (write_file_spec s k c) as (s' & Hr & Hwf' & Hl); [done..|]. exists s'.
      by rewrite (M_bind_ok _ _ _ _ _ Hr).
    - destruct (delete_file_spec s k) as (s' & Hr & Hwf' & Hl); [done..|]. exists s'.
      by rewrite (M_bind_ok _ _ _ _ _ Hr). }
  destruct Hstep as (s1 & Hr & Hwf1 & Hl1). simpl.
  destruct (IH s1 Hwf1 HF) as (s2 & Hr2 & Hwf2 & Hl2). exists s2.
  rewrite (M_bind_ok _ _ _ _ _ Hr), (M_bind_ok _ _ _ _ _ Hr2).
  destruct (spec_op op (fs_lookup s)) as [a f']. simpl in *.
  destruct (spec_ops_ext fs_key ops _ _ Hl1 HF) as [E1 E2].
  rewrite E1. destruct (spec_ops ops f') as [rest f'']. simpl in *.
  split_and!; [done..|]. intros k Hk. by rewrite Hl2, E2.
Qed.

Section s3_session.
Variables (overlay_prefix base_prefix : string).
Abbreviation fs := (S3MergeFs overlay_prefix base_prefix).
Abbreviation path := (s3_path overlay_prefix base_prefix).

(** Nothing reaches the store before a flush, and no operation touches what is at
    another path. *)
Definition frame (k : string) (s s' : S3) : Prop :=
  store s' = store s /\ forall p, path k <> Ok p -> s3_at s' p = s3_at s p.

Lemma frame_refl k s : frame k s s.
Proof using. done. Qed.

Lemma s3_read_frame k s : frame k s (s3_read_file overlay_prefix base_prefix k s).2.
Proof using.
  unfold s3_read_file, mbind, M_bind, lift, get_st.
  destruct (path k) as [p|e|]; [|done..].
  destruct (pending_writes s !! p); [done|]. case_bool_decide; [done|].
  destruct (read_cache s !! p); [done|]. destruct (store_down s) eqn:E; [done|].
  by destruct (store s !! p).
Qed.

Lemma s3_exists_frame k s : frame k s (s3_exists overlay_prefix base_prefix k s).2.
Proof using.
  unfold s3_exists, mbind, M_bind, lift, get_st. destruct (path k); [|done..].
  repeat case_match; done.
Qed.

Lemma s3_write_frame k c s : frame k s (s3_write_file overlay_prefix base_prefix k c s).2.
Proof using.
  unfold s3_write_file, mbind, M_bind, lift, modify_st.
  destruct (path k) as [p|e|] eqn:Hp; [|done..]. simpl. split; [done|].
  rewrite Hp. intros p' Hne. assert (p <> p') by congruence.
  unfold s3_at. simpl. rewrite lookup_insert_ne by done.
  assert (H' : p' ∈ filter (fun q => q <> p) (pending_deletes s) <-> p' ∈ pending_deletes s)
    by (rewrite list_elem_of_filter; intuition congruence).
  by rewrite (bool_decide_ext _ _ H').
Qed.

Lemma s3_delete_frame k s : frame k s (s3_delete_file overlay_prefix base_prefix k s).2.
Proof using.
  unfold s3_delete_file, mbind, M_bind, lift, modify_st.
  destruct (path k) as [p|e|] eqn:Hp; [|done..]. simpl. split; [done|].
  rewrite Hp. intros p' Hne. assert (p <> p') by congruence.
  unfold s3_at. simpl. rewrite lookup_delete_ne by done.
  assert (H' : p' ∈ (if bool_decide (p ∈ pending_deletes s) then pending_deletes s
                     else pending_deletes s ++ [p]) <-> p' ∈ pending_deletes s).
  { case_bool_decide; [done|]. rewrite elem_of_app, list_elem_of_singleton. intuition congruence. }
  by rewrite (bool_decide_ext _ _ H').
Qed.

Lemma s3_run_op_frame op s : frame (op_key op) s (run_op (H:=fs) op s).2.
Proof using.
  destruct op as [k|k|k c|k]; simpl.
  - pose proof (s3_read_frame k s) as Hf. destruct (s3_read_file _ _ k s) as [[|[]|] s']; done.
  - pose proof (s3_exists_frame k s) as Hf. unfold mbind, M_bind.
    by destruct (s3_exists _ _ k s) as [[] s'].
  - pose proof (s3_write_frame k c s) as Hf. unfold mbind, M_bind.
    by destruct (s3_write_file _ _ k c s) as [[] s'].
  - pose proof (s3_delete_frame k s) as Hf. unfold mbind, M_bind.
    by destruct (s3_delete_file _ _ k s) as [[] s'].
Qed.

Lemma s3_run_ops_frame ops s :
  let s' := (run_ops (H:=fs) ops s).2 in
  store s' = store s /\
  forall p, (forall op, op ∈ ops -> path (op_key op) <> Ok p) -> s3_at s' p = s3_at s p.
Proof using.
  revert s; induction ops as [|op ops IH]; intros s; [done|]. simpl.
  pose proof (s3_run_op_frame op s) as [Hs Hat]. unfold mbind, M_bind.
  destruct (run_op op s) as [[a|e|] s1]; simpl in *.
  - specialize (IH s1) as [Hs' Hat'].
    destruct (run_ops ops s1) as [[rest|e|] s2]; simpl in *; rewrite Hs', Hs; (split; [done|]);
      intros p Hp; rewrite Hat', Hat by (intros; apply Hp; by constructor); done.
  - split; [done|]. intros p Hp. apply Hat, Hp. by left.
  - split; [done|]. intros p Hp. apply Hat, Hp. by left.
Qed.
End s3_session.

(** C13. A session of reads, tests, writes and deletions on an [S3MergeFs] answers
    as if each took effect at once, although nothing is sent before the flush;
    after the flush the store holds the final content of every key and everything
    else as it was. *)
Theorem s3_session_flush overlay_prefix base_prefix files ops :
  (forall x y, overlay_prefix +:+ x <> base_prefix +:+ y /\
     overlay_prefix +:+ x <> "versions/" +:+ y /\ base_prefix +:+ x <> "versions/" +:+ y) ->
  Forall (fun op => s3_key overlay_prefix base_prefix (op_key op)) ops ->
  let fs := S3MergeFs overlay_prefix base_prefix in
  let at_ (m : gmap string bytes) k :=
    match s3_path overlay_prefix base_prefix k with Ok p => m !! p | _ => None end in
  let '(answers, final) := spec_ops ops (at_ files) in
  exists s s', run_ops ops (new_s3 files false) = (Ok answers, s) /\ store s = files /\
    s3_flush s = (Ok tt, s') /\
    (forall k, s3_key overlay_prefix base_prefix k -> at_ (store s') k = final k) /\
    (forall p, (forall op, op ∈ ops -> s3_path overlay_prefix base_prefix (op_key op) <> Ok p) ->
       store s' !! p = files !! p).
Proof.
  intros apart HF fs at_. pose (spec := S3MergeFsSpec overlay_prefix base_prefix apart).
  destruct (@run_ops_spec S3 fs spec ops (new_s3 files false)) as (s & Hr & Hwf & Hl);
    [apply new_s3_wf|done|].
  assert (H0 : forall k, @fs_lookup S3 fs spec (new_s3 files false) k = at_ files k).
  { intros k. simpl. unfold s3_lookup, at_. by destruct (s3_path _ _ k). }
  destruct (spec_ops_ext (s3_key overlay_prefix base_prefix) ops _ _ (fun k _ => H0 k) HF) as [E1 E2].
  rewrite E1 in Hr. clear E1.
  destruct (spec_ops ops (at_ files)) as [answers final]. simpl in Hr, Hl, E2.
  pose proof (s3_run_ops_frame overlay_prefix base_prefix ops (new_s3 files false)) as Hfr.
  fold fs in Hfr. rewrite Hr in Hfr. destruct Hfr as [Hst Hfr].
  pose proof (s3_flush_spec s Hwf) as Hfl.
  destruct (s3_flush s) as [res s'] eqn:Ef. destruct Hfl as (-> & _ & _ & Hat & _).
  exists s, s'. split_and!; [done..| |].
  - intros k Hk. rewrite <-E2, <-Hl by done. unfold at_. simpl. unfold s3_lookup.
    by destruct (s3_path _ _ k).
  - intros p Hp. rewrite Hat, Hfr by done. unfold s3_at. simpl. by rewrite lookup_empty.
Qed.

(** A flush keeps the cache of what it overwrites: a file read before it was
    written is read, after the flush, as it was. *)
Lemma s3_stale_read overlay_prefix base_prefix k p files old new :
  s3_path overlay_prefix base_prefix k = Ok p -> files !! p = Some old -> 
  let fs := S3MergeFs overlay_prefix base_prefix in
  let '(_, s1) := run_ops (H:=fs) [OpRead k; OpWrite k new] (new_s3 files false) in
  let '(_, s2) := s3_flush s1 in
  store s2 !! p = Some new /\ run_op (H:=fs) (OpRead k) s2 = (Ok (AnsContent (Some old)), s2).
Proof.
  intros Hp Hf. simpl. unfold mbind, M_bind. simpl.
  unfold s3_read_file, s3_write_file, mbind, M_bind, lift, get_st, put_st, mret, M_ret. rewrite Hp.
  cbn -[bool_decide]. rewrite lookup_empty, Hf. cbn -[bool_decide].
  rewrite bool_decide_eq_false_2 by apply not_elem_of_nil.
  cbn -[bool_decide union insert]. split.
  - apply lookup_union_Some_l, lookup_insert_eq.
  - rewrite lookup_empty, bool_decide_eq_false_2 by apply not_elem_of_nil.
    by rewrite lookup_insert_eq.
Qed.

(** ** Witnesses *)

Definition wit_files : gmap string bytes :=
  <["current/a"%string := bytes_of "1"]> (<["current/b"%string := bytes_of "2"]> ∅).

Definition wit_s3 : S3 :=
  mkS3 wit_files false ∅ {["current/a"%string := bytes_of "3"]} ["current/b"%string].

Lemma s3_flush_spec_witness :
  let '(res, s') := s3_flush wit_s3 in
  res = Ok tt /\ store s' !! "current/a"%string = Some (bytes_of "3") /\
  store s' !! "current/b"%string = None.
Proof.
  assert (Hwf : s3_wf wit_s3).
  { split_and!; [done| |done]. by intros p ->%list_elem_of_singleton. }
  pose proof (s3_flush_spec wit_s3 Hwf) as H.
  destruct (s3_flush wit_s3) as [res s']. destruct H as (-> & _ & _ & H & _).
  rewrite !H. done.
Defined.

Lemma s3_session_flush_witness :
  exists s s', run_ops (H:=S3MergeFs "workspaces/w/" "current/")
      [OpRead "base/a"; OpWrite "base/a" (bytes_of "3"); OpDelete "base/b"; OpExists "base/b";
       OpRead "base/a"] (new_s3 wit_files false)
    = (Ok [AnsContent (Some (bytes_of "1")); AnsDone; AnsDone; AnsBool false;
           AnsContent (Some (bytes_of "3"))], s) /\
    s3_flush s = (Ok tt, s') /\ store s' !! "current/a"%string = Some (bytes_of "3").
Proof.
  destruct (s3_session_flush "workspaces/w/" "current/" wit_files
      [OpRead "base/a"; OpWrite "base/a" (bytes_of "3"); OpDelete "base/b"; OpExists "base/b";
       OpRead "base/a"]) as (s & s' & Hr & _ & Hf & Hk & _).
  - intros x y. split_and!; intros E; discriminate E.
  - repeat constructor; eexists; reflexivity.
  - exists s, s'. split_and!; [exact Hr|exact Hf|].
    apply (Hk "base/a"%string). eexists; reflexivity.
Defined.
