(* ===== verification/MergeFsReads.v ===== *)
(** What the clients of the file abstraction that only read rely on: less than the whole
    contract of [MergeFs.MergeFsSpec], so that the local disk promises it too, on which
    directories count as existing and paths can clash. *)
From S2P Require Import Prelude RustStr MergeFs.

(** The overlay and the base: a state shows contents by key, reading finds what is shown,
    listing finds all of it, and the test for a file of the base is right for the paths that
    [rd_exact] allows. *)
Class MergeFsReads (S : Type) `{MergeFs S} : Type := {
  rd_wf : S -> Prop;
  rd_prefix : string -> Prop;
  rd_exact : (string -> option bytes) -> string -> Prop;
  rd_lookup : S -> string -> option bytes;
  rd_read s k c : rd_wf s -> (exists p, k = okey p \/ k = bkey p) -> rd_lookup s k = Some c -> exists s',
    read_file k s = (Ok c, s') /\ rd_wf s' /\ rd_lookup s' = rd_lookup s;
  rd_exists s p : rd_wf s -> rd_exact (rd_lookup s) p -> exists s',
    exists_file (bkey p) s = (Ok (bool_decide (is_Some (rd_lookup s (bkey p)))), s') /\
    rd_wf s' /\ rd_lookup s' = rd_lookup s;
  rd_list s p : rd_wf s -> rd_prefix p -> exists s' keys,
    list_files p s = (Ok keys, s') /\ rd_wf s' /\ rd_lookup s' = rd_lookup s /\
    forall k, k ∈ keys <-> is_Some (rd_lookup s k) /\ exists rel, k = p +:+ rel;
  rd_prefix_overlay : rd_prefix "overlay/"
}.

(** The whole contract is more. *)
#[export] #[refine] Instance reads_of_spec {S} `{MergeFsSpec S} : MergeFsReads S := {
  rd_wf := fs_wf; rd_prefix := fs_prefix; rd_exact _ _ := True; rd_lookup := fs_lookup
}.
Proof.
  - intros s k c Hwf (p & Hk) Hl. destruct (read_file_spec s k Hwf) as (s' & Hr & Hw & He);
      [destruct Hk as [->| ->]; [apply fs_key_overlay|apply fs_key_base]|]. exists s'. by rewrite Hr, Hl.
  - intros s p Hwf _. apply exists_file_spec; [done|apply fs_key_base].
  - intros s p Hwf Hp. destruct (list_files_spec s p Hwf Hp) as (s' & keys & Hr & Hw & He & _ & Hk). by exists s', keys.
  - apply fs_prefix_overlay.
Defined.

(** ** The local disk *)

Definition relative (p : string) : bool := negb (starts_with "/" p).

Lemma path_join_relative root rel :
  root <> EmptyString -> ends_with "/" root = false -> relative rel = true -> path_join root rel = root +:+ "/" +:+ rel.
Proof.
  unfold relative, path_join. intros Hn He Hr%negb_true_iff. rewrite Hr, He.
  destruct (String.eqb_spec root ""); [done|reflexivity].
Qed.

Lemma normalise_app a b : normalise_separators (a +:+ b) = normalise_separators a +:+ normalise_separators b.
Proof. induction a as [|x a IH]; [done|]. str_app. simpl. by rewrite IH. Qed.

Lemma normalise_length a : String.length (normalise_separators a) = String.length a.
Proof. induction a as [|x a IH]; [done|]. simpl. by rewrite IH. Qed.

Lemma normalised_suffix a b : normalise_separators (a +:+ b) = a +:+ b -> normalise_separators b = b.
Proof.
  induction a as [|x a IH]; [done|]. str_app. intros [= _ E]. by apply IH.
Qed.

Lemma str_contains_app sub a b : str_contains sub (a +:+ sub +:+ b) = true.
Proof.
  assert (Hp : forall t, starts_with sub t = true -> str_contains sub t = true).
  { intros t Ht. unfold starts_with in Ht. destruct t; simpl in *; by rewrite Ht. }
  induction a as [|x a IH]; [apply Hp, starts_with_spec; by exists b|]. str_app. simpl. rewrite IH. apply orb_true_r.
Qed.

Section disk.
Variables (vai_dir workspace_id repo_root : string).
Variable walk : gset string -> list string.
Hypothesis walk_perm : forall X, walk X ≡ₚ elements X.
Hypothesis root_named : repo_root <> EmptyString.
Hypothesis root_open : ends_with "/" repo_root = false.

Abbreviation fs := (DiskMergeFs vai_dir workspace_id repo_root walk).

Definition overlay_root : string := path_join (path_join (path_join vai_dir "workspaces") workspace_id) "overlay".

(** The paths are such as the operating system gives: no separators of another system and
    no empty names. *)
Definition disk_wf (d : Disk) : Prop :=
  forall f, f ∈ dom d -> normalise_separators f = f /\ str_contains "//" f = false.

Definition disk_lookup (d : Disk) (k : string) : option bytes :=
  match strip_prefix "overlay/" k with
  | Some rel => if relative rel then d !! (overlay_root +:+ "/" +:+ rel) else None
  | None =>
      match strip_prefix "base/" k with
      | Some rel => if relative rel then d !! (repo_root +:+ "/" +:+ rel) else None
      | None => None
      end
  end.

(** A relative path that is no directory of the base. *)
Definition no_base_dir (f : string -> option bytes) (p : string) : Prop :=
  relative p = true /\ forall q, f (bkey (p +:+ "/" +:+ q)) = None.

Lemma overlay_root_open : overlay_root <> EmptyString /\ ends_with "/" overlay_root = false.
Proof using.
  unfold overlay_root. set (x := path_join _ workspace_id). clearbody x.
  assert (E : path_join x "overlay" = x +:+ "overlay" \/ path_join x "overlay" = (x +:+ "/") +:+ "overlay").
  { unfold path_join. change (starts_with "/" "overlay") with false. cbv iota.
    destruct (_ || _); [by left|right]. by rewrite <-string_app_assoc. }
  assert (Hx : forall y, y +:+ "overlay" <> EmptyString /\ ends_with "/" (y +:+ "overlay") = false).
  { intros y. split; [by destruct y|]. induction y as [|a y IH]; [done|]. str_app. cbn [ends_with].
    rewrite IH, orb_false_r. apply String.eqb_neq. intros [= _ Hy]. by destruct y. }
  destruct E as [-> | ->]; apply Hx.
Qed.

Lemma resolve_overlay rel : relative rel = true ->
  disk_resolve vai_dir workspace_id repo_root (okey rel) = Ok (overlay_root +:+ "/" +:+ rel).
Proof using.
  intros Hr. destruct overlay_root_open. unfold disk_resolve, okey. rewrite strip_prefix_app.
  fold overlay_root. by rewrite path_join_relative.
Qed.

Lemma resolve_base rel : relative rel = true ->
  disk_resolve vai_dir workspace_id repo_root (bkey rel) = Ok (repo_root +:+ "/" +:+ rel).
Proof using root_named root_open.
  intros Hr. unfold disk_resolve. change (strip_prefix "overlay/" (bkey rel)) with (@None string). cbv iota beta.
  unfold bkey. rewrite strip_prefix_app. by rewrite path_join_relative.
Qed.

Lemma lookup_overlay d rel :
  disk_lookup d (okey rel) = if relative rel then d !! (overlay_root +:+ "/" +:+ rel) else None.
Proof using. unfold disk_lookup, okey. by rewrite strip_prefix_app. Qed.

Lemma lookup_base d rel :
  disk_lookup d (bkey rel) = if relative rel then d !! (repo_root +:+ "/" +:+ rel) else None.
Proof using.
  unfold disk_lookup. change (strip_prefix "overlay/" (bkey rel)) with (@None string). cbv iota beta.
  unfold bkey. by rewrite strip_prefix_app.
Qed.

Lemma below_root root rel d : disk_wf d -> is_Some (d !! (root +:+ "/" +:+ rel)) ->
  relative rel = true /\ normalise_separators rel = rel.
Proof using.
  intros Hwf Hf%elem_of_dom. destruct (Hwf _ Hf) as [Hn Hs]. split.
  - unfold relative. apply negb_true_iff, not_true_iff_false. rewrite starts_with_spec. intros [r ->].
    pose proof (str_contains_app "//" root r) as E. str_app. by rewrite Hs in E.
  - rewrite string_app_assoc in Hn. by apply normalised_suffix in Hn.
Qed.

Lemma elem_list_recursive d root prefix k : disk_wf d ->
  k ∈ list_recursive walk d root prefix <-> exists rel, k = prefix +:+ rel /\ is_Some (d !! (root +:+ "/" +:+ rel)).
Proof using walk_perm.
  intros Hwf. unfold list_recursive. rewrite list_elem_of_omap. setoid_rewrite walk_perm. setoid_rewrite elem_of_elements.
  split.
  - intros (f & Hf & Hk). destruct (strip_prefix (root +:+ "/") f) as [rel|] eqn:E; [|done]. injection Hk as <-.
    apply strip_prefix_Some in E as ->. rewrite <-string_app_assoc in Hf. apply elem_of_dom in Hf.
    exists rel. destruct (below_root root rel d Hwf Hf) as [_ ->]. done.
  - intros (rel & -> & Hf). destruct (below_root root rel d Hwf Hf) as [_ Hn]. exists (root +:+ "/" +:+ rel).
    split; [by apply elem_of_dom|]. rewrite string_app_assoc, strip_prefix_app. simpl. by rewrite Hn.
Qed.

Lemma is_dir_spec d p : is_dir d p = true <-> exists q, is_Some (d !! (p +:+ "/" +:+ q)).
Proof using.
  unfold is_dir. rewrite existsb_exists. setoid_rewrite <-list_elem_of_In. setoid_rewrite elem_of_elements.
  setoid_rewrite starts_with_spec. setoid_rewrite elem_of_dom. split.
  - intros (f & Hf & q & ->). exists q. by rewrite string_app_assoc.
  - intros [q Hq]. exists (p +:+ "/" +:+ q). split; [done|]. exists q. by rewrite string_app_assoc.
Qed.

Lemma no_base_dir_file d p : disk_wf d -> no_base_dir (disk_lookup d) p -> is_dir d (repo_root +:+ "/" +:+ p) = false.
Proof using.
  intros Hwf [Hp Hn]. apply not_true_iff_false. rewrite is_dir_spec. intros (q & Hq).
  assert (E : (repo_root +:+ "/" +:+ p) +:+ "/" +:+ q = repo_root +:+ "/" +:+ (p +:+ "/" +:+ q)) by by rewrite !string_app_assoc.
  rewrite E in Hq. destruct (below_root _ _ _ Hwf Hq) as [Hr _]. specialize (Hn q). rewrite lookup_base, Hr in Hn.
  rewrite Hn in Hq. by destruct Hq.
Qed.

(** The disk answers the reads of the overlay and of the base. *)
#[refine] Instance disk_reads : @MergeFsReads Disk fs := {|
  rd_wf := disk_wf;
  rd_prefix p := p = "overlay/"%string \/ p = "base/"%string;
  rd_exact := no_base_dir;
  rd_lookup := disk_lookup
|}.
Proof.
  - intros d k c Hwf (p & Hk) Hl. exists d. unfold read_file. simpl. unfold disk_read_file.
    destruct Hk as [-> | ->]; [rewrite lookup_overlay in Hl|rewrite lookup_base in Hl];
      (destruct (relative p) eqn:Hr; [|done]);
      [rewrite resolve_overlay by done|rewrite resolve_base by done]; simpl; by rewrite Hl.
  - intros d p Hwf He. exists d. destruct He as [Hr Hn]. simpl.
    unfold disk_exists. rewrite resolve_base by done. rewrite lookup_base, Hr. split; [|done].
    unfold lift, get_st, mbind, M_bind. simpl. unfold path_exists.
    by rewrite (no_base_dir_file d p Hwf (conj Hr Hn)), orb_false_r.
  - intros d p Hwf [-> | ->]; simpl; unfold disk_list_files, disk_prefix_root; simpl; fold overlay_root.
    + exists d, (list_recursive walk d overlay_root "overlay/"). split; [done|]. split; [done|]. split; [done|]. intros k.
      rewrite elem_list_recursive by done. split.
      * intros (rel & -> & Hf). split; [|by exists rel]. change ("overlay/" +:+ rel) with (okey rel).
        rewrite lookup_overlay. by destruct (below_root _ _ _ Hwf Hf) as [-> _].
      * intros [Hs [rel ->]]. change ("overlay/" +:+ rel) with (okey rel) in Hs |- *. rewrite lookup_overlay in Hs.
        destruct (relative rel); [|by destruct Hs]. by exists rel.
    + exists d, (list_recursive walk d repo_root "base/"). split; [done|]. split; [done|]. split; [done|]. intros k.
      rewrite elem_list_recursive by done. split.
      * intros (rel & -> & Hf). split; [|by exists rel]. change ("base/" +:+ rel) with (bkey rel).
        rewrite lookup_base. by destruct (below_root _ _ _ Hwf Hf) as [-> _].
      * intros [Hs [rel ->]]. change ("base/" +:+ rel) with (bkey rel) in Hs |- *. rewrite lookup_base in Hs.
        destruct (relative rel); [|by destruct Hs]. by exists rel.
  - by left.
Defined.
End disk.
