(* ===== verification/VaiDir.v ===== *)
(** The metadata directory [.vai/] that the local operations share: HEAD, the
    version and workspace metadata, the active workspace, the deletion manifests,
    the conflict records, the event log and the graph, as one state. A TOML or
    JSON file is the value it holds; instants and identifiers are drawn from
    streams. *)
From S2P Require Import Prelude RustStr Graph EventLog MergeEngine.

Inductive WorkspaceStatus : Type := WsCreated | WsActive | WsSubmitted | WsMerged | WsDiscarded.

#[export] Instance WorkspaceStatus_eq_dec : EqDecision WorkspaceStatus.
Proof. solve_decision. Defined.

Record WorkspaceMeta : Type := mkWs {
  ws_id : Uuid;
  ws_intent : string;
  base_version : string;
  ws_status : WorkspaceStatus;
  ws_created_at : DateTime;
  ws_updated_at : DateTime;
  ws_issue_id : option Uuid;
  ws_deleted_paths : list string
}.

Record VersionMeta : Type := mkVersion {
  version_id : string;
  parent_version_id : option string;
  v_intent : string;
  created_by : string;
  v_created_at : DateTime;
  merge_event_id : option N
}.

Record VaiDir : Type := mkVai {
  head_file : option string;
  versions : gmap string VersionMeta;
  workspaces : gmap string WorkspaceMeta;
  active_file : option string;
  manifests : gmap string (list string);
  conflict_files : gmap string ConflictRecord;
  log : EventLog;
  graph : GraphSnapshot;
  draws : nat;
  ticks : nat
}.

Definition set_head (h : option string) (v : VaiDir) : VaiDir :=
  mkVai h (versions v) (workspaces v) (active_file v) (manifests v) (conflict_files v) (log v)
    (graph v) (draws v) (ticks v).
Definition set_versions (x : gmap string VersionMeta) (v : VaiDir) : VaiDir :=
  mkVai (head_file v) x (workspaces v) (active_file v) (manifests v) (conflict_files v) (log v)
    (graph v) (draws v) (ticks v).
Definition set_workspaces (x : gmap string WorkspaceMeta) (v : VaiDir) : VaiDir :=
  mkVai (head_file v) (versions v) x (active_file v) (manifests v) (conflict_files v) (log v)
    (graph v) (draws v) (ticks v).
Definition set_active_file (x : option string) (v : VaiDir) : VaiDir :=
  mkVai (head_file v) (versions v) (workspaces v) x (manifests v) (conflict_files v) (log v)
    (graph v) (draws v) (ticks v).
Definition set_manifests (x : gmap string (list string)) (v : VaiDir) : VaiDir :=
  mkVai (head_file v) (versions v) (workspaces v) (active_file v) x (conflict_files v) (log v)
    (graph v) (draws v) (ticks v).
Definition set_conflict_files (x : gmap string ConflictRecord) (v : VaiDir) : VaiDir :=
  mkVai (head_file v) (versions v) (workspaces v) (active_file v) (manifests v) x (log v)
    (graph v) (draws v) (ticks v).
Definition set_log (x : EventLog) (v : VaiDir) : VaiDir :=
  mkVai (head_file v) (versions v) (workspaces v) (active_file v) (manifests v)
    (conflict_files v) x (graph v) (draws v) (ticks v).
Definition set_graph (x : GraphSnapshot) (v : VaiDir) : VaiDir :=
  mkVai (head_file v) (versions v) (workspaces v) (active_file v) (manifests v)
    (conflict_files v) (log v) x (draws v) (ticks v).
Definition set_draws (n : nat) (v : VaiDir) : VaiDir :=
  mkVai (head_file v) (versions v) (workspaces v) (active_file v) (manifests v)
    (conflict_files v) (log v) (graph v) n (ticks v).
Definition set_ticks (n : nat) (v : VaiDir) : VaiDir :=
  mkVai (head_file v) (versions v) (workspaces v) (active_file v) (manifests v)
    (conflict_files v) (log v) (graph v) (draws v) n.

Section vai.
(** The instant that the [n]-th call of [Utc::now()] returns. *)
Variable clock : nat -> DateTime.

Definition now {E} : M VaiDir E DateTime := fun v => (Ok (clock (ticks v)), set_ticks (S (ticks v)) v).

(** [log.append(kind)] on the log that is open on [.vai/event_log]. *)
Definition append_event {E} (kind : EventKind) : M VaiDir E Event :=
  t ← now;
  v ← get_st;
  let '(e, log') := append t kind (log v) in
  _ ← put_st (set_log log' v);
  mret e.

(** [repo::read_head]; [None] is the I/O error of a missing file. *)
Definition read_head (v : VaiDir) : option string := trim <$> head_file v.

(** The state after [append_event]. *)
Definition after_append (kind : EventKind) (v : VaiDir) : VaiDir :=
  set_log (append (clock (ticks v)) kind (log v)).2 (set_ticks (S (ticks v)) v).

Lemma append_event_eq {E} kind v :
  append_event (E:=E) kind v =
  (Ok (mkEvent (next_id (log v)) (clock (ticks v)) kind), after_append kind v).
Proof. done. Qed.
End vai.
