(* ===== verification/Workspace.v ===== *)
(** Workspaces ([src/src/workspace/mod.rs]): creation, listing, switching,
    discarding and the active pointer, on the metadata directory. *)
From S2P Require Import Prelude RustStr Graph EventLog VaiDir.

Definition status_as_str (s : WorkspaceStatus) : string :=
  match s with
  | WsCreated => "Created"
  | WsActive => "Active"
  | WsSubmitted => "Submitted"
  | WsMerged => "Merged"
  | WsDiscarded => "Discarded"
  end.

Inductive WorkspaceError : Type :=
  | WsIo
  | WsNotFound (msg : string)
  | NoActiveWorkspace.

Abbreviation W := (M VaiDir WorkspaceError).

Definition set_active (id : string) : W unit := modify_st (set_active_file (Some id)).

Definition read_active : W string := fun v =>
  (match active_file v with
   | None => Err NoActiveWorkspace
   | Some text =>
       let id := trim text in
       if String.eqb id "" then Err NoActiveWorkspace else Ok id
   end, v).

(** A workspace directory is there exactly with its [meta.toml]. *)
Definition read_meta (id : string) : W WorkspaceMeta := fun v =>
  (match workspaces v !! id with Some m => Ok m | None => Err WsIo end, v).

Definition write_meta (id : string) (m : WorkspaceMeta) : W unit :=
  modify_st (fun v => set_workspaces (<[id := m]> (workspaces v)) v).

Definition update_meta (m : WorkspaceMeta) : W unit :=
  v ← get_st;
  match workspaces v !! ws_id m with
  | Some _ => write_meta (ws_id m) m
  | None => fail WsIo
  end.

Definition get (id : string) : W WorkspaceMeta :=
  v ← get_st;
  match workspaces v !! id with
  | None => fail (WsNotFound id)
  | Some _ => read_meta id
  end.

Definition active_id (v : VaiDir) : option string :=
  match (read_active v).1 with Ok id => Some id | _ => None end.

Definition active : W WorkspaceMeta := id ← read_active; get id.

Section workspace.
Variable clock : nat -> DateTime.
(** The order in which the entries of a directory are read. *)
Variable read_dir : gmap string WorkspaceMeta -> list WorkspaceMeta.

Definition create_with_id (intent base : string) (id : Uuid) : W WorkspaceMeta :=
  t ← now clock;
  let meta := mkWs id intent base WsCreated t t None [] in
  _ ← write_meta id meta;
  _ ← append_event clock (WorkspaceCreated id intent base);
  _ ← set_active id;
  mret meta.

(** [Uuid::new_v4()] draws the next identifier of the stream. *)
Definition create (uuid : nat -> Uuid) (intent base : string) : W WorkspaceMeta :=
  v ← get_st;
  _ ← put_st (set_draws (S (draws v)) v);
  create_with_id intent base (uuid (draws v)).

Definition is_inactive (m : WorkspaceMeta) : bool :=
  bool_decide (ws_status m = WsDiscarded) || bool_decide (ws_status m = WsMerged).

Definition list_filtered (include_inactive : bool) (v : VaiDir) : list WorkspaceMeta :=
  sort_by (fun a b => (ws_created_at b <=? ws_created_at a)%Z)
    (filter (fun m => include_inactive || negb (is_inactive m) = true) (read_dir (workspaces v))).

Definition list_active : VaiDir -> list WorkspaceMeta := list_filtered false.
Definition list_all : VaiDir -> list WorkspaceMeta := list_filtered true.

Definition switch (id : string) : W WorkspaceMeta :=
  meta ← get id;
  if is_inactive meta then
    fail (WsNotFound (id +:+ " (workspace is " +:+ status_as_str (ws_status meta) +:+
                      ", cannot switch to it)"))
  else _ ← set_active id; mret meta.

Definition discard (id : string) (reason : option string) : W WorkspaceMeta :=
  v ← get_st;
  match workspaces v !! id with
  | None => fail (WsNotFound id)
  | Some meta =>
      _ ← append_event clock (WorkspaceDiscarded (ws_id meta)
            (default "discarded by user"%string reason));
      t ← now clock;
      let meta' := mkWs (ws_id meta) (ws_intent meta) (base_version meta) WsDiscarded
                     (ws_created_at meta) t (ws_issue_id meta) (ws_deleted_paths meta) in
      _ ← write_meta id meta';
      _ ← modify_st (fun v => set_manifests (delete id (manifests v))
                                (set_workspaces (delete id (workspaces v)) v));
      v' ← get_st;
      _ ← (if bool_decide (active_id v' = Some id)
           then modify_st (set_active_file None) else mret tt);
      mret meta'
  end.
End workspace.

(** ** Invariant *)

(** A UUID's text has no white space around it. *)
Definition id_ok (id : string) : Prop := trim id = id /\ id <> EmptyString.

(** Each directory holds its own workspace, discarded workspaces leave none, each
    workspace has its creation event, and the active pointer, when there is one,
    leads to a workspace that is neither merged nor discarded. *)
Record workspaces_wf (v : VaiDir) : Prop := {
  ww_id k m : workspaces v !! k = Some m -> ws_id m = k /\ id_ok k /\ ws_status m <> WsDiscarded;
  ww_event k m : workspaces v !! k = Some m ->
    exists e, e ∈ log v /\ ev_kind e = WorkspaceCreated k (ws_intent m) (base_version m);
  ww_active id : active_id v = Some id ->
    exists m, workspaces v !! id = Some m /\ is_inactive m = false;
  ww_log : log_wf (log v)
}.

Lemma active_id_set id v : id_ok id -> active_id (set_active_file (Some id) v) = Some id.
Proof.
  intros [Ht Hne]. unfold active_id, read_active. simpl. rewrite Ht.
  by apply String.eqb_neq in Hne as ->.
Qed.

Lemma append_log_mono clock kind v e : e ∈ log v -> e ∈ log (after_append clock kind v).
Proof. intros He. unfold after_append, append. simpl. rewrite elem_of_app. by left. Qed.

Lemma after_append_log_wf clock kind v : log_wf (log v) -> log_wf (log (after_append clock kind v)).
Proof. intros H. by apply append_wf. Qed.

#[export] Hint Resolve append_log_mono after_append_log_wf : vai.

Section steps.
Variable clock : nat -> DateTime.

Lemma create_with_id_eq intent base id v :
  let m := mkWs id intent base WsCreated (clock (ticks v)) (clock (ticks v)) None [] in
  create_with_id clock intent base id v =
  (Ok m, set_active_file (Some id) (after_append clock (WorkspaceCreated id intent base)
           (set_workspaces (<[id := m]> (workspaces v)) (set_ticks (S (ticks v)) v)))).
Proof. done. Qed.

Lemma create_with_id_wf intent base id v :
  id_ok id -> workspaces_wf v -> workspaces_wf (create_with_id clock intent base id v).2.
Proof.
  intros Hid Hwf. rewrite create_with_id_eq. simpl.
  set (m := mkWs _ _ _ _ _ _ _ _). constructor; simpl.
  - intros k m' [[<- <-]|[_ Hk]]%lookup_insert_Some; [done|]. by apply Hwf.
  - intros k m' [[<- <-]|[_ Hk]]%lookup_insert_Some.
    + eexists. split; [apply elem_of_app; right; by left|done].
    + destruct (ww_event v Hwf k m' Hk) as (e & He & Hek). exists e.
      split; [apply elem_of_app; by left|done].
  - intros id'. rewrite active_id_set by done. intros [= <-]. exists m.
    by rewrite lookup_insert_eq.
  - apply (append_wf (clock (S (ticks v))) (WorkspaceCreated id intent base)), Hwf.
Qed.

Lemma switch_eq id v :
  switch id v =
  match workspaces v !! id with
  | None => (Err (WsNotFound id), v)
  | Some m =>
      if is_inactive m then
        (Err (WsNotFound (id +:+ " (workspace is " +:+ status_as_str (ws_status m) +:+
                          ", cannot switch to it)")), v)
      else (Ok m, set_active_file (Some id) v)
  end.
Proof.
  unfold switch, get, mbind, M_bind, get_st, read_meta, fail. simpl.
  destruct (workspaces v !! id) as [m|] eqn:E; [|done]. rewrite E. by destruct (is_inactive m).
Qed.

Lemma switch_wf id v : workspaces_wf v -> workspaces_wf (switch id v).2.
Proof.
  intros Hwf. rewrite switch_eq. destruct (workspaces v !! id) as [m|] eqn:E; [|done].
  destruct (is_inactive m) eqn:Hi; [done|].
  pose proof Hwf as [Hid Hev _ Hl]. constructor; simpl; [done..| |done].
  intros id'. destruct (Hid _ _ E) as (_ & Hok & _). rewrite active_id_set by done.
  intros [= <-]. by exists m.
Qed.

Lemma discard_eq id reason v :
  discard clock id reason v =
  match workspaces v !! id with
  | None => (Err (WsNotFound id), v)
  | Some m =>
      let v1 := after_append clock (WorkspaceDiscarded (ws_id m)
                  (default "discarded by user"%string reason)) v in
      let m' := mkWs (ws_id m) (ws_intent m) (base_version m) WsDiscarded
                  (ws_created_at m) (clock (ticks v1)) (ws_issue_id m) (ws_deleted_paths m) in
      let v2 := set_manifests (delete id (manifests v))
                  (set_workspaces (delete id (workspaces v)) (set_ticks (S (ticks v1)) v1)) in
      (Ok m', if bool_decide (active_id v = Some id) then set_active_file None v2 else v2)
  end.
Proof.
  unfold discard, mbind at 1, M_bind at 1, get_st at 1.
  destruct (workspaces v !! id) as [m|] eqn:E; [|done].
  assert (Hd : delete id (<[id:=m]> (workspaces v)) = delete id (workspaces v)) by apply delete_insert_eq.
  unfold write_meta, now, modify_st, get_st, mbind, M_bind. rewrite append_event_eq. simpl.
  rewrite !delete_insert_eq. unfold active_id, read_active. simpl.
  case_bool_decide; done.
Qed.

Lemma discard_wf id reason v : workspaces_wf v -> workspaces_wf (discard clock id reason v).2.
Proof.
  intros Hwf. rewrite discard_eq. destruct (workspaces v !! id) as [m|] eqn:E; [|done].
  pose proof Hwf as [Hid Hev Hac Hl]. cbn zeta.
  set (v1 := after_append _ _ _).
  assert (Hl1 : log_wf (log v1)) by (by apply after_append_log_wf).
  assert (Hev1 : forall k m', workspaces v !! k = Some m' ->
    exists e, e ∈ log v1 /\ ev_kind e = WorkspaceCreated k (ws_intent m') (base_version m')).
  { intros k m' Hk. destruct (Hev k m' Hk) as (e & He & Hek). exists e. split; [|done].
    by apply append_log_mono. }
  case_bool_decide as Ha; (constructor; cbn -[active_id v1]; [| | |done]).
  1, 4: intros k m' [_ Hk]%lookup_delete_Some; by apply Hid.
  1, 3: intros k m' [_ Hk]%lookup_delete_Some; by apply Hev1.
  - intros id'. done.
  - intros id' Hid'. change (active_id v = Some id') in Hid'.
    destruct (Hac id' Hid') as (m' & Hm' & Hi). exists m'. split; [|done].
    rewrite lookup_delete_ne; [done|]. congruence.
Qed.

(** The operations on workspaces, in any order. *)
Inductive workspace_step : VaiDir -> VaiDir -> Prop :=
  | ws_step_create intent base id v :
      id_ok id -> workspace_step v (create_with_id clock intent base id v).2
  | ws_step_switch id v : workspace_step v (switch id v).2
  | ws_step_discard id reason v : workspace_step v (discard clock id reason v).2.

(** However workspaces are created, switched and discarded: every directory
    holds its own workspace with its creation in the log, a discarded workspace
    leaves nothing behind, the active pointer always leads to a live workspace, and
    the event ids increase. *)
Theorem workspace_steps_wf v v' :
  workspaces_wf v -> rtc workspace_step v v' -> workspaces_wf v'.
Proof.
  intros Hwf Hr. induction Hr as [|v1 v2 v3 Hs _ IH]; [done|]. apply IH.
  destruct Hs; auto using create_with_id_wf, switch_wf, discard_wf.
Qed.
End steps.

(** ** Witness *)

Definition empty_vai : VaiDir :=
  mkVai (Some "v1"%string) ∅ ∅ None ∅ ∅ [] (mkSnapshot [] []) 0 0.

Lemma empty_vai_wf : workspaces_wf empty_vai.
Proof. constructor; try (intros; done). constructor. Qed.

Lemma workspace_steps_wf_witness :
  let c n := Z.of_nat n in
  workspaces_wf (discard c "w1" None (create_with_id c "fix" "v1" "w1" empty_vai).2).2.
Proof.
  intros c. apply (workspace_steps_wf c empty_vai); [apply empty_vai_wf|].
  eapply rtc_l; [apply (ws_step_create c "fix" "v1" "w1"); vm_compute; split; [reflexivity|discriminate]|].
  apply rtc_once. apply (ws_step_discard c "w1" None).
Defined.
