(* ===== verification/Version.v ===== *)
(** The version history ([src/src/version/mod.rs]): version files, the changes of a
    version read back from the event log, differences of versions, the impact of a
    rollback, and the rollback itself, which works on the project files directly. *)
From S2P Require Import Prelude RustStr Graph EventLog VaiDir MergeFs Workspace.

Inductive VersionError : Type :=
  | VIo
  | VNotFound (version_id : string).

Inductive VersionChangeType : Type := VcAdded | VcModified | VcRemoved.

#[export] Instance VersionChangeType_eq_dec : EqDecision VersionChangeType.
Proof. solve_decision. Defined.

Definition sigil (t : VersionChangeType) : string :=
  match t with VcAdded => "+" | VcModified => "~" | VcRemoved => "-" end.
Definition change_label (t : VersionChangeType) : string :=
  match t with VcAdded => "added" | VcModified => "modified" | VcRemoved => "removed" end.

Record VersionEntityChange : Type := mkVEC {
  vec_entity_id : string;
  vec_change_type : VersionChangeType;
  vec_kind : option string;
  vec_qualified_name : option string;
  vec_file_path : option string;
  vec_change_description : option string
}.

Record VersionFileChange : Type := mkVFC {
  vfc_path : string;
  vfc_change_type : VersionChangeType;
  vfc_hash : option string
}.

Record VersionChanges : Type := mkChanges {
  vc_version : VersionMeta;
  entity_changes : list VersionEntityChange;
  file_changes : list VersionFileChange
}.

Inductive RiskLevel : Type := RiskLow | RiskMedium | RiskHigh.

Definition risk_symbol (r : RiskLevel) : string :=
  match r with RiskLow => "ℹ" | RiskMedium => "⚠" | RiskHigh => "✖" end.

Record ImpactItem : Type := mkImpact {
  im_version_id : string;
  im_intent : string;
  im_overlapping_entities : list string;
  im_overlapping_files : list string;
  im_risk : RiskLevel
}.

Record ImpactAnalysis : Type := mkAnalysis {
  target_version : VersionMeta;
  target_changes : VersionChanges;
  downstream_impacts : list ImpactItem
}.

Record RollbackResult : Type := mkRollback {
  new_version : VersionMeta;
  files_restored : nat;
  files_deleted : nat
}.

(** ** Version files *)

Definition parse_version_number (version_id : string) : N :=
  default 0%N (strip_prefix "v" version_id ≫= parse_u64).

Section version.
Variable clock : nat -> DateTime.
(** The order in which the version files are read. *)
Variable read_dir : gmap string VersionMeta -> list VersionMeta.

Definition create_version {E} (vid : string) (parent : option string) (intent by_ : string)
    (event : option N) : M VaiDir E VersionMeta :=
  t ← now clock;
  let meta := mkVersion vid parent intent by_ t event in
  _ ← modify_st (fun v => set_versions (<[vid := meta]> (versions v)) v);
  mret meta.

Definition list_versions (v : VaiDir) : list VersionMeta :=
  sort_by (fun a b => (parse_version_number (version_id a) <=? parse_version_number (version_id b))%N)
    (read_dir (versions v)).

Definition get_version (v : VaiDir) (vid : string) : outcome VersionError VersionMeta :=
  match versions v !! vid with Some m => Ok m | None => Err (VNotFound vid) end.

(** [max + 1] on [u64], as a release build computes it. *)
Definition next_version_id (v : VaiDir) : string :=
  let max := foldr N.max 0%N (parse_version_number ∘ version_id <$> list_versions v) in
  "v" +:+ print_u64 ((max + 1) mod u64_bound).

(** ** The changes of a version *)

Definition entity_change_of (k : EventKind) : option VersionEntityChange :=
  match k with
  | EntityAdded _ e =>
      Some (mkVEC (es_id e) VcAdded (Some (es_kind e)) (Some (es_qualified_name e))
                  (Some (es_file_path e)) None)
  | EntityModified _ id d => Some (mkVEC id VcModified None None None (Some d))
  | EntityRemoved _ id => Some (mkVEC id VcRemoved None None None None)
  | _ => None
  end.

Definition file_change_of (k : EventKind) : option VersionFileChange :=
  match k with
  | FileAdded _ p h => Some (mkVFC p VcAdded (Some h))
  | FileModified _ p _ h => Some (mkVFC p VcModified (Some h))
  | FileRemoved _ p => Some (mkVFC p VcRemoved None)
  | _ => None
  end.

(** [file_change_map], in which later events win. *)
Definition file_change_map (events : list Event) : gmap string VersionFileChange :=
  foldl (fun m e => match file_change_of (ev_kind e) with
                    | Some c => <[vfc_path c := c]> m
                    | None => m
                    end) ∅ events.

Definition get_version_changes (v : VaiDir) (vid : string) : outcome VersionError VersionChanges :=
  version ← get_version v vid;
  match merge_event_id version with
  | None => Ok (mkChanges version [] [])
  | Some id =>
      match get_by_id (log v) id ≫= fun e => event_workspace_id (ev_kind e) with
      | None => Ok (mkChanges version [] [])
      | Some w =>
          let events := query_by_workspace (log v) w in
          let m := file_change_map events in
          Ok (mkChanges version (omap (entity_change_of ∘ ev_kind) events)
                (omap (fun p => m !! p) (sorted_elements (dom m))))
      end
  end.

Fixpoint versions_diff_loop (v : VaiDir) (n_a n_b : N) (all : list VersionMeta) :
    outcome VersionError (list VersionChanges) :=
  match all with
  | [] => Ok []
  | m :: all' =>
      let n := parse_version_number (version_id m) in
      if (n_a <? n)%N && (n <=? n_b)%N then
        c ← get_version_changes v (version_id m);
        rest ← versions_diff_loop v n_a n_b all';
        Ok (c :: rest)
      else versions_diff_loop v n_a n_b all'
  end.

Definition get_versions_diff (v : VaiDir) (a b : string) : outcome VersionError (list VersionChanges) :=
  let n_a := parse_version_number a in
  let n_b := parse_version_number b in
  if (n_b <=? n_a)%N then Ok [] else versions_diff_loop v n_a n_b (list_versions v).

(** ** Impact of a rollback *)

Definition impact_of (entity_ids paths : gset string) (m : VersionMeta) (c : VersionChanges) :
    option ImpactItem :=
  let ents := (fun ec => default (vec_entity_id ec) (vec_qualified_name ec)) <$>
    filter (fun ec => vec_entity_id ec ∈ entity_ids) (entity_changes c) in
  let files := vfc_path <$> filter (fun fc => vfc_path fc ∈ paths) (file_changes c) in
  match ents, files with
  | [], [] => None
  | _, _ => Some (mkImpact (version_id m) (v_intent m) ents files
                   (match ents with [] => RiskLow | _ => RiskHigh end))
  end.

Fixpoint impact_loop (v : VaiDir) (target_num : N) (entity_ids paths : gset string)
    (all : list VersionMeta) : outcome VersionError (list ImpactItem) :=
  match all with
  | [] => Ok []
  | m :: all' =>
      if (parse_version_number (version_id m) <=? target_num)%N
      then impact_loop v target_num entity_ids paths all'
      else
        c ← get_version_changes v (version_id m);
        rest ← impact_loop v target_num entity_ids paths all';
        Ok (match impact_of entity_ids paths m c with Some i => i :: rest | None => rest end)
  end.

Definition analyze_rollback_impact (v : VaiDir) (vid : string) : outcome VersionError ImpactAnalysis :=
  changes ← get_version_changes v vid;
  let entity_ids := list_to_set (vec_entity_id <$> entity_changes changes) in
  let paths := list_to_set (vfc_path <$> file_changes changes) in
  impacts ← impact_loop v (parse_version_number vid) entity_ids paths (list_versions v);
  Ok (mkAnalysis (vc_version changes) changes impacts).

(** ** Rollback *)

Variables (vai_dir repo_root : string).

Definition snapshot_file (vid path : string) : string :=
  path_join (path_join (path_join (path_join vai_dir "versions") vid) "snapshot") path.
Definition project_file (path : string) : string := path_join repo_root path.

(** [create_dir_all(dest.parent())] and [copy(src, dest)]. *)
Definition copy_file (src dest : string) : M Disk VersionError unit := fun d =>
  match d !! src with
  | None => (Err VIo, d)
  | Some c =>
      if is_dir d dest || below_file d dest then (Err VIo, d) else (Ok tt, <[dest := c]> d)
  end.

Definition remove_project_file (dest : string) : M Disk VersionError unit := fun d =>
  match d !! dest with
  | Some _ => (Ok tt, delete dest d)
  | None => (Err VIo, d)
  end.

(** The files one change restores and deletes. *)
Definition rollback_change (vid : string) (c : VersionFileChange) : M Disk VersionError (nat * nat) :=
  d ← get_st;
  let dest := project_file (vfc_path c) in
  match vfc_change_type c with
  | VcAdded =>
      if path_exists d dest then _ ← remove_project_file dest; mret (0, 1) else mret (0, 0)
  | VcModified | VcRemoved =>
      let src := snapshot_file vid (vfc_path c) in
      if path_exists d src then _ ← copy_file src dest; mret (1, 0) else mret (0, 0)
  end.

Fixpoint rollback_files (vid : string) (filtered : option (gset string))
    (cs : list VersionFileChange) (restored deleted : nat) : M Disk VersionError (nat * nat) :=
  match cs with
  | [] => mret (restored, deleted)
  | c :: cs' =>
      if match filtered with Some allowed => bool_decide (vfc_path c ∉ allowed) | None => false end
      then rollback_files vid filtered cs' restored deleted
      else '(r, x) ← rollback_change vid c;
           rollback_files vid filtered cs' (restored + r) (deleted + x)
  end.

(** The files of the entities that the filter names. *)
Definition filter_files (name : string) (c : VersionChanges) : gset string :=
  list_to_set (omap vec_file_path
    (filter (fun ec => vec_qualified_name ec = Some name \/ str_contains name (vec_entity_id ec) = true)
       (entity_changes c))).

(** What follows the file changes: the events, the new version and HEAD. *)
Definition rollback_commit (vid : string) (entity_filter : option string) :
    M VaiDir VersionError VersionMeta :=
  v ← get_st;
  match read_head v with
  | None => fail VIo
  | Some hd =>
      let new_id := next_version_id v in
      _ ← append_event clock (RollbackCreated vid new_id entity_filter);
      _ ← append_event clock (VersionCreated new_id (Some hd) ("rollback " +:+ vid));
      meta ← create_version new_id (Some hd) ("rollback " +:+ vid) "agent" None;
      _ ← modify_st (set_head (Some (new_id +:+ String LF EmptyString)));
      mret meta
  end.

Definition rollback (vid : string) (entity_filter : option string) :
    M (VaiDir * Disk) VersionError RollbackResult := fun '(v, d) =>
  match get_version_changes v vid with
  | Err e => (Err e, (v, d))
  | Panic => (Panic, (v, d))
  | Ok changes =>
      let filtered := (fun name => filter_files name changes) <$> entity_filter in
      match rollback_files vid filtered (file_changes changes) 0 0 d with
      | (Ok (restored, deleted), d') =>
          match rollback_commit vid entity_filter v with
          | (Ok meta, v') => (Ok (mkRollback meta restored deleted), (v', d'))
          | (Err e, v') => (Err e, (v', d'))
          | (Panic, v') => (Panic, (v', d'))
          end
      | (Err e, d') => (Err e, (v, d'))
      | (Panic, d') => (Panic, (v, d'))
      end
  end.
End version.

(** ** Numbers and names of versions *)

Lemma parse_version_print n : (n < u64_bound)%N -> parse_version_number ("v" +:+ print_u64 n) = n.
Proof.
  intros Hn. unfold parse_version_number. rewrite strip_prefix_app. simpl.
  by rewrite parse_print_u64.
Qed.

Lemma next_version_id_trim read_dir v :
  trim (next_version_id read_dir v +:+ String LF EmptyString) = next_version_id read_dir v.
Proof.
  apply trim_plain_line; [|done]. unfold next_version_id.
  set (n := (_ mod _)%N). change (Forall (fun a => plain_char a = true) ("v"%char :: bytes_of (print_u64 n))).
  constructor; [done|apply print_u64_plain].
Qed.

Definition versions_wf (v : VaiDir) : Prop :=
  forall k m, versions v !! k = Some m -> version_id m = k.

Definition dir_ok (read_dir : gmap string VersionMeta -> list VersionMeta) : Prop :=
  forall t, read_dir t ≡ₚ (map_to_list t).*2.

Lemma foldr_max_elem (l : list N) : l <> [] -> foldr N.max 0%N l ∈ l.
Proof.
  induction l as [|x l IH]; [done|]. intros _. simpl. rewrite elem_of_cons.
  destruct l as [|y l]; [left; simpl; lia|].
  destruct (N.max_spec x (foldr N.max 0%N (y :: l))) as [[_ ->]|[_ ->]]; [|by left].
  right. by apply IH.
Qed.

Section facts.
Variable read_dir : gmap string VersionMeta -> list VersionMeta.
Hypothesis Hdir : dir_ok read_dir.

Lemma list_versions_elem v m :
  m ∈ list_versions read_dir v <-> exists k, versions v !! k = Some m.
Proof using Hdir.
  unfold list_versions. rewrite sort_by_elem_of, (Hdir (versions v)), list_elem_of_fmap. split.
  - intros ([k m'] & -> & Hm%elem_of_map_to_list). eauto.
  - intros (k & Hm). exists (k, m). by rewrite elem_of_map_to_list.
Qed.

Lemma list_versions_sorted v :
  StronglySorted (fun a b => parse_version_number (version_id a) <= parse_version_number (version_id b))%N
    (list_versions read_dir v).
Proof using.
  eapply StronglySorted_mono; [|apply sort_by_sorted].
  - intros x y. simpl. by rewrite Is_true_true, N.leb_le.
  - intros x y. rewrite N.leb_gt, N.leb_le. lia.
  - intros x y z. rewrite !N.leb_le. lia.
Qed.

(** The next version id is new: its number is one more than the largest there
    is, and no version file has its name, as long as the numbers fit 64 bits. *)
Theorem next_version_id_fresh v :
  versions_wf v ->
  (forall k m, versions v !! k = Some m -> parse_version_number k + 1 < u64_bound)%N ->
  let n := parse_version_number (next_version_id read_dir v) in
  versions v !! next_version_id read_dir v = None /\
  (forall k m, versions v !! k = Some m -> parse_version_number k < n)%N /\
  (versions v = ∅ -> n = 1%N) /\
  (versions v <> ∅ -> exists k m, versions v !! k = Some m /\ n = (parse_version_number k + 1)%N).
Proof using Hdir.
  intros Hwf Hb. unfold next_version_id.
  set (nums := parse_version_number ∘ version_id <$> list_versions read_dir v).
  set (mx := foldr N.max 0%N nums). simpl.
  assert (Hin : forall x, x ∈ nums <-> exists k m, versions v !! k = Some m /\ x = parse_version_number k).
  { intros x. unfold nums. rewrite list_elem_of_fmap. setoid_rewrite list_versions_elem. split.
    - intros (m & -> & k & Hm). exists k, m. simpl. by rewrite (Hwf _ _ Hm).
    - intros (k & m & Hm & ->). exists m. simpl. rewrite (Hwf _ _ Hm). eauto. }
  assert (Hle : forall k m, versions v !! k = Some m -> (parse_version_number k <= mx)%N).
  { intros k m Hk. apply foldr_max_ge, Hin. eauto. }
  assert (Hmx : (mx + 1 < u64_bound)%N).
  { destruct (decide (nums = [])) as [E|E]; [unfold mx; by rewrite E|].
    destruct (proj1 (Hin mx) (foldr_max_elem _ E)) as (k & m & Hk & ->). by eapply Hb. }
  rewrite N.mod_small by done. rewrite parse_version_print by done.
  assert (Hlt : forall k m, versions v !! k = Some m -> (parse_version_number k < mx + 1)%N).
  { intros k m Hk. specialize (Hle k m Hk). lia. }
  split_and!; [|done| |].
  - destruct (versions v !! _) as [m|] eqn:E; [|done]. specialize (Hlt _ _ E).
    rewrite parse_version_print in Hlt by done. lia.
  - intros E. destruct (decide (nums = [])) as [E'|E']; [unfold mx; by rewrite E'|].
    destruct (proj1 (Hin mx) (foldr_max_elem _ E')) as (k & m & Hk & _). by rewrite E in Hk.
  - intros (k & m & Hk)%map_choose.
    assert (E' : nums <> []).
    { intros E'. assert (Hx : parse_version_number k ∈ nums) by (apply Hin; eauto).
      rewrite E' in Hx. by apply not_elem_of_nil in Hx. }
    destruct (proj1 (Hin mx) (foldr_max_elem _ E')) as (k' & m' & Hk' & ->). eauto.
Qed.

(** ** Changes *)

Lemma file_change_map_spec events p :
  file_change_map events !! p =
  last (filter (fun c => vfc_path c = p) (omap (file_change_of ∘ ev_kind) events)).
Proof using.
  unfold file_change_map. induction events as [|e events IH] using rev_ind.
  { simpl. by rewrite lookup_empty. }
  rewrite foldl_snoc, omap_app. simpl. destruct (file_change_of (ev_kind e)) as [c|]; simpl.
  - rewrite filter_app, filter_cons, filter_nil. case_decide as Hp.
    + by rewrite Hp, lookup_insert_eq, last_snoc.
    + by rewrite lookup_insert_ne, app_nil_r by done.
  - by rewrite app_nil_r.
Qed.

Lemma get_version_changes_ok v vid m :
  versions v !! vid = Some m ->
  exists c, get_version_changes v vid = Ok c /\ vc_version c = m.
Proof using.
  intros Hm. unfold get_version_changes, get_version. rewrite Hm. simpl.
  destruct (merge_event_id m) as [id|]; [|eauto].
  destruct (get_by_id (log v) id ≫= _); eauto.
Qed.

(** The changes of a version produced by a merge are those its workspace's
    events record: for each file one change, that of the last event about it, in
    the order of the paths; and every entity event, in the order of the log. *)
Theorem get_version_changes_spec v vid m id e w :
  versions v !! vid = Some m -> merge_event_id m = Some id ->
  get_by_id (log v) id = Some e -> event_workspace_id (ev_kind e) = Some w ->
  exists c, get_version_changes v vid = Ok c /\ vc_version c = m /\
    let events := query_by_workspace (log v) w in
    entity_changes c = omap (entity_change_of ∘ ev_kind) events /\
    StronglySorted (fun a b => String.leb (vfc_path a) (vfc_path b) = true /\ vfc_path a <> vfc_path b)
      (file_changes c) /\
    forall fc, fc ∈ file_changes c <->
      last (filter (fun c => vfc_path c = vfc_path fc)
              (omap (file_change_of ∘ ev_kind) events)) = Some fc.
Proof using.
  intros Hm Hid He Hw. unfold get_version_changes, get_version. rewrite Hm. simpl.
  rewrite Hid, He. simpl. rewrite Hw. eexists. split_and!; [done..| |]; simpl.
  all: set (events := query_by_workspace (log v) w); set (fm := file_change_map events).
  all: assert (Hkey : forall p c, fm !! p = Some c -> vfc_path c = p)
    by (intros p c; unfold fm; rewrite file_change_map_spec; intros Hl;
        apply last_Some_elem_of in Hl; by apply list_elem_of_filter in Hl as [? _]).
  - assert (Hs : StronglySorted (fun x y => String.leb x y = true /\ x <> y)
        (sorted_elements (dom fm))).
    { apply StronglySorted_conj.
      - eapply StronglySorted_mono;
          [|apply (sort_by_sorted String.leb string_leb_total string_leb_trans)].
        intros x y. by rewrite Is_true_true.
      - assert (Hnd : NoDup (sorted_elements (dom fm))).
        { unfold sorted_elements, sort_strings. rewrite sort_by_perm. apply NoDup_elements. }
        clear -Hnd. induction Hnd as [|x l Hx Hnd IH]; constructor; [done|].
        apply Forall_forall. intros y Hy ->. done. }
    induction Hs as [|x l Hs IH HF]; simpl; [constructor|].
    destruct (fm !! x) as [c|] eqn:Ex; simpl; [|done]. constructor; [done|].
    apply Forall_forall. intros c' (y & Hy & Hc')%list_elem_of_omap.
    rewrite (Hkey _ _ Ex), (Hkey _ _ Hc'). rewrite Forall_forall in HF. by apply HF.
  - intros fc. rewrite list_elem_of_omap, <-file_change_map_spec. fold fm. split.
    + intros (p & _ & Hp). by rewrite (Hkey _ _ Hp).
    + intros Hf. exists (vfc_path fc). split; [|done].
      apply elem_of_sorted_elements, elem_of_dom. eauto.
Qed.
End facts.

Section history.
Variable read_dir : gmap string VersionMeta -> list VersionMeta.
Hypothesis Hdir : dir_ok read_dir.

Lemma versions_diff_loop_ok v n_a n_b all :
  (forall m, m ∈ all -> versions v !! version_id m = Some m) ->
  exists cs, versions_diff_loop v n_a n_b all = Ok cs /\
    vc_version <$> cs =
      filter (fun m => n_a < parse_version_number (version_id m) <= n_b)%N all /\
    Forall (fun c => get_version_changes v (version_id (vc_version c)) = Ok c) cs.
Proof using.
  induction all as [|m all IH]; intros Hall; [by exists []|].
  destruct IH as (cs & Hcs & Hv & HF); [intros m' Hm'; apply Hall; by right|].
  simpl. rewrite filter_cons.
  destruct (N.ltb_spec n_a (parse_version_number (version_id m)));
    destruct (N.leb_spec (parse_version_number (version_id m)) n_b); simpl.
  2, 3, 4: exists cs; rewrite decide_False by lia; done.
  rewrite decide_True by lia.
  destruct (get_version_changes_ok v (version_id m) m) as (c & Hc & Hcm); [apply Hall; by left|].
  exists (c :: cs). rewrite Hc, Hcs, fmap_cons, Hv, Hcm. split_and!; [done..|].
  constructor; [by rewrite Hcm|done].
Qed.

(** The difference of two versions never fails, and is the changes of exactly
    the versions whose number is above the first and at most the second, in
    ascending order. *)
Theorem get_versions_diff_spec v a b :
  versions_wf v ->
  exists cs, get_versions_diff read_dir v a b = Ok cs /\
    (forall m, m ∈ vc_version <$> cs <->
       (exists k, versions v !! k = Some m) /\
       (parse_version_number a < parse_version_number (version_id m) <= parse_version_number b)%N) /\
    StronglySorted (fun x y => parse_version_number (version_id (vc_version x)) <=
                               parse_version_number (version_id (vc_version y)))%N cs /\
    Forall (fun c => get_version_changes v (version_id (vc_version c)) = Ok c) cs.
Proof using Hdir.
  intros Hwf. unfold get_versions_diff.
  destruct (N.leb_spec (parse_version_number b) (parse_version_number a)).
  { exists []. split_and!; [done| |constructor|done]. intros m. simpl. rewrite elem_of_nil.
    split; [done|]. lia. }
  destruct (versions_diff_loop_ok v (parse_version_number a) (parse_version_number b)
    (list_versions read_dir v)) as (cs & Hcs & Hv & HF).
  { intros m (k & Hm)%(list_versions_elem read_dir Hdir). by rewrite (Hwf _ _ Hm). }
  exists cs. split_and!; [done| | |done].
  - intros m. rewrite Hv, list_elem_of_filter, (list_versions_elem read_dir Hdir). tauto.
  - pose proof (list_versions_sorted read_dir v) as Hs.
    assert (Hs' : StronglySorted (fun a b => parse_version_number (version_id a) <=
      parse_version_number (version_id b))%N (vc_version <$> cs)).
    { rewrite Hv. clear -Hs. induction Hs as [|m l Hs IH HF]; [constructor|].
      rewrite filter_cons. case_decide; [|done]. constructor; [done|].
      apply Forall_forall. intros y [_ Hy]%list_elem_of_filter.
      rewrite Forall_forall in HF. by apply HF. }
    clear -Hs'. remember (vc_version <$> cs) as l eqn:E. revert cs E.
    induction Hs' as [|m l Hs IH HF]; intros [|c cs] E; try done; constructor.
    + apply IH. by injection E.
    + rewrite fmap_cons in E. injection E as -> ->.
      eapply Forall_impl; [exact (proj1 (Forall_fmap _ _ _) HF)|]. done.
Qed.

(** The entities or files of a version that the target also touched. *)
Definition touches (ids paths : gset string) (c : VersionChanges) : Prop :=
  (exists ec, ec ∈ entity_changes c /\ vec_entity_id ec ∈ ids) \/
  (exists fc, fc ∈ file_changes c /\ vfc_path fc ∈ paths).

Lemma impact_of_spec ids paths m c :
  match impact_of ids paths m c with
  | Some i => touches ids paths c /\ im_version_id i = version_id m /\
      (im_risk i = RiskHigh <-> exists ec, ec ∈ entity_changes c /\ vec_entity_id ec ∈ ids) /\
      im_risk i <> RiskMedium /\
      (forall p, p ∈ im_overlapping_files i <-> p ∈ paths /\ p ∈ vfc_path <$> file_changes c)
  | None => ~ touches ids paths c
  end.
Proof using.
  unfold impact_of, touches.
  set (fe := filter (fun ec => vec_entity_id ec ∈ ids) (entity_changes c)).
  set (ff := filter (fun fc => vfc_path fc ∈ paths) (file_changes c)).
  assert (He : (exists ec, ec ∈ entity_changes c /\ vec_entity_id ec ∈ ids) <-> fe <> []).
  { split.
    - intros (ec & Hec & Hid) E. apply (not_elem_of_nil ec). rewrite <-E.
      by apply list_elem_of_filter.
    - destruct fe as [|ec l] eqn:E; [done|]. intros _. exists ec.
      assert (Hec : ec ∈ fe) by (rewrite E; by left). by apply list_elem_of_filter in Hec as [? ?]. }
  assert (Hf : (exists fc, fc ∈ file_changes c /\ vfc_path fc ∈ paths) <-> ff <> []).
  { split.
    - intros (fc & Hfc & Hid) E. apply (not_elem_of_nil fc). rewrite <-E.
      by apply list_elem_of_filter.
    - destruct ff as [|fc l] eqn:E; [done|]. intros _. exists fc.
      assert (Hfc : fc ∈ ff) by (rewrite E; by left). by apply list_elem_of_filter in Hfc as [? ?]. }
  assert (Hp : forall p, p ∈ vfc_path <$> ff <-> p ∈ paths /\ p ∈ vfc_path <$> file_changes c).
  { intros p. unfold ff. rewrite !list_elem_of_fmap. split.
    - intros (fc & -> & [Hin Hfc]%list_elem_of_filter). split; [done|]. by exists fc.
    - intros [Hin (fc & -> & Hfc)]. exists fc. split; [done|]. by apply list_elem_of_filter. }
  destruct fe as [|x fe']; destruct ff as [|y ff']; simpl in *; rewrite He, Hf;
    [tauto|split_and!; try done; auto..].
Qed.

Lemma impact_loop_ok v n ids paths all :
  (forall m, m ∈ all -> versions v !! version_id m = Some m) ->
  exists is_, impact_loop v n ids paths all = Ok is_ /\
    forall i, i ∈ is_ <-> exists m c, m ∈ all /\ (n < parse_version_number (version_id m))%N /\
      get_version_changes v (version_id m) = Ok c /\ impact_of ids paths m c = Some i.
Proof using.
  induction all as [|m all IH]; intros Hall.
  { exists []. split; [done|]. intros i. rewrite elem_of_nil. split; [done|].
    by intros (m & c & ?%not_elem_of_nil & _). }
  destruct IH as (is_ & His & Hspec); [intros m' Hm'; apply Hall; by right|]. simpl.
  destruct (N.leb_spec (parse_version_number (version_id m)) n) as [Hle|Hlt].
  - exists is_. split; [done|]. intros i. rewrite Hspec. split.
    + intros (m' & c & Hm' & H). exists m', c. split; [by right|done].
    + intros (m' & c & [->|Hm']%elem_of_cons & H & H'); [lia|]. exists m', c. done.
  - destruct (get_version_changes_ok v (version_id m) m) as (c & Hc & _); [apply Hall; by left|].
    rewrite Hc, His. simpl. eexists. split; [done|]. intros i.
    assert (Hi : i ∈ (match impact_of ids paths m c with Some i => i :: is_ | None => is_ end) <->
      impact_of ids paths m c = Some i \/ i ∈ is_).
    { destruct (impact_of ids paths m c); [|naive_solver].
      rewrite elem_of_cons. split; [intros [->|]; auto|intros [[= ->]|]; auto]. }
    rewrite Hi, Hspec. split.
    + intros [Him|(m' & c' & Hm' & H)]; [exists m, c|exists m', c']; (split; [|done]);
        [by left|by right].
    + intros (m' & c' & [->|Hm']%elem_of_cons & H & Hc' & Him).
      * left. rewrite Hc in Hc'. by injection Hc' as ->.
      * right. by exists m', c'.
Qed.

(** The impact of a rollback lists exactly the later versions that touch an
    entity or a file of the target, at high risk exactly when they touch an entity;
    the documented medium risk is never given. *)
Theorem analyze_rollback_impact_spec v vid target :
  versions_wf v -> versions v !! vid = Some target ->
  exists tc r, get_version_changes v vid = Ok tc /\ analyze_rollback_impact read_dir v vid = Ok r /\
    let ids : gset string := list_to_set (vec_entity_id <$> entity_changes tc) in
    let paths : gset string := list_to_set (vfc_path <$> file_changes tc) in
    (forall i, i ∈ downstream_impacts r -> im_risk i <> RiskMedium) /\
    (forall k m c, versions v !! k = Some m -> get_version_changes v k = Ok c ->
       (parse_version_number vid < parse_version_number k)%N ->
       (touches ids paths c <-> exists i, i ∈ downstream_impacts r /\ im_version_id i = k)) /\
    (forall i, i ∈ downstream_impacts r -> exists m c,
       versions v !! im_version_id i = Some m /\ get_version_changes v (im_version_id i) = Ok c /\
       (parse_version_number vid < parse_version_number (im_version_id i))%N /\
       (im_risk i = RiskHigh <-> exists ec, ec ∈ entity_changes c /\ vec_entity_id ec ∈ ids)).
Proof using Hdir.
  intros Hwf Ht. destruct (get_version_changes_ok v vid target Ht) as (tc & Htc & _).
  exists tc. unfold analyze_rollback_impact. rewrite Htc. simpl.
  set (ids := list_to_set _ : gset string). set (paths := list_to_set (vfc_path <$> _) : gset string).
  destruct (impact_loop_ok v (parse_version_number vid) ids paths (list_versions read_dir v))
    as (is_ & His & Hspec).
  { intros m (k & Hm)%(list_versions_elem read_dir Hdir). by rewrite (Hwf _ _ Hm). }
  rewrite His. simpl. eexists. split_and!; [done..| | |]; simpl.
  - intros i (m & c & _ & _ & _ & Hi)%Hspec. pose proof (impact_of_spec ids paths m c) as H.
    rewrite Hi in H. apply H.
  - intros k m c Hk Hc Hlt. pose proof (impact_of_spec ids paths m c) as H. split.
    + intros Hto. destruct (impact_of ids paths m c) as [i|] eqn:Hi; [|done].
      exists i. destruct H as (_ & -> & _). split; [|by apply Hwf].
      apply Hspec. exists m, c. rewrite (Hwf _ _ Hk). split_and!; [|done..].
      apply (list_versions_elem read_dir Hdir). eauto.
    + intros (i & (m' & c' & (k' & Hm')%(list_versions_elem read_dir Hdir) & Hl & Hc' & Hi)%Hspec & Hid).
      pose proof (impact_of_spec ids paths m' c') as H'. rewrite Hi in H'.
      destruct H' as (Hto & Hv & _). rewrite Hv in Hid. rewrite Hid in Hc'.
      rewrite Hc in Hc'. by injection Hc' as ->.
  - intros i (m & c & (k & Hm)%(list_versions_elem read_dir Hdir) & Hl & Hc & Hi)%Hspec.
    pose proof (impact_of_spec ids paths m c) as H. rewrite Hi in H.
    destruct H as (_ & -> & Hr & _). exists m, c. by rewrite (Hwf _ _ Hm) in *.
Qed.
End history.

(** ** Rollback *)

(** The entity filter of a rollback only ever selects files of entities that
    the version added: modified and removed entities are recorded without their
    file, so a filter that names one of them selects nothing of it. *)
Theorem filter_files_added_only v vid changes name p :
  get_version_changes v vid = Ok changes -> p ∈ filter_files name changes ->
  exists ec, ec ∈ entity_changes changes /\ vec_change_type ec = VcAdded /\
    vec_file_path ec = Some p.
Proof.
  intros Hc. unfold filter_files. rewrite elem_of_list_to_set, list_elem_of_omap.
  intros (ec & [_ Hec]%list_elem_of_filter & Hp). exists ec. split_and!; [done| |done].
  revert Hec. unfold get_version_changes in Hc.
  destruct (get_version v vid) as [m| |]; [|done..]. simpl in Hc.
  destruct (merge_event_id m) as [id|]; [|injection Hc as <-; by intros ?%not_elem_of_nil].
  destruct (get_by_id (log v) id ≫= _) as [w|]; [|injection Hc as <-; by intros ?%not_elem_of_nil].
  injection Hc as <-. simpl. intros (e & _ & He)%list_elem_of_omap. simpl in He.
  destruct (ev_kind e); simpl in He; try done; injection He as <-; done.
Qed.

Section rollback.
Variables (clock : nat -> DateTime) (read_dir : gmap string VersionMeta -> list VersionMeta)
  (vai_dir repo_root : string).

Abbreviation src := (snapshot_file vai_dir).
Abbreviation dest := (project_file repo_root).

(** What one change makes of the project. *)
Definition change_effect (vid : string) (c : VersionFileChange) (d : Disk) : Disk :=
  match vfc_change_type c with
  | VcAdded => delete (dest (vfc_path c)) d
  | VcModified | VcRemoved =>
      match d !! src vid (vfc_path c) with
      | Some content => <[dest (vfc_path c) := content]> d
      | None => d
      end
  end.

(** The project files that the changes name lie apart from each other and from the
    snapshots, and no directory stands where one of them goes. *)
Record rollback_ok (vid : string) (cs : list VersionFileChange) (d : Disk) : Prop := {
  ro_apart c : c ∈ cs -> is_dir d (dest (vfc_path c)) = false /\
    below_file d (dest (vfc_path c)) = false /\ is_dir d (src vid (vfc_path c)) = false;
  ro_src c1 c2 : c1 ∈ cs -> c2 ∈ cs ->
    src vid (vfc_path c1) <> dest (vfc_path c2) /\
    starts_with (dest (vfc_path c1) +:+ "/") (dest (vfc_path c2)) = false /\
    starts_with (src vid (vfc_path c1) +:+ "/") (dest (vfc_path c2)) = false
}.

Lemma is_dir_false d p :
  is_dir d p = false <-> forall f, f ∈ dom d -> starts_with (p +:+ "/") f = false.
Proof using.
  unfold is_dir. rewrite <-not_true_iff_false, existsb_exists. split.
  - intros H f Hf. apply not_true_iff_false. intros Hs. apply H. exists f.
    split; [by apply list_elem_of_In, elem_of_elements|done].
  - intros H (f & Hf%list_elem_of_In%elem_of_elements & Hs). by rewrite H in Hs.
Qed.

Lemma below_file_false d p :
  below_file d p = false <-> forall f, f ∈ dom d -> starts_with (f +:+ "/") p = false.
Proof using.
  unfold below_file. rewrite <-not_true_iff_false, existsb_exists. split.
  - intros H f Hf. apply not_true_iff_false. intros Hs. apply H. exists f.
    split; [by apply list_elem_of_In, elem_of_elements|done].
  - intros H (f & Hf%list_elem_of_In%elem_of_elements & Hs). by rewrite H in Hs.
Qed.

Lemma change_effect_dom vid c d f :
  f ∈ dom (change_effect vid c d) -> f ∈ dom d \/ f = dest (vfc_path c).
Proof using.
  unfold change_effect. repeat case_match; rewrite ?dom_delete_L, ?dom_insert_L; set_solver.
Qed.

Lemma rollback_ok_step vid c cs d :
  rollback_ok vid (c :: cs) d -> rollback_ok vid cs (change_effect vid c d).
Proof using.
  intros [Ha Hs]. constructor.
  - intros c' Hc'. destruct (Ha c') as (H1 & H2 & H3); [by right|].
    rewrite is_dir_false in H1, H3. rewrite below_file_false in H2.
    destruct (Hs c' c) as (? & ? & ?); [by right|by left|].
    destruct (Hs c c') as (? & ? & ?); [by left|by right|].
    split_and!; [apply is_dir_false|apply below_file_false|apply is_dir_false]; intros f Hf;
      apply change_effect_dom in Hf as [Hf| ->]; auto.
  - intros c1 c2 H1 H2. apply Hs; by right.
Qed.

Lemma rollback_change_ok vid c cs d :
  rollback_ok vid (c :: cs) d ->
  exists r, rollback_change vai_dir repo_root vid c d = (Ok r, change_effect vid c d).
Proof using.
  intros [Ha _]. destruct (Ha c) as (H1 & H2 & H3); [by left|].
  unfold rollback_change, change_effect, mbind, M_bind, get_st, path_exists, copy_file,
    remove_project_file.
  destruct (vfc_change_type c).
  - rewrite H1. destruct (d !! dest (vfc_path c)) as [x|] eqn:E; simpl; [rewrite E; by eexists|].
    rewrite delete_id by done. by eexists.
  - rewrite H3. destruct (d !! src vid (vfc_path c)) as [x|] eqn:E; simpl; [|by eexists].
    rewrite E, H1, H2. by eexists.
  - rewrite H3. destruct (d !! src vid (vfc_path c)) as [x|] eqn:E; simpl; [|by eexists].
    rewrite E, H1, H2. by eexists.
Qed.

(** The changes of a version that a rollback undoes. *)
Definition chosen (entity_filter : option string) (changes : VersionChanges) : list VersionFileChange :=
  match entity_filter with
  | None => file_changes changes
  | Some name => filter (fun c => vfc_path c ∈ filter_files name changes) (file_changes changes)
  end.

Lemma rollback_files_filtered vid allowed cs r x d :
  rollback_files vai_dir repo_root vid (Some allowed) cs r x d =
  rollback_files vai_dir repo_root vid None (filter (fun c => vfc_path c ∈ allowed) cs) r x d.
Proof using.
  revert r x d. induction cs as [|c cs IH]; intros r x d; [done|]. rewrite filter_cons. cbn [rollback_files].
  destruct (decide (vfc_path c ∈ allowed)) as [H|H].
  - rewrite bool_decide_eq_false_2 by (intros ?; done). cbn [rollback_files]. unfold mbind, M_bind.
    destruct (rollback_change vai_dir repo_root vid c d) as [[[r' x']|e|] d1]; [apply IH|done|done].
  - by rewrite bool_decide_eq_true_2.
Qed.

Lemma rollback_files_ok vid cs d r x :
  rollback_ok vid cs d ->
  exists counts, rollback_files vai_dir repo_root vid None cs r x d =
    (Ok counts, foldl (fun d c => change_effect vid c d) d cs).
Proof using.
  revert d r x; induction cs as [|c cs IH]; intros d r x Hok; simpl; [by eexists|].
  destruct (rollback_change_ok vid c cs d Hok) as [[r' x'] Hc].
  rewrite (M_bind_ok _ _ _ _ _ Hc). apply IH. by apply rollback_ok_step.
Qed.

(** What one change makes of the content of its file, with the snapshots of the disk [d]. *)
Definition undo (vid : string) (d : Disk) (o : option bytes) (c : VersionFileChange) : option bytes :=
  match vfc_change_type c with
  | VcAdded => None
  | _ => match d !! src vid (vfc_path c) with Some content => Some content | None => o end
  end.

Lemma foldl_effect vid cs d q :
  rollback_ok vid cs d ->
  foldl (fun d c => change_effect vid c d) d cs !! q =
  foldl (undo vid d) (d !! q) (filter (fun c => dest (vfc_path c) = q) cs).
Proof using.
  revert d; induction cs as [|c cs IH]; intros d Hok; [done|].
  cbn [foldl]. rewrite IH by by apply rollback_ok_step. rewrite filter_cons.
  assert (Hsrc : forall c', c' ∈ c :: cs ->
    change_effect vid c d !! src vid (vfc_path c') = d !! src vid (vfc_path c')).
  { intros c' Hc'. destruct Hok as [_ Hs]. destruct (Hs c' c) as (Hne & _); [done|by left|].
    unfold change_effect.
    repeat case_match; rewrite ?lookup_delete_ne, ?lookup_insert_ne by done; done. }
  assert (Hu : forall l o, (forall c', c' ∈ l -> c' ∈ cs) -> foldl (undo vid (change_effect vid c d)) o l = foldl (undo vid d) o l).
  { induction l as [|c' l IHl]; intros o Hl; [done|]. cbn [foldl]. rewrite IHl by (intros y Hy; apply Hl; by right).
    f_equal. unfold undo. by rewrite Hsrc by (right; apply Hl; by left). }
  rewrite Hu by (intros c' Hc'; by apply list_elem_of_filter in Hc' as [_ ?]).
  case_decide as Hq; cbn [foldl]; f_equal.
  - subst q. unfold change_effect, undo. destruct (vfc_change_type c); [by rewrite lookup_delete_eq|..];
      destruct (d !! src vid (vfc_path c)); try done; by rewrite lookup_insert_eq.
  - unfold change_effect. repeat case_match; rewrite ?lookup_delete_ne, ?lookup_insert_ne by done; done.
Qed.

Lemma foldl_undo_same vid d o c l : l <> [] ->
  (forall c', c' ∈ l -> vfc_path c' = vfc_path c /\ vfc_change_type c' = vfc_change_type c) ->
  foldl (undo vid d) o l = undo vid d o c.
Proof using.
  intros Hne Hl. assert (Hu : forall o c', c' ∈ l -> undo vid d o c' = undo vid d o c).
  { intros o' c' Hc'. destruct (Hl c' Hc') as [Hp Ht]. unfold undo. by rewrite Hp, Ht. }
  assert (Hid : forall o, undo vid d (undo vid d o c) c = undo vid d o c).
  { intros o'. unfold undo. destruct (vfc_change_type c), (d !! src vid (vfc_path c)); done. }
  clear Hl. destruct l as [|c1 l]; [done|]. clear Hne. cbn [foldl]. rewrite Hu by by left.
  assert (Hu' : forall o c', c' ∈ l -> undo vid d o c' = undo vid d o c) by (intros; apply Hu; by right). clear Hu.
  revert Hu'. induction l as [|c2 l IH]; intros Hu'; [done|]. cbn [foldl]. rewrite Hu' by by left. rewrite Hid.
  apply IH. intros; apply Hu'; by right.
Qed.

Lemma rollback_commit_eq vid filt v hd :
  read_head v = Some hd ->
  let new_id := next_version_id read_dir v in
  exists meta v', rollback_commit clock read_dir vid filt v = (Ok meta, v') /\
    version_id meta = new_id /\ parent_version_id meta = Some hd /\
    versions v' = <[new_id := meta]> (versions v) /\
    head_file v' = Some (new_id +:+ String LF EmptyString) /\
    workspaces v' = workspaces v /\
    exists t1 t2, log v' = (log v ++ [mkEvent (next_id (log v)) t1 (RollbackCreated vid new_id filt)]) ++
      [mkEvent (next_id (log v ++ [mkEvent (next_id (log v)) t1 (RollbackCreated vid new_id filt)])) t2
        (VersionCreated new_id (Some hd) ("rollback " +:+ vid))].
Proof using.
  intros Hh. simpl. unfold rollback_commit, mbind, M_bind, get_st. rewrite Hh.
  do 2 eexists. split; [reflexivity|]. simpl. split_and!; try done. do 2 eexists. done.
Qed.

(** The project and the metadata after the changes [cs] were undone. *)
Record rolled_back (v : VaiDir) (d : Disk) (vid hd : string) (cs : list VersionFileChange) (meta : VersionMeta) (v' : VaiDir) (d' : Disk) : Prop := {
  rb_files c : c ∈ cs ->
    (forall c', c' ∈ cs -> dest (vfc_path c') = dest (vfc_path c) -> vfc_path c' = vfc_path c /\ vfc_change_type c' = vfc_change_type c) ->
    d' !! dest (vfc_path c) =
    match vfc_change_type c with
    | VcAdded => None
    | _ => match d !! src vid (vfc_path c) with
           | Some content => Some content | None => d !! dest (vfc_path c) end
    end;
  rb_each q : d' !! q = foldl (undo vid d) (d !! q) (filter (fun c => dest (vfc_path c) = q) cs);
  rb_others q : (forall c, c ∈ cs -> dest (vfc_path c) <> q) -> d' !! q = d !! q;
  rb_id : version_id meta = next_version_id read_dir v;
  rb_parent : parent_version_id meta = Some hd;
  rb_head : read_head v' = Some (version_id meta);
  rb_kept k m : versions v !! k = Some m -> versions v' !! k = Some m;
  rb_new : versions v' !! version_id meta = Some meta;
  rb_log : log v `prefix_of` log v'
}.

Lemma rollback_undoes v d vid m changes hd filt :
  versions_wf v -> dir_ok read_dir ->
  (forall k m, versions v !! k = Some m -> parse_version_number k + 1 < u64_bound)%N ->
  versions v !! vid = Some m -> get_version_changes v vid = Ok changes -> read_head v = Some hd ->
  rollback_ok vid (chosen filt changes) d ->
  exists r v' d', rollback clock read_dir vai_dir repo_root vid filt (v, d) = (Ok r, (v', d')) /\
    rolled_back v d vid hd (chosen filt changes) (new_version r) v' d'.
Proof using.
  intros Hwf Hdir Hb Hm Hc Hh Hok. unfold rollback. rewrite Hc.
  assert (Hf : exists counts, rollback_files vai_dir repo_root vid ((fun name => filter_files name changes) <$> filt) (file_changes changes) 0 0 d =
    (Ok counts, foldl (fun d c => change_effect vid c d) d (chosen filt changes))).
  { destruct filt as [name|]; simpl; [rewrite rollback_files_filtered|]; by apply rollback_files_ok. }
  destruct Hf as [[r x] Hf]. cbv zeta. rewrite Hf.
  destruct (rollback_commit_eq vid filt v hd Hh)
    as (meta & v' & -> & Hid & Hpar & Hver & Hhead & Hws & t1 & t2 & Hlog).
  do 3 eexists. split; [done|]. split; simpl.
  - intros c Hin Hsame. rewrite foldl_effect by done. apply foldl_undo_same.
    + intros E. apply (not_elem_of_nil c). rewrite <-E. by apply list_elem_of_filter.
    + intros c' [Hd Hc']%list_elem_of_filter. by apply Hsame.
  - intros q. by apply foldl_effect.
  - intros q Hq. rewrite foldl_effect by done. rewrite filter_none; [done|].
    apply Forall_forall. intros c Hin. by apply Hq.
  - done.
  - done.
  - unfold read_head. rewrite Hhead, Hid. simpl. f_equal. apply next_version_id_trim.
  - intros k m' Hk. rewrite Hver. rewrite lookup_insert_ne; [done|]. intros <-.
    destruct (next_version_id_fresh read_dir Hdir v Hwf Hb) as [Hn _]. congruence.
  - by rewrite Hver, Hid, lookup_insert_eq.
  - rewrite Hlog, <-app_assoc. by apply prefix_app_r.
Qed.

(** C12. A rollback undoes the file changes of a version, or with an entity filter those of
    the files that the filter selects, when these files and their snapshots lie apart from each
    other and no directory stands in the way. It succeeds; a file that the version added is
    gone, and one that it modified or removed has again the content saved before that version,
    if one was saved; a file with changes of several kinds has what they make of it in their
    order; and no other file changes. It extends history: the new version follows HEAD,
    which moves to it, and all versions and events before it are kept. *)
Theorem rollback_spec v d vid m changes hd filt :
  versions_wf v -> dir_ok read_dir ->
  (forall k m, versions v !! k = Some m -> parse_version_number k + 1 < u64_bound)%N ->
  versions v !! vid = Some m -> get_version_changes v vid = Ok changes -> read_head v = Some hd ->
  rollback_ok vid (chosen filt changes) d ->
  exists r v' d', rollback clock read_dir vai_dir repo_root vid filt (v, d) = (Ok r, (v', d')) /\
    rolled_back v d vid hd (chosen filt changes) (new_version r) v' d'.
Proof using. apply rollback_undoes. Qed.
End rollback.

(** ** Witnesses *)

Definition wit_dir (t : gmap string VersionMeta) : list VersionMeta := (map_to_list t).*2.
Definition wit_v1 : VersionMeta := mkVersion "v1" None "init" "vai" 0 None.
Definition wit_v2 : VersionMeta := mkVersion "v2" (Some "v1"%string) "fix" "agent" 5 (Some 3%N).
Definition wit_history : VaiDir :=
  mkVai (Some "v2"%string) (<["v1"%string := wit_v1]> {["v2"%string := wit_v2]}) ∅ None ∅ ∅
    [mkEvent 1 1 (FileModified "w" "a.txt" "" "h"); mkEvent 2 2 (FileAdded "w" "b.txt" "h");
     mkEvent 3 3 (MergeCompleted "w" "v2" 0)] (mkSnapshot [] []) 0 5.
Definition wit_disk : Disk :=
  <["r/a.txt"%string := bytes_of "new"]> (<["r/b.txt"%string := bytes_of "b"]>
    {["r/.vai/versions/v2/snapshot/a.txt"%string := bytes_of "old"]}).

Lemma wit_history_wf : versions_wf wit_history.
Proof.
  intros k m. unfold wit_history. simpl.
  intros [[<- <-]|[_ [<- <-]%lookup_singleton_Some]]%lookup_insert_Some; done.
Qed.

Lemma wit_history_bound k m :
  versions wit_history !! k = Some m -> (parse_version_number k + 1 < u64_bound)%N.
Proof.
  intros Hk. rewrite <-(wit_history_wf k m Hk). unfold wit_history in Hk. simpl in Hk.
  apply lookup_insert_Some in Hk as [[<- <-]|[_ [<- <-]%lookup_singleton_Some]]; done.
Qed.

Lemma next_version_id_fresh_witness :
  versions wit_history !! "v3"%string = None /\ next_version_id wit_dir wit_history = "v3"%string.
Proof.
  assert (E : next_version_id wit_dir wit_history = "v3"%string) by reflexivity.
  split; [|exact E]. rewrite <-E at 1.
  apply (next_version_id_fresh wit_dir (fun t => Permutation_refl _) wit_history
           wit_history_wf wit_history_bound).
Defined.

Lemma get_version_changes_spec_witness :
  exists c, get_version_changes wit_history "v2" = Ok c /\ vc_version c = wit_v2 /\
    mkVFC "b.txt" VcAdded (Some "h"%string) ∈ file_changes c.
Proof.
  destruct (get_version_changes_spec wit_history "v2" wit_v2 3
    (mkEvent 3 3 (MergeCompleted "w" "v2" 0)) "w") as (c & Hc & Hm & _ & _ & H);
    [reflexivity..|].
  exists c. split_and!; [exact Hc|exact Hm|]. apply H. reflexivity.
Defined.

Lemma get_versions_diff_spec_witness :
  exists cs, get_versions_diff wit_dir wit_history "v1" "v2" = Ok cs /\ wit_v2 ∈ vc_version <$> cs.
Proof.
  destruct (get_versions_diff_spec wit_dir (fun t => Permutation_refl _) wit_history "v1" "v2"
    wit_history_wf) as (cs & Hcs & H & _).
  exists cs. split; [exact Hcs|]. apply H. split; [by exists "v2"%string|done].
Defined.

Lemma analyze_rollback_impact_spec_witness :
  exists r, analyze_rollback_impact wit_dir wit_history "v1" = Ok r /\
    forall i, i ∈ downstream_impacts r -> im_risk i <> RiskMedium.
Proof.
  destruct (analyze_rollback_impact_spec wit_dir (fun t => Permutation_refl _) wit_history "v1"
    wit_v1 wit_history_wf eq_refl) as (tc & r & _ & Hr & H & _).
  by exists r.
Defined.

Definition wit_added : VersionEntityChange :=
  mkVEC "id1" VcAdded (Some "function"%string) (Some "f"%string) (Some "a.rs"%string) None.
Definition wit_entities : VaiDir :=
  set_log [mkEvent 1 1 (EntityAdded "w" (mkEntitySummary "id1" "function" "f" "f" "a.rs"));
           mkEvent 2 2 (EntityModified "w" "id2" "changed"); mkEvent 3 3 (MergeCompleted "w" "v2" 0)]
    wit_history.

Lemma filter_files_added_only_witness :
  exists ec, ec ∈ [wit_added; mkVEC "id2" VcModified None None None (Some "changed"%string)] /\
    vec_change_type ec = VcAdded /\ vec_file_path ec = Some "a.rs"%string.
Proof.
  apply (filter_files_added_only wit_entities "v2"
    (mkChanges wit_v2 [wit_added; mkVEC "id2" VcModified None None None (Some "changed"%string)] [])
    "f" "a.rs").
  - reflexivity.
  - apply (bool_decide_unpack _). vm_compute. exact I.
Defined.

Lemma rollback_spec_witness :
  exists r v' d', rollback (fun n => Z.of_nat n) wit_dir "r/.vai" "r" "v2" None
      (wit_history, wit_disk) = (Ok r, (v', d')) /\
    d' !! "r/a.txt"%string = Some (bytes_of "old") /\ d' !! "r/b.txt"%string = None.
Proof.
  destruct (rollback_spec (fun n => Z.of_nat n) wit_dir "r/.vai" "r" wit_history wit_disk "v2" wit_v2
    (mkChanges wit_v2 [] [mkVFC "a.txt" VcModified (Some "h"%string); mkVFC "b.txt" VcAdded (Some "h"%string)])
    "v2" None) as (r & v' & d' & Hr & [Hc _ _ _ _ _ _ _ _]).
  - apply wit_history_wf.
  - intros t. reflexivity.
  - apply wit_history_bound.
  - reflexivity.
  - reflexivity.
  - reflexivity.
  - constructor.
    + intros c [->|[->|?%not_elem_of_nil]%elem_of_cons]%elem_of_cons; done.
    + intros c1 c2 [->|[->|?%not_elem_of_nil]%elem_of_cons]%elem_of_cons
        [->|[->|?%not_elem_of_nil]%elem_of_cons]%elem_of_cons; done.
  - exists r, v', d'. split; [exact Hr|]. split.
    + apply (Hc (mkVFC "a.txt" VcModified (Some "h"%string))); [by left|].
      intros c [->|[->|[]%not_elem_of_nil]%elem_of_cons]%elem_of_cons E; [by split|discriminate E].
    + apply (Hc (mkVFC "b.txt" VcAdded (Some "h"%string))); [right; by left|].
      intros c [->|[->|[]%not_elem_of_nil]%elem_of_cons]%elem_of_cons E; [discriminate E|by split].
Defined.
