(* ===== verification/Diff.v ===== *)
(** Workspace diffs ([src/src/diff/mod.rs]): the file and entity changes of an
    overlay against the base, through the file abstraction, and the events that
    record them. *)
From S2P Require Import Prelude RustStr Graph EventLog MergeEngine MergeFs MergeFsReads VaiDir Workspace.

Inductive DiffError : Type :=
  | DIo (e : IoError)
  | DWorkspace (e : WorkspaceError)
  | DGraph (e : GraphError).

Inductive FileChangeType : Type := FcAdded | FcModified | FcDeleted.

#[export] Instance FileChangeType_eq_dec : EqDecision FileChangeType.
Proof. solve_decision. Defined.

Record FileDiff : Type := mkFileDiff {
  fd_path : string;
  fd_change_type : FileChangeType;
  fd_lines : nat;
  fd_content_hash : string
}.

Inductive EntityChangeType : Type := EcAdded | EcModified | EcRemoved.

Record EntityChange : Type := mkEntityChange {
  ec_entity_id : string;
  ec_qualified_name : string;
  ec_kind : EntityKind;
  ec_file_path : string;
  ec_change_type : EntityChangeType;
  ec_line_range : option (nat * nat)
}.

Record WorkspaceDiff : Type := mkDiff {
  wd_workspace_id : Uuid;
  wd_base_version : string;
  file_diffs : list FileDiff;
  wd_entity_changes : list EntityChange
}.

Definition diff_is_empty (d : WorkspaceDiff) : bool :=
  match file_diffs d, wd_entity_changes d with [], [] => true | _, _ => false end.

Definition count_lines (content : bytes) : nat :=
  match content with [] => 0 | _ => length (filter (fun a => a = LF) content) + 1 end.

(** A call whose errors are turned into the caller's. *)
Definition err_into {S E E' A} (f : E -> E') (m : M S E A) : M S E' A :=
  fun s => match m s with
           | (Ok a, s') => (Ok a, s')
           | (Err e, s') => (Err (f e), s')
           | (Panic, s') => (Panic, s')
           end.

Section diff.
Context {S : Type} `{MergeFs S}.
Variable parse_rust_source : string -> bytes -> outcome GraphError (list Entity * list Relationship).
Variable sha256_hex : bytes -> string.
(** The order in which a set of entity ids is iterated. *)
Variable iter_order : gset string -> list string.

Definition change_for (rel_path : string) (t : EntityChangeType) (lines : option (nat * nat))
    (id : string) (e : Entity) : EntityChange :=
  mkEntityChange id (qualified_name e) (e_kind e) rel_path t lines.

Definition overlay_change (rel_path : string) (overlay base : bytes)
    (base_map overlay_map : gmap string Entity) (id : string) : option EntityChange :=
  entity ← overlay_map !! id;
  match base_map !! id with
  | Some base_entity =>
      if bool_decide (span_or_empty base base_entity <> span_or_empty overlay entity)
      then Some (change_for rel_path EcModified (Some (line_range entity)) id entity)
      else None
  | None => Some (change_for rel_path EcAdded (Some (line_range entity)) id entity)
  end.

Definition compute_entity_diff (rel_path : string) (overlay_content : bytes)
    (base_content : option bytes) : outcome DiffError (list EntityChange) :=
  '(overlay_entities, _) ← map_err DGraph (parse_rust_source rel_path overlay_content);
  let overlay_map := id_map overlay_entities in
  match base_content with
  | Some base =>
      '(base_entities, _) ← map_err DGraph (parse_rust_source rel_path base);
      let base_map := id_map base_entities in
      let changed := omap (overlay_change rel_path overlay_content base base_map overlay_map)
        (iter_order (dom overlay_map)) in
      let removed := omap (fun id =>
          e ← base_map !! id;
          match overlay_map !! id with
          | Some _ => None
          | None => Some (change_for rel_path EcRemoved None id e)
          end) (iter_order (dom base_map)) in
      Ok (changed ++ removed)
  | None =>
      Ok (omap (fun id =>
            e ← overlay_map !! id; Some (change_for rel_path EcAdded (Some (line_range e)) (e_id e) e))
          (iter_order (dom overlay_map)))
  end.

(** One overlay file: its file change and its entity changes. *)
Definition diff_overlay_file (key : string) : M S DiffError (FileDiff * list EntityChange) :=
  rel_path ← lift (or_panic (strip_prefix "overlay/" key));
  overlay_content ← err_into DIo (read_file key);
  let base_key := "base/" +:+ rel_path in
  in_base ← err_into DIo (exists_file base_key);
  let fd := mkFileDiff rel_path (if (in_base : bool) then FcModified else FcAdded)
              (count_lines overlay_content) (sha256_hex overlay_content) in
  if ends_with ".rs" rel_path then
    again ← err_into DIo (exists_file base_key);
    base_content ← (if (again : bool) then c ← err_into DIo (read_file base_key); mret (Some c)
                    else mret None);
    changes ← lift (compute_entity_diff rel_path overlay_content base_content);
    mret (fd, changes)
  else mret (fd, []).

Fixpoint diff_overlay (keys : list string) : M S DiffError (list FileDiff * list EntityChange) :=
  match keys with
  | [] => mret ([], [])
  | key :: keys' =>
      '(fd, ecs) ← diff_overlay_file key;
      '(fds, rest) ← diff_overlay keys';
      mret (fd :: fds, ecs ++ rest)
  end.

(** The entities of a deleted file; that it does not parse is ignored. *)
Definition removed_entities (path : string) (base_content : bytes) : outcome DiffError (list EntityChange) :=
  match parse_rust_source path base_content with
  | Ok (entities, _) => Ok (map (fun e => change_for path EcRemoved None (e_id e) e) entities)
  | Err _ => Ok []
  | Panic => Panic
  end.

(** [if let Ok(c) = fs.read_file(key)] *)
Definition read_if_ok (key : string) : M S DiffError (option bytes) := fun s =>
  match read_file key s with
  | (Ok c, s') => (Ok (Some c), s')
  | (Err _, s') => (Ok None, s')
  | (Panic, s') => (Panic, s')
  end.

Definition diff_deleted_path (path : string) : M S DiffError (list FileDiff * list EntityChange) :=
  let base_key := "base/" +:+ path in
  in_base ← err_into DIo (exists_file base_key);
  if negb in_base then mret ([], [])
  else
    let fd := mkFileDiff path FcDeleted 0 "" in
    if negb (ends_with ".rs" path) then mret ([fd], [])
    else
      content ← read_if_ok base_key;
      match content with
      | Some c => ecs ← lift (removed_entities path c); mret ([fd], ecs)
      | None => mret ([fd], [])
      end.

Fixpoint diff_deleted (paths : list string) : M S DiffError (list FileDiff * list EntityChange) :=
  match paths with
  | [] => mret ([], [])
  | path :: paths' =>
      '(fds, ecs) ← diff_deleted_path path;
      '(fds', ecs') ← diff_deleted paths';
      mret (fds ++ fds', ecs ++ ecs')
  end.

Definition compute_with_fs (workspace_id : Uuid) (base_version : string)
    (deleted_paths : list string) : M S DiffError WorkspaceDiff :=
  overlay_keys ← err_into DIo (list_files "overlay/");
  '(fds, ecs) ← diff_overlay overlay_keys;
  '(dfds, decs) ← diff_deleted deleted_paths;
  mret (mkDiff workspace_id base_version (fds ++ dfds) (ecs ++ decs)).
End diff.

(** [seen.insert(path)]: the first of each path. *)
Fixpoint keep_first (seen : gset string) (l : list string) : list string :=
  match l with
  | [] => []
  | x :: l' => if bool_decide (x ∈ seen) then keep_first seen l'
               else x :: keep_first ({[x]} ∪ seen) l'
  end.

(** The deletions that [diff::compute] takes into account: those of the manifest,
    then those of the metadata. *)
Definition deleted_paths_of (v : VaiDir) (meta : WorkspaceMeta) : list string :=
  keep_first ∅ (default [] (manifests v !! ws_id meta) ++ ws_deleted_paths meta).

(** ** Recording *)

(** What follows the last separator of [s.split("::")], if there is one. *)
Fixpoint after_colons (s : string) : option string :=
  match s with
  | String ":" (String ":" r) => match after_colons r with Some x => Some x | None => Some r end
  | String _ s' => after_colons s'
  | EmptyString => None
  end.

(** [qualified_name.split("::").last().unwrap_or("")] *)
Definition last_segment (s : string) : string := default s (after_colons s).

Definition file_event (w : Uuid) (fd : FileDiff) : EventKind :=
  match fd_change_type fd with
  | FcAdded => FileAdded w (fd_path fd) (fd_content_hash fd)
  | FcModified => FileModified w (fd_path fd) "" (fd_content_hash fd)
  | FcDeleted => FileRemoved w (fd_path fd)
  end.

Definition entity_event (w : Uuid) (ec : EntityChange) : EventKind :=
  match ec_change_type ec with
  | EcAdded =>
      EntityAdded w (mkEntitySummary (ec_entity_id ec) (kind_as_str (ec_kind ec))
        (last_segment (ec_qualified_name ec)) (ec_qualified_name ec) (ec_file_path ec))
  | EcModified =>
      EntityModified w (ec_entity_id ec)
        (kind_as_str (ec_kind ec) +:+ " `" +:+ ec_qualified_name ec +:+ "` modified in " +:+ ec_file_path ec)
  | EcRemoved => EntityRemoved w (ec_entity_id ec)
  end.

Section record.
Variable clock : nat -> DateTime.

Definition append_all {E} (kinds : list EventKind) : M VaiDir E unit :=
  for_each (fun k => _ ← append_event clock k; mret tt) kinds.

Definition record_events (diff : WorkspaceDiff) : M VaiDir DiffError unit :=
  meta ← err_into DWorkspace active;
  if negb (bool_decide (ws_status meta = WsCreated)) then mret tt
  else
    _ ← append_all (file_event (wd_workspace_id diff) <$> file_diffs diff);
    _ ← append_all (entity_event (wd_workspace_id diff) <$> wd_entity_changes diff);
    t ← now clock;
    err_into DWorkspace (update_meta
      (mkWs (ws_id meta) (ws_intent meta) (base_version meta) WsActive (ws_created_at meta) t
        (ws_issue_id meta) (ws_deleted_paths meta))).
End record.

(** ** Entity changes *)

Lemma id_map_id ents id e : id_map ents !! id = Some e -> e_id e = id.
Proof.
  unfold id_map. assert (H : forall m : gmap string Entity, (forall k x, m !! k = Some x -> e_id x = k) ->
    forall k x, foldl (fun m e => <[e_id e := e]> m) m ents !! k = Some x -> e_id x = k).
  { induction ents as [|a ents IH]; intros m Hm; simpl; [exact Hm|]. apply IH.
    intros k x [[<- <-]|[_ Hx]]%lookup_insert_Some; [done|by apply Hm]. }
  apply H. intros k x. by rewrite lookup_empty.
Qed.

Section entity.
Variable parse_rust_source : string -> bytes -> outcome GraphError (list Entity * list Relationship).
Variable iter_order : gset string -> list string.
Hypothesis iter_perm : forall X, iter_order X ≡ₚ elements X.

Lemma elem_of_iter x X : x ∈ iter_order X <-> x ∈ X.
Proof using iter_perm. by rewrite iter_perm, elem_of_elements. Qed.

(** The entity changes of a Rust file that is in both places: an entity is
    reported added, removed or modified exactly when it is only in the overlay,
    only in the base, or in both with other bytes; and the reported ids are exactly
    the ones that the merge engine counts as changed. *)
Theorem compute_entity_diff_spec path overlay base oe orl be brl :
  parse_rust_source path overlay = Ok (oe, orl) -> parse_rust_source path base = Ok (be, brl) ->
  exists changes, compute_entity_diff parse_rust_source iter_order path overlay (Some base) = Ok changes /\
    let om := id_map oe in let bm := id_map be in
    (forall ec, ec ∈ changes <->
       match ec_change_type ec with
       | EcAdded => exists e, om !! ec_entity_id ec = Some e /\ bm !! ec_entity_id ec = None /\
           ec = change_for path EcAdded (Some (line_range e)) (e_id e) e
       | EcModified => exists e b, om !! ec_entity_id ec = Some e /\ bm !! ec_entity_id ec = Some b /\
           span_or_empty base b <> span_or_empty overlay e /\
           ec = change_for path EcModified (Some (line_range e)) (e_id e) e
       | EcRemoved => exists b, om !! ec_entity_id ec = None /\ bm !! ec_entity_id ec = Some b /\
           ec = change_for path EcRemoved None (e_id b) b
       end) /\
    (list_to_set (ec_entity_id <$> changes) : gset string) = changed_entity_ids be base oe overlay.
Proof using iter_perm.
  intros Ho Hb. unfold compute_entity_diff. rewrite Ho, Hb. simpl. eexists. split; [done|].
  set (om := id_map oe). set (bm := id_map be).
  set (changes := omap _ (iter_order (dom om)) ++ _).
  assert (Hspec : forall ec, ec ∈ changes <->
       match ec_change_type ec with
       | EcAdded => exists e, om !! ec_entity_id ec = Some e /\ bm !! ec_entity_id ec = None /\
           ec = change_for path EcAdded (Some (line_range e)) (e_id e) e
       | EcModified => exists e b, om !! ec_entity_id ec = Some e /\ bm !! ec_entity_id ec = Some b /\
           span_or_empty base b <> span_or_empty overlay e /\
           ec = change_for path EcModified (Some (line_range e)) (e_id e) e
       | EcRemoved => exists b, om !! ec_entity_id ec = None /\ bm !! ec_entity_id ec = Some b /\
           ec = change_for path EcRemoved None (e_id b) b
       end).
  { intros ec. unfold changes. rewrite elem_of_app, !list_elem_of_omap. split.
    - intros [(id & Hid & Hec)|(id & Hid & Hec)].
      + apply bind_Some in Hec as (e & He & Hec). destruct (bm !! id) as [b|] eqn:Eb.
        * case_bool_decide as Hne; [|done]. injection Hec as <-. simpl. exists e, b.
          by rewrite (id_map_id oe id e He).
        * injection Hec as <-. simpl. exists e. by rewrite (id_map_id oe id e He).
      + apply bind_Some in Hec as (b & Hbm & Hec). destruct (om !! id) eqn:Eo; [done|].
        injection Hec as <-. simpl. exists b. by rewrite (id_map_id be id b Hbm).
    - destruct (ec_change_type ec) eqn:Et.
      + intros (e & He & Hbn & Hec). left. exists (ec_entity_id ec).
        rewrite elem_of_iter, elem_of_dom. split; [by eexists|].
        unfold overlay_change. rewrite He. simpl. rewrite Hbn.
        rewrite (id_map_id oe _ e He) in Hec. congruence.
      + intros (e & b & He & Hbn & Hne & Hec). left. exists (ec_entity_id ec).
        rewrite elem_of_iter, elem_of_dom. split; [by eexists|].
        unfold overlay_change. rewrite He. simpl. rewrite Hbn, bool_decide_eq_true_2 by done.
        rewrite (id_map_id oe _ e He) in Hec. congruence.
      + intros (b & Hon & Hbm & Hec). right. exists (ec_entity_id ec).
        rewrite elem_of_iter, elem_of_dom. split; [by eexists|].
        rewrite Hbm. simpl. rewrite Hon. rewrite (id_map_id be _ b Hbm) in Hec. congruence. }
  split; [exact Hspec|]. apply set_eq. intros id.
  rewrite elem_of_list_to_set, list_elem_of_fmap. setoid_rewrite Hspec.
  unfold changed_entity_ids. fold om bm. rewrite elem_of_union, !elem_of_filter, !elem_of_dom.
  unfold is_changed. split.
  - intros (ec & -> & Hec). destruct (ec_change_type ec).
    + destruct Hec as (e & -> & -> & _). left. by split.
    + destruct Hec as (e & b & -> & -> & Hne & _). left. by rewrite bool_decide_eq_true_2.
    + destruct Hec as (b & Hon & Hbm & _). right. by rewrite Hbm.
  - intros [[Hch [e He]]|[Hon [b Hbm]]].
    + rewrite He in Hch. destruct (bm !! id) as [b|] eqn:Eb.
      * apply bool_decide_eq_true in Hch.
        exists (change_for path EcModified (Some (line_range e)) id e). split; [done|].
        exists e, b. by rewrite (id_map_id oe id e He).
      * exists (change_for path EcAdded (Some (line_range e)) id e). split; [done|].
        exists e. by rewrite (id_map_id oe id e He).
    + exists (change_for path EcRemoved None id b). split; [done|].
      exists b. by rewrite (id_map_id be id b Hbm).
Qed.
End entity.

(** ** The whole diff *)

Section whole.
Context {S : Type} `{MergeFsReads S}.
Variable parse_rust_source : string -> bytes -> outcome GraphError (list Entity * list Relationship).
Variable sha256_hex : bytes -> string.
Variable iter_order : gset string -> list string.
Hypothesis parse_ok : forall p c, exists r, parse_rust_source p c = Ok r.

(** The call succeeds and shows the same files afterwards. *)
Definition reads {A} (m : M S DiffError A) (s : S) (P : A -> Prop) : Prop :=
  exists a s', m s = (Ok a, s') /\ rd_wf s' /\ rd_lookup s' = rd_lookup s /\ P a.

Lemma reads_ret {A} (a : A) s (P : A -> Prop) : rd_wf s -> P a -> reads (mret a) s P.
Proof using. intros. by exists a, s. Qed.

Lemma reads_bind {A B} (m : M S DiffError A) (f : A -> M S DiffError B) s Q P :
  reads m s Q ->
  (forall a s', rd_wf s' -> rd_lookup s' = rd_lookup s -> Q a -> reads (f a) s' P) ->
  reads (m ≫= f) s P.
Proof using.
  intros (a & s' & Hm & Hwf & Hl & HQ) Hf. destruct (Hf a s' Hwf Hl HQ) as (b & s'' & Hb & Hwf' & Hl' & HP).
  exists b, s''. rewrite (M_bind_ok _ _ _ _ _ Hm). split_and!; [done|done|congruence|done].
Qed.

Lemma reads_read k c s :
  rd_wf s -> (exists p, k = okey p \/ k = bkey p) -> rd_lookup s k = Some c -> reads (err_into DIo (read_file k)) s (eq c).
Proof using.
  intros Hwf Hk Hl. destruct (rd_read s k c Hwf Hk Hl) as (s' & Hr & Hwf' & Hl').
  exists c, s'. unfold err_into. by rewrite Hr.
Qed.

Lemma reads_exists p s :
  rd_wf s -> rd_exact (rd_lookup s) p ->
  reads (err_into DIo (exists_file (bkey p))) s (eq (bool_decide (is_Some (rd_lookup s (bkey p))))).
Proof using.
  intros Hwf Hk. destruct (rd_exists s p Hwf Hk) as (s' & Hr & Hwf' & Hl').
  eexists _, s'. unfold err_into. by rewrite Hr.
Qed.

Lemma compute_entity_diff_total path o b :
  exists ecs, compute_entity_diff parse_rust_source iter_order path o b = Ok ecs.
Proof using parse_ok.
  unfold compute_entity_diff. destruct (parse_ok path o) as [[oe orl] ->]. simpl.
  destruct b as [b|]; [|by eexists]. destruct (parse_ok path b) as [[be brl] ->]. by eexists.
Qed.

(** The file change of an overlay file. *)
Definition overlay_diff (f : string -> option bytes) (p : string) (c : bytes) : FileDiff :=
  mkFileDiff p (if bool_decide (is_Some (f (bkey p))) then FcModified else FcAdded)
    (count_lines c) (sha256_hex c).

Lemma reads_overlay_file p c s :
  rd_wf s -> rd_exact (rd_lookup s) p -> rd_lookup s (okey p) = Some c ->
  reads (diff_overlay_file parse_rust_source sha256_hex iter_order (okey p)) s
    (fun r => r.1 = overlay_diff (rd_lookup s) p c).
Proof using parse_ok.
  intros Hwf Hx Hc. unfold diff_overlay_file.
  assert (Hstrip : strip_prefix "overlay/" (okey p) = Some p) by apply strip_prefix_app.
  rewrite Hstrip. eapply reads_bind; [by apply (reads_ret p s (eq p))|].
  intros ? s0 Hwf0 Hl0 <-. rewrite <-Hl0 in Hx, Hc |- *. clear s Hwf Hl0.
  eapply reads_bind; [by eapply reads_read; [|exists p; left|]|].
  intros ? s1 Hwf1 Hl1 <-. change ("base/" +:+ p) with (bkey p).
  eapply reads_bind; [by apply reads_exists; [done|congruence]|]. intros ? s2 Hwf2 Hl2 <-.
  assert (Hl : rd_lookup s1 = rd_lookup s2) by done. fold (overlay_diff (rd_lookup s1) p c).
  rewrite Hl1 in *. fold (overlay_diff (rd_lookup s0) p c).
  destruct (ends_with ".rs" p); [|by apply reads_ret].
  eapply reads_bind; [by apply reads_exists; [done|congruence]|]. intros ? s3 Hwf3 Hl3 <-.
  eapply (reads_bind _ _ _ (fun _ => True)).
  { rewrite Hl2. destruct (rd_lookup s0 (bkey p)) as [b|] eqn:Eb; simpl; [|by apply reads_ret].
    eapply reads_bind; [eapply (reads_read _ b); [done|exists p; by right|congruence]|].
    intros ? s4 Hwf4 _ _. by apply reads_ret. }
  intros b s4 Hwf4 _ _. destruct (compute_entity_diff_total p c b) as [ecs ->].
  eapply reads_bind; [by apply (reads_ret ecs s4 (fun _ => True))|].
  intros a s5 Hwf5 _ _. by apply reads_ret.
Qed.

Lemma reads_overlay keys s :
  rd_wf s -> (forall k, k ∈ keys -> is_Some (rd_lookup s k) /\ exists p, k = okey p /\ rd_exact (rd_lookup s) p) ->
  reads (diff_overlay parse_rust_source sha256_hex iter_order keys) s (fun r =>
    forall fd, fd ∈ r.1 <-> exists p c, okey p ∈ keys /\ rd_lookup s (okey p) = Some c /\
      fd = overlay_diff (rd_lookup s) p c).
Proof using parse_ok.
  revert s; induction keys as [|k keys IH]; intros s Hwf Hk; simpl.
  { apply reads_ret; [done|]. intros fd. simpl. rewrite elem_of_nil.
    split; [done|]. by intros (p & c & ?%not_elem_of_nil & _). }
  destruct (Hk k) as ([c Hc] & p & -> & Hx); [by left|].
  eapply reads_bind; [by apply reads_overlay_file|]. intros [fd ecs] s1 Hwf1 Hl1 Hfd. simpl in Hfd.
  eapply reads_bind; [apply IH; [done|]|].
  { intros k' Hk'. rewrite Hl1. apply Hk. by right. }
  intros [fds rest] s2 Hwf2 Hl2 Hfds. simpl in Hfds. apply reads_ret; [done|]. simpl.
  rewrite Hl1 in Hfds. intros fd'. rewrite elem_of_cons, Hfds. split.
  - intros [->|(q & c' & Hq & Hc' & ->)]; [exists p, c|exists q, c']; split_and!; try done; [by left|by right].
  - intros (q & c' & [->%okey_inj|Hq]%elem_of_cons & Hc' & ->); [left; congruence|right; eauto].
Qed.

Lemma reads_deleted paths s :
  rd_wf s -> (forall p, p ∈ paths -> rd_exact (rd_lookup s) p) ->
  reads (diff_deleted parse_rust_source paths) s (fun r =>
    forall fd, fd ∈ r.1 <-> exists p, p ∈ paths /\ is_Some (rd_lookup s (bkey p)) /\
      fd = mkFileDiff p FcDeleted 0 "").
Proof using parse_ok.
  revert s; induction paths as [|p paths IH]; intros s Hwf Hx; simpl.
  { apply reads_ret; [done|]. intros fd. simpl. rewrite elem_of_nil.
    split; [done|]. by intros (p & ?%not_elem_of_nil & _). }
  eapply (reads_bind _ _ _ (fun r => forall fd, fd ∈ r.1 <->
    is_Some (rd_lookup s (bkey p)) /\ fd = mkFileDiff p FcDeleted 0 "")).
  { unfold diff_deleted_path. change ("base/" +:+ p) with (bkey p).
    eapply reads_bind; [apply reads_exists; [done|apply Hx; by left]|]. intros ? s1 Hwf1 Hl1 <-.
    case_bool_decide as Hb; simpl.
    2:{ apply reads_ret; [done|]. intros fd. simpl. rewrite elem_of_nil. tauto. }
    assert (Hone : forall (ecs : list EntityChange) fd,
      fd ∈ ([mkFileDiff p FcDeleted 0 ""], ecs).1 <-> is_Some (rd_lookup s (bkey p)) /\ fd = mkFileDiff p FcDeleted 0 "").
    { intros ecs fd. simpl. rewrite list_elem_of_singleton. tauto. }
    destruct (ends_with ".rs" p); [|by apply reads_ret]. simpl.
    destruct Hb as [c Hc]. rewrite <-Hl1 in Hc.
    destruct (rd_read s1 (bkey p) c Hwf1) as (s2 & Hr & Hwf2 & Hl2); [exists p; by right|done|]. eapply (reads_bind _ _ _ (eq (Some c))).
    { exists (Some c), s2. unfold read_if_ok. by rewrite Hr. }
    intros ? s3 Hwf3 _ <-. unfold removed_entities. destruct (parse_ok p c) as [[es rs] ->].
    eapply reads_bind; [by apply (reads_ret _ s3 (fun _ => True))|].
    intros ecs s4 Hwf4 _ _. by apply reads_ret. }
  intros [fds ecs] s1 Hwf1 Hl1 H1. eapply reads_bind; [apply IH; [done|intros q Hq; rewrite Hl1; apply Hx; by right]|].
  intros [fds' ecs'] s2 Hwf2 Hl2 H2. apply reads_ret; [done|]. simpl in *.
  rewrite Hl1 in H2. intros fd. rewrite elem_of_app, H1, H2. split.
  - intros [[Hb ->]|(q & Hq & Hb & ->)]; [exists p|exists q]; split_and!; try done; [by left|by right].
  - intros (q & [->|Hq]%elem_of_cons & Hb & ->); [by left|right; eauto].
Qed.

Lemma compute_with_reads w base deleted s :
  rd_wf s -> (forall p, is_Some (rd_lookup s (okey p)) \/ p ∈ deleted -> rd_exact (rd_lookup s) p) ->
  reads (compute_with_fs parse_rust_source sha256_hex iter_order w base deleted) s (fun d =>
    wd_workspace_id d = w /\ wd_base_version d = base /\
    forall fd, fd ∈ file_diffs d <->
      (exists p c, rd_lookup s (okey p) = Some c /\ fd = overlay_diff (rd_lookup s) p c) \/
      (exists p, p ∈ deleted /\ is_Some (rd_lookup s (bkey p)) /\ fd = mkFileDiff p FcDeleted 0 "")).
Proof using parse_ok.
  intros Hwf Hx. unfold compute_with_fs.
  destruct (rd_list s "overlay/" Hwf rd_prefix_overlay) as (s1 & keys & Hr & Hwf1 & Hl1 & Hkeys).
  eapply (reads_bind _ _ _ (eq keys)).
  { exists keys, s1. unfold err_into. by rewrite Hr. }
  intros ? s2 Hwf2 Hl2 <-. rewrite <-Hl2 in Hkeys, Hx |- *. clear Hwf Hr Hl1 Hl2.
  eapply reads_bind; [apply reads_overlay; [done|]|].
  { intros k [Hs (p & ->)]%Hkeys. split; [done|]. exists p. split; [done|]. apply Hx. by left. }
  intros [fds ecs] s3 Hwf3 Hl3 H3. eapply reads_bind.
  { apply reads_deleted; [done|]. intros p Hp. rewrite Hl3. apply Hx. by right. }
  intros [dfds decs] s4 Hwf4 Hl4 H4. apply reads_ret; [done|]. simpl in *. rewrite Hl3 in H4.
  split_and!; [done..|]. intros fd. rewrite elem_of_app, H3, H4.
  assert (Hk : (exists p c, okey p ∈ keys /\ rd_lookup s2 (okey p) = Some c /\ fd = overlay_diff (rd_lookup s2) p c)
    <-> (exists p c, rd_lookup s2 (okey p) = Some c /\ fd = overlay_diff (rd_lookup s2) p c)).
  { split; intros (p & c & Hpc); exists p, c; [tauto|]. destruct Hpc as [Hc ->]. split_and!; [|done..].
    apply Hkeys. split; [by eexists|]. by exists p. }
  by rewrite Hk.
Qed.
End whole.

(** The same over the whole contract of the files. *)
Section whole_spec.
Context {S : Type} `{MergeFsSpec S}.
Variable parse_rust_source : string -> bytes -> outcome GraphError (list Entity * list Relationship).
Variable sha256_hex : bytes -> string.
Variable iter_order : gset string -> list string.
Hypothesis parse_ok : forall p c, exists r, parse_rust_source p c = Ok r.

Definition diff_of (s : S) (w base : string) (deleted : list string) (d : WorkspaceDiff) : Prop :=
  wd_workspace_id d = w /\ wd_base_version d = base /\
  forall fd, fd ∈ file_diffs d <->
    (exists p c, fs_lookup s (okey p) = Some c /\ fd = overlay_diff sha256_hex (fs_lookup s) p c) \/
    (exists p, p ∈ deleted /\ is_Some (fs_lookup s (bkey p)) /\ fd = mkFileDiff p FcDeleted 0 "").

Lemma compute_with_fs_reads w base deleted s :
  fs_wf s -> exists d s', compute_with_fs parse_rust_source sha256_hex iter_order w base deleted s = (Ok d, s') /\
    fs_wf s' /\ fs_lookup s' = fs_lookup s /\ diff_of s w base deleted d.
Proof using parse_ok. intros Hwf.
  exact (compute_with_reads parse_rust_source sha256_hex iter_order parse_ok w base deleted s Hwf (fun _ _ => I)).
Qed.

(** A diff succeeds, changes nothing, and lists exactly the overlay's files,
    as modified when the base has the path (be it with the same content) and as
    added when not, and the deleted paths that the base has. *)
Theorem compute_with_fs_spec w base deleted s :
  fs_wf s -> exists d s', compute_with_fs parse_rust_source sha256_hex iter_order w base deleted s = (Ok d, s') /\
    fs_wf s' /\ fs_lookup s' = fs_lookup s /\ diff_of s w base deleted d.
Proof using parse_ok. apply compute_with_fs_reads. Qed.
End whole_spec.

(** ** Witnesses *)

Definition wit_entity (name : string) (s e : nat) : Entity :=
  mkEntity name Function name name "a.rs" (s, e) (0, 0) None.

(** A parser that finds one entity, the whole file. *)
Definition wit_parser (p : string) (c : bytes) : outcome GraphError (list Entity * list Relationship) :=
  Ok ([wit_entity "f" 0 (length c)], []).

Lemma compute_entity_diff_spec_witness :
  exists changes, compute_entity_diff wit_parser elements "a.rs" (bytes_of "fn f(){1}") (Some (bytes_of "fn f(){}"))
    = Ok changes /\ mkEntityChange "f" "f" Function "a.rs" EcModified (Some (0, 0)) ∈ changes.
Proof.
  destruct (compute_entity_diff_spec wit_parser elements (fun X => Permutation_refl _) "a.rs"
    (bytes_of "fn f(){1}") (bytes_of "fn f(){}") [wit_entity "f" 0 9] [] [wit_entity "f" 0 8] []
    eq_refl eq_refl) as (changes & Hc & Hs & _).
  exists changes. split; [exact Hc|]. apply Hs. simpl.
  exists (wit_entity "f" 0 9), (wit_entity "f" 0 8). split_and!; try reflexivity.
  intros H. vm_compute in H. discriminate H.
Defined.

Definition wit_parser_total (p : string) (c : bytes) : exists r, wit_parser p c = Ok r :=
  ex_intro _ _ eq_refl.
Lemma wit_diff_apart x y :
  "workspaces/w/" +:+ x <> "current/" +:+ y /\ "workspaces/w/" +:+ x <> "versions/" +:+ y /\
  "current/" +:+ x <> "versions/" +:+ y.
Proof. split_and!; intros E; discriminate E. Qed.

(** The overlay has [a] with the content of the base; [b] is deleted. *)
Definition wit_diff_store : S3 :=
  new_s3 (<["current/a"%string := bytes_of "1"]> (<["current/b"%string := bytes_of "2"]>
    {["workspaces/w/a"%string := bytes_of "1"]})) false.

Lemma compute_with_fs_spec_witness :
  exists d s', compute_with_fs (H:=S3MergeFs "workspaces/w/" "current/") wit_parser (fun _ => "h"%string)
      elements "w" "v1" ["b"%string] wit_diff_store = (Ok d, s') /\
    mkFileDiff "a" FcModified 1 "h" ∈ file_diffs d /\ mkFileDiff "b" FcDeleted 0 "" ∈ file_diffs d.
Proof.
  destruct (@compute_with_fs_spec S3 (S3MergeFs "workspaces/w/" "current/")
    (S3MergeFsSpec "workspaces/w/" "current/" wit_diff_apart) wit_parser (fun _ => "h"%string) elements
    wit_parser_total "w" "v1" ["b"%string] wit_diff_store) as (d & s' & Hr & _ & _ & _ & _ & Hfd).
  - apply new_s3_wf.
  - exists d, s'. split; [exact Hr|]. split; apply Hfd.
    + left. exists "a"%string, (bytes_of "1"). split; reflexivity.
    + right. exists "b"%string. split_and!; [by left|by eexists|reflexivity].
Defined.
