(* ===== verification/Submit.v ===== *)
(** Submission of a workspace ([src/src/merge/mod.rs]): the fast-forward path, the
    semantic merge, and what both do to the project, the snapshots, the event log,
    the version history, HEAD and the workspace. *)
From S2P Require Import Prelude RustStr TextMerge Graph EventLog MergeEngine MergeFs VaiDir.
From S2P Require Import Workspace Version Diff.

Inductive MergeError : Type :=
  | MeIo (e : IoError)
  | MeWorkspace (e : WorkspaceError)
  | MeDiff (e : DiffError)
  | MeRepo
  | MeConflictNotFound (id : string)
  | SemanticConflicts (count : nat) (conflicts : list ConflictRecord)
  | EmptyWorkspace.

Record SubmitResult : Type := mkSubmit {
  sr_version : VersionMeta;
  files_applied : nat;
  entities_changed : nat;
  auto_resolved : nat;
  sr_entity_ids : list string
}.

(** [version.trim_start_matches('v').parse::<usize>().unwrap_or(0)] *)
Fixpoint trim_start_v (s : string) : string :=
  match s with String "v" s' => trim_start_v s' | _ => s end.

Definition parse_version_num (version : string) : N := default 0%N (parse_u64 (trim_start_v version)).

(** [path.rsplit('.').next().unwrap_or("")] *)
Definition extension (path : string) : string := default ""%string (last (split_on "." path)).

Definition is_supported_source_file (path : string) : bool :=
  bool_decide (extension path ∈ ["rs"; "ts"; "tsx"; "js"; "jsx"]%string).

Section submit.
Context {S : Type} `{MergeFs S}.
Variable clock : nat -> DateTime.
(** The [n]-th identifier that [Uuid::new_v4()] draws. *)
Variable uuid : nat -> Uuid.
Variable read_dir : gmap string VersionMeta -> list VersionMeta.
Variable parse_rust_source : string -> bytes -> outcome GraphError (list Entity * list Relationship).
Variable parse_source_file : string -> bytes -> outcome GraphError (list Entity * list Relationship).
Variable sha256_hex : bytes -> string.
Variable iter_order : gset string -> list string.

Abbreviation World := (VaiDir * S)%type.
Abbreviation R := (M World MergeError).

Definition on_vai {A} (m : M VaiDir MergeError A) : R A :=
  fun '(v, s) => let '(r, v') := m v in (r, (v', s)).
Definition on_fs {A} (m : M S MergeError A) : R A :=
  fun '(v, s) => let '(r, s') := m s in (r, (v, s')).
Definition io {A} (m : M S IoError A) : R A := on_fs (err_into MeIo m).
Definition vai_state : R VaiDir := fun '(v, s) => (Ok v, (v, s)).

(** ** Shared helpers *)

(** [update_graph_for_diff]: files that cannot be read or parsed are skipped. *)
Definition update_graph_for_file (fd : FileDiff) : R unit := fun '(v, s) =>
  if is_supported_source_file (fd_path fd) then
    match read_file ("base/" +:+ fd_path fd) s with
    | (Ok content, s') =>
        let '(r, g) := update_file parse_source_file (fd_path fd) content (graph v) in
        (match r with Panic => Panic | _ => Ok tt end, (set_graph g v, s'))
    | (Err _, s') => (Ok tt, (v, s'))
    | (Panic, s') => (Panic, (v, s'))
    end
  else (Ok tt, (v, s)).

Definition update_graph_for_diff (d : WorkspaceDiff) : R unit :=
  for_each update_graph_for_file (file_diffs d).

Definition save_file_snapshot (new_version_id : string) (fd : FileDiff) : R unit :=
  let base_key := "base/" +:+ fd_path fd in
  there ← io (exists_file base_key);
  if (there : bool) then
    content ← io (read_file base_key);
    io (write_file ("snapshot/" +:+ new_version_id +:+ "/" +:+ fd_path fd) content)
  else mret tt.

Definition save_pre_change_snapshot (new_version_id : string) (d : WorkspaceDiff) : R unit :=
  for_each (save_file_snapshot new_version_id) (file_diffs d).

Definition apply_overlay_file (key : string) : R unit :=
  rel_path ← on_fs (lift (or_panic (strip_prefix "overlay/" key)));
  content ← io (read_file key);
  io (write_file ("base/" +:+ rel_path) content).

Definition delete_base_file (path : string) : R unit := io (delete_file ("base/" +:+ path)).

Definition apply_overlay (deleted_paths : list string) : R nat :=
  overlay_keys ← io (list_files "overlay/");
  _ ← for_each apply_overlay_file overlay_keys;
  _ ← for_each delete_base_file deleted_paths;
  mret (length overlay_keys).

Definition advance_head_and_close_workspace (new_version_id : string) (ws : WorkspaceMeta) :
    M VaiDir MergeError unit :=
  _ ← modify_st (set_head (Some (new_version_id +:+ String LF EmptyString)));
  t ← now clock;
  _ ← err_into MeWorkspace (update_meta
        (mkWs (ws_id ws) (ws_intent ws) (base_version ws) WsMerged (ws_created_at ws) t
          (ws_issue_id ws) (ws_deleted_paths ws)));
  modify_st (set_active_file None).

(** What both paths end with: the events, the version, HEAD and the workspace. *)
Definition finish_merge (ws : WorkspaceMeta) (new_version_id : string) (deleted_paths : list string)
    (auto : nat) : M VaiDir MergeError VersionMeta :=
  _ ← append_all clock (FileRemoved (ws_id ws) <$> deleted_paths);
  merge_event ← append_event clock (MergeCompleted (ws_id ws) new_version_id (N.of_nat auto));
  _ ← append_event clock (VersionCreated new_version_id (Some (base_version ws)) (ws_intent ws));
  meta ← create_version clock new_version_id (Some (base_version ws)) (ws_intent ws) "agent"
           (Some (ev_id merge_event));
  _ ← advance_head_and_close_workspace new_version_id ws;
  mret meta.

Definition submit_result (d : WorkspaceDiff) (meta : VersionMeta) (applied auto : nat) : SubmitResult :=
  let ids := ec_entity_id <$> wd_entity_changes d in
  mkSubmit meta applied (length ids) auto ids.

(** ** Fast-forward *)

Definition fast_forward_merge (ws : WorkspaceMeta) (d : WorkspaceDiff) (deleted_paths : list string) :
    R SubmitResult :=
  v ← vai_state;
  let new_version_id := next_version_id read_dir v in
  _ ← save_pre_change_snapshot new_version_id d;
  applied ← apply_overlay deleted_paths;
  _ ← update_graph_for_diff d;
  meta ← on_vai (finish_merge ws new_version_id deleted_paths 0);
  mret (submit_result d meta applied 0).

(** ** Semantic merge *)

(** One snapshot file of a version after the base. *)
Definition collect_key (prefix : string) (result : gmap string bytes) (key : string) :
    R (gmap string bytes) :=
  rel_path ← on_fs (lift (or_panic (strip_prefix prefix key)));
  content ← io (read_file key);
  mret (match result !! rel_path with Some _ => result | None => <[rel_path := content]> result end).

Fixpoint collect_keys (prefix : string) (keys : list string) (result : gmap string bytes) :
    R (gmap string bytes) :=
  match keys with
  | [] => mret result
  | key :: keys' => r ← collect_key prefix result key; collect_keys prefix keys' r
  end.

(** The versions [n], [n + 1], ... *)
Fixpoint collect_versions (count : nat) (n : N) (result : gmap string bytes) :
    R (gmap string bytes) :=
  match count with
  | 0 => mret result
  | Datatypes.S count' =>
      let prefix := "snapshot/v" +:+ print_u64 n +:+ "/" in
      keys ← io (list_files prefix);
      r ← collect_keys prefix keys result;
      collect_versions count' (n + 1)%N r
  end.

Definition collect_head_changed_files (base : string) : R (gmap string bytes) :=
  v ← vai_state;
  match read_head v with
  | None => fail MeRepo
  | Some hd =>
      let base_n := parse_version_num base in
      let head_n := parse_version_num hd in
      collect_versions (N.to_nat (head_n - base_n)) (base_n + 1)%N ∅
  end.

(** The result of the three levels for a file that HEAD changed too; the
    identifiers of its conflicts are drawn. *)
Definition merge_changed_file (ws : WorkspaceMeta) (path : string) (base_content head_content
    ws_content : bytes) : R FileMergeResult := fun '(v, s) =>
  match try_merge_file parse_rust_source iter_order (fun i => uuid (draws v + i)) path base_content
          head_content ws_content (ws_id ws) with
  | None => (Panic, (v, s))
  | Some (AutoMerged c l) => (Ok (AutoMerged c l), (v, s))
  | Some (Conflicts rs) => (Ok (Conflicts rs), (set_draws (draws v + length rs) v, s))
  end.

Record Merging : Type := mkMerging {
  merged_files : list (string * bytes);
  mg_auto_resolved : nat;
  mg_conflicts : list ConflictRecord
}.

Definition merge_file_diff (ws : WorkspaceMeta) (head_changed : gmap string bytes) (acc : Merging)
    (fd : FileDiff) : R Merging :=
  ws_content ← io (read_file ("overlay/" +:+ fd_path fd));
  match head_changed !! fd_path fd with
  | Some base_content =>
      let base_key := "base/" +:+ fd_path fd in
      there ← io (exists_file base_key);
      head_content ← (if (there : bool) then io (read_file base_key) else mret []);
      res ← merge_changed_file ws (fd_path fd) base_content head_content ws_content;
      mret (match res with
            | AutoMerged merged _ =>
                mkMerging (merged_files acc ++ [(fd_path fd, merged)])
                  (mg_auto_resolved acc + 1) (mg_conflicts acc)
            | Conflicts rs =>
                mkMerging (merged_files acc) (mg_auto_resolved acc) (mg_conflicts acc ++ rs)
            end)
  | None =>
      mret (mkMerging (merged_files acc ++ [(fd_path fd, ws_content)])
              (mg_auto_resolved acc) (mg_conflicts acc))
  end.

Fixpoint merge_file_diffs (ws : WorkspaceMeta) (head_changed : gmap string bytes)
    (fds : list FileDiff) (acc : Merging) : R Merging :=
  match fds with
  | [] => mret acc
  | fd :: fds' => acc' ← merge_file_diff ws head_changed acc fd;
                  merge_file_diffs ws head_changed fds' acc'
  end.

Definition store_all_conflicts (records : list ConflictRecord) : M VaiDir MergeError unit :=
  modify_st (fun v => set_conflict_files
    (foldl (fun m r => <[conflict_id r := r]> m) (conflict_files v) records) v).

Definition conflict_event (w : Uuid) (c : ConflictRecord) : EventKind :=
  MergeConflictDetected w (mkConflictInfo (conflict_id c) (default ""%string (entity_ids c !! 0))
    (default ""%string (entity_ids c !! 1)) (description c) (severity c)).

Definition write_merged (f : string * bytes) : R unit := io (write_file ("base/" +:+ f.1) f.2).

(** What follows the analysis: the conflicts are stored, or everything is applied. *)
Definition apply_merge (ws : WorkspaceMeta) (d : WorkspaceDiff) (deleted_paths : list string)
    (m : Merging) : R SubmitResult :=
  match mg_conflicts m with
  | _ :: _ =>
      _ ← on_vai (store_all_conflicts (mg_conflicts m));
      _ ← on_vai (append_all clock (conflict_event (ws_id ws) <$> mg_conflicts m));
      fail (SemanticConflicts (length (mg_conflicts m)) (mg_conflicts m))
  | [] =>
      v ← vai_state;
      let new_version_id := next_version_id read_dir v in
      _ ← save_pre_change_snapshot new_version_id d;
      _ ← for_each write_merged (merged_files m);
      _ ← for_each delete_base_file deleted_paths;
      _ ← update_graph_for_diff d;
      meta ← on_vai (finish_merge ws new_version_id deleted_paths (mg_auto_resolved m));
      mret (submit_result d meta (length (merged_files m)) (mg_auto_resolved m))
  end.

Definition semantic_merge (ws : WorkspaceMeta) (d : WorkspaceDiff) (deleted_paths : list string) :
    R SubmitResult :=
  head_changed ← collect_head_changed_files (base_version ws);
  m ← merge_file_diffs ws head_changed (file_diffs d) (mkMerging [] 0 []);
  apply_merge ws d deleted_paths m.

(** ** Submission *)

Definition nat_text (n : nat) : string := print_u64 (N.of_nat n).

Definition submit_with_fs (ws : WorkspaceMeta) (deleted_paths : list string) : R SubmitResult :=
  d ← on_fs (err_into MeDiff (compute_with_fs parse_rust_source sha256_hex iter_order
               (ws_id ws) (base_version ws) deleted_paths));
  if diff_is_empty d then fail EmptyWorkspace
  else
    _ ← on_vai (err_into MeDiff (record_events clock d));
    _ ← on_vai (append_event clock (WorkspaceSubmitted (ws_id ws)
          (nat_text (length (file_diffs d)) +:+ " file(s), " +:+
           nat_text (length (wd_entity_changes d)) +:+ " entity change(s)")));
    v ← vai_state;
    match read_head v with
    | None => fail MeRepo
    | Some current_head =>
        if String.eqb current_head (base_version ws)
        then fast_forward_merge ws d deleted_paths
        else semantic_merge ws d deleted_paths
    end.

(** Local submission: the active workspace, and the deletions of its manifest. *)
Definition submit : R SubmitResult :=
  ws ← on_vai (err_into MeWorkspace active);
  v ← vai_state;
  submit_with_fs ws (default [] (manifests v !! ws_id ws)).
End submit.

(** ** Conflict records *)

(** [uuid_parses] is [str::parse::<Uuid>], [None] on a text that is no UUID. *)
Definition resolve_conflict (clock : nat -> DateTime) (parse_uuid : string -> option Uuid)
    (id_str : string) : M VaiDir MergeError ConflictRecord :=
  match parse_uuid id_str with
  | None => fail (MeConflictNotFound id_str)
  | Some id =>
      v ← get_st;
      match conflict_files v !! id with
      | None => fail (MeConflictNotFound id_str)
      | Some r =>
          let r' := mkConflict (conflict_id r) (c_workspace_id r) (c_file_path r) (entity_ids r)
                      (description r) (severity r) (merge_level r) true in
          _ ← put_st (set_conflict_files (<[id := r']> (conflict_files v)) v);
          _ ← append_event clock (MergeConflictResolved id "manual" "agent");
          mret r'
      end
  end.

Definition list_conflicts (v : VaiDir) : list ConflictRecord :=
  sort_by (fun a b => String.leb (conflict_id a) (conflict_id b))
    (map_to_list (conflict_files v)).*2.

(** ** Reasoning about submissions *)

Section reasoning.
Context {S : Type} `{MergeFsSpec S}.

Abbreviation World := (VaiDir * S)%type.

(** The call succeeds, leaves the files well formed, and [P] holds after it. *)
Definition ok_run {E A} (m : M World E A) (v : VaiDir) (s : S) (P : A -> VaiDir -> S -> Prop) : Prop :=
  exists a v' s', m (v, s) = (Ok a, (v', s')) /\ fs_wf s' /\ P a v' s'.

Lemma ok_ret {E A} (a : A) v s (P : A -> VaiDir -> S -> Prop) :
  fs_wf s -> P a v s -> ok_run (E:=E) (mret a) v s P.
Proof. intros. by exists a, v, s. Qed.

Lemma ok_bind {E A B} (m : M World E A) (f : A -> M World E B) v s Q P :
  ok_run m v s Q ->
  (forall a v' s', fs_wf s' -> Q a v' s' -> ok_run (f a) v' s' P) -> ok_run (m ≫= f) v s P.
Proof.
  intros (a & v' & s' & Hm & Hwf & HQ) Hf. destruct (Hf a v' s' Hwf HQ) as (b & v'' & s'' & Hb & ?).
  exists b, v'', s''. by rewrite (M_bind_ok _ _ _ _ _ Hm).
Qed.

Lemma ok_mono {E A} (m : M World E A) v s (Q P : A -> VaiDir -> S -> Prop) :
  ok_run m v s Q -> (forall a v' s', Q a v' s' -> P a v' s') -> ok_run m v s P.
Proof. intros (a & v' & s' & Hm & Hwf & HQ) HQP. exists a, v', s'. auto. Qed.

Lemma ok_vai_state v s (P : VaiDir -> VaiDir -> S -> Prop) :
  fs_wf s -> P v v s -> ok_run vai_state v s P.
Proof. intros. by exists v, v, s. Qed.

Lemma ok_on_vai {A} (m : M VaiDir MergeError A) v s a v' (P : A -> VaiDir -> S -> Prop) :
  m v = (Ok a, v') -> fs_wf s -> P a v' s -> ok_run (on_vai m) v s P.
Proof. intros Hm Hwf HP. exists a, v', s. unfold on_vai. by rewrite Hm. Qed.

(** A file operation leaves [VaiDir] as it is. *)
Lemma ok_read k c v s :
  fs_wf s -> fs_key k -> fs_lookup s k = Some c ->
  ok_run (io (read_file k)) v s (fun a v' s' => a = c /\ v' = v /\ fs_lookup s' = fs_lookup s).
Proof.
  intros Hwf Hk Hl. destruct (read_file_spec s k Hwf Hk) as (s' & Hr & Hwf' & Hl').
  exists c, v, s'. unfold io, on_fs, err_into. by rewrite Hr, Hl.
Qed.

Lemma read_missing k v s :
  fs_wf s -> fs_key k -> fs_lookup s k = None ->
  exists s', io (read_file k) (v, s) = (Err (MeIo NotFound), (v, s')) /\ fs_wf s' /\
    fs_lookup s' = fs_lookup s.
Proof.
  intros Hwf Hk Hl. destruct (read_file_spec s k Hwf Hk) as (s' & Hr & Hwf' & Hl').
  exists s'. unfold io, on_fs, err_into. by rewrite Hr, Hl.
Qed.

Lemma ok_exists k v s :
  fs_wf s -> fs_key k ->
  ok_run (io (exists_file k)) v s (fun b v' s' =>
    b = bool_decide (is_Some (fs_lookup s k)) /\ v' = v /\ fs_lookup s' = fs_lookup s).
Proof.
  intros Hwf Hk. destruct (exists_file_spec s k Hwf Hk) as (s' & Hr & Hwf' & Hl').
  eexists _, v, s'. unfold io, on_fs, err_into. by rewrite Hr.
Qed.

Lemma ok_write k c v s :
  fs_wf s -> fs_key k ->
  ok_run (io (write_file k c)) v s (fun _ v' s' => v' = v /\
    forall k', fs_key k' -> fs_lookup s' k' = if decide (k' = k) then Some c else fs_lookup s k').
Proof.
  intros Hwf Hk. destruct (write_file_spec s k c Hwf Hk) as (s' & Hr & Hwf' & Hl').
  exists tt, v, s'. unfold io, on_fs, err_into. by rewrite Hr.
Qed.

Lemma ok_delete k v s :
  fs_wf s -> fs_key k ->
  ok_run (io (delete_file k)) v s (fun _ v' s' => v' = v /\
    forall k', fs_key k' -> fs_lookup s' k' = if decide (k' = k) then None else fs_lookup s k').
Proof.
  intros Hwf Hk. destruct (delete_file_spec s k Hwf Hk) as (s' & Hr & Hwf' & Hl').
  exists tt, v, s'. unfold io, on_fs, err_into. by rewrite Hr.
Qed.

Lemma ok_list p v s :
  fs_wf s -> fs_prefix p ->
  ok_run (io (list_files p)) v s (fun keys v' s' => v' = v /\ fs_lookup s' = fs_lookup s /\
    NoDup keys /\ forall k, k ∈ keys <-> is_Some (fs_lookup s k) /\ exists rel, k = p +:+ rel).
Proof.
  intros Hwf Hp. destruct (list_files_spec s p Hwf Hp) as (s' & keys & Hr & Hwf' & Hl' & Hnd & Hk).
  exists keys, v, s'. unfold io, on_fs, err_into. by rewrite Hr.
Qed.

Lemma ok_for_each {E A} (f : A -> M World E unit) (I : list A -> VaiDir -> S -> Prop) l v s :
  fs_wf s -> I [] v s ->
  (forall pre x v s, fs_wf s -> I pre v s -> x ∈ l ->
     ok_run (f x) v s (fun _ => I (pre ++ [x]))) ->
  ok_run (for_each f l) v s (fun _ => I l).
Proof.
  intros Hwf HI Hf.
  assert (Hgen : forall l' pre v s, fs_wf s -> I pre v s -> (forall x, x ∈ l' -> x ∈ l) ->
    ok_run (for_each f l') v s (fun _ => I (pre ++ l'))).
  { clear Hwf HI v s. intros l'. induction l' as [|x l' IH]; intros pre v s Hwf HI Hsub; simpl.
    { apply ok_ret; [done|]. by rewrite app_nil_r. }
    eapply ok_bind; [apply Hf; [done|exact HI|apply Hsub; by left]|].
    intros [] v' s' Hwf' HI'. rewrite cons_middle, app_assoc. apply IH; [done..|].
    intros y Hy. apply Hsub. by right. }
  by apply (Hgen l []).
Qed.

(** *** Snapshots, overlay, deletions *)

Lemma ok_save_snapshot n d v s :
  let id := "v" +:+ print_u64 n in
  fs_wf s ->
  ok_run (save_pre_change_snapshot id d) v s (fun _ v' s' => v' = v /\
    (forall k, fs_key k -> (forall p, p ∈ fd_path <$> file_diffs d -> k <> skey id p) ->
       fs_lookup s' k = fs_lookup s k) /\
    (forall p, p ∈ fd_path <$> file_diffs d -> fs_lookup s' (skey id p) =
       match fs_lookup s (bkey p) with Some c => Some c | None => fs_lookup s (skey id p) end)).
Proof.
  intros id Hwf.
  assert (Hs : forall p, fs_key (skey id p)) by (intros p; apply (fs_key_snapshot n p)).
  eapply ok_mono; [apply (ok_for_each _ (fun pre v' s' => v' = v /\
    (forall k, fs_key k -> (forall p, p ∈ fd_path <$> pre -> k <> skey id p) ->
       fs_lookup s' k = fs_lookup s k) /\
    (forall p, p ∈ fd_path <$> pre -> fs_lookup s' (skey id p) =
       match fs_lookup s (bkey p) with Some c => Some c | None => fs_lookup s (skey id p) end)));
    [done|split_and!; [done..|by intros p ?%not_elem_of_nil]|]|by intros [] v' s'].
  intros pre fd v1 s1 Hwf1 (-> & Hfr & Hsn) _. unfold save_file_snapshot.
  fold (bkey (fd_path fd)) (skey id (fd_path fd)).
  assert (Hb : fs_lookup s1 (bkey (fd_path fd)) = fs_lookup s (bkey (fd_path fd))).
  { apply Hfr; [apply fs_key_base|done]. }
  eapply ok_bind; [apply ok_exists; [done|apply fs_key_base]|].
  intros there v2 s2 Hwf2 (-> & -> & Hl2). rewrite Hb.
  case_bool_decide as Hex.
  - destruct Hex as [c Hc]. eapply ok_bind.
    { apply (ok_read _ c); [done|apply fs_key_base|]. by rewrite Hl2, Hb. }
    intros c' v3 s3 Hwf3 (-> & -> & Hl3).
    eapply ok_mono; [apply ok_write; [done|apply Hs]|].
    intros [] v4 s4 (-> & Hl4). split; [done|].
    setoid_rewrite fmap_app. setoid_rewrite elem_of_app. simpl. setoid_rewrite list_elem_of_singleton.
    split.
    + intros k Hk Hne. rewrite Hl4, decide_False, Hl3, Hl2 by auto. apply Hfr; auto.
    + intros p Hp. rewrite Hl4 by apply Hs. case_decide as Hd.
      * apply skey_inj in Hd as ->. by rewrite Hc.
      * rewrite Hl3, Hl2. destruct Hp as [Hp| ->]; [by apply Hsn|done].
  - apply ok_ret; [done|]. split; [done|].
    setoid_rewrite fmap_app. setoid_rewrite elem_of_app. simpl. setoid_rewrite list_elem_of_singleton.
    rewrite Hl2. split.
    + intros k Hk Hne. apply Hfr; auto.
    + intros p [Hp| ->]; [by apply Hsn|].
      destruct (decide (fd_path fd ∈ fd_path <$> pre)) as [Hin|Hin]; [by apply Hsn|].
      destruct (fs_lookup s (bkey (fd_path fd))) eqn:E; [exfalso; apply Hex; eauto|].
      apply Hfr; [apply Hs|]. intros p Hp Heq%skey_inj. congruence.
Qed.

Lemma ok_delete_files deleted v s :
  fs_wf s ->
  ok_run (for_each delete_base_file deleted) v s (fun _ v' s' => v' = v /\
    (forall k, fs_key k -> (forall p, p ∈ deleted -> k <> bkey p) -> fs_lookup s' k = fs_lookup s k) /\
    (forall p, p ∈ deleted -> fs_lookup s' (bkey p) = None)).
Proof.
  intros Hwf.
  eapply ok_mono; [apply (ok_for_each _ (fun pre v' s' => v' = v /\
    (forall k, fs_key k -> (forall p, p ∈ pre -> k <> bkey p) -> fs_lookup s' k = fs_lookup s k) /\
    (forall p, p ∈ pre -> fs_lookup s' (bkey p) = None)));
    [done|split_and!; [done..|by intros p ?%not_elem_of_nil]|]|by intros [] v' s'].
  intros pre q v1 s1 Hwf1 (-> & Hfr & Hdel) _. unfold delete_base_file. fold (bkey q).
  eapply ok_mono; [apply ok_delete; [done|apply fs_key_base]|].
  intros [] v2 s2 (-> & Hl). split; [done|].
  setoid_rewrite elem_of_app. setoid_rewrite list_elem_of_singleton. split.
  - intros k Hk Hne. rewrite Hl, decide_False by auto. apply Hfr; auto.
  - intros p Hp. rewrite Hl by apply fs_key_base. case_decide as Hd; [done|].
    destruct Hp as [Hp| ->]; [by apply Hdel|done].
Qed.

Lemma ok_apply_overlay deleted v s :
  fs_wf s ->
  ok_run (apply_overlay deleted) v s (fun _ v' s' => v' = v /\
    (forall k, fs_key k -> (forall p, k <> bkey p) -> fs_lookup s' k = fs_lookup s k) /\
    (forall p, fs_lookup s' (bkey p) =
       if decide (p ∈ deleted) then None
       else match fs_lookup s (okey p) with Some c => Some c | None => fs_lookup s (bkey p) end)).
Proof.
  intros Hwf. unfold apply_overlay.
  eapply ok_bind; [apply ok_list; [done|apply fs_prefix_overlay]|].
  intros keys v1 s1 Hwf1 (-> & Hl1 & Hnd & Hkeys). rewrite <-Hl1 in Hkeys |- *. clear s Hl1 Hwf.
  eapply ok_bind.
  { apply (ok_for_each _ (fun pre v' s' => v' = v /\
      (forall k, fs_key k -> (forall p, k <> bkey p) -> fs_lookup s' k = fs_lookup s1 k) /\
      (forall p, fs_lookup s' (bkey p) =
         if decide (okey p ∈ pre) then fs_lookup s1 (okey p) else fs_lookup s1 (bkey p)))).
    - done.
    - split_and!; [done..|]. intros p. by rewrite decide_False by apply not_elem_of_nil.
    - intros pre key v2 s2 Hwf2 (-> & Hfr & Hb) Hin.
      destruct (proj1 (Hkeys key) Hin) as ([c Hc] & rel & ->).
      change ("overlay/" +:+ rel) with (okey rel) in *. unfold apply_overlay_file.
      assert (Hstrip : strip_prefix "overlay/" (okey rel) = Some rel) by apply strip_prefix_app.
      rewrite Hstrip. simpl. eapply ok_bind.
      { exists rel, v, s2. split_and!; [reflexivity|done|].
        instantiate (1 := fun a v' s' => a = rel /\ v' = v /\ s' = s2). done. }
      intros ? ? ? _ (-> & -> & ->). eapply ok_bind.
      { apply (ok_read _ c); [done|apply fs_key_overlay|].
        rewrite Hfr; [done|apply fs_key_overlay|done]. }
      intros ? v3 s3 Hwf3 (-> & -> & Hl3). change ("base/" +:+ rel) with (bkey rel).
      eapply ok_mono; [apply ok_write; [done|apply fs_key_base]|].
      intros [] v4 s4 (-> & Hl4). split_and!; [done| |].
      + intros k Hk Hne. rewrite Hl4, decide_False, Hl3 by auto. by apply Hfr.
      + intros p. rewrite Hl4, Hl3, Hb by apply fs_key_base.
        destruct (decide (bkey p = bkey rel)) as [->%bkey_inj|Hne].
        * rewrite decide_True; [done|]. apply elem_of_app. right. by left.
        * apply decide_ext. rewrite elem_of_app, list_elem_of_singleton.
          split; [by left|]. intros [?| ->%okey_inj]; done. }
  intros [] v2 s2 Hwf2 (-> & Hfr & Hb). eapply ok_bind; [by apply ok_delete_files|].
  intros [] v3 s3 Hwf3 (-> & Hfr3 & Hdel). apply ok_ret; [done|]. split_and!; [done| |].
  - intros k Hk Hne. rewrite Hfr3 by auto. by apply Hfr.
  - intros p. case_decide as Hp; [by apply Hdel|].
    rewrite Hfr3; [|apply fs_key_base|intros q Hq ->%bkey_inj; done]. rewrite Hb.
    destruct (fs_lookup s1 (okey p)) as [c|] eqn:Ec.
    + rewrite decide_True; [done|]. apply Hkeys. rewrite Ec. split; [done|]. by exists p.
    + rewrite decide_False; [done|]. intros (Hx & _)%Hkeys. rewrite Ec in Hx. by destruct Hx.
Qed.
End reasoning.

(** *** Events *)

(** [v'] is [v] with events of these kinds, in this order, added to the log. *)
Definition grown (kinds : list EventKind) (v v' : VaiDir) : Prop :=
  exists l n, v' = set_ticks n (set_log (log v ++ l) v) /\ ev_kind <$> l = kinds /\
    (log_wf (log v) -> log_wf (log v')).

Lemma grown_refl v : grown [] v v.
Proof. exists [], (ticks v). rewrite app_nil_r. by destruct v. Qed.

Lemma grown_trans k1 k2 v1 v2 v3 : grown k1 v1 v2 -> grown k2 v2 v3 -> grown (k1 ++ k2) v1 v3.
Proof.
  intros (l1 & n1 & -> & <- & H1) (l2 & n2 & -> & <- & H2). exists (l1 ++ l2), n2.
  rewrite fmap_app. simpl. rewrite app_assoc. split_and!; [done..|]. simpl in *. auto.
Qed.

Lemma append_event_grown {E} clock k v :
  exists e v', append_event (E:=E) clock k v = (Ok e, v') /\ ev_kind e = k /\ e ∈ log v' /\
    grown [k] v v'.
Proof.
  rewrite append_event_eq. do 2 eexists. split; [done|]. split; [done|]. split.
  - unfold after_append, append. simpl. apply elem_of_app. right. by left.
  - exists [mkEvent (next_id (log v)) (clock (ticks v)) k], (Datatypes.S (ticks v)).
    split_and!; [by destruct v|done|]. apply after_append_log_wf.
Qed.

Lemma append_all_grown {E} clock kinds v :
  exists v', append_all (E:=E) clock kinds v = (Ok tt, v') /\ grown kinds v v'.
Proof.
  unfold append_all. revert v; induction kinds as [|k kinds IH]; intros v; simpl.
  { exists v. split; [done|apply grown_refl]. }
  destruct (append_event_grown (E:=E) clock k v) as (e & v1 & He & _ & _ & Hg).
  destruct (IH v1) as (v2 & H2 & Hg2). exists v2. split.
  - unfold mbind, M_bind. rewrite He. exact H2.
  - by apply (grown_trans [k] kinds v v1).
Qed.

(** What the end of both paths does to the metadata. *)
Record merged_state (ws : WorkspaceMeta) (id : string) (deleted : list string) (auto : nat)
    (v v' : VaiDir) (meta : VersionMeta) : Prop := {
  ms_id : version_id meta = id;
  ms_parent : parent_version_id meta = Some (base_version ws);
  ms_intent : v_intent meta = ws_intent ws;
  ms_versions : versions v' = <[id := meta]> (versions v);
  ms_head : head_file v' = Some (id +:+ String LF EmptyString);
  ms_workspace : exists t, workspaces v' =
    <[ws_id ws := mkWs (ws_id ws) (ws_intent ws) (base_version ws) WsMerged (ws_created_at ws) t
                    (ws_issue_id ws) (ws_deleted_paths ws)]> (workspaces v);
  ms_active : active_file v' = None;
  ms_graph : graph v' = graph v;
  ms_manifests : manifests v' = manifests v;
  ms_conflicts : conflict_files v' = conflict_files v;
  ms_log : exists l, log v' = log v ++ l /\
    ev_kind <$> l = (FileRemoved (ws_id ws) <$> deleted) ++
      [MergeCompleted (ws_id ws) id (N.of_nat auto);
       VersionCreated id (Some (base_version ws)) (ws_intent ws)];
  ms_event : log_wf (log v) -> exists e n, merge_event_id meta = Some n /\
    get_by_id (log v') n = Some e /\ ev_kind e = MergeCompleted (ws_id ws) id (N.of_nat auto)
}.

Lemma finish_merge_ok clock ws id deleted auto v m0 :
  workspaces v !! ws_id ws = Some m0 ->
  exists meta v', finish_merge clock ws id deleted auto v = (Ok meta, v') /\
    merged_state ws id deleted auto v v' meta.
Proof.
  intros Hws. unfold finish_merge.
  destruct (append_all_grown (E:=MergeError) clock (FileRemoved (ws_id ws) <$> deleted) v)
    as (v1 & H1 & G1).
  rewrite (M_bind_ok _ _ _ _ _ H1).
  destruct (append_event_grown (E:=MergeError) clock
    (MergeCompleted (ws_id ws) id (N.of_nat auto)) v1) as (e & v2 & H2 & He & Hin & G2).
  rewrite (M_bind_ok _ _ _ _ _ H2).
  destruct (append_event_grown (E:=MergeError) clock
    (VersionCreated id (Some (base_version ws)) (ws_intent ws)) v2) as (e' & v3 & H3 & _ & _ & G3).
  rewrite (M_bind_ok _ _ _ _ _ H3).
  pose proof (grown_trans _ _ _ _ _ (grown_trans _ _ _ _ _ G1 G2) G3) as G.
  destruct G3 as (l3 & n3 & E3 & _ & W3).
  destruct G as (l & n & E & Hk & Hlwf).
  assert (Hw3 : workspaces v3 = workspaces v) by (by rewrite E).
  unfold create_version, advance_head_and_close_workspace, update_meta, write_meta, now,
    modify_st, err_into, get_st, mret, M_ret, mbind, M_bind. simpl. rewrite Hw3, Hws. simpl.
  do 2 eexists. split; [reflexivity|]. constructor; simpl; try done.
  - by rewrite E.
  - rewrite Hw3. eexists. reflexivity.
  - by rewrite E.
  - by rewrite E.
  - by rewrite E.
  - exists l. rewrite E. simpl. split; [done|]. rewrite Hk, <-app_assoc. done.
  - intros Hwf. exists e, (ev_id e). split_and!; [done| |done].
    apply get_by_id_elem; [by apply Hlwf|]. rewrite E3. simpl. apply elem_of_app. by left.
Qed.

Section theorems.
Context {S : Type} `{MergeFsSpec S}.
Variable clock : nat -> DateTime.
Variable uuid : nat -> Uuid.
Variable read_dir : gmap string VersionMeta -> list VersionMeta.
Variable parse_rust_source : string -> bytes -> outcome GraphError (list Entity * list Relationship).
Variable parse_source_file : string -> bytes -> outcome GraphError (list Entity * list Relationship).
Variable sha256_hex : bytes -> string.
Variable iter_order : gset string -> list string.
Hypothesis parse_no_panic : forall p c, parse_source_file p c <> Panic.

(** The graph after the entities of a file were read again, from the files [f] of the project. *)
Definition regraph (f : string -> option bytes) (g : GraphSnapshot) (fd : FileDiff) : GraphSnapshot :=
  if is_supported_source_file (fd_path fd) then
    match f (fd_path fd) with Some c => (update_file parse_source_file (fd_path fd) c g).2 | None => g end
  else g.

Lemma ok_update_graph d v s :
  fs_wf s ->
  ok_run (update_graph_for_diff parse_source_file d) v s (fun _ v' s' =>
    v' = set_graph (foldl (regraph (fun p => fs_lookup s (bkey p))) (graph v) (file_diffs d)) v /\ fs_lookup s' = fs_lookup s).
Proof using parse_no_panic.
  intros Hwf. set (f := fun p => fs_lookup s (bkey p)).
  eapply ok_mono; [apply (ok_for_each _ (fun pre v' s' =>
    v' = set_graph (foldl (regraph f) (graph v) pre) v /\ fs_lookup s' = fs_lookup s)); [done| |]|by intros [] v' s'].
  { split; [by destruct v|done]. }
  intros pre fd v1 s1 Hwf1 [-> Hl] _. rewrite foldl_app. simpl. set (g := foldl (regraph f) (graph v) pre).
  unfold update_graph_for_file, regraph. destruct (is_supported_source_file (fd_path fd)).
  2:{ exists tt, (set_graph g v), s1. by split_and!. }
  destruct (read_file_spec s1 ("base/" +:+ fd_path fd) Hwf1 (fs_key_base _)) as (s2 & Hr & Hwf2 & Hl2).
  unfold ok_run. rewrite Hr. unfold f at 1. rewrite <-Hl. change (bkey (fd_path fd)) with ("base/" +:+ fd_path fd).
  destruct (fs_lookup s1 _) as [c|]; [|exists tt, (set_graph g v), s2; by split_and!; [..|congruence]].
  change (graph (set_graph g v)) with g. destruct (update_file parse_source_file (fd_path fd) c g) as [r g'] eqn:Eu.
  exists tt, (set_graph g' v), s2. split_and!; [|done|done|congruence].
  destruct r; [done..|]. exfalso. unfold update_file in Eu.
  destruct (parse_source_file (fd_path fd) c) as [[]| |] eqn:Ep; try done. by apply (parse_no_panic (fd_path fd) c).
Qed.

Lemma fast_forward_merge_ok ws d deleted v s m0 :
  fs_wf s -> workspaces v !! ws_id ws = Some m0 ->
  let id := next_version_id read_dir v in
  ok_run (fast_forward_merge clock read_dir parse_source_file ws d deleted) v s (fun r v' s' =>
    (forall p, fs_lookup s' (bkey p) =
       if decide (p ∈ deleted) then None
       else match fs_lookup s (okey p) with Some c => Some c | None => fs_lookup s (bkey p) end) /\
    (forall p, p ∈ fd_path <$> file_diffs d -> fs_lookup s' (skey id p) =
       match fs_lookup s (bkey p) with Some c => Some c | None => fs_lookup s (skey id p) end) /\
    (forall k, fs_key k -> (forall p, k <> bkey p) ->
       (forall p, p ∈ fd_path <$> file_diffs d -> k <> skey id p) ->
       fs_lookup s' k = fs_lookup s k) /\
    read_head v' = Some id /\
    merged_state ws id deleted 0
      (set_graph (foldl (regraph (fun p => fs_lookup s' (bkey p))) (graph v) (file_diffs d)) v) v' (sr_version r) /\
    sr_entity_ids r = ec_entity_id <$> wd_entity_changes d).
Proof using parse_no_panic.
  intros Hwf Hws id. unfold fast_forward_merge.
  eapply ok_bind.
  { apply (ok_vai_state v s (fun a v' s' => a = v /\ v' = v /\ s' = s)); done. }
  intros ? ? ? _ (-> & -> & ->). eapply ok_bind; [by apply ok_save_snapshot|].
  intros [] v1 s1 Hwf1 (-> & Hfr1 & Hsn). fold id in Hfr1, Hsn.
  eapply ok_bind; [by apply ok_apply_overlay|].
  intros n v2 s2 Hwf2 (-> & Hfr2 & Hb). eapply ok_bind; [by apply ok_update_graph|].
  intros [] v3 s3 Hwf3 (-> & Hl3). set (g := foldl _ _ _).
  destruct (finish_merge_ok clock ws id deleted 0 (set_graph g v) m0 Hws) as (meta & v4 & Hf & Hms).
  eapply ok_bind; [by eapply (ok_on_vai _ _ _ _ _ (fun a v' s' => a = meta /\ v' = v4 /\ s' = s3))|].
  intros ? ? ? _ (-> & -> & ->). apply ok_ret; [done|].
  assert (Hov : forall p, fs_lookup s1 (okey p) = fs_lookup s (okey p)).
  { intros p. apply Hfr1; [apply fs_key_overlay|done]. }
  assert (Hbv : forall p, fs_lookup s1 (bkey p) = fs_lookup s (bkey p)).
  { intros p. apply Hfr1; [apply fs_key_base|done]. }
  rewrite Hl3. split_and!.
  - intros p. by rewrite Hb, Hov, Hbv.
  - intros p Hp. rewrite Hfr2; [by apply Hsn|apply fs_key_snapshot|done].
  - intros k Hk Hne Hnp. rewrite Hfr2 by done. by apply Hfr1.
  - unfold read_head. rewrite (ms_head _ _ _ _ _ _ _ Hms). simpl. f_equal. apply next_version_id_trim.
  - exact Hms.
  - done.
Qed.

(** C6. Fast-forward. Submitting a workspace whose base is HEAD succeeds; the
    project becomes the overlay over the project less the deleted paths; the
    snapshot of the new version holds the old content of every changed file that
    existed; HEAD, the version history, the event log and the workspace record the
    merge; the graph has the changed source files of the project read again; and no other
    file, manifest or conflict record changes. *)
Theorem fast_forward_merge_spec ws d deleted v s m0 :
  fs_wf s -> workspaces v !! ws_id ws = Some m0 ->
  let id := next_version_id read_dir v in
  ok_run (fast_forward_merge clock read_dir parse_source_file ws d deleted) v s (fun r v' s' =>
    (forall p, fs_lookup s' (bkey p) =
       if decide (p ∈ deleted) then None
       else match fs_lookup s (okey p) with Some c => Some c | None => fs_lookup s (bkey p) end) /\
    (forall p, p ∈ fd_path <$> file_diffs d -> fs_lookup s' (skey id p) =
       match fs_lookup s (bkey p) with Some c => Some c | None => fs_lookup s (skey id p) end) /\
    (forall k, fs_key k -> (forall p, k <> bkey p) ->
       (forall p, p ∈ fd_path <$> file_diffs d -> k <> skey id p) ->
       fs_lookup s' k = fs_lookup s k) /\
    read_head v' = Some id /\
    merged_state ws id deleted 0
      (set_graph (foldl (regraph (fun p => fs_lookup s' (bkey p))) (graph v) (file_diffs d)) v) v' (sr_version r) /\
    sr_entity_ids r = ec_entity_id <$> wd_entity_changes d).
Proof using parse_no_panic. apply fast_forward_merge_ok. Qed.

(** *** The files HEAD changed *)

(** The content saved by the first of the versions [n], [n + 1], ... that saved
    the file. *)
Fixpoint first_snapshot (f : string -> option bytes) (count : nat) (n : N) (p : string) : option bytes :=
  match count with
  | 0 => None
  | Datatypes.S count' =>
      match f (skey ("v" +:+ print_u64 n) p) with
      | Some c => Some c
      | None => first_snapshot f count' (n + 1)%N p
      end
  end.

Lemma ok_collect_keys n keys result v s :
  let id := "v" +:+ print_u64 n in
  fs_wf s -> (forall k, k ∈ keys -> is_Some (fs_lookup s k) /\ exists rel, k = skey id rel) ->
  NoDup keys ->
  ok_run (collect_keys ("snapshot/" +:+ id +:+ "/") keys result) v s (fun r v' s' =>
    v' = v /\ fs_lookup s' = fs_lookup s /\
    forall p, r !! p = match result !! p with
                       | Some c => Some c
                       | None => if decide (skey id p ∈ keys) then fs_lookup s (skey id p) else None
                       end).
Proof using.
  intros id Hwf. revert s result Hwf; induction keys as [|k keys IH]; intros s result Hwf Hk Hnd; simpl.
  { apply ok_ret; [done|]. split_and!; [done..|]. intros p.
    by destruct (result !! p). }
  apply NoDup_cons in Hnd as [Hnk Hnd].
  destruct (Hk k) as ([c Hc] & rel & ->); [by left|].
  assert (Hstrip : strip_prefix ("snapshot/" +:+ id +:+ "/") (skey id rel) = Some rel).
  { apply strip_prefix_Some. unfold skey. by rewrite <-!string_app_assoc. }
  eapply (ok_bind _ _ _ _ (fun r v' s' => v' = v /\ fs_lookup s' = fs_lookup s /\
    r = match result !! rel with Some _ => result | None => <[rel := c]> result end)).
  { unfold collect_key. rewrite Hstrip. simpl. eapply ok_bind.
    { exists rel, v, s. split_and!; [reflexivity|done|].
      instantiate (1 := fun a v' s' => a = rel /\ v' = v /\ s' = s). done. }
    intros ? ? ? _ (-> & -> & ->).
    eapply ok_bind; [apply (ok_read _ c); [done|apply fs_key_snapshot|done]|].
    intros ? v1 s1 Hwf1 (-> & -> & Hl1). by apply ok_ret. }
  intros r1 v1 s1 Hwf1 (-> & Hl1 & ->).
  eapply ok_mono; [apply IH; [done| |done]|].
  { intros k' Hk'. rewrite Hl1. apply Hk. by right. }
  intros r v2 s2 (-> & Hl2 & Hr). split_and!; [done|congruence|]. intros p. rewrite Hr, Hl1.
  destruct (decide (p = rel)) as [->|Hne].
  - rewrite (decide_True (P:=skey id rel ∈ _ :: _)) by (by left).
    destruct (result !! rel) as [x|] eqn:Ex; [by rewrite Ex|]. by rewrite lookup_insert_eq.
  - assert (Hp : match result !! rel with Some _ => result | None => <[rel:=c]> result end !! p
                 = result !! p).
    { destruct (result !! rel); [done|]. by rewrite lookup_insert_ne. }
    rewrite Hp. destruct (result !! p); [done|]. apply decide_ext.
    rewrite elem_of_cons. split; [by right|]. intros [->%skey_inj|]; done.
Qed.

Lemma ok_collect_versions count n result v s :
  fs_wf s ->
  ok_run (collect_versions count n result) v s (fun r v' s' =>
    v' = v /\ fs_lookup s' = fs_lookup s /\
    forall p, r !! p = match result !! p with
                       | Some c => Some c
                       | None => first_snapshot (fs_lookup s) count n p
                       end).
Proof using.
  revert n result s; induction count as [|count IH]; intros n result s Hwf; simpl.
  { apply ok_ret; [done|]. split_and!; [done..|]. intros p. by destruct (result !! p). }
  eapply ok_bind; [apply ok_list; [done|apply fs_prefix_snapshot]|].
  intros keys v1 s1 Hwf1 (-> & Hl1 & Hnd & Hk).
  assert (Hpre : "snapshot/v" +:+ print_u64 n +:+ "/" = "snapshot/" +:+ ("v" +:+ print_u64 n) +:+ "/") by done.
  assert (Hskey : forall rel, ("snapshot/v" +:+ print_u64 n +:+ "/") +:+ rel = skey ("v" +:+ print_u64 n) rel).
  { intros rel. rewrite Hpre. unfold skey. by rewrite <-!string_app_assoc. }
  rewrite Hpre. eapply ok_bind.
  { apply ok_collect_keys; [done| |done]. intros k [Hs [rel ->]]%Hk. rewrite Hl1.
    split; [done|]. exists rel. apply Hskey. }
  intros r1 v2 s2 Hwf2 (-> & Hl2 & Hr1). eapply ok_mono; [by apply IH|].
  intros r v3 s3 (-> & Hl3 & Hr). split_and!; [done|congruence|]. intros p.
  rewrite Hr, Hr1, Hl2, Hl1. destruct (result !! p); [done|].
  case_decide as Hin.
  - by destruct (fs_lookup s (skey _ p)).
  - destruct (fs_lookup s (skey ("v" +:+ print_u64 n) p)) as [c|] eqn:Ec; [|done].
    exfalso. apply Hin, Hk. split; [by eexists|]. exists p. by rewrite Hskey.
Qed.

(** The base content of a file that a version after [base] and up to HEAD saved. *)
Definition base_content_at (f : string -> option bytes) (base hd p : string) : option bytes :=
  first_snapshot f (N.to_nat (parse_version_num hd - parse_version_num base))
    (parse_version_num base + 1) p.

Lemma ok_collect_head base hd v s :
  fs_wf s -> read_head v = Some hd ->
  ok_run (collect_head_changed_files base) v s (fun r v' s' =>
    v' = v /\ fs_lookup s' = fs_lookup s /\
    forall p, r !! p = base_content_at (fs_lookup s) base hd p).
Proof using.
  intros Hwf Hh. unfold collect_head_changed_files.
  eapply ok_bind.
  { apply (ok_vai_state v s (fun a v' s' => a = v /\ v' = v /\ s' = s)); done. }
  intros ? ? ? _ (-> & -> & ->). rewrite Hh.
  eapply ok_mono; [by apply ok_collect_versions|].
  intros r v1 s1 (-> & Hl & Hr). split_and!; [done..|]. intros p. by rewrite Hr, lookup_empty.
Qed.

(** *** The merge of all files *)

(** The merge as a function of the contents [f] and of the base contents [hc] of
    the files HEAD changed; [n] identifiers have been drawn before it. *)
Definition merge_one (f hc : string -> option bytes) (w : Uuid) (n : nat) (fd : FileDiff)
    (acc : Merging) : outcome MergeError Merging * nat :=
  let p := fd_path fd in
  match f (okey p) with
  | None => (Err (MeIo NotFound), n)
  | Some ws =>
      match hc p with
      | None => (Ok (mkMerging (merged_files acc ++ [(p, ws)]) (mg_auto_resolved acc)
                       (mg_conflicts acc)), n)
      | Some base =>
          match try_merge_file parse_rust_source iter_order (fun i => uuid (n + i)) p base
                  (default [] (f (bkey p))) ws w with
          | None => (Panic, n)
          | Some (AutoMerged merged _) =>
              (Ok (mkMerging (merged_files acc ++ [(p, merged)]) (mg_auto_resolved acc + 1)
                     (mg_conflicts acc)), n)
          | Some (Conflicts rs) =>
              (Ok (mkMerging (merged_files acc) (mg_auto_resolved acc) (mg_conflicts acc ++ rs)),
               n + length rs)
          end
      end
  end.

Fixpoint merge_all (f hc : string -> option bytes) (w : Uuid) (n : nat) (fds : list FileDiff)
    (acc : Merging) : outcome MergeError Merging * nat :=
  match fds with
  | [] => (Ok acc, n)
  | fd :: fds' =>
      match merge_one f hc w n fd acc with
      | (Ok acc', n') => merge_all f hc w n' fds' acc'
      | r => r
      end
  end.

(** HEAD's content, empty when it has no such file. *)
Lemma read_head_content p v s :
  fs_wf s ->
  exists s1 s2, io (exists_file (bkey p)) (v, s) =
      (Ok (bool_decide (is_Some (fs_lookup s (bkey p)))), (v, s1)) /\
    fs_wf s2 /\ fs_lookup s2 = fs_lookup s /\
    (if bool_decide (is_Some (fs_lookup s (bkey p))) then io (read_file (bkey p)) else mret []) (v, s1)
      = (Ok (default [] (fs_lookup s (bkey p))), (v, s2)).
Proof using.
  intros Hwf.
  destruct (ok_exists (bkey p) v s Hwf (fs_key_base p)) as (? & ? & s1 & Hx & Hwf1 & -> & -> & Hl1).
  exists s1. destruct (fs_lookup s (bkey p)) as [h|] eqn:Hb; simpl.
  - destruct (ok_read (bkey p) h v s1 Hwf1 (fs_key_base p)) as (? & ? & s2 & Hr & Hwf2 & -> & -> & Hl2);
      [congruence|].
    exists s2. split_and!; [done|done|congruence|done].
  - exists s1. done.
Qed.

Lemma merge_file_diff_eq ws hc fd acc v s :
  fs_wf s ->
  exists s', fs_wf s' /\ fs_lookup s' = fs_lookup s /\
    let rn := merge_one (fs_lookup s) (fun p => hc !! p) (ws_id ws) (draws v) fd acc in
    merge_file_diff uuid parse_rust_source iter_order ws hc acc fd (v, s) =
      (rn.1, (set_draws rn.2 v, s')).
Proof using.
  intros Hwf. unfold merge_one, merge_file_diff. set (p := fd_path fd).
  change ("overlay/" +:+ p) with (okey p). change ("base/" +:+ p) with (bkey p).
  assert (Hv : set_draws (draws v) v = v) by (by destruct v).
  destruct (fs_lookup s (okey p)) as [c|] eqn:Ec.
  2:{ destruct (read_missing (okey p) v s Hwf (fs_key_overlay p) Ec) as (s1 & Hr & Hwf1 & Hl1).
      exists s1. split_and!; [done..|]. rewrite (M_bind_err _ _ _ _ _ Hr). simpl. by rewrite Hv. }
  destruct (ok_read (okey p) c v s Hwf (fs_key_overlay p) Ec) as (? & ? & s1 & Hr & Hwf1 & -> & -> & Hl1).
  rewrite (M_bind_ok _ _ _ _ _ Hr).
  destruct (hc !! p) as [base|]; [|exists s1; split_and!; [done..|]; simpl; by rewrite Hv].
  destruct (read_head_content p v s1 Hwf1) as (s2 & s3 & Hx & Hwf3 & Hl3 & Hh).
  rewrite Hl1 in Hx, Hh, Hl3.
  rewrite (M_bind_ok _ _ _ _ _ Hx), (M_bind_ok _ _ _ _ _ Hh).
  exists s3. split_and!; [done|congruence|].
  unfold merge_changed_file, mbind, M_bind.
  destruct (try_merge_file _ _ _ _ _ _ _ _) as [[merged l|rs]|]; simpl; by rewrite ?Hv.
Qed.

Lemma merge_file_diffs_eq ws hc fds acc v s :
  fs_wf s ->
  exists s', fs_wf s' /\ fs_lookup s' = fs_lookup s /\
    let rn := merge_all (fs_lookup s) (fun p => hc !! p) (ws_id ws) (draws v) fds acc in
    merge_file_diffs uuid parse_rust_source iter_order ws hc fds acc (v, s) =
      (rn.1, (set_draws rn.2 v, s')).
Proof using.
  revert acc v s; induction fds as [|fd fds IH]; intros acc v s Hwf; simpl.
  { exists s. split_and!; [done..|]. by destruct v. }
  destruct (merge_file_diff_eq ws hc fd acc v s Hwf) as (s1 & Hwf1 & Hl1 & H1).
  destruct (merge_one _ _ _ _ fd acc) as [[acc1|e|] n1]; simpl in H1.
  - destruct (IH acc1 (set_draws n1 v) s1 Hwf1) as (s2 & Hwf2 & Hl2 & H2).
    exists s2. rewrite Hl1 in Hl2, H2. split_and!; [done..|]. simpl in H2.
    by rewrite (M_bind_ok _ _ _ _ _ H1), H2.
  - exists s1. split_and!; [done..|]. by rewrite (M_bind_err _ _ _ _ _ H1).
  - exists s1. split_and!; [done..|]. by rewrite (M_bind_panic _ _ _ _ H1).
Qed.

Lemma merge_one_ext f hc hc' w n fd acc :
  (forall p, hc p = hc' p) -> merge_one f hc w n fd acc = merge_one f hc' w n fd acc.
Proof using. intros E. unfold merge_one. by rewrite E. Qed.

Lemma merge_all_ext f hc hc' w n fds acc :
  (forall p, hc p = hc' p) -> merge_all f hc w n fds acc = merge_all f hc' w n fds acc.
Proof using.
  intros E. revert n acc; induction fds as [|fd fds IH]; intros n acc; simpl; [done|].
  rewrite (merge_one_ext f hc hc') by done. by destruct (merge_one _ _ _ _ _ _) as [[] ?].
Qed.

(** *** The semantic merge *)

Definition no_merging : Merging := mkMerging [] 0 [].

Lemma semantic_merge_eq ws d deleted hd v s :
  fs_wf s -> read_head v = Some hd ->
  exists s', fs_wf s' /\ fs_lookup s' = fs_lookup s /\
    let rn := merge_all (fs_lookup s) (base_content_at (fs_lookup s) (base_version ws) hd) (ws_id ws)
                (draws v) (file_diffs d) no_merging in
    semantic_merge clock uuid read_dir parse_rust_source parse_source_file iter_order ws d deleted (v, s)
    = match rn.1 with
      | Ok m => apply_merge clock read_dir parse_source_file ws d deleted m (set_draws rn.2 v, s')
      | Err e => (Err e, (set_draws rn.2 v, s'))
      | Panic => (Panic, (set_draws rn.2 v, s'))
      end.
Proof using.
  intros Hwf Hh. unfold semantic_merge.
  destruct (ok_collect_head (base_version ws) hd v s Hwf Hh)
    as (hc & ? & s1 & H1 & Hwf1 & -> & Hl1 & Hhc).
  destruct (merge_file_diffs_eq ws hc (file_diffs d) no_merging v s1 Hwf1) as (s2 & Hwf2 & Hl2 & H2).
  exists s2. split_and!; [done|congruence|]. rewrite Hl1 in H2.
  rewrite (merge_all_ext _ _ (base_content_at (fs_lookup s) (base_version ws) hd)) in H2 by done.
  cbn zeta in H2 |- *. rewrite (M_bind_ok _ _ _ _ _ H1).
  destruct (merge_all _ _ _ _ _ _) as [[m|e|] n]; simpl in *.
  - by rewrite (M_bind_ok _ _ _ _ _ H2).
  - by rewrite (M_bind_err _ _ _ _ _ H2).
  - by rewrite (M_bind_panic _ _ _ _ H2).
Qed.

(** A semantic merge that finds conflicts changes nothing but their record:
    the error carries all of them, each is stored and has its event in the log,
    and the project, the snapshots, HEAD, the history and the workspaces are as
    before. *)
Theorem semantic_merge_conflicts ws d deleted hd v s m n :
  fs_wf s -> read_head v = Some hd ->
  merge_all (fs_lookup s) (base_content_at (fs_lookup s) (base_version ws) hd) (ws_id ws)
    (draws v) (file_diffs d) no_merging = (Ok m, n) ->
  mg_conflicts m <> [] ->
  exists v' s', semantic_merge clock uuid read_dir parse_rust_source parse_source_file iter_order
      ws d deleted (v, s)
    = (Err (SemanticConflicts (length (mg_conflicts m)) (mg_conflicts m)), (v', s')) /\
    fs_lookup s' = fs_lookup s /\
    conflict_files v' = foldl (fun t r => <[conflict_id r := r]> t) (conflict_files v) (mg_conflicts m) /\
    (exists l, log v' = log v ++ l /\ ev_kind <$> l = conflict_event (ws_id ws) <$> mg_conflicts m) /\
    head_file v' = head_file v /\ versions v' = versions v /\ workspaces v' = workspaces v /\
    active_file v' = active_file v /\ graph v' = graph v.
Proof using.
  intros Hwf Hh Hm Hc.
  destruct (semantic_merge_eq ws d deleted hd v s Hwf Hh) as (s' & Hwf' & Hl' & Hs).
  rewrite Hm in Hs. simpl in Hs.
  destruct (append_all_grown (E:=MergeError) clock (conflict_event (ws_id ws) <$> mg_conflicts m)
    (set_conflict_files (foldl (fun t r => <[conflict_id r := r]> t) (conflict_files v) (mg_conflicts m))
       (set_draws n v))) as (v' & Ha & l & k & E & Hk & _).
  exists v', s'. split_and!; [|done|by rewrite E|exists l; by rewrite E|by rewrite E..].
  rewrite Hs. unfold apply_merge.
  destruct (mg_conflicts m) as [|c cs] eqn:Ec; [done|].
  unfold on_vai, store_all_conflicts, modify_st, mbind, M_bind, fail. simpl in *.
  by rewrite Ha.
Qed.

Definition written (files : list (string * bytes)) (p : string) : option bytes :=
  snd <$> last (filter (fun f => f.1 = p) files).

Lemma ok_write_merged files v s :
  fs_wf s ->
  ok_run (for_each write_merged files) v s (fun _ v' s' => v' = v /\
    (forall k, fs_key k -> (forall p, k <> bkey p) -> fs_lookup s' k = fs_lookup s k) /\
    (forall p, fs_lookup s' (bkey p) =
       match written files p with Some c => Some c | None => fs_lookup s (bkey p) end)).
Proof using.
  intros Hwf.
  eapply ok_mono; [apply (ok_for_each _ (fun pre v' s' => v' = v /\
    (forall k, fs_key k -> (forall p, k <> bkey p) -> fs_lookup s' k = fs_lookup s k) /\
    (forall p, fs_lookup s' (bkey p) =
       match written pre p with Some c => Some c | None => fs_lookup s (bkey p) end)));
    [done|done|]|by intros [] v' s'].
  intros pre [q c] v1 s1 Hwf1 (-> & Hfr & Hb) _. unfold write_merged. simpl. fold (bkey q).
  eapply ok_mono; [apply ok_write; [done|apply fs_key_base]|].
  intros [] v2 s2 (-> & Hl). split_and!; [done| |].
  - intros k Hk Hne. rewrite Hl, decide_False by done. by apply Hfr.
  - intros p. rewrite Hl by apply fs_key_base. unfold written.
    rewrite filter_app, filter_cons, filter_nil. simpl.
    destruct (decide (q = p)) as [->|Hne].
    + by rewrite decide_True, last_snoc.
    + rewrite decide_False by (intros ?%bkey_inj; congruence). rewrite app_nil_r. apply Hb.
Qed.

Lemma ok_semantic_merge ws d deleted hd v s m n m0 :
  fs_wf s -> read_head v = Some hd -> workspaces v !! ws_id ws = Some m0 ->
  merge_all (fs_lookup s) (base_content_at (fs_lookup s) (base_version ws) hd) (ws_id ws)
    (draws v) (file_diffs d) no_merging = (Ok m, n) ->
  mg_conflicts m = [] ->
  let id := next_version_id read_dir v in
  ok_run (semantic_merge clock uuid read_dir parse_rust_source parse_source_file iter_order ws d deleted)
    v s (fun r v' s' =>
    (forall p, fs_lookup s' (bkey p) =
       if decide (p ∈ deleted) then None
       else match written (merged_files m) p with Some c => Some c | None => fs_lookup s (bkey p) end) /\
    (forall p, p ∈ fd_path <$> file_diffs d -> fs_lookup s' (skey id p) =
       match fs_lookup s (bkey p) with Some c => Some c | None => fs_lookup s (skey id p) end) /\
    read_head v' = Some id /\
    (exists g, merged_state ws id deleted (mg_auto_resolved m) (set_graph g (set_draws n v)) v'
                 (sr_version r))).
Proof using parse_no_panic.
  intros Hwf Hh Hws Hm Hc id.
  destruct (semantic_merge_eq ws d deleted hd v s Hwf Hh) as (s0 & Hwf0 & Hl0 & Hs).
  rewrite Hm in Hs. simpl in Hs. unfold ok_run at 1. rewrite Hs. clear Hs.
  rewrite <-Hl0. clear Hl0. change (ok_run (apply_merge clock read_dir parse_source_file ws d deleted m)
    (set_draws n v) s0 (fun r v' s' =>
    (forall p, fs_lookup s' (bkey p) =
       if decide (p ∈ deleted) then None
       else match written (merged_files m) p with Some c => Some c | None => fs_lookup s0 (bkey p) end) /\
    (forall p, p ∈ fd_path <$> file_diffs d -> fs_lookup s' (skey id p) =
       match fs_lookup s0 (bkey p) with Some c => Some c | None => fs_lookup s0 (skey id p) end) /\
    read_head v' = Some id /\
    (exists g, merged_state ws id deleted (mg_auto_resolved m) (set_graph g (set_draws n v)) v'
                 (sr_version r)))).
  unfold apply_merge. rewrite Hc. eapply ok_bind.
  { apply (ok_vai_state (set_draws n v) s0 (fun a v' s' => a = set_draws n v /\ v' = set_draws n v /\ s' = s0));
      done. }
  intros ? ? ? _ (-> & -> & ->). change (next_version_id read_dir (set_draws n v)) with id.
  eapply ok_bind; [by apply ok_save_snapshot|].
  intros [] v1 s1 Hwf1 (-> & Hfr1 & Hsn). fold id in Hfr1, Hsn.
  eapply ok_bind; [by apply ok_write_merged|].
  intros [] v2 s2 Hwf2 (-> & Hfr2 & Hb). eapply ok_bind; [by apply ok_delete_files|].
  intros [] v3 s3 Hwf3 (-> & Hfr3 & Hdel). eapply ok_bind; [by apply ok_update_graph|].
  intros [] v4 s4 Hwf4 (-> & Hl4). change (graph (set_draws n v)) with (graph v). set (g := foldl _ _ _).
  destruct (finish_merge_ok clock ws id deleted (mg_auto_resolved m) (set_graph g (set_draws n v)) m0 Hws)
    as (meta & v5 & Hf & Hms).
  eapply ok_bind; [by eapply (ok_on_vai _ _ _ _ _ (fun a v' s' => a = meta /\ v' = v5 /\ s' = s4))|].
  intros ? ? ? _ (-> & -> & ->). apply ok_ret; [done|]. rewrite Hl4. split_and!.
  - intros p. case_decide as Hp; [by apply Hdel|].
    rewrite Hfr3; [|apply fs_key_base|intros q Hq ->%bkey_inj; done].
    rewrite Hb, Hfr1; [done|apply fs_key_base|done].
  - intros p Hp. rewrite Hfr3; [|apply fs_key_snapshot|done].
    rewrite Hfr2; [|apply fs_key_snapshot|done]. by apply Hsn.
  - unfold read_head. rewrite (ms_head _ _ _ _ _ _ _ Hms). simpl. f_equal. apply next_version_id_trim.
  - by exists g.
Qed.

(** C2. A semantic merge without conflicts succeeds: each file of the workspace
    gets its merged content, the deleted paths are gone, every other file of the
    project is untouched, the old contents are in the snapshot of the new version,
    and the metadata records the merge. *)
Theorem semantic_merge_applies ws d deleted hd v s m n m0 :
  fs_wf s -> read_head v = Some hd -> workspaces v !! ws_id ws = Some m0 ->
  merge_all (fs_lookup s) (base_content_at (fs_lookup s) (base_version ws) hd) (ws_id ws)
    (draws v) (file_diffs d) no_merging = (Ok m, n) ->
  mg_conflicts m = [] ->
  let id := next_version_id read_dir v in
  ok_run (semantic_merge clock uuid read_dir parse_rust_source parse_source_file iter_order ws d deleted)
    v s (fun r v' s' =>
    (forall p, fs_lookup s' (bkey p) =
       if decide (p ∈ deleted) then None
       else match written (merged_files m) p with Some c => Some c | None => fs_lookup s (bkey p) end) /\
    (forall p, p ∈ fd_path <$> file_diffs d -> fs_lookup s' (skey id p) =
       match fs_lookup s (bkey p) with Some c => Some c | None => fs_lookup s (skey id p) end) /\
    read_head v' = Some id /\
    (exists g, merged_state ws id deleted (mg_auto_resolved m) (set_graph g (set_draws n v)) v'
                 (sr_version r))).
Proof using parse_no_panic. apply ok_semantic_merge. Qed.

Lemma merge_all_missing f hc w n fds acc fd :
  fd ∈ fds -> f (okey (fd_path fd)) = None -> (forall m, (merge_all f hc w n fds acc).1 <> Ok m).
Proof using.
  revert n acc; induction fds as [|x fds IH]; intros n acc; [by intros ?%not_elem_of_nil|].
  intros [<-|Hin]%elem_of_cons Hf m; simpl.
  - unfold merge_one. by rewrite Hf.
  - destruct (merge_one f hc w n x acc) as [[acc'| |] n']; [by apply IH|done..].
Qed.

(** A workspace that deletes a file cannot be merged once HEAD has moved: the
    deleted file is read from the overlay, where it is not, so the semantic merge
    never succeeds, whatever else the workspace holds; alone it fails with a
    missing file. The project and the history stay as they are. *)
Theorem semantic_merge_deletion_fails ws d deleted hd v s fd :
  fs_wf s -> read_head v = Some hd ->
  fd ∈ file_diffs d -> fs_lookup s (okey (fd_path fd)) = None ->
  let run := semantic_merge clock uuid read_dir parse_rust_source parse_source_file iter_order
               ws d deleted (v, s) in
  (forall r, run.1 <> Ok r) /\
  (file_diffs d = [fd] -> run.1 = Err (MeIo NotFound)) /\
  fs_lookup run.2.2 = fs_lookup s /\ exists n, run.2.1 = set_draws n v.
Proof using.
  intros Hwf Hh Hin Hf.
  destruct (semantic_merge_eq ws d deleted hd v s Hwf Hh) as (s' & Hwf' & Hl' & Hs).
  cbn zeta in *. rewrite Hs.
  set (hc := base_content_at _ _ _).
  pose proof (merge_all_missing (fs_lookup s) hc (ws_id ws) (draws v) (file_diffs d) no_merging fd Hin Hf)
    as Hno.
  assert (Hone : file_diffs d = [fd] -> (merge_all (fs_lookup s) hc (ws_id ws) (draws v) (file_diffs d)
     no_merging).1 = Err (MeIo NotFound)).
  { intros ->. simpl. unfold merge_one. by rewrite Hf. }
  revert Hno Hone. destruct (merge_all _ _ _ _ _ _) as [[m|e|] n]; simpl; intros Hno Hone.
  - by destruct (Hno m).
  - split_and!; [done|intros Heq%Hone; congruence|done|by exists n].
  - split_and!; [done|intros Heq%Hone; congruence|done|by exists n].
Qed.

Lemma merge_all_entries f hc w n fds acc m n' :
  merge_all f hc w n fds acc = (Ok m, n') ->
  exists l, merged_files m = merged_files acc ++ l /\
    (forall q x, (q, x) ∈ l -> hc q = None -> f (okey q) = Some x) /\
    (forall fd x, fd ∈ fds -> hc (fd_path fd) = None -> f (okey (fd_path fd)) = Some x ->
       (fd_path fd, x) ∈ l).
Proof using.
  revert n acc; induction fds as [|fd fds IH]; intros n acc Hm; simpl in Hm.
  { injection Hm as <- <-. exists []. rewrite app_nil_r.
    split_and!; [done|by intros q x ?%not_elem_of_nil|by intros fd x ?%not_elem_of_nil]. }
  assert (Hone : forall acc' n1, merge_one f hc w n fd acc = (Ok acc', n1) ->
    exists l, merged_files acc' = merged_files acc ++ l /\
      (forall q x, (q, x) ∈ l -> hc q = None -> f (okey q) = Some x) /\
      (forall x, hc (fd_path fd) = None -> f (okey (fd_path fd)) = Some x -> (fd_path fd, x) ∈ l)).
  { intros acc' n1. unfold merge_one. destruct (f (okey (fd_path fd))) as [ws|] eqn:Ef; [|done].
    destruct (hc (fd_path fd)) as [b|] eqn:Eh.
    - destruct (try_merge_file _ _ _ _ _ _ _ _) as [[mg l|rs]|]; [| |done]; intros [= <- <-]; simpl.
      + exists [(fd_path fd, mg)]. split_and!; [done| |done].
        intros q x [= -> ->]%list_elem_of_singleton. congruence.
      + exists []. rewrite app_nil_r. split_and!; [done| |done]. by intros q x ?%not_elem_of_nil.
    - intros [= <- <-]. simpl. exists [(fd_path fd, ws)]. split_and!; [done| |].
      + intros q x [= -> ->]%list_elem_of_singleton. done.
      + intros x _ [= ->]. by left. }
  destruct (merge_one f hc w n fd acc) as [[acc'| |] n1]; [|done..].
  destruct (Hone acc' n1 eq_refl) as (l1 & E1 & A1 & B1).
  destruct (IH n1 acc' Hm) as (l2 & E2 & A2 & B2). exists (l1 ++ l2).
  split_and!; [by rewrite E2, E1, app_assoc| |].
  - intros q x [Hx|Hx]%elem_of_app; auto.
  - intros fd' x [->|Hin]%elem_of_cons Hhc Hf; apply elem_of_app; auto.
Qed.

Lemma written_all l p c :
  (p, c) ∈ l -> (forall x, (p, x) ∈ l -> x = c) -> written l p = Some c.
Proof using.
  intros Hin Hall. unfold written.
  destruct (last (filter (fun f => f.1 = p) l)) as [[q x]|] eqn:E.
  - apply last_Some_elem_of, list_elem_of_filter in E as [Hq Hx]. simpl in *. subst q.
    f_equal. by apply Hall.
  - apply last_None in E. exfalso. apply (not_elem_of_nil (p, c)). rewrite <-E.
    by apply list_elem_of_filter.
Qed.

(** Lost updates. A file that HEAD has, but that no version between the base
    and HEAD saved (because HEAD added it, or a rollback wrote it), counts as not
    changed by HEAD: a successful semantic merge replaces whatever HEAD has there
    by the workspace's file. *)
Theorem semantic_merge_overwrites ws d deleted hd v s m n m0 p c :
  fs_wf s -> read_head v = Some hd -> workspaces v !! ws_id ws = Some m0 ->
  merge_all (fs_lookup s) (base_content_at (fs_lookup s) (base_version ws) hd) (ws_id ws)
    (draws v) (file_diffs d) no_merging = (Ok m, n) ->
  mg_conflicts m = [] ->
  p ∈ fd_path <$> file_diffs d -> p ∉ deleted ->
  base_content_at (fs_lookup s) (base_version ws) hd p = None ->
  fs_lookup s (okey p) = Some c ->
  ok_run (semantic_merge clock uuid read_dir parse_rust_source parse_source_file iter_order ws d deleted)
    v s (fun _ _ s' => fs_lookup s' (bkey p) = Some c).
Proof using parse_no_panic.
  intros Hwf Hh Hws Hm Hc Hp Hd Hb Ho.
  eapply ok_mono; [by eapply ok_semantic_merge|]. intros r v' s' (Hbase & _).
  rewrite Hbase, decide_False by done.
  destruct (merge_all_entries _ _ _ _ _ _ _ _ Hm) as (l & El & HA & HB). simpl in El.
  apply list_elem_of_fmap in Hp as (fd & -> & Hfd).
  rewrite El, (written_all l (fd_path fd) c); [done|by apply HB|].
  intros x Hx. specialize (HA _ _ Hx Hb). congruence.
Qed.
(** *** The whole submission on HEAD *)

(** What recording a diff leaves alone. *)
Record recorded (v v' : VaiDir) : Prop := {
  rd_head : head_file v' = head_file v;
  rd_versions : versions v' = versions v;
  rd_draws : draws v' = draws v;
  rd_workspaces : forall k, is_Some (workspaces v !! k) -> is_Some (workspaces v' !! k)
}.

Lemma grown_recorded kinds v v' : grown kinds v v' -> recorded v v'.
Proof using. intros (l & n & -> & _). by constructor. Qed.

Lemma recorded_trans v1 v2 v3 : recorded v1 v2 -> recorded v2 v3 -> recorded v1 v3.
Proof using. intros [A1 A2 A3 A4] [B1 B2 B3 B4]. constructor; [congruence..|auto]. Qed.

Lemma record_events_ok d v m0 :
  active v = (Ok m0, v) -> is_Some (workspaces v !! ws_id m0) ->
  exists v', record_events clock d v = (Ok tt, v') /\ recorded v v'.
Proof using.
  clear parse_no_panic. intros Ha Hw. unfold record_events.
  assert (E : err_into DWorkspace active v = (Ok m0, v)) by (unfold err_into; by rewrite Ha).
  rewrite (M_bind_ok _ _ _ _ _ E).
  case_bool_decide; simpl; [|by exists v].
  destruct (append_all_grown (E:=DiffError) clock (file_event (wd_workspace_id d) <$> file_diffs d) v)
    as (v1 & E1 & G1).
  rewrite (M_bind_ok _ _ _ _ _ E1).
  destruct (append_all_grown (E:=DiffError) clock (entity_event (wd_workspace_id d) <$> wd_entity_changes d) v1)
    as (v2 & E2 & G2).
  rewrite (M_bind_ok _ _ _ _ _ E2).
  pose proof (recorded_trans _ _ _ (grown_recorded _ _ _ G1) (grown_recorded _ _ _ G2)) as G.
  pose proof (rd_workspaces _ _ G _ Hw) as [m Hm].
  unfold now, err_into, update_meta, write_meta, get_st, modify_st, mbind, M_bind. simpl. rewrite Hm. simpl.
  eexists. split; [reflexivity|]. destruct G as [A1 A2 A3 A4]. constructor; simpl; [done..|].
  intros k Hk. destruct (decide (k = ws_id m0)) as [->|Hne].
  - by rewrite lookup_insert_eq.
  - rewrite lookup_insert_ne by done. auto.
Qed.

(** What a submission on HEAD leaves. *)
Record submitted (ws : WorkspaceMeta) (deleted : list string) (v : VaiDir) (s : S) (r : SubmitResult)
    (v' : VaiDir) (s' : S) : Prop := {
  sb_base : forall p, fs_lookup s' (bkey p) =
    if decide (p ∈ deleted) then None
    else match fs_lookup s (okey p) with Some c => Some c | None => fs_lookup s (bkey p) end;
  sb_overlay : forall p, fs_lookup s' (okey p) = fs_lookup s (okey p);
  sb_head : read_head v' = Some (next_version_id read_dir v);
  sb_version : version_id (sr_version r) = next_version_id read_dir v /\
    parent_version_id (sr_version r) = Some (base_version ws) /\ v_intent (sr_version r) = ws_intent ws
}.

Section whole.
Hypothesis parse_ok : forall p c, exists r, parse_rust_source p c = Ok r.

(** A workspace with changes whose base is HEAD: the submission succeeds, and the
    project becomes the overlay over the project less the deleted paths. *)
Lemma submit_with_fs_on_head ws deleted v s m0 :
  fs_wf s -> active v = (Ok m0, v) -> is_Some (workspaces v !! ws_id m0) ->
  is_Some (workspaces v !! ws_id ws) -> read_head v = Some (base_version ws) ->
  ((exists p, is_Some (fs_lookup s (okey p))) \/
   (exists p, p ∈ deleted /\ is_Some (fs_lookup s (bkey p)))) ->
  ok_run (submit_with_fs clock uuid read_dir parse_rust_source parse_source_file sha256_hex iter_order
    ws deleted) v s (submitted ws deleted v s).
Proof using parse_ok parse_no_panic.
  intros Hwf Ha Hw0 Hw Hh Hne. unfold submit_with_fs.
  destruct (compute_with_fs_reads parse_rust_source sha256_hex iter_order parse_ok (ws_id ws)
    (base_version ws) deleted s Hwf) as (d & s1 & Hd & Hwf1 & Hl1 & Hdw & Hdb & Hfds).
  eapply (ok_bind _ _ _ _ (fun a v' s' => a = d /\ v' = v /\ s' = s1)).
  { exists d, v, s1. unfold on_fs, err_into. by rewrite Hd. }
  intros ? ? ? _ (-> & -> & ->).
  assert (diff_is_empty d = false) as ->.
  { unfold diff_is_empty. destruct Hne as [(p & c & Hc)|(p & Hp & Hb)].
    - assert (overlay_diff sha256_hex (fs_lookup s) p c ∈ file_diffs d) as Hin by (apply Hfds; left; eauto).
      destruct (file_diffs d); [by apply not_elem_of_nil in Hin|done].
    - assert (mkFileDiff p FcDeleted 0 "" ∈ file_diffs d) as Hin by (apply Hfds; right; eauto).
      destruct (file_diffs d); [by apply not_elem_of_nil in Hin|done]. }
  destruct (record_events_ok d v m0 Ha Hw0) as (v1 & E1 & R1).
  eapply ok_bind.
  { apply (ok_on_vai _ _ s1 tt v1 (fun _ v' s' => v' = v1 /\ s' = s1)); [unfold err_into; by rewrite E1|done..]. }
  intros ? ? ? _ (-> & ->).
  match goal with |- context [WorkspaceSubmitted ?w ?t] =>
    destruct (append_event_grown (E:=MergeError) clock (WorkspaceSubmitted w t) v1) as (e & v2 & E2 & _ & _ & G2) end.
  eapply ok_bind; [by apply (ok_on_vai _ _ s1 e v2 (fun _ v' s' => v' = v2 /\ s' = s1))|].
  intros ? ? ? _ (-> & ->).
  pose proof (recorded_trans _ _ _ R1 (grown_recorded _ _ _ G2)) as R.
  eapply ok_bind; [by apply (ok_vai_state v2 s1 (fun a v' s' => a = v2 /\ v' = v2 /\ s' = s1))|].
  intros ? ? ? _ (-> & -> & ->).
  assert (read_head v2 = Some (base_version ws)) as ->
    by (unfold read_head in *; by rewrite (rd_head _ _ R)).
  rewrite String.eqb_refl.
  destruct (rd_workspaces _ _ R _ Hw) as [m1 Hm1].
  assert (Hnv : next_version_id read_dir v2 = next_version_id read_dir v).
  { unfold next_version_id, list_versions. by rewrite (rd_versions _ _ R). }
  eapply ok_mono; [by apply (fast_forward_merge_ok ws d deleted v2 s1 m1)|].
  rewrite Hnv, Hl1. intros r v' s' (Hb & _ & Hfr & Hhd & Hms & _). constructor.
  - done.
  - intros p. apply Hfr; [apply fs_key_overlay|done..].
  - done.
  - split_and!; [apply (ms_id _ _ _ _ _ _ _ Hms)|apply (ms_parent _ _ _ _ _ _ _ Hms)|apply (ms_intent _ _ _ _ _ _ _ Hms)].
Qed.
End whole.
End theorems.

(** ** Witnesses *)

Definition wit_fs : MergeFs S3 := S3MergeFs "workspaces/w/" "current/".
Lemma wit_apart x y :
  "workspaces/w/" +:+ x <> "current/" +:+ y /\ "workspaces/w/" +:+ x <> "versions/" +:+ y /\
  "current/" +:+ x <> "versions/" +:+ y.
Proof. split_and!; intros E; discriminate E. Qed.
Definition wit_spec : @MergeFsSpec S3 wit_fs := S3MergeFsSpec "workspaces/w/" "current/" wit_apart.

Definition wit_clock (n : nat) : DateTime := Z.of_nat n.
Definition wit_uuid (n : nat) : Uuid := "u" +:+ print_u64 (N.of_nat n).
Definition wit_versions (t : gmap string VersionMeta) : list VersionMeta := (map_to_list t).*2.
Definition wit_parse (p : string) (c : bytes) : outcome GraphError (list Entity * list Relationship) :=
  Ok ([], []).
Definition wit_iter (X : gset string) : list string := elements X.

Definition wit_ws : WorkspaceMeta := mkWs "w" "fix" "v1" WsActive 0 0 None [].
Definition wit_vai (hd : string) : VaiDir :=
  mkVai (Some hd) {["v1"%string := mkVersion "v1" None "init" "vai" 0 None]} {["w"%string := wit_ws]}
    (Some "w"%string) ∅ ∅ [] (mkSnapshot [] []) 0 0.

(** The workspace rewrites the last line of [a]; [overlay] is its version. *)
Definition wit_store (base head overlay : string) : S3 :=
  new_s3 (<["versions/v2/snapshot/a"%string := bytes_of base]>
    (<["current/a"%string := bytes_of head]> {["workspaces/w/a"%string := bytes_of overlay]})) false.
Definition wit_diff (path : string) : WorkspaceDiff :=
  mkDiff "w" "v1" [mkFileDiff path FcModified 4 ""] [].

Definition text_base : string := "a
b
c
".
Definition text_head : string := "A
b
c
".
Definition text_ws : string := "a
b
C
".
Definition text_merged : string := "A
b
C
".

Lemma fast_forward_merge_spec_witness :
  exists r v' s', fast_forward_merge (H:=wit_fs) wit_clock wit_versions wit_parse wit_ws (wit_diff "a") []
      (wit_vai "v1", wit_store text_base text_head text_ws) = (Ok r, (v', s')) /\
    s3_lookup "workspaces/w/" "current/" s' "base/a" = Some (bytes_of text_ws) /\
    read_head v' = Some "v2"%string.
Proof.
  destruct (@fast_forward_merge_spec S3 wit_fs wit_spec wit_clock wit_versions wit_parse
    (fun p c H => ltac:(discriminate H)) wit_ws (wit_diff "a") [] (wit_vai "v1")
    (wit_store text_base text_head text_ws) wit_ws) as (r & v' & s' & Hr & _ & Hb & _ & _ & Hh & _).
  - apply new_s3_wf.
  - reflexivity.
  - exists r, v', s'. split; [exact Hr|]. split; [|exact Hh].
    etransitivity; [exact (Hb "a"%string)|]. reflexivity.
Defined.

Definition wit_merge (s : S3) (d : WorkspaceDiff) : outcome MergeError Merging * nat :=
  merge_all wit_uuid wit_parse wit_iter (s3_lookup "workspaces/w/" "current/" s)
    (base_content_at (s3_lookup "workspaces/w/" "current/" s) "v1" "v2") "w" 0 (file_diffs d) no_merging.
Definition wit_merging (s : S3) (d : WorkspaceDiff) : Merging :=
  match wit_merge s d with (Ok m, _) => m | _ => no_merging end.

Lemma semantic_merge_applies_witness :
  exists r v' s', semantic_merge (H:=wit_fs) wit_clock wit_uuid wit_versions wit_parse wit_parse wit_iter
      wit_ws (wit_diff "a") [] (wit_vai "v2", wit_store text_base text_head text_ws) = (Ok r, (v', s')) /\
    s3_lookup "workspaces/w/" "current/" s' "base/a" = Some (bytes_of text_merged).
Proof.
  destruct (@semantic_merge_applies S3 wit_fs wit_spec wit_clock wit_uuid wit_versions wit_parse wit_parse
    wit_iter (fun p c H => ltac:(discriminate H)) wit_ws (wit_diff "a") [] "v2" (wit_vai "v2")
    (wit_store text_base text_head text_ws)
    (wit_merging (wit_store text_base text_head text_ws) (wit_diff "a")) 0 wit_ws)
    as (r & v' & s' & Hr & _ & Hb & _).
  - apply new_s3_wf.
  - reflexivity.
  - reflexivity.
  - vm_compute. reflexivity.
  - vm_compute. reflexivity.
  - exists r, v', s'. split; [exact Hr|].
    etransitivity; [exact (Hb "a"%string)|]. vm_compute. reflexivity.
Defined.

(** Both sides rewrite the last line. *)
Definition wit_conflict : S3 := wit_store text_base "a
b
X
" text_ws.

Lemma semantic_merge_conflicts_witness :
  exists v' s', semantic_merge (H:=wit_fs) wit_clock wit_uuid wit_versions wit_parse wit_parse wit_iter
      wit_ws (wit_diff "a") [] (wit_vai "v2", wit_conflict)
    = (Err (SemanticConflicts 1 (mg_conflicts (wit_merging wit_conflict (wit_diff "a")))), (v', s')) /\
    versions v' = versions (wit_vai "v2").
Proof.
  destruct (@semantic_merge_conflicts S3 wit_fs wit_spec wit_clock wit_uuid wit_versions wit_parse wit_parse
    wit_iter wit_ws (wit_diff "a") [] "v2" (wit_vai "v2") wit_conflict
    (wit_merging wit_conflict (wit_diff "a")) 1) as (v' & s' & Hr & _ & _ & _ & _ & Hv & _).
  - apply new_s3_wf.
  - reflexivity.
  - vm_compute. reflexivity.
  - vm_compute. discriminate.
  - exists v', s'. split; [exact Hr|exact Hv].
Defined.

(** The workspace deletes [b], which HEAD still has. *)
Definition wit_deletion : S3 :=
  new_s3 {["current/b"%string := bytes_of "1"]} false.
Definition wit_deletion_diff : WorkspaceDiff := mkDiff "w" "v1" [mkFileDiff "b" FcDeleted 0 ""] [].

Lemma semantic_merge_deletion_fails_witness :
  (semantic_merge (H:=wit_fs) wit_clock wit_uuid wit_versions wit_parse wit_parse wit_iter
     wit_ws wit_deletion_diff ["b"%string] (wit_vai "v2", wit_deletion)).1 = Err (MeIo NotFound).
Proof.
  apply (@semantic_merge_deletion_fails S3 wit_fs wit_spec wit_clock wit_uuid wit_versions wit_parse
    wit_parse wit_iter wit_ws wit_deletion_diff ["b"%string] "v2" (wit_vai "v2") wit_deletion
    (mkFileDiff "b" FcDeleted 0 "")).
  - apply new_s3_wf.
  - reflexivity.
  - by left.
  - reflexivity.
  - reflexivity.
Defined.

(** HEAD and the workspace both add [n]; no snapshot has it. *)
Definition wit_added_twice : S3 :=
  new_s3 (<["current/n"%string := bytes_of "head"]> {["workspaces/w/n"%string := bytes_of "ws"]}) false.

Lemma semantic_merge_overwrites_witness :
  exists r v' s', semantic_merge (H:=wit_fs) wit_clock wit_uuid wit_versions wit_parse wit_parse wit_iter
      wit_ws (wit_diff "n") [] (wit_vai "v2", wit_added_twice) = (Ok r, (v', s')) /\
    s3_lookup "workspaces/w/" "current/" s' "base/n" = Some (bytes_of "ws").
Proof.
  destruct (@semantic_merge_overwrites S3 wit_fs wit_spec wit_clock wit_uuid wit_versions wit_parse
    wit_parse wit_iter (fun p c H => ltac:(discriminate H)) wit_ws (wit_diff "n") [] "v2" (wit_vai "v2")
    wit_added_twice (wit_merging wit_added_twice (wit_diff "n")) 0 wit_ws "n" (bytes_of "ws"))
    as (r & v' & s' & Hr & _ & Hb).
  - apply new_s3_wf.
  - reflexivity.
  - reflexivity.
  - vm_compute. reflexivity.
  - vm_compute. reflexivity.
  - by left.
  - apply not_elem_of_nil.
  - vm_compute. reflexivity.
  - reflexivity.
  - exists r, v', s'. split; [exact Hr|exact Hb].
Defined.
