(* ===== verification/SubmitFrame.v ===== *)
(** What a submission can touch, whatever path it takes: a program logic for the
    monad of submissions (partial correctness, the state of the files under an
    invariant) and the frame of [submit_with_fs]. *)
From S2P Require Import Prelude RustStr TextMerge Graph EventLog MergeEngine MergeFs VaiDir Workspace Version Diff Submit.

Section frame.
Context {S : Type} `{MergeFsSpec S}.
Variable clock : nat -> DateTime.
Variable uuid : nat -> Uuid.
Variable read_dir : gmap string VersionMeta -> list VersionMeta.
Variable parse_rust_source : string -> bytes -> outcome GraphError (list Entity * list Relationship).
Variable parse_source_file : string -> bytes -> outcome GraphError (list Entity * list Relationship).
Variable sha256_hex : bytes -> string.
Variable iter_order : gset string -> list string.

Abbreviation World := (VaiDir * S)%type.
Abbreviation R := (M World MergeError).

(** The files at the start, the paths that the submission may change, and a
    further property of the files that reads keep, writes of snapshots, and
    writes and deletions at those paths. *)
Variable f0 : string -> option bytes.
Variable touched : string -> Prop.
Variable X : S -> Prop.

Definition framed (s : S) : Prop :=
  fs_wf s /\ X s /\ (forall p, fs_lookup s (okey p) = f0 (okey p)) /\
  (forall p, ~ touched p -> fs_lookup s (bkey p) = f0 (bkey p)).

Record keeps_X : Prop := {
  kx_read k s : fs_wf s -> fs_key k -> X s -> X (read_file k s).2;
  kx_exists k s : fs_wf s -> fs_key k -> X s -> X (exists_file k s).2;
  kx_list p s : fs_wf s -> fs_prefix p -> X s -> X (list_files p s).2;
  kx_base p c s : fs_wf s -> touched p -> X s -> X (write_file (bkey p) c s).2;
  kx_snapshot n p c s : fs_wf s -> X s -> X (write_file (skey ("v" +:+ print_u64 n) p) c s).2;
  kx_delete p s : fs_wf s -> touched p -> X s -> X (delete_file (bkey p) s).2
}.
Hypothesis HX : keeps_X.

(** When [m] succeeds, the files are still framed and [P] holds of the answer. *)
Definition feff {E A} (m : M S E A) (P : A -> Prop) : Prop :=
  forall s a s', framed s -> m s = (Ok a, s') -> framed s' /\ P a.

Lemma feff_ret {E A} (a : A) (P : A -> Prop) : P a -> feff (E:=E) (mret a) P.
Proof using. intros HP s ? ? Hs [= <- <-]. done. Qed.

Lemma feff_lift {E A} (o : outcome E A) (P : A -> Prop) : (forall a, o = Ok a -> P a) -> feff (lift o) P.
Proof using. intros HP s ? ? Hs [= -> <-]. auto. Qed.

Lemma feff_bind {E A B} (m : M S E A) (k : A -> M S E B) Q P :
  feff m Q -> (forall a, Q a -> feff (k a) P) -> feff (m ≫= k) P.
Proof using.
  intros Hm Hk s b s' Hs. unfold mbind, M_bind. destruct (m s) as [[a|e|] s1] eqn:E1; [|done..].
  destruct (Hm _ _ _ Hs E1) as [Hs1 HQ]. by apply Hk.
Qed.

Lemma feff_err_into {E E' A} (g : E -> E') (m : M S E A) P : feff m P -> feff (err_into g m) P.
Proof using.
  intros Hm s a s' Hs. unfold err_into. destruct (m s) as [[b|e|] s1] eqn:E1; intros [= <- <-]. by apply (Hm s).
Qed.

(** *** The files *)

Lemma framed_same s s' : framed s -> fs_wf s' -> X s' -> fs_lookup s' = fs_lookup s -> framed s'.
Proof using. intros (_ & _ & Ho & Hb) Hwf Hx El. split_and!; [done..| |]; by rewrite El. Qed.

Lemma feff_read k : fs_key k -> feff (read_file k) (fun _ => True).
Proof using HX.
  intros Hk s a s' Hs E. pose proof Hs as (Hwf & Hx & _).
  destruct (read_file_spec s k Hwf Hk) as (s1 & E1 & Hwf1 & Hl1).
  pose proof (kx_read HX k s Hwf Hk Hx) as Hx1. rewrite E1 in *.
  destruct (fs_lookup s k); [injection E as <- <-|discriminate E]. split; [|done]. by apply (framed_same s).
Qed.

Lemma feff_exists k : fs_key k -> feff (exists_file k) (fun _ => True).
Proof using HX.
  intros Hk s a s' Hs E. pose proof Hs as (Hwf & Hx & _).
  destruct (exists_file_spec s k Hwf Hk) as (s1 & E1 & Hwf1 & Hl1).
  pose proof (kx_exists HX k s Hwf Hk Hx) as Hx1. rewrite E1 in *.
  injection E as <- <-. split; [|done]. by apply (framed_same s).
Qed.

Lemma feff_list p : fs_prefix p ->
  feff (list_files p) (fun keys => forall k, k ∈ keys ->
    (exists rel, k = p +:+ rel) /\ forall q, k = okey q -> is_Some (f0 (okey q))).
Proof using HX.
  intros Hp s a s' Hs E. pose proof Hs as (Hwf & Hx & Ho & _).
  destruct (list_files_spec s p Hwf Hp) as (s1 & keys & E1 & Hwf1 & Hl1 & _ & Hk).
  pose proof (kx_list HX p s Hwf Hp Hx) as Hx1. rewrite E1 in *. injection E as <- <-.
  split; [by apply (framed_same s)|]. intros k [Hin Hrel]%Hk. split; [done|]. intros q ->. by rewrite <-Ho.
Qed.

(** A change of one key that is no overlay key, and a project key only where the
    submission may change the project. *)
Lemma framed_update s s' k (o : option bytes) :
  framed s -> fs_wf s' -> X s' -> (forall q, k <> okey q) -> (forall q, k = bkey q -> touched q) ->
  (forall k', fs_key k' -> fs_lookup s' k' = if decide (k' = k) then o else fs_lookup s k') -> framed s'.
Proof using.
  intros (_ & _ & Ho & Hb) Hwf Hx Hno Hbk Hl. split_and!; [done..| |].
  - intros q. rewrite Hl, decide_False; [done| |apply fs_key_overlay]. intros E. by apply (Hno q).
  - intros q Hq. rewrite Hl, decide_False; [by apply Hb| |apply fs_key_base]. intros E. by apply Hq, Hbk.
Qed.

Lemma feff_write_base p c : touched p -> feff (write_file (bkey p) c) (fun _ => True).
Proof using HX.
  intros Ht s a s' Hs E. pose proof Hs as (Hwf & Hx & _).
  destruct (write_file_spec s (bkey p) c Hwf (fs_key_base p)) as (s1 & E1 & Hwf1 & Hl1).
  pose proof (kx_base HX p c s Hwf Ht Hx) as Hx1. rewrite E1 in *. injection E as <- <-. split; [|done].
  apply (framed_update s s1 (bkey p) (Some c)); [done..| | |done]; [by intros q [=]|by intros q <-%bkey_inj].
Qed.

Lemma feff_delete_base p : touched p -> feff (delete_file (bkey p)) (fun _ => True).
Proof using HX.
  intros Ht s a s' Hs E. pose proof Hs as (Hwf & Hx & _).
  destruct (delete_file_spec s (bkey p) Hwf (fs_key_base p)) as (s1 & E1 & Hwf1 & Hl1).
  pose proof (kx_delete HX p s Hwf Ht Hx) as Hx1. rewrite E1 in *. injection E as <- <-. split; [|done].
  apply (framed_update s s1 (bkey p) None); [done..| | |done]; [by intros q [=]|by intros q <-%bkey_inj].
Qed.

Lemma feff_write_snapshot n p c : feff (write_file (skey ("v" +:+ print_u64 n) p) c) (fun _ => True).
Proof using HX.
  intros s a s' Hs E. pose proof Hs as (Hwf & Hx & _).
  destruct (write_file_spec s (skey ("v" +:+ print_u64 n) p) c Hwf (fs_key_snapshot n p))
    as (s1 & E1 & Hwf1 & Hl1).
  pose proof (kx_snapshot HX n p c s Hwf Hx) as Hx1. rewrite E1 in *. injection E as <- <-. split; [|done].
  by apply (framed_update s s1 (skey ("v" +:+ print_u64 n) p) (Some c)).
Qed.

(** *** The whole state *)

(** When [m] succeeds, the files are still framed and [P] holds of the answer and
    of the metadata. *)
Definition eff {A} (m : R A) (v : VaiDir) (P : A -> VaiDir -> Prop) : Prop :=
  forall s a v' s', framed s -> m (v, s) = (Ok a, (v', s')) -> framed s' /\ P a v'.

Lemma eff_ret {A} (a : A) v (P : A -> VaiDir -> Prop) : P a v -> eff (mret a) v P.
Proof using. intros HP s ? ? ? Hs [= <- <- <-]. done. Qed.

Lemma eff_fail {A} e v (P : A -> VaiDir -> Prop) : eff (fail e) v P.
Proof using. by intros s ? ? ? Hs [=]. Qed.

Lemma eff_bind {A B} (m : R A) (k : A -> R B) v Q P :
  eff m v Q -> (forall a v', Q a v' -> eff (k a) v' P) -> eff (m ≫= k) v P.
Proof using.
  intros Hm Hk s b v' s' Hs. unfold mbind, M_bind.
  destruct (m (v, s)) as [[a|e|] [v1 s1]] eqn:E; [|done..].
  destruct (Hm _ _ _ _ Hs E) as [Hs1 HQ]. by apply Hk.
Qed.

Lemma eff_mono {A} (m : R A) v (Q P : A -> VaiDir -> Prop) :
  eff m v Q -> (forall a v', Q a v' -> P a v') -> eff m v P.
Proof using. intros Hm HQ s a v' s' Hs E. destruct (Hm _ _ _ _ Hs E). auto. Qed.

Lemma eff_on_vai {A} (m : M VaiDir MergeError A) v (P : A -> VaiDir -> Prop) :
  (forall a v', m v = (Ok a, v') -> P a v') -> eff (on_vai m) v P.
Proof using.
  intros Hm s a v' s' Hs. unfold on_vai. destruct (m v) as [r v1] eqn:E. intros [= -> -> ->]. auto.
Qed.

Lemma eff_state v (P : VaiDir -> VaiDir -> Prop) : P v v -> eff vai_state v P.
Proof using. intros HP s ? ? ? Hs [= <- <- <-]. done. Qed.

Lemma eff_lift {A} (o : outcome MergeError A) v (P : A -> VaiDir -> Prop) :
  (forall a, o = Ok a -> P a v) -> eff (on_fs (lift o)) v P.
Proof using. intros HP s a ? ? Hs. unfold on_fs, lift. intros [= -> -> ->]. auto. Qed.

Lemma eff_for_each {A} (g : A -> R unit) l v (P : VaiDir -> Prop) :
  P v -> (forall x v, x ∈ l -> P v -> eff (g x) v (fun _ => P)) -> eff (for_each g l) v (fun _ => P).
Proof using.
  revert v; induction l as [|x l IH]; intros v HP Hg; simpl; [by apply eff_ret|].
  eapply eff_bind; [apply Hg; [by left|done]|]. intros ? v' HP'. apply IH; [done|].
  intros y w Hy. apply Hg. by right.
Qed.

Lemma eff_on_fs {A} (m : M S MergeError A) v P :
  feff m P -> eff (on_fs m) v (fun a v' => v' = v /\ P a).
Proof using.
  intros Hm s a v' s' Hs. unfold on_fs. destruct (m s) as [r s1] eqn:E. intros [= -> <- <-].
  by destruct (Hm _ _ _ Hs E).
Qed.

Lemma eff_io {A} (m : M S IoError A) v P : feff m P -> eff (io m) v (fun a v' => v' = v /\ P a).
Proof using. intros Hm. by apply eff_on_fs, feff_err_into. Qed.

Lemma eff_io_unit {A} (m : M S IoError A) v : feff m (fun _ => True) -> eff (io m) v (fun _ v' => v' = v).
Proof using. intros Hm. eapply eff_mono; [by apply eff_io|]. by intros a v' []. Qed.

Lemma eff_read k v : fs_key k -> eff (io (read_file k)) v (fun _ v' => v' = v).
Proof using HX. intros. by apply eff_io_unit, feff_read. Qed.
Lemma eff_exists k v : fs_key k -> eff (io (exists_file k)) v (fun _ v' => v' = v).
Proof using HX. intros. by apply eff_io_unit, feff_exists. Qed.
Lemma eff_list p v : fs_prefix p ->
  eff (io (list_files p)) v (fun keys v' => v' = v /\
    forall k, k ∈ keys -> (exists rel, k = p +:+ rel) /\ forall q, k = okey q -> is_Some (f0 (okey q))).
Proof using HX. intros. by apply eff_io, feff_list. Qed.
Lemma eff_write_base p c v : touched p -> eff (io (write_file (bkey p) c)) v (fun _ v' => v' = v).
Proof using HX. intros. by apply eff_io_unit, feff_write_base. Qed.
Lemma eff_delete_base p v : touched p -> eff (io (delete_file (bkey p))) v (fun _ v' => v' = v).
Proof using HX. intros. by apply eff_io_unit, feff_delete_base. Qed.
Lemma eff_write_snapshot n p c v :
  eff (io (write_file (skey ("v" +:+ print_u64 n) p) c)) v (fun _ v' => v' = v).
Proof using HX. intros. by apply eff_io_unit, feff_write_snapshot. Qed.

(** *** The steps of a submission *)

(** Every file of the overlay may be applied. *)
Hypothesis overlay_touched : forall p, is_Some (f0 (okey p)) -> touched p.

Lemma eff_save_snapshot n d v :
  eff (save_pre_change_snapshot ("v" +:+ print_u64 n) d) v (fun _ v' => v' = v).
Proof using HX.
  apply (eff_for_each _ _ _ (fun v' => v' = v)); [done|]. intros fd ? _ ->. unfold save_file_snapshot.
  eapply eff_bind; [apply eff_exists, fs_key_base|]. intros [] ? ->; [|by apply eff_ret].
  eapply eff_bind; [apply eff_read, fs_key_base|]. intros c ? ->. apply eff_write_snapshot.
Qed.

Lemma eff_delete_files deleted v :
  Forall touched deleted -> eff (for_each delete_base_file deleted) v (fun _ v' => v' = v).
Proof using HX.
  rewrite Forall_forall. intros Hd. apply (eff_for_each _ _ _ (fun v' => v' = v)); [done|].
  intros p ? Hp ->. by apply eff_delete_base, Hd.
Qed.

Lemma eff_apply_overlay deleted v :
  Forall touched deleted -> eff (apply_overlay deleted) v (fun _ v' => v' = v).
Proof using HX overlay_touched.
  intros Hd. unfold apply_overlay.
  eapply eff_bind; [apply eff_list, fs_prefix_overlay|]. intros keys ? [-> Hk].
  eapply eff_bind.
  { apply (eff_for_each _ _ _ (fun v' => v' = v)); [done|]. intros k ? Hin ->.
    destruct (Hk k Hin) as [[rel ->] Hf]. unfold apply_overlay_file. rewrite strip_prefix_app.
    eapply eff_bind; [by apply (eff_lift _ _ (fun a v' => a = rel /\ v' = v)); intros a [= <-]|].
    intros ? ? [-> ->]. eapply eff_bind; [apply eff_read, fs_key_overlay|]. intros c ? ->.
    by apply eff_write_base, overlay_touched, Hf. }
  intros ? ? ->. eapply eff_bind; [by apply eff_delete_files|]. intros ? ? ->. by apply eff_ret.
Qed.

Lemma eff_update_graph d v :
  eff (update_graph_for_diff parse_source_file d) v (fun _ v' => versions v' = versions v).
Proof using HX.
  apply (eff_for_each _ _ _ (fun v' => versions v' = versions v)); [done|]. intros fd w _ Hw.
  unfold update_graph_for_file. intros s a v' s' Hs.
  destruct (is_supported_source_file (fd_path fd)); [|by intros [= <- <- <-]].
  pose proof (eff_read (bkey (fd_path fd)) w (fs_key_base _) s) as Hr.
  unfold io, on_fs, err_into, bkey in Hr. destruct Hs as (Hwf & Hx & Ho & Hb).
  destruct (read_file_spec s (bkey (fd_path fd)) Hwf (fs_key_base _)) as (s1 & E & Hwf1 & Hl1).
  pose proof (kx_read HX (bkey (fd_path fd)) s Hwf (fs_key_base _) Hx) as Hx1.
  unfold bkey in *. rewrite E in *. assert (framed s1).
  { split_and!; [done..| |]; by rewrite Hl1. }
  destruct (fs_lookup s _); [|by intros [= <- <- <-]].
  destruct (update_file _ _ _ _) as [[] g]; intros [= <- <- <-]; by split.
Qed.

(** The answer to a submission that made the version [id]. *)
Record answers (ws : WorkspaceMeta) (id : string) (vm : VersionMeta) : Prop := {
  an_id : version_id vm = id;
  an_parent : parent_version_id vm = Some (base_version ws);
  an_intent : v_intent vm = ws_intent ws
}.

Lemma finish_merge_answers ws id deleted auto v meta v' :
  finish_merge clock ws id deleted auto v = (Ok meta, v') -> answers ws id meta.
Proof using.
  unfold finish_merge.
  destruct (append_all_grown (E:=MergeError) clock (FileRemoved (ws_id ws) <$> deleted) v) as (v1 & H1 & _).
  rewrite (M_bind_ok _ _ _ _ _ H1). rewrite (M_bind_ok _ _ _ _ _ (append_event_eq clock _ v1)).
  rewrite (M_bind_ok _ _ _ _ _ (append_event_eq clock _ _)).
  unfold create_version, mbind, M_bind. simpl.
  destruct (advance_head_and_close_workspace _ _ _ _) as [[[]| |] v2]; intros [= <- <-]. by constructor.
Qed.

Lemma eff_fast_forward ws d deleted v :
  Forall touched deleted ->
  eff (fast_forward_merge clock read_dir parse_source_file ws d deleted) v
    (fun r _ => answers ws (next_version_id read_dir v) (sr_version r)).
Proof using HX overlay_touched.
  intros Hd. unfold fast_forward_merge.
  eapply eff_bind; [by apply (eff_state v (fun a v' => a = v /\ v' = v))|]. intros ? ? [-> ->].
  eapply eff_bind; [apply eff_save_snapshot|]. intros ? ? ->.
  eapply eff_bind; [by apply eff_apply_overlay|]. intros ? ? ->.
  eapply eff_bind; [apply eff_update_graph|]. intros ? v1 Hv1.
  eapply (eff_bind _ _ _ (fun m _ => answers ws (next_version_id read_dir v) m)).
  { apply eff_on_vai. intros m v2. apply finish_merge_answers. }
  intros m v2 Hm. by apply eff_ret.
Qed.

Lemma snapshot_prefix n rel :
  ("snapshot/v" +:+ print_u64 n +:+ "/") +:+ rel = skey ("v" +:+ print_u64 n) rel.
Proof using.
  change ("snapshot/v" +:+ print_u64 n +:+ "/") with ("snapshot/" +:+ ("v" +:+ print_u64 n) +:+ "/").
  unfold skey. by rewrite <-!string_app_assoc.
Qed.

Lemma eff_collect_keys prefix keys result v :
  (forall k, k ∈ keys -> fs_key k) -> eff (collect_keys prefix keys result) v (fun _ v' => v' = v).
Proof using HX.
  revert result; induction keys as [|k keys IH]; intros result Hk; simpl; [by apply eff_ret|].
  eapply (eff_bind _ _ _ (fun _ v' => v' = v)).
  - unfold collect_key. eapply eff_bind; [by apply (eff_lift _ _ (fun _ v' => v' = v))|]. intros rel ? ->.
    eapply eff_bind; [apply eff_read, Hk; by left|]. intros c ? ->. by apply eff_ret.
  - intros r ? ->. apply IH. intros q Hq. apply Hk. by right.
Qed.

Lemma eff_collect_versions count n result v : eff (collect_versions count n result) v (fun _ v' => v' = v).
Proof using HX.
  revert n result; induction count as [|count IH]; intros n result; simpl; [by apply eff_ret|].
  eapply eff_bind; [apply eff_list, fs_prefix_snapshot|]. intros keys ? [-> Hk].
  eapply eff_bind.
  { apply eff_collect_keys. intros k Hin. destruct (Hk k Hin) as [[rel ->] _].
    rewrite snapshot_prefix. apply fs_key_snapshot. }
  intros r ? ->. apply IH.
Qed.

Lemma eff_collect_head base v : eff (collect_head_changed_files base) v (fun _ v' => v' = v).
Proof using HX.
  unfold collect_head_changed_files.
  eapply eff_bind; [by apply (eff_state v (fun a v' => a = v /\ v' = v))|]. intros ? ? [-> ->].
  destruct (read_head v); [apply eff_collect_versions|apply eff_fail].
Qed.

(** The merged files are among those of the diff. *)
Definition merged_in (paths : list string) (m : Merging) : Prop :=
  Forall (fun f => f.1 ∈ paths) (merged_files m).

Lemma eff_merge_file_diff ws hc acc fd paths v :
  fd_path fd ∈ paths -> merged_in paths acc ->
  eff (merge_file_diff uuid parse_rust_source iter_order ws hc acc fd) v
    (fun m v' => versions v' = versions v /\ merged_in paths m).
Proof using HX.
  intros Hfd Hacc. unfold merge_file_diff.
  assert (Hadd : forall c l cs, merged_in paths (mkMerging (merged_files acc ++ [(fd_path fd, c)]) l cs)).
  { intros c l cs. apply Forall_app. split; [done|]. by constructor. }
  eapply eff_bind; [apply eff_read, fs_key_overlay|]. intros wc ? ->.
  destruct (hc !! fd_path fd) as [base|]; [|by apply eff_ret].
  eapply eff_bind; [apply eff_exists, fs_key_base|]. intros there ? ->.
  eapply (eff_bind _ _ _ (fun _ v' => v' = v)).
  { destruct there; [apply eff_read, fs_key_base|by apply eff_ret]. }
  intros hd ? ->. eapply (eff_bind _ _ _ (fun _ v' => versions v' = versions v)).
  { intros s a v' s' Hs. unfold merge_changed_file.
    by destruct (try_merge_file _ _ _ _ _ _ _ _) as [[]|]; intros [= <- <- <-]. }
  intros [c l|rs] v' Hv'; by apply eff_ret.
Qed.

Lemma eff_merge_file_diffs ws hc fds acc paths v :
  (forall fd, fd ∈ fds -> fd_path fd ∈ paths) -> merged_in paths acc ->
  eff (merge_file_diffs uuid parse_rust_source iter_order ws hc fds acc) v
    (fun m v' => versions v' = versions v /\ merged_in paths m).
Proof using HX.
  revert acc v; induction fds as [|fd fds IH]; intros acc v Hfds Hacc; simpl; [by apply eff_ret|].
  eapply eff_bind; [apply eff_merge_file_diff; [apply Hfds; by left|done]|]. intros acc' v' [Hv' Hacc'].
  eapply eff_mono; [apply IH; [intros; apply Hfds; by right|done]|]. intros m v'' [Hv'' Hm]. split; congruence.
Qed.

Lemma eff_apply_merge ws d deleted m v :
  Forall touched deleted -> (forall f, f ∈ merged_files m -> touched f.1) ->
  eff (apply_merge clock read_dir parse_source_file ws d deleted m) v
    (fun r _ => answers ws (next_version_id read_dir v) (sr_version r)).
Proof using HX.
  intros Hd Hm. unfold apply_merge. destruct (mg_conflicts m).
  - eapply eff_bind; [by apply (eff_state v (fun a v' => a = v /\ v' = v))|]. intros ? ? [-> ->].
    eapply eff_bind; [apply eff_save_snapshot|]. intros ? ? ->.
    eapply eff_bind.
    { apply (eff_for_each _ _ _ (fun v' => v' = v)); [done|]. intros f ? Hf ->.
      by apply eff_write_base, Hm. }
    intros ? ? ->. eapply eff_bind; [by apply eff_delete_files|]. intros ? ? ->.
    eapply eff_bind; [apply eff_update_graph|]. intros ? v1 _.
    eapply (eff_bind _ _ _ (fun vm _ => answers ws (next_version_id read_dir v) vm)).
    { apply eff_on_vai. intros vm v2. apply finish_merge_answers. }
    intros vm v2 Hvm. by apply eff_ret.
  - eapply (eff_bind _ _ _ (fun _ _ => True)); [by apply eff_on_vai|]. intros ? ? _.
    eapply (eff_bind _ _ _ (fun _ _ => True)); [by apply eff_on_vai|]. intros ? ? _. apply eff_fail.
Qed.

Lemma eff_semantic_merge ws d deleted v :
  Forall touched deleted -> (forall fd, fd ∈ file_diffs d -> touched (fd_path fd)) ->
  eff (semantic_merge clock uuid read_dir parse_rust_source parse_source_file iter_order ws d deleted) v
    (fun r _ => answers ws (next_version_id read_dir v) (sr_version r)).
Proof using HX.
  intros Hd Hfds. unfold semantic_merge.
  eapply eff_bind; [apply eff_collect_head|]. intros hc ? ->.
  eapply eff_bind.
  { apply (eff_merge_file_diffs _ _ _ _ (fd_path <$> file_diffs d)); [|constructor].
    intros fd Hfd. apply list_elem_of_fmap. eauto. }
  intros m v' [Hv' Hm]. unfold merged_in in Hm. rewrite Forall_forall in Hm.
  eapply eff_mono; [apply eff_apply_merge; [done|]|].
  - intros f (fd & -> & Hfd)%Hm%list_elem_of_fmap. by apply Hfds.
  - intros r w. unfold next_version_id, list_versions. by rewrite Hv'.
Qed.

(** *** The diff *)

Lemma feff_diff_overlay_file p :
  is_Some (f0 (okey p)) ->
  feff (diff_overlay_file parse_rust_source sha256_hex iter_order (okey p)) (fun r => touched (fd_path r.1)).
Proof using HX overlay_touched.
  intros Hp. unfold diff_overlay_file, okey. rewrite strip_prefix_app.
  eapply feff_bind; [by apply (feff_lift _ (eq p)); intros a [= <-]|]. intros ? <-.
  eapply feff_bind; [apply feff_err_into, feff_read, fs_key_overlay|]. intros c _.
  eapply feff_bind; [apply feff_err_into, feff_exists, fs_key_base|]. intros b _.
  assert (touched p) by by apply overlay_touched.
  destruct (ends_with ".rs" p); [|by apply feff_ret].
  eapply feff_bind; [apply feff_err_into, feff_exists, fs_key_base|]. intros again _.
  eapply (feff_bind _ _ (fun _ => True)).
  { destruct again; [|by apply feff_ret].
    eapply feff_bind; [apply feff_err_into, feff_read, fs_key_base|]. intros; by apply feff_ret. }
  intros base _. eapply feff_bind; [by apply (feff_lift _ (fun _ => True))|]. intros; by apply feff_ret.
Qed.

Lemma feff_diff_overlay keys :
  (forall k, k ∈ keys -> exists p, k = okey p /\ is_Some (f0 (okey p))) ->
  feff (diff_overlay parse_rust_source sha256_hex iter_order keys)
    (fun r => forall fd, fd ∈ r.1 -> touched (fd_path fd)).
Proof using HX overlay_touched.
  induction keys as [|k keys IH]; intros Hk; simpl.
  { apply feff_ret. by intros fd ?%not_elem_of_nil. }
  destruct (Hk k) as (p & -> & Hp); [by left|].
  eapply feff_bind; [by apply feff_diff_overlay_file|]. intros [fd ecs] Hfd.
  eapply feff_bind; [apply IH; intros; apply Hk; by right|]. intros [fds rest] Hfds.
  apply feff_ret. simpl in *. intros fd' [->|?]%elem_of_cons; auto.
Qed.

Lemma feff_diff_deleted_path p :
  feff (diff_deleted_path parse_rust_source p) (fun r => forall fd, fd ∈ r.1 -> fd_path fd = p).
Proof using HX.
  assert (Hone : forall fd, fd ∈ [mkFileDiff p FcDeleted 0 ""] -> fd_path fd = p).
  { by intros fd ->%list_elem_of_singleton. }
  unfold diff_deleted_path. eapply feff_bind; [apply feff_err_into, feff_exists, fs_key_base|]. intros [] _; simpl.
  2:{ apply feff_ret. by intros fd ?%not_elem_of_nil. }
  destruct (ends_with ".rs" p); simpl; [|by apply feff_ret].
  eapply (feff_bind _ _ (fun _ => True)).
  - intros s a s' Hs. unfold read_if_ok. pose proof Hs as (Hwf & Hx & _).
    destruct (read_file_spec s (bkey p) Hwf (fs_key_base p)) as (s1 & E1 & Hwf1 & Hl1).
    pose proof (kx_read HX (bkey p) s Hwf (fs_key_base p) Hx) as Hx1. unfold bkey in *. rewrite E1 in *.
    destruct (fs_lookup s _); intros [= <- <-]; (split; [by apply (framed_same s)|done]).
  - intros [c|] _; [|by apply feff_ret].
    eapply feff_bind; [by apply (feff_lift _ (fun _ => True))|]. intros; by apply feff_ret.
Qed.

Lemma feff_diff_deleted paths :
  feff (diff_deleted parse_rust_source paths) (fun r => forall fd, fd ∈ r.1 -> fd_path fd ∈ paths).
Proof using HX.
  induction paths as [|p paths IH]; simpl; [apply feff_ret; by intros fd ?%not_elem_of_nil|].
  eapply feff_bind; [apply feff_diff_deleted_path|]. intros [fds ecs] Hfds.
  eapply feff_bind; [exact IH|]. intros [fds' ecs'] Hfds'. apply feff_ret. simpl in *.
  intros fd [Hin|Hin]%elem_of_app; [rewrite (Hfds fd Hin); by left|right; auto].
Qed.

Lemma feff_compute w base deleted :
  Forall touched deleted ->
  feff (compute_with_fs parse_rust_source sha256_hex iter_order w base deleted)
    (fun d => forall fd, fd ∈ file_diffs d -> touched (fd_path fd)).
Proof using HX overlay_touched.
  rewrite Forall_forall. intros Hd. unfold compute_with_fs.
  eapply feff_bind; [apply feff_err_into, feff_list, fs_prefix_overlay|]. intros keys Hk.
  eapply feff_bind.
  { apply feff_diff_overlay. intros k Hin. destruct (Hk k Hin) as [[p ->] Hf]. exists p. auto. }
  intros [fds ecs] Hfds. eapply feff_bind; [apply feff_diff_deleted|]. intros [dfds decs] Hdfds.
  apply feff_ret. simpl in *. intros fd [Hin|Hin]%elem_of_app; auto.
Qed.

(** *** The submission *)

Lemma eff_submit ws deleted v m0 :
  Forall touched deleted -> active v = (Ok m0, v) -> is_Some (workspaces v !! ws_id m0) ->
  eff (submit_with_fs clock uuid read_dir parse_rust_source parse_source_file sha256_hex iter_order ws deleted)
    v (fun r _ => answers ws (next_version_id read_dir v) (sr_version r)).
Proof using HX overlay_touched.
  intros Hd Ha Hm0. unfold submit_with_fs.
  eapply eff_bind; [apply eff_on_fs, feff_err_into; by apply feff_compute|]. intros d ? [-> Hfds].
  destruct (diff_is_empty d); [apply eff_fail|].
  eapply (eff_bind _ _ _ (fun _ v' => versions v' = versions v)).
  { destruct (record_events_ok clock d v m0 Ha Hm0) as (v1 & E1 & R1).
    apply eff_on_vai. intros a v'. unfold err_into. rewrite E1. intros [= <- <-]. apply (rd_versions _ _ R1). }
  intros _ v1 Hv1. eapply (eff_bind _ _ _ (fun _ v' => versions v' = versions v)).
  { apply eff_on_vai. intros a v'. rewrite append_event_eq. intros [= <- <-]. by destruct v1. }
  intros _ v2 Hv2. assert (En : next_version_id read_dir v2 = next_version_id read_dir v).
  { unfold next_version_id, list_versions. by rewrite Hv2. }
  eapply eff_bind; [by apply (eff_state v2 (fun a v' => a = v2 /\ v' = v2))|]. intros ? ? [-> ->].
  destruct (read_head v2) as [hd|]; [|apply eff_fail]. rewrite <-En.
  destruct (String.eqb hd (base_version ws)); [by apply eff_fast_forward|by apply eff_semantic_merge].
Qed.
End frame.

(** A submission that succeeds, whether it went the fast or the semantic way, has
    changed no project file but those of the overlay and the deleted ones, has
    left the overlay, and answers with the version that comes next. *)
Theorem submit_with_fs_touches {S : Type} `{MergeFsSpec S} clock uuid read_dir parse_rust_source parse_source_file
    sha256_hex iter_order ws deleted v (s : S) m0 r v' s' :
  fs_wf s -> active v = (Ok m0, v) -> is_Some (workspaces v !! ws_id m0) ->
  submit_with_fs clock uuid read_dir parse_rust_source parse_source_file sha256_hex iter_order ws deleted (v, s)
    = (Ok r, (v', s')) ->
  fs_wf s' /\ (forall p, fs_lookup s' (okey p) = fs_lookup s (okey p)) /\
  (forall p, fs_lookup s (okey p) = None -> p ∉ deleted -> fs_lookup s' (bkey p) = fs_lookup s (bkey p)) /\
  answers ws (next_version_id read_dir v) (sr_version r).
Proof.
  intros Hwf Ha Hm0 E. set (touched := fun p => is_Some (fs_lookup s (okey p)) \/ p ∈ deleted).
  assert (Hd : Forall touched deleted) by (apply Forall_forall; by right).
  assert (Hf : framed (fs_lookup s) touched (fun _ => True) s) by by split_and!.
  edestruct (eff_submit clock uuid read_dir parse_rust_source parse_source_file sha256_hex iter_order
    (fs_lookup s) touched (fun _ => True)) as [(Hwf' & _ & Ho & Hb) Hr]; [by constructor|by left|done..|exact E|].
  split_and!; [done..| |done]. intros p Hp Hin. apply Hb. intros [[c Hc]|]; congruence.
Qed.
