(* ===== verification/Replay.v ===== *)
(** Event sourcing: a component whose every change of state is recorded as events
    of the log, so that reading the log back gives the state. The components that
    keep a table next to the log instantiate the section with what a table shows
    of an item ([view]) and with what an event makes of it ([replay_event]). *)
From S2P Require Import Prelude RustStr EventLog.

Section replay.
Context {Id V State : Type}.
(** What an event makes of the item [id]; [None] is an event that the life cycle
    does not allow in that condition. *)
Variable replay_event : Id -> option V -> EventKind -> option (option V).
Variable view : State -> Id -> option V.
Variable log_of : State -> EventLog.
Variable ok : State -> Prop.

Fixpoint replay (id : Id) (kinds : list EventKind) (st : option V) : option (option V) :=
  match kinds with
  | [] => Some st
  | kind :: kinds' => st' ← replay_event id st kind; replay id kinds' st'
  end.

Lemma replay_app id kinds1 kinds2 st :
  replay id (kinds1 ++ kinds2) st = replay id kinds1 st ≫= replay id kinds2.
Proof.
  revert st. induction kinds1 as [|kind kinds1 IH]; intros st; [done|]. simpl.
  destruct (replay_event id st kind); [apply IH|done].
Qed.

(** A step that keeps the invariant and whose new events account for what it does
    to every item. *)
Definition evolves (k k' : State) : Prop :=
  ok k ->
  ok k' /\
  exists kinds, ev_kind <$> log_of k' = (ev_kind <$> log_of k) ++ kinds /\
    forall id, replay id kinds (view k id) = Some (view k' id).

Lemma evolves_silent k k' :
  (ok k -> ok k') -> (forall id, view k' id = view k id) -> log_of k' = log_of k -> evolves k k'.
Proof.
  intros Hok Hv Hl H. split; [by apply Hok|]. exists []. rewrite app_nil_r, Hl.
  split; [done|]. intros id. by rewrite Hv.
Qed.

Lemma evolves_trans k1 k2 k3 : evolves k1 k2 -> evolves k2 k3 -> evolves k1 k3.
Proof.
  intros H12 H23 Hok. destruct (H12 Hok) as (Hok2 & ks & Hl & Hr).
  destruct (H23 Hok2) as (Hok3 & ks' & Hl' & Hr'). split; [done|]. exists (ks ++ ks').
  rewrite Hl', Hl, app_assoc. split; [done|]. intros id. rewrite replay_app, Hr. apply Hr'.
Qed.

(** One event, given what it does to each item. *)
Lemma evolves_one kind k k' :
  (ok k -> ok k') -> ev_kind <$> log_of k' = (ev_kind <$> log_of k) ++ [kind] ->
  (ok k -> forall id, replay_event id (view k id) kind = Some (view k' id)) -> evolves k k'.
Proof.
  intros Hok Hl Hr H. split; [by apply Hok|]. exists [kind]. split; [done|]. intros id. simpl.
  by rewrite Hr.
Qed.

(** The state agrees with its log. *)
Definition replayed (k : State) : Prop :=
  ok k /\ forall id, replay id (ev_kind <$> log_of k) None = Some (view k id).

Lemma evolves_replayed k k' : evolves k k' -> replayed k -> replayed k'.
Proof.
  intros He [Hok Hr]. destruct (He Hok) as (Hok' & kinds & Hl & Hall). split; [done|].
  intros id. rewrite Hl, replay_app, Hr. exact (Hall id).
Qed.

Lemma reachable_replayed (step : State -> State -> Prop) k0 k :
  (forall k k', step k k' -> evolves k k') ->
  ok k0 -> log_of k0 = [] -> (forall id, view k0 id = None) -> rtc step k0 k -> replayed k.
Proof.
  intros Hstep Hok Hl Hv Hr. assert (replayed k0) as H0.
  { split; [done|]. intros id. by rewrite Hl, Hv. }
  clear Hok Hl Hv. induction Hr as [|k1 k2 k3 Hs _ IH]; [done|].
  by eapply IH, evolves_replayed, H0; apply Hstep.
Qed.
End replay.
