(* ===== verification/Issue.v ===== *)
(** Issues ([src/src/issue/mod.rs]): the SQLite tables of the issue store, the
    life cycle of an issue with the events that record it, the rate limit and the
    duplicate detection for issues that agents create, comments, dependencies and
    links. A table is the list of its rows in insertion order; a timestamp column
    is the instant it holds. *)
From S2P Require Import Prelude Table RustStr Graph EventLog Replay.

(** ** Data *)

Inductive IssuePriority : Type := PrCritical | PrHigh | PrMedium | PrLow.
Inductive IssueStatus : Type := Open | InProgress | Resolved | Closed.
Inductive IssueResolution : Type := RsResolved | RsWontFix | RsDuplicate.

#[export] Instance IssuePriority_eq_dec : EqDecision IssuePriority.
Proof. solve_decision. Defined.
#[export] Instance IssueStatus_eq_dec : EqDecision IssueStatus.
Proof. solve_decision. Defined.

Definition priority_as_str (p : IssuePriority) : string :=
  match p with
  | PrCritical => "critical"
  | PrHigh => "high"
  | PrMedium => "medium"
  | PrLow => "low"
  end.

Definition priority_from_db_str (s : string) : option IssuePriority :=
  if String.eqb s "critical" then Some PrCritical
  else if String.eqb s "high" then Some PrHigh
  else if String.eqb s "medium" then Some PrMedium
  else if String.eqb s "low" then Some PrLow
  else None.

Definition status_as_str (s : IssueStatus) : string :=
  match s with
  | Open => "open"
  | InProgress => "in_progress"
  | Resolved => "resolved"
  | Closed => "closed"
  end.

Definition status_from_db_str (s : string) : option IssueStatus :=
  if String.eqb s "open" then Some Open
  else if String.eqb s "in_progress" then Some InProgress
  else if String.eqb s "resolved" then Some Resolved
  else if String.eqb s "closed" then Some Closed
  else None.

Definition resolution_as_str (r : IssueResolution) : string :=
  match r with
  | RsResolved => "resolved"
  | RsWontFix => "wontfix"
  | RsDuplicate => "duplicate"
  end.

Definition resolution_from_db_str (s : string) : option IssueResolution :=
  if String.eqb s "resolved" then Some RsResolved
  else if String.eqb s "wontfix" then Some RsWontFix
  else if String.eqb s "duplicate" then Some RsDuplicate
  else None.

(** [details] is the text of its JSON value. *)
Record AgentSource : Type := mkAgentSource { source_type : string; details : string }.

Record Issue : Type := mkIssue {
  i_id : Uuid;
  i_title : string;
  i_description : string;
  i_status : IssueStatus;
  i_priority : IssuePriority;
  i_labels : list string;
  i_creator : string;
  i_resolution : option string;
  i_agent_source : option AgentSource;
  i_acceptance_criteria : list string;
  i_created_at : DateTime;
  i_updated_at : DateTime
}.

Record IssueFilter : Type := mkFilter {
  f_status : option (list IssueStatus);
  f_priority : option IssuePriority;
  f_label : option string;
  f_creator : option string;
  f_blocked_by : option Uuid
}.

Inductive IssueError : Type :=
  | Sqlite
  | NotFound (id : Uuid)
  | InvalidTransition (from to : string)
  | RateLimitExceeded (agent_id : string) (count max : Z).

Record IssueComment : Type := mkComment {
  c_id : Uuid;
  c_issue_id : Uuid;
  c_author : string;
  c_body : option string;
  c_author_type : string;
  c_author_id : option string;
  c_created_at : DateTime;
  c_parent_id : option Uuid;
  c_edited_at : option DateTime;
  c_deleted_at : option DateTime
}.

(** ** The tables *)

(** A row of [issues], column by column. *)
Record IssueRow : Type := mkRow {
  ir_id : string;
  ir_title : string;
  ir_description : string;
  ir_status : string;
  ir_priority : string;
  ir_labels : string;
  ir_creator : string;
  ir_resolution : option string;
  ir_agent_source : option string;
  ir_acceptance_criteria : string;
  ir_created_at : DateTime;
  ir_updated_at : DateTime
}.

Record IssueStore : Type := mkStore {
  issues : list IssueRow;
  issue_workspace_links : list (string * string * DateTime);
  agent_rate_limits : gmap (string * Z) Z;
  issue_dependencies : list (string * string);
  issue_comments : list IssueComment
}.

Definition empty_store : IssueStore := mkStore [] [] ∅ [] [].

(** The store with the log that the caller passes, and the streams that instants
    and identifiers are drawn from. *)
Record Tracker : Type := mkTracker {
  tk_store : IssueStore;
  tk_log : EventLog;
  tk_draws : nat;
  tk_ticks : nat
}.

Definition set_issues (rows : list IssueRow) (s : IssueStore) : IssueStore :=
  mkStore rows (issue_workspace_links s) (agent_rate_limits s) (issue_dependencies s)
    (issue_comments s).
Definition set_links (x : list (string * string * DateTime)) (s : IssueStore) : IssueStore :=
  mkStore (issues s) x (agent_rate_limits s) (issue_dependencies s) (issue_comments s).
Definition set_rate_limits (x : gmap (string * Z) Z) (s : IssueStore) : IssueStore :=
  mkStore (issues s) (issue_workspace_links s) x (issue_dependencies s) (issue_comments s).
Definition set_dependencies (x : list (string * string)) (s : IssueStore) : IssueStore :=
  mkStore (issues s) (issue_workspace_links s) (agent_rate_limits s) x (issue_comments s).
Definition set_comments (x : list IssueComment) (s : IssueStore) : IssueStore :=
  mkStore (issues s) (issue_workspace_links s) (agent_rate_limits s) (issue_dependencies s) x.

Definition on_store (f : IssueStore -> IssueStore) (k : Tracker) : Tracker :=
  mkTracker (f (tk_store k)) (tk_log k) (tk_draws k) (tk_ticks k).

(** [UPDATE issues SET .. WHERE id = ?] *)
Definition update_row (id : string) (f : IssueRow -> IssueRow) (s : IssueStore) : IssueStore :=
  set_issues (update_by ir_id id f (issues s)) s.

Definition find_row (id : string) (s : IssueStore) : option IssueRow :=
  find_by ir_id id (issues s).

Abbreviation T := (M Tracker IssueError).

Definition stop_words : list string :=
  ["a"; "an"; "and"; "are"; "as"; "at"; "be"; "but"; "by"; "for"; "from";
   "has"; "have"; "in"; "is"; "it"; "its"; "of"; "on"; "or"; "that"; "the";
   "this"; "to"; "was"; "will"; "with"]%string.

Section tokens.
Context {unicode : Unicode}.

Definition tokenize_title (title : string) : gset string :=
  list_to_set (filter (fun w => w ∉ stop_words)
    (to_lowercase <$> filter (fun w => w <> EmptyString)
      (split_chars (fun c => negb (is_alphanumeric c)) title))).

(** The quotient of the two numbers. The code compares their [f64] quotient with
    [0.5], which is the comparison of the rationals for sets of fewer than 2^53
    elements. *)
Definition jaccard_similarity (a b : gset string) : nat * nat :=
  if decide (a = ∅ /\ b = ∅) then (1, 1)
  else if decide (size (a ∪ b) = 0) then (0, 1)
  else (size (a ∩ b), size (a ∪ b)).

Definition at_least_half (q : nat * nat) : bool := q.2 <=? 2 * q.1.

Definition similar (query : gset string) (title : string) : bool :=
  at_least_half (jaccard_similarity query (tokenize_title title)).

(** The free function that the server handlers call. *)
Definition find_similar_open_issue (l : list Issue) (title : string) : option Uuid :=
  let query_tokens := tokenize_title title in
  if decide (query_tokens = ∅) then None
  else i_id <$> head (filter (fun i =>
         (i_status i = Open \/ i_status i = InProgress) /\ similar query_tokens (i_title i) = true) l).
End tokens.

(** ** Labels *)

Definition row_labels (r : IssueRow) : list string :=
  if String.eqb (ir_labels r) "" then [] else split_on "," (ir_labels r).

Definition label_matches (label labels : string) : bool :=
  let like p := sql_like (bytes_of p) (bytes_of labels) in
  String.eqb labels label || like (label +:+ ",%") || like ("%," +:+ label) ||
  like ("%," +:+ label +:+ ",%").

(** Labels joined by commas, as bytes. *)
Fixpoint bjoin (ls : list bytes) : bytes :=
  match ls with
  | [] => []
  | [x] => x
  | x :: ls' => x ++ ","%char :: bjoin ls'
  end.

Lemma bjoin_cons x ls : ls <> [] -> bjoin (x :: ls) = x ++ ","%char :: bjoin ls.
Proof. by destruct ls. Qed.

Lemma bytes_of_app s t : bytes_of (s +:+ t) = bytes_of s ++ bytes_of t.
Proof. induction s as [|a s IH]; [done|]. rewrite string_app_cons. simpl. by f_equal. Qed.

Lemma bytes_of_join ls : bytes_of (join "," ls) = bjoin (bytes_of <$> ls).
Proof.
  induction ls as [|x [|y ls] IH]; [done..|].
  change (join "," (x :: y :: ls)) with (x +:+ "," +:+ join "," (y :: ls)).
  by rewrite !bytes_of_app, IH.
Qed.

Definition comma_free (b : bytes) : Prop := ","%char ∉ b.

Lemma bjoin_comma_free ls : ls <> [] -> comma_free (bjoin ls) -> ls = [bjoin ls].
Proof.
  destruct ls as [|x [|y ls]]; [done..|]. unfold comma_free. rewrite bjoin_cons by done. set_solver.
Qed.

(** Cutting joined labels at a comma cuts the list. *)
Lemma bjoin_cut ls s t :
  Forall comma_free ls -> bjoin ls = s ++ ","%char :: t ->
  exists l1 l2, ls = l1 ++ l2 /\ l1 <> [] /\ l2 <> [] /\ s = bjoin l1 /\ t = bjoin l2.
Proof.
  revert s. induction ls as [|x ls IH]; intros s HF Hs; [by destruct s|].
  apply Forall_cons in HF as [Hx HF]. destruct (decide (ls = [])) as [->|Hne].
  { simpl in Hs. subst x. unfold comma_free in Hx. set_solver. }
  rewrite bjoin_cons in Hs by done. apply app_eq_app in Hs as (u & [[-> Hu]|[-> Hu]]).
  - destruct u as [|a u]; [|injection Hu as <- _; unfold comma_free in Hx; set_solver].
    injection Hu as ->. exists [s], ls. rewrite app_nil_r. by split_and!.
  - destruct u as [|a u].
    + injection Hu as <-. exists [x], ls. rewrite app_nil_r. by split_and!.
    + injection Hu as <- Hu. destruct (IH u HF Hu) as (l1 & l2 & -> & H1 & H2 & -> & ->).
      exists (x :: l1), l2. by rewrite bjoin_cons by done.
Qed.

Lemma bjoin_app l1 l2 : l1 <> [] -> l2 <> [] -> bjoin (l1 ++ l2) = bjoin l1 ++ ","%char :: bjoin l2.
Proof.
  intros H1 H2. induction l1 as [|x l1 IH]; [done|]. destruct (decide (l1 = [])) as [->|Hne].
  - simpl. by destruct l2.
  - rewrite <-app_comm_cons, (bjoin_cons x (l1 ++ l2)) by (by destruct l1). rewrite (bjoin_cons x l1), IH by done.
    by rewrite <-app_assoc.
Qed.

(** Texts that differ at most in the case of ASCII letters. *)
Definition same_letters (p s : bytes) : Prop := lower_ascii <$> s = lower_ascii <$> p.

(** A pattern character that stands for itself. *)
Definition literal (b : bytes) : Prop :=
  Forall (fun c => c <> "%"%char /\ c <> "_"%char) b.

Lemma sql_like_literal p q s :
  literal p -> sql_like (p ++ q) s = true <->
  exists s1 s2, s = s1 ++ s2 /\ same_letters p s1 /\ sql_like q s2 = true.
Proof.
  revert s. induction p as [|c p IH]; intros s Hp.
  - simpl. split; [by exists [], s|]. by intros (s1 & s2 & -> & ->%fmap_nil_inv & ?).
  - apply Forall_cons in Hp as [[H1 H2] Hp]. simpl.
    destruct (Ascii.eqb_spec c "%"); [done|]. destruct (Ascii.eqb_spec c "_"); [done|].
    destruct s as [|a s].
    + split; [done|]. intros (s1 & s2 & Hs & Hc & _). by destruct s1.
    + rewrite andb_true_iff, Ascii.eqb_eq, IH by done. split.
      * intros (Ha & s1 & s2 & -> & Hc & Hq). exists (a :: s1), s2. split_and!; [done| |done].
        unfold same_letters in *. by rewrite !fmap_cons, Ha, Hc.
      * intros ([|b s1] & s2 & Hs & Hc & Hq); [done|]. injection Hs as -> ->. injection Hc as Ha Hc.
        split; [done|]. by exists s1, s2.
Qed.

Lemma sql_like_any q s :
  sql_like ("%"%char :: q) s = true <-> exists s1 s2, s = s1 ++ s2 /\ sql_like q s2 = true.
Proof.
  simpl. induction s as [|a s IH].
  - rewrite orb_false_r. split; [by exists [], []|].
    intros (s1 & s2 & Hs & Hq). symmetry in Hs. by apply app_nil in Hs as [-> ->].
  - rewrite orb_true_iff, IH. split.
    + intros [Hq|(s1 & s2 & -> & Hq)]; [by exists [], (a :: s)|by exists (a :: s1), s2].
    + intros ([|b s1] & s2 & Hs & Hq); [left; by rewrite Hs|].
      injection Hs as -> ->. right. by exists s1, s2.
Qed.

Lemma sql_like_all s : sql_like ["%"%char] s = true.
Proof. apply sql_like_any. exists s, []. by rewrite app_nil_r. Qed.

Lemma same_letters_comma_free p s : same_letters p s -> comma_free p -> comma_free s.
Proof.
  unfold same_letters, comma_free. intros Hs Hp Hin. apply Hp.
  assert (lower_ascii "," ∈ lower_ascii <$> p) as (a & Ha & Hina)%list_elem_of_fmap.
  { rewrite <-Hs. by apply list_elem_of_fmap_2. }
  assert (a = ","%char) as ->; [|done].
  destruct a as [[] [] [] [] [] [] [] []]; by vm_compute in Ha.
Qed.

(** The three patterns: a first, a last and an inner label. *)
Lemma like_first p s :
  literal p -> sql_like (p ++ [","; "%"]%char) s = true <->
  exists s1 s2, s = s1 ++ ","%char :: s2 /\ same_letters p s1.
Proof.
  intros Hp. rewrite sql_like_literal by done. split.
  - intros (s1 & s2 & -> & Hs & Hq).
    change [","; "%"]%char with ([","%char] ++ ["%"%char]) in Hq.
    apply sql_like_literal in Hq as (s3 & s4 & -> & Hc & _); [|by repeat constructor].
    destruct s3 as [|a [|b s3]]; [done| |done]. injection Hc as Hc.
    assert (a = ","%char) as ->; [|by exists s1, s4].
    destruct a as [[] [] [] [] [] [] [] []]; by vm_compute in Hc.
  - intros (s1 & s2 & -> & Hs). exists s1, (","%char :: s2). split_and!; [done..|].
    change [","; "%"]%char with ([","%char] ++ ["%"%char]).
    apply sql_like_literal; [by repeat constructor|]. exists [","%char], s2.
    split_and!; [done..|apply sql_like_all].
Qed.

Lemma like_comma q s :
  sql_like (["%"; ","]%char ++ q) s = true <->
  exists s1 s2, s = s1 ++ ","%char :: s2 /\ sql_like q s2 = true.
Proof.
  change (["%"; ","]%char ++ q) with ("%"%char :: [","%char] ++ q). rewrite sql_like_any. split.
  - intros (s1 & s2 & -> & Hq).
    apply sql_like_literal in Hq as (s3 & s4 & -> & Hc & Hq); [|by repeat constructor].
    destruct s3 as [|a [|b s3]]; [done| |done]. injection Hc as Hc.
    assert (a = ","%char) as ->; [|by exists s1, s4].
    destruct a as [[] [] [] [] [] [] [] []]; by vm_compute in Hc.
  - intros (s1 & s2 & -> & Hq). exists s1, (","%char :: s2). split; [done|].
    apply sql_like_literal; [by repeat constructor|]. by exists [","%char], s2.
Qed.

Lemma like_exact p s : literal p -> sql_like p s = true <-> same_letters p s.
Proof.
  intros Hp. rewrite <-(app_nil_r p) at 1. rewrite sql_like_literal by done. split.
  - intros (s1 & s2 & -> & Hs & Hq). destruct s2; [by rewrite app_nil_r|done].
  - intros Hs. exists s, []. by rewrite app_nil_r.
Qed.

Lemma bjoin_matches p ls :
  literal p -> comma_free p -> Forall comma_free ls ->
  (sql_like (p ++ [","; "%"]%char) (bjoin ls) = true \/
   sql_like (["%"; ","]%char ++ p) (bjoin ls) = true \/
   sql_like (["%"; ","]%char ++ p ++ [","; "%"]%char) (bjoin ls) = true) <->
  2 <= length ls /\ exists x, x ∈ ls /\ same_letters p x.
Proof.
  intros Hp Hc HF. rewrite like_first, !like_comma by done. split.
  - intros [(s1 & s2 & Hs & He)|[(s1 & s2 & Hs & He)|(s1 & s2 & Hs & He)]];
      apply bjoin_cut in Hs as (l1 & l2 & -> & H1 & H2 & -> & ->); [|done| |done| |done];
      rewrite length_app; (split; [destruct l1, l2; simpl; done || lia|]).
    + exists (bjoin l1). split; [|done]. rewrite (bjoin_comma_free l1), elem_of_app; [|done|];
        [left; simpl; by apply list_elem_of_singleton|by eapply same_letters_comma_free].
    + apply like_exact in He; [|done]. exists (bjoin l2). split; [|done].
      rewrite (bjoin_comma_free l2), elem_of_app; [|done|];
        [right; simpl; by apply list_elem_of_singleton|by eapply same_letters_comma_free].
    + apply like_first in He as (s3 & s4 & Hs & He); [|done]. apply Forall_app in HF as [_ HF].
      apply bjoin_cut in Hs as (l3 & l4 & -> & H3 & H4 & -> & ->); [|done].
      exists (bjoin l3). split; [|done]. rewrite !elem_of_app. right. left.
      rewrite (bjoin_comma_free l3); [|done|by eapply same_letters_comma_free].
      simpl. by apply list_elem_of_singleton.
  - intros (Hl & x & (l1 & l2 & ->)%list_elem_of_split & He).
    destruct (decide (l1 = [])) as [->|H1]; [|destruct (decide (l2 = [])) as [->|H2]].
    + left. exists x, (bjoin l2). simpl app. rewrite bjoin_cons; [done|]. intros ->. simpl in Hl. lia.
    + right. left. exists (bjoin l1), x. rewrite bjoin_app by done. split; [done|]. by apply like_exact.
    + right. right. exists (bjoin l1), (bjoin (x :: l2)). rewrite bjoin_app by done.
      split; [done|]. apply like_first; [done|]. exists x, (bjoin l2). by rewrite bjoin_cons.
Qed.

Definition plain_label (l : string) : Prop :=
  l <> EmptyString /\ literal (bytes_of l) /\ comma_free (bytes_of l).

(** The filter by label, on a row whose labels hold no comma: it finds the issue
    whose only label is the text itself, and the issues of two labels or more one
    of which is the text in any case of its letters. *)
Lemma label_matches_spec l ls :
  plain_label l -> Forall (fun x => comma_free (bytes_of x)) ls ->
  label_matches l (join "," ls) = true <->
  ls = [l] \/ 2 <= length ls /\ exists x, x ∈ ls /\ same_letters (bytes_of l) (bytes_of x).
Proof.
  intros (Hne & Hl & Hc) HF. unfold label_matches. rewrite !bytes_of_app, bytes_of_join.
  change (bytes_of ",%") with [","; "%"]%char. change (bytes_of "%,") with ["%"; ","]%char.
  rewrite !orb_true_iff, String.eqb_eq.
  pose proof (bjoin_matches (bytes_of l) (bytes_of <$> ls) Hl Hc ltac:(by apply Forall_fmap)) as Hm.
  rewrite length_fmap in Hm.
  assert (join "," ls = l <-> ls = [l]) as He.
  { split; [|by intros ->]. intros Hj. assert (bjoin (bytes_of <$> ls) = bytes_of l) as Hb
      by by rewrite <-bytes_of_join, Hj.
    assert (bytes_of <$> ls = [bytes_of l]) as Hbs.
    { rewrite <-Hb. apply bjoin_comma_free; [|by rewrite Hb]. intros Hn.
      rewrite Hn in Hb. destruct l; [done|discriminate]. }
    destruct ls as [|x [|y ls]]; [done| |discriminate]. simpl in Hj. by rewrite Hj. }
  rewrite He. transitivity (ls = [l] \/ 2 <= length ls /\ exists x, x ∈ bytes_of <$> ls /\ same_letters (bytes_of l) x).
  { rewrite <-Hm. tauto. }
  apply or_iff_compat_l, and_iff_compat_l. split.
  - intros (b & (x & -> & Hx)%list_elem_of_fmap & Hs). by exists x.
  - intros (x & Hx & Hs). exists (bytes_of x). split; [by apply list_elem_of_fmap_2|done].
Qed.

(** Labels that survive storage: none holds a comma, and they are not the list of
    one empty label. *)
Definition clean_labels (ls : list string) : Prop :=
  Forall (fun x => comma_free (bytes_of x)) ls /\ ls <> [EmptyString].

Lemma split_on_comma_free c x : c ∉ bytes_of x -> split_on c x = [x].
Proof.
  unfold split_on. induction x as [|a x IH]; intros Hx; [done|]. simpl in *.
  destruct (Ascii.eqb_spec a c) as [->|]; [set_solver|]. rewrite IH by set_solver. done.
Qed.

Lemma split_on_joined c x y :
  c ∉ bytes_of x -> split_on c (x +:+ String c y) = x :: split_on c y.
Proof.
  unfold split_on. induction x as [|a x IH]; intros Hx.
  - rewrite string_app_nil. simpl. by rewrite Ascii.eqb_refl.
  - rewrite string_app_cons. simpl in *. destruct (Ascii.eqb_spec a c) as [->|]; [set_solver|].
    rewrite IH by set_solver. done.
Qed.

Lemma split_join ls : ls <> [] -> Forall (fun x => comma_free (bytes_of x)) ls -> split_on "," (join "," ls) = ls.
Proof.
  induction ls as [|x [|y ls] IH]; intros Hne HF; [done| |].
  - apply Forall_cons in HF as [Hx _]. by apply split_on_comma_free.
  - apply Forall_cons in HF as [Hx HF].
    change (join "," (x :: y :: ls)) with (x +:+ String "," (join "," (y :: ls))).
    by rewrite split_on_joined, IH by done.
Qed.

Lemma join_empty ls : join "," ls = EmptyString -> ls = [] \/ ls = [EmptyString].
Proof.
  destruct ls as [|x [|y ls]]; [by left|by right; f_equal|].
  change (join "," (x :: y :: ls)) with (x +:+ String "," (join "," (y :: ls))).
  destruct x; [by rewrite string_app_nil|by rewrite string_app_cons].
Qed.

Lemma count_split_on c x : length (split_on c x) = S (length (filter (fun a => a = c) (bytes_of x))).
Proof.
  unfold split_on. induction x as [|a x IH]; [done|]. simpl.
  destruct (Ascii.eqb_spec a c) as [->|Hne].
  - rewrite filter_cons_True by done. simpl. by rewrite IH.
  - rewrite filter_cons_False by done. destruct (split_by _ x); simpl in *; congruence.
Qed.

(** A label with a comma comes back as several. *)
Lemma split_join_clean ls : split_on "," (join "," ls) = ls -> Forall (fun x => comma_free (bytes_of x)) ls.
Proof.
  intros Hs. assert (H : length (split_on "," (join "," ls)) = length ls) by by rewrite Hs.
  rewrite count_split_on, bytes_of_join in H.
  assert (Hc : forall l : list bytes, l <> [] ->
    S (length (filter (fun a => a = ","%char) (bjoin l))) =
    length l + length (filter (fun a => a = ","%char) (concat l))).
  { induction l as [|x l IH]; intros Hne; [done|]. destruct (decide (l = [])) as [->|Hl].
    { simpl. by rewrite app_nil_r. }
    rewrite bjoin_cons by done. simpl concat. rewrite !filter_app, filter_cons_True by done.
    rewrite !length_app. simpl. specialize (IH Hl). simpl in IH. lia. }
  destruct (decide (ls = [])) as [->|Hne]; [done|].
  rewrite Hc, length_fmap in H by (by destruct ls).
  assert (Hn : filter (fun a => a = ","%char) (concat (bytes_of <$> ls)) = []) by (apply length_zero_iff_nil; lia).
  rewrite Forall_forall. intros x Hx Hin.
  assert (","%char ∈ filter (fun a => a = ","%char) (concat (bytes_of <$> ls))) as Hf.
  { apply list_elem_of_filter. split; [done|]. rewrite list_elem_of_In, in_concat.
    exists (bytes_of x). rewrite <-!list_elem_of_In. split; [by apply list_elem_of_fmap_2|done]. }
  rewrite Hn in Hf. by apply not_elem_of_nil in Hf.
Qed.

Lemma row_labels_join r ls : ir_labels r = join "," ls -> row_labels r = ls <-> clean_labels ls.
Proof.
  intros Hr. unfold row_labels, clean_labels. rewrite Hr. destruct (String.eqb_spec (join "," ls) "") as [He|Hne].
  - destruct (join_empty ls He) as [-> | ->]; [|naive_solver]. split; [|done]. by split.
  - split.
    + intros Hs. split; [by apply split_join_clean|]. by intros ->.
    + intros [HF _]. apply split_join; [|done]. by intros ->.
Qed.

(** ** Rows and issues *)

Section store.
Context {unicode : Unicode}.
(** [serde_json] on agent metadata and on lists of criteria. *)
Variable source_to_json : AgentSource -> string.
Variable source_from_json : string -> option AgentSource.
Variable criteria_to_json : list string -> string.
Variable criteria_from_json : string -> option (list string).
(** The streams of [Utc::now()] and [Uuid::new_v4()]. *)
Variable clock : nat -> DateTime.
Variable uuid : nat -> Uuid.
(** The order in which a query visits the rows. *)
Variable scan : forall A, list A -> list A.

Definition row_to_issue (r : IssueRow) : Issue :=
  mkIssue (ir_id r) (ir_title r) (ir_description r)
    (default Open (status_from_db_str (ir_status r)))
    (default PrMedium (priority_from_db_str (ir_priority r)))
    (row_labels r) (ir_creator r) (ir_resolution r)
    (text ← ir_agent_source r; source_from_json text)
    (default [] (criteria_from_json (ir_acceptance_criteria r)))
    (ir_created_at r) (ir_updated_at r).

(** ** Reading *)

Definition tick : T DateTime := fun k =>
  (Ok (clock (tk_ticks k)), mkTracker (tk_store k) (tk_log k) (tk_draws k) (S (tk_ticks k))).

Definition new_uuid : T Uuid := fun k =>
  (Ok (uuid (tk_draws k)), mkTracker (tk_store k) (tk_log k) (S (tk_draws k)) (tk_ticks k)).

(** [event_log.append(kind)] *)
Definition record (kind : EventKind) : T unit :=
  t ← tick;
  modify_st (fun k => mkTracker (tk_store k) (append t kind (tk_log k)).2 (tk_draws k) (tk_ticks k)).

Definition get (id : Uuid) : T Issue := fun k =>
  (match find_row id (tk_store k) with
   | Some r => Ok (row_to_issue r)
   | None => Err (NotFound id)
   end, k).

Definition status_matches (f : option (list IssueStatus)) (r : IssueRow) : bool :=
  match f with
  | None | Some [] => true
  | Some ss => existsb (fun s => String.eqb (ir_status r) (status_as_str s)) ss
  end.

Definition row_matches (f : IssueFilter) (s : IssueStore) (r : IssueRow) : bool :=
  status_matches (f_status f) r &&
  match f_priority f with Some p => String.eqb (ir_priority r) (priority_as_str p) | None => true end &&
  match f_label f with Some l => label_matches l (ir_labels r) | None => true end &&
  match f_creator f with Some c => String.eqb (ir_creator r) c | None => true end &&
  match f_blocked_by f with
  | Some b => existsb (fun d => String.eqb d.1 (ir_id r) && String.eqb d.2 b) (issue_dependencies s)
  | None => true
  end.

(** [ORDER BY created_at DESC] *)
Definition list_issues (f : IssueFilter) (s : IssueStore) : list Issue :=
  row_to_issue <$> sort_by (fun a b => (ir_created_at b <=? ir_created_at a)%Z)
    (filter (fun r => row_matches f s r = true) (scan _ (issues s))).

Definition count_open (s : IssueStore) : nat :=
  length (filter (fun r => ir_status r = "open"%string) (issues s)).

(** ** Creation *)

(** [INSERT INTO issues]; a second row of the same id is refused. *)
Definition insert_issue (row : IssueRow) : T unit := fun k =>
  match find_row (ir_id row) (tk_store k) with
  | Some _ => (Err Sqlite, k)
  | None => (Ok tt, on_store (fun s => set_issues (issues s ++ [row]) s) k)
  end.

Definition create (title description : string) (priority : IssuePriority) (labels : list string)
    (creator : string) : T Issue :=
  id ← new_uuid;
  now ← tick;
  _ ← insert_issue (mkRow id title description "open" (priority_as_str priority) (join "," labels)
        creator None None "[]" now now);
  _ ← record (IssueCreated id title creator (priority_as_str priority));
  mret (mkIssue id title description Open priority labels creator None None [] now now).

(** ** Creation by agents *)

(** The clock hour of an instant. *)
Definition hour_bucket (t : DateTime) : Z := (t / 3600000000000)%Z.

Definition current_hour_bucket : T Z := t ← tick; mret (hour_bucket t).

Definition u32_bound : Z := (2 ^ 32)%Z.

Definition set_count (b : string * Z) (f : Z -> Z) (s : IssueStore) : IssueStore :=
  set_rate_limits (alter f b (agent_rate_limits s)) s.

Definition bump_count (b : string * Z) (s : IssueStore) : IssueStore :=
  match agent_rate_limits s !! b with
  | Some _ => set_count b (fun c => c + 1)%Z s
  | None => set_rate_limits (<[b := 1%Z]> (agent_rate_limits s)) s
  end.

(** A count that is no [u32] is an error of the row conversion. *)
Definition read_count (b : string * Z) (s : IssueStore) : option Z :=
  c ← agent_rate_limits s !! b;
  if (0 <=? c)%Z && (c <? u32_bound)%Z then Some c else None.

Definition increment_agent_rate_limit (agent_id : string) : T Z :=
  bucket ← current_hour_bucket;
  _ ← modify_st (on_store (bump_count (agent_id, bucket)));
  k ← get_st;
  match read_count (agent_id, bucket) (tk_store k) with
  | Some c => mret c
  | None => fail Sqlite
  end.

Definition agent_issue_count_this_hour (agent_id : string) : T Z :=
  bucket ← current_hour_bucket;
  k ← get_st;
  mret (default 0%Z (read_count (agent_id, bucket) (tk_store k))).

(** The method, on the open and in-progress rows. *)
Definition find_similar_open_row (title : string) (s : IssueStore) : option Uuid :=
  let query_tokens := tokenize_title title in
  if decide (query_tokens = ∅) then None
  else ir_id <$> head (filter (fun r => similar query_tokens (ir_title r) = true)
         (filter (fun r => ir_status r = "open"%string \/ ir_status r = "in_progress"%string)
            (scan _ (issues s)))).

Definition create_by_agent (title description : string) (priority : IssuePriority)
    (labels : list string) (agent_id : string) (source : AgentSource) (max_per_hour : Z) :
    T (Issue * option Uuid) :=
  count ← increment_agent_rate_limit agent_id;
  if (max_per_hour <? count)%Z then
    bucket ← current_hour_bucket;
    _ ← modify_st (on_store (set_count (agent_id, bucket) (fun c => c - 1)%Z));
    fail (RateLimitExceeded agent_id count max_per_hour)
  else
    k ← get_st;
    let possible_duplicate := find_similar_open_row title (tk_store k) in
    id ← new_uuid;
    now ← tick;
    _ ← insert_issue (mkRow id title description "open" (priority_as_str priority)
          (join "," labels) agent_id None (Some (source_to_json source)) "[]" now now);
    _ ← record (IssueCreated id title agent_id (priority_as_str priority));
    mret (mkIssue id title description Open priority labels agent_id None (Some source) [] now now,
          possible_duplicate).

(** ** Updates *)

Definition set_agent_source (id : Uuid) (source_json : string) : T unit :=
  modify_st (on_store (update_row id (fun r =>
    mkRow (ir_id r) (ir_title r) (ir_description r) (ir_status r) (ir_priority r) (ir_labels r)
      (ir_creator r) (ir_resolution r) (Some source_json) (ir_acceptance_criteria r)
      (ir_created_at r) (ir_updated_at r)))).

Definition set_acceptance_criteria (id : Uuid) (criteria : list string) : T unit :=
  modify_st (on_store (update_row id (fun r =>
    mkRow (ir_id r) (ir_title r) (ir_description r) (ir_status r) (ir_priority r) (ir_labels r)
      (ir_creator r) (ir_resolution r) (ir_agent_source r) (criteria_to_json criteria)
      (ir_created_at r) (ir_updated_at r)))).

Definition changed_fields (i : Issue) (title description : string) (priority : IssuePriority)
    (labels : list string) : list string :=
  (if decide (title = i_title i) then [] else ["title"%string]) ++
  (if decide (description = i_description i) then [] else ["description"%string]) ++
  (if decide (priority = i_priority i) then [] else ["priority"%string]) ++
  (if decide (labels = i_labels i) then [] else ["labels"%string]).

Definition update (id : Uuid) (title description : option string)
    (priority : option IssuePriority) (labels : option (list string)) : T Issue :=
  existing ← get id;
  now ← tick;
  let new_title := default (i_title existing) title in
  let new_description := default (i_description existing) description in
  let new_priority := default (i_priority existing) priority in
  let new_labels := default (i_labels existing) labels in
  let changed := changed_fields existing new_title new_description new_priority new_labels in
  _ ← modify_st (on_store (update_row id (fun r =>
        mkRow (ir_id r) new_title new_description (ir_status r) (priority_as_str new_priority)
          (join "," new_labels) (ir_creator r) (ir_resolution r) (ir_agent_source r)
          (ir_acceptance_criteria r) (ir_created_at r) now)));
  _ ← (match changed with [] => mret tt | _ => record (IssueUpdated id changed) end);
  get id.

(** ** Transitions *)

(** [UPDATE issues SET status, updated_at] and, when given, [resolution]. *)
Definition with_status (s : IssueStatus) (resolution : option string) (now : DateTime)
    (r : IssueRow) : IssueRow :=
  mkRow (ir_id r) (ir_title r) (ir_description r) (status_as_str s) (ir_priority r) (ir_labels r)
    (ir_creator r) (match resolution with Some x => Some x | None => ir_resolution r end)
    (ir_agent_source r) (ir_acceptance_criteria r) (ir_created_at r) now.

Definition set_row_status (id : Uuid) (s : IssueStatus) (resolution : option string)
    (now : DateTime) : T unit :=
  modify_st (on_store (update_row id (with_status s resolution now))).

Definition link_workspace (id workspace_id : Uuid) (now : DateTime) (s : IssueStore) : IssueStore :=
  if existsb (fun l => String.eqb l.1.1 id && String.eqb l.1.2 workspace_id) (issue_workspace_links s)
  then s
  else set_links (issue_workspace_links s ++ [(id, workspace_id, now)]) s.

Definition set_in_progress (id workspace_id : Uuid) : T Issue :=
  existing ← get id;
  if bool_decide (i_status existing <> Open /\ i_status existing <> InProgress) then
    fail (InvalidTransition (status_as_str (i_status existing)) "in_progress")
  else
    now ← tick;
    _ ← set_row_status id InProgress None now;
    _ ← modify_st (on_store (link_workspace id workspace_id now));
    _ ← record (IssueLinkedToWorkspace id workspace_id);
    get id.

Definition reopen (id : Uuid) : T Issue :=
  existing ← get id;
  if bool_decide (i_status existing <> InProgress) then
    fail (InvalidTransition (status_as_str (i_status existing)) "open")
  else
    now ← tick;
    _ ← set_row_status id Open None now;
    _ ← record (IssueUpdated id ["status"%string]);
    get id.

Definition resolve (id : Uuid) (version_id : option string) : T Issue :=
  existing ← get id;
  if bool_decide (i_status existing <> InProgress /\ i_status existing <> Open) then
    fail (InvalidTransition (status_as_str (i_status existing)) "resolved")
  else
    now ← tick;
    _ ← set_row_status id Resolved (Some "resolved"%string) now;
    _ ← record (IssueResolved id "resolved" version_id);
    get id.

Definition close (id : Uuid) (resolution : string) : T Issue :=
  _ ← get id;
  now ← tick;
  _ ← set_row_status id Closed (Some resolution) now;
  _ ← record (IssueClosed id resolution);
  get id.

(** ** Comments, dependencies and links *)

Definition insert_comment (c : IssueComment) : T unit := fun k =>
  if existsb (fun x => String.eqb (c_id x) (c_id c)) (issue_comments (tk_store k)) then (Err Sqlite, k)
  else (Ok tt, on_store (fun s => set_comments (issue_comments s ++ [c]) s) k).

Definition create_comment (issue_id : Uuid) (author body author_type : string)
    (author_id : option string) (parent_id : option Uuid) : T IssueComment :=
  id ← new_uuid;
  now ← tick;
  let c := mkComment id issue_id author (Some body) author_type author_id now parent_id None None in
  _ ← insert_comment c;
  mret c.

Definition list_comments (issue_id : Uuid) (s : IssueStore) : list IssueComment :=
  sort_by (fun a b => (c_created_at a <=? c_created_at b)%Z)
    (filter (fun c => c_issue_id c = issue_id) (scan _ (issue_comments s))).

(** [UPDATE issue_comments .. WHERE id = ?], an error when no row has the id, and
    the row read back. *)
Definition change_comment (comment_id : Uuid) (f : IssueComment -> IssueComment) : T IssueComment :=
  k ← get_st;
  if existsb (fun c => String.eqb (c_id c) comment_id) (issue_comments (tk_store k)) then
    _ ← modify_st (on_store (fun s => set_comments
          ((fun c => if decide (c_id c = comment_id) then f c else c) <$> issue_comments s) s));
    k' ← get_st;
    match head (filter (fun c => c_id c = comment_id) (issue_comments (tk_store k'))) with
    | Some c => mret c
    | None => fail Sqlite
    end
  else fail (NotFound comment_id).

Definition update_comment (comment_id : Uuid) (new_body : string) : T IssueComment :=
  now ← tick;
  change_comment comment_id (fun c =>
    mkComment (c_id c) (c_issue_id c) (c_author c) (Some new_body) (c_author_type c) (c_author_id c)
      (c_created_at c) (c_parent_id c) (Some now) (c_deleted_at c)).

Definition soft_delete_comment (comment_id : Uuid) : T IssueComment :=
  now ← tick;
  change_comment comment_id (fun c =>
    mkComment (c_id c) (c_issue_id c) (c_author c) (c_body c) (c_author_type c) (c_author_id c)
      (c_created_at c) (c_parent_id c) (c_edited_at c) (Some now)).

Definition add_dependency (issue_id blocker_id : Uuid) : T unit :=
  modify_st (on_store (fun s =>
    if bool_decide ((issue_id, blocker_id) ∈ issue_dependencies s) then s
    else set_dependencies (issue_dependencies s ++ [(issue_id, blocker_id)]) s)).

Definition list_blockers (issue_id : Uuid) (s : IssueStore) : list Uuid :=
  snd <$> filter (fun d => d.1 = issue_id) (scan _ (issue_dependencies s)).

Definition linked_workspaces (id : Uuid) (s : IssueStore) : list Uuid :=
  (fun l => l.1.2) <$> sort_by (fun a b => (a.2 <=? b.2)%Z)
    (filter (fun l => l.1.1 = id) (scan _ (issue_workspace_links s))).

(** ** The life cycle and its record in the log *)

Inductive IssueOp : Type :=
  | OpCreate (title description : string) (p : IssuePriority) (labels : list string) (creator : string)
  | OpCreateByAgent (title description : string) (p : IssuePriority) (labels : list string)
      (agent : string) (source : AgentSource) (max_per_hour : Z)
  | OpSetSource (id : Uuid) (json : string)
  | OpSetCriteria (id : Uuid) (criteria : list string)
  | OpUpdate (id : Uuid) (title description : option string) (p : option IssuePriority)
      (labels : option (list string))
  | OpStart (id workspace_id : Uuid)
  | OpReopen (id : Uuid)
  | OpResolve (id : Uuid) (version_id : option string)
  | OpClose (id : Uuid) (resolution : string)
  | OpComment (id : Uuid) (author body author_type : string) (author_id : option string)
      (parent : option Uuid)
  | OpEditComment (id : Uuid) (body : string)
  | OpDeleteComment (id : Uuid)
  | OpDependency (id blocker : Uuid).

(** The state that an operation leaves, whatever it returns. *)
Definition run_issue_op (op : IssueOp) (k : Tracker) : Tracker :=
  match op with
  | OpCreate t d p ls c => (create t d p ls c k).2
  | OpCreateByAgent t d p ls a s m => (create_by_agent t d p ls a s m k).2
  | OpSetSource id j => (set_agent_source id j k).2
  | OpSetCriteria id c => (set_acceptance_criteria id c k).2
  | OpUpdate id t d p ls => (update id t d p ls k).2
  | OpStart id w => (set_in_progress id w k).2
  | OpReopen id => (reopen id k).2
  | OpResolve id v => (resolve id v k).2
  | OpClose id r => (close id r k).2
  | OpComment id a b ty ai p => (create_comment id a b ty ai p k).2
  | OpEditComment id b => (update_comment id b k).2
  | OpDeleteComment id => (soft_delete_comment id k).2
  | OpDependency id b => (add_dependency id b k).2
  end.

Definition about_issue (kind : EventKind) : bool :=
  match kind with
  | IssueCreated _ _ _ _ | IssueUpdated _ _ | IssueLinkedToWorkspace _ _
  | IssueResolved _ _ _ | IssueClosed _ _ => true
  | _ => false
  end.

(** The tracker evolves by its operations, and by the events that other components
    append to the same log. *)
Inductive tracker_step : Tracker -> Tracker -> Prop :=
  | step_op op k : tracker_step k (run_issue_op op k)
  | step_foreign kind k : about_issue kind = false -> tracker_step k (record kind k).2.

(** What an event makes of the status of the issue [id]; [None] is an event that
    the life cycle does not allow in that status. *)
Definition replay_event (id : Uuid) (st : option IssueStatus) (kind : EventKind) :
    option (option IssueStatus) :=
  match kind with
  | IssueCreated i _ _ _ =>
      if decide (i = id) then match st with None => Some (Some Open) | Some _ => None end else Some st
  | IssueUpdated i fields =>
      if decide (i = id) then
        if decide ("status"%string ∈ fields)
        then match st with Some InProgress => Some (Some Open) | _ => None end
        else match st with Some _ => Some st | None => None end
      else Some st
  | IssueLinkedToWorkspace i _ =>
      if decide (i = id)
      then match st with Some Open | Some InProgress => Some (Some InProgress) | _ => None end
      else Some st
  | IssueResolved i _ _ =>
      if decide (i = id)
      then match st with Some Open | Some InProgress => Some (Some Resolved) | _ => None end
      else Some st
  | IssueClosed i _ =>
      if decide (i = id) then match st with Some _ => Some (Some Closed) | None => None end else Some st
  | _ => Some st
  end.

Definition row_status (r : IssueRow) : IssueStatus := default Open (status_from_db_str (ir_status r)).
Definition status_of (s : IssueStore) (id : Uuid) : option IssueStatus := row_status <$> find_row id s.

(** Ids are unique, and a resolution is there exactly for what is resolved or closed. *)
Definition row_ok (r : IssueRow) : Prop :=
  ir_resolution r = None <-> row_status r = Open \/ row_status r = InProgress.
Definition store_ok (s : IssueStore) : Prop := NoDup (ir_id <$> issues s) /\ Forall row_ok (issues s).

(** The status that the log gives to an issue. *)
Definition replay_status (id : Uuid) (kinds : list EventKind) : option (option IssueStatus) :=
  replay replay_event id kinds None.

Abbreviation tracker_evolves := (evolves replay_event (fun k => status_of (tk_store k)) tk_log
  (fun k => store_ok (tk_store k))).

Lemma status_from_as s : status_from_db_str (status_as_str s) = Some s.
Proof. by destruct s. Qed.

Lemma find_row_update x id f s :
  (forall r, ir_id (f r) = ir_id r) ->
  find_row x (update_row id f s) = if decide (x = id) then f <$> find_row x s else find_row x s.
Proof. intros Hf. by apply find_by_update. Qed.

Lemma evolves_same_issues k k' :
  issues (tk_store k') = issues (tk_store k) -> tk_log k' = tk_log k -> tracker_evolves k k'.
Proof.
  intros Hi Hl. unfold evolves, store_ok, status_of, find_row. rewrite Hi, Hl. intros Hok.
  split; [done|]. exists []. by rewrite app_nil_r.
Qed.

Lemma update_row_ok id f s :
  (forall r, ir_id (f r) = ir_id r) ->
  (forall r, r ∈ issues s -> ir_id r = id -> row_ok r -> row_ok (f r)) ->
  store_ok s -> store_ok (update_row id f s).
Proof.
  intros Hid Hok [Hnd Hf]. split; simpl; [by rewrite update_by_keys|by apply update_by_Forall].
Qed.

(** An update of columns other than the status. *)
Lemma evolves_update id f k k' :
  (forall r, ir_id (f r) = ir_id r /\ ir_status (f r) = ir_status r /\
             ir_resolution (f r) = ir_resolution r) ->
  tk_store k' = update_row id f (tk_store k) -> tk_log k' = tk_log k -> tracker_evolves k k'.
Proof.
  intros Hf Hs' Hl Hok. assert (forall r, ir_id (f r) = ir_id r) as Hid by (intros; apply Hf).
  assert (forall r, row_status (f r) = row_status r) as Hs.
  { intros r. unfold row_status. by destruct (Hf r) as (_ & -> & _). }
  rewrite Hs', Hl. split.
  - apply update_row_ok; [done| |done]. intros r _ _. unfold row_ok. rewrite Hs.
    by destruct (Hf r) as (_ & _ & ->).
  - exists []. rewrite app_nil_r. split; [done|]. intros x. simpl. f_equal. unfold status_of.
    rewrite find_row_update by done. case_decide; [|done].
    destruct (find_row x (tk_store k)); simpl; [by rewrite Hs|done].
Qed.

(** A transition, and the event that records it. *)
Lemma evolves_transition id r st res now kind k k' :
  find_row id (tk_store k) = Some r ->
  issues (tk_store k') = issues (update_row id (with_status st res now) (tk_store k)) ->
  ev_kind <$> tk_log k' = (ev_kind <$> tk_log k) ++ [kind] ->
  (forall x o, x <> id -> replay_event x o kind = Some o) ->
  replay_event id (Some (row_status r)) kind = Some (Some st) ->
  (match res with
   | Some _ => st = Resolved \/ st = Closed
   | None => (st = Open \/ st = InProgress) /\ (row_status r = Open \/ row_status r = InProgress)
   end) ->
  tracker_evolves k k'.
Proof.
  intros Hr Hi Hl Ho He Hres Hok. unfold store_ok, status_of, find_row. rewrite Hi. split.
  - apply (update_row_ok id _ (tk_store k)); [done| |done]. intros r' Hin Hid Hr'.
    assert (r' = r) as ->.
    { pose proof (find_by_elem ir_id id _ r' (proj1 Hok) Hin Hid) as Hf. unfold find_row in Hr. congruence. }
    unfold row_ok, row_status in *. simpl. rewrite status_from_as. simpl.
    destruct res as [x|]; [by destruct Hres as [-> | ->]; naive_solver|].
    destruct Hres as [Hst Hrow]. naive_solver.
  - exists [kind]. split; [done|]. intros x. fold (find_row x (tk_store k)).
    fold (find_row x (update_row id (with_status st res now) (tk_store k))).
    rewrite find_row_update by done. simpl. case_decide as Hx.
    + subst x. rewrite Hr. simpl. rewrite He. simpl. unfold row_status at 1. simpl.
      by rewrite status_from_as.
    + by rewrite Ho.
Qed.

Lemma evolves_insert row title creator prio k k' :
  issues (tk_store k') = issues (tk_store k) ++ [row] ->
  find_row (ir_id row) (tk_store k) = None ->
  ev_kind <$> tk_log k' = (ev_kind <$> tk_log k) ++ [IssueCreated (ir_id row) title creator prio] ->
  ir_status row = "open"%string -> ir_resolution row = None ->
  tracker_evolves k k'.
Proof.
  intros Hi Hn Hl Hs Hr. eapply evolves_one; [|exact Hl|].
  - intros [Hnd Hf]. unfold store_ok. rewrite Hi. split; [by apply snoc_keys_NoDup|].
    apply Forall_app. split; [done|]. apply Forall_singleton. unfold row_ok, row_status.
    rewrite Hs, Hr. simpl. tauto.
  - intros _ x. unfold status_of, find_row in *. rewrite Hi, find_by_snoc. simpl.
    case_decide as Hx; [|by destruct (find_by _ x _)].
    subst x. rewrite Hn. simpl. unfold row_status. by rewrite Hs.
Qed.

Lemma record_log kind k :
  ev_kind <$> tk_log (record kind k).2 = (ev_kind <$> tk_log k) ++ [kind].
Proof. unfold record, append. simpl. by rewrite fmap_app. Qed.

Lemma evolves_create t d p ls c k : tracker_evolves k (create t d p ls c k).2.
Proof.
  unfold create. simpl. unfold mbind, M_bind, insert_issue. simpl.
  destruct (find_row _ _) eqn:E; simpl; [by apply evolves_same_issues|].
  by eapply evolves_insert; simpl; [done|done|by rewrite fmap_app|..].
Qed.

Lemma increment_eq a k :
  let b := (a, hour_bucket (clock (tk_ticks k))) in
  let s := bump_count b (tk_store k) in
  increment_agent_rate_limit a k =
  (match read_count b s with Some c => Ok c | None => Err Sqlite end,
   mkTracker s (tk_log k) (tk_draws k) (S (tk_ticks k))).
Proof.
  intros b s. unfold increment_agent_rate_limit, current_hour_bucket. simpl.
  unfold mbind, M_bind. simpl. fold b s. by destruct (read_count b s).
Qed.

Lemma bump_count_issues b s : issues (bump_count b s) = issues s.
Proof. unfold bump_count. by case_match. Qed.

Lemma evolves_from k k1 k' :
  issues (tk_store k1) = issues (tk_store k) -> tk_log k1 = tk_log k -> tracker_evolves k1 k' -> tracker_evolves k k'.
Proof. intros Hi Hl. unfold evolves, store_ok, status_of, find_row. by rewrite Hi, Hl. Qed.

Lemma evolves_create_by_agent t d p ls a so m k : tracker_evolves k (create_by_agent t d p ls a so m k).2.
Proof.
  unfold create_by_agent. unfold mbind at 1, M_bind at 1. rewrite increment_eq. simpl.
  set (k1 := mkTracker _ _ _ _). assert (issues (tk_store k1) = issues (tk_store k)) as Hi
    by apply bump_count_issues.
  apply (evolves_from k k1); [done|done|].
  destruct (read_count _ _) as [c|]; [|by apply evolves_same_issues].
  destruct (m <? c)%Z; [by apply evolves_same_issues|].
  unfold mbind, M_bind, insert_issue. simpl.
  destruct (find_row _ _) eqn:E; simpl; [by apply evolves_same_issues|].
  by eapply evolves_insert; simpl; [done|done|by rewrite fmap_app|..].
Qed.

Lemma create_by_agent_row t d p ls a so m k i dup k' :
  create_by_agent t d p ls a so m k = (Ok (i, dup), k') ->
  find_row (i_id i) (tk_store k) = None /\ is_Some (find_row (i_id i) (tk_store k')).
Proof.
  unfold create_by_agent. unfold mbind at 1, M_bind at 1. rewrite increment_eq.
  set (k1 := mkTracker _ _ _ _).
  assert (issues (tk_store k1) = issues (tk_store k)) as Hi by apply bump_count_issues.
  destruct (read_count _ _) as [c|]; [|done]. destruct (m <? c)%Z; [done|].
  unfold mbind, M_bind, insert_issue. simpl. unfold find_row. simpl in *. rewrite Hi.
  destruct (find_by _ _ _) eqn:E; simpl; [done|]. intros [= <- _ <-]. simpl. split; [done|].
  rewrite Hi, find_by_snoc, E. simpl. by rewrite decide_True.
Qed.

Lemma get_eq id k r : find_row id (tk_store k) = Some r -> get id k = (Ok (row_to_issue r), k).
Proof. unfold get. by intros ->. Qed.

Lemma get_state id k : (get id k).2 = k.
Proof. done. Qed.

(** An event that leaves every status as it is. *)
Lemma evolves_event kind k k1 k' :
  tracker_evolves k k1 -> tk_store k' = tk_store k1 ->
  ev_kind <$> tk_log k' = (ev_kind <$> tk_log k1) ++ [kind] ->
  (forall x, replay_event x (status_of (tk_store k1) x) kind = Some (status_of (tk_store k1) x)) ->
  tracker_evolves k k'.
Proof.
  intros He Hs Hl Hr Hok. destruct (He Hok) as (Hok1 & kinds & Hk & Hall). rewrite Hs.
  split; [done|]. exists (kinds ++ [kind]). rewrite Hl, Hk, app_assoc. split; [done|].
  intros x. rewrite replay_app, Hall. simpl. by rewrite Hr.
Qed.

Lemma changed_fields_status i t d p ls : "status"%string ∉ changed_fields i t d p ls.
Proof. unfold changed_fields. intros Hin. repeat case_decide; set_solver. Qed.

Lemma evolves_update_op id t d p ls k : tracker_evolves k (update id t d p ls k).2.
Proof.
  unfold update. unfold mbind at 1, M_bind at 1, get at 1.
  destruct (find_row id (tk_store k)) as [r|] eqn:Hr; [|by apply evolves_same_issues].
  unfold mbind, M_bind. simpl. set (f := fun r : IssueRow => mkRow _ _ _ _ _ _ _ _ _ _ _ _).
  pose proof (changed_fields_status (row_to_issue r) (default (i_title (row_to_issue r)) t)
    (default (i_description (row_to_issue r)) d) (default (i_priority (row_to_issue r)) p)
    (default (i_labels (row_to_issue r)) ls)) as Hst.
  set (k1 := mkTracker (update_row id f (tk_store k)) (tk_log k) (tk_draws k) (S (tk_ticks k))).
  assert (tracker_evolves k k1) as Hu by by apply (evolves_update id f).
  destruct (changed_fields _ _ _ _ _) as [|c cs]; [exact Hu|].
  eapply (evolves_event (IssueUpdated id (c :: cs)) k k1); [done|done|by simpl; rewrite fmap_app|].
  intros x. simpl. case_decide as Hx; [|done]. subst x. rewrite decide_False by done.
  unfold status_of. by rewrite find_row_update, decide_True, Hr by done.
Qed.

Lemma evolves_set_in_progress id w k : tracker_evolves k (set_in_progress id w k).2.
Proof.
  unfold set_in_progress. unfold mbind at 1, M_bind at 1, get at 1.
  destruct (find_row id (tk_store k)) as [r|] eqn:Hr; [|by apply evolves_same_issues].
  case_bool_decide as Hg; [by apply evolves_same_issues|].
  eapply (evolves_transition id r InProgress None (clock (tk_ticks k)) (IssueLinkedToWorkspace id w));
    [done| |by simpl; rewrite fmap_app| | |].
  - simpl. unfold link_workspace. by case_match.
  - intros x o Hx. simpl. by rewrite decide_False by done.
  - simpl in *. rewrite decide_True by done. unfold row_status. by destruct (default _ _); naive_solver.
  - simpl in *. unfold row_status. destruct (default _ _); naive_solver.
Qed.

Lemma evolves_reopen id k : tracker_evolves k (reopen id k).2.
Proof.
  unfold reopen. unfold mbind at 1, M_bind at 1, get at 1.
  destruct (find_row id (tk_store k)) as [r|] eqn:Hr; [|by apply evolves_same_issues].
  case_bool_decide as Hg; [by apply evolves_same_issues|].
  eapply (evolves_transition id r Open None (clock (tk_ticks k)) (IssueUpdated id ["status"%string]));
    [done|done|by simpl; rewrite fmap_app| | |].
  - intros x o Hx. simpl. by rewrite decide_False by done.
  - simpl in *. rewrite !decide_True by set_solver. unfold row_status.
    by destruct (default _ _); naive_solver.
  - simpl in *. unfold row_status. destruct (default _ _); naive_solver.
Qed.

Lemma evolves_resolve id v k : tracker_evolves k (resolve id v k).2.
Proof.
  unfold resolve. unfold mbind at 1, M_bind at 1, get at 1.
  destruct (find_row id (tk_store k)) as [r|] eqn:Hr; [|by apply evolves_same_issues].
  case_bool_decide as Hg; [by apply evolves_same_issues|].
  eapply (evolves_transition id r Resolved _ (clock (tk_ticks k)) (IssueResolved id "resolved" v));
    [done|done|by simpl; rewrite fmap_app| | |by left].
  - intros x o Hx. simpl. by rewrite decide_False by done.
  - simpl in *. rewrite decide_True by done. unfold row_status. by destruct (default _ _); naive_solver.
Qed.

Lemma evolves_close id res k : tracker_evolves k (close id res k).2.
Proof.
  unfold close. unfold mbind at 1, M_bind at 1, get at 1.
  destruct (find_row id (tk_store k)) as [r|] eqn:Hr; [|by apply evolves_same_issues].
  eapply (evolves_transition id r Closed _ (clock (tk_ticks k)) (IssueClosed id res));
    [done|done|by simpl; rewrite fmap_app| | |by right].
  - intros x o Hx. simpl. by rewrite decide_False by done.
  - simpl. by rewrite decide_True by done.
Qed.

Lemma evolves_change_comment id f k : tracker_evolves k (change_comment id f k).2.
Proof.
  unfold change_comment, mbind, M_bind. simpl. repeat case_match; simplify_eq; by apply evolves_same_issues.
Qed.

Lemma evolves_op op k : tracker_evolves k (run_issue_op op k).
Proof.
  destruct op; simpl.
  - apply evolves_create.
  - apply evolves_create_by_agent.
  - by eapply evolves_update; [|done..].
  - by eapply evolves_update; [|done..].
  - apply evolves_update_op.
  - apply evolves_set_in_progress.
  - apply evolves_reopen.
  - apply evolves_resolve.
  - apply evolves_close.
  - unfold create_comment, mbind, M_bind, insert_comment. simpl.
    destruct (existsb _ _); by apply evolves_same_issues.
  - by apply (evolves_from k (tick k).2); [..|exact (evolves_change_comment _ _ (tick k).2)].
  - by apply (evolves_from k (tick k).2); [..|exact (evolves_change_comment _ _ (tick k).2)].
  - apply evolves_same_issues; [|done]. simpl. by destruct (bool_decide _).
Qed.

Lemma evolves_foreign kind k : about_issue kind = false -> tracker_evolves k (record kind k).2.
Proof.
  intros Hk. apply (evolves_event kind k k); [by apply evolves_same_issues|done|apply record_log|].
  intros x. by destruct kind.
Qed.

Lemma step_evolves k k' : tracker_step k k' -> tracker_evolves k k'.
Proof. intros [op k1|kind k1 Hk]; [apply evolves_op|by apply evolves_foreign]. Qed.

(** Issues are never removed. *)
Lemma replay_keeps id kinds v st : replay replay_event id kinds (Some v) = Some st -> is_Some st.
Proof.
  revert v. induction kinds as [|kind kinds IH]; intros v; simpl; [by intros [= <-]|].
  destruct (replay_event id (Some v) kind) as [[v'|]|] eqn:E; simpl; [apply IH| |done].
  exfalso. destruct kind; simpl in E; try done; repeat (case_decide; try done); destruct v; done.
Qed.

Lemma evolves_keeps id k k' :
  tracker_evolves k k' -> store_ok (tk_store k) ->
  is_Some (find_row id (tk_store k)) -> is_Some (find_row id (tk_store k')).
Proof.
  intros He Hok [r Hr]. destruct (He Hok) as (_ & kinds & _ & Hrep). specialize (Hrep id).
  unfold status_of in Hrep. rewrite Hr in Hrep. apply replay_keeps in Hrep as [v Hv].
  apply fmap_Some in Hv as (r' & Hr' & _). by exists r'.
Qed.

(** C34. Whatever the issue store does, and whatever other components log in
    between, the log is a legal life cycle of every issue, and reading it back
    gives exactly the statuses of the table; ids stay unique, and exactly the
    resolved and closed issues carry a resolution. *)
Theorem tracker_reachable_ok k0 k id :
  tk_store k0 = empty_store -> tk_log k0 = [] -> rtc tracker_step k0 k ->
  replay_status id (ev_kind <$> tk_log k) = Some (status_of (tk_store k) id) /\
  store_ok (tk_store k).
Proof.
  intros Hs Hl Hr.
  destruct (reachable_replayed _ (fun k => status_of (tk_store k)) tk_log
    (fun k => store_ok (tk_store k)) tracker_step k0 k step_evolves) as [Hok Hall];
    [..|by split; [apply Hall|]].
  - rewrite Hs. split; constructor.
  - done.
  - intros x. by rewrite Hs.
  - done.
Qed.

(** *** The rate limit *)

Record AgentRequest : Type := mkRequest {
  q_title : string; q_description : string; q_priority : IssuePriority;
  q_labels : list string; q_source : AgentSource
}.

(** One agent's requests, one after the other. *)
Fixpoint agent_session (agent : string) (max : Z) (qs : list AgentRequest) (k : Tracker) :
    list (outcome IssueError (Issue * option Uuid)) * Tracker :=
  match qs with
  | [] => ([], k)
  | q :: qs' =>
      let '(r, k1) := create_by_agent (q_title q) (q_description q) (q_priority q) (q_labels q)
                        agent (q_source q) max k in
      let '(rs, k2) := agent_session agent max qs' k1 in (r :: rs, k2)
  end.

Definition agent_count (b : string * Z) (k : Tracker) : Z :=
  default 0%Z (agent_rate_limits (tk_store k) !! b).

(** The identifiers still to be drawn name no issue. *)
Definition ids_fresh (k : Tracker) : Prop :=
  forall n, tk_draws k <= n -> find_row (uuid n) (tk_store k) = None.

Lemma bump_count_lookup b s :
  agent_rate_limits (bump_count b s) !! b = Some (default 0 (agent_rate_limits s !! b) + 1)%Z.
Proof.
  unfold bump_count. destruct (agent_rate_limits s !! b) eqn:E; simpl.
  - rewrite lookup_alter. rewrite decide_True by done. by rewrite E.
  - apply lookup_insert_eq.
Qed.

Section one_hour.
Variable hour : Z.
Hypothesis same_hour : forall n, hour_bucket (clock n) = hour.
Hypothesis uuid_inj : forall m n, uuid m = uuid n -> m = n.

Lemma create_by_agent_refused t d p ls a so max k :
  agent_count (a, hour) k = max -> (0 <= max < u32_bound - 1)%Z -> ids_fresh k ->
  exists k', create_by_agent t d p ls a so max k = (Err (RateLimitExceeded a (max + 1) max), k') /\
    agent_count (a, hour) k' = max /\ issues (tk_store k') = issues (tk_store k) /\
    tk_log k' = tk_log k /\ ids_fresh k'.
Proof using same_hour.
  intros Hc Hm Hf. unfold create_by_agent. unfold mbind at 1, M_bind at 1. rewrite increment_eq.
  rewrite same_hour. unfold read_count. rewrite bump_count_lookup. fold (agent_count (a, hour) k).
  rewrite Hc. simpl.
  destruct (Z.leb_spec 0 (max + 1)); [|lia]. destruct (Z.ltb_spec (max + 1) u32_bound); [|lia].
  simpl. destruct (Z.ltb_spec max (max + 1)); [|lia]. eexists. split; [reflexivity|]. simpl.
  rewrite same_hour. split_and!; [|apply bump_count_issues|done|].
  - unfold agent_count. simpl. rewrite lookup_alter, decide_True, bump_count_lookup by done. simpl.
    fold (agent_count (a, hour) k). lia.
  - intros n Hn. unfold find_row. simpl. rewrite bump_count_issues. by apply Hf.
Qed.

Lemma create_by_agent_accepted t d p ls a so max k :
  (0 <= agent_count (a, hour) k < max)%Z -> (max < u32_bound)%Z -> ids_fresh k ->
  exists i dup k', create_by_agent t d p ls a so max k = (Ok (i, dup), k') /\
    agent_count (a, hour) k' = (agent_count (a, hour) k + 1)%Z /\
    (exists row, issues (tk_store k') = issues (tk_store k) ++ [row] /\ ir_id row = i_id i) /\ ids_fresh k'.
Proof using same_hour uuid_inj.
  intros Hc Hm Hf. unfold create_by_agent. unfold mbind at 1, M_bind at 1. rewrite increment_eq.
  rewrite same_hour. unfold read_count. rewrite bump_count_lookup. fold (agent_count (a, hour) k).
  set (c := agent_count (a, hour) k) in *. simpl.
  destruct (Z.leb_spec 0 (c + 1)); [|lia]. destruct (Z.ltb_spec (c + 1) u32_bound); [|lia].
  simpl. destruct (Z.ltb_spec max (c + 1)); [lia|].
  unfold mbind, M_bind, insert_issue. simpl. unfold find_row at 1. simpl. rewrite bump_count_issues.
  fold (find_row (uuid (tk_draws k)) (tk_store k)). rewrite Hf by done. simpl.
  eexists _, _, _. split; [reflexivity|]. simpl. split_and!.
  - unfold agent_count. simpl. by rewrite bump_count_lookup.
  - eexists. rewrite bump_count_issues. split; reflexivity.
  - intros n Hn. unfold find_row. simpl in *. rewrite bump_count_issues, find_by_snoc.
    pose proof (Hf n ltac:(lia)) as Hn'. unfold find_row in Hn'.
    rewrite Hn'. simpl. rewrite decide_False; [done|]. intros ?%uuid_inj. lia.
Qed.

Definition is_ok {E A} (r : outcome E A) : Prop := exists x, r = Ok x.

Lemma agent_session_refused a max qs k :
  agent_count (a, hour) k = max -> (0 <= max < u32_bound - 1)%Z -> ids_fresh k ->
  let '(rs, k') := agent_session a max qs k in
  length rs = length qs /\ Forall (eq (Err (RateLimitExceeded a (max + 1) max))) rs /\
  agent_count (a, hour) k' = max /\ issues (tk_store k') = issues (tk_store k).
Proof using same_hour.
  intros Hc Hm. revert k Hc. induction qs as [|q qs IH]; intros k Hc Hf; simpl; [done|].
  destruct (create_by_agent_refused (q_title q) (q_description q) (q_priority q) (q_labels q) a
    (q_source q) max k Hc Hm Hf) as (k1 & -> & Hc1 & Hi1 & _ & Hf1).
  specialize (IH k1 Hc1 Hf1). destruct (agent_session a max qs k1) as [rs k2].
  destruct IH as (Hl & HF & Hc2 & Hi2). split_and!; [by simpl; rewrite Hl|by constructor|done|].
  by rewrite Hi2.
Qed.

(** Within a clock hour an agent gets exactly [max_per_hour] issues: of its
    requests, the first as many as the counter leaves room for each create one
    issue, every later one is refused with the limit and creates nothing, and the
    refusals do not count. *)
Theorem agent_session_limit a max qs k :
  (0 <= agent_count (a, hour) k <= max)%Z -> (max < u32_bound - 1)%Z -> ids_fresh k ->
  let room := Z.to_nat (max - agent_count (a, hour) k) in
  let '(rs, k') := agent_session a max qs k in
  length rs = length qs /\ Forall is_ok (take room rs) /\
  Forall (eq (Err (RateLimitExceeded a (max + 1) max))) (drop room rs) /\
  length (issues (tk_store k')) = length (issues (tk_store k)) + Nat.min room (length qs) /\
  agent_count (a, hour) k' = (agent_count (a, hour) k + Z.of_nat (Nat.min room (length qs)))%Z.
Proof using same_hour uuid_inj.
  intros Hc Hm. revert k Hc. induction qs as [|q qs IH]; intros k Hc Hf.
  { simpl. rewrite Nat.min_0_r, take_nil, drop_nil. split_and!; [done..|lia|lia]. }
  destruct (Z.eq_dec (agent_count (a, hour) k) max) as [He|Hne].
  - pose proof (agent_session_refused a max (q :: qs) k He ltac:(lia) Hf) as Hs.
    rewrite He, Z.sub_diag. change (Z.to_nat 0) with 0. cbv zeta.
    destruct (agent_session a max (q :: qs) k) as [rs k']. destruct Hs as (Hl & HF & Hc' & Hi').
    rewrite drop_0, take_0. simpl. rewrite Hi'. split_and!; [done..|lia|lia].
  - simpl agent_session.
    destruct (create_by_agent_accepted (q_title q) (q_description q) (q_priority q) (q_labels q) a
      (q_source q) max k ltac:(lia) ltac:(lia) Hf) as (i & dup & k1 & -> & Hc1 & (row & Hi1 & _) & Hf1).
    specialize (IH k1 ltac:(lia) Hf1). cbv zeta in *.
    destruct (agent_session a max qs k1) as [rs k2].
    replace (Z.to_nat (max - agent_count (a, hour) k))
      with (S (Z.to_nat (max - agent_count (a, hour) k1))) by lia.
    destruct IH as (Hl & HF1 & HF2 & Hlen & Hc2). rewrite Hc2, Hlen, Hi1, length_app. simpl.
    split_and!; [by rewrite Hl|constructor; [by eexists|done]|done|lia|lia].
Qed.
End one_hour.

(** An issue that was created reads back as it was returned exactly when no
    label holds a comma and the labels are not one empty label. *)
Theorem create_get t d p ls c k i k' :
  criteria_from_json "[]" = Some [] ->
  create t d p ls c k = (Ok i, k') ->
  exists i', get (i_id i) k' = (Ok i', k') /\ (i' = i <-> clean_labels ls).
Proof.
  intros Hj. unfold create, mbind, M_bind, insert_issue. simpl.
  destruct (find_row _ _) eqn:E; [done|]. intros [= <- <-]. simpl.
  set (row := mkRow _ _ _ _ _ _ _ _ _ _ _ _). exists (row_to_issue row). split.
  - unfold get. simpl. unfold find_row in *. simpl.
    rewrite find_by_snoc, E. simpl. by rewrite decide_True by done.
  - rewrite <-(row_labels_join row ls) by done. unfold row_to_issue. simpl. rewrite Hj.
    split; [by intros [= ?]|]. intros ->. by destruct p.
Qed.

(** Rows as the operations write them. *)
Definition row_wf (r : IssueRow) : Prop :=
  (exists st, ir_status r = status_as_str st) /\ (exists p, ir_priority r = priority_as_str p) /\
  (exists ls, ir_labels r = join "," ls /\ clean_labels ls).

Definition has_label (l : string) (i : Issue) : Prop :=
  i_labels i = [l] \/
  2 <= length (i_labels i) /\ exists x, x ∈ i_labels i /\ same_letters (bytes_of l) (bytes_of x).

Definition matches (f : IssueFilter) (s : IssueStore) (i : Issue) : Prop :=
  match f_status f with Some (st :: sts) => i_status i ∈ st :: sts | _ => True end /\
  match f_priority f with Some p => i_priority i = p | None => True end /\
  match f_label f with Some l => has_label l i | None => True end /\
  match f_creator f with Some c => i_creator i = c | None => True end /\
  match f_blocked_by f with Some b => (i_id i, b) ∈ issue_dependencies s | None => True end.

Lemma status_as_str_inj a b : status_as_str a = status_as_str b <-> a = b.
Proof. by destruct a, b. Qed.

Lemma priority_as_str_inj a b : priority_as_str a = priority_as_str b <-> a = b.
Proof. by destruct a, b. Qed.

Lemma row_matches_spec f s r :
  row_wf r -> match f_label f with Some l => plain_label l | None => True end ->
  row_matches f s r = true <-> matches f s (row_to_issue r).
Proof using criteria_from_json source_from_json.
  clear criteria_to_json source_to_json.
  intros ((st & Hst) & (p & Hp) & (ls & Hls & Hc)) Hl. unfold row_matches, matches.
  rewrite !andb_true_iff. simpl. rewrite Hst, status_from_as. simpl.
  assert (default PrMedium (priority_from_db_str (ir_priority r)) = p) as -> by (rewrite Hp; by destruct p).
  assert (status_matches (f_status f) r = true <->
          match f_status f with Some (st0 :: sts) => st ∈ st0 :: sts | _ => True end) as Hs.
  { unfold status_matches. destruct (f_status f) as [[|st0 sts]|]; [done| |done].
    rewrite existsb_exists. split.
    - intros (x & Hx%list_elem_of_In & He%String.eqb_eq). rewrite Hst in He.
      by apply status_as_str_inj in He as ->.
    - intros Hin%list_elem_of_In. exists st. by rewrite Hst, String.eqb_refl. }
  assert (match f_label f with Some l => label_matches l (ir_labels r) | None => true end = true <->
          match f_label f with Some l => has_label l (row_to_issue r) | None => True end) as Hlab.
  { destruct (f_label f) as [l|]; [|done]. unfold has_label. simpl.
    rewrite (proj2 (row_labels_join r ls Hls) Hc), Hls. apply label_matches_spec; [done|apply Hc]. }
  assert (match f_blocked_by f with
          | Some b => existsb (fun d => String.eqb d.1 (ir_id r) && String.eqb d.2 b) (issue_dependencies s)
          | None => true end = true <->
          match f_blocked_by f with Some b => (ir_id r, b) ∈ issue_dependencies s | None => True end) as Hb.
  { destruct (f_blocked_by f) as [b|]; [|done]. rewrite existsb_exists. split.
    - intros ([x y] & Hx%list_elem_of_In & [He%String.eqb_eq Hy%String.eqb_eq]%andb_true_iff).
      simpl in He, Hy. by rewrite <-He, <-Hy.
    - intros Hin%list_elem_of_In. exists (ir_id r, b). by rewrite !String.eqb_refl. }
  rewrite Hs, Hlab, Hb, Hp. unfold has_label.
  destruct (f_priority f) as [q|], (f_creator f) as [c|]; rewrite ?String.eqb_eq, ?priority_as_str_inj;
    simpl; rewrite ?(proj2 (row_labels_join r ls Hls) Hc); tauto.
Qed.

(** Listing returns, newest first, exactly the issues that pass every filter
    given: one of the statuses (all, when the list of statuses is empty), the
    priority, the creator, the blocker; and for a label either the exact text as
    the only label, or any case of it among two labels or more. *)
Theorem list_issues_spec f s :
  (forall A (l : list A), scan A l ≡ₚ l) -> Forall row_wf (issues s) ->
  match f_label f with Some l => plain_label l | None => True end ->
  (forall i, i ∈ list_issues f s <-> exists r, r ∈ issues s /\ i = row_to_issue r /\ matches f s i) /\
  StronglySorted (fun a b => (i_created_at b <= i_created_at a)%Z) (list_issues f s).
Proof using criteria_from_json source_from_json.
  intros Hscan Hwf Hl. unfold list_issues. split.
  - intros i. rewrite list_elem_of_fmap. setoid_rewrite sort_by_elem_of.
    setoid_rewrite list_elem_of_filter. setoid_rewrite Hscan. rewrite Forall_forall in Hwf. split.
    + intros (r & -> & Hm & Hr). exists r. split_and!; [done..|]. by apply row_matches_spec; auto.
    + intros (r & Hr & -> & Hm). exists r. split_and!; [done| |done]. by apply row_matches_spec; auto.
  - eapply (StronglySorted_fmap row_to_issue (fun a b => Is_true (ir_created_at b <=? ir_created_at a)%Z)).
    + intros x y. simpl. intros Hxy%Is_true_true. lia.
    + apply sort_by_sorted; intros *; lia.
Qed.
End store.

(** ** Witnesses *)

Definition wit_source_json (s : AgentSource) : string := source_type s.
Definition wit_source (text : string) : option AgentSource := Some (mkAgentSource text "null").
Definition wit_criteria_json (l : list string) : string := join ";" l.
Definition wit_criteria (text : string) : option (list string) :=
  if String.eqb text "[]" then Some [] else None.
Definition wit_clock (n : nat) : DateTime := Z.of_nat n.
Definition wit_uuid (n : nat) : Uuid := string_of (replicate n "u"%char).
Definition wit_scan (A : Type) (l : list A) : list A := l.
Definition wit_tracker : Tracker := mkTracker empty_store [] 0 0.

Lemma wit_uuid_inj m n : wit_uuid m = wit_uuid n -> m = n.
Proof.
  unfold wit_uuid. intros H%(f_equal bytes_of). rewrite !bytes_of_string_of in H.
  by rewrite <-(length_replicate m "u"%char), H, length_replicate.
Qed.

(** An operation of the witnesses. *)
Definition wit_op : IssueOp -> Tracker -> Tracker :=
  @run_issue_op ascii_unicode wit_source_json wit_source wit_criteria_json wit_criteria
    wit_clock wit_uuid wit_scan.

(** An issue that is created, started and resolved. *)
Definition wit_resolved : Tracker :=
  wit_op (OpResolve "" (Some "v2"%string)) (wit_op (OpStart "" "w") (wit_op
    (OpCreate "Fix login" "" PrHigh ["bug"%string] "alice") wit_tracker)).

Lemma tracker_reachable_ok_witness :
  status_of (tk_store wit_resolved) "" = Some Resolved /\
  replay_status "" (ev_kind <$> tk_log wit_resolved) = Some (status_of (tk_store wit_resolved) "").
Proof.
  split; [vm_compute; reflexivity|].
  apply (@tracker_reachable_ok ascii_unicode wit_source_json wit_source wit_criteria_json wit_criteria
    wit_clock wit_uuid wit_scan wit_tracker wit_resolved ""); [reflexivity|reflexivity|].
  unfold wit_resolved. eapply rtc_l; [apply step_op|]. eapply rtc_l; [apply step_op|].
  eapply rtc_l; [apply step_op|]. apply rtc_refl.
Defined.

Definition wit_requests : list AgentRequest :=
  (fun t => mkRequest t "" PrLow [] (mkAgentSource "test_failure" "{}")) <$> ["a"; "b"; "c"]%string.

Definition wit_session : list (outcome IssueError (Issue * option Uuid)) * Tracker :=
  @agent_session ascii_unicode wit_source_json (fun _ => 0%Z) wit_uuid wit_scan "agent" 2 wit_requests
    wit_tracker.

Lemma agent_session_limit_witness :
  length (issues (tk_store wit_session.2)) = 2 /\
  Forall is_ok (take 2 wit_session.1) /\
  Forall (eq (Err (RateLimitExceeded "agent" 3 2))) (drop 2 wit_session.1).
Proof.
  pose proof (@agent_session_limit ascii_unicode wit_source_json (fun _ => 0%Z) wit_uuid wit_scan 0
    (fun _ => eq_refl) wit_uuid_inj "agent" 2 wit_requests wit_tracker) as H.
  fold wit_session in H.
  destruct wit_session as [rs k'].
  assert (0 <= agent_count ("agent"%string, 0%Z) wit_tracker <= 2)%Z as Hc
    by (split; vm_compute; discriminate).
  specialize (H Hc eq_refl (fun n _ => eq_refl)). cbv zeta in H.
  destruct H as (_ & H1 & H2 & H3 & _). split; [exact H3|]. split; [exact H1|exact H2].
Defined.

Lemma create_get_witness :
  exists i k', @create wit_clock wit_uuid "t" "d" PrLow ["a,b"%string] "alice" wit_tracker = (Ok i, k') /\
    exists i', get wit_source wit_criteria (i_id i) k' = (Ok i', k') /\ i' <> i.
Proof.
  eexists _, _. split; [reflexivity|].
  destruct (create_get wit_source wit_criteria wit_clock wit_uuid "t" "d" PrLow ["a,b"%string] "alice"
    wit_tracker _ _ eq_refl eq_refl) as (i' & Hg & Hi).
  exists i'. split; [exact Hg|]. intros He. apply Hi in He as [HF _]. apply Forall_cons in HF as [Hc _].
  apply Hc. apply (bool_decide_unpack _). vm_compute. exact I.
Defined.

(** Two issues, of one and of two labels. *)
Definition wit_listed : IssueStore :=
  tk_store (wit_op (OpCreate "y" "" PrLow ["Bug"%string; "ui"%string] "bob")
    (wit_op (OpCreate "x" "" PrHigh ["Bug"%string] "bob") wit_tracker)).
Definition wit_filter : IssueFilter := mkFilter (Some [Open]) None (Some "bug"%string) None None.

Lemma list_issues_spec_witness :
  (i_title <$> list_issues wit_source wit_criteria wit_scan wit_filter wit_listed) = ["y"%string] /\
  forall i, i ∈ list_issues wit_source wit_criteria wit_scan wit_filter wit_listed <->
    exists r, r ∈ issues wit_listed /\ i = row_to_issue wit_source wit_criteria r /\
      matches wit_filter wit_listed i.
Proof.
  split; [vm_compute; reflexivity|].
  apply (list_issues_spec wit_source wit_criteria wit_scan wit_filter wit_listed).
  - intros A l. reflexivity.
  - apply Forall_cons. split; [|apply Forall_cons; split; [|apply Forall_nil; exact I]];
      (split; [exists Open; reflexivity|split]);
      [by exists PrHigh|exists ["Bug"%string]|by exists PrLow|exists ["Bug"%string; "ui"%string]];
      (split; [reflexivity|split; [|discriminate]]); apply (bool_decide_unpack _); vm_compute; exact I.
  - split; [discriminate|]. split; apply (bool_decide_unpack _); vm_compute; exact I.
Defined.
