(* ===== verification/WorkQueue.v ===== *)
(** The work queue ([src/src/work_queue/mod.rs]): the prediction of the scope of an
    issue from the graph, the split of the open issues into available and blocked
    work, and the claim of an issue. *)
From S2P Require Import Prelude RustStr Graph EventLog Conflict VaiDir.
From S2P Require Workspace.
From S2P Require Import Issue.

(** ** Scope prediction *)

Inductive PredictionConfidence : Type := PcHigh | PcMedium | PcLow.

Record PredictedEntity : Type := mkPredicted {
  pe_id : string;
  pe_name : string;
  pe_file_path : string;
  pe_confidence : PredictionConfidence
}.

Record ScopePrediction : Type := mkPrediction {
  sp_entities : list PredictedEntity;
  sp_files : list string;
  sp_blast_radius : nat
}.

Definition entity_ids (p : ScopePrediction) : gset string := list_to_set (pe_id <$> sp_entities p).
Definition file_set (p : ScopePrediction) : gset string := list_to_set (sp_files p).

Definition stop_words : list string :=
  ["a"; "an"; "and"; "are"; "as"; "at"; "be"; "by"; "do"; "for"; "from";
   "has"; "he"; "in"; "is"; "it"; "its"; "not"; "of"; "on"; "or"; "so";
   "that"; "the"; "to"; "up"; "use"; "was"; "were"; "will"; "with"]%string.

Definition predicted (c : PredictionConfidence) (e : Entity) : PredictedEntity :=
  mkPredicted (e_id e) (e_name e) (e_file_path e) c.

(** The entities of [es] whose id [skip] does not hold and that were not seen
    before, with the ids seen. *)
Definition push_unseen (c : PredictionConfidence) (skip : gset string) (es : list Entity)
    (acc : gset string * list PredictedEntity) : gset string * list PredictedEntity :=
  foldl (fun acc e =>
    if decide (e_id e ∈ skip \/ e_id e ∈ acc.1) then acc
    else ({[e_id e]} ∪ acc.1, acc.2 ++ [predicted c e])) acc es.

Lemma push_unseen_spec c skip es ids out :
  let '(ids', out') := push_unseen c skip es (ids, out) in
  (forall x, x ∈ ids' <-> x ∈ ids \/ exists e, e ∈ es /\ e_id e = x /\ x ∉ skip) /\
  exists new, out' = out ++ (predicted c <$> new) /\ NoDup (e_id <$> new) /\
    (forall e, e ∈ new -> e ∈ es /\ (e_id e ∉ skip) /\ e_id e ∉ ids) /\
    (forall e, e ∈ es -> e_id e ∉ skip -> e_id e ∉ ids -> e_id e ∈ e_id <$> new).
Proof.
  unfold push_unseen. revert ids out. induction es as [|e es IH]; intros ids out; simpl.
  { split; [set_solver|]. exists []. simpl. rewrite app_nil_r. split_and!; [done|constructor|set_solver..]. }
  case_decide as Hd.
  - specialize (IH ids out). destruct (foldl _ _ _) as [ids' out'].
    destruct IH as (Hi & new & Ho & Hn & H1 & H2). split.
    + intros x. rewrite Hi. set_solver.
    + exists new. split_and!; [done|done|set_solver|]. intros e' [->|He']%elem_of_cons; [|auto]. tauto.
  - assert ((e_id e ∉ skip) /\ e_id e ∉ ids) as [Hs Hids] by tauto.
    specialize (IH ({[e_id e]} ∪ ids) (out ++ [predicted c e])). destruct (foldl _ _ _) as [ids' out'].
    destruct IH as (Hi & new & Ho & Hn & H1 & H2). split.
    + intros x. rewrite Hi. set_solver.
    + exists (e :: new). split_and!.
      * rewrite Ho, <-app_assoc. done.
      * simpl. constructor; [|done]. intros (e' & He & Hin)%list_elem_of_fmap.
        apply H1 in Hin as (_ & _ & Hni). set_solver.
      * intros e' [->|Hin]%elem_of_cons; [set_solver|]. apply H1 in Hin. set_solver.
      * intros e' Hin Hs' Hi'. simpl. rewrite elem_of_cons.
        destruct (decide (e_id e' = e_id e)) as [He|Hne]; [by left|right].
        apply elem_of_cons in Hin as [->|Hin]; [done|]. apply H2; [done..|set_solver].
Qed.

Lemma push_unseen_fold c skip (f : string -> list Entity) kws acc :
  foldl (fun acc kw => push_unseen c skip (f kw) acc) acc kws = push_unseen c skip (kws ≫= f) acc.
Proof.
  revert acc. induction kws as [|kw kws IH]; intros acc; [done|]. simpl. rewrite IH.
  unfold push_unseen. by rewrite foldl_app.
Qed.

Section unique.
Variable g : GraphSnapshot.
(** The primary key of the table of entities. *)
Hypothesis entities_unique : NoDup (e_id <$> entities g).

Lemma entity_by_id e e' : e ∈ entities g -> e' ∈ entities g -> e_id e = e_id e' -> e = e'.
Proof using entities_unique.
  intros (i & Hi)%list_elem_of_lookup (j & Hj)%list_elem_of_lookup He.
  assert (i = j) as <-; [|congruence].
  apply (NoDup_lookup _ i j (e_id e) entities_unique); rewrite list_lookup_fmap;
    [by rewrite Hi|by rewrite Hj, He].
Qed.

(** One pass over candidates of the graph yields exactly those it does not skip. *)
Lemma push_unseen_new c skip (P : Entity -> Prop) es out :
  (forall e, e ∈ es <-> e ∈ entities g /\ P e) ->
  exists new, (push_unseen c skip es (∅, out)).2 = out ++ (predicted c <$> new) /\ NoDup new /\
    (forall e, e ∈ new <-> e ∈ entities g /\ P e /\ e_id e ∉ skip) /\
    (forall x, x ∈ (push_unseen c skip es (∅, out)).1 <-> x ∈ e_id <$> new).
Proof using entities_unique.
  intros Hes. pose proof (push_unseen_spec c skip es ∅ out) as H.
  destruct (push_unseen c skip es (∅, out)) as [ids' out']. simpl.
  destruct H as (Hids & new & -> & Hnd & H1 & H2). exists new.
  assert (Hnew : forall e, e ∈ new <-> e ∈ entities g /\ P e /\ e_id e ∉ skip).
  { intros e. split.
    - intros He. destruct (H1 e He) as (Hin & Hs & _). apply Hes in Hin. tauto.
    - intros (Hg & HP & Hs). assert (e ∈ es) as Hin by by apply Hes.
      apply H2 in Hin as (e' & He & Hin')%list_elem_of_fmap; [|done|set_solver].
      destruct (H1 e' Hin') as (Hes' & _). apply Hes in Hes' as [Hg' _].
      by rewrite (entity_by_id e e'). }
  split_and!; [done| |done|].
  - by apply NoDup_fmap_1 in Hnd.
  - intros x. rewrite Hids, list_elem_of_fmap. setoid_rewrite Hnew. split.
    + intros [?%not_elem_of_empty|(e & He & <- & Hs)]; [done|]. apply Hes in He. naive_solver.
    + intros (e & -> & Hg & HP & Hs). right. exists e. rewrite Hes. tauto.
Qed.

End unique.

Section predict.
Context {unicode : Unicode}.
(** The order in which the elements of a hash set are iterated. *)
Variable iter_order : gset string -> list string.

Definition extract_keywords (text : string) : list string :=
  first_occurrences ∅
    (filter (fun t => (3 <= String.length t) /\ t ∉ stop_words)
      (to_lowercase <$>
        split_chars (fun c => negb (is_alphanumeric c) && negb (String.eqb c "_")) text)).

(** A snapshot file that does not exist is the empty graph. *)
Definition predict_scope (text : string) (g : GraphSnapshot) : ScopePrediction :=
  let keywords := extract_keywords text in
  match keywords with
  | [] => mkPrediction [] [] 0
  | _ =>
      let '(direct_ids, direct) :=
        foldl (fun acc kw => push_unseen PcHigh ∅ (search_entities_by_name g kw) acc) (∅, []) keywords in
      let '(medium_ids, medium) :=
        if decide (direct_ids = ∅) then (∅, direct)
        else push_unseen PcMedium direct_ids (reachable_entities g (iter_order direct_ids) 1).1
               (∅, direct) in
      let all :=
        if decide (direct_ids = ∅ /\ medium_ids = ∅) then medium
        else medium ++ (predicted PcLow <$>
          filter (fun e => (e_id e ∉ direct_ids) /\ e_id e ∉ medium_ids)
            (reachable_entities g (iter_order direct_ids ++ iter_order medium_ids) 2).1) in
      mkPrediction all (first_occurrences ∅ (pe_file_path <$> all)) (length all)
  end.

(** ** What the prediction holds *)

(** The entity's name contains a keyword, letters in any case. *)
Definition mentioned (text : string) (e : Entity) : Prop :=
  exists kw, kw ∈ extract_keywords text /\
    sql_like (bytes_of ("%" +:+ kw +:+ "%")) (bytes_of (e_name e)) = true.

Section prediction.
Variable g : GraphSnapshot.
(** The order in which the elements of a set come is any. *)
Hypothesis iter_order_perm : forall X, iter_order X ≡ₚ elements X.
(** The primary key of the table of entities. *)
Hypothesis entities_unique : NoDup (e_id <$> entities g).

(** Ids of entities stand for the entities. *)
Lemma id_in_entities e (es : list Entity) :
  e ∈ entities g -> (forall e', e' ∈ es -> e' ∈ entities g) -> e_id e ∈ e_id <$> es <-> e ∈ es.
Proof using entities_unique.
  clear iter_order iter_order_perm. intros He Hes. split; [|by apply list_elem_of_fmap_2].
  intros (e' & Hid & Hin)%list_elem_of_fmap.
  by rewrite (entity_by_id g entities_unique e e' He (Hes e' Hin) Hid).
Qed.

Lemma iter_ids X (es : list Entity) :
  (forall x, x ∈ X <-> x ∈ e_id <$> es) -> forall x, x ∈ iter_order X <-> x ∈ e_id <$> es.
Proof using iter_order_perm. intros HX x. by rewrite iter_order_perm, elem_of_elements. Qed.

Lemma ids_empty (X : gset string) (es : list Entity) :
  (forall x, x ∈ X <-> x ∈ e_id <$> es) -> X = ∅ <-> es = [].
Proof using.
  clear. intros HX. split.
  - intros ->. destruct es as [|e es]; [done|]. destruct (not_elem_of_empty (C:=gset string) (e_id e)).
    apply HX. by left.
  - intros ->. apply leibniz_equiv. intros x. rewrite HX. simpl. set_solver.
Qed.

(** The candidates of the expansion from [es]. *)
Lemma expansion_elem (seeds : list string) (es : list Entity) k e :
  (forall x, x ∈ seeds <-> x ∈ e_id <$> es) ->
  e ∈ (reachable_entities g seeds k).1 <-> e ∈ entities g /\ within_hops g (e_id <$> es) k (e_id e).
Proof using.
  clear. intros Hs. rewrite reachable_entities_elem. by rewrite (within_hops_seeds g seeds _ k _ Hs).
Qed.

Lemma predict_scope_eq text :
  let '(direct_ids, direct) :=
    foldl (fun acc kw => push_unseen PcHigh ∅ (search_entities_by_name g kw) acc) (∅, [])
      (extract_keywords text) in
  let '(medium_ids, medium) :=
    push_unseen PcMedium direct_ids (reachable_entities g (iter_order direct_ids) 1).1 (∅, direct) in
  sp_entities (predict_scope text g) = medium ++ (predicted PcLow <$>
    filter (fun e => (e_id e ∉ direct_ids) /\ e_id e ∉ medium_ids)
      (reachable_entities g (iter_order direct_ids ++ iter_order medium_ids) 2).1).
Proof using iter_order_perm.
  clear entities_unique. unfold predict_scope.
  assert (Hn : forall k, (reachable_entities g [] k).1 = []).
  { intros k. apply elem_of_nil_inv. intros e. rewrite reachable_entities_elem. intros [_ H].
    by apply within_hops_no_seed in H. }
  assert (Ho : iter_order ∅ = []) by by apply Permutation_nil_r; rewrite iter_order_perm.
  destruct (extract_keywords text) as [|kw kws]; cbn [foldl].
  - rewrite Ho, Hn. cbn [push_unseen foldl]. rewrite Ho. change (@app string [] []) with (@nil string).
    by rewrite Hn.
  - destruct (foldl _ _ _) as [direct_ids direct]. destruct (decide (direct_ids = ∅)) as [->|Hd].
    + rewrite Ho, Hn. cbn [push_unseen foldl]. rewrite decide_True by done. rewrite Ho.
      change (@app string [] []) with (@nil string). rewrite Hn. by rewrite app_nil_r.
    + destruct (push_unseen _ _ _ _) as [medium_ids medium]. rewrite decide_False by tauto. done.
Qed.

Lemma predict_scope_lists text :
  exists high medium low : list Entity,
    sp_entities (predict_scope text g) =
      (predicted PcHigh <$> high) ++ (predicted PcMedium <$> medium) ++ (predicted PcLow <$> low) /\
    (forall e, e ∈ high <-> e ∈ entities g /\ mentioned text e) /\
    (forall e, e ∈ medium <-> e ∈ entities g /\ within_hops g (e_id <$> high) 1 (e_id e) /\ e ∉ high) /\
    (forall e, e ∈ low <-> e ∈ entities g /\ within_hops g (e_id <$> (high ++ medium)) 2 (e_id e) /\
                           (e ∉ high) /\ e ∉ medium) /\
    NoDup high /\ NoDup medium /\ NoDup low.
Proof using entities_unique iter_order_perm.
  assert (Hm : forall e, e ∈ extract_keywords text ≫= search_entities_by_name g <->
            e ∈ entities g /\ mentioned text e).
  { intros e. rewrite list_elem_of_bind. unfold mentioned, search_entities_by_name.
    setoid_rewrite sort_by_elem_of. setoid_rewrite list_elem_of_filter. naive_solver. }
  pose proof (predict_scope_eq text) as Heq. rewrite push_unseen_fold in Heq.
  destruct (push_unseen_new g entities_unique PcHigh ∅ (mentioned text) _ [] Hm)
    as (high & Ho & Hnd & Hhigh & Hids).
  destruct (push_unseen PcHigh ∅ _ (∅, [])) as [direct_ids direct]. simpl in Ho, Hids. subst direct.
  assert (Hhe : forall e, e ∈ high <-> e ∈ entities g /\ mentioned text e) by (intros e; rewrite Hhigh; set_solver).
  assert (Hhg : forall e, e ∈ high -> e ∈ entities g) by (intros e; rewrite Hhe; tauto).
  pose proof (fun e => expansion_elem _ high 1 e (iter_ids direct_ids high Hids)) as Hm1.
  destruct (push_unseen_new g entities_unique PcMedium direct_ids _ _ (predicted PcHigh <$> high) Hm1)
    as (medium & Ho & Hnd1 & Hmed & Hids1).
  destruct (push_unseen PcMedium _ _ _) as [medium_ids out]. simpl in Ho, Hids1. subst out.
  assert (Hme : forall e, e ∈ medium <->
    e ∈ entities g /\ within_hops g (e_id <$> high) 1 (e_id e) /\ e ∉ high).
  { intros e. rewrite Hmed, Hids. split; intros (He & Hw & Hn); (split_and!; [done|done|]);
      intros Hin; apply Hn; by apply (id_in_entities e high). }
  assert (Hmg : forall e, e ∈ medium -> e ∈ entities g) by (intros e; rewrite Hme; tauto).
  eexists high, medium, _. split; [by rewrite Heq, <-app_assoc|]. split_and!; [done|done| |done|done|].
  - intros e. rewrite list_elem_of_filter.
    rewrite (expansion_elem _ (high ++ medium)), Hids, Hids1.
    + split.
      * intros ([Hn1 Hn2] & He & Hw). split_and!; [done|done|..]; intros Hin;
          [apply Hn1|apply Hn2]; by apply list_elem_of_fmap_2.
      * intros (He & Hw & Hn1 & Hn2). split_and!; [| |done|done]; intros Hin;
          [apply Hn1|apply Hn2]; by apply id_in_entities in Hin.
    + intros x. rewrite fmap_app, !elem_of_app. by rewrite (iter_ids _ _ Hids), (iter_ids _ _ Hids1).
  - apply NoDup_filter, reachable_entities_NoDup. by eapply NoDup_fmap_1.
Qed.

Lemma predict_scope_files text :
  let p := predict_scope text g in
  sp_files p = first_occurrences ∅ (pe_file_path <$> sp_entities p) /\
  sp_blast_radius p = length (sp_entities p).
Proof using.
  unfold predict_scope. destruct (extract_keywords text) as [|kw kws]; [done|].
  destruct (foldl _ _ _). by destruct (if decide _ then _ else _).
Qed.

(** The prediction lists, in this order and each once, the entities whose name
    contains a keyword, then the others one relationship away from those, then the
    others at most two relationships away from any listed so far; with the distinct
    files they lie in and their number. *)
Theorem predict_scope_spec text :
  let p := predict_scope text g in
  exists high medium low : list Entity,
    sp_entities p =
      (predicted PcHigh <$> high) ++ (predicted PcMedium <$> medium) ++ (predicted PcLow <$> low) /\
    (forall e, e ∈ high <-> e ∈ entities g /\ mentioned text e) /\
    (forall e, e ∈ medium <-> e ∈ entities g /\ within_hops g (e_id <$> high) 1 (e_id e) /\ e ∉ high) /\
    (forall e, e ∈ low <-> e ∈ entities g /\ within_hops g (e_id <$> (high ++ medium)) 2 (e_id e) /\
                           (e ∉ high) /\ e ∉ medium) /\
    NoDup (pe_id <$> sp_entities p) /\
    NoDup (sp_files p) /\ (forall f, f ∈ sp_files p <-> f ∈ pe_file_path <$> sp_entities p) /\
    sp_blast_radius p = length (sp_entities p).
Proof using entities_unique iter_order_perm.
  intros p. destruct (predict_scope_lists text) as (high & medium & low & He & Hh & Hm & Hl & N1 & N2 & N3).
  destruct (predict_scope_files text) as [Hf Hb]. fold p in He, Hf, Hb.
  exists high, medium, low. rewrite Hf. split_and!; try done.
  - assert (pe_id <$> sp_entities p = e_id <$> (high ++ medium ++ low)) as ->.
    { rewrite He, !fmap_app, <-!list_fmap_compose. done. }
    assert (NoDup (high ++ medium ++ low)) as Hnd.
    { rewrite !NoDup_app. set_solver. }
    apply NoDup_fmap_2_strong; [|done]. intros x y Hx Hy Hid.
    apply (entity_by_id g entities_unique); [..|done]; set_solver.
  - apply first_occurrences_NoDup.
  - intros f. rewrite first_occurrences_elem. set_solver.
Qed.
End prediction.

(** ** The queue *)

Inductive WorkQueueError : Type :=
  | WqIssue (e : IssueError)
  | WqWorkspace (e : Workspace.WorkspaceError)
  | WqIo
  | IssueNotOpen (id : Uuid)
  | IssueConflicting (id : Uuid).

Record AvailableWork : Type := mkAvailable {
  aw_issue_id : string;
  aw_title : string;
  aw_priority : string;
  aw_scope : ScopePrediction
}.

Record BlockedWork : Type := mkBlocked {
  bw_issue_id : string;
  bw_title : string;
  bw_priority : string;
  blocked_by : list string;
  bw_reason : string
}.

Record ClaimResult : Type := mkClaim {
  cl_issue_id : string;
  cl_workspace_id : string;
  cl_intent : string;
  cl_scope : ScopePrediction
}.

(** What the queue works on: the metadata directory, the issue store, and the log
    that is opened on the directory [.vai] itself. *)
Record Repo : Type := mkRepo {
  r_vai : VaiDir;
  r_issues : IssueStore;
  r_root_log : EventLog
}.

Definition priority_rank (priority : string) : nat :=
  if String.eqb priority "critical" then 0
  else if String.eqb priority "high" then 1
  else if String.eqb priority "medium" then 2
  else if String.eqb priority "low" then 3
  else 4.

(** [file_conflict || entity_conflict] *)
Definition conflicts_with (p : ScopePrediction) (s : WorkspaceScope) : bool :=
  negb (bool_decide (file_set p ∩ write_files s = ∅)) ||
  negb (bool_decide (entity_ids p ∩ blast_radius s = ∅)).

Section queue.
(** The iteration order of the engine's hash map, and what the issue store leaves open. *)
Variable values : Engine -> list WorkspaceScope.
Variable source_from_json : string -> option AgentSource.
Variable criteria_from_json : string -> option (list string).
Variable clock : nat -> DateTime.
Variable uuid : nat -> Uuid.
Variable scan : forall A, list A -> list A.

Definition open_issues (st : IssueStore) : list Issue :=
  list_issues source_from_json criteria_from_json scan
    (mkFilter (Some [Open]) None None None None) st.

Definition issue_scope (g : GraphSnapshot) (i : Issue) : ScopePrediction :=
  predict_scope (i_title i +:+ " " +:+ i_description i) g.

Definition available_of (g : GraphSnapshot) (i : Issue) : AvailableWork :=
  mkAvailable (i_id i) (i_title i) (priority_as_str (i_priority i)) (issue_scope g i).

Definition quote : string := String "034" EmptyString.

Definition blocked_of (i : Issue) (conflicting : list WorkspaceScope) : BlockedWork :=
  mkBlocked (i_id i) (i_title i) (priority_as_str (i_priority i)) (sc_workspace_id <$> conflicting)
    (join "; " ((fun s => "workspace " +:+ sc_workspace_id s +:+
       " is modifying related code (intent: " +:+ quote +:+ sc_intent s +:+ quote +:+ ")") <$> conflicting)).

(** One pass over the open issues. *)
Fixpoint classify_issues (g : GraphSnapshot) (scopes : list WorkspaceScope) (l : list Issue)
    (available : list AvailableWork) (blocked : list BlockedWork) :
    list AvailableWork * list BlockedWork :=
  match l with
  | [] => (available, blocked)
  | i :: l' =>
      match filter (fun s => conflicts_with (issue_scope g i) s = true) scopes with
      | [] => classify_issues g scopes l' (available ++ [available_of g i]) blocked
      | conflicting => classify_issues g scopes l' available (blocked ++ [blocked_of i conflicting])
      end
  end.

Definition compute (w : Repo) (e : Engine) : list AvailableWork * list BlockedWork :=
  let '(available, blocked) :=
    classify_issues (graph (r_vai w)) (values e) (open_issues (r_issues w)) [] [] in
  (sort_by (fun a b => priority_rank (aw_priority a) <=? priority_rank (aw_priority b)) available,
   sort_by (fun a b => priority_rank (bw_priority a) <=? priority_rank (bw_priority b)) blocked).

(** ** Claiming *)

(** A call on the workspaces, and a call on the issue store with the log of the
    directory itself; both draw from the same clock and identifiers. *)
Definition in_workspaces {A} (m : Workspace.W A) : M Repo WorkQueueError A := fun w =>
  let '(r, v) := m (r_vai w) in (map_err WqWorkspace r, mkRepo v (r_issues w) (r_root_log w)).

Definition in_issues {A} (m : M Tracker IssueError A) : M Repo WorkQueueError A := fun w =>
  let v := r_vai w in
  let '(r, k) := m (mkTracker (r_issues w) (r_root_log w) (draws v) (ticks v)) in
  (map_err WqIssue r,
   mkRepo (set_ticks (tk_ticks k) (set_draws (tk_draws k) v)) (tk_store k) (tk_log k)).

Definition claim (issue_id : Uuid) (e : Engine) : M Repo WorkQueueError ClaimResult :=
  issue ← in_issues (get source_from_json criteria_from_json issue_id);
  if bool_decide (i_status issue <> Open) then fail (IssueNotOpen issue_id)
  else
    w ← get_st;
    let prediction := issue_scope (graph (r_vai w)) issue in
    if existsb (conflicts_with prediction) (values e) then fail (IssueConflicting issue_id)
    else
      match read_head (r_vai w) with
      | None => fail WqIo
      | Some head =>
          ws ← in_workspaces (Workspace.create clock uuid (i_title issue) head);
          _ ← in_issues (set_in_progress source_from_json criteria_from_json clock issue_id (ws_id ws));
          mret (mkClaim issue_id (ws_id ws) (i_title issue) prediction)
      end.

(** ** What the queue and the claim show *)

(** A file of the prediction is written by the workspace, or one of its entities
    lies in the workspace's blast radius. *)
Definition overlaps (p : ScopePrediction) (s : WorkspaceScope) : Prop :=
  (exists f, f ∈ sp_files p /\ f ∈ write_files s) \/
  (exists x, x ∈ pe_id <$> sp_entities p /\ x ∈ blast_radius s).

Lemma conflicts_with_spec p s : conflicts_with p s = true <-> overlaps p s.
Proof using.
  clear. unfold conflicts_with, overlaps. rewrite orb_true_iff, !negb_true_iff, !bool_decide_eq_false.
  unfold file_set, entity_ids. split.
  - intros [H|H]; [left|right]; apply set_choose_L in H as [x Hx]; exists x; set_solver.
  - intros [(x & H1 & H2)|(x & H1 & H2)]; [left|right]; intros He; apply (not_elem_of_empty (C:=gset string) x);
      rewrite <-He; apply elem_of_intersection; split; [|done| |done]; by apply elem_of_list_to_set.
Qed.

Lemma classify_issues_spec g scopes l av bl :
  let busy i := filter (fun s => conflicts_with (issue_scope g i) s = true) scopes in
  classify_issues g scopes l av bl =
  (av ++ (available_of g <$> filter (fun i => busy i = []) l),
   bl ++ ((fun i => blocked_of i (busy i)) <$> filter (fun i => busy i <> []) l)).
Proof using.
  intros busy. revert av bl. induction l as [|i l IH]; intros av bl; simpl; [by rewrite !app_nil_r|].
  fold (busy i). destruct (busy i) as [|s c] eqn:E; rewrite IH.
  - rewrite (filter_cons_True (fun i => busy i = [])) by done.
    rewrite (filter_cons_False (fun i => busy i <> [])) by (intros H; done).
    by rewrite <-app_assoc.
  - rewrite (filter_cons_False (fun i => busy i = [])) by (by rewrite E).
    rewrite (filter_cons_True (fun i => busy i <> [])) by (by rewrite E).
    simpl. by rewrite E, <-app_assoc.
Qed.

(** The queue splits the open issues: each appears once, as available exactly
    when no tracked workspace overlaps its predicted scope, and otherwise as
    blocked by exactly the overlapping workspaces; both lists come in the order of
    priority. *)
Theorem compute_spec w e :
  let '(av, bl) := compute w e in
  let scope := issue_scope (graph (r_vai w)) in
  (aw_issue_id <$> av) ++ (bw_issue_id <$> bl) ≡ₚ i_id <$> open_issues (r_issues w) /\
  (forall a, a ∈ av <-> exists i, i ∈ open_issues (r_issues w) /\
     a = available_of (graph (r_vai w)) i /\ forall s, s ∈ values e -> ~ overlaps (scope i) s) /\
  (forall b, b ∈ bl -> exists i, i ∈ open_issues (r_issues w) /\ bw_issue_id b = i_id i /\
     blocked_by b <> [] /\
     forall x, x ∈ blocked_by b <-> exists s, s ∈ values e /\ sc_workspace_id s = x /\ overlaps (scope i) s) /\
  StronglySorted (fun a b => priority_rank (aw_priority a) <= priority_rank (aw_priority b)) av /\
  StronglySorted (fun a b => priority_rank (bw_priority a) <= priority_rank (bw_priority b)) bl.
Proof using.
  unfold compute. rewrite classify_issues_spec. simpl. set (g := graph (r_vai w)).
  set (l := open_issues (r_issues w)).
  set (busy := fun i => filter (fun s => conflicts_with (issue_scope g i) s = true) (values e)).
  assert (Hb : forall i s, s ∈ busy i <-> s ∈ values e /\ overlaps (issue_scope g i) s).
  { intros i s. unfold busy. rewrite list_elem_of_filter, conflicts_with_spec. tauto. }
  split_and!.
  - rewrite !sort_by_perm, <-!list_fmap_compose. 
    rewrite <-(filter_app_complement (fun i => busy i = []) l) at 3. by rewrite fmap_app.
  - intros a. rewrite sort_by_elem_of, list_elem_of_fmap. setoid_rewrite list_elem_of_filter. split.
    + intros (i & -> & Hi & Hin). exists i. split_and!; [done|done|]. intros s Hs Ho.
      apply (not_elem_of_nil s). change (busy i = []) in Hi. rewrite <-Hi. by apply Hb.
    + intros (i & Hin & -> & Hn). exists i. split_and!; [done| |done].
      apply elem_of_nil_inv. intros s [Hs Ho]%Hb. by apply (Hn s).
  - intros b. rewrite sort_by_elem_of, list_elem_of_fmap. setoid_rewrite list_elem_of_filter.
    intros (i & -> & Hi & Hin). exists i. split_and!; [done|done| |].
    + intros Hn. by apply fmap_nil_inv in Hn.
    + intros x. cbn [blocked_by blocked_of]. rewrite list_elem_of_fmap. fold (busy i). setoid_rewrite Hb. naive_solver.
  - apply (sort_by_key_sorted (fun a => priority_rank (aw_priority a))).
  - apply (sort_by_key_sorted (fun b => priority_rank (bw_priority b))).
Qed.

Lemma get_row id r w :
  find_row id (r_issues w) = Some r ->
  in_issues (get source_from_json criteria_from_json id) w =
  (Ok (row_to_issue source_from_json criteria_from_json r), w).
Proof using.
  intros Hr. unfold in_issues, get. simpl. rewrite Hr. by destruct w as [[] ? ?].
Qed.

Lemma claim_not_open id e r w :
  find_row id (r_issues w) = Some r -> row_status r <> Open ->
  claim id e w = (Err (IssueNotOpen id), w).
Proof using.
  intros Hr Hs. unfold claim. rewrite (M_bind_ok _ _ _ _ _ (get_row _ _ _ Hr)).
  by rewrite bool_decide_true.
Qed.

(** The row that a claim leaves. *)
Lemma set_in_progress_eq id r ws k :
  find_row id (tk_store k) = Some r -> row_status r = Open ->
  let t := clock (tk_ticks k) in
  exists i, set_in_progress source_from_json criteria_from_json clock id ws k =
    (Ok i, mkTracker (link_workspace id ws t (update_row id (with_status InProgress None t) (tk_store k)))
       (append (clock (S (tk_ticks k))) (IssueLinkedToWorkspace id ws) (tk_log k)).2
       (tk_draws k) (S (S (tk_ticks k)))).
Proof using.
  intros Hr Hs. unfold set_in_progress. rewrite (M_bind_ok _ _ _ _ _ (get_eq _ _ id k r Hr)).
  rewrite bool_decide_false by (simpl; unfold row_status in Hs; rewrite Hs; tauto).
  exists (row_to_issue source_from_json criteria_from_json (with_status InProgress None (clock (tk_ticks k)) r)).
  unfold mbind, M_bind, record, tick, set_row_status. simpl. apply get_eq. simpl.
  assert (forall s, find_row id (link_workspace id ws (clock (tk_ticks k)) s) = find_row id s) as ->
    by (intros s; unfold link_workspace; by case_match).
  by rewrite find_row_update, decide_True, Hr by done.
Qed.

Lemma find_row_link x id ws t s : find_row x (link_workspace id ws t s) = find_row x s.
Proof using. unfold link_workspace. by case_match. Qed.

Lemma link_workspace_elem id ws t s : exists t', (id, ws, t') ∈ issue_workspace_links (link_workspace id ws t s).
Proof using.
  unfold link_workspace. destruct (existsb _ _) eqn:E.
  - apply existsb_exists in E as ([[x y] t'] & Hin%list_elem_of_In & [H1%String.eqb_eq H2%String.eqb_eq]%andb_true_iff).
    simpl in *. subst. by exists t'.
  - exists t. simpl. apply elem_of_app. right. by left.
Qed.

(** The state that a claim without a conflict leaves. *)
Lemma claim_free id r e w :
  find_row id (r_issues w) = Some r -> row_status r = Open ->
  let v := r_vai w in
  let scope := issue_scope (graph v) (row_to_issue source_from_json criteria_from_json r) in
  (forall s, s ∈ values e -> ~ overlaps scope s) ->
  claim id e w =
  match read_head v with
  | None => (Err WqIo, w)
  | Some head =>
      let ws := uuid (draws v) in
      let t := clock (ticks v) in
      let v1 := set_draws (S (draws v)) v in
      let v2 := (Workspace.create_with_id clock (ir_title r) head ws v1).2 in
      let t' := clock (ticks v2) in
      (Ok (mkClaim id ws (ir_title r) scope),
       mkRepo (set_ticks (S (S (ticks v2))) v2)
         (link_workspace id ws t' (update_row id (with_status InProgress None t') (r_issues w)))
         (append (clock (S (ticks v2))) (IssueLinkedToWorkspace id ws) (r_root_log w)).2)
  end.
Proof using.
  intros Hr Ho v scope Hno. unfold claim. rewrite (M_bind_ok _ _ _ _ _ (get_row _ _ _ Hr)).
  unfold row_status in Ho. rewrite bool_decide_false by (simpl; rewrite Ho; tauto).
  unfold mbind at 1, M_bind at 1. simpl. fold v. fold scope.
  assert (existsb (conflicts_with scope) (values e) = false) as ->.
  { apply not_true_iff_false. intros (s & Hs & Hc)%existsb_exists.
    apply (Hno s); [by apply list_elem_of_In|by apply conflicts_with_spec]. }
  destruct (read_head v) as [hd|]; [|by destruct w].
  unfold in_workspaces, Workspace.create. unfold mbind, M_bind. simpl.
  unfold in_issues. simpl.
  destruct (set_in_progress_eq id r (uuid (draws v)) (mkTracker (r_issues w) (r_root_log w) (S (draws v))
    (S (S (ticks v)))) Hr Ho) as [i Hi].
  fold v. rewrite Hi. simpl. done.
Qed.

(** A claim fails and changes nothing when there is no such issue, when the
    issue is not open, when a tracked workspace overlaps its predicted scope, or
    when there is no HEAD. Otherwise it succeeds: a workspace with the issue's
    title as intent is created on HEAD and becomes the active one, the issue is in
    progress and linked to it, and every later claim of the issue is refused. The
    link is recorded in the log of the directory itself, the creation of the
    workspace in the event log. *)
Theorem claim_spec id e w :
  match find_row id (r_issues w) with
  | None => claim id e w = (Err (WqIssue (NotFound id)), w)
  | Some r =>
      let scope := issue_scope (graph (r_vai w)) (row_to_issue source_from_json criteria_from_json r) in
      (row_status r <> Open -> claim id e w = (Err (IssueNotOpen id), w)) /\
      (row_status r = Open -> (exists s, s ∈ values e /\ overlaps scope s) ->
       claim id e w = (Err (IssueConflicting id), w)) /\
      (row_status r = Open -> (forall s, s ∈ values e -> ~ overlaps scope s) ->
       match read_head (r_vai w) with
       | None => claim id e w = (Err WqIo, w)
       | Some head =>
           let ws := uuid (draws (r_vai w)) in
           exists w', claim id e w = (Ok (mkClaim id ws (ir_title r) scope), w') /\
             (exists t, workspaces (r_vai w') =
                <[ws := mkWs ws (ir_title r) head WsCreated t t None []]> (workspaces (r_vai w))) /\
             active_file (r_vai w') = Some ws /\
             ev_kind <$> log (r_vai w') = (ev_kind <$> log (r_vai w)) ++ [WorkspaceCreated ws (ir_title r) head] /\
             status_of (r_issues w') id = Some InProgress /\
             (forall x, x <> id -> find_row x (r_issues w') = find_row x (r_issues w)) /\
             (exists t, (id, ws, t) ∈ issue_workspace_links (r_issues w')) /\
             ev_kind <$> r_root_log w' = (ev_kind <$> r_root_log w) ++ [IssueLinkedToWorkspace id ws] /\
             forall e', claim id e' w' = (Err (IssueNotOpen id), w')
       end)
  end.
Proof.
  destruct (find_row id (r_issues w)) as [r|] eqn:Hr.
  2:{ unfold claim, mbind, M_bind, in_issues, get. simpl. rewrite Hr. by destruct w as [[] ? ?]. }
  intros scope. split_and!; [by apply claim_not_open|..]; intros Ho.
  - intros (s & Hs & Hov). unfold claim. rewrite (M_bind_ok _ _ _ _ _ (get_row _ _ _ Hr)).
    unfold row_status in Ho. rewrite bool_decide_false by (simpl; rewrite Ho; tauto).
    unfold mbind, M_bind. simpl. fold scope.
    assert (existsb (conflicts_with scope) (values e) = true) as ->; [|done].
    apply existsb_exists. exists s. by rewrite <-list_elem_of_In, conflicts_with_spec.
  - intros Hno. destruct (read_head (r_vai w)) as [hd|] eqn:Hh;
      [|by rewrite (claim_free id r e w Hr Ho Hno), Hh].
    pose proof (claim_free id r e w Hr Ho Hno) as Hc. rewrite Hh in Hc. simpl in Hc.
    eexists. split; [exact Hc|]. simpl. split_and!.
    + by eexists.
    + done.
    + by rewrite fmap_app.
    + unfold status_of. rewrite find_row_link, find_row_update, decide_True, Hr by done. done.
    + intros x Hx. by rewrite find_row_link, find_row_update, decide_False by done.
    + apply link_workspace_elem.
    + by rewrite fmap_app.
    + intros e'. eapply claim_not_open; simpl.
      * by rewrite find_row_link, find_row_update, decide_True, Hr by done.
      * done.
Qed.
End queue.
End predict.

(** ** Witnesses *)

(** A chain of calls: [parser - lexer - token - cursor]. *)
Definition wit_graph : GraphSnapshot :=
  mkSnapshot
    ((fun n => mkEntity n Function n n "a.rs" (0, 1) (1, 1) None) <$>
       ["parser"; "lexer"; "token"; "cursor"]%string)
    [mkRelationship "r1" Calls "parser" "lexer"; mkRelationship "r2" Calls "lexer" "token";
     mkRelationship "r3" Calls "token" "cursor"].

Definition wit_iter (X : gset string) : list string := elements X.

(** The last entity is three relationships away from the keyword's. *)
Lemma predict_scope_spec_witness :
  sp_entities (@predict_scope ascii_unicode wit_iter "Parser bug" wit_graph) =
    [mkPredicted "parser" "parser" "a.rs" PcHigh; mkPredicted "lexer" "lexer" "a.rs" PcMedium;
     mkPredicted "token" "token" "a.rs" PcLow; mkPredicted "cursor" "cursor" "a.rs" PcLow] /\
  NoDup (pe_id <$> sp_entities (@predict_scope ascii_unicode wit_iter "Parser bug" wit_graph)).
Proof.
  split; [vm_compute; reflexivity|].
  destruct (@predict_scope_spec ascii_unicode wit_iter wit_graph (fun X => Permutation_refl _)
    ltac:(apply (bool_decide_unpack _); vm_compute; exact I) "Parser bug")
    as (high & medium & low & _ & _ & _ & _ & H & _).
  exact H.
Defined.

Definition wit_repo : Repo :=
  mkRepo (mkVai (Some "v1"%string) ∅ ∅ None ∅ ∅ [] wit_graph 0 0)
    (tk_store (wit_op (OpCreate "Parser bug" "" PrHigh [] "alice") wit_tracker)) [].

Definition wit_values (e : Engine) : list WorkspaceScope := (map_to_list e).*2.

Lemma claim_spec_witness :
  exists w' scope,
    @claim ascii_unicode wit_iter wit_values wit_source wit_criteria wit_clock wit_uuid "" ∅ wit_repo =
      (Ok (mkClaim "" "" "Parser bug" scope), w') /\
    status_of (r_issues w') "" = Some InProgress /\
    ev_kind <$> r_root_log w' = [IssueLinkedToWorkspace "" ""].
Proof.
  pose proof (@claim_spec ascii_unicode wit_iter wit_values wit_source wit_criteria wit_clock wit_uuid
    "" ∅ wit_repo) as H.
  destruct (find_row "" (r_issues wit_repo)) as [r|] eqn:Hr; [|discriminate].
  destruct H as (_ & _ & H). injection Hr as <-.
  destruct (H eq_refl ltac:(intros s Hs; vm_compute in Hs; inversion Hs)) as (w' & Hc & _ & _ & _ & Hst & _ & _ & Hl & _).
  exists w'. eexists. split; [exact Hc|]. split; [exact Hst|exact Hl].
Defined.
