(* ===== verification/Escalation.v ===== *)
(** Escalations ([src/src/escalation/mod.rs]): the table of situations that wait
    for a human decision, their life cycle [Pending -> Resolved], and the events
    that record it. A JSON or enumeration column is the value that its text
    stands for. *)
From S2P Require Import Prelude Table RustStr EventLog Replay.

Inductive EscalationType : Type := MergeConflict | IntentConflict | ReviewRequest | ValidationFailure.
Inductive EscalationSeverity : Type := EsHigh | EsCritical.
Inductive ResolutionOption : Type :=
  | KeepAgentA | KeepAgentB | SendBackToAgentA | SendBackToAgentB | PauseBoth.
Inductive EscalationStatus : Type := EsPending | EsResolved.

#[export] Instance ResolutionOption_eq_dec : EqDecision ResolutionOption.
Proof. solve_decision. Defined.
#[export] Instance EscalationStatus_eq_dec : EqDecision EscalationStatus.
Proof. solve_decision. Defined.

Definition type_as_str (t : EscalationType) : string :=
  match t with
  | MergeConflict => "merge_conflict"
  | IntentConflict => "intent_conflict"
  | ReviewRequest => "review_request"
  | ValidationFailure => "validation_failure"
  end.

Definition type_from_db_str (s : string) : option EscalationType :=
  if String.eqb s "merge_conflict" then Some MergeConflict
  else if String.eqb s "intent_conflict" then Some IntentConflict
  else if String.eqb s "review_request" then Some ReviewRequest
  else if String.eqb s "validation_failure" then Some ValidationFailure
  else None.

Definition esc_severity_as_str (s : EscalationSeverity) : string :=
  match s with EsHigh => "high" | EsCritical => "critical" end.

Definition esc_severity_from_db_str (s : string) : option EscalationSeverity :=
  if String.eqb s "high" then Some EsHigh
  else if String.eqb s "critical" then Some EsCritical
  else None.

Definition option_as_str (o : ResolutionOption) : string :=
  match o with
  | KeepAgentA => "keep_agent_a"
  | KeepAgentB => "keep_agent_b"
  | SendBackToAgentA => "send_back_to_agent_a"
  | SendBackToAgentB => "send_back_to_agent_b"
  | PauseBoth => "pause_both"
  end.

Definition option_from_db_str (s : string) : option ResolutionOption :=
  if String.eqb s "keep_agent_a" then Some KeepAgentA
  else if String.eqb s "keep_agent_b" then Some KeepAgentB
  else if String.eqb s "send_back_to_agent_a" then Some SendBackToAgentA
  else if String.eqb s "send_back_to_agent_b" then Some SendBackToAgentB
  else if String.eqb s "pause_both" then Some PauseBoth
  else None.

Definition option_label (o : ResolutionOption) : string :=
  match o with
  | KeepAgentA => "Keep agent A's changes"
  | KeepAgentB => "Keep agent B's changes"
  | SendBackToAgentA => "Send back to agent A with context"
  | SendBackToAgentB => "Send back to agent B with context"
  | PauseBoth => "Pause both workspaces"
  end.

Definition esc_status_as_str (s : EscalationStatus) : string :=
  match s with EsPending => "pending" | EsResolved => "resolved" end.

Definition esc_status_from_db_str (s : string) : option EscalationStatus :=
  if String.eqb s "pending" then Some EsPending
  else if String.eqb s "resolved" then Some EsResolved
  else None.

Record EscalationConflict : Type := mkEsConflict {
  ec_file : string;
  ec_merge_level : Z;
  ec_entity_ids : list string;
  ec_description : string;
  ours_content : option string;
  theirs_content : option string;
  base_content : option string
}.

Record Escalation : Type := mkEscalation {
  esc_id : Uuid;
  escalation_type : EscalationType;
  esc_severity : EscalationSeverity;
  esc_status : EscalationStatus;
  esc_summary : string;
  esc_intents : list string;
  esc_agents : list string;
  esc_workspace_ids : list Uuid;
  affected_entities : list string;
  esc_conflicts : list EscalationConflict;
  resolution_options : list ResolutionOption;
  esc_resolution : option ResolutionOption;
  resolved_by : option string;
  esc_created_at : DateTime;
  resolved_at : option DateTime
}.

Inductive EscalationError : Type :=
  | EsSqlite
  | EsNotFound (id : Uuid)
  | AlreadyResolved (id : Uuid).

Definition is_pending (e : Escalation) : bool := bool_decide (esc_status e = EsPending).

Definition default_resolution_options (t : EscalationType) (workspace_ids : list Uuid) :
    list ResolutionOption :=
  match t with
  | MergeConflict | IntentConflict =>
      if 2 <=? length workspace_ids
      then [KeepAgentA; KeepAgentB; SendBackToAgentA; SendBackToAgentB; PauseBoth]
      else [SendBackToAgentA; PauseBoth]
  | ReviewRequest => [KeepAgentA; SendBackToAgentA; PauseBoth]
  | ValidationFailure => [SendBackToAgentA; PauseBoth]
  end.

(** ** The store *)

Record Desk : Type := mkDesk {
  escalations : list Escalation;
  dk_log : EventLog;
  dk_draws : nat;
  dk_ticks : nat
}.

Definition find_escalation (id : Uuid) (l : list Escalation) : option Escalation :=
  find_by esc_id id l.

(** [SET status = 'resolved', resolution, resolved_by, resolved_at] *)
Definition resolved_as (o : ResolutionOption) (by_ : string) (now : DateTime) (e : Escalation) : Escalation :=
  mkEscalation (esc_id e) (escalation_type e) (esc_severity e) EsResolved (esc_summary e) (esc_intents e)
    (esc_agents e) (esc_workspace_ids e) (affected_entities e) (esc_conflicts e) (resolution_options e)
    (Some o) (Some by_) (esc_created_at e) (Some now).

Section store.
Variable clock : nat -> DateTime.
Variable uuid : nat -> Uuid.
Variable scan : list Escalation -> list Escalation.

Abbreviation K := (M Desk EscalationError).

Definition tick : K DateTime := fun k =>
  (Ok (clock (dk_ticks k)), mkDesk (escalations k) (dk_log k) (dk_draws k) (S (dk_ticks k))).

Definition new_uuid : K Uuid := fun k =>
  (Ok (uuid (dk_draws k)), mkDesk (escalations k) (dk_log k) (S (dk_draws k)) (dk_ticks k)).

Definition record (kind : EventKind) : K unit :=
  t ← tick;
  modify_st (fun k => mkDesk (escalations k) (append t kind (dk_log k)).2 (dk_draws k) (dk_ticks k)).

Definition set_escalations (f : list Escalation -> list Escalation) : K unit :=
  modify_st (fun k => mkDesk (f (escalations k)) (dk_log k) (dk_draws k) (dk_ticks k)).

Definition create (t : EscalationType) (sev : EscalationSeverity) (summary : string)
    (intents agents : list string) (workspace_ids : list Uuid) (affected : list string)
    (conflicts : list EscalationConflict) : K Escalation :=
  id ← new_uuid;
  now ← tick;
  let e := mkEscalation id t sev EsPending summary intents agents workspace_ids affected conflicts
             (default_resolution_options t workspace_ids) None None now None in
  k ← get_st;
  match find_escalation id (escalations k) with
  | Some _ => fail EsSqlite
  | None =>
      _ ← set_escalations (fun l => l ++ [e]);
      _ ← record (EscalationCreated id (type_as_str t) (esc_severity_as_str sev) workspace_ids summary);
      mret e
  end.

Definition get (id : Uuid) : K Escalation := fun k =>
  (match find_escalation id (escalations k) with Some e => Ok e | None => Err (EsNotFound id) end, k).

(** [ORDER BY created_at DESC] *)
Definition list_escalations (status : option EscalationStatus) (k : Desk) : list Escalation :=
  sort_by (fun a b => (esc_created_at b <=? esc_created_at a)%Z)
    (filter (fun e => match status with Some s => bool_decide (esc_status e = s) | None => true end = true)
       (scan (escalations k))).

Definition resolve (id : Uuid) (o : ResolutionOption) (by_ : string) : K Escalation :=
  e ← get id;
  if bool_decide (esc_status e = EsResolved) then fail (AlreadyResolved id)
  else
    now ← tick;
    _ ← set_escalations (update_by esc_id id (resolved_as o by_ now));
    _ ← record (EscalationResolved id (option_as_str o) by_);
    mret (resolved_as o by_ now e).

Definition count_pending (k : Desk) : nat :=
  length (filter (fun e => esc_status e = EsPending) (escalations k)).

(** ** The life cycle and its record in the log *)

Inductive desk_step : Desk -> Desk -> Prop :=
  | step_create t sev summary intents agents ws affected conflicts k :
      desk_step k (create t sev summary intents agents ws affected conflicts k).2
  | step_resolve id o by_ k : desk_step k (resolve id o by_ k).2
  | step_other kind k :
      match kind with EscalationCreated _ _ _ _ _ | EscalationResolved _ _ _ => False | _ => True end ->
      desk_step k (record kind k).2.

(** What a table shows of an escalation: its status, and who resolved it how. *)
Record Standing : Type := mkStanding {
  sd_status : EscalationStatus;
  sd_resolution : option string;
  sd_by : option string
}.

Definition standing_of (e : Escalation) : Standing :=
  mkStanding (esc_status e) (option_as_str <$> esc_resolution e) (resolved_by e).

Definition standing (k : Desk) (id : Uuid) : option Standing :=
  standing_of <$> find_escalation id (escalations k).

(** An escalation is created once, pending, and resolved at most once. *)
Definition replay_escalation (id : Uuid) (st : option Standing) (kind : EventKind) :
    option (option Standing) :=
  match kind with
  | EscalationCreated i _ _ _ _ =>
      if decide (i = id) then
        match st with None => Some (Some (mkStanding EsPending None None)) | Some _ => None end
      else Some st
  | EscalationResolved i resolution by_ =>
      if decide (i = id) then
        match st with
        | Some (mkStanding EsPending _ _) => Some (Some (mkStanding EsResolved (Some resolution) (Some by_)))
        | _ => None
        end
      else Some st
  | _ => Some st
  end.

(** Ids are unique, and a pending escalation has no resolution. *)
Definition desk_ok (k : Desk) : Prop :=
  NoDup (esc_id <$> escalations k) /\
  Forall (fun e => esc_status e = EsPending -> esc_resolution e = None /\ resolved_by e = None) (escalations k).

Abbreviation desk_evolves := (evolves replay_escalation standing dk_log desk_ok).

Lemma evolves_quiet k k' : escalations k' = escalations k -> dk_log k' = dk_log k -> desk_evolves k k'.
Proof.
  intros He Hl. apply evolves_silent; [unfold desk_ok; by rewrite He| |done].
  intros id. unfold standing. by rewrite He.
Qed.

Lemma option_as_str_inj a b : option_as_str a = option_as_str b <-> a = b.
Proof. by destruct a, b. Qed.

Lemma option_from_as o : option_from_db_str (option_as_str o) = Some o.
Proof. by destruct o. Qed.

Lemma raise_evolves t sev summary intents agents ws affected conflicts k :
  desk_evolves k (create t sev summary intents agents ws affected conflicts k).2.
Proof.
  unfold create, mbind, M_bind. simpl. destruct (find_escalation _ _) eqn:E; simpl; [by apply evolves_quiet|].
  eapply evolves_one; simpl; [|by rewrite fmap_app|].
  - intros [Hnd Hf]. split; simpl; [by apply snoc_keys_NoDup|].
    apply Forall_app. split; [done|]. by apply Forall_singleton.
  - intros _ x. unfold standing, find_escalation in *. simpl. rewrite find_by_snoc. simpl.
    case_decide as Hx; [|by destruct (find_by _ x _)]. subst x. by rewrite E.
Qed.

Lemma answer_evolves id o by_ k : desk_evolves k (resolve id o by_ k).2.
Proof.
  unfold resolve, get. unfold mbind at 1, M_bind at 1.
  destruct (find_escalation id (escalations k)) as [e|] eqn:E; [|by apply evolves_quiet].
  case_bool_decide as Hs; [by apply evolves_quiet|]. unfold mbind, M_bind. simpl.
  eapply evolves_one; simpl; [|by rewrite fmap_app|].
  - intros [Hnd Hf]. split; simpl; [by rewrite update_by_keys|]. by apply update_by_Forall.
  - intros Hok x. unfold standing, find_escalation in *. simpl.
    rewrite find_by_update by done.
    destruct (decide (id = x)) as [<-|Hx]; [|by rewrite decide_False by done].
    rewrite decide_True by done. destruct Hok as [_ Hf]. pose proof (find_by_Some _ _ _ _ E) as [Hin _].
    rewrite Forall_forall in Hf. rewrite E. simpl. unfold standing_of.
    destruct (esc_status e); [|done]. done.
Qed.

Lemma evolves_step k k' : desk_step k k' -> desk_evolves k k'.
Proof.
  intros [t sev summary intents agents ws affected conflicts k1|id o by_ k1|kind k1 Hk].
  - apply raise_evolves.
  - apply answer_evolves.
  - eapply evolves_one; [done|unfold record, append; simpl; by rewrite fmap_app|].
    intros _ x. by destruct kind.
Qed.

(** Whatever escalations are created and resolved, and whatever else is
    logged in between, the log tells of each escalation that it was created once
    and resolved at most once after that, and it agrees with the table on the
    status, the option chosen and who chose it; ids stay unique and what is pending
    has no resolution. *)
Theorem desk_reachable_replayed k0 k id :
  escalations k0 = [] -> dk_log k0 = [] -> rtc desk_step k0 k ->
  desk_ok k /\ replay replay_escalation id (ev_kind <$> dk_log k) None = Some (standing k id).
Proof.
  intros He Hl Hr.
  destruct (reachable_replayed replay_escalation standing dk_log desk_ok desk_step k0 k evolves_step)
    as [Hok Hall]; [|done| |done|by split; [|apply Hall]].
  - unfold desk_ok. rewrite He. split; constructor.
  - intros x. unfold standing. by rewrite He.
Qed.

(** Resolving a pending escalation succeeds with any option, offered or not:
    it marks the escalation resolved, and changes no other. Resolving it again
    fails and changes nothing; so does resolving what does not exist. *)
Theorem resolve_spec id o by_ k :
  match find_escalation id (escalations k) with
  | None => resolve id o by_ k = (Err (EsNotFound id), k)
  | Some e =>
      if bool_decide (esc_status e = EsResolved) then resolve id o by_ k = (Err (AlreadyResolved id), k)
      else exists e' k', resolve id o by_ k = (Ok e', k') /\
        find_escalation id (escalations k') = Some e' /\
        esc_status e' = EsResolved /\ esc_resolution e' = Some o /\ resolved_by e' = Some by_ /\
        resolution_options e' = resolution_options e /\
        (forall x, x <> id -> find_escalation x (escalations k') = find_escalation x (escalations k)) /\
        forall o' by', resolve id o' by' k' = (Err (AlreadyResolved id), k')
  end.
Proof.
  destruct (find_escalation id (escalations k)) as [e|] eqn:E;
    [|unfold resolve, get, mbind, M_bind; by rewrite E].
  assert (get id k = (Ok e, k)) as Hg by (unfold get; by rewrite E).
  case_bool_decide as Hs.
  { unfold resolve. rewrite (M_bind_ok _ _ _ _ _ Hg). by rewrite bool_decide_true. }
  assert (forall now, find_escalation id (update_by esc_id id (resolved_as o by_ now) (escalations k)) =
    Some (resolved_as o by_ now e)) as Hf.
  { intros now. unfold find_escalation in *. by rewrite find_by_update, decide_True, E by done. }
  eexists _, _. split.
  { unfold resolve. rewrite (M_bind_ok _ _ _ _ _ Hg), bool_decide_false by done. reflexivity. }
  simpl. split_and!; [apply Hf|done..| |].
  - intros x Hx. unfold find_escalation. by rewrite find_by_update, decide_False by done.
  - intros o' by'. unfold resolve, get, mbind, M_bind. simpl. by rewrite Hf.
Qed.
End store.

(** ** Witness *)

Definition wit_clock (n : nat) : DateTime := Z.of_nat n.
Definition wit_uuid (n : nat) : Uuid := string_of (replicate n "e"%char).
Definition wit_desk : Desk := mkDesk [] [] 1 0.
(** An escalation that offers two options, resolved with a third. *)
Definition wit_resolved : Desk :=
  (resolve wit_clock "e" KeepAgentB "bob"
     (create wit_clock wit_uuid MergeConflict EsHigh "conflict" [] [] ["w"%string] [] [] wit_desk).2).2.

Lemma desk_reachable_replayed_witness :
  standing wit_resolved "e" = Some (mkStanding EsResolved (Some "keep_agent_b"%string) (Some "bob"%string)) /\
  replay replay_escalation "e" (ev_kind <$> dk_log wit_resolved) None = Some (standing wit_resolved "e").
Proof.
  split; [vm_compute; reflexivity|].
  apply (desk_reachable_replayed wit_clock wit_uuid wit_desk wit_resolved "e"); [reflexivity|reflexivity|].
  eapply rtc_l; [apply step_create|]. eapply rtc_l; [apply step_resolve|]. apply rtc_refl.
Defined.
