(* ===== verification/MergePatterns.v ===== *)
(** The merge pattern library ([src/src/merge_patterns/mod.rs]): classification of
    conflicts, the statistics of each pattern, and the promotion of a pattern to
    automatic resolution and its demotion. *)
From S2P Require Import Prelude Table RustStr EventLog MergeEngine.

Inductive PatternType : Type :=
  | TwoAgentsAddImports
  | RenameWithStaleReference
  | TwoAgentsModifySameBody
  | TwoAgentsModifySameStruct
  | TwoAgentsAddMethods
  | ConcurrentTextualModification
  | Generic.

Definition pattern_as_str (p : PatternType) : string :=
  match p with
  | TwoAgentsAddImports => "two_agents_add_imports"
  | RenameWithStaleReference => "rename_with_stale_reference"
  | TwoAgentsModifySameBody => "two_agents_modify_same_body"
  | TwoAgentsModifySameStruct => "two_agents_modify_same_struct"
  | TwoAgentsAddMethods => "two_agents_add_methods"
  | ConcurrentTextualModification => "concurrent_textual_modification"
  | Generic => "generic"
  end.

Definition pattern_from_str (s : string) : PatternType :=
  if String.eqb s "two_agents_add_imports" then TwoAgentsAddImports
  else if String.eqb s "rename_with_stale_reference" then RenameWithStaleReference
  else if String.eqb s "two_agents_modify_same_body" then TwoAgentsModifySameBody
  else if String.eqb s "two_agents_modify_same_struct" then TwoAgentsModifySameStruct
  else if String.eqb s "two_agents_add_methods" then TwoAgentsAddMethods
  else if String.eqb s "concurrent_textual_modification" then ConcurrentTextualModification
  else Generic.

Definition pattern_description (p : PatternType) : string :=
  match p with
  | TwoAgentsAddImports => "Two agents add imports to the same file"
  | RenameWithStaleReference => "One agent renames an identifier, another adds usage of old name"
  | TwoAgentsModifySameBody => "Two agents modify the same function body differently"
  | TwoAgentsModifySameStruct => "Two agents modify the same struct definition"
  | TwoAgentsAddMethods => "Two agents add methods to the same impl block"
  | ConcurrentTextualModification => "Concurrent line-level modifications to the same file region"
  | Generic => "Generic unclassified merge conflict"
  end.

Record MergePattern : Type := mkPattern {
  p_id : Z;
  pattern_type : PatternType;
  pattern_hash : string;
  p_description : string;
  instance_count : Z;
  success_count : Z;
  auto_resolution_enabled : bool;
  disabled_by_human : bool;
  p_created_at : DateTime;
  p_updated_at : DateTime
}.

Record ResolutionInstance : Type := mkInstance {
  in_id : Z;
  in_pattern_id : Z;
  in_conflict_id : Uuid;
  in_workspace_id : Uuid;
  strategy : string;
  was_auto_resolved : bool;
  rolled_back : bool;
  in_resolved_at : DateTime
}.

Inductive MergePatternError : Type := PtSqlite | PtNotFound (id : Z).

(** The quotient that the success rate is; one when nothing was recorded. *)
Definition success_rate (p : MergePattern) : Z * Z :=
  if (instance_count p =? 0)%Z then (1, 1)%Z else (success_count p, instance_count p).

(** The code compares the [f64] quotient with [0.90]; below 2^50 instances that is
    the comparison of the rationals. *)
Definition meets_promotion_criteria (p : MergePattern) : bool :=
  negb (disabled_by_human p) && (10 <? instance_count p)%Z &&
  (9 * (success_rate p).2 <=? 10 * (success_rate p).1)%Z.

(** ** The store *)

(** [AUTOINCREMENT] hands out the next identifiers. *)
Record PatternStore : Type := mkPatternStore {
  merge_patterns : list MergePattern;
  resolution_instances : list ResolutionInstance;
  next_pattern : Z;
  next_instance : Z;
  pt_ticks : nat
}.

Definition empty_library : PatternStore := mkPatternStore [] [] 1 1 0.

Section classify.
Context {unicode : Unicode}.

Definition classify (record : ConflictRecord) : PatternType :=
  let desc := to_lowercase (description record) in
  let says w := str_contains w desc in
  if (merge_level record =? 1) then ConcurrentTextualModification
  else if says "rename"%string || says "stale"%string || says "old name"%string then RenameWithStaleReference
  else if says "import"%string || says "use statement"%string || says "use decl"%string then TwoAgentsAddImports
  else if says "struct"%string || says "field"%string then TwoAgentsModifySameStruct
  else if says "method"%string || says "impl"%string || says "associated"%string then TwoAgentsAddMethods
  else if (merge_level record =? 3) || says "function"%string || says "body"%string || says "fn "%string
  then TwoAgentsModifySameBody
  else Generic.

(** [Sha256] of a byte string, in hexadecimal. *)
Variable sha256_hex : bytes -> string.

Definition compute_hash (p : PatternType) (level : nat) : string :=
  sha256_hex (bytes_of (pattern_as_str p) ++ [ascii_of_nat level]).

Section store.
Variable clock : nat -> DateTime.
(** The order in which a query visits the instances. *)
Variable scan : list ResolutionInstance -> list ResolutionInstance.

Abbreviation P := (M PatternStore MergePatternError).

Definition tick : P DateTime := fun s =>
  (Ok (clock (pt_ticks s)), mkPatternStore (merge_patterns s) (resolution_instances s) (next_pattern s)
     (next_instance s) (S (pt_ticks s))).

Definition set_patterns (f : list MergePattern -> list MergePattern) : P unit :=
  modify_st (fun s => mkPatternStore (f (merge_patterns s)) (resolution_instances s) (next_pattern s)
    (next_instance s) (pt_ticks s)).

Definition set_instances (f : list ResolutionInstance -> list ResolutionInstance) : P unit :=
  modify_st (fun s => mkPatternStore (merge_patterns s) (f (resolution_instances s)) (next_pattern s)
    (next_instance s) (pt_ticks s)).

Definition get_pattern (id : Z) : P MergePattern := fun s =>
  (match find_by p_id id (merge_patterns s) with Some p => Ok p | None => Err (PtNotFound id) end, s).

Definition find_by_hash (hash : string) (s : PatternStore) : option MergePattern :=
  find_by pattern_hash hash (merge_patterns s).

Definition with_counts (f g : Z -> Z) (now : DateTime) (p : MergePattern) : MergePattern :=
  mkPattern (p_id p) (pattern_type p) (pattern_hash p) (p_description p) (f (instance_count p))
    (g (success_count p)) (auto_resolution_enabled p) (disabled_by_human p) (p_created_at p) now.

Definition with_auto (b : bool) (p : MergePattern) : MergePattern :=
  mkPattern (p_id p) (pattern_type p) (pattern_hash p) (p_description p) (instance_count p)
    (success_count p) b (disabled_by_human p) (p_created_at p) (p_updated_at p).

Definition update_promotion (id : Z) : P unit :=
  p ← get_pattern id;
  if disabled_by_human p then mret tt
  else set_patterns (update_by p_id id (with_auto (meets_promotion_criteria p))).

(** [INSERT INTO merge_patterns], and [last_insert_rowid()]; a row is read back
    through [from_str]. *)
Definition insert_pattern (t : PatternType) (hash : string) (now : DateTime) : P Z := fun s =>
  let id := next_pattern s in
  (Ok id, mkPatternStore
     (merge_patterns s ++ [mkPattern id (pattern_from_str (pattern_as_str t)) hash (pattern_description t) 1 1 false false now now])
     (resolution_instances s) (id + 1) (next_instance s) (pt_ticks s)).

Definition insert_instance (pattern : Z) (r : ConflictRecord) (how : string) (auto : bool)
    (now : DateTime) : P unit := fun s =>
  (Ok tt, mkPatternStore (merge_patterns s)
     (resolution_instances s ++
        [mkInstance (next_instance s) pattern (conflict_id r) (c_workspace_id r) how auto false now])
     (next_pattern s) (next_instance s + 1) (pt_ticks s)).

Definition record_resolution (r : ConflictRecord) (how : string) (auto : bool) : P MergePattern :=
  let t := classify r in
  let hash := compute_hash t (merge_level r) in
  now ← tick;
  s ← get_st;
  id ← match find_by_hash hash s with
       | Some p =>
           _ ← set_patterns (update_by p_id (p_id p) (with_counts (fun c => c + 1) (fun c => c + 1) now)%Z);
           mret (p_id p)
       | None => insert_pattern t hash now
       end;
  _ ← insert_instance id r how auto now;
  _ ← update_promotion id;
  get_pattern id.

Definition mark_rolled_back (i : ResolutionInstance) : ResolutionInstance :=
  mkInstance (in_id i) (in_pattern_id i) (in_conflict_id i) (in_workspace_id i) (strategy i)
    (was_auto_resolved i) true (in_resolved_at i).

Definition record_rollback (conflict : Uuid) : P (option MergePattern) :=
  s ← get_st;
  match head (filter (fun i => in_conflict_id i = conflict /\ rolled_back i = false)
          (scan (resolution_instances s))) with
  | None => mret None
  | Some i =>
      now ← tick;
      _ ← set_instances (update_by in_id (in_id i) mark_rolled_back);
      _ ← set_patterns (update_by p_id (in_pattern_id i)
            (with_counts (fun c => c) (fun c => Z.max 0 (c - 1)) now)%Z);
      _ ← update_promotion (in_pattern_id i);
      p ← get_pattern (in_pattern_id i);
      mret (Some p)
  end.

Definition with_disabled (b auto : bool) (now : DateTime) (p : MergePattern) : MergePattern :=
  mkPattern (p_id p) (pattern_type p) (pattern_hash p) (p_description p) (instance_count p)
    (success_count p) auto b (p_created_at p) now.

Definition disable_pattern (id : Z) : P MergePattern :=
  now ← tick;
  s ← get_st;
  match find_by p_id id (merge_patterns s) with
  | None => fail (PtNotFound id)
  | Some _ =>
      _ ← set_patterns (update_by p_id id (with_disabled true false now));
      get_pattern id
  end.

Definition enable_pattern (id : Z) : P MergePattern :=
  now ← tick;
  s ← get_st;
  match find_by p_id id (merge_patterns s) with
  | None => fail (PtNotFound id)
  | Some _ =>
      _ ← set_patterns (update_by p_id id (fun p => with_disabled false (auto_resolution_enabled p) now p));
      _ ← update_promotion id;
      get_pattern id
  end.

(** [ORDER BY instance_count DESC] *)
Definition list_patterns (s : PatternStore) : list MergePattern :=
  sort_by (fun a b => (instance_count b <=? instance_count a)%Z) (merge_patterns s).

Definition check_auto_resolution (r : ConflictRecord) (s : PatternStore) : option MergePattern :=
  p ← find_by_hash (compute_hash (classify r) (merge_level r)) s;
  if auto_resolution_enabled p then Some p else None.

(** ** The statistics are those of the instances *)

Inductive library_step : PatternStore -> PatternStore -> Prop :=
  | step_record r how auto s : library_step s (record_resolution r how auto s).2
  | step_rollback conflict s : library_step s (record_rollback conflict s).2
  | step_disable id s : library_step s (disable_pattern id s).2
  | step_enable id s : library_step s (enable_pattern id s).2.

Definition total (l : list ResolutionInstance) (id : Z) : Z :=
  Z.of_nat (length (filter (fun i => in_pattern_id i = id) l)).
Definition live (l : list ResolutionInstance) (id : Z) : Z :=
  Z.of_nat (length (filter (fun i => in_pattern_id i = id /\ rolled_back i = false) l)).

Definition pattern_ok (l : list ResolutionInstance) (p : MergePattern) : Prop :=
  instance_count p = total l (p_id p) /\ success_count p = live l (p_id p) /\
  auto_resolution_enabled p = meets_promotion_criteria p.

Record library_ok (s : PatternStore) : Prop := {
  lo_pattern_ids : NoDup (p_id <$> merge_patterns s);
  lo_pattern_next : Forall (fun p => p_id p < next_pattern s)%Z (merge_patterns s);
  lo_hashes : NoDup (pattern_hash <$> merge_patterns s);
  lo_instance_ids : NoDup (in_id <$> resolution_instances s);
  lo_instance_next : Forall (fun i => in_id i < next_instance s)%Z (resolution_instances s);
  lo_instance_pattern : Forall (fun i => in_pattern_id i ∈ p_id <$> merge_patterns s) (resolution_instances s);
  lo_counts : Forall (pattern_ok (resolution_instances s)) (merge_patterns s)
}.

(** What [update_promotion] does to the row it reads. *)
Definition promote (p : MergePattern) : MergePattern :=
  if disabled_by_human p then p else with_auto (meets_promotion_criteria p) p.

Lemma promote_ok p :
  (disabled_by_human p = true -> auto_resolution_enabled p = false) ->
  auto_resolution_enabled (promote p) = meets_promotion_criteria (promote p).
Proof.
  unfold promote. destruct (disabled_by_human p) eqn:E; [|by intros _; destruct p].
  intros ->; [|done]. unfold meets_promotion_criteria. by rewrite E.
Qed.

Lemma promote_fields p :
  p_id (promote p) = p_id p /\ pattern_hash (promote p) = pattern_hash p /\
  instance_count (promote p) = instance_count p /\ success_count (promote p) = success_count p.
Proof. unfold promote. by destruct (disabled_by_human p). Qed.

Lemma promote_id p : p_id (promote p) = p_id p.
Proof. apply promote_fields. Qed.

Lemma promote_hash p : pattern_hash (promote p) = pattern_hash p.
Proof. apply promote_fields. Qed.

Lemma update_promotion_eq id s p :
  NoDup (p_id <$> merge_patterns s) -> find_by p_id id (merge_patterns s) = Some p ->
  update_promotion id s =
  (Ok tt, mkPatternStore (update_by p_id id promote (merge_patterns s)) (resolution_instances s)
     (next_pattern s) (next_instance s) (pt_ticks s)).
Proof.
  intros Hnd Hp. unfold update_promotion, get_pattern, mbind, M_bind. rewrite Hp.
  assert (Hpr : promote p = if disabled_by_human p then p else with_auto (meets_promotion_criteria p) p) by done.
  destruct (disabled_by_human p) eqn:E.
  - rewrite (update_by_ext p_id id promote (fun x => x) _ p Hnd Hp Hpr).
    unfold update_by. destruct s; simpl. do 2 f_equal. symmetry. rewrite <-(list_fmap_id merge_patterns0) at 2.
    apply list_fmap_ext. intros i x _. by case_decide.
  - unfold set_patterns, modify_st. do 2 f_equal. by apply (update_by_ext p_id id _ _ _ p).
Qed.

Lemma total_snoc l i id : total (l ++ [i]) id = (total l id + if decide (in_pattern_id i = id) then 1 else 0)%Z.
Proof.
  unfold total. rewrite filter_app, length_app. case_decide.
  - rewrite filter_cons_True by done. simpl. lia.
  - rewrite filter_cons_False by done. simpl. lia.
Qed.

Lemma live_snoc l i id :
  rolled_back i = false ->
  live (l ++ [i]) id = (live l id + if decide (in_pattern_id i = id) then 1 else 0)%Z.
Proof.
  intros Hi. unfold live. rewrite filter_app, length_app. case_decide.
  - rewrite filter_cons_True by done. simpl. lia.
  - rewrite filter_cons_False by tauto. simpl. lia.
Qed.

Lemma rolled_back_counts l i id :
  NoDup (in_id <$> l) -> i ∈ l -> rolled_back i = false ->
  let l' := update_by in_id (in_id i) mark_rolled_back l in
  total l' id = total l id /\
  live l' id = (live l id - if decide (in_pattern_id i = id) then 1 else 0)%Z.
Proof.
  intros Hnd Hin Hi l'.
  destruct (update_by_split in_id (in_id i) l i Hnd (find_by_elem in_id _ l i Hnd Hin eq_refl))
    as (l1 & l2 & -> & Hu).
  unfold l'. rewrite Hu. unfold total, live. rewrite !filter_app, !length_app.
  rewrite (filter_cons_False (fun i => in_pattern_id i = id /\ rolled_back i = false) (mark_rolled_back i))
    by (simpl; intuition congruence).
  destruct (decide (in_pattern_id i = id)) as [Hid|Hid].
  - rewrite !filter_cons_True by done. simpl. lia.
  - rewrite !filter_cons_False by (simpl; tauto). lia.
Qed.

(** Changing the rows of one pattern, keys kept. *)
Lemma library_ok_update s id p f insts next_i t :
  library_ok s -> find_by p_id id (merge_patterns s) = Some p ->
  (forall x, p_id (f x) = p_id x) -> (forall x, pattern_hash (f x) = pattern_hash x) ->
  NoDup (in_id <$> insts) -> Forall (fun i => in_id i < next_i)%Z insts ->
  Forall (fun i => in_pattern_id i ∈ p_id <$> merge_patterns s) insts ->
  pattern_ok insts (f p) ->
  (forall x, x <> id -> total insts x = total (resolution_instances s) x /\
                        live insts x = live (resolution_instances s) x) ->
  library_ok (mkPatternStore (update_by p_id id f (merge_patterns s)) insts (next_pattern s) next_i t).
Proof.
  intros Hok Hp Hid Hh Hn Hnx Hpt Hpo Hrest. constructor; simpl.
  - rewrite update_by_keys by done. apply Hok.
  - apply update_by_Forall; [apply Hok|]. intros x _ _. by rewrite Hid.
  - destruct (update_by_split p_id id _ p (lo_pattern_ids s Hok) Hp) as (l1 & l2 & Hl & Hu). rewrite Hu.
    pose proof (lo_hashes s Hok) as Hhs. rewrite Hl in Hhs. rewrite fmap_app in *. simpl in *. by rewrite Hh.
  - done.
  - done.
  - by rewrite update_by_keys.
  - rewrite Forall_forall. intros y (x & Hx & ->)%update_by_elem. pose proof (lo_counts s Hok) as Hc.
    rewrite Forall_forall in Hc. case_decide as Hxid.
    + rewrite (find_by_elem p_id id _ x (lo_pattern_ids s Hok) Hx Hxid) in Hp. by injection Hp as ->.
    + destruct (Hrest (p_id x) Hxid) as [Ht Hl]. unfold pattern_ok. rewrite Ht, Hl. by apply Hc.
Qed.

Lemma update_promotion_after id g pats insts np ni t p :
  NoDup (p_id <$> pats) -> find_by p_id id pats = Some p -> (forall x, p_id (g x) = p_id x) ->
  update_promotion id (mkPatternStore (update_by p_id id g pats) insts np ni t) =
  (Ok tt, mkPatternStore (update_by p_id id (fun x => promote (g x)) pats) insts np ni t).
Proof.
  intros Hnd Hp Hg. rewrite (update_promotion_eq id _ (g p)); simpl.
  - do 2 f_equal. by apply update_by_twice.
  - by rewrite update_by_keys.
  - rewrite find_by_update by done. by rewrite decide_True, Hp.
Qed.

Lemma pattern_ok_promote insts p :
  instance_count p = total insts (p_id p) -> success_count p = live insts (p_id p) ->
  (disabled_by_human p = true -> auto_resolution_enabled p = false) -> pattern_ok insts (promote p).
Proof.
  intros Ht Hl Hd. destruct (promote_fields p) as (Hi & _ & Hc & Hs).
  split_and!; [by rewrite Hi, Hc|by rewrite Hi, Hs|by apply promote_ok].
Qed.

Lemma library_ok_find s id p :
  library_ok s -> find_by p_id id (merge_patterns s) = Some p ->
  p_id p = id /\ pattern_ok (resolution_instances s) p /\
  (disabled_by_human p = true -> auto_resolution_enabled p = false).
Proof.
  intros Hok [Hin Hid]%find_by_Some. pose proof (lo_counts s Hok) as Hc. rewrite Forall_forall in Hc.
  split_and!; [done|by apply Hc|]. intros Hd. destruct (Hc p Hin) as (_ & _ & ->).
  unfold meets_promotion_criteria. by rewrite Hd.
Qed.

Lemma find_by_hash_id s h p :
  library_ok s -> find_by_hash h s = Some p -> find_by p_id (p_id p) (merge_patterns s) = Some p.
Proof. intros Hok [Hin _]%find_by_Some. apply find_by_elem; [apply Hok|done..]. Qed.

Lemma fresh_instance_ids s i :
  library_ok s -> in_id i = next_instance s ->
  NoDup (in_id <$> (resolution_instances s ++ [i])) /\
  Forall (fun i => in_id i < next_instance s + 1)%Z (resolution_instances s ++ [i]).
Proof.
  intros Hok Hi. pose proof (lo_instance_next s Hok) as Hn. split.
  - apply snoc_keys_NoDup; [apply Hok|]. apply find_by_None. intros (x & He & Hx)%list_elem_of_fmap.
    rewrite Forall_forall in Hn. specialize (Hn x Hx). lia.
  - apply Forall_app. split; [|constructor; [lia|constructor]].
    eapply Forall_impl; [exact Hn|]. simpl. lia.
Qed.

Lemma set_tick_ok s n :
  library_ok s ->
  library_ok (mkPatternStore (merge_patterns s) (resolution_instances s) (next_pattern s) (next_instance s) n).
Proof. intros []; by constructor. Qed.

(** A resolution of a known pattern. *)
Lemma record_existing_ok r how auto s p :
  library_ok s -> find_by_hash (compute_hash (classify r) (merge_level r)) s = Some p ->
  library_ok (record_resolution r how auto s).2.
Proof.
  intros Hok Hp. pose proof (find_by_hash_id s _ p Hok Hp) as Hf.
  destruct (library_ok_find s _ p Hok Hf) as (_ & (Ht & Hl & _) & Hd).
  unfold record_resolution, tick, get_st, set_patterns, modify_st, insert_instance, mbind, M_bind, mret, M_ret.
  cbn [merge_patterns]. unfold find_by_hash in *. cbn [merge_patterns]. rewrite Hp. simpl.
  rewrite (update_promotion_after (p_id p) _ _ _ _ _ _ p) by (done || apply Hok).
  unfold get_pattern. simpl.
  edestruct (fresh_instance_ids s) as [Hn Hx]; [done|shelve|].
  apply library_ok_update with p; try done.
  - intros x. by rewrite promote_id.
  - intros x. by rewrite promote_hash.
  - apply Forall_app. split; [apply Hok|]. constructor; [|constructor]. simpl.
    by eapply list_elem_of_fmap_2, find_by_Some.
  - apply pattern_ok_promote; simpl; [|  |done].
    + rewrite total_snoc. simpl. rewrite decide_True by done. lia.
    + rewrite live_snoc by done. simpl. rewrite decide_True by done. lia.
  - intros x Hxid. rewrite total_snoc, live_snoc by done. simpl. rewrite decide_False by congruence. lia.
    Unshelve. done.
Qed.

Lemma fresh_counts s i :
  library_ok s -> (next_pattern s <= i)%Z ->
  total (resolution_instances s) i = 0%Z /\ live (resolution_instances s) i = 0%Z.
Proof.
  intros Hok Hi. assert (Hno : forall x, x ∈ resolution_instances s -> in_pattern_id x <> i).
  { intros x Hx He. pose proof (lo_instance_pattern s Hok) as Hp. rewrite Forall_forall in Hp.
    pose proof (lo_pattern_next s Hok) as Hn. rewrite Forall_forall in Hn.
    apply Hp, list_elem_of_fmap in Hx as (p & Hpe & Hpin). apply Hn in Hpin. lia. }
  unfold total, live.
  assert (Hnil : forall (Q : ResolutionInstance -> Prop) `{!forall x, Decision (Q x)},
            (forall x, Q x -> in_pattern_id x = i) -> filter Q (resolution_instances s) = []).
  { intros Q HQ Himp. apply elem_of_nil_inv. intros x [Hx Hin]%list_elem_of_filter.
    by apply (Hno x Hin), Himp. }
  rewrite !Hnil by naive_solver. done.
Qed.

(** The first resolution of a pattern. *)
Lemma record_new_ok r how auto s :
  library_ok s -> find_by_hash (compute_hash (classify r) (merge_level r)) s = None ->
  library_ok (record_resolution r how auto s).2.
Proof.
  intros Hok Hp. unfold record_resolution, tick, get_st, insert_pattern, insert_instance, mbind, M_bind.
  unfold find_by_hash in *. cbn [merge_patterns]. rewrite Hp. simpl.
  set (q := mkPattern _ _ _ _ _ _ _ _ _ _). set (i := mkInstance _ _ _ _ _ _ _ _).
  pose proof (lo_pattern_next s Hok) as Hnx.
  assert (Hnf : find_by p_id (p_id q) (merge_patterns s) = None).
  { apply find_by_None. intros (x & He & Hx)%list_elem_of_fmap. rewrite Forall_forall in Hnx.
    specialize (Hnx x Hx). simpl in He. lia. }
  assert (Hnd : NoDup (p_id <$> (merge_patterns s ++ [q]))) by (apply snoc_keys_NoDup; [apply Hok|done]).
  rewrite (update_promotion_eq _ _ q); simpl; [|done|].
  2: { change (next_pattern s) with (p_id q). rewrite find_by_snoc, Hnf. by rewrite decide_True. }
  unfold get_pattern. simpl.
  destruct (fresh_instance_ids s i) as [Hn Hx]; [done..|].
  destruct (fresh_counts s (next_pattern s) Hok) as [Ht Hl]; [lia|].
  assert (Hu : update_by p_id (next_pattern s) promote (merge_patterns s ++ [q]) = merge_patterns s ++ [q]).
  { unfold update_by. rewrite fmap_app. fold (update_by p_id (next_pattern s) promote (merge_patterns s)).
    rewrite update_by_none by by apply find_by_None. simpl. by rewrite decide_True. }
  rewrite Hu. constructor; simpl; try done.
  - apply Forall_app. split; [|constructor; [simpl; lia|constructor]].
    eapply Forall_impl; [exact Hnx|]. simpl. lia.
  - apply snoc_keys_NoDup; [apply Hok|done].
  - rewrite fmap_app. apply Forall_app. split; [|constructor; [|constructor]].
    + eapply Forall_impl; [apply (lo_instance_pattern s Hok)|]. intros x Hin. set_solver.
    + apply elem_of_app. right. by left.
  - apply Forall_app. split; [|constructor; [|constructor]].
    + pose proof (lo_counts s Hok) as Hc. rewrite Forall_forall in Hc, Hnx |- *. intros x Hxin.
      specialize (Hnx x Hxin). unfold pattern_ok. rewrite total_snoc, live_snoc by done. simpl.
      rewrite decide_False by lia. rewrite !Z.add_0_r. by apply Hc.
    + unfold pattern_ok. rewrite total_snoc, live_snoc by done. simpl.
      rewrite decide_True by done. rewrite Ht, Hl. done.
Qed.

Hypothesis scan_perm : forall l, scan l ≡ₚ l.

Lemma record_rollback_ok conflict s : library_ok s -> library_ok (record_rollback conflict s).2.
Proof using scan_perm.
  intros Hok. unfold record_rollback, get_st, mbind, M_bind. simpl.
  destruct (head _) as [i|] eqn:E; [|done].
  apply head_Some_elem_of, list_elem_of_filter in E as [[_ Hi] Hin]. rewrite scan_perm in Hin.
  unfold tick, set_instances, set_patterns, modify_st. simpl.
  assert (Hp : exists p, find_by p_id (in_pattern_id i) (merge_patterns s) = Some p).
  { destruct (find_by _ _ _) eqn:E; [eauto|]. apply find_by_None in E. destruct E.
    pose proof (lo_instance_pattern s Hok) as Hp. rewrite Forall_forall in Hp. by apply Hp. }
  destruct Hp as [p Hp]. destruct (library_ok_find s _ p Hok Hp) as (Hid & (Ht & Hl & _) & Hd).
  rewrite (update_promotion_after _ _ _ _ _ _ _ p) by (done || apply Hok).
  unfold get_pattern. simpl. rewrite find_by_update by (intros x _; by rewrite promote_id).
  rewrite decide_True, Hp by done. simpl.
  pose proof (rolled_back_counts (resolution_instances s) i) as Hrc.
  assert (Hkeep : forall x, in_id (mark_rolled_back x) = in_id x) by done.
  apply library_ok_update with p; try done.
  - intros x. by rewrite promote_id.
  - intros x. by rewrite promote_hash.
  - rewrite update_by_keys by done. apply Hok.
  - apply update_by_Forall; [apply Hok|]. done.
  - apply update_by_Forall; [apply Hok|]. done.
  - specialize (Hrc (p_id p)). destruct Hrc as [Hrt Hrl]; [apply Hok|done..|].
    rewrite decide_True in Hrl by done.
    apply pattern_ok_promote; simpl; [by rewrite Hrt| |done].
    rewrite Hrl, Hl. assert (0 <= live (resolution_instances s) (p_id p) - 1)%Z; [|lia].
    rewrite <-Hrl. apply Zle_0_nat.
  - intros x Hx. destruct (Hrc x) as [Hrt Hrl]; [apply Hok|done..|].
    rewrite decide_False in Hrl by congruence. lia.
Qed.

(** Setting the flags of one pattern. *)
Lemma flags_ok id f s p :
  library_ok s -> find_by p_id id (merge_patterns s) = Some p ->
  (forall x, p_id (f x) = p_id x) -> (forall x, pattern_hash (f x) = pattern_hash x) ->
  instance_count (f p) = instance_count p -> success_count (f p) = success_count p ->
  auto_resolution_enabled (f p) = meets_promotion_criteria (f p) ->
  library_ok (mkPatternStore (update_by p_id id f (merge_patterns s)) (resolution_instances s)
                (next_pattern s) (next_instance s) (S (pt_ticks s))).
Proof.
  intros Hok Hp Hi Hh Hc Hs Ha. destruct (library_ok_find s id p Hok Hp) as (_ & (Ht & Hl & _) & _).
  apply library_ok_update with p; try done; try apply Hok.
  unfold pattern_ok. by rewrite Hi, Hc, Hs.
Qed.

Lemma disable_pattern_ok id s : library_ok s -> library_ok (disable_pattern id s).2.
Proof using All.
  clear scan_perm. intros Hok. unfold disable_pattern, tick, get_st, mbind, M_bind. simpl.
  destruct (find_by p_id id (merge_patterns s)) as [p|] eqn:Hp; [|by apply set_tick_ok].
  unfold set_patterns, modify_st, get_pattern. simpl. by apply (flags_ok id _ s p).
Qed.

Lemma enable_pattern_ok id s : library_ok s -> library_ok (enable_pattern id s).2.
Proof using All.
  clear scan_perm. intros Hok. unfold enable_pattern, tick, get_st, mbind, M_bind. simpl.
  destruct (find_by p_id id (merge_patterns s)) as [p|] eqn:Hp; [|by apply set_tick_ok].
  unfold set_patterns, modify_st. simpl.
  rewrite (update_promotion_after _ _ _ _ _ _ _ p) by (done || apply Hok).
  unfold get_pattern. simpl. apply (flags_ok id (fun x => promote (with_disabled false (auto_resolution_enabled x)
    (clock (pt_ticks s)) x)) s p); try done.
  all: intros x; first [by rewrite promote_id|by rewrite promote_hash].
Qed.

Lemma library_step_ok s s' : library_ok s -> library_step s s' -> library_ok s'.
Proof using scan_perm.
  intros Hok Hs. destruct Hs as [r how auto s|conflict s|id s|id s].
  - destruct (find_by_hash (compute_hash (classify r) (merge_level r)) s) as [p|] eqn:E.
    + by apply record_existing_ok with p.
    + by apply record_new_ok.
  - by apply record_rollback_ok.
  - by apply disable_pattern_ok.
  - by apply enable_pattern_ok.
Qed.

Lemma library_reachable_ok s : rtc library_step empty_library s -> library_ok s.
Proof using scan_perm.
  assert (H0 : library_ok empty_library) by (constructor; simpl; constructor).
  revert s H0. generalize empty_library. intros s0 s Hok Hs.
  induction Hs; [done|]. by eauto using library_step_ok.
Qed.

(** In every reachable library the answer to "resolve this conflict automatically"
    is the pattern of the conflict's class and level, exactly when the instances
    recorded for it number more than ten, at least nine in ten of them were not
    rolled back, and no human disabled it. *)
Theorem check_auto_resolution_reachable s r p :
  rtc library_step empty_library s ->
  check_auto_resolution r s = Some p <->
  p ∈ merge_patterns s /\ pattern_hash p = compute_hash (classify r) (merge_level r) /\
  disabled_by_human p = false /\ (10 < total (resolution_instances s) (p_id p))%Z /\
  (9 * total (resolution_instances s) (p_id p) <= 10 * live (resolution_instances s) (p_id p))%Z.
Proof using scan_perm.
  intros Hok%library_reachable_ok.
  assert (Hpr : forall q, q ∈ merge_patterns s -> auto_resolution_enabled q = true <->
            disabled_by_human q = false /\ (10 < total (resolution_instances s) (p_id q))%Z /\
            (9 * total (resolution_instances s) (p_id q) <= 10 * live (resolution_instances s) (p_id q))%Z).
  { intros q Hq. pose proof (lo_counts s Hok) as Hc. rewrite Forall_forall in Hc.
    destruct (Hc q Hq) as (Ht & Hl & ->). rewrite <-Ht, <-Hl. unfold meets_promotion_criteria, success_rate.
    rewrite !andb_true_iff, negb_true_iff, Z.ltb_lt. destruct (Z.eqb_spec (instance_count q) 0) as [Hz|Hz].
    - rewrite Hz. simpl. intuition lia.
    - simpl. rewrite Z.leb_le. tauto. }
  unfold check_auto_resolution, find_by_hash. split.
  - intros (q & Hq & Ha)%bind_Some. destruct (auto_resolution_enabled q) eqn:E; [|done]. injection Ha as ->.
    apply find_by_Some in Hq as [Hin Hh]. split; [done|]. split; [done|]. by apply Hpr.
  - intros (Hin & Hh & Hrest). rewrite (find_by_elem pattern_hash _ _ p (lo_hashes s Hok) Hin Hh). simpl.
    by rewrite (proj2 (Hpr p Hin) Hrest).
Qed.


(** Recording resolutions one after the other. *)
Definition record_all (rs : list ConflictRecord) (s : PatternStore) : PatternStore :=
  fold_left (fun s r => (record_resolution r "manual" false s).2) rs s.

Lemma record_all_reachable rs s s' : rtc library_step s s' -> rtc library_step s (record_all rs s').
Proof.
  clear scan_perm. revert s'. induction rs as [|r rs IH]; intros s' Hs; [exact Hs|]. apply IH.
  eapply rtc_r; [exact Hs|constructor].
Qed.
End store.
End classify.

(** Eleven conflicts of one kind, resolved by hand: the twelfth is automatic. *)
Lemma check_auto_resolution_reachable_witness :
  let r := mkConflict "c" "w" "src/a.rs" [] "Function body changed" SevMedium 3 false in
  let s := record_all (unicode := ascii_unicode) string_of (fun _ => 0%Z) (replicate 11 r) empty_library in
  exists p, check_auto_resolution (unicode := ascii_unicode) string_of r s = Some p /\ disabled_by_human p = false /\
    check_auto_resolution (unicode := ascii_unicode) string_of r (disable_pattern (fun _ => 0%Z) (p_id p) s).2 = None.
Proof.
  intros r s. eexists (mkPattern 1 _ _ _ 11 11 true false 0 0).
  assert (Hreach : rtc (library_step (unicode := ascii_unicode) string_of (fun _ => 0%Z) (fun l => l)) empty_library s)
    by apply record_all_reachable, rtc_refl.
  pose proof (check_auto_resolution_reachable (unicode := ascii_unicode) string_of (fun _ => 0%Z) (fun l => l)
    (fun l => reflexivity l) s r (mkPattern 1 TwoAgentsModifySameBody
      (compute_hash string_of TwoAgentsModifySameBody 3)
      (pattern_description TwoAgentsModifySameBody) 11 11 true false 0 0) Hreach) as [H _].
  split_and!; [vm_compute; reflexivity| |vm_compute; reflexivity].
  apply H. vm_compute. reflexivity.
Defined.
