(* ===== verification/Watcher.v ===== *)
(** Watchers ([src/src/watcher/mod.rs]): registered agents that report problems they
    discover. A report is refused over the hourly limit, suppressed when an issue
    was already created for the same problem, and otherwise recorded, with an issue
    when the watcher's policy allows it. *)
From S2P Require Import Prelude Table RustStr Float64 EventLog Replay Issue.

Inductive WatchType : Type :=
  | TestSuite | Security | CodeQuality | Performance | DependencyUpdates | Custom (s : string).

Definition watch_type_as_str (t : WatchType) : string :=
  match t with
  | TestSuite => "test_suite"
  | Security => "security"
  | CodeQuality => "code_quality"
  | Performance => "performance"
  | DependencyUpdates => "dependency_updates"
  | Custom s => s
  end.

Definition watch_type_from_db_str (s : string) : WatchType :=
  if String.eqb s "test_suite" then TestSuite
  else if String.eqb s "security" then Security
  else if String.eqb s "code_quality" then CodeQuality
  else if String.eqb s "performance" then Performance
  else if String.eqb s "dependency_updates" then DependencyUpdates
  else Custom s.

Record IssueCreationPolicy : Type := mkPolicy {
  auto_create : bool;
  max_per_hour : Z;
  require_approval_above : option string
}.

Definition default_policy : IssueCreationPolicy := mkPolicy false 5 (Some "medium"%string).

Definition priority_rank (s : string) : nat :=
  if String.eqb s "low" then 0
  else if String.eqb s "medium" then 1
  else if String.eqb s "high" then 2
  else if String.eqb s "critical" then 3
  else 1.

Definition should_auto_create (p : IssueCreationPolicy) (priority : IssuePriority) : bool :=
  auto_create p &&
  match require_approval_above p with
  | None => true
  | Some threshold => priority_rank (priority_as_str priority) <=? priority_rank threshold
  end.

Inductive WatcherStatus : Type := WtActive | WtPaused.

#[export] Instance watcher_status_eq_dec : EqDecision WatcherStatus.
Proof. solve_decision. Defined.

Definition watcher_status_as_str (s : WatcherStatus) : string :=
  match s with WtActive => "active" | WtPaused => "paused" end.
Definition watcher_status_from_db_str (s : string) : WatcherStatus :=
  if String.eqb s "paused" then WtPaused else WtActive.

Record Watcher : Type := mkWatcher {
  wt_agent_id : string;
  watch_type : WatchType;
  wt_description : string;
  issue_creation_policy : IssueCreationPolicy;
  wt_status : WatcherStatus;
  registered_at : DateTime;
  last_discovery_at : option DateTime;
  discovery_count : Z
}.

Inductive DiscoveryEventKind : Type :=
  | TestFailureDiscovered (suite test_name failure_output : string) (version : option string)
  | SecurityVulnerabilityDiscovered (source severity : string) (affected_entities : list string)
  | CodeQualityIssueDiscovered (rule entity description : string)
  | PerformanceRegressionDiscovered (metric : string) (baseline current : f64) (version : option string)
  | DependencyUpdateAvailable (package current_version available_version : string).

Definition event_type (e : DiscoveryEventKind) : string :=
  match e with
  | TestFailureDiscovered _ _ _ _ => "test_failure"
  | SecurityVulnerabilityDiscovered _ _ _ => "security_vulnerability"
  | CodeQualityIssueDiscovered _ _ _ => "code_quality"
  | PerformanceRegressionDiscovered _ _ _ _ => "performance_regression"
  | DependencyUpdateAvailable _ _ _ => "dependency_update"
  end.

Definition default_title (e : DiscoveryEventKind) : string :=
  match e with
  | TestFailureDiscovered suite test_name _ _ => "Test failure: " +:+ suite +:+ "/" +:+ test_name
  | SecurityVulnerabilityDiscovered source severity _ =>
      "Security vulnerability (" +:+ severity +:+ ") from " +:+ source
  | CodeQualityIssueDiscovered rule entity _ => "Code quality: " +:+ rule +:+ " in " +:+ entity
  | PerformanceRegressionDiscovered metric baseline current _ =>
      "Performance regression: " +:+ metric +:+ " (" +:+ fixed2 baseline +:+ " → " +:+ fixed2 current +:+ ")"
  | DependencyUpdateAvailable package _ available_version =>
      "Dependency update available: " +:+ package +:+ " → " +:+ available_version
  end.

Definition dedup_key (e : DiscoveryEventKind) : string :=
  match e with
  | TestFailureDiscovered suite test_name _ _ => "test_failure::" +:+ suite +:+ "::" +:+ test_name
  | SecurityVulnerabilityDiscovered source _ _ => "security::" +:+ source
  | CodeQualityIssueDiscovered rule entity _ => "quality::" +:+ rule +:+ "::" +:+ entity
  | PerformanceRegressionDiscovered metric _ _ _ => "perf::" +:+ metric
  | DependencyUpdateAvailable package _ _ => "dep::" +:+ package
  end.

Record DiscoveryRecord : Type := mkDiscovery {
  d_id : Uuid;
  d_agent_id : string;
  d_event : DiscoveryEventKind;
  received_at : DateTime;
  created_issue_id : option Uuid;
  d_suppressed : bool
}.

Record DiscoveryOutcome : Type := mkOutcome {
  o_record : DiscoveryRecord;
  o_issue_id : option Uuid;
  o_suppressed : bool;
  o_message : string
}.

Record DiscoveryPreparation : Type := mkPreparation {
  pr_record_id : Uuid;
  pr_dedup_key : string;
  pr_received_at : DateTime;
  suppressed_with_issue_id : option Uuid;
  should_create_issue : bool;
  pr_priority : IssuePriority
}.

Inductive WatcherError : Type :=
  | WtSqlite
  | WtIssue (e : IssueError)
  | WtNotFound (id : string)
  | WtAlreadyExists (id : string)
  | WtRateLimitExceeded (agent_id : string) (count max : Z).

(** ** The tables *)

(** A row of [watchers]; the policy is JSON text. *)
Record WatcherRow : Type := mkWatcherRow {
  wr_agent_id : string;
  wr_watch_type : string;
  wr_description : string;
  wr_policy_json : string;
  wr_status : string;
  wr_registered_at : DateTime;
  wr_last_discovery_at : option DateTime;
  wr_discovery_count : Z
}.

(** A row of [discovery_records]; the event is JSON text. *)
Record DiscoveryRow : Type := mkDiscoveryRow {
  dr_id : Uuid;
  dr_agent_id : string;
  dr_event_type : string;
  dr_event_json : string;
  dr_dedup_key : string;
  dr_received_at : DateTime;
  dr_created_issue_id : option Uuid;
  dr_suppressed : bool
}.

(** The store, with the issue store and the log its caller passes along. *)
Record WatchState : Type := mkWatch {
  watchers : list WatcherRow;
  discovery_records : list DiscoveryRow;
  watcher_rate_limits : gmap (string * Z) Z;
  wt_tracker : Tracker
}.

Abbreviation WT := (M WatchState WatcherError).

Definition on_watchers (f : list WatcherRow -> list WatcherRow) : WT unit :=
  modify_st (fun s => mkWatch (f (watchers s)) (discovery_records s) (watcher_rate_limits s) (wt_tracker s)).

Definition on_limits (f : gmap (string * Z) Z -> gmap (string * Z) Z) : WT unit :=
  modify_st (fun s => mkWatch (watchers s) (discovery_records s) (f (watcher_rate_limits s)) (wt_tracker s)).

(** A call on the issue store and the log. *)
Definition on_tracker {A} (m : M Tracker IssueError A) : WT A := fun s =>
  let '(r, k) := m (wt_tracker s) in
  (map_err WtIssue r, mkWatch (watchers s) (discovery_records s) (watcher_rate_limits s) k).

Section watcher.
Context {unicode : Unicode}.
(** [serde_json] on policies, on events (compact and indented), and on agent metadata. *)
Variable policy_to_json : IssueCreationPolicy -> string.
Variable policy_from_json : string -> option IssueCreationPolicy.
Variable event_to_json event_to_json_pretty : DiscoveryEventKind -> string.
Variable event_from_json : string -> option DiscoveryEventKind.
Variable source_to_json : AgentSource -> string.
(** The streams of [Utc::now()] and [Uuid::new_v4()]. *)
Variable clock : nat -> DateTime.
Variable uuid : nat -> Uuid.
(** The order in which a query visits the rows. *)
Variable scan : forall A, list A -> list A.

Definition default_priority (e : DiscoveryEventKind) : IssuePriority :=
  match e with
  | SecurityVulnerabilityDiscovered _ severity _ =>
      let s := to_lowercase severity in
      if String.eqb s "critical" then PrCritical
      else if String.eqb s "high" then PrHigh
      else if String.eqb s "low" then PrLow
      else PrMedium
  | PerformanceRegressionDiscovered _ baseline current _ =>
      if f64_lt f64_zero baseline then
        let pct := f64_div (f64_abs (f64_sub current baseline)) baseline in
        if f64_lt (f64_lit 1 2) pct then PrHigh
        else if f64_lt (f64_lit 1 5) pct then PrMedium
        else PrLow
      else PrMedium
  | TestFailureDiscovered _ _ _ _ => PrMedium
  | CodeQualityIssueDiscovered _ _ _ => PrLow
  | DependencyUpdateAvailable _ _ _ => PrLow
  end.

(** *** Registration *)

Definition register (w : Watcher) : WT unit := fun s =>
  let row := mkWatcherRow (wt_agent_id w) (watch_type_as_str (watch_type w)) (wt_description w)
    (policy_to_json (issue_creation_policy w)) (watcher_status_as_str (wt_status w))
    (registered_at w) (last_discovery_at w) (discovery_count w) in
  match find_by wr_agent_id (wt_agent_id w) (watchers s) with
  | Some _ => (Err (WtAlreadyExists (wt_agent_id w)), s)
  | None => on_watchers (fun l => l ++ [row]) s
  end.

(** A row as a [Watcher]; [None] when the counter is no [u32]. *)
Definition row_to_watcher (r : WatcherRow) : option Watcher :=
  if (0 <=? wr_discovery_count r)%Z && (wr_discovery_count r <? u32_bound)%Z then
    Some (mkWatcher (wr_agent_id r) (watch_type_from_db_str (wr_watch_type r)) (wr_description r)
      (default default_policy (policy_from_json (wr_policy_json r)))
      (watcher_status_from_db_str (wr_status r)) (wr_registered_at r) (wr_last_discovery_at r)
      (wr_discovery_count r))
  else None.

(** [ORDER BY registered_at DESC] *)
Definition list_watchers (s : WatchState) : option (list Watcher) :=
  mapM row_to_watcher
    (sort_by (fun a b => (wr_registered_at b <=? wr_registered_at a)%Z) (scan _ (watchers s))).

Definition get_watcher (agent_id : string) : WT Watcher := fun s =>
  (match find_by wr_agent_id agent_id (watchers s) with
   | None => Err (WtNotFound agent_id)
   | Some r => match row_to_watcher r with Some w => Ok w | None => Err WtSqlite end
   end, s).

Definition set_status (agent_id : string) (status : WatcherStatus) : WT unit := fun s =>
  match find_by wr_agent_id agent_id (watchers s) with
  | None => (Err (WtNotFound agent_id), s)
  | Some _ =>
      on_watchers (update_by wr_agent_id agent_id (fun r =>
        mkWatcherRow (wr_agent_id r) (wr_watch_type r) (wr_description r) (wr_policy_json r)
          (watcher_status_as_str status) (wr_registered_at r) (wr_last_discovery_at r)
          (wr_discovery_count r))) s
  end.

Definition pause (agent_id : string) : WT unit := set_status agent_id WtPaused.
Definition resume (agent_id : string) : WT unit := set_status agent_id WtActive.

(** *** Helpers of the submission *)

(** The latest report of the problem that created an issue. *)
Definition find_active_discovery (key agent_id : string) (s : WatchState) : option Uuid :=
  head (sort_by (fun a b => (dr_received_at b <=? dr_received_at a)%Z)
    (filter (fun r => dr_agent_id r = agent_id /\ dr_dedup_key r = key /\ dr_suppressed r = false /\
                      dr_created_issue_id r <> None) (scan _ (discovery_records s))))
  ≫= dr_created_issue_id.

Definition increment_rate_limit (agent_id : string) : WT Z :=
  bucket ← on_tracker (current_hour_bucket clock);
  _ ← on_limits (fun m =>
        match m !! (agent_id, bucket) with
        | Some _ => alter (fun c => c + 1)%Z (agent_id, bucket) m
        | None => <[(agent_id, bucket) := 1%Z]> m
        end);
  s ← get_st;
  match watcher_rate_limits s !! (agent_id, bucket) with
  | Some c => if (0 <=? c)%Z && (c <? u32_bound)%Z then mret c else fail WtSqlite
  | None => fail WtSqlite
  end.

Definition decrement_rate_limit (agent_id : string) : WT unit :=
  bucket ← on_tracker (current_hour_bucket clock);
  on_limits (alter (fun c => Z.max 0 (c - 1)) (agent_id, bucket)).

Definition update_watcher_stats (agent_id : string) (ts : DateTime) : WT unit :=
  on_watchers (update_by wr_agent_id agent_id (fun r =>
    mkWatcherRow (wr_agent_id r) (wr_watch_type r) (wr_description r) (wr_policy_json r) (wr_status r)
      (wr_registered_at r) (Some ts) (wr_discovery_count r + 1))).

(** [INSERT INTO discovery_records]: the id is the key, and SQLite as it is built
    here enforces the reference to the watcher. *)
Definition insert_discovery (row : DiscoveryRow) : WT unit := fun s =>
  match find_by dr_id (dr_id row) (discovery_records s),
        find_by wr_agent_id (dr_agent_id row) (watchers s) with
  | None, Some _ =>
      (Ok tt, mkWatch (watchers s) (discovery_records s ++ [row]) (watcher_rate_limits s) (wt_tracker s))
  | _, _ => (Err WtSqlite, s)
  end.

(** The checks both submissions start with: the watcher exists and is active, and
    its hour has room. *)
Definition screen_watcher (agent_id : string) : WT Watcher :=
  watcher ← get_watcher agent_id;
  if decide (wt_status watcher = WtPaused) then
    fail (WtNotFound (agent_id +:+ " is paused — resume before submitting discoveries"))
  else
    count ← increment_rate_limit agent_id;
    let max := max_per_hour (issue_creation_policy watcher) in
    if (max <? count)%Z then
      _ ← decrement_rate_limit agent_id;
      fail (WtRateLimitExceeded agent_id count max)
    else mret watcher.

Definition issue_description (agent_id : string) (event : DiscoveryEventKind) : string :=
  let nl := String LF EmptyString in
  "Automatically created by watcher `" +:+ agent_id +:+ "`." +:+ nl +:+ nl +:+
  "**Event type:** " +:+ event_type event +:+ nl +:+ nl +:+
  "**Details:**" +:+ nl +:+ "```json" +:+ nl +:+ event_to_json_pretty event +:+ nl +:+ "```".

(** The issue of a discovery; a refusal by the issue store's own limit is no error. *)
Definition create_discovery_issue (agent_id : string) (event : DiscoveryEventKind)
    (priority : IssuePriority) (max : Z) : WT (option Uuid) := fun s =>
  match on_tracker (create_by_agent source_to_json clock uuid scan (default_title event)
      (issue_description agent_id event) priority [event_type event; "watcher"%string] agent_id
      (mkAgentSource (event_type event) (event_to_json event)) max) s with
  | (Ok (issue, _), s') => (Ok (Some (i_id issue)), s')
  | (Err (WtIssue (RateLimitExceeded _ _ _)), s') => (Ok None, s')
  | (Err e, s') => (Err e, s')
  | (Panic, s') => (Panic, s')
  end.

Definition submit_discovery (agent_id : string) (event : DiscoveryEventKind) : WT DiscoveryOutcome :=
  watcher ← screen_watcher agent_id;
  let policy := issue_creation_policy watcher in
  let key := dedup_key event in
  now ← on_tracker (tick clock);
  s ← get_st;
  let existing := find_active_discovery key agent_id s in
  record_id ← on_tracker (new_uuid uuid);
  let row := mkDiscoveryRow record_id agent_id (event_type event) (event_to_json event) key now in
  match existing with
  | Some issue_id =>
      _ ← insert_discovery (row (Some issue_id) true);
      _ ← update_watcher_stats agent_id now;
      mret (mkOutcome (mkDiscovery record_id agent_id event now (Some issue_id) true) None true
        ("Suppressed duplicate: issue " +:+ issue_id +:+ " already tracks this problem"))
  | None =>
      let priority := default_priority event in
      let should_create := should_auto_create policy priority in
      created ← (if should_create
                 then create_discovery_issue agent_id event priority (max_per_hour policy)
                 else mret None);
      _ ← insert_discovery (row created false);
      _ ← update_watcher_stats agent_id now;
      let message :=
        match created with
        | Some issue_id => "Discovery recorded; issue " +:+ issue_id +:+ " created"
        | None => if should_create then "Discovery recorded; issue creation rate-limited"
                  else "Discovery recorded; auto-create disabled by policy"
        end in
      mret (mkOutcome (mkDiscovery record_id agent_id event now created false) created false message)
  end.

(** *** The two-phase submission of the server *)

Definition prepare_discovery (agent_id : string) (event : DiscoveryEventKind) : WT DiscoveryPreparation :=
  watcher ← screen_watcher agent_id;
  let key := dedup_key event in
  now ← on_tracker (tick clock);
  s ← get_st;
  let priority := default_priority event in
  record_id ← on_tracker (new_uuid uuid);
  mret (mkPreparation record_id key now (find_active_discovery key agent_id s)
    (should_auto_create (issue_creation_policy watcher) priority) priority).

Definition record_discovery (agent_id : string) (event : DiscoveryEventKind) (record_id : Uuid)
    (key : string) (received : DateTime) (created : option Uuid) (suppressed : bool) :
    WT DiscoveryRecord :=
  _ ← insert_discovery (mkDiscoveryRow record_id agent_id (event_type event) (event_to_json event) key
        received created suppressed);
  _ ← update_watcher_stats agent_id received;
  mret (mkDiscovery record_id agent_id event received created suppressed).

Definition unknown_event : DiscoveryEventKind := TestFailureDiscovered "unknown" "unknown" "" None.

Definition row_to_discovery (r : DiscoveryRow) : DiscoveryRecord :=
  mkDiscovery (dr_id r) (dr_agent_id r) (default unknown_event (event_from_json (dr_event_json r)))
    (dr_received_at r) (dr_created_issue_id r) (dr_suppressed r).

(** [ORDER BY received_at DESC LIMIT ..] *)
Definition list_discoveries (agent_id : option string) (limit : nat) (s : WatchState) : list DiscoveryRecord :=
  row_to_discovery <$> take (Nat.min limit 1000)
    (sort_by (fun a b => (dr_received_at b <=? dr_received_at a)%Z)
       (filter (fun r => (match agent_id with Some a => String.eqb (dr_agent_id r) a | None => true end) = true)
          (scan _ (discovery_records s)))).

(** ** What is tracked *)

(** A report that created an issue, and the problem it is about. *)
Definition tracks (r : DiscoveryRow) : Prop := dr_suppressed r = false /\ dr_created_issue_id r <> None.
Definition problem (r : DiscoveryRow) : string * string := (dr_agent_id r, dr_dedup_key r).

#[local] Instance tracks_dec r : Decision (tracks r).
Proof. unfold tracks. apply _. Defined.

Variable source_from_json : string -> option AgentSource.
Variable criteria_to_json : list string -> string.
Variable criteria_from_json : string -> option (list string).

(** The store evolves by its operations, and the tracker behind it on its own. *)
Inductive watch_step : WatchState -> WatchState -> Prop :=
  | step_register w s : watch_step s (register w s).2
  | step_status a st s : watch_step s (set_status a st s).2
  | step_submit a e s : watch_step s (submit_discovery a e s).2
  | step_prepare a e s : watch_step s (prepare_discovery a e s).2
  | step_tracker k s :
      tracker_step source_to_json source_from_json criteria_to_json criteria_from_json clock uuid scan
        (wt_tracker s) k ->
      watch_step s (mkWatch (watchers s) (discovery_records s) (watcher_rate_limits s) k).

(** Each problem has at most one issue, which exists; a suppressed report names the
    issue of its problem. *)
Record watch_ok (s : WatchState) : Prop := {
  wo_store : store_ok (tk_store (wt_tracker s));
  wo_problems : NoDup (problem <$> filter tracks (discovery_records s));
  wo_issues : Forall (fun r => forall i, dr_created_issue_id r = Some i ->
                is_Some (find_row i (tk_store (wt_tracker s)))) (discovery_records s);
  wo_suppressed : Forall (fun r => dr_suppressed r = true -> exists r',
                r' ∈ filter tracks (discovery_records s) /\ problem r' = problem r /\
                dr_created_issue_id r' = dr_created_issue_id r) (discovery_records s)
}.

Hypothesis scan_perm : forall A (l : list A), scan A l ≡ₚ l.

Lemma watch_ok_quiet s s' :
  watch_ok s -> discovery_records s' = discovery_records s -> store_ok (tk_store (wt_tracker s')) ->
  (forall i, is_Some (find_row i (tk_store (wt_tracker s))) -> is_Some (find_row i (tk_store (wt_tracker s')))) ->
  watch_ok s'.
Proof.
  intros Hok Hd Hs Hk. constructor; rewrite ?Hd; try apply Hok; [done|].
  eapply Forall_impl; [apply (wo_issues s Hok)|]. simpl. eauto.
Qed.

Lemma watch_ok_insert s row :
  watch_ok s ->
  (forall i, dr_created_issue_id row = Some i -> is_Some (find_row i (tk_store (wt_tracker s)))) ->
  (tracks row -> problem row ∉ problem <$> filter tracks (discovery_records s)) ->
  (dr_suppressed row = true -> exists r', r' ∈ filter tracks (discovery_records s) /\
     problem r' = problem row /\ dr_created_issue_id r' = dr_created_issue_id row) ->
  watch_ok (insert_discovery row s).2.
Proof.
  intros Hok Hi Ht Hs. unfold insert_discovery.
  destruct (find_by dr_id _ _); [done|]. destruct (find_by wr_agent_id _ _); [|done].
  constructor; simpl.
  - apply Hok.
  - rewrite filter_app, fmap_app. apply NoDup_app. split; [apply Hok|].
    destruct (decide (tracks row)) as [Hr|Hr].
    + rewrite filter_cons_True by done. split; [|apply NoDup_singleton].
      intros x Hx ->%list_elem_of_singleton. by apply Ht.
    + rewrite filter_cons_False by done. split; [|constructor]. by intros x _ ?%not_elem_of_nil.
  - apply Forall_app. split; [apply Hok|]. by constructor.
  - apply Forall_app. setoid_rewrite filter_app. split; [|constructor; [|constructor]].
    + eapply Forall_impl; [apply (wo_suppressed s Hok)|]. intros r Hr H. destruct (Hr H) as (r' & ? & ?).
      exists r'. split; [|done]. apply elem_of_app. by left.
    + intros H. destruct (Hs H) as (r' & ? & ?). exists r'. split; [|done]. apply elem_of_app. by left.
Qed.

Lemma find_active_Some key a s i :
  find_active_discovery key a s = Some i ->
  exists r, r ∈ filter tracks (discovery_records s) /\ problem r = (a, key) /\ dr_created_issue_id r = Some i.
Proof using scan_perm.
  unfold find_active_discovery. intros (r & Hr%head_Some_elem_of & Hi)%bind_Some.
  apply sort_by_elem_of in Hr. apply list_elem_of_filter in Hr as [(Ha & Hk & Hn & Hc) Hin].
  rewrite scan_perm in Hin. exists r. rewrite list_elem_of_filter. unfold tracks, problem.
  by rewrite Ha, Hk.
Qed.

Lemma find_active_None key a s :
  find_active_discovery key a s = None ->
  (a, key) ∉ problem <$> filter tracks (discovery_records s).
Proof using scan_perm.
  unfold find_active_discovery. intros Hn (r & He & [[Hs Hc] Hin]%list_elem_of_filter)%list_elem_of_fmap.
  injection He as -> ->. set (l := sort_by _ _) in Hn.
  assert (r ∈ l) as Hl.
  { apply sort_by_elem_of, list_elem_of_filter. by rewrite scan_perm. }
  assert (Hall : Forall (fun r => dr_created_issue_id r <> None) l).
  { apply Forall_forall. intros x [Hx _]%sort_by_elem_of%list_elem_of_filter. tauto. }
  destruct l as [|x l]; [by apply not_elem_of_nil in Hl|]. simpl in Hn.
  apply Forall_cons in Hall as [Hx _]. done.
Qed.

Lemma find_active_tracked key a s r :
  watch_ok s -> r ∈ filter tracks (discovery_records s) -> problem r = (a, key) ->
  find_active_discovery key a s = dr_created_issue_id r.
Proof using scan_perm.
  intros Hok Hr Hp. destruct (find_active_discovery key a s) as [i|] eqn:E.
  - apply find_active_Some in E as (r' & Hr' & Hp' & <-).
    enough (r' = r) as -> by done.
    apply (keys_inj problem (filter tracks (discovery_records s))); [apply Hok|done|done|congruence].
  - apply find_active_None in E. destruct E. rewrite <-Hp. by apply list_elem_of_fmap_2.
Qed.

(** The checks leave records and issues alone. *)
Lemma screen_watcher_quiet a s :
  discovery_records (screen_watcher a s).2 = discovery_records s /\
  tk_store (wt_tracker (screen_watcher a s).2) = tk_store (wt_tracker s) /\
  tk_log (wt_tracker (screen_watcher a s).2) = tk_log (wt_tracker s).
Proof.
  unfold screen_watcher, get_watcher, mbind, M_bind. destruct (find_by _ _ _) as [r|]; [|done].
  destruct (row_to_watcher r) as [w|]; [|done]. case_decide; [done|].
  unfold increment_rate_limit, on_tracker, on_limits, get_st, modify_st, fail, mbind, M_bind, mret, M_ret. simpl.
  destruct (_ !! _) as [c|] eqn:E; simpl; [|done].
  destruct ((0 <=? c)%Z && (c <? u32_bound)%Z); simpl; [|done].
  by destruct (_ <? c)%Z.
Qed.

Lemma create_discovery_issue_spec a e p max s :
  store_ok (tk_store (wt_tracker s)) ->
  let '(r, s') := create_discovery_issue a e p max s in
  discovery_records s' = discovery_records s /\ watchers s' = watchers s /\
  store_ok (tk_store (wt_tracker s')) /\
  (forall i, is_Some (find_row i (tk_store (wt_tracker s))) -> is_Some (find_row i (tk_store (wt_tracker s')))) /\
  forall i, r = Ok (Some i) -> find_row i (tk_store (wt_tracker s)) = None /\
                               is_Some (find_row i (tk_store (wt_tracker s'))).
Proof.
  intros Hok. unfold create_discovery_issue, on_tracker.
  set (t := default_title e). set (d := issue_description a e).
  set (ls := [event_type e; _]). set (so := mkAgentSource _ _).
  pose proof (evolves_create_by_agent source_to_json source_from_json criteria_from_json clock uuid scan t d p ls a so max (wt_tracker s)) as He.
  pose proof (fun i => evolves_keeps i _ _ He Hok) as Hk. destruct (He Hok) as [Hok' _].
  pose proof (create_by_agent_row source_to_json clock uuid scan t d p ls a so max (wt_tracker s)) as Hrow.
  destruct (create_by_agent _ _ _ _ _ _ _ _ _ _ _ _) as [[[i dup]|er|] k]; simpl in *.
  - split_and!; try done. intros j [= <-]. by apply (Hrow i dup k).
  - destruct er; split_and!; done.
  - done.
Qed.

(** The statistics of a watcher are no part of what is tracked. *)
Lemma update_watcher_stats_ok a t s : watch_ok s -> watch_ok (update_watcher_stats a t s).2.
Proof. intros Hok. by apply (watch_ok_quiet s); [..|apply Hok|]. Qed.

Lemma insert_then_stats_ok {A} row a t (o : A) s :
  watch_ok (insert_discovery row s).2 ->
  watch_ok ((_ ← insert_discovery row; _ ← update_watcher_stats a t; mret o) s).2.
Proof.
  intros Hok. unfold mbind, M_bind. destruct (insert_discovery row s) as [[[]|er|] s1]; [|done..].
  by apply update_watcher_stats_ok.
Qed.

Lemma submit_discovery_ok a e s : watch_ok s -> watch_ok (submit_discovery a e s).2.
Proof using scan_perm source_from_json criteria_from_json.
  intros Hok. unfold submit_discovery. unfold mbind at 1, M_bind at 1.
  destruct (screen_watcher_quiet a s) as (Hd & Ht & _).
  destruct (screen_watcher a s) as [[w|er|] s1]; simpl in *;
    [|apply (watch_ok_quiet s); rewrite ?Ht; (done || apply Hok)..].
  assert (Hok1 : watch_ok s1) by (apply (watch_ok_quiet s); rewrite ?Ht; (done || apply Hok)).
  unfold on_tracker at 1 2, tick, new_uuid, get_st. unfold mbind at 1 2 3, M_bind at 1 2 3. simpl.
  set (s1' := mkWatch _ _ _ _).
  change (find_active_discovery (dedup_key e) a s1') with (find_active_discovery (dedup_key e) a s1).
  clear s1'. set (s2 := mkWatch _ _ _ _).
  change (find_active_discovery (dedup_key e) a s1) with (find_active_discovery (dedup_key e) a s2).
  assert (Hok2 : watch_ok s2) by (by apply (watch_ok_quiet s1); [..|apply Hok1|]).
  destruct (find_active_discovery (dedup_key e) a s2) as [i|] eqn:E.
  - apply insert_then_stats_ok. apply find_active_Some in E as (r & Hr & Hp & Hi).
    apply watch_ok_insert; [done|..]; simpl.
    + intros j [= <-]. apply list_elem_of_filter in Hr as [_ Hr].
      pose proof (wo_issues s2 Hok2) as Hw. rewrite Forall_forall in Hw. by apply (Hw r).
    + by intros [Hs _].
    + intros _. by exists r.
  - apply find_active_None in E. destruct (should_auto_create _ _).
    + pose proof (create_discovery_issue_spec a e (default_priority e)
        (max_per_hour (issue_creation_policy w)) s2 (wo_store s2 Hok2)) as Hc.
      unfold mbind at 1, M_bind at 1.
      destruct (create_discovery_issue _ _ _ _ s2) as [r s3]. destruct Hc as (Hd3 & Hw3 & Hs3 & Hk3 & Hi3).
      assert (Hok3 : watch_ok s3) by by apply (watch_ok_quiet s2).
      destruct r as [c|er|]; [|done..]. apply insert_then_stats_ok.
      apply watch_ok_insert; [done|..]; simpl; [|by rewrite Hd3|done].
      intros i ->. by apply Hi3.
    + unfold mbind at 1, M_bind at 1. simpl. apply insert_then_stats_ok.
      by apply watch_ok_insert.
Qed.

Lemma watch_step_ok s s' : watch_ok s -> watch_step s s' -> watch_ok s'.
Proof using scan_perm.
  intros Hok Hs. destruct Hs as [w s|a st s|a e s|a e s|k s Hk].
  - unfold register. destruct (find_by _ _ _); [done|]. by apply (watch_ok_quiet s); [..|apply Hok|].
  - unfold set_status. destruct (find_by _ _ _); [|done]. by apply (watch_ok_quiet s); [..|apply Hok|].
  - by apply submit_discovery_ok.
  - destruct (screen_watcher_quiet a s) as (Hd & Ht & _). unfold prepare_discovery.
    unfold mbind at 1, M_bind at 1. destruct (screen_watcher a s) as [[w|er|] s1]; simpl in *;
      apply (watch_ok_quiet s); simpl; rewrite ?Ht; (done || apply Hok).
  - pose proof (step_evolves _ _ _ _ _ _ _ _ _ Hk) as He.
    apply (watch_ok_quiet s); [done..| |]; [by destruct (He (wo_store s Hok))|].
    intros i. by apply evolves_keeps; [|apply Hok].
Qed.

Lemma watch_steps_ok s s' : watch_ok s -> rtc watch_step s s' -> watch_ok s'.
Proof using scan_perm. intros Hok Hs. induction Hs; [done|]. eauto using watch_step_ok. Qed.

(** An accepted submission appends one record, and which one the table of records
    decides. *)
Lemma submit_discovery_accepted a e s o s' :
  watch_ok s -> submit_discovery a e s = (Ok o, s') ->
  exists row, discovery_records s' = discovery_records s ++ [row] /\ problem row = (a, dedup_key e) /\
    dr_suppressed row = o_suppressed o /\ dr_created_issue_id row = created_issue_id (o_record o) /\
    match find_active_discovery (dedup_key e) a s with
    | Some i => o_suppressed o = true /\ created_issue_id (o_record o) = Some i /\ o_issue_id o = None /\
                tk_store (wt_tracker s') = tk_store (wt_tracker s) /\ tk_log (wt_tracker s') = tk_log (wt_tracker s)
    | None => o_suppressed o = false /\ created_issue_id (o_record o) = o_issue_id o /\
              forall i, o_issue_id o = Some i -> find_row i (tk_store (wt_tracker s)) = None
    end.
Proof using source_from_json criteria_from_json.
  clear event_from_json scan_perm. intros Hok. unfold submit_discovery. unfold mbind at 1, M_bind at 1.
  destruct (screen_watcher_quiet a s) as (Hd & Ht & Hl).
  destruct (screen_watcher a s) as [[w|er|] s1]; simpl in *; [|done..].
  unfold on_tracker at 1 2, tick, new_uuid, get_st. unfold mbind at 1 2 3, M_bind at 1 2 3. simpl.
  set (s1' := mkWatch _ _ _ _).
  assert (find_active_discovery (dedup_key e) a s1' = find_active_discovery (dedup_key e) a s) as ->
    by (unfold find_active_discovery; simpl; by rewrite Hd).
  clear s1'. set (s2 := mkWatch _ _ _ _).
  destruct (find_active_discovery (dedup_key e) a s) as [i|].
  - unfold insert_discovery, mbind, M_bind. simpl. destruct (find_by dr_id _ _); [done|].
    destruct (find_by wr_agent_id _ _); [|done]. simpl. intros [= <- <-]. simpl. rewrite Hd.
    eexists. split; [reflexivity|]. done.
  - set (m := if should_auto_create _ _ then create_discovery_issue _ _ _ _ else _).
    assert (Hm : let '(r, s3) := m s2 in discovery_records s3 = discovery_records s2 /\
              forall i, r = Ok (Some i) -> find_row i (tk_store (wt_tracker s2)) = None).
    { unfold m. destruct (should_auto_create _ _); [|by split].
      pose proof (create_discovery_issue_spec a e (default_priority e) (max_per_hour (issue_creation_policy w)) s2) as Hc.
      assert (store_ok (tk_store (wt_tracker s2))) as Hs2 by (simpl; rewrite Ht; apply Hok).
      specialize (Hc Hs2). destruct (create_discovery_issue _ _ _ _ s2) as [r s3]. naive_solver. }
    unfold mbind at 1, M_bind at 1. destruct (m s2) as [r s3]. destruct Hm as [Hd3 Hi3].
    destruct r as [c|er|]; [|done..].
    unfold insert_discovery, mbind, M_bind. simpl. destruct (find_by dr_id _ _); [done|].
    destruct (find_by wr_agent_id _ _); [|done]. simpl. intros [= <- <-]. simpl. rewrite Hd3. simpl. rewrite Hd.
    eexists. split; [reflexivity|]. simpl. split_and!; try done.
    intros i ->. rewrite <-Ht. by apply Hi3.
Qed.

(** Records are only added. *)
Lemma insert_discovery_records row s r :
  r ∈ discovery_records s -> r ∈ discovery_records (insert_discovery row s).2.
Proof.
  intros Hr. unfold insert_discovery. destruct (find_by dr_id _ _); [done|].
  destruct (find_by wr_agent_id _ _); [|done]. apply elem_of_app. by left.
Qed.

Lemma insert_then_stats_records {A} row a t (o : A) s r :
  r ∈ discovery_records s ->
  r ∈ discovery_records ((_ ← insert_discovery row; _ ← update_watcher_stats a t; mret o) s).2.
Proof.
  intros Hr%(insert_discovery_records row). unfold mbind, M_bind.
  by destruct (insert_discovery row s) as [[[]|er|] s1].
Qed.

Lemma create_discovery_issue_records a e p max s :
  discovery_records (create_discovery_issue a e p max s).2 = discovery_records s.
Proof.
  unfold create_discovery_issue, on_tracker. destruct (create_by_agent _ _ _ _ _ _ _ _ _ _ _ _) as [[[i d]|[]|] k];
  done.
Qed.

Lemma submit_discovery_records a e s r :
  r ∈ discovery_records s -> r ∈ discovery_records (submit_discovery a e s).2.
Proof.
  intros Hr. destruct (screen_watcher_quiet a s) as (Hd & _). rewrite <-Hd in Hr. clear Hd.
  unfold submit_discovery. unfold mbind at 1, M_bind at 1.
  destruct (screen_watcher a s) as [[w|er|] s1]; simpl in *; [|done..].
  unfold on_tracker at 1 2, tick, new_uuid, get_st. unfold mbind at 1 2 3, M_bind at 1 2 3. simpl.
  destruct (find_active_discovery _ _ _); [by apply insert_then_stats_records|].
  destruct (should_auto_create _ _).
  - unfold mbind at 1, M_bind at 1. set (s2 := mkWatch _ _ _ _).
    pose proof (create_discovery_issue_records a e (default_priority e)
      (max_per_hour (issue_creation_policy w)) s2) as Hc.
    destruct (create_discovery_issue _ _ _ _ s2) as [[c|er|] s3]; simpl in *; [|by rewrite Hc..].
    apply insert_then_stats_records. by rewrite Hc.
  - unfold mbind at 1, M_bind at 1. by apply insert_then_stats_records.
Qed.

Lemma step_records s s' r : watch_step s s' -> r ∈ discovery_records s -> r ∈ discovery_records s'.
Proof.
  intros Hs Hr. destruct Hs as [w s|a st s|a e s|a e s|k s Hk].
  - unfold register. by destruct (find_by _ _ _).
  - unfold set_status. by destruct (find_by _ _ _).
  - by apply submit_discovery_records.
  - destruct (screen_watcher_quiet a s) as (Hd & _). rewrite <-Hd in Hr. unfold prepare_discovery.
    unfold mbind at 1, M_bind at 1. by destruct (screen_watcher a s) as [[w|er|] s1].
  - done.
Qed.

Lemma steps_records s s' r : rtc watch_step s s' -> r ∈ discovery_records s -> r ∈ discovery_records s'.
Proof. intros Hs. induction Hs; [done|]. eauto using step_records. Qed.

Definition fresh_watch (s : WatchState) : Prop :=
  discovery_records s = [] /\ tk_store (wt_tracker s) = empty_store.

Lemma fresh_watch_ok s : fresh_watch s -> watch_ok s.
Proof. intros [Hd Hs]. constructor; rewrite ?Hd, ?Hs; repeat constructor. Qed.

(** However watchers report, pause and resume, and whatever happens to the issues in
    between, each problem a watcher reports has at most one issue created for it,
    which exists, and every suppressed report names the issue of its problem. *)
Theorem watch_reachable_ok s0 s :
  fresh_watch s0 -> rtc watch_step s0 s ->
  (forall r1 r2, r1 ∈ discovery_records s -> r2 ∈ discovery_records s ->
     tracks r1 -> tracks r2 -> problem r1 = problem r2 -> r1 = r2) /\
  (forall r i, r ∈ discovery_records s -> dr_created_issue_id r = Some i ->
     is_Some (find_row i (tk_store (wt_tracker s)))) /\
  (forall r, r ∈ discovery_records s -> dr_suppressed r = true ->
     exists r', r' ∈ discovery_records s /\ tracks r' /\ problem r' = problem r /\
       dr_created_issue_id r' = dr_created_issue_id r).
Proof using scan_perm.
  intros H0%fresh_watch_ok Hs. pose proof (watch_steps_ok _ _ H0 Hs) as Hok. split_and!.
  - intros r1 r2 H1 H2 T1 T2 Hp. eapply (keys_inj problem); [apply (wo_problems s Hok)|..|done];
    by apply list_elem_of_filter.
  - intros r i Hr. pose proof (wo_issues s Hok) as Hi. rewrite Forall_forall in Hi. by apply Hi.
  - intros r Hr Hsup. pose proof (wo_suppressed s Hok) as Hw. rewrite Forall_forall in Hw.
    destruct (Hw r Hr Hsup) as (r' & [Ht Hin]%list_elem_of_filter & ?). eauto.
Qed.

(** Once a report created an issue, every later report of the same problem by the
    same watcher that passes the checks is suppressed with that issue and creates
    nothing, whatever became of the issue in the meantime. *)
Theorem submit_discovery_suppressed s0 s s1 s2 s3 a e e' o o' i :
  fresh_watch s0 -> rtc watch_step s0 s ->
  submit_discovery a e s = (Ok o, s1) -> o_issue_id o = Some i ->
  rtc watch_step s1 s2 -> dedup_key e' = dedup_key e ->
  submit_discovery a e' s2 = (Ok o', s3) ->
  o_suppressed o' = true /\ created_issue_id (o_record o') = Some i /\ o_issue_id o' = None /\
  tk_store (wt_tracker s3) = tk_store (wt_tracker s2) /\ tk_log (wt_tracker s3) = tk_log (wt_tracker s2).
Proof using scan_perm.
  intros H0%fresh_watch_ok Hs He Hi H12 Hkey He'. pose proof (watch_steps_ok _ _ H0 Hs) as Hok.
  pose proof (submit_discovery_ok a e s Hok) as Hok1. rewrite He in Hok1. simpl in Hok1.
  pose proof (watch_steps_ok _ _ Hok1 H12) as Hok2.
  destruct (submit_discovery_accepted a e s o s1 Hok He) as (row & Hrec & Hp & Hsup & Hc & Hm).
  destruct (find_active_discovery (dedup_key e) a s) as [j|].
  { destruct Hm as (_ & _ & Hn & _). congruence. }
  destruct Hm as (Hns & Hco & _).
  assert (row ∈ filter tracks (discovery_records s2)) as Hrow.
  { apply list_elem_of_filter. split; [split; congruence|]. eapply steps_records; [done|].
    rewrite Hrec. apply elem_of_app. right. by left. }
  destruct (submit_discovery_accepted a e' s2 o' s3 Hok2 He') as (row' & _ & _ & _ & _ & Hm').
  rewrite Hkey, (find_active_tracked _ _ s2 row Hok2 Hrow Hp) in Hm'.
  replace (dr_created_issue_id row) with (Some i) in Hm' by congruence. done.
Qed.
End watcher.

(** ** Witnesses *)

Definition wit_policy : IssueCreationPolicy := mkPolicy true 5 None.
Definition wit_watcher : Watcher := mkWatcher "ci" TestSuite "" wit_policy WtActive 0 None 0.
Definition wit_failure : DiscoveryEventKind := TestFailureDiscovered "unit" "login" "" None.
Definition wit_state : WatchState := mkWatch [] [] ∅ wit_tracker.

Definition wit_submit (s : WatchState) : outcome WatcherError DiscoveryOutcome * WatchState :=
  @submit_discovery ascii_unicode (fun _ => Some wit_policy) event_type event_type wit_source_json
    wit_clock wit_uuid wit_scan "ci" wit_failure s.
Definition wit_watch_step : WatchState -> WatchState -> Prop :=
  @watch_step ascii_unicode (fun _ => ""%string) (fun _ => Some wit_policy) event_type event_type
    wit_source_json wit_clock wit_uuid wit_scan wit_source wit_criteria_json wit_criteria.

Definition wit_registered : WatchState := (register (fun _ => ""%string) wit_watcher wit_state).2.
Definition wit_reported : WatchState := (wit_submit wit_registered).2.
Definition wit_close (k : Tracker) : Tracker := wit_op (OpClose (wit_uuid 1) "wont_fix") k.
Definition wit_closed : WatchState :=
  mkWatch (watchers wit_reported) (discovery_records wit_reported) (watcher_rate_limits wit_reported)
    (wit_close (wt_tracker wit_reported)).

Lemma wit_registered_reachable : rtc wit_watch_step wit_state wit_registered.
Proof. apply rtc_once, step_register. Qed.

Lemma wit_closed_reachable : rtc wit_watch_step wit_reported wit_closed.
Proof. apply rtc_once, step_tracker. apply step_op. Qed.

Lemma watch_reachable_ok_witness :
  length (discovery_records wit_reported) = 1 /\
  forall r i, r ∈ discovery_records wit_reported -> dr_created_issue_id r = Some i ->
    is_Some (find_row i (tk_store (wt_tracker wit_reported))).
Proof.
  split; [vm_compute; reflexivity|].
  apply (@watch_reachable_ok ascii_unicode (fun _ => ""%string) (fun _ => Some wit_policy) event_type
    event_type wit_source_json wit_clock wit_uuid wit_scan wit_source wit_criteria_json wit_criteria
    (fun A l => reflexivity l) wit_state wit_reported); [split; reflexivity|].
  eapply rtc_r; [apply wit_registered_reachable|apply step_submit].
Defined.

Lemma submit_discovery_suppressed_witness :
  status_of (tk_store (wt_tracker wit_closed)) (wit_uuid 1) = Some Closed /\
  exists o, (wit_submit wit_closed).1 = Ok o /\ o_suppressed o = true /\
            created_issue_id (o_record o) = Some (wit_uuid 1).
Proof.
  split; [vm_compute; reflexivity|].
  destruct (wit_submit wit_registered) as [[o|er|] s1] eqn:E1;
    [|exfalso; revert E1; vm_compute; discriminate..].
  destruct (wit_submit wit_closed) as [[o'|er|] s3] eqn:E2;
    [|exfalso; revert E2; vm_compute; discriminate..].
  exists o'. split; [reflexivity|].
  destruct (@submit_discovery_suppressed ascii_unicode (fun _ => ""%string) (fun _ => Some wit_policy)
    event_type event_type wit_source_json wit_clock wit_uuid wit_scan wit_source wit_criteria_json
    wit_criteria (fun A l => reflexivity l) wit_state wit_registered wit_reported wit_closed s3
    "ci" wit_failure wit_failure o o' (wit_uuid 1)) as (Hs & Hc & _).
  - split; reflexivity.
  - apply wit_registered_reachable.
  - unfold wit_reported. rewrite E1. exact E1.
  - revert E1. vm_compute. intros [= <- _]. reflexivity.
  - apply wit_closed_reachable.
  - reflexivity.
  - exact E2.
  - split; [exact Hs|exact Hc].
Defined.
