(* ===== verification/ScopeHistory.v ===== *)
(** The intent history ([src/src/scope_history/mod.rs]): what past workspaces touched,
    the weights it gives to entities for a new intent, and the accuracy of past
    predictions. *)
From S2P Require Import Prelude Table RustStr Float64 EventLog.

Inductive ScopeHistoryError : Type := ShSqlite | ShJson.

Record IntentRecord : Type := mkIntent {
  in_id : Uuid;
  intent_text : string;
  terms : list string;
  predicted_entity_ids : list string;
  actual_entity_ids : list string;
  in_workspace_id : option string;
  recorded_at : DateTime
}.

Record AccuracyMetrics : Type := mkAccuracy {
  sample_count : N;
  avg_recall : f64;
  avg_precision : f64;
  f1_score : f64
}.

Record EntityWeight : Type := mkWeight { ew_entity_id : string; weight : f64 }.

(** A row of [intent_history]; lists are JSON text. *)
Record IntentRow : Type := mkIntentRow {
  ih_id : Uuid;
  ih_intent_text : string;
  terms_json : string;
  predicted_json : string;
  actual_json : string;
  ih_workspace_id : option string;
  ih_recorded_at : DateTime
}.

Record HistoryStore : Type := mkHistory {
  intent_history : list IntentRow;
  hs_draws : nat;
  hs_ticks : nat
}.

Section history.
(** [serde_json] on lists of strings. *)
Variable strings_to_json : list string -> string.
Variable strings_from_json : string -> option (list string).
(** The streams of [Uuid::new_v4()] and [Utc::now()]. *)
Variable uuid : nat -> Uuid.
Variable clock : nat -> DateTime.
(** The order in which a query visits the rows, and that of a [HashMap]. *)
Variable scan : forall A, list A -> list A.
Variable entries : forall A, gmap string A -> list (string * A).

Definition record (intent : string) (ts predicted actual : list string) (workspace : option string) :
    M HistoryStore ScopeHistoryError IntentRecord := fun s =>
  let id := uuid (hs_draws s) in
  let now := clock (hs_ticks s) in
  match find_by ih_id id (intent_history s) with
  | Some _ => (Err ShSqlite, mkHistory (intent_history s) (S (hs_draws s)) (S (hs_ticks s)))
  | None =>
      (Ok (mkIntent id intent ts predicted actual workspace now),
       mkHistory (intent_history s ++ [mkIntentRow id intent (strings_to_json ts)
           (strings_to_json predicted) (strings_to_json actual) workspace now])
         (S (hs_draws s)) (S (hs_ticks s)))
  end.

Definition row_to_record (r : IntentRow) : option IntentRecord :=
  ts ← strings_from_json (terms_json r);
  ps ← strings_from_json (predicted_json r);
  acts ← strings_from_json (actual_json r);
  Some (mkIntent (ih_id r) (ih_intent_text r) ts ps acts (ih_workspace_id r) (ih_recorded_at r)).

(** [ORDER BY recorded_at DESC LIMIT ..]; the first row that does not parse is the error. *)
Definition list_recent (limit : nat) (s : HistoryStore) : outcome ScopeHistoryError (list IntentRecord) :=
  match mapM row_to_record (take limit
    (sort_by (fun a b => (ih_recorded_at b <=? ih_recorded_at a)%Z) (scan _ (intent_history s)))) with
  | Some l => Ok l
  | None => Err ShJson
  end.

(** The terms of a record that are terms of the query. *)
Definition term_overlap (query : list string) (r : IntentRecord) : nat :=
  length (filter (fun t => t ∈ query) (terms r)).

Definition add_weight (score : f64) (weights : gmap string f64) (id : string) : gmap string f64 :=
  <[id := f64_add (default f64_zero (weights !! id)) score]> weights.

Definition weigh_record (query : list string) (weights : gmap string f64) (r : IntentRecord) : gmap string f64 :=
  if decide (actual_entity_ids r = []) then weights
  else
    let overlap := term_overlap query r in
    if overlap =? 0 then weights
    else
      let score := f64_div (f64_of_N (N.of_nat overlap)) (f64_of_N (N.of_nat (length query))) in
      foldl (add_weight score) weights (actual_entity_ids r).

(** [partial_cmp], with incomparable weights taken as equal. *)
Definition heavier_first (a b : EntityWeight) : bool := negb (f64_lt (weight a) (weight b)).

Definition compute_entity_weights (query : list string) (s : HistoryStore) :
    outcome ScopeHistoryError (list EntityWeight) :=
  if decide (query = []) then Ok []
  else
    records ← list_recent (Z.to_nat 10000) s;
    Ok (sort_by heavier_first
          ((fun kv => mkWeight kv.1 kv.2) <$> entries _ (foldl (weigh_record query) ∅ records))).

Definition set_size (l : list string) : N := N.of_nat (size (list_to_set l : gset string)).

(** The loop over the records: sums and the number of samples. *)
Fixpoint accuracy_loop (limit : nat) (records : list IntentRecord) (recall_sum precision_sum : f64)
    (count : nat) : f64 * f64 * nat :=
  match records with
  | [] => (recall_sum, precision_sum, count)
  | r :: records' =>
      if decide (predicted_entity_ids r = [] \/ actual_entity_ids r = [])
      then accuracy_loop limit records' recall_sum precision_sum count
      else if limit <=? count then (recall_sum, precision_sum, count)
      else
        let actual : gset string := list_to_set (actual_entity_ids r) in
        let predicted : gset string := list_to_set (predicted_entity_ids r) in
        let true_positives := f64_of_N (N.of_nat (size (predicted ∩ actual))) in
        accuracy_loop limit records'
          (f64_add recall_sum (f64_div true_positives (f64_of_N (set_size (actual_entity_ids r)))))
          (f64_add precision_sum (f64_div true_positives (f64_of_N (set_size (predicted_entity_ids r)))))
          (S count)
  end.

Definition accuracy (limit : nat) (s : HistoryStore) : outcome ScopeHistoryError AccuracyMetrics :=
  records ← list_recent (limit * 2) s;
  let '(recall_sum, precision_sum, count) := accuracy_loop limit records f64_zero f64_zero 0 in
  Ok (if count =? 0 then mkAccuracy 0 f64_zero f64_zero f64_zero
      else
        let n := f64_of_N (N.of_nat count) in
        let r := f64_div recall_sum n in
        let p := f64_div precision_sum n in
        mkAccuracy (N.of_nat count) r p
          (if f64_lt f64_zero (f64_add r p)
           then f64_div (f64_mul (f64_mul (f64_of_N 2) p) r) (f64_add p r)
           else f64_zero)).

End history.

(** ** What the weights cover *)

Definition relevant (query : list string) (r : IntentRecord) : Prop := exists t, t ∈ terms r /\ t ∈ query.

Lemma term_overlap_zero query r : term_overlap query r = 0 <-> ~ relevant query r.
Proof.
  unfold term_overlap, relevant. rewrite length_zero_iff_nil. split.
  - intros Hn (t & Ht & Hq). assert (t ∈ filter (fun t => t ∈ query) (terms r)) as Hin
      by by apply list_elem_of_filter.
    rewrite Hn in Hin. by apply not_elem_of_nil in Hin.
  - intros Hn. apply elem_of_nil_inv. intros t [Hq Ht]%list_elem_of_filter. eauto.
Qed.

Lemma add_weight_dom score ids weights x :
  x ∈ dom (foldl (add_weight score) weights ids) <-> x ∈ dom weights \/ x ∈ ids.
Proof.
  revert weights. induction ids as [|id ids IH]; intros weights; simpl; [set_solver|].
  rewrite IH. unfold add_weight. rewrite dom_insert. set_solver.
Qed.

Lemma weigh_records_dom query records weights x :
  x ∈ dom (foldl (weigh_record query) weights records) <->
  x ∈ dom weights \/ exists r, r ∈ records /\ relevant query r /\ x ∈ actual_entity_ids r.
Proof.
  revert weights. induction records as [|r records IH]; intros weights; simpl; [set_solver|].
  rewrite IH. setoid_rewrite elem_of_cons. unfold weigh_record. case_decide as Ha.
  { assert (x ∉ actual_entity_ids r) by (rewrite Ha; apply not_elem_of_nil). naive_solver. }
  destruct (Nat.eqb_spec (term_overlap query r) 0) as [Hz|Hz].
  - apply term_overlap_zero in Hz. naive_solver.
  - rewrite term_overlap_zero in Hz. rewrite add_weight_dom.
    destruct (decide (x ∈ actual_entity_ids r)) as [Hx|Hx]; [|naive_solver].
    split; [|tauto]. intros _. right. exists r. split_and!; [by left| |done].
    unfold relevant in *. destruct (decide (Exists (fun t => t ∈ query) (terms r))) as [He|He].
    + apply Exists_exists in He. done.
    + destruct Hz. intros (t & Ht & Hq). apply He, Exists_exists. eauto.
Qed.

Section weights.
Variable strings_from_json : string -> option (list string).
Variable scan : forall A, list A -> list A.
Variable entries : forall A, gmap string A -> list (string * A).
Hypothesis entries_perm : forall A (m : gmap string A), entries A m ≡ₚ map_to_list m.

(** The weighted entities are those the relevant records touched, each once. *)
Lemma compute_entity_weights_ids query s records :
  list_recent strings_from_json scan (Z.to_nat 10000) s = Ok records -> query <> [] ->
  exists ws, compute_entity_weights strings_from_json scan entries query s = Ok ws /\ NoDup (ew_entity_id <$> ws) /\
    forall x, x ∈ ew_entity_id <$> ws <->
      exists r, r ∈ records /\ relevant query r /\ x ∈ actual_entity_ids r.
Proof using entries_perm.
  intros Hr Hq. unfold compute_entity_weights. rewrite decide_False by done. rewrite Hr. simpl.
  eexists. split; [reflexivity|]. set (m := foldl _ _ _). set (l := sort_by _ _).
  assert (ew_entity_id <$> l ≡ₚ fst <$> map_to_list m) as Hp.
  { unfold l. rewrite sort_by_perm, <-list_fmap_compose, entries_perm. done. }
  rewrite Hp. split; [apply NoDup_fst_map_to_list|]. intros x. rewrite Hp.
  transitivity (x ∈ dom m).
  - rewrite elem_of_dom. unfold is_Some. setoid_rewrite <-elem_of_map_to_list.
    rewrite list_elem_of_fmap. split; [by intros ([k v] & -> & ?); eauto|]. intros [v Hv]. by exists (x, v).
  - unfold m. rewrite weigh_records_dom. set_solver.
Qed.
End weights.
