(* ===== verification/ScopeInference.v ===== *)
(** Scope inference ([src/src/scope_inference/mod.rs]): the terms of an intent, the
    entities they match, the expansion along relationships with its distances, and
    the adjustment by the intent history. *)
From S2P Require Import Prelude Table RustStr Float64 Graph EventLog ScopeHistory.

Inductive ScopeInferenceError : Type := SiGraph | SiHistory (e : ScopeHistoryError).

Inductive ConfidenceLevel : Type := Low | Medium | High.

Definition confidence_rank (c : ConfidenceLevel) : nat :=
  match c with Low => 0 | Medium => 1 | High => 2 end.

Definition confidence_label (c : ConfidenceLevel) : string :=
  match c with High => "HIGH" | Medium => "MEDIUM" | Low => "LOW" end.

Record ScopedEntity : Type := mkScoped {
  entity : Entity;
  confidence : ConfidenceLevel;
  reason : string
}.

Record HistoryInfluence : Type := mkInfluence {
  past_intent : string;
  hi_entity_ids : list string;
  hi_term_overlap : nat
}.

Record ScopeInference : Type := mkInference {
  intent : string;
  si_terms : list string;
  predicted_scope : list ScopedEntity;
  history_influences : list HistoryInfluence;
  inferred_at : DateTime
}.

Definition inference_stop_words : list string :=
  ["a"; "an"; "the"; "this"; "that"; "these"; "those"; "each"; "every";
   "some"; "any"; "all"; "both"; "few"; "more"; "most"; "other"; "such";
   "in"; "on"; "at"; "by"; "for"; "of"; "to"; "up"; "as"; "or"; "and";
   "but"; "not"; "nor"; "so"; "yet"; "with"; "into"; "from"; "about";
   "above"; "after"; "before"; "below"; "between"; "during"; "through";
   "it"; "its"; "they"; "them"; "their"; "we"; "our"; "you"; "your";
   "he"; "she"; "his"; "her"; "who"; "which"; "what"; "where"; "when";
   "how"; "why";
   "is"; "are"; "was"; "were"; "be"; "been"; "being"; "have"; "has";
   "had"; "do"; "does"; "did"; "will"; "would"; "could"; "should";
   "may"; "might"; "shall"; "can";
   "add"; "fix"; "update"; "implement"; "change"; "refactor"; "remove";
   "delete"; "create"; "make"; "build"; "use"; "using"; "get"; "set";
   "new"; "old"; "now"; "also"; "just"; "very"; "too"; "than"; "then";
   "there"; "if"; "else"; "while"; "return"; "need"; "needs"; "want"]%string.

(** [t.trim_matches('_')] *)
Definition is_underscore (a : ascii) : bool := Ascii.eqb a "_"%char.
Fixpoint drop_underscores (b : bytes) : bytes :=
  match b with
  | a :: b' => if is_underscore a then drop_underscores b' else b
  | [] => []
  end.
Definition trim_underscores (s : string) : string :=
  string_of (rev (drop_underscores (rev (drop_underscores (bytes_of s))))).

(** The highest confidence first; equal ones stay in order. *)
Definition more_confident (a b : ScopedEntity) : bool :=
  confidence_rank (confidence b) <=? confidence_rank (confidence a).

(** The queries of an inference. *)
Inductive Query : Type := SearchBroad (term : string) | RelationshipsOf (id : string) | EntitiesByIds (ids : list string).

(** A step of a loop with fuel that can fail. *)
Definition then_ok {E A B} (m : option (outcome E A)) (f : A -> option (outcome E B)) : option (outcome E B) :=
  match m with
  | None => None
  | Some (Ok a) => f a
  | Some (Err e) => Some (Err e)
  | Some Panic => Some Panic
  end.

Section inference.
Context {unicode : Unicode}.
(** The queries that SQLite answers with an error, and the most variables it takes in one. *)
Variable fails : Query -> bool.
Variable max_variables : nat.
(** The order in which a [HashMap] is iterated. *)
Variable entries : forall A, gmap string A -> list (string * A).

Definition extract_terms (intent : string) : list string :=
  first_occurrences ∅
    (filter (fun t => (3 <= String.length t) /\ t ∉ inference_stop_words)
      ((fun t => to_lowercase (trim_underscores t)) <$>
        split_chars (fun c => negb (is_alphanumeric c) && negb (String.eqb c "_")) intent)).

(** [lower(column) LIKE '%term%'], where SQLite folds ASCII only. *)
Definition column_matches (term column : string) : bool :=
  sql_like (bytes_of ("%" +:+ to_lowercase term +:+ "%")) (lower_ascii <$> bytes_of column).

Definition broad_match (term : string) (e : Entity) : bool :=
  column_matches term (e_name e) || column_matches term (qualified_name e) || column_matches term (e_file_path e).

(** [GraphSnapshot::search_entities_broad] *)
Definition search_entities_broad (g : GraphSnapshot) (term : string) : list Entity :=
  sort_by by_file_line (filter (fun e => broad_match term e = true) (entities g)).

(** One candidate of one term: a new entry, or a better confidence for the old one. *)
Definition match_candidate (term : string) (scope : gmap string ScopedEntity) (e : Entity) :
    gmap string ScopedEntity :=
  let conf := if String.eqb (to_lowercase (e_name e)) term then High else Medium in
  let why := "name/path matches term '" +:+ term +:+ "'" in
  match scope !! e_id e with
  | Some old =>
      if confidence_rank (confidence old) <? confidence_rank conf
      then <[e_id e := mkScoped (entity old) conf why]> scope
      else scope
  | None => <[e_id e := mkScoped e conf why]> scope
  end.

Definition ask_graph {A} (q : Query) (a : A) : outcome ScopeInferenceError A := if fails q then Err SiGraph else Ok a.

Fixpoint match_terms (g : GraphSnapshot) (ts : list string) (scope : gmap string ScopedEntity) :
    outcome ScopeInferenceError (gmap string ScopedEntity) :=
  match ts with
  | [] => Ok scope
  | t :: ts' =>
      candidates ← ask_graph (SearchBroad t) (search_entities_broad g t);
      match_terms g ts' (foldl (match_candidate t) scope candidates)
  end.

(** The inner loop of the expansion: neighbours without a distance get one. *)
Fixpoint hop_neighbors (id : string) (hops : nat) (rels : list Relationship)
    (dist : gmap string nat) (queue : list (string * nat)) : gmap string nat * list (string * nat) :=
  match rels with
  | [] => (dist, queue)
  | rel :: rels' =>
      let n := neighbor id rel in
      match dist !! n with
      | Some _ => hop_neighbors id hops rels' dist queue
      | None => hop_neighbors id hops rels' (<[n := S hops]> dist) (queue ++ [(n, S hops)])
      end
  end.

(** [while let Some((id, hops)) = queue.pop_front()]; [None] when the fuel ends first. *)
Fixpoint hop_loop (fuel : nat) (g : GraphSnapshot) (max_hops : nat)
    (dist : gmap string nat) (queue : list (string * nat)) : option (outcome ScopeInferenceError (gmap string nat)) :=
  match queue with
  | [] => Some (Ok dist)
  | (id, hops) :: queue' =>
      match fuel with
      | 0 => None
      | S fuel =>
          if max_hops <=? hops then hop_loop fuel g max_hops dist queue'
          else
            then_ok (Some (ask_graph (RelationshipsOf id) (get_relationships_for_entity g id))) (fun rels =>
              let '(dist', queue'') := hop_neighbors id hops rels dist queue' in
              hop_loop fuel g max_hops dist' queue'')
      end
  end.

Definition hop_distances (g : GraphSnapshot) (seeds : list string) (max_hops : nat) :
    option (outcome ScopeInferenceError (gmap string nat)) :=
  hop_loop (bfs_fuel g seeds) g max_hops (list_to_map ((fun id => (id, 0)) <$> seeds))
    ((fun id => (id, 0)) <$> seeds).

(** [get_entities_by_ids] has one variable for every id. *)
Definition entities_by_ids (g : GraphSnapshot) (ids : list string) : outcome ScopeInferenceError (list Entity) :=
  if bool_decide (ids = []) then Ok []
  else if max_variables <? length ids then Err SiGraph
  else ask_graph (EntitiesByIds ids) (get_entities_by_ids g ids).

Definition add_hop (max_hops : nat) (dist : gmap string nat) (scope : gmap string ScopedEntity) (e : Entity) :
    gmap string ScopedEntity :=
  let hops := default max_hops (dist !! e_id e) in
  match scope !! e_id e with
  | Some _ => scope
  | None =>
      <[e_id e := mkScoped e (if hops =? 1 then Medium else Low)
          (print_u64 (N.of_nat hops) +:+ "-hop relationship from direct match")]> scope
  end.

(** The ids the expansion adds. *)
Definition new_ids (dist : gmap string nat) (scope : gmap string ScopedEntity) : list string :=
  fst <$> filter (fun kv => (0 < kv.2) /\ scope !! kv.1 = None) (entries _ dist).

Definition expand_hops (g : GraphSnapshot) (max_hops : nat) (scope : gmap string ScopedEntity) :
    option (outcome ScopeInferenceError (gmap string ScopedEntity)) :=
  if (0 <? max_hops) && negb (bool_decide (scope = ∅)) then
    then_ok (hop_distances g (fst <$> entries _ scope) max_hops) (fun dist =>
      Some (es ← entities_by_ids g (new_ids dist scope); Ok (foldl (add_hop max_hops dist) scope es)))
  else Some (Ok scope).

(** [None] when the expansion does not end within the fuel; [now] is [Utc::now()]. *)
Definition infer (g : GraphSnapshot) (text : string) (max_hops : nat) (now : DateTime) :
    option (outcome ScopeInferenceError ScopeInference) :=
  let ts := extract_terms text in
  then_ok (Some (match_terms g ts ∅)) (fun direct =>
    then_ok (expand_hops g max_hops direct) (fun scope =>
      Some (Ok (mkInference text ts (sort_by more_confident (snd <$> entries _ scope)) [] now)))).

(** ** The expansion finds the distances *)

(** [k] is the least number of relationship steps from a seed. *)
Definition at_distance (g : GraphSnapshot) (seeds : list string) (k : nat) (x : string) : Prop :=
  within_hops g seeds k x /\ forall j, within_hops g seeds j x -> k <= j.

Lemma hop_neighbors_visit id hops rels dist queue :
  let r := hop_neighbors id hops rels dist queue in
  let v := visit_neighbors id hops rels (dom dist) queue in
  dom r.1 = v.1 /\ r.2 = v.2 /\
  forall x k, r.1 !! x = Some k -> dist !! x = Some k \/ (k = S hops /\ (x ∉ dom dist) /\ x ∈ v.1).
Proof.
  revert dist queue. induction rels as [|rel rels IH]; intros dist queue; simpl; [by auto|].
  destruct (dist !! neighbor id rel) as [k0|] eqn:E.
  - rewrite decide_True by by apply elem_of_dom. apply IH.
  - rewrite decide_False by by apply not_elem_of_dom.
    specialize (IH (<[neighbor id rel := S hops]> dist) (queue ++ [(neighbor id rel, S hops)])).
    rewrite dom_insert_L in IH. destruct IH as (H1 & H2 & H3). split_and!; [done..|].
    intros x k Hx. pose proof Hx as Hd. apply elem_of_dom_2 in Hd. rewrite H1 in Hd.
    apply H3 in Hx as [Hx|(-> & Hn & Hv)].
    + apply lookup_insert_Some in Hx as [[<- <-]|[_ Hx]]; [|by left].
      right. split_and!; [done|by apply not_elem_of_dom|done].
    + right. split_and!; [done| |done]. set_solver.
Qed.

Section distances.
Variable g : GraphSnapshot.
Variable seeds : list string.
Variable max_hops : nat.

Definition dist_ok (dist : gmap string nat) : Prop :=
  forall x k, dist !! x = Some k -> at_distance g seeds k x.

(** The distances, or the error of a query about an entity that is near enough. *)
Definition loop_ok (r : outcome ScopeInferenceError (gmap string nat)) : Prop :=
  match r with
  | Ok dist => dist_ok dist /\ forall x, x ∈ dom dist <-> within_hops g seeds max_hops x
  | Err e => e = SiGraph /\ exists id, within_hops g seeds max_hops id /\ fails (RelationshipsOf id) = true
  | Panic => False
  end.

Lemma hop_loop_spec fuel : forall h A B dist,
  bfs_inv g seeds max_hops h A B (dom dist) -> dist_ok dist ->
  length A + length B + size (universe g seeds) <= fuel + size (dom dist) ->
  exists r, hop_loop fuel g max_hops dist (level_queue h A B) = Some r /\ loop_ok r.
Proof.
  induction fuel as [|fuel IH]; intros h A B dist Hinv Hok Hf.
  { pose proof (subseteq_size _ _ (inv_universe _ _ _ _ _ _ _ Hinv)).
    destruct A, B; simpl in Hf; try lia. exists (Ok dist). split; [done|]. split; [done|].
    by apply (bfs_inv_final g seeds max_hops h). }
  assert (Hstep : forall h a A B, bfs_inv g seeds max_hops h (a :: A) B (dom dist) ->
    S (length A) + length B + size (universe g seeds) <= S fuel + size (dom dist) ->
    exists r, hop_loop (S fuel) g max_hops dist (level_queue h (a :: A) B) = Some r /\ loop_ok r).
  { clear h A B Hinv Hf. intros h a A B Hinv Hf.
    change (level_queue h (a :: A) B) with ((a, h) :: level_queue h A B). cbn [hop_loop].
    destruct (Nat.leb_spec max_hops h) as [Hle|Hlt].
    - apply IH; [|done|lia]. destruct Hinv as [Hh Hs HA HB Hc Hd Hu]. split; try done.
      + intros x Hx. apply HA. by right.
      + intros x y ?. lia.
    - unfold ask_graph. destruct (fails (RelationshipsOf a)) eqn:Ef.
      { exists (Err SiGraph). split; [done|]. split; [done|]. exists a. split; [|done].
        apply (within_hops_le g seeds h); [lia|]. apply (inv_A _ _ _ _ _ _ _ Hinv). by left. }
      cbn [then_ok].
      destruct (bfs_inv_expand g seeds max_hops h a A B (dom dist) Hinv Hlt) as (new & Hq & Hi & Hn).
      destruct (hop_neighbors_visit a h (get_relationships_for_entity g a) dist (level_queue h A B))
        as (H1 & H2 & H3).
      destruct (hop_neighbors _ _ _ _ _) as [dist1 q]. simpl in *. rewrite H2, Hq.
      rewrite <-H1 in Hi, Hn. apply IH; [done| |rewrite length_app; lia].
      intros x k Hx. pose proof Hx as Hd. apply elem_of_dom_2 in Hd.
      apply H3 in Hx as [Hx|(-> & Hnd & _)]; [by apply Hok|]. split.
      + destruct (inv_sound _ _ _ _ _ _ _ Hi x Hd) as [Hw|Hw].
        * by left.
        * by apply (inv_B _ _ _ _ _ _ _ Hi).
      + intros j Hj. destruct (decide (j <= h)) as [Hjh|]; [|lia]. destruct Hnd.
        apply (inv_complete _ _ _ _ _ _ _ Hinv). by apply (within_hops_le g seeds j h). }
  destruct A as [|a A]; [|by apply Hstep].
  destruct B as [|b B]; [exists (Ok dist); split; [done|split; [done|by apply (bfs_inv_final g seeds max_hops h)]]|].
  replace (level_queue h [] (b :: B)) with (level_queue (S h) (b :: B) []).
  - apply Hstep; [by apply bfs_inv_shift|]. simpl in *. lia.
  - unfold level_queue. simpl. by rewrite app_nil_r.
Qed.

Lemma hop_distances_spec :
  NoDup seeds ->
  exists r, hop_distances g seeds max_hops = Some r /\
    match r with
    | Ok dist => forall x k, dist !! x = Some k <-> k <= max_hops /\ at_distance g seeds k x
    | Err e => e = SiGraph /\ exists id, within_hops g seeds max_hops id /\ fails (RelationshipsOf id) = true
    | Panic => False
    end.
Proof.
  intros Hnd. unfold hop_distances. set (d0 := list_to_map _ : gmap string nat).
  assert (Hd0 : forall x k, d0 !! x = Some k <-> x ∈ seeds /\ k = 0).
  { intros x k. unfold d0. rewrite <-elem_of_list_to_map.
    - rewrite list_elem_of_fmap. naive_solver.
    - by rewrite <-list_fmap_compose, list_fmap_id. }
  assert (Hdom : forall x, x ∈ dom d0 <-> x ∈ seeds).
  { intros x. rewrite elem_of_dom. unfold is_Some. setoid_rewrite Hd0. naive_solver. }
  destruct (bfs_inv_init g seeds max_hops seeds (dom d0)) as [Hinv Hfuel]; [done|naive_solver|done|].
  destruct (hop_loop_spec (bfs_fuel g seeds) 0 seeds [] d0) as (r & Hl & Hr); [done| |done|].
  { intros x k [Hx ->]%Hd0. split; [done|]. lia. }
  exists r. split.
  { rewrite <-Hl. unfold level_queue. simpl. by rewrite app_nil_r. }
  destruct r as [dist|e|]; [|exact Hr|done]. destruct Hr as [Hok Hdist].
  intros x k. split.
  - intros Hx. pose proof (Hok x k Hx) as Ha. split; [|done]. apply Ha, Hdist. by eapply elem_of_dom_2.
  - intros [Hk [Hw Hmin]]. assert (x ∈ dom dist) as [k' Hk']%elem_of_dom
      by (apply Hdist; by apply (within_hops_le g seeds k)).
    rewrite Hk'. f_equal. destruct (Hok x k' Hk') as [Hw' Hmin']. apply Nat.le_antisymm; auto.
Qed.
End distances.

(** ** The direct matches *)

(** The entities some term matches, and those some term names. *)
Definition direct (ts : list string) (e : Entity) : Prop := exists t, t ∈ ts /\ broad_match t e = true.
Definition named (ts : list string) (e : Entity) : Prop :=
  exists t, t ∈ ts /\ broad_match t e = true /\ to_lowercase (e_name e) = t.

(** Some candidate of [cs], pairs of a term and an entity it matches, names [e]. *)
Definition named_in (cs : list (string * Entity)) (e : Entity) : Prop :=
  (to_lowercase (e_name e), e) ∈ cs.

Lemma named_in_snoc cs t e e' :
  named_in (cs ++ [(t, e)]) e' <-> named_in cs e' \/ (e' = e /\ to_lowercase (e_name e) = t).
Proof.
  unfold named_in. rewrite elem_of_app, list_elem_of_singleton. split.
  - intros [H|[= Ht He]]; [by left|right]. subst. done.
  - intros [H|[-> <-]]; auto.
Qed.

(** What the scope holds after the candidates [cs]. *)
Definition entry_ok (cs : list (string * Entity)) (id : string) (se : ScopedEntity) : Prop :=
  e_id (entity se) = id /\ entity se ∈ cs.*2 /\ confidence se <> Low /\
  (confidence se = High <-> named_in cs (entity se)).
Definition scope_of (cs : list (string * Entity)) (scope : gmap string ScopedEntity) : Prop :=
  (forall id se, scope !! id = Some se -> entry_ok cs id se) /\
  (forall e, e ∈ cs.*2 -> is_Some (scope !! e_id e)).

Lemma entry_ok_snoc cs t e id se :
  entry_ok cs id se -> (entity se = e -> to_lowercase (e_name e) = t -> confidence se = High) ->
  entry_ok (cs ++ [(t, e)]) id se.
Proof.
  intros (Hid & Hin & Hl & Hh) He. unfold entry_ok. rewrite named_in_snoc, fmap_app, elem_of_app.
  split_and!; [done|by left|done|]. rewrite <-Hh. naive_solver.
Qed.

Lemma entry_ok_new cs t e se :
  entity se = e -> confidence se = (if String.eqb (to_lowercase (e_name e)) t then High else Medium) ->
  (named_in cs e -> confidence se = High) -> entry_ok (cs ++ [(t, e)]) (e_id e) se.
Proof.
  intros He Hc Hold. unfold entry_ok. rewrite He, named_in_snoc, fmap_app, elem_of_app.
  split_and!; [done|right; by left|rewrite Hc; by case_match|].
  destruct (String.eqb_spec (to_lowercase (e_name e)) t) as [Ht|Ht].
  - split; [by right|done].
  - split; [congruence|]. intros [Hn|[_ ?]]; [by apply Hold|done].
Qed.

Section matching.
Variable g : GraphSnapshot.
(** The primary key of the table of entities. *)
Hypothesis entities_unique : NoDup (e_id <$> entities g).

Lemma match_candidate_scope t e cs scope :
  Forall (fun te => te.2 ∈ entities g) cs -> e ∈ entities g ->
  scope_of cs scope -> scope_of (cs ++ [(t, e)]) (match_candidate t scope e).
Proof using entities_unique.
  intros Hcs He [H1 H2]. unfold match_candidate.
  assert (Hsame : forall e', e' ∈ cs.*2 -> e_id e' = e_id e -> e' = e).
  { intros e' ([t' e''] & -> & Hin)%list_elem_of_fmap Hid. rewrite Forall_forall in Hcs.
    by apply (keys_inj e_id (entities g)); [|apply (Hcs _ Hin)|..]. }
  destruct (scope !! e_id e) as [old|] eqn:Eo.
  - destruct (H1 _ _ Eo) as (Ho1 & Ho2 & Ho3 & Ho4). pose proof (Hsame _ Ho2 Ho1) as Heq.
    case_match eqn:Hr.
    + split.
      * intros id se [[<- <-]|[Hne Hs]]%lookup_insert_Some.
        -- apply entry_ok_new; [done|done|]. simpl. rewrite <-Heq. intros Hn%Ho4. rewrite Hn in Hr.
           by destruct (String.eqb _ _).
        -- apply entry_ok_snoc; [by apply H1|]. intros Hse. destruct Hne. rewrite <-Hse. by destruct (H1 _ _ Hs).
      * intros e'. rewrite fmap_app, elem_of_app. cbn. intros [Hin| ->%list_elem_of_singleton]; [|by rewrite lookup_insert_eq].
        apply lookup_insert_is_Some. destruct (decide (e_id e = e_id e')); [by left|right; auto].
    + split.
      * intros id se Hs. apply entry_ok_snoc; [by apply H1|]. intros Hse Hn.
        destruct (H1 _ _ Hs) as (Hid & _). rewrite Hse in Hid. rewrite Hid in Eo.
        rewrite Hs in Eo. injection Eo as <-. rewrite Hn, String.eqb_refl in Hr.
        destruct (confidence se); simpl in Hr; done.
      * intros e'. rewrite fmap_app, elem_of_app. cbn. intros [Hin| ->%list_elem_of_singleton]; [auto|]. by rewrite Eo.
  - split.
    + intros id se [[<- <-]|[Hne Hs]]%lookup_insert_Some.
      * apply entry_ok_new; [done|done|]. intros Hn. assert (e ∈ cs.*2) as Hin
          by (apply list_elem_of_fmap; by exists (to_lowercase (e_name e), e)).
        apply H2 in Hin. rewrite Eo in Hin. by destruct Hin.
      * apply entry_ok_snoc; [by apply H1|]. intros Hse. destruct Hne. rewrite <-Hse. by destruct (H1 _ _ Hs).
    + intros e'. rewrite fmap_app, elem_of_app. cbn. intros [Hin| ->%list_elem_of_singleton]; [|by rewrite lookup_insert_eq].
      apply lookup_insert_is_Some. destruct (decide (e_id e = e_id e')); [by left|right; auto].
Qed.

Definition candidates (ts : list string) : list (string * Entity) :=
  ts ≫= fun t => (t,.) <$> search_entities_broad g t.

Lemma search_entities_broad_elem t e :
  e ∈ search_entities_broad g t <-> e ∈ entities g /\ broad_match t e = true.
Proof. unfold search_entities_broad. rewrite sort_by_elem_of, list_elem_of_filter. tauto. Qed.

Lemma candidates_elem ts t e :
  (t, e) ∈ candidates ts <-> t ∈ ts /\ e ∈ entities g /\ broad_match t e = true.
Proof.
  unfold candidates. rewrite list_elem_of_bind. setoid_rewrite list_elem_of_fmap. split.
  - intros (t' & (e' & [= -> ->] & He%search_entities_broad_elem) & Ht). done.
  - intros (Ht & He). exists t. split; [|done]. exists e. split; [done|]. by apply search_entities_broad_elem.
Qed.

Lemma match_candidates_scope t es cs scope :
  Forall (fun te => te.2 ∈ entities g) cs -> Forall (fun e => e ∈ entities g) es -> scope_of cs scope ->
  scope_of (cs ++ ((t,.) <$> es)) (foldl (match_candidate t) scope es).
Proof using entities_unique.
  revert cs scope. induction es as [|e es IH]; intros cs scope Hcs Hes Hs; [by rewrite app_nil_r|].
  rewrite fmap_cons. cbn [foldl]. apply Forall_cons in Hes as [He Hes].
  replace (cs ++ (t, e) :: ((t,.) <$> es)) with ((cs ++ [(t, e)]) ++ ((t,.) <$> es))
    by by rewrite <-app_assoc.
  apply IH; [|done|by apply match_candidate_scope]. apply Forall_app. by repeat constructor.
Qed.

(** The matches when every query is answered. *)
Definition direct_matches (ts : list string) : gmap string ScopedEntity :=
  foldl (fun scope t => foldl (match_candidate t) scope (search_entities_broad g t)) ∅ ts.

Lemma match_terms_direct ts :
  match match_terms g ts ∅ with
  | Ok scope => scope = direct_matches ts
  | Err e => e = SiGraph /\ exists t, t ∈ ts /\ fails (SearchBroad t) = true
  | Panic => False
  end.
Proof using.
  unfold direct_matches. generalize (∅ : gmap string ScopedEntity). induction ts as [|t ts IH]; intros scope; [done|].
  cbn [match_terms foldl]. unfold ask_graph. destruct (fails (SearchBroad t)) eqn:E; simpl; [split; [done|]; exists t; split; [by left|done]|].
  specialize (IH (foldl (match_candidate t) scope (search_entities_broad g t))). destruct (match_terms g ts _) as [x|e|]; [done| |done].
  destruct IH as [-> (t' & Ht & Hf)]. split; [done|]. exists t'. split; [by right|done].
Qed.

Lemma match_terms_scope ts : scope_of (candidates ts) (direct_matches ts).
Proof using entities_unique.
  unfold direct_matches. change (candidates ts) with ([] ++ candidates ts).
  assert (Forall (fun te => te.2 ∈ entities g) (@nil (string * Entity))) as Hcs by constructor.
  assert (scope_of [] ∅) as Hs.
  { split; [by intros id se ?%lookup_empty_Some|]. by intros e ?%not_elem_of_nil. }
  revert Hcs Hs. generalize (@nil (string * Entity)) (∅ : gmap string ScopedEntity).
  unfold candidates. induction ts as [|t ts IH]; intros cs scope Hcs Hs; [by rewrite app_nil_r|]. rewrite bind_cons. simpl.
  assert (Forall (fun e => e ∈ entities g) (search_entities_broad g t)) as Hes.
  { apply Forall_forall. intros e He. by apply search_entities_broad_elem in He as [He _]. }
  rewrite app_assoc. apply IH; [|by apply match_candidates_scope].
  apply Forall_app. split; [done|]. apply Forall_fmap. exact Hes.
Qed.

Lemma match_terms_Some ts id se :
  direct_matches ts !! id = Some se ->
  e_id (entity se) = id /\ entity se ∈ entities g /\ direct ts (entity se) /\
  (confidence se = High \/ confidence se = Medium) /\ (confidence se = High <-> named ts (entity se)).
Proof using entities_unique.
  intros Hs. destruct (match_terms_scope ts) as [H1 _].
  destruct (H1 id se Hs) as (Hid & ([t e] & He & Hin%candidates_elem)%list_elem_of_fmap & Hl & Hh).
  simpl in He. subst e. unfold named_in in Hh. rewrite candidates_elem in Hh.
  split_and!; [done|apply Hin|by exists t; split; apply Hin|by destruct (confidence se); auto|].
  rewrite Hh. unfold named. naive_solver.
Qed.

Lemma match_terms_is_Some ts e :
  e ∈ entities g -> is_Some (direct_matches ts !! e_id e) <-> direct ts e.
Proof using entities_unique.
  intros He. split.
  - intros [se Hs]. apply match_terms_Some in Hs as (Hid & Hin & Hd & _).
    by rewrite (keys_inj e_id (entities g) e (entity se)).
  - intros (t & Ht & Hm). destruct (match_terms_scope ts) as [_ H2]. apply H2.
    apply list_elem_of_fmap. exists (t, e). split; [done|]. by apply candidates_elem.
Qed.

(** ** The inference *)

Hypothesis entries_perm : forall A (m : gmap string A), entries A m ≡ₚ map_to_list m.

Lemma entries_elem {A} (m : gmap string A) k v : (k, v) ∈ entries A m <-> m !! k = Some v.
Proof using entries_perm. rewrite entries_perm. apply elem_of_map_to_list. Qed.

Lemma entries_keys_NoDup {A} (m : gmap string A) : NoDup (fst <$> entries A m).
Proof using entries_perm. rewrite entries_perm. apply NoDup_fst_map_to_list. Qed.

(** Adding the entities the expansion reached. *)
Lemma add_hops_lookup max_hops dist es scope id :
  NoDup (e_id <$> es) ->
  foldl (add_hop max_hops dist) scope es !! id =
  match scope !! id with
  | Some se => Some se
  | None => (fun e => let hops := default max_hops (dist !! id) in
      mkScoped e (if hops =? 1 then Medium else Low)
        (print_u64 (N.of_nat hops) +:+ "-hop relationship from direct match")) <$> find_by e_id id es
  end.
Proof.
  revert scope. induction es as [|e es IH]; intros scope Hnd; simpl; [by destruct (scope !! id)|].
  apply NoDup_cons in Hnd as [Hn Hnd]. rewrite IH by done. unfold add_hop, find_by.
  destruct (decide (e_id e = id)) as [<-|Hne].
  - rewrite filter_cons_True by done. simpl. destruct (scope !! e_id e) eqn:E; [by rewrite E|].
    by rewrite lookup_insert_eq.
  - rewrite filter_cons_False by done. destruct (scope !! e_id e); [done|].
    by rewrite lookup_insert_ne.
Qed.

Lemma get_entities_by_ids_elem ids e :
  e ∈ get_entities_by_ids g ids <-> e ∈ entities g /\ e_id e ∈ ids.
Proof.
  unfold get_entities_by_ids. destruct ids as [|i ids].
  - split; [by intros ?%not_elem_of_nil|]. by intros [_ ?%not_elem_of_nil].
  - rewrite sort_by_elem_of, list_elem_of_filter. tauto.
Qed.

Lemma get_entities_by_ids_NoDup ids : NoDup (e_id <$> get_entities_by_ids g ids).
Proof using entities_unique.
  unfold get_entities_by_ids. destruct ids; [constructor|]. rewrite sort_by_perm.
  apply NoDup_fmap_2_strong; [|by apply NoDup_filter, (NoDup_fmap_1 e_id)].
  intros x y [_ Hx]%list_elem_of_filter [_ Hy]%list_elem_of_filter. by apply (keys_inj e_id (entities g)).
Qed.

(** The ids of the direct matches. *)
Definition direct_ids (ts : list string) : list string :=
  e_id <$> filter (fun e => existsb (fun t => broad_match t e) ts = true) (entities g).

Lemma direct_existsb ts e : existsb (fun t => broad_match t e) ts = true <-> direct ts e.
Proof. unfold direct. rewrite existsb_exists. by setoid_rewrite <-list_elem_of_In. Qed.

Lemma match_terms_keys ts id : is_Some (direct_matches ts !! id) <-> id ∈ direct_ids ts.
Proof using entities_unique.
  unfold direct_ids. rewrite list_elem_of_fmap. setoid_rewrite list_elem_of_filter.
  setoid_rewrite direct_existsb. split.
  - intros [se Hs]. apply match_terms_Some in Hs as (Hid & Hin & Hd & _). eauto.
  - intros (e & -> & Hd & Hin). by apply match_terms_is_Some.
Qed.

(** What the prediction says of an entity. *)
Definition predicted_at (ts : list string) (max_hops : nat) (e : Entity) (c : ConfidenceLevel) : Prop :=
  (named ts e /\ c = High) \/
  (direct ts e /\ ~ named ts e /\ c = Medium) \/
  (~ direct ts e /\ exists h, 1 <= h <= max_hops /\ at_distance g (direct_ids ts) h (e_id e) /\
                              c = if h =? 1 then Medium else Low).

Lemma named_direct ts e : named ts e -> direct ts e.
Proof. intros (t & Ht & Hm & _). by exists t. Qed.

Lemma match_terms_predicted ts e c :
  (exists se, direct_matches ts !! e_id e = Some se /\ entity se = e /\ confidence se = c) <->
  e ∈ entities g /\ ((named ts e /\ c = High) \/ (direct ts e /\ ~ named ts e /\ c = Medium)).
Proof using entities_unique.
  split.
  - intros (se & Hs & <- & <-). apply match_terms_Some in Hs as (_ & Hin & Hd & Hc & Hn).
    split; [done|]. destruct Hc as [Hc|Hc]; rewrite Hc in *; [left|right]; intuition congruence.
  - intros [Hin Hc]. assert (direct ts e) as Hd by (destruct Hc as [[?%named_direct _]|[? _]]; done).
    apply match_terms_is_Some in Hd as [se Hs]; [|done]. exists se. split; [done|].
    apply match_terms_Some in Hs as (Hid & Hin' & _ & Hc' & Hn).
    rewrite (keys_inj e_id (entities g) (entity se) e entities_unique Hin' Hin Hid) in *.
    split; [done|]. destruct Hc as [[Hn' ->]|(_ & Hn' & ->)]; intuition.
Qed.

Lemma no_seeds_within ts : direct_matches ts = ∅ -> forall k x, ~ within_hops g (direct_ids ts) k x.
Proof using entities_unique.
  intros He k x. assert (direct_ids ts = []) as ->; [|apply within_hops_no_seed].
  apply elem_of_nil_inv. intros id Hid%match_terms_keys. rewrite He in Hid. by destruct Hid.
Qed.

Lemma distance_positive ts k e :
  e ∈ entities g -> at_distance g (direct_ids ts) k (e_id e) -> 0 < k <-> ~ direct ts e.
Proof using entities_unique.
  intros He [Hw Hmin]. rewrite <-match_terms_is_Some, match_terms_keys by done.
  split; [intros Hk Hin; apply (Hmin 0) in Hin; lia|]. intros Hn. destruct k; [done|lia].
Qed.

(** The ids that the expansion reaches without being matches. *)
Definition far_ids (ts : list string) (max_hops : nat) (ids : list string) : Prop :=
  NoDup ids /\ forall id, id ∈ ids <-> exists h, 1 <= h <= max_hops /\ at_distance g (direct_ids ts) h id.

(** What makes an inference fail: a search, a query about the relationships of an entity that is
    near enough, or the query for the entities that were reached, which are too many or not answered. *)
Definition trouble (ts : list string) (max_hops : nat) : Prop :=
  (exists t, t ∈ ts /\ fails (SearchBroad t) = true) \/
  (exists id, within_hops g (direct_ids ts) max_hops id /\ fails (RelationshipsOf id) = true) \/
  (exists ids, far_ids ts max_hops ids /\ (max_variables < length ids \/ fails (EntitiesByIds ids) = true)).

Definition accurate (ts : list string) (max_hops : nat) (dist : gmap string nat) : Prop :=
  forall x k, dist !! x = Some k <-> k <= max_hops /\ at_distance g (direct_ids ts) k x.

(** The expansion ends, with the distances from the direct matches. *)
Lemma match_distances ts max_hops :
  let seeds := fst <$> entries _ (direct_matches ts) in
  exists r, hop_distances g seeds max_hops = Some r /\
    match r with
    | Ok dist => accurate ts max_hops dist
    | Err e => e = SiGraph /\ trouble ts max_hops
    | Panic => False
    end.
Proof using entities_unique entries_perm.
  intros seeds.
  assert (Hseeds : forall x, x ∈ seeds <-> x ∈ direct_ids ts).
  { intros x. rewrite <-match_terms_keys. unfold seeds. rewrite list_elem_of_fmap. split.
    - intros ([k v] & -> & Hk%entries_elem). by exists v.
    - intros [v Hv]. exists (x, v). split; [done|]. by apply entries_elem. }
  destruct (hop_distances_spec g seeds max_hops) as (r & Hd & Hr); [apply entries_keys_NoDup|].
  exists r. split; [done|]. destruct r as [dist|e|]; [|destruct Hr as [-> (id & Hw & Hf)]|done].
  - intros x k. rewrite Hr. unfold at_distance.
    rewrite (within_hops_seeds g seeds (direct_ids ts)) by done.
    by setoid_rewrite (within_hops_seeds g seeds (direct_ids ts) _ x Hseeds).
  - split; [done|]. right. left. exists id. split; [|done]. by apply (within_hops_seeds g seeds (direct_ids ts)).
Qed.

Lemma new_ids_NoDup (dist : gmap string nat) scope : NoDup (new_ids dist scope).
Proof using entries_perm.
  unfold new_ids. rewrite entries_perm. pose proof (NoDup_fst_map_to_list dist) as H. revert H. generalize (map_to_list dist).
  intros l. induction l as [|[k v] l IH]; [done|]. rewrite fmap_cons. intros [Hk Hl]%NoDup_cons. rewrite filter_cons. case_decide; [|by apply IH].
  rewrite fmap_cons. apply NoDup_cons. split; [|by apply IH]. intros (x & Ex & [_ Hx]%list_elem_of_filter)%list_elem_of_fmap.
  apply Hk. rewrite Ex. apply list_elem_of_fmap. by exists x.
Qed.

Lemma new_ids_far ts max_hops dist : accurate ts max_hops dist -> far_ids ts max_hops (new_ids dist (direct_matches ts)).
Proof using entities_unique entries_perm.
  intros Ha. split; [apply new_ids_NoDup|]. intros id. unfold new_ids. rewrite list_elem_of_fmap. split.
  - intros ([k v] & -> & [[Hv _] Hk%entries_elem]%list_elem_of_filter). simpl in *. apply Ha in Hk as [Hle Hd]. exists v. split; [lia|done].
  - intros (h & Hh & Hd). exists (id, h). split; [done|]. rewrite list_elem_of_filter, entries_elem. simpl. split_and!; [lia| |by apply Ha; split; [lia|]].
    apply eq_None_not_Some. rewrite match_terms_keys. intros Hin. destruct Hd as [_ Hmin]. specialize (Hmin 0 Hin). lia.
Qed.

Lemma new_ids_elem ts max_hops (dist : gmap string nat) e :
  accurate ts max_hops dist ->
  e ∈ entities g ->
  e_id e ∈ new_ids dist (direct_matches ts) <-> ~ direct ts e /\ exists k, dist !! e_id e = Some k.
Proof using entities_unique entries_perm.
  intros Hdist He. rewrite <-match_terms_is_Some by done. unfold new_ids. rewrite list_elem_of_fmap. split.
  - intros ([k v] & -> & [[_ Hn] Hk]%list_elem_of_filter). simpl in *. apply entries_elem in Hk.
    rewrite Hn. split; [by intros []|eauto].
  - intros (Hn & k & Hk). exists (e_id e, k). split; [done|]. rewrite list_elem_of_filter, entries_elem. simpl.
    split_and!; [|by apply eq_None_not_Some|done]. apply Hdist in Hk as [_ Hk].
    apply (distance_positive ts k e He Hk). by rewrite <-match_terms_is_Some.
Qed.

(** A prediction for what the terms do not match. *)
Lemma predicted_far ts max_hops (dist : gmap string nat) e c :
  accurate ts max_hops dist ->
  e ∈ entities g -> ~ direct ts e ->
  predicted_at ts max_hops e c <-> exists k, dist !! e_id e = Some k /\ c = if k =? 1 then Medium else Low.
Proof using entities_unique.
  intros Hdist He Hn. unfold accurate in Hdist; unfold predicted_at. setoid_rewrite Hdist. split.
  - intros [[?%named_direct _]|[[? _]|(_ & h & Hh & Ha & ->)]]; [done|done|]. exists h. split_and!; [lia|done|done].
  - intros (k & [Hk Ha] & ->). right. right. split; [done|]. exists k. split_and!; [|lia|done|done].
    by apply (distance_positive ts k e He Ha).
Qed.

(** The expansion leaves one entry per predicted entity. *)
Definition scope_predicts (ts : list string) (max_hops : nat) (scope : gmap string ScopedEntity) : Prop :=
  (forall id se, scope !! id = Some se -> e_id (entity se) = id) /\
  (forall e c, (exists se, scope !! e_id e = Some se /\ entity se = e /\ confidence se = c) <->
               e ∈ entities g /\ predicted_at ts max_hops e c) /\
  forall ids, far_ids ts max_hops ids -> length ids <= max_variables.

Lemma hops_added ts max_hops dist : accurate ts max_hops dist -> length (new_ids dist (direct_matches ts)) <= max_variables ->
  scope_predicts ts max_hops
    (foldl (add_hop max_hops dist) (direct_matches ts) (get_entities_by_ids g (new_ids dist (direct_matches ts)))).
Proof using entities_unique entries_perm.
  intros Hdist Hle. pose proof (match_terms_predicted ts) as Hdir. pose proof (match_terms_Some ts) as Hsome.
  set (es := get_entities_by_ids g _). pose proof (get_entities_by_ids_NoDup (new_ids dist (direct_matches ts))) as Hnd.
  fold es in Hnd. split_and!.
  - intros id se. rewrite add_hops_lookup by done.
    destruct (direct_matches ts !! id) eqn:E; [intros [= <-]; by apply Hsome in E as [-> _]|].
    intros (e & He & ->)%fmap_Some. by apply find_by_Some in He as [_ <-].
  - intros e c. rewrite add_hops_lookup by done. specialize (Hdir e c).
    pose proof (match_terms_is_Some ts e) as His.
    destruct (direct_matches ts !! e_id e) as [se0|] eqn:E.
    + rewrite Hdir. unfold predicted_at. split; [tauto|]. intros [He H]. split; [done|].
      specialize (His He). destruct H as [H|[H|(Hn & _)]]; [tauto|tauto|]. destruct Hn. by apply His.
    + transitivity (e ∈ es /\ c = if default max_hops (dist !! e_id e) =? 1 then Medium else Low).
      { split.
        - intros (se & (e' & He' & ->)%fmap_Some & <- & <-). by apply find_by_Some in He' as [? _].
        - intros [He ->]. rewrite (find_by_elem e_id (e_id e) es e Hnd He eq_refl). simpl. eauto. }
      unfold es. rewrite get_entities_by_ids_elem. split.
      * intros [[He Hin] ->]. split; [done|]. apply (new_ids_elem ts max_hops dist e Hdist He) in Hin as (Hn & k & Hk).
        apply (predicted_far ts max_hops dist e _ Hdist He Hn). exists k. by rewrite Hk.
      * intros [He Hp]. assert (~ direct ts e) as Hn by (intros Hd; apply His in Hd as []; done).
        apply (predicted_far ts max_hops dist e _ Hdist He Hn) in Hp as (k & Hk & ->). rewrite Hk.
        split; [|done]. split; [done|]. apply (new_ids_elem ts max_hops dist e Hdist He). eauto.
  - intros ids [Hd Hids]. destruct (new_ids_far ts max_hops dist Hdist) as [Hd' Hids'].
    rewrite (Permutation_length (l':=new_ids dist (direct_matches ts))); [done|]. apply NoDup_Permutation; [done..|].
    intros x. by rewrite Hids, Hids'.
Qed.

Lemma no_hops ts max_hops : (0 <? max_hops) && negb (bool_decide (direct_matches ts = ∅)) = false ->
  scope_predicts ts max_hops (direct_matches ts).
Proof using entities_unique.
  intros Eg. assert (Hno : forall h x, 1 <= h <= max_hops -> ~ at_distance g (direct_ids ts) h x).
  { intros h x Hh [Hw _]. apply andb_false_iff in Eg as [Hlt%Nat.ltb_ge|Hemp]; [lia|].
    apply negb_false_iff, bool_decide_eq_true in Hemp. by apply (no_seeds_within ts Hemp) in Hw. }
  split_and!.
  - intros id se Hs. by apply match_terms_Some in Hs as [-> _].
  - intros e c. rewrite match_terms_predicted. unfold predicted_at. split; [tauto|]. intros [He H]. split; [done|].
    destruct H as [H|[H|(_ & h & Hh & Hd & _)]]; [tauto|tauto|]. by apply Hno in Hd.
  - intros ids [_ Hids]. destruct ids as [|x ids]; [simpl; lia|]. exfalso.
    destruct (proj1 (Hids x) ltac:(by left)) as (h & Hh & Hd). by apply Hno in Hd.
Qed.

Lemma expand_hops_spec ts max_hops :
  exists r, expand_hops g max_hops (direct_matches ts) = Some r /\
    match r with
    | Ok scope => scope_predicts ts max_hops scope
    | Err e => e = SiGraph /\ trouble ts max_hops
    | Panic => False
    end.
Proof using entities_unique entries_perm.
  unfold expand_hops. destruct ((0 <? max_hops) && _) eqn:Eg; [|exists (Ok (direct_matches ts)); split; [done|by apply no_hops]].
  destruct (match_distances ts max_hops) as (r & -> & Hr). destruct r as [dist|e|]; [|by exists (Err e)|done].
  cbn [then_ok]. unfold entities_by_ids. set (ids := new_ids dist (direct_matches ts)).
  pose proof (new_ids_far ts max_hops dist Hr) as Hfar. fold ids in Hfar.
  destruct (bool_decide (ids = [])) eqn:Ee; [apply bool_decide_eq_true in Ee|].
  { eexists. split; [reflexivity|]. simpl. pose proof (hops_added ts max_hops dist Hr) as H. fold ids in H.
    rewrite Ee in H. apply H. simpl. lia. }
  destruct (max_variables <? length ids) eqn:El.
  { eexists. split; [reflexivity|]. split; [done|]. right. right. exists ids. split; [done|left; by apply Nat.ltb_lt]. }
  unfold ask_graph. destruct (fails (EntitiesByIds ids)) eqn:Ef.
  { eexists. split; [reflexivity|]. split; [done|]. right. right. exists ids. by auto. }
  eexists. split; [reflexivity|]. apply hops_added; [done|]. by apply Nat.ltb_ge.
Qed.

(** What an inference answers. *)
Definition inference_ok (text : string) (max_hops : nat) (r : ScopeInference) : Prop :=
  si_terms r = extract_terms text /\
  NoDup ((fun se => e_id (entity se)) <$> predicted_scope r) /\
  StronglySorted (fun a b => confidence_rank (confidence b) <= confidence_rank (confidence a)) (predicted_scope r) /\
  forall e c, (exists se, se ∈ predicted_scope r /\ entity se = e /\ confidence se = c) <->
              e ∈ entities g /\ predicted_at (extract_terms text) max_hops e c.

Lemma infer_predicts text max_hops now :
  exists r, infer g text max_hops now = Some r /\
    match r with
    | Ok r => inference_ok text max_hops r /\ forall ids, far_ids (extract_terms text) max_hops ids -> length ids <= max_variables
    | Err e => e = SiGraph /\ trouble (extract_terms text) max_hops
    | Panic => False
    end.
Proof using entities_unique entries_perm.
  unfold infer. pose proof (match_terms_direct (extract_terms text)) as Hm.
  destruct (match_terms g _ ∅) as [direct|e|]; [subst direct|destruct Hm as [-> Ht]; exists (Err SiGraph); split; [done|split; [done|by left]]|done].
  cbn [then_ok]. destruct (expand_hops_spec (extract_terms text) max_hops) as (r & -> & Hr).
  destruct r as [scope|e|]; [|by exists (Err e)|done]. destruct Hr as (Hid & Hall & Hfar).
  cbn [then_ok]. eexists. split; [reflexivity|]. split; [|exact Hfar]. unfold inference_ok. simpl. set (l := snd <$> entries _ scope).
  assert (Hl : forall se, se ∈ l <-> scope !! e_id (entity se) = Some se).
  { intros se. unfold l. rewrite list_elem_of_fmap. split.
    - intros ([k v] & -> & Hk%entries_elem). simpl. by rewrite (Hid _ _ Hk).
    - intros Hs. exists (e_id (entity se), se). split; [done|]. by apply entries_elem. }
  split_and!; [done| | |].
  - rewrite sort_by_perm. unfold l. rewrite <-list_fmap_compose.
    assert ((fun se => e_id (entity se)) ∘ snd <$> entries _ scope = fst <$> entries _ scope) as ->.
    { apply list_fmap_ext. intros i [k v] Hi%list_elem_of_lookup_2%entries_elem. by apply Hid. }
    apply entries_keys_NoDup.
  - eapply StronglySorted_mono; [|apply sort_by_sorted].
    + intros x y H%Is_true_true. by apply Nat.leb_le.
    + intros x y H%Nat.leb_gt. apply Nat.leb_le. lia.
    + intros x y z H1%Nat.leb_le H2%Nat.leb_le. apply Nat.leb_le. lia.
  - intros e c. rewrite <-Hall. setoid_rewrite sort_by_elem_of. setoid_rewrite Hl. split.
    + intros (se & Hs & <- & <-). eauto.
    + intros (se & Hs & He & Hc). exists se. by rewrite He.
Qed.

(** C39. The inference ends whatever the graph. When it succeeds it predicts, once each and the
    most confident first: with high confidence the entities that a term names, with medium
    confidence those that a term matches otherwise and those one relationship away from
    the matches, with low confidence those farther away up to the limit; the distance is the
    least one. A term matches by the pattern of SQLite: an underscore in it stands for any
    character, and only letters of ASCII are compared without their case. It fails only by an
    error of the graph, when a query is not answered or when the entities to be added are more than
    SQLite takes variables; when they are too many it does fail. *)
Theorem infer_spec text max_hops now :
  exists r, infer g text max_hops now = Some r /\
    match r with
    | Ok r => inference_ok text max_hops r /\ forall ids, far_ids (extract_terms text) max_hops ids -> length ids <= max_variables
    | Err e => e = SiGraph /\ trouble (extract_terms text) max_hops
    | Panic => False
    end.
Proof using entities_unique entries_perm. apply infer_predicts. Qed.
End matching.

(** ** The adjustment by the history *)

(** [serde_json] on lists of strings, and the order in which a query visits rows. *)
Variable strings_from_json : string -> option (list string).
Variable scan : forall A, list A -> list A.

Definition boosted (c : ConfidenceLevel) : ConfidenceLevel :=
  match c with Low => Medium | Medium => High | High => High end.

Definition boost (weights : gmap string f64) (se : ScopedEntity) : ScopedEntity :=
  match weights !! e_id (entity se) with
  | Some w =>
      if f64_lt f64_zero w && (confidence_rank (confidence se) <? confidence_rank (boosted (confidence se)))
      then mkScoped (entity se) (boosted (confidence se))
             (reason se +:+ " + historical match (weight " +:+ fixed2 w +:+ ")")
      else se
  | None => se
  end.

Definition historical (weights : gmap string f64) (e : Entity) : ScopedEntity :=
  mkScoped e Low ("historical match (weight " +:+ fixed2 (default f64_zero (weights !! e_id e)) +:+ ")").

Definition weight_map (ws : list EntityWeight) : gmap string f64 :=
  list_to_map ((fun w => (ew_entity_id w, weight w)) <$> ws).

Definition influences (ts : list string) (records : list IntentRecord) : list HistoryInfluence :=
  sort_by (fun a b => hi_term_overlap b <=? hi_term_overlap a)
    ((fun r => mkInfluence (intent_text r) (actual_entity_ids r) (term_overlap ts r)) <$>
       filter (fun r => term_overlap ts r <> 0 /\ actual_entity_ids r <> []) records).

Definition infer_with_history (g : GraphSnapshot) (h : HistoryStore) (text : string) (max_hops : nat)
    (now : DateTime) : option (outcome ScopeInferenceError ScopeInference) :=
  then_ok (infer g text max_hops now) (fun result => Some (
    ws ← map_err SiHistory (compute_entity_weights strings_from_json scan entries (si_terms result) h);
    if decide (ew_entity_id <$> ws = []) then Ok result
    else
      let weights := weight_map ws in
      let scope := boost weights <$> predicted_scope result in
      let existing : gset string := list_to_set ((fun se => e_id (entity se)) <$> scope) in
      let unseen := filter (fun id => id ∉ existing) (fst <$> entries _ weights) in
      es ← entities_by_ids g unseen;
      let added := historical weights <$> es in
      records ← map_err SiHistory (list_recent strings_from_json scan (Z.to_nat 10000) h);
      Ok (mkInference (intent result) (si_terms result) (sort_by more_confident (scope ++ added))
            (influences (si_terms result) records) (inferred_at result)))).

Section adjusted.
Variable g : GraphSnapshot.
Hypothesis entities_unique : NoDup (e_id <$> entities g).
Hypothesis entries_perm : forall A (m : gmap string A), entries A m ≡ₚ map_to_list m.

Definition predicts (r : ScopeInference) (e : Entity) (c : ConfidenceLevel) : Prop :=
  exists se, se ∈ predicted_scope r /\ entity se = e /\ confidence se = c.

Lemma boost_entity weights se : entity (boost weights se) = entity se.
Proof. unfold boost. destruct (weights !! _); [|done]. by destruct (_ && _). Qed.

Lemma boosted_ids weights (l : list ScopedEntity) :
  (fun se => e_id (entity se)) <$> (boost weights <$> l) = (fun se => e_id (entity se)) <$> l.
Proof.
  rewrite <-list_fmap_compose. apply list_fmap_ext. intros i se _. simpl. by rewrite boost_entity.
Qed.

Lemma boost_confidence weights se :
  confidence (boost weights se) =
  match weights !! e_id (entity se) with
  | Some w => if f64_lt f64_zero w then boosted (confidence se) else confidence se
  | None => confidence se
  end.
Proof.
  unfold boost. destruct (weights !! _) as [w|]; [|done]. destruct (f64_lt f64_zero w); [|done].
  by destruct (confidence se) eqn:E; simpl; rewrite ?E.
Qed.

Lemma weight_map_dom ws x : is_Some (weight_map ws !! x) <-> x ∈ ew_entity_id <$> ws.
Proof.
  unfold weight_map. rewrite <-elem_of_dom, dom_list_to_map, elem_of_list_to_set, <-list_fmap_compose. done.
Qed.

Lemma entity_weights query h records :
  list_recent strings_from_json scan (Z.to_nat 10000) h = Ok records ->
  exists ws, compute_entity_weights strings_from_json scan entries query h = Ok ws /\
    forall x, is_Some (weight_map ws !! x) <->
      exists i, i ∈ records /\ relevant query i /\ x ∈ actual_entity_ids i.
Proof using entries_perm.
  intros Hr. setoid_rewrite weight_map_dom. destruct (decide (query = [])) as [->|Hq].
  - exists []. split; [done|]. intros x. simpl. split; [by intros ?%not_elem_of_nil|].
    by intros (i & _ & (t & _ & ?%not_elem_of_nil) & _).
  - destruct (compute_entity_weights_ids strings_from_json scan entries entries_perm query h records Hr Hq)
      as (ws & Hw & _ & Hd). by exists ws.
Qed.

(** The entities a prediction does not have yet. *)
Lemma unseen_elem (r0 : ScopeInference) (weights : gmap string f64) e :
  (forall e c, predicts r0 e c -> e ∈ entities g) -> e ∈ entities g ->
  e_id e ∈ filter (fun id => id ∉ (list_to_set ((fun se => e_id (entity se)) <$> predicted_scope r0) : gset string))
             (fst <$> entries _ weights) <->
  is_Some (weights !! e_id e) /\ forall c, ~ predicts r0 e c.
Proof using entities_unique entries_perm.
  intros Hin He. rewrite list_elem_of_filter, elem_of_list_to_set, list_elem_of_fmap, entries_perm.
  assert (e_id e ∈ fst <$> map_to_list weights <-> is_Some (weights !! e_id e)) as ->.
  { rewrite list_elem_of_fmap. split.
    - intros ([k v] & -> & Hk%elem_of_map_to_list). by exists v.
    - intros [v Hv]. exists (e_id e, v). split; [done|]. by apply elem_of_map_to_list. }
  split.
  - intros [Hn Hw]. split; [done|]. intros c (se & Hs & <- & <-). by apply Hn; eauto.
  - intros [Hw Hn]. split; [|done]. intros (se & Hid & Hs). apply (Hn (confidence se)). exists se.
    split_and!; [done| |done]. symmetry. apply (keys_inj e_id (entities g)); [done..| |done].
    apply (Hin _ (confidence se)). by exists se.
Qed.

Lemma entities_by_ids_ok ids es : entities_by_ids g ids = Ok es -> es = get_entities_by_ids g ids.
Proof.
  unfold entities_by_ids, ask_graph. case_bool_decide as H; [subst; by intros [= <-]|]. destruct (max_variables <? length ids); [done|].
  destruct (fails _); [done|]. by intros [= <-].
Qed.

(** The history raises by one level the entities that past intents with a common
    term touched, adds the others they touched with low confidence, removes
    nothing, and changes no other prediction, when it is answered. *)
Theorem infer_with_history_spec h text max_hops now records r :
  list_recent strings_from_json scan (Z.to_nat 10000) h = Ok records ->
  infer_with_history g h text max_hops now = Some (Ok r) ->
  exists r0 weights,
    infer g text max_hops now = Some (Ok r0) /\
    (forall x, is_Some ((weights : gmap string f64) !! x) <->
       exists i, i ∈ records /\ relevant (extract_terms text) i /\ x ∈ actual_entity_ids i) /\
    NoDup ((fun se => e_id (entity se)) <$> predicted_scope r) /\
    forall e c, predicts r e c <->
      (exists c0, predicts r0 e c0 /\
         c = match weights !! e_id e with
             | Some w => if f64_lt f64_zero w then boosted c0 else c0
             | None => c0
             end) \/
      (e ∈ entities g /\ is_Some (weights !! e_id e) /\ (forall c0, ~ predicts r0 e c0) /\ c = Low).
Proof using entities_unique entries_perm.
  intros Hr. destruct (infer_predicts g entities_unique entries_perm text max_hops now) as (o & Hr0 & Ho).
  unfold infer_with_history. rewrite Hr0. destruct o as [r0|e|]; [|done|done]. destruct Ho as [(Hts & Hnd & _ & Hpr) _].
  destruct (entity_weights (extract_terms text) h records Hr) as (ws & Hws & Hdom).
  assert (Hin : forall e c, predicts r0 e c -> e ∈ entities g) 
    by (intros e c H; by apply (Hpr e c) in H as [H _]).
  simpl. rewrite Hts, Hws, Hr. simpl.
  case_decide as Hnil.
  { intros [= <-]. exists r0, (weight_map ws). assert (Hn : forall x, weight_map ws !! x = None).
    { intros x. apply eq_None_not_Some. rewrite weight_map_dom, Hnil. apply not_elem_of_nil. }
    split_and!; [done..|]. intros e c. rewrite Hn. split; [left; eauto|].
    intros [(c0 & H & ->)|(_ & [? ?] & _)]; done. }
  destruct (entities_by_ids g _) as [es|e|] eqn:Ees; [|done|done]. simpl. intros [= <-].
  apply entities_by_ids_ok in Ees. rewrite boosted_ids in Ees. subst es.
  eexists r0, (weight_map ws). split_and!; [done|done| |].
  - simpl. rewrite sort_by_perm, fmap_app, boosted_ids, <-!list_fmap_compose.
    apply NoDup_app. split_and!; [done| |].
    + intros x Hx (e & -> & [He [Hu _]%list_elem_of_filter]%get_entities_by_ids_elem)%list_elem_of_fmap.
      by apply Hu, elem_of_list_to_set.
    + by apply get_entities_by_ids_NoDup.
  - intros e c. unfold predicts at 1. simpl. setoid_rewrite sort_by_elem_of. setoid_rewrite elem_of_app.
    split.
    + intros (se & [(se0 & -> & Hs)%list_elem_of_fmap|(e' & -> & [He Hu]%get_entities_by_ids_elem)%list_elem_of_fmap] & <- & <-).
      * left. rewrite boost_entity, boost_confidence. exists (confidence se0). split; [by exists se0|done].
      * right. simpl. split; [done|].
        by apply (unseen_elem r0 (weight_map ws) e' Hin He) in Hu as [Hw Hn].
    + intros [(c0 & (se & Hs & <- & <-) & ->)|(He & Hw & Hn & ->)].
      * exists (boost (weight_map ws) se). rewrite boost_entity, boost_confidence.
        split_and!; [left|done|done]. by apply list_elem_of_fmap_2.
      * exists (historical (weight_map ws) e). split_and!; [right|done|done].
        apply list_elem_of_fmap_2, get_entities_by_ids_elem. split; [done|].
        by apply (unseen_elem r0 (weight_map ws) e Hin He).
Qed.
End adjusted.
End inference.

(** ** Witnesses *)

Definition wit_entity (id name : string) : Entity :=
  mkEntity id Function name name "src/lib.rs" (0, 1) (0, 0) None.
Definition wit_graph : GraphSnapshot :=
  mkSnapshot [wit_entity "1" "auth"; wit_entity "2" "login"; wit_entity "3" "session"; wit_entity "4" "other"]
    [mkRelationship "r1" Calls "1" "2"; mkRelationship "r2" Calls "2" "3"].
Definition wit_entries (A : Type) (m : gmap string A) : list (string * A) := map_to_list m.
Definition wit_strings (text : string) : option (list string) := Some (split_on "," text).
Definition wit_history : HistoryStore :=
  mkHistory [mkIntentRow "h" "Harden auth" "harden,auth" "" "3,4" None 0] 1 1.

(** With the limit of SQLite; with a limit of one variable the two entities that are reached are too many. *)
Definition wit_limit : nat := N.to_nat 32766.

Lemma wit_unique : NoDup (e_id <$> entities wit_graph).
Proof. refine (bool_decide_unpack _ _). vm_compute. exact I. Qed.

Lemma infer_spec_witness :
  (exists r, @infer ascii_unicode (fun _ => false) wit_limit wit_entries wit_graph "Fix auth bug" 2 0 = Some (Ok r) /\
    (fun se => (e_name (entity se), confidence se)) <$> predicted_scope r =
      [("auth", High); ("login", Medium); ("session", Low)]%string /\
    NoDup ((fun se => e_id (entity se)) <$> predicted_scope r)) /\
  @infer ascii_unicode (fun _ => false) 1 wit_entries wit_graph "Fix auth bug" 2 0 = Some (Err SiGraph).
Proof.
  split.
  - destruct (@infer_spec ascii_unicode (fun _ => false) wit_limit wit_entries wit_graph wit_unique (fun A m => reflexivity _) "Fix auth bug" 2 0)
      as ([r|e|] & Hr & Ho); [|exfalso; revert Hr; vm_compute; discriminate|done].
    destruct Ho as [(_ & Hnd & _) _]. exists r. split; [exact Hr|]. split; [|exact Hnd].
    revert Hr. vm_compute. intros [= <-]. reflexivity.
  - destruct (@infer_spec ascii_unicode (fun _ => false) 1 wit_entries wit_graph wit_unique (fun A m => reflexivity _) "Fix auth bug" 2 0)
      as ([r|e|] & Hr & Ho); [exfalso; revert Hr; vm_compute; discriminate| |done]. destruct Ho as [-> _]. exact Hr.
Defined.

(** An underscore of a term matches any character, and a letter outside ASCII only itself. *)
Lemma underscore_is_wildcard : @column_matches ascii_unicode "validate_token" "validateXtoken" = true.
Proof. vm_compute. reflexivity. Qed.

Lemma infer_with_history_spec_witness :
  exists r, @infer_with_history ascii_unicode (fun _ => false) wit_limit wit_entries wit_strings (fun A l => l) wit_graph wit_history
              "Fix auth bug" 2 0 = Some (Ok r) /\
    (fun se => (e_name (entity se), confidence se)) <$> predicted_scope r =
      [("auth", High); ("login", Medium); ("session", Medium); ("other", Low)]%string /\
    NoDup ((fun se => e_id (entity se)) <$> predicted_scope r).
Proof.
  destruct (@infer_with_history ascii_unicode (fun _ => false) wit_limit wit_entries wit_strings (fun A l => l) wit_graph wit_history
              "Fix auth bug" 2 0) as [[r|e|]|] eqn:Hr; [|vm_compute in Hr; discriminate Hr..].
  destruct (@infer_with_history_spec ascii_unicode (fun _ => false) wit_limit wit_entries wit_strings (fun A l => l) wit_graph
    wit_unique (fun A m => reflexivity _) wit_history
    "Fix auth bug" 2 0%Z [mkIntent "h" "Harden auth" ["harden"; "auth"] [""] ["3"; "4"] None 0]%string r
    ltac:(vm_compute; reflexivity) Hr) as (r0 & w & _ & _ & Hnd & _).
  exists r. split; [done|]. split; [|exact Hnd]. revert Hr. vm_compute. intros [= <-]. reflexivity.
Defined.
