(* ===== verification/Pagination.v ===== *)
(** Pagination ([src/src/storage/pagination.rs], [src/src/server/pagination.rs]): the
    parsing and validation of page and sort parameters, the [LIMIT] and [OFFSET] of a
    page, the [ORDER BY] clause, and the envelope of a response. *)
From S2P Require Import Prelude RustStr.
Local Open Scope Z_scope.

Inductive PaginationError : Type :=
  | InvalidPage (p : Z)
  | InvalidPerPage (n : Z)
  | UnknownSortColumn (c : string)
  | InvalidSortFormat (s : string).

Inductive SortDirection : Type := Asc | Desc.

Definition direction_sql (d : SortDirection) : string := match d with Asc => "ASC" | Desc => "DESC" end.

Record SortField : Type := mkSortField { column : string; direction : SortDirection }.

(** Pages and sizes are [u32]. *)
Record ListQuery : Type := mkListQuery { page : Z; per_page : Z; sort : list SortField }.

Definition u32_max : Z := 2 ^ 32 - 1.
Definition i64_max : Z := 2 ^ 63 - 1.
Definition i64_wrap (x : Z) : Z := (x + 2 ^ 63) mod 2 ^ 64 - 2 ^ 63.
Definition u32_wrap (x : Z) : Z := x mod 2 ^ 32.

Definition default_query : ListQuery := mkListQuery 1 u32_max [].

Section sorting.
Context {unicode : Unicode}.

(** One entry of [?sort=]. *)
Definition parse_entry (allowed : list string) (part : string) : outcome PaginationError SortField :=
  cd ← match split_once ":" part with
       | Some (c, d) =>
           let word := to_lowercase d in
           if String.eqb word "asc" then Ok (trim c, Asc)
           else if String.eqb word "desc" then Ok (trim c, Desc)
           else Err (InvalidSortFormat part)
       | None => Ok (part, Asc)
       end;
  if decide (cd.1 ∈ allowed) then Ok (mkSortField cd.1 cd.2) else Err (UnknownSortColumn cd.1).

Fixpoint parse_entries (allowed parts : list string) : outcome PaginationError (list SortField) :=
  match parts with
  | [] => Ok []
  | part :: parts' =>
      let part := trim part in
      if String.eqb part "" then parse_entries allowed parts'
      else
        f ← parse_entry allowed part;
        fs ← parse_entries allowed parts';
        Ok (f :: fs)
  end.

Definition parse_sort (sort_str : string) (allowed : list string) : outcome PaginationError (list SortField) :=
  if String.eqb sort_str "" then Ok [] else parse_entries allowed (split_on "," sort_str).

Definition from_params (page per_page : option Z) (sort_str : option string) (allowed : list string) :
    outcome PaginationError ListQuery :=
  let page := default 1 page in
  if page =? 0 then Err (InvalidPage page)
  else
    let per_page := default 25 per_page in
    if (per_page =? 0) || (100 <? per_page) then Err (InvalidPerPage per_page)
    else
      sort ← parse_sort (default "" sort_str)%string allowed;
      Ok (mkListQuery page per_page sort).
End sorting.

Definition order_parts (columns : gmap string string) (fields : list SortField) : list string :=
  omap (fun f => (fun db => db +:+ " " +:+ direction_sql (direction f)) <$> columns !! column f) fields.

Definition sql_order_by (columns : gmap string string) (q : ListQuery) : string :=
  match order_parts columns (sort q) with
  | [] => ""
  | parts => "ORDER BY " +:+ join ", " parts
  end.

(** In the widths of the code: [u32] subtraction, [i64] product. *)
Definition sql_limit_offset (q : ListQuery) : Z * Z :=
  let limit := if per_page q =? u32_max then i64_max else per_page q in
  (limit, i64_wrap (u32_wrap (page q - 1) * Z.min (per_page q) (i64_max / 2))).

(** What [LIMIT limit OFFSET offset] selects of the rows. *)
Definition select_page {A} (q : ListQuery) (rows : list A) : list A :=
  let '(limit, offset) := sql_limit_offset q in
  take_z limit (drop_z offset rows).

Record ListResult (A : Type) : Type := mkListResult { items : list A; lr_total : Z }.
Arguments mkListResult {A} _ _.
Arguments items {A} _.
Arguments lr_total {A} _.

Record PaginationMeta : Type := mkMeta { m_page : Z; m_per_page : Z; m_total : Z; total_pages : Z }.
Record PaginatedResponse (A : Type) : Type := mkResponse { data : list A; pagination : PaginationMeta }.
Arguments mkResponse {A} _ _.
Arguments data {A} _.
Arguments pagination {A} _.

Definition div_ceil (a b : Z) : Z := if a mod b =? 0 then a / b else a / b + 1.

Definition paginated {A} (items : list A) (total : Z) (q : ListQuery) : PaginatedResponse A :=
  let pages := if (per_page q =? 0) || (per_page q =? u32_max) then 1
               else u32_wrap (div_ceil total (per_page q)) in
  mkResponse items (mkMeta (page q) (per_page q) total pages).

(** ** Pages *)

Lemma from_params_valid {unicode : Unicode} p n s allowed q :
  from_params p n s allowed = Ok q ->
  page q = default 1 p /\ per_page q = default 25 n /\ page q <> 0 /\ per_page q <> 0 /\ per_page q <= 100.
Proof.
  unfold from_params. destruct (Z.eqb_spec (default 1 p) 0); [done|].
  destruct (Z.eqb_spec (default 25 n) 0); [done|]. simpl.
  destruct (Z.ltb_spec 100 (default 25 n)); [done|].
  destruct (parse_sort _ _); [|done..]. intros [= <-]. simpl. done.
Qed.

Lemma limit_offset_exact q :
  1 <= page q < 2 ^ 32 -> 1 <= per_page q <= 100 ->
  sql_limit_offset q = (per_page q, (page q - 1) * per_page q) /\
  0 <= (page q - 1) * per_page q <= i64_max.
Proof.
  intros Hp Hn. unfold sql_limit_offset, u32_wrap, i64_wrap, i64_max, u32_max in *.
  destruct (Z.eqb_spec (per_page q) (2 ^ 32 - 1)); [lia|].
  rewrite (Z.mod_small (page q - 1)) by lia. rewrite Z.min_l by (transitivity 100; [lia|by vm_compute]).
  assert (0 <= (page q - 1) * per_page q <= 2 ^ 63 - 1) by nia.
  split; [|done]. f_equal. rewrite Z.mod_small by lia. lia.
Qed.

Lemma div_ceil_spec a b :
  0 <= a -> 0 < b -> 0 <= div_ceil a b /\ (div_ceil a b = 0 \/ (div_ceil a b - 1) * b < a) /\ a <= div_ceil a b * b.
Proof.
  intros Ha Hb. unfold div_ceil. pose proof (Z.mod_pos_bound a b Hb) as Hm.
  pose proof (Z_div_mod_eq_full a b) as Ed. pose proof (Z.div_pos a b Ha Hb) as Hq.
  generalize dependent (a / b). generalize dependent (a mod b). intros r Hr q Hq E.
  destruct (Z.eqb_spec r 0) as [->|].
  - replace ((q - 1) * b) with (b * q - b) by ring. rewrite (Z.mul_comm q b).
    destruct (Z.eq_dec q 0) as [->|]; lia.
  - replace ((q + 1 - 1) * b) with (b * q) by ring. replace ((q + 1) * b) with (b * q + b) by ring. lia.
Qed.

Lemma select_page_eq {A} q (rows : list A) :
  select_page q rows =
  take (Z.to_nat (sql_limit_offset q).1) (drop (Z.to_nat (sql_limit_offset q).2) rows).
Proof. unfold select_page. destruct (sql_limit_offset q). by rewrite take_z_nat, drop_z_nat. Qed.

(** The first [k] pages are the first [k * n] rows. *)
Lemma pages_prefix {A} (rows : list A) n s k :
  1 <= n <= 100 -> Z.of_nat k < 2 ^ 32 ->
  (seq 1 k ≫= fun i => select_page (mkListQuery (Z.of_nat i) n s) rows) = take (k * Z.to_nat n)%nat rows.
Proof.
  intros Hn. induction k as [|k IH]; intros Hk; [done|].
  rewrite seq_S, bind_app, IH by lia. rewrite bind_cons. simpl ([] ≫= _). rewrite app_nil_r.
  rewrite select_page_eq.
  destruct (limit_offset_exact (mkListQuery (Z.of_nat (1 + k)) n s)) as [-> _];
    [simpl; lia|simpl; lia|]. cbn [page per_page fst snd].
  replace (Z.to_nat ((Z.of_nat (1 + k) - 1) * n)) with (k * Z.to_nat n)%nat by nia.
  replace (S k * Z.to_nat n)%nat with (k * Z.to_nat n + Z.to_nat n)%nat by lia.
  by rewrite take_take_drop.
Qed.

(** The pages of a validated query partition the rows: the envelope reports as many
    pages as the rows fill, together they hold every row once and in order, every
    reported page but none beyond holds rows, and no width is exceeded. *)
Theorem pages_partition {A} {unicode : Unicode} (rows : list A) p n s allowed q :
  (forall x, p = Some x -> 0 <= x < 2 ^ 32) -> (forall x, n = Some x -> 0 <= x < 2 ^ 32) ->
  Z.of_nat (length rows) < 2 ^ 32 ->
  from_params p n s allowed = Ok q ->
  let total := Z.of_nat (length rows) in
  let pages := total_pages (pagination (paginated (select_page q rows) total q)) in
  (seq 1 (Z.to_nat pages) ≫= fun i => select_page (mkListQuery (Z.of_nat i) (per_page q) (sort q)) rows) = rows /\
  (select_page q rows <> [] <-> page q <= pages) /\
  Z.of_nat (length (select_page q rows)) <= per_page q /\
  0 <= (sql_limit_offset q).1 <= i64_max /\ 0 <= (sql_limit_offset q).2 <= i64_max.
Proof.
  intros Hp Hn Hlen Hq total pages. destruct (from_params_valid _ _ _ _ _ Hq) as (Ep & En & Hp0 & Hn0 & Hn100).
  assert (1 <= page q < 2 ^ 32) as Hpage.
  { destruct p as [x|]; simpl in Ep; [specialize (Hp x eq_refl)|]; lia. }
  assert (1 <= per_page q <= 100) as Hper.
  { destruct n as [x|]; simpl in En; [specialize (Hn x eq_refl)|]; lia. }
  destruct (limit_offset_exact q Hpage Hper) as [El Hoff].
  destruct (div_ceil_spec total (per_page q)) as (Hc0 & Hc1 & Hc2); [lia..|].
  assert (pages = div_ceil total (per_page q)) as Epages.
  { unfold pages, paginated. cbn [pagination total_pages].
    destruct (Z.eqb_spec (per_page q) 0); [lia|]. unfold u32_max.
    destruct (Z.eqb_spec (per_page q) (2 ^ 32 - 1)); [lia|]. cbn [orb].
    unfold u32_wrap. apply Z.mod_small. nia. }
  assert (length (select_page q rows) =
          Nat.min (Z.to_nat (per_page q)) (length rows - Z.to_nat ((page q - 1) * per_page q))) as Elen.
  { rewrite select_page_eq, El. by rewrite length_take, length_drop. }
  split_and!; rewrite ?El; simpl.
  - rewrite Epages, pages_prefix by nia. apply take_ge. nia.
  - rewrite Epages, <-length_zero_iff_nil, Elen. generalize dependent (div_ceil total (per_page q)).
    intros c _ Hc0 Hc1 Hc2. split; intros H.
    + destruct (Z.le_gt_cases (page q) c) as [|Hgt]; [done|]. exfalso. apply H.
      assert (c * per_page q <= (page q - 1) * per_page q) by (apply Z.mul_le_mono_nonneg_r; lia). lia.
    + assert ((page q - 1) * per_page q <= (c - 1) * per_page q) by (apply Z.mul_le_mono_nonneg_r; lia). lia.
  - rewrite Elen. lia.
  - lia.
  - unfold i64_max in *. lia.
  - lia.
  - lia.
Qed.

Lemma pages_partition_witness :
  from_params (unicode := ascii_unicode) (Some 2) (Some 2) (Some "created_at:DESC, title")%string
      ["title"; "created_at"]%string =
    Ok (mkListQuery 2 2 [mkSortField "created_at" Desc; mkSortField "title" Asc]) /\
  select_page (mkListQuery 2 2 []) ["a"; "b"; "c"]%string = ["c"]%string /\
  Z.of_nat (length (select_page (mkListQuery 2 2 []) ["a"; "b"; "c"]%string)) <= 2.
Proof.
  split; [vm_compute; reflexivity|]. split; [vm_compute; reflexivity|].
  destruct (@pages_partition string ascii_unicode ["a"; "b"; "c"]%string (Some 2) (Some 2) None [] (mkListQuery 2 2 []))
    as (_ & _ & Hlen & _).
  - intros x [= <-]. lia.
  - intros x [= <-]. lia.
  - simpl. lia.
  - reflexivity.
  - exact Hlen.
Defined.
