(* ===== verification/Compute.v ===== *)
(** The compute provider of the cloud workers ([src/src/server/compute]): the
    interface a provider implements, what its clients rely on, and the in-memory
    implementation. *)
From S2P Require Import Prelude RustStr EventLog.

Abbreviation MachineId := string.

Inductive ResourceClass : Type := Small | Medium | Large.

Record WorkerSpec : Type := mkSpec {
  image : string;
  env : gmap string string;
  resources : ResourceClass;
  labels : gmap string string;
  idempotency_key : string
}.

Inductive WorkerState : Type := Spawning | Running | Completed | Failed | Dead.

Record WorkerStatus : Type := mkStatus {
  st_id : MachineId;
  st_state : WorkerState;
  st_exit_code : option Z
}.

Record WorkerSummary : Type := mkSummary {
  sm_id : MachineId;
  sm_state : WorkerState;
  sm_labels : gmap string string
}.

Inductive ProviderError : Type :=
  | PvNotFound (id : MachineId)
  | PvProvider (message : string)
  | PvTransient (message : string).

(** The trait, over the state [C] of the provider. *)
Class ComputeProvider (C : Type) : Type := {
  spawn : WorkerSpec -> M C ProviderError MachineId;
  destroy : MachineId -> M C ProviderError unit;
  describe : MachineId -> M C ProviderError WorkerStatus;
  list_machines : gmap string string -> M C ProviderError (list WorkerSummary)
}.

(** What a reliable provider does to the set of its machines: it spawns whenever it
    is asked, and a machine that is destroyed is gone afterwards, whether or not it
    was there; nothing else changes. *)
Class ReliableProvider (C : Type) `{ComputeProvider C} : Type := {
  machines : C -> gset MachineId;
  spawn_adds spec c : exists id c', spawn spec c = (Ok id, c') /\
    machines c' = {[id]} ∪ machines c;
  destroy_removes id c : exists c', (destroy id c = (Ok tt, c') \/ destroy id c = (Err (PvNotFound id), c')) /\
    machines c' = machines c ∖ {[id]}
}.

(** ** The in-memory provider *)

Record WorkerRecord : Type := mkRecord {
  wr_spec : WorkerSpec;
  wr_state : WorkerState;
  wr_exit_code : option Z
}.

(** The identifiers the provider draws are a stream of its own. *)
Record InMemory : Type := mkInMemory { im_workers : gmap MachineId WorkerRecord; im_draws : nat }.

Definition new_provider : InMemory := mkInMemory ∅ 0.

Definition set_state (id : MachineId) (state : WorkerState) (c : InMemory) : InMemory :=
  mkInMemory (alter (fun r => mkRecord (wr_spec r) state (wr_exit_code r)) id (im_workers c)) (im_draws c).

Definition set_exit_code (id : MachineId) (code : Z) (c : InMemory) : InMemory :=
  mkInMemory (alter (fun r => mkRecord (wr_spec r) (wr_state r) (Some code)) id (im_workers c)) (im_draws c).

Definition worker_count (c : InMemory) : nat := size (im_workers c).

Definition get_worker_env (id : MachineId) (c : InMemory) : option (gmap string string) :=
  (fun r => env (wr_spec r)) <$> im_workers c !! id.

Section in_memory.
Variable uuid : nat -> Uuid.
(** The order in which a [HashMap] is iterated. *)
Variable entries : forall A, gmap string A -> list (string * A).

Definition im_spawn (spec : WorkerSpec) : M InMemory ProviderError MachineId := fun c =>
  let id := uuid (im_draws c) in
  (Ok id, mkInMemory (<[id := mkRecord spec Spawning None]> (im_workers c)) (S (im_draws c))).

Definition im_destroy (id : MachineId) : M InMemory ProviderError unit := fun c =>
  match im_workers c !! id with
  | Some _ => (Ok tt, mkInMemory (delete id (im_workers c)) (im_draws c))
  | None => (Err (PvNotFound id), c)
  end.

Definition im_describe (id : MachineId) : M InMemory ProviderError WorkerStatus := fun c =>
  match im_workers c !! id with
  | Some r => (Ok (mkStatus id (wr_state r) (wr_exit_code r)), c)
  | None => (Err (PvNotFound id), c)
  end.

(** The machine has every label asked for. *)
Definition has_labels (wanted : gmap string string) (r : WorkerRecord) : bool :=
  forallb (fun kv => bool_decide (labels (wr_spec r) !! kv.1 = Some kv.2)) (map_to_list wanted).

Definition im_list (wanted : gmap string string) : M InMemory ProviderError (list WorkerSummary) := fun c =>
  (Ok ((fun kv => mkSummary kv.1 (wr_state kv.2) (labels (wr_spec kv.2))) <$>
       filter (fun kv => has_labels wanted kv.2 = true) (entries _ (im_workers c))), c).

Definition in_memory_provider : ComputeProvider InMemory := {|
  spawn := im_spawn;
  destroy := im_destroy;
  describe := im_describe;
  list_machines := im_list
|}.

#[export] Instance in_memory_reliable : @ReliableProvider InMemory in_memory_provider.
Proof.
  refine (@Build_ReliableProvider InMemory in_memory_provider (fun c => dom (im_workers c)) _ _).
  - intros spec c. exists (uuid (im_draws c)). eexists. split; [reflexivity|]. simpl. apply dom_insert_L.
  - intros id c. simpl. unfold im_destroy. destruct (im_workers c !! id) eqn:E.
    + eexists. split; [by left|]. simpl. apply dom_delete_L.
    + exists c. split; [by right|]. apply not_elem_of_dom in E. set_solver.
Defined.
End in_memory.
