(* ===== verification/Fleet.v ===== *)
(** The cloud workers of the server: the tables of the Postgres worker store
    ([src/src/storage/postgres/worker.rs]) with the workspaces and issues a worker
    holds, the spawning of workers up to the cap and the reconciliation of dead ones
    ([src/src/server/worker_registry.rs]), and the administrator's removal of a worker
    ([src/src/server/worker.rs]). *)
From S2P Require Import Prelude Table RustStr EventLog VaiDir Issue Pagination Compute.

Inductive StorageError : Type := StNotFound (what : string) | StDatabase.

Inductive WorkerDoneReason : Type := DoneCompleted | DoneFailed | DoneTerminated.
Inductive LogStream : Type := Stdout | Stderr.

Record AgentWorker : Type := mkWorker {
  aw_id : Uuid;
  aw_repo_id : Uuid;
  provider : string;
  machine_id : option string;
  aw_state : string;
  aw_workspace_id : option Uuid;
  last_heartbeat_at : option DateTime;
  started_at : DateTime;
  ended_at : option DateTime
}.

Record WorkerLog : Type := mkLog {
  lg_id : Z;
  lg_worker_id : Uuid;
  lg_ts : DateTime;
  lg_stream : LogStream;
  lg_chunk : string
}.

(** The columns of [repos], [workspaces] and [issues] that are read here. *)
Record RepoRow : Type := mkRepoRow { rp_id : Uuid; rp_name : string; cloud_agent_enabled : bool }.
Record ServerWorkspace : Type := mkServerWs {
  sw_id : Uuid;
  sw_repo_id : Uuid;
  sw_status : WorkspaceStatus;
  sw_issue_id : option Uuid;
  sw_created_at : DateTime
}.
Record ServerIssue : Type := mkServerIssue { is_id : Uuid; is_repo_id : Uuid; is_status : IssueStatus }.

(** The database, the provider behind the server, and the streams of draws. *)
Record Fleet (C : Type) : Type := mkFleet {
  repos : list RepoRow;
  agent_workers : list AgentWorker;
  agent_worker_logs : list WorkerLog;
  next_log : Z;
  fl_workspaces : list ServerWorkspace;
  fl_issues : list ServerIssue;
  compute : C;
  fl_draws : nat;
  fl_ticks : nat
}.
Arguments mkFleet {C} _ _ _ _ _ _ _ _ _.
Arguments repos {C} _.
Arguments agent_workers {C} _.
Arguments agent_worker_logs {C} _.
Arguments next_log {C} _.
Arguments fl_workspaces {C} _.
Arguments fl_issues {C} _.
Arguments compute {C} _.
Arguments fl_draws {C} _.
Arguments fl_ticks {C} _.

(** [state IN ('spawning', 'running')] *)
Definition is_live (w : AgentWorker) : bool :=
  String.eqb (aw_state w) "spawning" || String.eqb (aw_state w) "running".

(** [COALESCE(last_heartbeat_at, started_at)] *)
Definition last_activity (w : AgentWorker) : DateTime := default (started_at w) (last_heartbeat_at w).

Definition nanos_per_sec : Z := 1000000000.

Definition is_stale (now : DateTime) (secs : Z) (w : AgentWorker) : bool :=
  is_live w && (last_activity w <? now - secs * nanos_per_sec)%Z.

Definition done_state (r : WorkerDoneReason) : string :=
  match r with DoneCompleted => "completed" | DoneFailed => "failed" | DoneTerminated => "dead" end.

#[local] Set Default Proof Using "Type".

Section store.
Context {C : Type}.
Variable clock : nat -> DateTime.
Variable uuid : nat -> Uuid.
(** The order in which a query visits the rows. *)
Variable scan : forall A, list A -> list A.

Abbreviation F := (M (Fleet C) StorageError).

Definition on_workers (f : list AgentWorker -> list AgentWorker) : F unit :=
  modify_st (fun s => mkFleet (repos s) (f (agent_workers s)) (agent_worker_logs s) (next_log s)
    (fl_workspaces s) (fl_issues s) (compute s) (fl_draws s) (fl_ticks s)).

(** [NOW()] *)
Definition now_sql : F DateTime := fun s =>
  (Ok (clock (fl_ticks s)), mkFleet (repos s) (agent_workers s) (agent_worker_logs s) (next_log s)
     (fl_workspaces s) (fl_issues s) (compute s) (fl_draws s) (S (fl_ticks s))).

(** [Uuid::new_v4()] *)
Definition draw_uuid : F Uuid := fun s =>
  (Ok (uuid (fl_draws s)), mkFleet (repos s) (agent_workers s) (agent_worker_logs s) (next_log s)
     (fl_workspaces s) (fl_issues s) (compute s) (S (fl_draws s)) (fl_ticks s)).

Definition find_worker (id : Uuid) (s : Fleet C) : option AgentWorker := find_by aw_id id (agent_workers s).

(** An [UPDATE .. WHERE id = ?] that reports how many rows it changed. *)
Definition update_worker (id : Uuid) (f : AgentWorker -> AgentWorker) : F unit := fun s =>
  match find_worker id s with
  | None => (Err (StNotFound ("agent worker " +:+ id)), s)
  | Some _ => on_workers (update_by aw_id id f) s
  end.

Definition create_worker (repo_id : Uuid) (provider : string) (machine : option string) : F AgentWorker :=
  id ← draw_uuid;
  now ← now_sql;
  s ← get_st;
  match find_by rp_id repo_id (repos s), find_worker id s with
  | Some _, None =>
      let w := mkWorker id repo_id provider machine "spawning" None None now None in
      _ ← on_workers (fun l => l ++ [w]);
      mret w
  | _, _ => fail StDatabase
  end.

Definition get_worker (id : Uuid) : F AgentWorker := fun s =>
  (match find_worker id s with Some w => Ok w | None => Err (StNotFound ("agent worker " +:+ id)) end, s).

Definition count_running_workers (repo_id : Uuid) (s : Fleet C) : nat :=
  length (filter (fun w => aw_repo_id w = repo_id /\ is_live w = true) (agent_workers s)).

Definition is_cloud_agent_enabled (repo_id : Uuid) (s : Fleet C) : bool :=
  match find_by rp_id repo_id (repos s) with Some r => cloud_agent_enabled r | None => false end.

Definition list_logs (id : Uuid) (since : option Z) (s : Fleet C) : list WorkerLog :=
  take 1000 (sort_by (fun a b => lg_id a <=? lg_id b)%Z
    (filter (fun l => lg_worker_id l = id /\ (match since with Some n => n <? lg_id l | None => true end)%Z = true)
       (scan _ (agent_worker_logs s)))).

Definition with_machine (m : string) (w : AgentWorker) : AgentWorker :=
  mkWorker (aw_id w) (aw_repo_id w) (provider w) (Some m) (aw_state w) (aw_workspace_id w)
    (last_heartbeat_at w) (started_at w) (ended_at w).

(** No row is no error here. *)
Definition set_machine_id (id : Uuid) (m : string) : F unit :=
  on_workers (update_by aw_id id (with_machine m)).

Definition with_heartbeat (t : DateTime) (w : AgentWorker) : AgentWorker :=
  mkWorker (aw_id w) (aw_repo_id w) (provider w) (machine_id w) (aw_state w) (aw_workspace_id w)
    (Some t) (started_at w) (ended_at w).

Definition update_heartbeat (id : Uuid) : F unit :=
  now ← now_sql;
  update_worker id (with_heartbeat now).

Fixpoint number_logs (id : Uuid) (stream : LogStream) (now : DateTime) (next : Z) (chunks : list string) :
    list WorkerLog :=
  match chunks with
  | [] => []
  | c :: chunks' => mkLog next id now stream c :: number_logs id stream now (next + 1) chunks'
  end.

Definition append_logs (id : Uuid) (stream : LogStream) (chunks : list string) : F unit :=
  match chunks with
  | [] => mret tt
  | _ =>
      s ← get_st;
      match find_worker id s with
      | None => fail (StNotFound ("agent worker " +:+ id))
      | Some _ =>
          now ← now_sql;
          modify_st (fun s => mkFleet (repos s) (agent_workers s)
            (agent_worker_logs s ++ number_logs id stream now (next_log s) chunks)
            (next_log s + Z.of_nat (length chunks)) (fl_workspaces s) (fl_issues s) (compute s)
            (fl_draws s) (fl_ticks s))
      end
  end.

Definition with_end (state : string) (t : DateTime) (w : AgentWorker) : AgentWorker :=
  mkWorker (aw_id w) (aw_repo_id w) (provider w) (machine_id w) state (aw_workspace_id w)
    (last_heartbeat_at w) (started_at w) (Some t).

Definition mark_done (id : Uuid) (r : WorkerDoneReason) : F unit :=
  now ← now_sql;
  update_worker id (with_end (done_state r) now).

Definition get_worker_by_workspace (ws : Uuid) (s : Fleet C) : option AgentWorker :=
  head (filter (fun w => aw_workspace_id w = Some ws /\ is_live w = true) (scan _ (agent_workers s))).

Definition list_stale_workers (secs : Z) : F (list AgentWorker) :=
  now ← now_sql;
  s ← get_st;
  mret (filter (fun w => is_stale now secs w = true) (scan _ (agent_workers s))).

Definition with_workspace (ws : Uuid) (w : AgentWorker) : AgentWorker :=
  mkWorker (aw_id w) (aw_repo_id w) (provider w) (machine_id w) (aw_state w) (Some ws)
    (last_heartbeat_at w) (started_at w) (ended_at w).

(** The column references the table of workspaces. *)
Definition set_workspace_id (id ws : Uuid) : F unit := fun s =>
  match find_worker id s, find_by sw_id ws (fl_workspaces s) with
  | Some _, None => (Err StDatabase, s)
  | _, _ => update_worker id (with_workspace ws) s
  end.

(** Open workspaces of issues that no live worker holds. *)
Definition is_orphan (now : DateTime) (secs : Z) (s : Fleet C) (w : ServerWorkspace) : bool :=
  (bool_decide (sw_status w = WsCreated) || bool_decide (sw_status w = WsActive)) &&
  negb (bool_decide (sw_issue_id w = None)) &&
  negb (existsb (fun a => bool_decide (aw_workspace_id a = Some (sw_id w)) && is_live a) (agent_workers s)) &&
  (sw_created_at w <? now - secs * nanos_per_sec)%Z.

Definition list_orphaned_issue_workspaces (secs : Z) : F (list (Uuid * Uuid * Uuid)) :=
  now ← now_sql;
  s ← get_st;
  mret (omap (fun w => (fun i => (sw_id w, sw_repo_id w, i)) <$> sw_issue_id w)
    (filter (fun w => is_orphan now secs s w = true) (scan _ (fl_workspaces s)))).

Definition set_cloud_agent_enabled (repo_id : Uuid) (enabled : bool) : F unit := fun s =>
  match find_by rp_id repo_id (repos s) with
  | None => (Err (StNotFound ("repo " +:+ repo_id)), s)
  | Some _ =>
      (Ok tt, mkFleet (update_by rp_id repo_id (fun r => mkRepoRow (rp_id r) (rp_name r) enabled) (repos s))
         (agent_workers s) (agent_worker_logs s) (next_log s) (fl_workspaces s) (fl_issues s) (compute s)
         (fl_draws s) (fl_ticks s))
  end.

Definition list_cloud_enabled_repos (s : Fleet C) : list (Uuid * string) :=
  (fun r => (rp_id r, rp_name r)) <$> filter (fun r => cloud_agent_enabled r = true) (scan _ (repos s)).

Definition list_workers_by_repo (repo_id : Uuid) (state : option string) (q : ListQuery) (s : Fleet C) :
    ListResult AgentWorker :=
  let rows := filter (fun w => aw_repo_id w = repo_id /\
    (match state with Some st => String.eqb (aw_state w) st | None => true end) = true) (scan _ (agent_workers s)) in
  mkListResult (select_page q (sort_by (fun a b => started_at b <=? started_at a)%Z rows))
    (Z.of_nat (length rows)).

(** ** Workspaces and issues, as the registry uses them *)

Definition get_workspace (repo_id id : Uuid) (s : Fleet C) : option ServerWorkspace :=
  head (filter (fun w => sw_repo_id w = repo_id /\ sw_id w = id) (fl_workspaces s)).

Definition discarded (w : ServerWorkspace) : ServerWorkspace :=
  mkServerWs (sw_id w) (sw_repo_id w) WsDiscarded (sw_issue_id w) (sw_created_at w).

(** [UPDATE workspaces SET status = 'Discarded'], whatever the status was. *)
Definition discard_workspace (repo_id id : Uuid) : F unit :=
  modify_st (fun s => mkFleet (repos s) (agent_workers s) (agent_worker_logs s) (next_log s)
    ((fun w => if decide (sw_repo_id w = repo_id /\ sw_id w = id) then discarded w else w) <$> fl_workspaces s)
    (fl_issues s) (compute s) (fl_draws s) (fl_ticks s)).

Definition reopened (i : ServerIssue) : ServerIssue := mkServerIssue (is_id i) (is_repo_id i) Open.

(** [update_issue] with the status [Open] and nothing else; no row is an error
    that the callers ignore. *)
Definition reopen_issue (repo_id id : Uuid) : F unit := fun s =>
  match head (filter (fun i => is_repo_id i = repo_id /\ is_id i = id) (fl_issues s)) with
  | None => (Err (StNotFound ("issue " +:+ id)), s)
  | Some _ =>
      (Ok tt, mkFleet (repos s) (agent_workers s) (agent_worker_logs s) (next_log s) (fl_workspaces s)
        ((fun i => if decide (is_repo_id i = repo_id /\ is_id i = id) then reopened i else i) <$> fl_issues s)
        (compute s) (fl_draws s) (fl_ticks s))
  end.

(** [let _ = ..]: the effects stay, the outcome is dropped. *)
Definition ignore {E E' A} (m : M (Fleet C) E A) : M (Fleet C) E' unit := fun s => (Ok tt, (m s).2).

Definition count_open_issues (repo_id : Uuid) (s : Fleet C) : nat :=
  length (filter (fun i => is_repo_id i = repo_id /\ is_status i = Open) (fl_issues s)).

(** ** Spawning *)

Inductive RegistryError : Type :=
  | RgStorage (e : StorageError)
  | RgProvider (message : string)
  | RgMissingRepoSecret (name : string).

Record SpawnConfig : Type := mkSpawnConfig {
  worker_image : string;
  server_url : string;
  repo_name : string;
  vai_api_key : string
}.

Context `{ComputeProvider C}.
(** The secrets of a repository, from the vault; the display of a provider error. *)
Variable vault : Uuid -> outcome string (gmap string string).
Variable show_error : ProviderError -> string.

Abbreviation R := (M (Fleet C) RegistryError).

Definition stored {A} (m : F A) : R A := fun s => let '(r, s') := m s in (map_err RgStorage r, s').

Definition with_compute (c : C) (s : Fleet C) : Fleet C :=
  mkFleet (repos s) (agent_workers s) (agent_worker_logs s) (next_log s) (fl_workspaces s) (fl_issues s) c
    (fl_draws s) (fl_ticks s).

(** A call of the provider. *)
Definition on_compute {A} (m : M C ProviderError A) : M (Fleet C) ProviderError A := fun s =>
  let '(r, c) := m (compute s) in (r, with_compute c s).

Definition default_max_concurrent : nat := 3.

(** [VAI_WORKER_MAX_CONCURRENT] *)
Definition configured_max_concurrent (var : option string) : nat :=
  default default_max_concurrent (N.to_nat <$> (var ≫= parse_u64)).

Definition anthropic_key : string := "ANTHROPIC_API_KEY".

Definition worker_env (secrets : gmap string string) (c : SpawnConfig) (repo_id worker_id : Uuid) :
    gmap string string :=
  <["VAI_WORKER_ID" := worker_id]> (<["VAI_REPO_ID" := repo_id]> (<["VAI_API_KEY" := vai_api_key c]>
    (<["VAI_REPO" := repo_name c]> (<["VAI_SERVER_URL" := server_url c]> secrets))))%string.

(** The secrets with the key, or the error of its absence. *)
Definition resolve_key (secrets : gmap string string) (fallback : string) :
    outcome RegistryError (gmap string string) :=
  match secrets !! anthropic_key with
  | Some _ => Ok secrets
  | None =>
      if String.eqb fallback "" then Err (RgMissingRepoSecret anthropic_key)
      else Ok (<[anthropic_key := fallback]> secrets)
  end.

(** The count that admits a worker. *)
Definition below_cap (cap : nat) (repo_id : Uuid) (s : Fleet C) : bool := negb (cap <=? count_running_workers repo_id s).

(** The secrets and the row of a new worker. *)
Definition spawn_row (repo_id : Uuid) (fallback : string) : R (AgentWorker * gmap string string) :=
  secrets ← lift (map_err RgProvider (vault repo_id));
  secrets ← lift (resolve_key secrets fallback);
  worker ← stored (create_worker repo_id "fly" None);
  mret (worker, secrets).

(** Its machine. The row of a worker whose machine could not be made stays. *)
Definition spawn_machine (repo_id : Uuid) (config : SpawnConfig) (worker : AgentWorker) (secrets : gmap string string) :
    R (option Uuid) :=
  key ← stored draw_uuid;
  let spec := mkSpec (worker_image config) (worker_env secrets config repo_id (aw_id worker)) Large
                {["vai_repo_id"%string := repo_id]} key in
  s ← get_st;
  match spawn spec (compute s) with
  | (Ok machine, c) =>
      _ ← modify_st (with_compute c);
      _ ← ignore (set_machine_id (aw_id worker) machine);
      mret (Some (aw_id worker))
  | (Err e, c) => _ ← modify_st (with_compute c); fail (RgProvider (show_error e))
  | (Panic, c) => _ ← modify_st (with_compute c); lift Panic
  end.

Definition spawn_if_capacity (cap : nat) (repo_id : Uuid) (fallback : string) (config : SpawnConfig) :
    R (option Uuid) :=
  s ← get_st;
  if negb (is_cloud_agent_enabled repo_id s) then mret None
  else if negb (below_cap cap repo_id s) then mret None
  else
    '(worker, secrets) ← spawn_row repo_id fallback;
    spawn_machine repo_id config worker secrets.

(** The token a worker authenticates with. *)
Variable sign_worker_token : Uuid -> string.

(** [for _ in 0..needed]; the loop stops at the first call that spawns nothing. *)
Fixpoint top_up (needed cap : nat) (repo_id : Uuid) (fallback : string) (config : SpawnConfig)
    (s : Fleet C) : Fleet C :=
  match needed with
  | 0 => s
  | S needed =>
      match spawn_if_capacity cap repo_id fallback config s with
      | (Ok (Some _), s') => top_up needed cap repo_id fallback config s'
      | (_, s') => s'
      end
  end.

Definition top_up_repo (cap : nat) (image url fallback : string) (s : Fleet C) (repo : Uuid * string) : Fleet C :=
  let running := count_running_workers repo.1 s in
  if cap <=? running then s
  else
    let needed := Nat.min (count_open_issues repo.1 s) cap - running in
    top_up needed cap repo.1 fallback (mkSpawnConfig image url repo.2 (sign_worker_token repo.1)) s.

Definition spawn_reconcile_once (cap : nat) (image url fallback : string) (s : Fleet C) : Fleet C :=
  foldl (top_up_repo cap image url fallback) s (list_cloud_enabled_repos s).

(** ** Reconciliation of dead workers *)

(** The workspace a dead worker holds is discarded, and its issue reopened. *)
Definition release_workspace (w : AgentWorker) (s : Fleet C) : Fleet C :=
  match aw_workspace_id w with
  | None => s
  | Some ws =>
      match get_workspace (aw_repo_id w) ws s with
      | None => s
      | Some meta =>
          let s := (discard_workspace (aw_repo_id w) ws s).2 in
          match sw_issue_id meta with
          | Some issue => (reopen_issue (aw_repo_id w) issue s).2
          | None => s
          end
      end
  end.

(** [compute.destroy] of the worker's machine, whose errors are only logged. *)
Definition destroy_machine (w : AgentWorker) (s : Fleet C) : Fleet C :=
  match machine_id w with
  | Some m => (ignore (E' := StorageError) (on_compute (destroy m)) s).2
  | None => s
  end.

Definition reap_worker (acc : nat * Fleet C) (w : AgentWorker) : nat * Fleet C :=
  let s := release_workspace w acc.2 in
  match mark_done (aw_id w) DoneTerminated s with
  | (Ok _, s') => (S acc.1, destroy_machine w s')
  | (_, s') => (acc.1, s')
  end.

Definition sweep_one (acc : nat * Fleet C) (o : Uuid * Uuid * Uuid) : nat * Fleet C :=
  let '(ws, repo, issue) := o in
  let s := (discard_workspace repo ws acc.2).2 in
  (S acc.1, (reopen_issue repo issue s).2).

Definition sweep_orphaned_workspaces (secs : Z) (s : Fleet C) : nat * Fleet C :=
  match list_orphaned_issue_workspaces secs s with
  | (Ok orphans, s') => foldl sweep_one (0, s') orphans
  | (_, s') => (0, s')
  end.

Definition reconcile_once (secs : Z) (s : Fleet C) : nat * Fleet C :=
  match list_stale_workers secs s with
  | (Ok stale, s') =>
      let '(marked, s'') := foldl reap_worker (0, s') stale in
      let '(swept, s''') := sweep_orphaned_workspaces secs s'' in
      (marked + swept, s''')
  | (_, s') => (0, s')
  end.

(** ** The administrator's removal of a worker *)

Inductive ApiError : Type :=
  | ApiForbidden | ApiNotFound (what : string) | ApiInternal | ApiConflict | ApiBadRequest.

Definition api_error (e : StorageError) : ApiError :=
  match e with StNotFound what => ApiNotFound what | StDatabase => ApiInternal end.

(** [has_compute]: a provider is configured. *)
Definition destroy_worker_handler (is_admin has_compute : bool) (id : Uuid) : M (Fleet C) ApiError unit := fun s =>
  if negb is_admin then (Err ApiForbidden, s)
  else
    match find_worker id s with
    | None => (Err (ApiNotFound ("agent worker " +:+ id)), s)
    | Some w =>
        let s := if has_compute then destroy_machine w s else s in
        let '(r, s) := mark_done id DoneTerminated (release_workspace w s) in
        (map_err (fun _ => ApiInternal) r, s)
    end.

(** ** The cap *)

(** Arithmetic and logic that do not look at the parameters. *)
Ltac forget := try clear vault; try clear sign_worker_token; try clear show_error; try clear clock; try clear uuid;
  try clear scan.
Ltac flia := forget; lia.
Ltac ftauto := forget; tauto.
Ltac fnaive := forget; naive_solver.
Ltac fset := forget; set_solver.

Lemma is_live_spawning i r p m ws hb t e : is_live (mkWorker i r p m "spawning" ws hb t e) = true.
Proof. done. Qed.

(** The workers of a repository that live. *)
Definition live_of (repo : Uuid) (l : list AgentWorker) : nat :=
  length (filter (fun w => aw_repo_id w = repo /\ is_live w = true) l).

Lemma live_of_update repo id f l :
  (forall w, aw_repo_id (f w) = aw_repo_id w) -> (forall w, is_live (f w) = true -> is_live w = true) ->
  live_of repo (update_by aw_id id f l) <= live_of repo l.
Proof.
  intros Hr Hl. unfold live_of, update_by. induction l as [|w l IH]; [done|].
  rewrite fmap_cons, !filter_cons. set (w' := if decide (aw_id w = id) then f w else w).
  assert (aw_repo_id w' = aw_repo_id w /\ (is_live w' = true -> is_live w = true)) as [E1 E2].
  { unfold w'. case_decide; [split; [apply Hr|apply Hl]|done]. }
  rewrite E1. repeat case_decide; simpl; try flia. exfalso. ftauto.
Qed.


Lemma live_of_snoc repo l w :
  live_of repo (l ++ [w]) = live_of repo l + if decide (aw_repo_id w = repo /\ is_live w = true) then 1 else 0.
Proof.
  unfold live_of. rewrite filter_app, length_app. case_decide.
  - by rewrite filter_cons_True.
  - by rewrite filter_cons_False.
Qed.

(** A worker is spawning until its end is recorded. *)
Definition worker_ok (w : AgentWorker) : Prop :=
  (aw_state w = "spawning"%string /\ ended_at w = None) \/
  ((exists r, aw_state w = done_state r) /\ ended_at w <> None).

(** What may happen to a row: it keeps its id and repository, and is not revived. *)
Record row_step (w w' : AgentWorker) : Prop := {
  rs_id : aw_id w' = aw_id w;
  rs_repo : aw_repo_id w' = aw_repo_id w;
  rs_live : is_live w' = true -> is_live w = true;
  rs_ok : worker_ok w -> worker_ok w'
}.

#[local] Instance row_step_preorder : PreOrder row_step.
Proof.
  split; [by intros w|]. intros w1 w2 w3 [I1 R1 L1 O1] [I2 R2 L2 O2]. split; [congruence|congruence|auto|auto].
Qed.

(** Each row makes such a step, and none is added. *)
Definition rows_step (l l' : list AgentWorker) : Prop := Forall2 row_step l l'.

#[local] Instance rows_step_preorder : PreOrder rows_step.
Proof. split; [change (Reflexive (Forall2 row_step))|change (Transitive (Forall2 row_step))]; apply _. Qed.

Lemma rows_step_update id f l : (forall w, row_step w (f w)) -> rows_step l (update_by aw_id id f l).
Proof.
  intros Hf. unfold rows_step, update_by. apply Forall2_fmap_r. apply Forall_Forall2_diag, Forall_true. intros w.
  simpl. case_decide; [apply Hf|reflexivity].
Qed.

Lemma rows_step_live repo l l' : rows_step l l' -> live_of repo l' <= live_of repo l.
Proof.
  unfold live_of. induction 1 as [|w w' l l' [_ Hr Hl _] _ IH]; [done|]. rewrite !filter_cons, Hr.
  repeat case_decide; simpl; try flia. exfalso. ftauto.
Qed.

Lemma rows_step_ids l l' : rows_step l l' -> aw_id <$> l' = aw_id <$> l.
Proof. induction 1 as [|w w' l l' [Hi _ _ _] _ IH]; [done|]. rewrite !fmap_cons. congruence. Qed.

Lemma rows_step_ok l l' : rows_step l l' -> Forall worker_ok l -> Forall worker_ok l'.
Proof. induction 1 as [|w w' l l' [_ _ _ Ho] _ IH]; [done|]. intros [Hw Hl]%Forall_cons. constructor; auto. Qed.

Lemma rows_step_in l l' w : rows_step l l' -> w ∈ l -> exists w', w' ∈ l' /\ row_step w w'.
Proof.
  intros Hl [i Hi]%list_elem_of_lookup. destruct (Forall2_lookup_l _ _ _ _ _ Hl Hi) as (w' & Hi' & Hw).
  exists w'. split; [by eapply list_elem_of_lookup_2|done].
Qed.

Lemma update_worker_rows id f s :
  (forall w, row_step w (f w)) -> rows_step (agent_workers s) (agent_workers (update_worker id f s).2).
Proof.
  intros Hf. unfold update_worker. destruct (find_worker id s); [by apply rows_step_update|reflexivity].
Qed.

Lemma with_end_step r t w : row_step w (with_end (done_state r) t w).
Proof. split; [done|done|by destruct r|]. intros _. right. split; [by exists r|done]. Qed.

Lemma mark_done_rows id r s : rows_step (agent_workers s) (agent_workers (mark_done id r s).2).
Proof.
  unfold mark_done, now_sql, mbind, M_bind.
  match goal with |- rows_step _ (agent_workers (update_worker _ _ ?s1).2) => apply (update_worker_rows id _ s1) end.
  intros w. apply with_end_step.
Qed.

(** What the other calls leave alone. *)
Lemma discard_workspace_workers repo ws s :
  agent_workers (discard_workspace repo ws s).2 = agent_workers s.
Proof. done. Qed.

Lemma reopen_issue_workers repo i s : agent_workers (reopen_issue repo i s).2 = agent_workers s.
Proof. unfold reopen_issue. by destruct (head _). Qed.

Lemma release_workspace_workers w s : agent_workers (release_workspace w s) = agent_workers s.
Proof.
  unfold release_workspace. destruct (aw_workspace_id w); [|done]. destruct (get_workspace _ _ _) as [m|]; [|done].
  destruct (sw_issue_id m); [by rewrite reopen_issue_workers|done].
Qed.

Lemma destroy_machine_workers w s : agent_workers (destroy_machine w s) = agent_workers s.
Proof.
  unfold destroy_machine, ignore, on_compute. destruct (machine_id w) as [m|]; [|done]. simpl.
  by destruct (destroy m (compute s)).
Qed.

Lemma reap_worker_rows acc w : rows_step (agent_workers acc.2) (agent_workers (reap_worker acc w).2).
Proof.
  unfold reap_worker. pose proof (mark_done_rows (aw_id w) DoneTerminated (release_workspace w acc.2)) as Hm.
  rewrite release_workspace_workers in Hm.
  destruct (mark_done _ _ _) as [[u|e|] s']; [simpl; by rewrite destroy_machine_workers|done..].
Qed.

Lemma sweep_one_workers acc o : agent_workers (sweep_one acc o).2 = agent_workers acc.2.
Proof. destruct o as [[ws repo] i]. simpl. by rewrite reopen_issue_workers. Qed.

Lemma sweep_workers secs s : agent_workers (sweep_orphaned_workspaces secs s).2 = agent_workers s.
Proof.
  assert (Hf : forall os acc, agent_workers (foldl sweep_one acc os).2 = agent_workers acc.2).
  { intros os. induction os as [|o os IH]; intros acc; [done|]. simpl. by rewrite IH, sweep_one_workers. }
  unfold sweep_orphaned_workspaces, list_orphaned_issue_workspaces, now_sql, get_st, mbind, M_bind. simpl.
  by rewrite Hf.
Qed.

Lemma reconcile_once_rows secs s : rows_step (agent_workers s) (agent_workers (reconcile_once secs s).2).
Proof.
  unfold reconcile_once, list_stale_workers, now_sql, get_st, mbind, M_bind. simpl.
  assert (Hf : forall ws acc, rows_step (agent_workers acc.2) (agent_workers (foldl reap_worker acc ws).2)).
  { intros ws. induction ws as [|w ws IH]; intros acc; [reflexivity|]. simpl. etrans; [apply reap_worker_rows|apply IH]. }
  set (l := filter _ _). set (s' := mkFleet _ _ _ _ _ _ _ _ _).
  specialize (Hf l (0, s')). destruct (foldl reap_worker (0, s') l) as [n s1]. simpl in Hf.
  pose proof (sweep_workers secs s1) as Hw.
  destruct (sweep_orphaned_workspaces secs s1) as [m s2]. simpl in *. by rewrite Hw.
Qed.

(** The store after a worker was created, and after it was refused. *)
Definition drawn (s : Fleet C) : Fleet C :=
  mkFleet (repos s) (agent_workers s) (agent_worker_logs s) (next_log s) (fl_workspaces s) (fl_issues s)
    (compute s) (S (fl_draws s)) (S (fl_ticks s)).

Definition new_worker (repo : Uuid) (p : string) (m : option string) (s : Fleet C) : AgentWorker :=
  mkWorker (uuid (fl_draws s)) repo p m "spawning" None None (clock (fl_ticks s)) None.

Lemma create_worker_result repo p m s :
  create_worker repo p m s =
    match find_by rp_id repo (repos s), find_worker (uuid (fl_draws s)) s with
    | Some _, None =>
        (Ok (new_worker repo p m s), (on_workers (fun l => l ++ [new_worker repo p m s]) (drawn s)).2)
    | _, _ => (Err StDatabase, drawn s)
    end.
Proof.
  unfold create_worker, draw_uuid, now_sql, get_st, find_worker, mbind, M_bind. simpl.
  destruct (find_by rp_id repo (repos s)); [|done]. by destruct (find_by aw_id _ _).
Qed.


(** The row of a new worker is added at the end, or nothing is. *)
Lemma spawn_row_result repo fb s :
  let '(r, s') := spawn_row repo fb s in
  repos s' = repos s /\ fl_issues s' = fl_issues s /\ compute s' = compute s /\
  ((agent_workers s' = agent_workers s /\ forall a, r <> Ok a) \/
   exists secrets, r = Ok (new_worker repo "fly" None s, secrets) /\
     agent_workers s' = agent_workers s ++ [new_worker repo "fly" None s] /\ fl_draws s' = S (fl_draws s) /\
     find_worker (uuid (fl_draws s)) s = None).
Proof.
  unfold spawn_row, lift. unfold mbind at 1, M_bind at 1.
  destruct (vault repo) as [secrets|e|]; simpl; [|split_and!; try done; by left..].
  unfold mbind at 1, M_bind at 1. destruct (resolve_key secrets fb) as [secrets'|e|]; [|split_and!; try done; by left..].
  unfold mbind at 1, M_bind at 1. unfold stored at 1. rewrite create_worker_result.
  destruct (find_by rp_id repo (repos s)) as [rr|]; simpl; [|split_and!; try done; by left].
  destruct (find_worker (uuid (fl_draws s)) s) as [ow|] eqn:Ef; simpl; [split_and!; try done; by left|].
  split_and!; try done. right. by exists secrets'.
Qed.

Lemma spawn_machine_rows repo cfg worker secrets s :
  rows_step (agent_workers s) (agent_workers (spawn_machine repo cfg worker secrets s).2).
Proof.
  unfold spawn_machine, stored, draw_uuid, get_st, modify_st, ignore, mbind, M_bind. simpl.
  match goal with |- context [spawn ?sp ?c] => destruct (spawn sp c) as [[m|e|] c'] end; simpl; [|reflexivity..].
  apply rows_step_update. intros w. by split.
Qed.

Lemma destroy_worker_handler_rows adm hc id s :
  rows_step (agent_workers s) (agent_workers (destroy_worker_handler adm hc id s).2).
Proof.
  unfold destroy_worker_handler. destruct (negb adm); [reflexivity|].
  destruct (find_worker id s) as [w|]; [|reflexivity].
  set (s1 := if hc then destroy_machine w s else s).
  assert (H1 : agent_workers (release_workspace w s1) = agent_workers s).
  { rewrite release_workspace_workers. unfold s1. destruct hc; [by rewrite destroy_machine_workers|done]. }
  pose proof (mark_done_rows id DoneTerminated (release_workspace w s1)) as Hm. rewrite H1 in Hm.
  by destruct (mark_done id DoneTerminated (release_workspace w s1)).
Qed.

(** ** The tasks of the server, interleaved *)

(** A worker can be spawned by the request that creates an issue, of which the lock of the
    repositories admits one at a time, and by the loop of the reconciler, which takes no
    lock. [OnRequest] and [OnLoop] are what the two are about to insert: a repository whose
    workers they have counted below the cap. *)
Inductive Spawner : Type := OnRequest | OnLoop.

Record System : Type := mkSystem { sys_fleet : Fleet C; sys_request : option Uuid; sys_loop : option Uuid }.

Definition admitted (t : Spawner) (y : System) : option Uuid :=
  match t with OnRequest => sys_request y | OnLoop => sys_loop y end.
Definition other (t : Spawner) : Spawner := match t with OnRequest => OnLoop | OnLoop => OnRequest end.
Definition set_admitted (t : Spawner) (o : option Uuid) (y : System) : System :=
  match t with
  | OnRequest => mkSystem (sys_fleet y) o (sys_loop y)
  | OnLoop => mkSystem (sys_fleet y) (sys_request y) o
  end.
Definition on_fleet (g : Fleet C -> Fleet C) (y : System) : System := mkSystem (g (sys_fleet y)) (sys_request y) (sys_loop y).

(** What happens to the workers: the pieces of [spawn_if_capacity] between which other tasks
    run (the loop repeats them), the reconciler, the removal by an administrator, the calls of
    the workers, and whatever else changes the other tables and the provider. With [overlap]
    the two spawners run side by side; without, one waits for the other. *)
Inductive fleet_step (overlap : bool) (cap : nat) (y : System) : System -> Prop :=
  | step_count t repo : admitted t y = None -> (overlap = true \/ admitted (other t) y = None) ->
      below_cap cap repo (sys_fleet y) = true -> fleet_step overlap cap y (set_admitted t (Some repo) y)
  | step_row t repo fb : admitted t y = Some repo ->
      fleet_step overlap cap y (set_admitted t None (on_fleet (fun s => (spawn_row repo fb s).2) y))
  | step_machine repo cfg worker secrets :
      fleet_step overlap cap y (on_fleet (fun s => (spawn_machine repo cfg worker secrets s).2) y)
  | step_reconcile secs : fleet_step overlap cap y (on_fleet (fun s => (reconcile_once secs s).2) y)
  | step_heartbeat id : fleet_step overlap cap y (on_fleet (fun s => (update_heartbeat id s).2) y)
  | step_logs id stream chunks : fleet_step overlap cap y (on_fleet (fun s => (append_logs id stream chunks s).2) y)
  | step_done id r : fleet_step overlap cap y (on_fleet (fun s => (mark_done id r s).2) y)
  | step_workspace id ws : fleet_step overlap cap y (on_fleet (fun s => (set_workspace_id id ws s).2) y)
  | step_destroy adm hc id : fleet_step overlap cap y (on_fleet (fun s => (destroy_worker_handler adm hc id s).2) y)
  | step_enable repo b : fleet_step overlap cap y (on_fleet (fun s => (set_cloud_agent_enabled repo b s).2) y)
  | step_other ws iss c : fleet_step overlap cap y (on_fleet (fun s => mkFleet (repos s) (agent_workers s)
      (agent_worker_logs s) (next_log s) ws iss c (fl_draws s) (fl_ticks s)) y).

(** A call that nobody interrupts is such steps. *)
Lemma spawn_alone overlap cap t repo fb cfg y : admitted t y = None -> (overlap = true \/ admitted (other t) y = None) ->
  rtc (fleet_step overlap cap) y (on_fleet (fun s => (spawn_if_capacity cap repo fb cfg s).2) y).
Proof.
  intros Hn Ho. assert (Hsame : y = on_fleet (fun s => s) y) by (by destruct y).
  unfold spawn_if_capacity, get_st. unfold mbind at 1, M_bind at 1. unfold on_fleet at 1.
  destruct (negb (is_cloud_agent_enabled repo (sys_fleet y))); [rewrite Hsame at 1; done|].
  destruct (negb (below_cap cap repo (sys_fleet y))) eqn:Hc; [rewrite Hsame at 1; done|]. apply negb_false_iff in Hc.
  unfold mbind at 1, M_bind at 1. destruct (spawn_row repo fb (sys_fleet y)) as [r s1] eqn:Er.
  eapply rtc_l; [by apply (step_count overlap cap y t repo)|].
  eapply rtc_l; [eapply (step_row overlap cap _ t repo fb); by destruct t|].
  assert (Hy : set_admitted t None (on_fleet (fun s => (spawn_row repo fb s).2) (set_admitted t (Some repo) y)) =
               mkSystem s1 (sys_request y) (sys_loop y)).
  { destruct y as [s q l], t; cbn in *; rewrite Er; by subst. }
  rewrite Hy. destruct r as [[worker secrets]|e|]; [|done..]. apply rtc_once.
  exact (step_machine overlap cap (mkSystem s1 (sys_request y) (sys_loop y)) repo cfg worker secrets).
Qed.

(** The workers that live or are admitted. *)
Definition pending (repo : Uuid) (y : System) : nat :=
  (if decide (sys_request y = Some repo) then 1 else 0) + (if decide (sys_loop y = Some repo) then 1 else 0).

Record system_ok (overlap : bool) (cap : nat) (y : System) : Prop := {
  so_ids : NoDup (aw_id <$> agent_workers (sys_fleet y));
  so_states : Forall worker_ok (agent_workers (sys_fleet y));
  so_cap repo : live_of repo (agent_workers (sys_fleet y)) + pending repo y <= cap + (if overlap then 1 else 0);
  so_alone : overlap = false -> sys_request y = None \/ sys_loop y = None
}.

Lemma pending_on_fleet g repo y : pending repo (on_fleet g y) = pending repo y.
Proof. done. Qed.

(** A step that adds no row. *)
Lemma rows_system_ok overlap cap g y :
  rows_step (agent_workers (sys_fleet y)) (agent_workers (g (sys_fleet y))) -> system_ok overlap cap y ->
  system_ok overlap cap (on_fleet g y).
Proof.
  intros Hr [Hi Hs Hc Ha]. split; simpl.
  - by rewrite (rows_step_ids _ _ Hr).
  - by apply (rows_step_ok _ _ Hr).
  - intros repo. pose proof (rows_step_live repo _ _ Hr). pose proof (Hc repo). rewrite pending_on_fleet. flia.
  - exact Ha.
Qed.

Lemma set_admitted_fleet t o y : sys_fleet (set_admitted t o y) = sys_fleet y.
Proof. by destruct t. Qed.

Lemma pending_admit t repo o y : admitted t y = None ->
  pending repo (set_admitted t (Some o) y) = pending repo y + (if decide (o = repo) then 1 else 0).
Proof.
  unfold pending. destruct t, y as [s q l]; simpl; intros ->; repeat case_decide; try flia; congruence.
Qed.

Lemma pending_settle t repo o g y : admitted t y = Some o ->
  pending repo (set_admitted t None (on_fleet g y)) + (if decide (o = repo) then 1 else 0) = pending repo y.
Proof.
  unfold pending. destruct t, y as [s q l]; simpl; intros ->; repeat case_decide; try flia; congruence.
Qed.

Lemma count_ok overlap cap t repo y : admitted t y = None -> (overlap = true \/ admitted (other t) y = None) ->
  below_cap cap repo (sys_fleet y) = true -> system_ok overlap cap y ->
  system_ok overlap cap (set_admitted t (Some repo) y).
Proof.
  intros Hn Ho Hb [Hi Hs Hc Ha]. split; rewrite ?set_admitted_fleet; [done|done| |].
  - intros repo'. rewrite pending_admit by done. case_decide as Hd; [subst repo'|rewrite Nat.add_0_r; apply Hc].
    unfold below_cap in Hb. apply negb_true_iff, Nat.leb_gt in Hb. unfold count_running_workers in Hb. fold (live_of repo (agent_workers (sys_fleet y))) in Hb.
    assert (Hp : pending repo y <= if overlap then 1 else 0); [|flia].
    unfold pending. destruct t, y as [s q l]; simpl in *; subst; destruct overlap; destruct Ho as [?|Ho]; try done;
      subst; repeat case_decide; (flia || congruence).
  - intros ->. destruct Ho as [?|Ho]; [done|]. destruct t, y; simpl in *; [by right|by left].
Qed.

Lemma row_ok overlap cap t repo fb y : admitted t y = Some repo -> system_ok overlap cap y ->
  system_ok overlap cap (set_admitted t None (on_fleet (fun s => (spawn_row repo fb s).2) y)).
Proof.
  intros Ht [Hi Hs Hc Ha]. pose proof (spawn_row_result repo fb (sys_fleet y)) as Hr.
  destruct (spawn_row repo fb (sys_fleet y)) as [r s'] eqn:Er. destruct Hr as (_ & _ & _ & Hr).
  assert (Hf : sys_fleet (set_admitted t None (on_fleet (fun s => (spawn_row repo fb s).2) y)) = s').
  { rewrite set_admitted_fleet. simpl. by rewrite Er. }
  set (w := new_worker repo "fly" None (sys_fleet y)) in *. split.
  - rewrite Hf. destruct Hr as [[-> _]|(sec & _ & -> & _ & Hfresh)]; [done|]. by apply (snoc_keys_NoDup aw_id).
  - rewrite Hf. destruct Hr as [[-> _]|(sec & _ & -> & _)]; [done|]. apply Forall_app. split; [done|].
    constructor; [by left|constructor].
  - intros repo'. rewrite Hf. pose proof (Hc repo') as Hc'.
    pose proof (pending_settle t repo' repo (fun s => (spawn_row repo fb s).2) y Ht) as Hp.
    destruct Hr as [[-> _]|(sec & _ & -> & _)]; [flia|]. rewrite live_of_snoc.
    assert (aw_repo_id w = repo) as -> by done. repeat case_decide; try flia. exfalso. ftauto.
  - intros Hn. destruct (Ha Hn); destruct t, y; simpl in *; auto.
Qed.

Lemma append_logs_workers id stream chunks s : agent_workers (append_logs id stream chunks s).2 = agent_workers s.
Proof.
  unfold append_logs. destruct chunks; [done|]. unfold get_st, mbind, M_bind. destruct (find_worker id s); done.
Qed.

Lemma heartbeat_rows id s : rows_step (agent_workers s) (agent_workers (update_heartbeat id s).2).
Proof.
  unfold update_heartbeat, now_sql, mbind, M_bind.
  match goal with |- rows_step _ (agent_workers (update_worker _ _ ?s1).2) => apply (update_worker_rows id _ s1) end.
  intros w. by split.
Qed.

Lemma workspace_rows id ws s : rows_step (agent_workers s) (agent_workers (set_workspace_id id ws s).2).
Proof.
  unfold set_workspace_id. destruct (find_worker id s), (find_by sw_id ws (fl_workspaces s));
    try (reflexivity); apply update_worker_rows; intros w; by split.
Qed.

(** A step adds one row at the most. *)
Definition rows_grow (l l' : list AgentWorker) : Prop := exists new, rows_step (l ++ new) l'.

Lemma rows_grow_step l l' : rows_step l l' -> rows_grow l l'.
Proof. intros H1. exists []. by rewrite app_nil_r. Qed.

Ltac fleet_piece :=
  right; right; match goal with |- exists g, _ /\ on_fleet ?h _ = _ => exists h end; split; [|done]; cbn beta.

Lemma fleet_step_rows overlap cap y y' :
  fleet_step overlap cap y y' ->
  (exists t repo, admitted t y = None /\ (overlap = true \/ admitted (other t) y = None) /\
     below_cap cap repo (sys_fleet y) = true /\ y' = set_admitted t (Some repo) y) \/
  (exists t repo fb, admitted t y = Some repo /\ y' = set_admitted t None (on_fleet (fun s => (spawn_row repo fb s).2) y)) \/
  (exists g, rows_step (agent_workers (sys_fleet y)) (agent_workers (g (sys_fleet y))) /\ y' = on_fleet g y).
Proof.
  destruct 1 as [t repo Hn Ho Hb|t repo fb Ht|repo cfg w sec|secs|id|id stream chunks|id r|id ws|adm hc id|repo b|ws iss c].
  - left. by exists t, repo.
  - right; left. by exists t, repo, fb.
  - fleet_piece. apply spawn_machine_rows.
  - fleet_piece. apply reconcile_once_rows.
  - fleet_piece. apply heartbeat_rows.
  - fleet_piece. rewrite append_logs_workers. reflexivity.
  - fleet_piece. apply mark_done_rows.
  - fleet_piece. apply workspace_rows.
  - fleet_piece. apply destroy_worker_handler_rows.
  - fleet_piece. unfold set_cloud_agent_enabled.
    destruct (find_by rp_id repo _); reflexivity.
  - fleet_piece. reflexivity.
Qed.

Lemma fleet_step_ok overlap cap y y' : fleet_step overlap cap y y' -> system_ok overlap cap y -> system_ok overlap cap y'.
Proof.
  intros [(t & repo & Hn & Ho & Hb & ->)|[(t & repo & fb & Ht & ->)|(g & Hg & ->)]]%fleet_step_rows Hok.
  - by apply count_ok.
  - by apply row_ok.
  - by apply rows_system_ok.
Qed.

(** The rows stay, with their ids and repositories, and none is revived. *)
Definition keeps_dead (l l' : list AgentWorker) : Prop :=
  forall w, w ∈ l -> exists w', w' ∈ l' /\ row_step w w'.

#[local] Instance keeps_dead_preorder : PreOrder keeps_dead.
Proof.
  split; [intros l w Hw; by exists w|]. intros l1 l2 l3 H1 H2 w (w1 & Hw1 & S1)%H1.
  destruct (H2 w1 Hw1) as (w2 & Hw2 & S2). exists w2. split; [done|by etrans].
Qed.

Lemma fleet_steps_keep overlap cap y y' : rtc (fleet_step overlap cap) y y' ->
  keeps_dead (agent_workers (sys_fleet y)) (agent_workers (sys_fleet y')).
Proof.
  induction 1 as [y|y y1 y2 H1 _ IH]; [done|]. etrans; [|exact IH].
  apply fleet_step_rows in H1 as [(t & repo & _ & _ & _ & ->)|[(t & repo & fb & _ & ->)|(g & Hg & ->)]].
  - by rewrite set_admitted_fleet.
  - rewrite set_admitted_fleet. simpl. pose proof (spawn_row_result repo fb (sys_fleet y)) as Hr.
    destruct (spawn_row repo fb (sys_fleet y)) as [r s']. destruct Hr as (_ & _ & _ & [[Hr _]|(sec & _ & Hr & _)]); simpl;
      rewrite Hr; [done|]. intros w Hw. exists w. split; [apply elem_of_app; by left|done].
  - simpl. intros w Hw. by apply (rows_step_in _ _ w Hg).
Qed.

(** ** The spawner fills the fleet *)

Section fill.
Context `{!Inj (=) (=) uuid}.
Hypothesis scan_perm : forall A (l : list A), scan A l ≡ₚ l.
Variable fb : string.




(** No identifier that is still to be drawn is a worker's. *)
Definition fresh (s : Fleet C) : Prop := forall n, fl_draws s <= n -> uuid n ∉ aw_id <$> agent_workers s.

(** What the spawner keeps, and how it changes the numbers of live workers. *)
Record filled (s s' : Fleet C) : Prop := {
  fi_repos : repos s' = repos s;
  fi_issues : fl_issues s' = fl_issues s;
  fi_fresh : fresh s -> fresh s'
}.

#[local] Instance filled_preorder : PreOrder filled.
Proof.
  split.
  - by intros s.
  - intros s1 s2 s3 [H1 H2 H3] [H4 H5 H6]. split; [congruence|congruence|auto].
Qed.














End fill.

(** ** What a reconciliation frees *)

(** The workspaces of [P] are discarded, and their issues reopened. *)
Definition free_ws (P : ServerWorkspace -> bool) (l : list ServerWorkspace) : list ServerWorkspace :=
  (fun w => if P w then discarded w else w) <$> l.

Definition works_on (i : ServerIssue) (w : ServerWorkspace) : bool :=
  bool_decide (sw_repo_id w = is_repo_id i /\ sw_issue_id w = Some (is_id i)).

Definition free_issues (P : ServerWorkspace -> bool) (l : list ServerWorkspace) (iss : list ServerIssue) :
    list ServerIssue :=
  (fun i => if existsb (fun w => P w && works_on i w) l then reopened i else i) <$> iss.

Record frees (P : ServerWorkspace -> bool) (s s' : Fleet C) : Prop := {
  fr_ws : fl_workspaces s' = free_ws P (fl_workspaces s);
  fr_issues : fl_issues s' = free_issues P (fl_workspaces s) (fl_issues s)
}.

Lemma free_ws_keys P l : sw_id <$> free_ws P l = sw_id <$> l.
Proof. unfold free_ws. rewrite <-list_fmap_compose. apply list_fmap_ext. intros i w _. simpl. by destruct (P w). Qed.

Lemma free_ext P Q l iss :
  (forall w, w ∈ l -> P w = Q w) -> free_ws P l = free_ws Q l /\ free_issues P l iss = free_issues Q l iss.
Proof.
  intros He. split.
  - apply list_fmap_ext. intros i w Hw. by rewrite (He w) by by eapply list_elem_of_lookup_2.
  - apply list_fmap_ext. intros i x _.
    assert (forall (R : ServerWorkspace -> bool), existsb (fun w => P w && R w) l = existsb (fun w => Q w && R w) l) as ->; [|done].
    intros R. clear -He. induction l as [|w l IH]; [done|]. simpl. rewrite (He w) by left. f_equal. apply IH.
    intros x Hx. apply He. by right.
Qed.

Lemma frees_ext P Q s s' : (forall w, w ∈ fl_workspaces s -> P w = Q w) -> frees P s s' -> frees Q s s'.
Proof.
  intros He [H1 H2]. destruct (free_ext P Q (fl_workspaces s) (fl_issues s) He) as [E1 E2].
  split; congruence.
Qed.

Lemma frees_none s s' :
  fl_workspaces s' = fl_workspaces s -> fl_issues s' = fl_issues s -> frees (fun _ => false) s s'.
Proof.
  intros Hw Hi. split.
  - rewrite Hw. unfold free_ws. by rewrite list_fmap_id.
  - rewrite Hi. unfold free_issues. rewrite <-(list_fmap_id (fl_issues s)) at 1. apply list_fmap_ext. intros _ i _.
    destruct (existsb _ _) eqn:E; [|done]. by apply existsb_exists in E as (x & _ & Hx).
Qed.

(** One release after another; the choice of the second does not look at the status. *)
Lemma frees_trans P Q s1 s2 s3 :
  (forall w, Q (discarded w) = Q w) -> frees P s1 s2 -> frees Q s2 s3 -> frees (fun w => P w || Q w) s1 s3.
Proof.
  intros HQ [W1 I1] [W2 I2]. split.
  - rewrite W2, W1. unfold free_ws. rewrite <-list_fmap_compose. apply list_fmap_ext. intros i w _. simpl.
    destruct (P w); simpl; [rewrite HQ; by destruct (Q w)|done].
  - rewrite I2, I1, W1. unfold free_issues, free_ws. rewrite <-list_fmap_compose. apply list_fmap_ext.
    intros j i _. simpl. generalize (fl_workspaces s1). intros l. set (i' := if existsb _ l then _ else i).
    assert (works_on i' = works_on i) as -> by (unfold i'; by case_match).
    subst i'. generalize (works_on i) (fun w => eq_refl : works_on i (discarded w) = works_on i w). intros R HR.
    assert (existsb (fun w => Q w && R w) ((fun w => if P w then discarded w else w) <$> l) =
            existsb (fun w => Q w && R w) l) as ->.
    { induction l as [|w l IH]; [done|]. rewrite fmap_cons. cbn [existsb]. rewrite IH. f_equal.
      destruct (P w); [by rewrite HQ, HR|done]. }
    assert (existsb (fun w => (P w || Q w) && R w) l = existsb (fun w => P w && R w) l || existsb (fun w => Q w && R w) l) as ->.
    { clear. induction l as [|w l IH]; [done|]. simpl. rewrite IH. by destruct (P w), (Q w), (R w), (existsb (fun w => P w && R w) l). }
    by destruct (existsb (fun w => P w && R w) l), (existsb (fun w => Q w && R w) l).
Qed.

(** The workspace of a key. *)
Definition is_key (repo ws : Uuid) (w : ServerWorkspace) : bool :=
  bool_decide (sw_repo_id w = repo /\ sw_id w = ws).

Lemma discard_reopen_frees repo ws issue s meta :
  NoDup (sw_id <$> fl_workspaces s) -> meta ∈ fl_workspaces s -> is_key repo ws meta = true ->
  sw_issue_id meta = Some issue ->
  frees (is_key repo ws) s (reopen_issue repo issue (discard_workspace repo ws s).2).2.
Proof.
  intros Hn Hin Hk Hi. apply bool_decide_eq_true in Hk as [Hr Hw].
  assert (Hex : forall i, existsb (fun w => is_key repo ws w && works_on i w) (fl_workspaces s) =
      bool_decide (is_repo_id i = repo /\ is_id i = issue)).
  { intros i. apply eq_bool_prop_intro. rewrite existb_True, bool_decide_spec.
    rewrite Exists_exists. split.
    - intros (w & Hw1 & [Hk1%bool_decide_unpack Hk2%bool_decide_unpack]%andb_prop_elim).
      assert (w = meta) as -> by (apply (keys_inj sw_id _ _ _ Hn); fnaive). fnaive.
    - intros [Hr' Hi']. exists meta. split; [done|]. apply andb_prop_intro.
      split; apply bool_decide_pack; fnaive. }
  split.
  - transitivity (fl_workspaces (discard_workspace repo ws s).2).
    { unfold reopen_issue. by destruct (head _). }
    unfold discard_workspace, free_ws, is_key, modify_st. simpl. apply list_fmap_ext. intros _ w _.
    by case_decide; case_bool_decide.
  - unfold free_issues. unfold reopen_issue. simpl.
    match goal with |- context [head ?l] => destruct (head l) as [i0|] eqn:Eh end; simpl.
    + apply list_fmap_ext. intros _ i _. rewrite Hex. by case_decide; case_bool_decide.
    + rewrite <-(list_fmap_id (fl_issues s)) at 1. apply list_fmap_ext. intros j i Hj. rewrite Hex.
      rewrite bool_decide_eq_false_2; [done|]. intros Hi'. apply head_None in Eh.
      apply list_elem_of_lookup_2 in Hj.
      assert (i ∈ filter (fun i => is_repo_id i = repo /\ is_id i = issue) (fl_issues s)) as Hf
        by (by apply list_elem_of_filter).
      rewrite Eh in Hf. by apply not_elem_of_nil in Hf.
Qed.

Definition holds (a : AgentWorker) (w : ServerWorkspace) : bool :=
  bool_decide (aw_workspace_id a = Some (sw_id w) /\ aw_repo_id a = sw_repo_id w).

Lemma discard_frees repo ws s meta :
  NoDup (sw_id <$> fl_workspaces s) -> meta ∈ fl_workspaces s -> is_key repo ws meta = true ->
  sw_issue_id meta = None -> frees (is_key repo ws) s (discard_workspace repo ws s).2.
Proof.
  intros Hn Hin Hk Hi. apply bool_decide_eq_true in Hk as [Hr Hw]. split.
  - unfold discard_workspace, free_ws, is_key, modify_st. simpl. apply list_fmap_ext. intros _ w _.
    by case_decide; case_bool_decide.
  - unfold free_issues. simpl. rewrite <-(list_fmap_id (fl_issues s)) at 1. apply list_fmap_ext. intros _ i _.
    destruct (existsb _ _) eqn:E; [|done]. apply existsb_exists in E as (w & Hw1%list_elem_of_In & [Hk1 Hk2]%andb_prop).
    apply bool_decide_eq_true in Hk1, Hk2.
    assert (w = meta) as -> by (apply (keys_inj sw_id _ _ _ Hn); fnaive). fnaive.
Qed.

Lemma release_frees a s : NoDup (sw_id <$> fl_workspaces s) -> frees (holds a) s (release_workspace a s).
Proof.
  intros Hn. unfold release_workspace. destruct (aw_workspace_id a) as [ws|] eqn:Ea.
  2:{ eapply frees_ext; [|by apply frees_none]. intros w _. unfold holds. rewrite Ea.
      by rewrite bool_decide_eq_false_2 by fnaive. }
  assert (Hh : forall w, w ∈ fl_workspaces s -> is_key (aw_repo_id a) ws w = holds a w).
  { intros w _. unfold is_key, holds. rewrite Ea. apply bool_decide_ext. fnaive. }
  destruct (get_workspace _ _ _) as [meta|] eqn:Eg; unfold get_workspace in Eg.
  - apply head_Some_elem_of, list_elem_of_filter in Eg as [Hk Hin]. apply (frees_ext _ _ _ _ Hh).
    destruct (sw_issue_id meta) as [i|] eqn:Ei.
    + apply (discard_reopen_frees _ _ _ _ meta); [done|done|by apply bool_decide_eq_true|done].
    + apply (discard_frees _ _ _ meta); [done|done|by apply bool_decide_eq_true|done].
  - eapply frees_ext; [|by apply frees_none]. intros w Hw. rewrite <-Hh by done.
    symmetry. apply bool_decide_eq_false. intros Hk. apply head_None in Eg.
    exact (filter_nil_not_elem_of _ _ w Eg Hk Hw).
Qed.

Lemma mark_done_result id r s :
  mark_done id r s =
    match find_worker id s with
    | None => (Err (StNotFound ("agent worker " +:+ id)), (now_sql s).2)
    | Some _ => (Ok tt, (on_workers (update_by aw_id id (with_end (done_state r) (clock (fl_ticks s)))) (now_sql s).2).2)
    end.
Proof. unfold mark_done, update_worker, now_sql, find_worker, mbind, M_bind. simpl. by destruct (find_by aw_id _ _). Qed.

Section reconcile.
Context `{!ReliableProvider C}.
Hypothesis scan_perm : forall A (l : list A), scan A l ≡ₚ l.

(** The machine of a worker is destroyed, and no other. *)
Lemma destroy_machine_machines a s :
  machines (compute (destroy_machine a s)) =
    match machine_id a with Some m => machines (compute s) ∖ {[m]} | None => machines (compute s) end.
Proof using scan_perm.
  unfold destroy_machine, ignore, on_compute. destruct (machine_id a) as [m|]; [|done]. simpl.
  destruct (destroy_removes m (compute s)) as (c' & Hd & Hm). by destruct Hd as [-> | ->].
Qed.

(** What a worker that is given up turns into, and what else it changes. *)
Record reaped (dead : list AgentWorker) (s s' : Fleet C) : Prop := {
  rp_frees : frees (fun w => existsb (fun a => holds a w) dead) s s';
  rp_ids : aw_id <$> agent_workers s' = aw_id <$> agent_workers s;
  rp_workers : forall id, exists t, find_worker id s' =
    (if decide (id ∈ aw_id <$> dead) then with_end "dead" t <$> find_worker id s else find_worker id s);
  rp_machines : machines (compute s') = machines (compute s) ∖ list_to_set (omap machine_id dead);
  rp_ticks : fl_ticks s' = length dead + fl_ticks s
}.

Lemma release_workspace_store a s :
  compute (release_workspace a s) = compute s /\ fl_ticks (release_workspace a s) = fl_ticks s.
Proof using scan_perm.
  unfold release_workspace. destruct (aw_workspace_id a); [|done]. destruct (get_workspace _ _ _) as [m|]; [|done].
  destruct (sw_issue_id m); [|done]. unfold reopen_issue. by destruct (head _).
Qed.

Lemma destroy_machine_store a s :
  fl_ticks (destroy_machine a s) = fl_ticks s /\ fl_workspaces (destroy_machine a s) = fl_workspaces s /\
  fl_issues (destroy_machine a s) = fl_issues s.
Proof using scan_perm.
  unfold destroy_machine, ignore, on_compute. destruct (machine_id a) as [m|]; [|done]. simpl.
  by destruct (destroy m (compute s)).
Qed.

Lemma reap_worker_reaped n a s :
  NoDup (sw_id <$> fl_workspaces s) -> aw_id a ∈ aw_id <$> agent_workers s ->
  (reap_worker (n, s) a).1 = S n /\ reaped [a] s (reap_worker (n, s) a).2.
Proof using scan_perm.
  intros Hn Hin. unfold reap_worker. simpl. rewrite mark_done_result. unfold find_worker.
  rewrite release_workspace_workers.
  destruct (find_by aw_id (aw_id a) (agent_workers s)) as [a0|] eqn:Ef; [|by apply find_by_None in Ef].
  simpl. split; [done|]. pose proof (release_workspace_store a s) as [Hc Ht].
  set (s1 := mkFleet _ _ _ _ _ _ _ _ _). pose proof (destroy_machine_store a s1) as (Ht1 & Hw1 & Hi1).
  assert (Haw : agent_workers (destroy_machine a s1) =
      update_by aw_id (aw_id a) (with_end "dead" (clock (fl_ticks (release_workspace a s)))) (agent_workers s)).
  { rewrite destroy_machine_workers. simpl. by rewrite release_workspace_workers. }
  split.
  - apply (frees_ext (holds a)); [intros w _; simpl; by rewrite orb_false_r|].
    pose proof (release_frees a s Hn) as [H1 H2]. split; [by rewrite Hw1|by rewrite Hi1].
  - rewrite Haw. by apply update_by_keys.
  - intros id. eexists. unfold find_worker. rewrite Haw, (find_by_update aw_id) by done. simpl.
    by rewrite (decide_ext (id ∈ [aw_id a]) (id = aw_id a)) by (by rewrite list_elem_of_singleton).
  - rewrite destroy_machine_machines. simpl. rewrite Hc. destruct (machine_id a); fset.
  - rewrite Ht1. simpl. by rewrite Ht.
Qed.

Lemma reaped_trans d1 d2 s1 s2 s3 : reaped d1 s1 s2 -> reaped d2 s2 s3 -> reaped (d1 ++ d2) s1 s3.
Proof using scan_perm.
  intros [F1 I1 W1 M1 T1] [F2 I2 W2 M2 T2]. split.
  - eapply frees_ext; [|eapply frees_trans; [|exact F1|exact F2]].
    + intros w _. simpl. by rewrite existsb_app.
    + done.
  - by rewrite I2.
  - intros id. destruct (W1 id) as [t1 E1], (W2 id) as [t2 E2].
    rewrite fmap_app. destruct (decide (id ∈ aw_id <$> d2)).
    + exists t2. rewrite E2, E1. rewrite (decide_True (P := id ∈ _ ++ _)) by (apply elem_of_app; by right).
      case_decide; [|done]. by destruct (find_worker id s1).
    + exists t1. rewrite E2, E1.
      by rewrite (decide_ext (id ∈ _ ++ _) (id ∈ aw_id <$> d1)) by (rewrite elem_of_app; ftauto).
  - rewrite M2, M1, omap_app, list_to_set_app_L. fset.
  - rewrite T2, T1, length_app. flia.
Qed.

Lemma reap_all dead n s :
  NoDup (sw_id <$> fl_workspaces s) -> Forall (fun a => aw_id a ∈ aw_id <$> agent_workers s) dead ->
  (foldl reap_worker (n, s) dead).1 = length dead + n /\ reaped dead s (foldl reap_worker (n, s) dead).2.
Proof using scan_perm.
  revert n s. induction dead as [|a dead IH]; intros n s Hn Hd.
  - split; [done|]. split; simpl; [by apply frees_none|done| |fset|done].
    intros id. exists 0%Z. done.
  - apply Forall_cons in Hd as [Ha Hd]. simpl. destruct (reap_worker_reaped n a s Hn Ha) as [Hc H1].
    destruct (reap_worker (n, s) a) as [n1 s1]. simpl in *. subst n1.
    destruct (IH (S n) s1) as [Hc2 H2].
    + rewrite (fr_ws _ _ _ (rp_frees _ _ _ H1)). by rewrite free_ws_keys.
    + by rewrite (rp_ids _ _ _ H1).
    + split; [flia|]. apply (reaped_trans [a] dead _ _ _ H1 H2).
Qed.

(** The keys of a list of orphans. *)
Definition in_keys (os : list (Uuid * Uuid * Uuid)) (w : ServerWorkspace) : bool :=
  existsb (fun o => is_key o.1.2 o.1.1 w) os.

Definition is_listed (s : Fleet C) (o : Uuid * Uuid * Uuid) : Prop :=
  exists meta, meta ∈ fl_workspaces s /\ is_key o.1.2 o.1.1 meta = true /\ sw_issue_id meta = Some o.2.

Lemma sweep_one_frees n o s :
  NoDup (sw_id <$> fl_workspaces s) -> is_listed s o ->
  frees (is_key o.1.2 o.1.1) s (sweep_one (n, s) o).2 /\
  compute (sweep_one (n, s) o).2 = compute s.
Proof using scan_perm.
  intros Hn (meta & Hin & Hk & Hi). destruct o as [[ws repo] i]. simpl. split.
  - by apply (discard_reopen_frees _ _ _ _ meta).
  - unfold reopen_issue. by destruct (head _).
Qed.

Lemma is_listed_frees P s s' o : frees P s s' -> is_listed s o -> is_listed s' o.
Proof using scan_perm.
  intros [Hw _] (meta & Hin & Hk & Hi). exists (if P meta then discarded meta else meta). split.
  - rewrite Hw. by apply (list_elem_of_fmap_2 (fun w => if P w then discarded w else w)).
  - by destruct (P meta).
Qed.

Lemma sweep_all os n s :
  NoDup (sw_id <$> fl_workspaces s) -> Forall (is_listed s) os ->
  frees (in_keys os) s (foldl sweep_one (n, s) os).2 /\ compute (foldl sweep_one (n, s) os).2 = compute s.
Proof using scan_perm.
  revert n s. induction os as [|o os IH]; intros n s Hn Ho; [split; [by apply frees_none|done]|].
  apply Forall_cons in Ho as [Ho Hos]. destruct (sweep_one_frees n o s Hn Ho) as [H1 C1].
  cbn [foldl]. destruct (sweep_one (n, s) o) as [n1 s1]. simpl in H1, C1. destruct (IH n1 s1) as [H2 C2].
  - rewrite (fr_ws _ _ _ H1). by rewrite free_ws_keys.
  - eapply Forall_impl; [exact Hos|]. intros x. by apply (is_listed_frees (is_key o.1.2 o.1.1)).
  - split; [|congruence]. by apply (frees_trans (is_key o.1.2 o.1.1) (in_keys os) _ _ _) with (2 := H1).
Qed.

Lemma sweep_frees secs s :
  NoDup (sw_id <$> fl_workspaces s) ->
  let s' := (sweep_orphaned_workspaces secs s).2 in
  compute s' = compute s /\
  exists os, frees (in_keys os) s s' /\
    forall w, w ∈ fl_workspaces s -> in_keys os w = is_orphan (clock (fl_ticks s)) secs s w.
Proof using scan_perm.
  intros Hn. unfold sweep_orphaned_workspaces, list_orphaned_issue_workspaces, now_sql, get_st, mbind, M_bind.
  simpl. set (s0 := mkFleet _ _ _ _ _ _ _ _ _).
  set (orphans := filter (fun w => is_orphan (clock (fl_ticks s)) secs s0 w = true) (scan _ (fl_workspaces s))).
  set (os := omap _ orphans).
  assert (Ho : forall o, o ∈ os <-> exists w, w ∈ fl_workspaces s /\ is_orphan (clock (fl_ticks s)) secs s w = true /\
                exists i, sw_issue_id w = Some i /\ o = (sw_id w, sw_repo_id w, i)).
  { intros o. unfold os, orphans. rewrite list_elem_of_omap. setoid_rewrite list_elem_of_filter.
    setoid_rewrite scan_perm. split.
    - intros (w & [Ho Hin] & Hi). exists w. split_and!; [done|done|]. destruct (sw_issue_id w); fnaive.
    - intros (w & Hin & Ho & i & Hi & ->). exists w. rewrite Hi. done. }
  destruct (sweep_all os 0 s0) as [Hf Hc]; [done| |].
  { apply Forall_forall. intros o (w & Hin & _ & i & Hi & ->)%Ho. exists w. split_and!; [done| |done].
    by apply bool_decide_eq_true. }
  split; [exact Hc|]. exists os. split; [destruct Hf; by split|]. intros w Hw. apply eq_bool_prop_intro.
  unfold in_keys. rewrite existb_True, Exists_exists, Is_true_true. split.
  - intros (o & (w' & Hin & Horph & i & Hi & ->)%Ho & Hk%bool_decide_unpack). simpl in Hk.
    by assert (w = w') as -> by (apply (keys_inj sw_id _ _ _ Hn); fnaive).
  - intros Horph. destruct (sw_issue_id w) as [i|] eqn:Ei.
    + exists (sw_id w, sw_repo_id w, i). split; [apply Ho; eauto 10|by apply bool_decide_pack].
    + exfalso. revert Horph. unfold is_orphan. rewrite Ei. rewrite andb_false_r. done.
Qed.

Lemma is_orphan_same now secs s s' w :
  agent_workers s = agent_workers s' -> is_orphan now secs s w = is_orphan now secs s' w.
Proof using scan_perm. intros He. unfold is_orphan. by rewrite He. Qed.

Lemma is_orphan_discarded now secs s w : is_orphan now secs s (discarded w) = false.
Proof using scan_perm. done. Qed.

(** The workers a pass gives up, and the workspaces it frees. *)
Definition stale_workers (secs : Z) (s : Fleet C) : list AgentWorker :=
  filter (fun w => is_stale (clock (fl_ticks s)) secs w = true) (scan _ (agent_workers s)).

Definition freed (secs : Z) (n : nat) (s s' : Fleet C) (w : ServerWorkspace) : bool :=
  existsb (fun a => holds a w) (stale_workers secs s) || is_orphan (clock n) secs s' w.

Lemma elem_of_stale secs s a :
  a ∈ stale_workers secs s <-> a ∈ agent_workers s /\ is_stale (clock (fl_ticks s)) secs a = true.
Proof using scan_perm. unfold stale_workers. rewrite list_elem_of_filter, scan_perm. ftauto. Qed.

(** The worker after a pass. *)
Lemma stale_lookup secs s s' w :
  NoDup (aw_id <$> agent_workers s) -> w ∈ agent_workers s ->
  (exists t, find_worker (aw_id w) s' = if decide (aw_id w ∈ aw_id <$> stale_workers secs s)
     then with_end "dead" t <$> find_worker (aw_id w) s else find_worker (aw_id w) s) ->
  exists t, find_worker (aw_id w) s' =
    Some (if is_stale (clock (fl_ticks s)) secs w then with_end "dead" t w else w).
Proof using scan_perm.
  intros Hn Hw [t E]. exists t. rewrite E.
  assert (find_worker (aw_id w) s = Some w) as -> by (by apply find_by_elem).
  rewrite (decide_ext (aw_id w ∈ aw_id <$> stale_workers secs s) (is_stale (clock (fl_ticks s)) secs w = true)).
  - by destruct (is_stale _ _ _).
  - rewrite list_elem_of_fmap. split.
    + intros (a & Ha & [Hin Hst]%elem_of_stale). by rewrite (keys_inj aw_id _ _ _ Hn Hw Hin Ha).
    + intros Hst. exists w. split; [done|]. by apply elem_of_stale.
Qed.

(** One pass of the reconciler: the stale workers are dead and every other worker is
    as it was; the workspaces of the dead ones and the orphans of the moment of the
    sweep are discarded and their issues reopened, and no others; the machines of
    the dead are gone. *)
Theorem reconcile_once_spec secs s :
  NoDup (aw_id <$> agent_workers s) -> NoDup (sw_id <$> fl_workspaces s) ->
  let s' := (reconcile_once secs s).2 in
  (forall w, w ∈ agent_workers s -> exists t, find_worker (aw_id w) s' =
     Some (if is_stale (clock (fl_ticks s)) secs w then with_end "dead" t w else w)) /\
  (exists n, fl_ticks s < n /\ frees (freed secs n s s') s s') /\
  (forall w m, w ∈ agent_workers s -> is_stale (clock (fl_ticks s)) secs w = true ->
     machine_id w = Some m -> m ∉ machines (compute s')).
Proof using scan_perm.
  intros Hn Hnw. unfold reconcile_once, list_stale_workers, now_sql, get_st, mbind, M_bind. simpl.
  change (filter _ _) with (stale_workers secs s). set (s0 := mkFleet _ _ _ _ _ _ _ _ _).
  destruct (reap_all (stale_workers secs s) 0 s0) as [_ Hr0]; [done| |].
  { apply Forall_forall. intros a [Hin _]%elem_of_stale. by apply list_elem_of_fmap_2. }
  set (p := foldl reap_worker (0, s0) (stale_workers secs s)) in *. destruct p as [n1 s1]. simpl in Hr0.
  destruct Hr0 as [F1 I1 W1 M1 T1].
  destruct (sweep_frees secs s1) as (C2 & os & F2 & Ho).
  { rewrite (fr_ws _ _ _ F1). by rewrite free_ws_keys. }
  pose proof (sweep_workers secs s1) as Hw2.
  destruct (sweep_orphaned_workspaces secs s1) as [n2 s2]. simpl in *.
  split; [|split].
  - intros w Hw. destruct (stale_lookup secs s s1 w Hn Hw (W1 (aw_id w))) as [t E].
    exists t. rewrite <-E. unfold find_worker. by rewrite Hw2.
  - exists (fl_ticks s1). split; [flia|].
    eapply frees_ext; [|eapply (frees_trans _ (in_keys os) s s1 s2); [done| |done]].
    2:{ destruct F1 as [F1a F1b]. split; [exact F1a|exact F1b]. }
    intros w Hw. unfold freed. destruct (existsb _ _) eqn:Eh; [done|]. simpl.
    rewrite Ho.
    + by apply is_orphan_same.
    + rewrite (fr_ws _ _ _ F1). unfold free_ws. apply list_elem_of_fmap. exists w. split; [|done]. by rewrite Eh.
  - intros w m Hw Hst Hm. rewrite C2, M1. intros [_ Hnot]%elem_of_difference. apply Hnot.
    apply elem_of_list_to_set, list_elem_of_omap. exists w. split; [by apply elem_of_stale|done].
Qed.
End reconcile.

(** ** The invariant *)

(** C36. However the tasks of one server, whose requests spawn one after the other under a
    lock while its loop takes none, and the calls of the workers are interleaved, from a
    database without workers: no repository has more live workers than the cap and one, and
    not more than the cap as long as the two spawners do not run side by side; the identifiers
    are distinct; a worker is spawning until its end is recorded, then completed, failed or
    dead, and never running; and no row is ever removed, moved to another repository or
    revived, although a later report can replace one final state by another. *)
Theorem fleet_reachable_ok overlap cap s0 y :
  agent_workers s0 = [] -> rtc (fleet_step overlap cap) (mkSystem s0 None None) y ->
  (forall repo, count_running_workers repo (sys_fleet y) <= cap + (if overlap then 1 else 0)) /\
  NoDup (aw_id <$> agent_workers (sys_fleet y)) /\
  (forall w, w ∈ agent_workers (sys_fleet y) -> worker_ok w /\ aw_state w <> "running"%string) /\
  (forall y' w, rtc (fleet_step overlap cap) y y' -> w ∈ agent_workers (sys_fleet y) ->
     exists w', w' ∈ agent_workers (sys_fleet y') /\ aw_id w' = aw_id w /\ aw_repo_id w' = aw_repo_id w /\
       (is_live w' = true -> is_live w = true)).
Proof.
  intros H0 Hst. assert (Hok : system_ok overlap cap y).
  { assert (Hok0 : system_ok overlap cap (mkSystem s0 None None)).
    { split; simpl; rewrite ?H0; [constructor|constructor| |by left]. intros r. unfold live_of, pending. simpl.
      flia. }
    clear H0. revert Hok0. induction Hst as [|x y z Hxy _ IH]; [done|]. intros Hok0. by apply IH, (fleet_step_ok _ _ _ _ Hxy). }
  destruct Hok as [Hi Hs Hc _]. split_and!; [|done| |].
  - intros repo. pose proof (Hc repo). unfold count_running_workers. unfold live_of in *. flia.
  - intros w Hw. rewrite Forall_forall in Hs. specialize (Hs w Hw). split; [done|].
    destruct Hs as [[-> _]|[[r ->] _]]; [done|by destruct r].
  - intros y' w Hy Hw. destruct (fleet_steps_keep _ _ _ _ Hy w Hw) as (w' & Hw' & [? ? ? _]). by exists w'.
Qed.
End store.

(** ** Witnesses *)

Definition wit_entries (A : Type) (m : gmap string A) : list (string * A) := map_to_list m.
Definition wit_provider : ComputeProvider InMemory := in_memory_provider wit_uuid wit_entries.
Definition wit_clock (n : nat) : DateTime := (Z.of_nat n * nanos_per_sec)%Z.
Definition wit_vault (repo : Uuid) : outcome string (gmap string string) := Ok {[anthropic_key := "key"%string]}.
Definition wit_scan (A : Type) (l : list A) : list A := l.
Definition wit_fleet : Fleet InMemory :=
  mkFleet [mkRepoRow "r" "repo" true] [] [] 1 []
    [mkServerIssue "i" "r" Open; mkServerIssue "j" "r" Open; mkServerIssue "k" "r" Resolved] new_provider 0 0.

Definition wit_spawned : Fleet InMemory :=
  @spawn_reconcile_once InMemory wit_clock wit_uuid wit_scan wit_provider wit_vault (fun _ => ""%string)
    (fun _ => "token"%string) 3 "image" "url" "" wit_fleet.


(** Long after the spawning, with no heartbeat since; the first worker holds a workspace. *)
Definition wit_holding : Fleet InMemory :=
  (@set_workspace_id InMemory (wit_uuid 0) "w"
    (mkFleet (repos wit_spawned) (agent_workers wit_spawned) [] 1
       [mkServerWs "w" "r" WsActive (Some "i"%string) 0; mkServerWs "v" "r" WsActive None 0]
       [mkServerIssue "i" "r" InProgress; mkServerIssue "j" "r" InProgress] (compute wit_spawned) 10 1000)).2.

Lemma reconcile_once_spec_witness :
  let s' := (@reconcile_once InMemory wit_clock wit_scan wit_provider 900 wit_holding).2 in
  (exists t, find_worker (wit_uuid 0) s' =
     with_end "dead" t <$> find_worker (wit_uuid 0) wit_holding) /\
  sw_status <$> fl_workspaces s' = [WsDiscarded; WsActive] /\
  is_status <$> fl_issues s' = [Open; InProgress].
Proof.
  destruct (@reconcile_once_spec InMemory wit_clock wit_scan wit_provider
    (in_memory_reliable wit_uuid wit_entries) ltac:(done) 900 wit_holding) as (Hw & (n & _ & [Hf Hi]) & _).
  - vm_compute. repeat constructor; set_solver.
  - vm_compute. repeat constructor; set_solver.
  - cbv zeta. split_and!.
    + destruct (find_worker (wit_uuid 0) wit_holding) as [w|] eqn:E; [|by vm_compute in E].
      pose proof E as [Hin Hid]%find_by_Some. destruct (Hw w Hin) as [t Ht]. rewrite Hid in Ht.
      exists t. etrans; [exact Ht|]. vm_compute in E. injection E as <-. reflexivity.
    + reflexivity.
    + reflexivity.
Defined.

(** The two spawners, side by side, with room for one worker. *)
Definition wit_row (s : Fleet InMemory) : Fleet InMemory :=
  (@spawn_row InMemory wit_clock wit_uuid wit_vault "r" "" s).2.

(** Both have counted before one has inserted: the cap of one admits two. *)
Definition wit_side_by_side : System := mkSystem (wit_row (wit_row wit_fleet)) None None.

Lemma fleet_reachable_ok_witness :
  count_running_workers "r" (sys_fleet wit_side_by_side) = 2 /\
  count_running_workers "r" (sys_fleet wit_side_by_side) <= 1 + 1.
Proof.
  split; [vm_compute; reflexivity|].
  refine (proj1 (@fleet_reachable_ok InMemory wit_clock wit_uuid wit_scan wit_provider wit_vault
    (fun _ => ""%string) true 1 wit_fleet wit_side_by_side _ _) _); [done|].
  eapply rtc_l; [apply (step_count _ _ _ _ _ true 1 _ OnRequest "r"); [reflexivity|by left|reflexivity]|].
  eapply rtc_l; [apply (step_count _ _ _ _ _ true 1 _ OnLoop "r"); [reflexivity|by left|reflexivity]|].
  eapply rtc_l; [apply (step_row _ _ _ _ _ true 1 _ OnRequest "r" ""); reflexivity|].
  eapply rtc_l; [apply (step_row _ _ _ _ _ true 1 _ OnLoop "r" ""); reflexivity|]. reflexivity.
Defined.
