(* ===== verification/ServerRepo.v ===== *)
(** The repository of the server: its file store, event store, versions, workspaces
    and conflict engine, and the handlers that move files: the upload of a snapshot
    or of single files into a workspace, the submission of a workspace through the
    merge engine, and the manifest, pull and download of the project
    ([src/src/server/workspace.rs], [src/src/server/mod.rs]). *)
From S2P Require Import Prelude Table RustStr TextMerge Graph EventLog MergeEngine MergeFs VaiDir Workspace Version Diff Submit Conflict Escalation Issue.

(** Error replies; messages are not kept. *)
Inductive HttpError : Type :=
  | HtForbidden | HtNotFound | HtBadRequest | HtConflict | HtWorkspaceEmpty | HtTooLarge | HtRateLimited | HtInternal.

Record BroadcastEvent : Type := mkBroadcast {
  bc_event_type : string;
  bc_workspace_id : option string
}.

(** One repository as the storage traits show it. The file store maps keys to
    contents: [current/] is the project, [workspaces/{id}/] an overlay, [blobs/] the
    contents by hash, [versions/] the snapshots. *)
Record ServerRepo : Type := mkServer {
  sv_files : gmap string bytes;
  sv_events : EventLog;
  sv_versions : list VersionMeta;
  sv_head : option string;
  sv_workspaces : list WorkspaceMeta;
  sv_issues : gmap Uuid IssueStatus;
  sv_escalations : list Escalation;
  sv_engine : Engine;
  sv_broadcasts : list BroadcastEvent;
  sv_draws : nat;
  sv_ticks : nat
}.

Definition set_files (x : gmap string bytes) (s : ServerRepo) : ServerRepo :=
  mkServer x (sv_events s) (sv_versions s) (sv_head s) (sv_workspaces s) (sv_issues s) (sv_escalations s)
    (sv_engine s) (sv_broadcasts s) (sv_draws s) (sv_ticks s).
Definition set_ws_rows (x : list WorkspaceMeta) (s : ServerRepo) : ServerRepo :=
  mkServer (sv_files s) (sv_events s) (sv_versions s) (sv_head s) x (sv_issues s) (sv_escalations s)
    (sv_engine s) (sv_broadcasts s) (sv_draws s) (sv_ticks s).
Definition set_issue_rows (x : gmap Uuid IssueStatus) (s : ServerRepo) : ServerRepo :=
  mkServer (sv_files s) (sv_events s) (sv_versions s) (sv_head s) (sv_workspaces s) x (sv_escalations s)
    (sv_engine s) (sv_broadcasts s) (sv_draws s) (sv_ticks s).
Definition set_engine (x : Engine) (s : ServerRepo) : ServerRepo :=
  mkServer (sv_files s) (sv_events s) (sv_versions s) (sv_head s) (sv_workspaces s) (sv_issues s)
    (sv_escalations s) x (sv_broadcasts s) (sv_draws s) (sv_ticks s).
Definition set_streams (d t : nat) (s : ServerRepo) : ServerRepo :=
  mkServer (sv_files s) (sv_events s) (sv_versions s) (sv_head s) (sv_workspaces s) (sv_issues s)
    (sv_escalations s) (sv_engine s) (sv_broadcasts s) d t.

Definition MAX_INTENT_LEN : nat := 1000.
Definition MAX_PATH_LEN : nat := 1000.
Definition MAX_FILES_PER_REQUEST : nat := 100.
Definition MAX_FILE_SIZE_BYTES : Z := (10 * 1024 * 1024)%Z.
Definition MAX_SNAPSHOT_SIZE_BYTES : Z := (100 * 1024 * 1024)%Z.

Definition over (limit : Z) (content : bytes) : bool := (limit <? Z.of_nat (length content))%Z.

(** [s.trim_start_matches('/')] *)
Fixpoint trim_start_slashes (s : string) : string :=
  match s with String "/" s' => trim_start_slashes s' | _ => s end.

(** [s.trim_start_matches("./")] *)
Fixpoint trim_start_dots (s : string) : string :=
  match s with String "." (String "/" s') => trim_start_dots s' | _ => s end.

(** [sanitize_path], with the text of the path: it has no NUL and, split at
    slashes, no [..]. *)
Definition sanitize_path (raw : string) : option string :=
  if has_char "000" raw then None
  else
    let trimmed := trim_start_slashes raw in
    if bool_decide (".."%string ∈ split_on "/" trimmed) then None else Some trimmed.

(** The path that the handlers store under. *)
Definition stored_path (raw : string) : option string := normalise_separators <$> sanitize_path raw.

Inductive EntryType : Type := Regular | Directory | Symlink | HardLink | OtherEntry.
Record TarEntry : Type := mkEntry { te_type : EntryType; te_path : string; te_content : bytes }.

(** The manifest of a delta upload. *)
Record DeltaManifest : Type := mkDelta { dm_base_version : string; dm_deleted_paths : list string }.

Record UploadSnapshotResponse : Type := mkUpload {
  us_added : nat;
  us_modified : nat;
  us_deleted : nat;
  us_unchanged : nat;
  us_is_delta : bool
}.

Definition is_snapshot_path_ignored (path : string) : bool :=
  starts_with ".vai/" path || starts_with ".git/" path || String.eqb path ".vai" || String.eqb path ".git".

(** [extract_snapshot_tarball] on the entries of the archive. *)
Fixpoint extract_entries (entries : list TarEntry) (files : gmap string bytes) :
    outcome HttpError (gmap string bytes) :=
  match entries with
  | [] => Ok files
  | e :: entries' =>
      match te_type e with
      | Symlink | HardLink => Err HtBadRequest
      | Directory | OtherEntry => extract_entries entries' files
      | Regular =>
          match stored_path (trim_start_dots (te_path e)) with
          | None => Err HtBadRequest
          | Some rel =>
              if String.eqb rel "" then extract_entries entries' files
              else if over MAX_FILE_SIZE_BYTES (te_content e) then Err HtBadRequest
              else extract_entries entries' (<[rel := te_content e]> files)
          end
      end
  end.

Section server.
Variable clock : nat -> DateTime.
Variable uuid : nat -> Uuid.
Variable parse_uuid : string -> option Uuid.
Variable sha256_hex : bytes -> string.
(** The order in which a hash map or a hash set is iterated. *)
Variable iter_order : gset string -> list string.
(** The gzip and tar libraries, [serde_json] on a manifest, and base64. *)
Variable unpack : bytes -> option (list TarEntry).
Variable parse_manifest : bytes -> option DeltaManifest.
Variable b64_encode : bytes -> string.
Variable b64_decode : string -> option bytes.

Abbreviation H := (M ServerRepo HttpError).

(** ** Storage *)

Definition iter_map {A} (m : gmap string A) : list (string * A) :=
  omap (fun k => (fun v => (k, v)) <$> m !! k) (iter_order (dom m)).

Definition put_file (key : string) (content : bytes) : H unit :=
  modify_st (fun s => set_files (<[key := content]> (sv_files s)) s).

Definition delete_stored (key : string) : H unit :=
  modify_st (fun s => set_files (delete key (sv_files s)) s).

(** [list]: the keys with the prefix and their contents. *)
Definition list_stored (prefix : string) (s : ServerRepo) : list (string * bytes) :=
  filter (fun f => starts_with prefix f.1) (iter_map (sv_files s)).

Definition tick : H DateTime := fun s => (Ok (clock (sv_ticks s)), set_streams (sv_draws s) (S (sv_ticks s)) s).

Definition append_stored (kind : EventKind) : H Event := fun s =>
  let '(e, events) := append (clock (sv_ticks s)) kind (sv_events s) in
  (Ok e, mkServer (sv_files s) events (sv_versions s) (sv_head s) (sv_workspaces s) (sv_issues s)
     (sv_escalations s) (sv_engine s) (sv_broadcasts s) (sv_draws s) (S (sv_ticks s))).

Definition broadcast (ty : string) (ws : option string) : H unit :=
  modify_st (fun s => mkServer (sv_files s) (sv_events s) (sv_versions s) (sv_head s) (sv_workspaces s)
    (sv_issues s) (sv_escalations s) (sv_engine s) (sv_broadcasts s ++ [mkBroadcast ty ws]) (sv_draws s)
    (sv_ticks s)).

Definition get_ws (id : Uuid) : H WorkspaceMeta := fun s =>
  (match find_by ws_id id (sv_workspaces s) with Some w => Ok w | None => Err HtNotFound end, s).

Definition with_update (status : option WorkspaceStatus) (issue : option Uuid) (deleted : option (list string))
    (t : DateTime) (w : WorkspaceMeta) : WorkspaceMeta :=
  mkWs (ws_id w) (ws_intent w) (base_version w) (default (ws_status w) status) (ws_created_at w) t
    (match issue with Some i => Some i | None => ws_issue_id w end) (default (ws_deleted_paths w) deleted).

Definition update_workspace (id : Uuid) (status : option WorkspaceStatus) (issue : option Uuid)
    (deleted : option (list string)) : H WorkspaceMeta :=
  _ ← get_ws id;
  t ← tick;
  _ ← modify_st (fun s => set_ws_rows (update_by ws_id id (with_update status issue deleted t) (sv_workspaces s)) s);
  get_ws id.

(** A call whose outcome is dropped. *)
Definition best_effort {A} (m : H A) : H unit := fun s => (Ok tt, (m s).2).

Definition insert_version (v : VersionMeta) : H unit := fun s =>
  if existsb (fun x => String.eqb (version_id x) (version_id v)) (sv_versions s) then (Err HtInternal, s)
  else (Ok tt, mkServer (sv_files s) (sv_events s) (sv_versions s ++ [v]) (sv_head s) (sv_workspaces s)
          (sv_issues s) (sv_escalations s) (sv_engine s) (sv_broadcasts s) (sv_draws s) (sv_ticks s)).

Definition advance_head (v : string) : H unit :=
  modify_st (fun s => mkServer (sv_files s) (sv_events s) (sv_versions s) (Some v) (sv_workspaces s)
    (sv_issues s) (sv_escalations s) (sv_engine s) (sv_broadcasts s) (sv_draws s) (sv_ticks s)).

Definition current_key (path : string) : string := "current/" +:+ path.
Definition overlay_prefix_of (id : string) : string := "workspaces/" +:+ id +:+ "/".
Definition blob_key (hash : string) : string := "blobs/" +:+ hash.

Definition check (allowed : bool) : H unit := if allowed then mret tt else fail HtForbidden.
Definition check_len (limit : nat) (s : string) : H unit :=
  if limit <? String.length s then fail HtBadRequest else mret tt.

(** [Uuid::parse_str] of a path parameter, then the row. *)
Definition find_workspace (id : string) : H WorkspaceMeta :=
  match parse_uuid id with Some u => get_ws u | None => fail HtNotFound end.

(** ** Uploads *)

Record FileUploadEntry : Type := mkFileUpload { fe_path : string; fe_content_base64 : string }.

(** The order in which the engine's map is iterated. *)
Variable values : Engine -> list WorkspaceScope.

(** One file of an upload: the overlay, the blobs of both contents, the event. *)
Definition upload_file (ws : Uuid) (id : string) (entry : FileUploadEntry) : H string :=
  match b64_decode (fe_content_base64 entry) with
  | None => fail HtBadRequest
  | Some content =>
      if over MAX_FILE_SIZE_BYTES content then fail HtBadRequest
      else match stored_path (fe_path entry) with
      | None => fail HtBadRequest
      | Some path =>
          let store_key := overlay_prefix_of id +:+ path in
          s ← get_st;
          let existing := match sv_files s !! store_key with
                          | Some c => Some c | None => sv_files s !! current_key path end in
          let new_hash := sha256_hex content in
          let old_hash := default ""%string (sha256_hex <$> existing) in
          _ ← put_file store_key content;
          _ ← put_file (blob_key new_hash) content;
          _ ← match existing with Some old => put_file (blob_key old_hash) old | None => mret tt end;
          _ ← append_stored (match existing with
                             | None => FileAdded ws path new_hash
                             | Some _ => FileModified ws path old_hash new_hash
                             end);
          mret path
      end
  end.

Fixpoint upload_files (ws : Uuid) (id : string) (entries : list FileUploadEntry) : H (list string) :=
  match entries with
  | [] => mret []
  | e :: entries' => p ← upload_file ws id e; ps ← upload_files ws id entries'; mret (p :: ps)
  end.

(** The overlap notifications, to both workspaces. *)
Definition notify_overlap (o : OverlapResult) : H unit :=
  _ ← broadcast "OverlapDetected" (Some (your_workspace o));
  broadcast "OverlapDetected" (Some (other_workspace o)).

Definition update_conflicts (ws : Uuid) (intent : string) (paths : list string) : H unit :=
  s ← get_st;
  let '(overlaps, e) := update_scope values (sv_engine s) ws intent paths in
  _ ← put_st (set_engine e s);
  for_each notify_overlap overlaps.

(** The deletions join those of the row, each with an event. *)
Fixpoint record_deletions (ws : Uuid) (paths merged : list string) : H (list string) :=
  match paths with
  | [] => mret merged
  | p :: paths' =>
      _ ← append_stored (FileRemoved ws p);
      record_deletions ws paths' (if bool_decide (p ∈ merged) then merged else merged ++ [p])
  end.

(** The first upload with content activates the workspace. *)
Definition finish_upload (meta : WorkspaceMeta) (any : bool) (merged : list string) : H unit :=
  let new_status := if bool_decide (ws_status meta = WsCreated) && any then Some WsActive else None in
  let changed := negb (bool_decide (merged = ws_deleted_paths meta)) in
  if bool_decide (new_status = None) && negb changed then mret tt
  else best_effort (update_workspace (ws_id meta) new_status None (if changed then Some merged else None)).

Fixpoint sanitize_all (paths : list string) : option (list string) :=
  match paths with
  | [] => Some []
  | p :: paths' => q ← stored_path p; qs ← sanitize_all paths'; Some (q :: qs)
  end.

(** The paths before the first invalid one. *)
Fixpoint valid_prefix (paths : list string) : list string :=
  match paths with
  | [] => []
  | p :: paths' => match stored_path p with Some q => q :: valid_prefix paths' | None => [] end
  end.

Definition upload_workspace_files_handler (allowed : bool) (id : string) (files : list FileUploadEntry)
    (deleted : list string) : H (list string) :=
  _ ← check allowed;
  _ ← (if MAX_FILES_PER_REQUEST <? length files then fail HtBadRequest else mret tt);
  _ ← for_each (fun e => check_len MAX_PATH_LEN (fe_path e)) files;
  _ ← for_each (check_len MAX_PATH_LEN) deleted;
  meta ← find_workspace id;
  uploaded ← upload_files (ws_id meta) id files;
  _ ← broadcast "FilesUploaded" (Some id);
  s ← get_st;
  let prefix := overlay_prefix_of id in
  let overlay_paths := filter (fun p => p <> EmptyString)
    (omap (fun f => strip_prefix prefix f.1) (list_stored prefix s)) in
  _ ← update_conflicts (ws_id meta) (ws_intent meta) overlay_paths;
  merged ← record_deletions (ws_id meta) (valid_prefix deleted) (ws_deleted_paths meta);
  match sanitize_all deleted with
  | None => fail HtBadRequest
  | Some _ =>
      _ ← finish_upload meta (negb (bool_decide (uploaded = [])) || negb (bool_decide (deleted = []))) merged;
      mret uploaded
  end.

Record UploadCounts : Type := mkCounts {
  uc_added : nat; uc_modified : nat; uc_unchanged : nat; uc_paths : list string
}.

(** One file of a snapshot against the project. *)
Definition diff_entry (ws : Uuid) (id : string) (current : gmap string string) (acc : UploadCounts)
    (f : string * bytes) : H UploadCounts :=
  let '(path, content) := f in
  let new_hash := sha256_hex content in
  let store (kind : EventKind) (acc : UploadCounts) : H UploadCounts :=
    _ ← put_file (overlay_prefix_of id +:+ path) content;
    _ ← put_file (blob_key new_hash) content;
    _ ← append_stored kind;
    mret (mkCounts (uc_added acc) (uc_modified acc) (uc_unchanged acc) (uc_paths acc ++ [path])) in
  match current !! path with
  | Some current_hash =>
      if String.eqb current_hash new_hash
      then mret (mkCounts (uc_added acc) (uc_modified acc) (S (uc_unchanged acc)) (uc_paths acc))
      else store (FileModified ws path current_hash new_hash)
             (mkCounts (uc_added acc) (S (uc_modified acc)) (uc_unchanged acc) (uc_paths acc))
  | None =>
      store (FileAdded ws path new_hash)
        (mkCounts (S (uc_added acc)) (uc_modified acc) (uc_unchanged acc) (uc_paths acc))
  end.

Fixpoint diff_entries (ws : Uuid) (id : string) (current : gmap string string) (files : list (string * bytes))
    (acc : UploadCounts) : H UploadCounts :=
  match files with
  | [] => mret acc
  | f :: files' => acc' ← diff_entry ws id current acc f; diff_entries ws id current files' acc'
  end.

(** The project: the paths under [current/] and their contents. *)
Definition current_files (s : ServerRepo) : gmap string bytes :=
  list_to_map (omap (fun f => rel ← strip_prefix "current/" f.1;
    if String.eqb rel "" then None else Some (rel, f.2)) (list_stored "current/" s)).

Definition upload_snapshot_handler (allowed : bool) (id : string) (allow_destructive : bool) (body : bytes) :
    H UploadSnapshotResponse :=
  _ ← check allowed;
  if over MAX_SNAPSHOT_SIZE_BYTES body then fail HtTooLarge
  else
    meta ← find_workspace id;
    match unpack body with
    | None => fail HtBadRequest
    | Some entries =>
        raw_files ← lift (extract_entries entries ∅);
        manifest ← match raw_files !! ".vai-delta.json"%string with
                   | None => mret None
                   | Some b => match parse_manifest b with Some m => mret (Some m) | None => fail HtBadRequest end
                   end;
        let tarball : gmap string bytes := filter (fun f => is_snapshot_path_ignored f.1 = false)
                         (delete ".vai-delta.json"%string raw_files) in
        s ← get_st;
        let current : gmap string string := sha256_hex <$> current_files s in
        counts ← diff_entries (ws_id meta) id current (iter_map tarball) (mkCounts 0 0 0 []);
        let deleted_paths := match manifest with
          | Some m => filter (fun p => p <> EmptyString) (dm_deleted_paths m)
          | None => (iter_map (filter (fun f => tarball !! f.1 = None) current)).*1
          end in
        let deleted := length deleted_paths in
        let current_count := size current in
        if negb allow_destructive && (0 <? deleted) && (3 <=? current_count) && (current_count <? deleted * 2)
        then fail HtConflict
        else
          merged ← record_deletions (ws_id meta) deleted_paths (ws_deleted_paths meta);
          _ ← finish_upload meta (negb (bool_decide (uc_paths counts = [])) || (0 <? deleted)) merged;
          _ ← broadcast "SnapshotUploaded" (Some id);
          mret (mkUpload (uc_added counts) (uc_modified counts) deleted (uc_unchanged counts)
                  (bool_decide (is_Some manifest)))
    end.

(** ** The life of a workspace *)

Definition insert_workspace (w : WorkspaceMeta) : H WorkspaceMeta :=
  _ ← modify_st (fun s => set_ws_rows (sv_workspaces s ++ [w]) s);
  get_ws (ws_id w).

Definition new_uuid : H Uuid := fun s => (Ok (uuid (sv_draws s)), set_streams (S (sv_draws s)) (sv_ticks s) s).

Definition create_workspace_handler (allowed : bool) (intent : string) : H WorkspaceMeta :=
  _ ← check allowed;
  _ ← check_len MAX_INTENT_LEN intent;
  s ← get_st;
  let head := default "unknown"%string (sv_head s) in
  id ← new_uuid;
  t ← tick;
  ws ← insert_workspace (mkWs id intent head WsCreated t t None []);
  _ ← append_stored (WorkspaceCreated (ws_id ws) (ws_intent ws) (base_version ws));
  _ ← broadcast "WorkspaceCreated" (Some (ws_id ws));
  mret ws.

Definition get_workspace_handler (allowed : bool) (id : string) : H WorkspaceMeta :=
  _ ← check allowed; find_workspace id.

(** [UPDATE workspaces SET status = 'Discarded'] *)
Definition discard_row (id : Uuid) : H unit :=
  t ← tick;
  modify_st (fun s => set_ws_rows (update_by ws_id id (with_update (Some WsDiscarded) None None t)
                                     (sv_workspaces s)) s).

Definition forget_scope (id : Uuid) : H unit :=
  modify_st (fun s => set_engine (remove_workspace (sv_engine s) id) s).

(** [cascade_workspace_teardown]; the worker's part is [Fleet]'s. *)
Definition cascade_workspace_teardown (id : Uuid) (reason : string) : H unit :=
  _ ← discard_row id;
  _ ← forget_scope id;
  _ ← append_stored (WorkspaceDiscarded id reason);
  broadcast "WorkspaceDiscarded" (Some id).

(** The issue of a discarded workspace goes back to the open ones, unless it was
    settled meanwhile. *)
Definition reopen_issue (issue : option Uuid) : H unit :=
  s ← get_st;
  match issue with
  | Some i =>
      match sv_issues s !! i with
      | Some InProgress => put_st (set_issue_rows (<[i := Open]> (sv_issues s)) s)
      | _ => mret tt
      end
  | None => mret tt
  end.

Definition discard_workspace_handler (allowed : bool) (id : string) : H unit :=
  _ ← check allowed;
  meta ← find_workspace id;
  _ ← discard_row (ws_id meta);
  _ ← forget_scope (ws_id meta);
  _ ← reopen_issue (ws_issue_id meta);
  _ ← append_stored (WorkspaceDiscarded (ws_id meta) "discarded via API");
  broadcast "WorkspaceDiscarded" (Some id).

(** ** Submission *)

Variable read_dir : gmap string VersionMeta -> list VersionMeta.
Variable parse_rust_source : string -> bytes -> outcome GraphError (list Entity * list Relationship).
Variable parse_source_file : string -> bytes -> outcome GraphError (list Entity * list Relationship).

(** The scaffold of a metadata directory that the merge engine works in: HEAD, the
    workspace, which is active, and a stub of the version at HEAD. *)
Definition setup_tmpdir_for_s3_submit (meta : WorkspaceMeta) (current_head : string) (s : ServerRepo) : VaiDir :=
  let stub := mkVersion current_head None "placeholder" "server" (clock (sv_ticks s)) None in
  mkVai (Some (current_head +:+ String LF EmptyString)) {[current_head := stub]}
    {[ws_id meta := meta]} (Some (ws_id meta)) ∅ ∅ [] (mkSnapshot [] []) (sv_draws s) (S (sv_ticks s)).

(** The merge of the workspace in the object store: the writes reach the store
    only when the merge succeeds. *)
Definition run_submit (meta : WorkspaceMeta) (id current_head : string) : H (outcome MergeError SubmitResult) :=
  fun s =>
  let tmp := setup_tmpdir_for_s3_submit meta current_head s in
  let '(r, (v, fs)) :=
    submit_with_fs (H := S3MergeFs (overlay_prefix_of id) "current/") clock uuid read_dir parse_rust_source
      parse_source_file sha256_hex iter_order meta (ws_deleted_paths meta) (tmp, new_s3 (sv_files s) false) in
  let s' := set_streams (draws v) (ticks v) s in
  match r with
  | Ok result =>
      let '(flushed, fs') := s3_flush fs in
      (match flushed with Ok _ => Ok (Ok result) | _ => Err HtInternal end, set_files (store fs') s')
  | Err e => (Ok (Err e), s')
  | Panic => (Panic, s')
  end.

Definition merge_error (e : MergeError) : HttpError :=
  match e with
  | SemanticConflicts _ _ => HtConflict
  | EmptyWorkspace => HtWorkspaceEmpty
  | MeWorkspace (WsNotFound _) | MeWorkspace NoActiveWorkspace => HtNotFound
  | _ => HtInternal
  end.

(** What the server records of a merge. *)
Definition record_merge (meta : WorkspaceMeta) (id : string) (r : SubmitResult) : H unit :=
  let vm := sr_version r in
  _ ← forget_scope (ws_id meta);
  e ← append_stored (MergeCompleted (ws_id meta) (version_id vm) (N.of_nat (auto_resolved r)));
  _ ← for_each (fun p => _ ← append_stored (FileRemoved (ws_id meta) p); mret tt) (ws_deleted_paths meta);
  t ← tick;
  _ ← best_effort (insert_version (mkVersion (version_id vm) (parent_version_id vm) (v_intent vm)
                                     (created_by vm) t (Some (ev_id e))));
  _ ← advance_head (version_id vm);
  _ ← best_effort (update_workspace (ws_id meta) (Some WsMerged) None None);
  _ ← append_stored (WorkspaceSubmitted (ws_id meta)
        (nat_text (files_applied r) +:+ " files applied, " +:+ nat_text (entities_changed r) +:+
         " entities changed, new version " +:+ version_id vm));
  broadcast "WorkspaceSubmitted" (Some id).

(** Each of the texts once; the order is that of a hash set. *)
Definition distinct (l : list string) : list string := iter_order (list_to_set l).

Definition escalation_conflict (c : ConflictRecord) : EscalationConflict :=
  mkEsConflict (c_file_path c) (Z.of_nat (merge_level c)) (entity_ids c) (description c) None None None.

Definition conflict_summary (intent : string) (count : nat) (conflicts : list ConflictRecord) : string :=
  let unique_files := sort_strings (distinct (c_file_path <$> conflicts)) in
  let files_summary := match unique_files with
    | [f] => "in " +:+ f
    | fs => "in " +:+ nat_text (length fs) +:+ " files"
    end in
  nat_text count +:+ " unresolvable conflict(s) " +:+ files_summary +:+ " — workspace " +:+
    String "034" intent +:+ String "034" " requires manual resolution".

(** The conflicts of a merge wait for a human. *)
Definition escalate (meta : WorkspaceMeta) (id : string) (count : nat) (conflicts : list ConflictRecord) :
    H unit :=
  let summary := conflict_summary (ws_intent meta) count conflicts in
  eid ← new_uuid;
  t ← tick;
  let esc := mkEscalation eid MergeConflict EsHigh EsPending summary [ws_intent meta] [] [ws_id meta]
    (distinct (concat (entity_ids <$> conflicts))) (escalation_conflict <$> conflicts)
    (default_resolution_options MergeConflict [ws_id meta]) None None t None in
  _ ← modify_st (fun s => mkServer (sv_files s) (sv_events s) (sv_versions s) (sv_head s) (sv_workspaces s)
        (sv_issues s) (sv_escalations s ++ [esc]) (sv_engine s) (sv_broadcasts s) (sv_draws s) (sv_ticks s));
  _ ← append_stored (EscalationCreated eid "MergeConflict" "High" [ws_id meta] summary);
  broadcast "EscalationCreated" (Some id).

Definition submit_workspace_handler (allowed : bool) (id : string) : H SubmitResult :=
  _ ← check allowed;
  meta ← find_workspace id;
  s ← get_st;
  if bool_decide ((ws_issue_id meta ≫= fun i => sv_issues s !! i) = Some Closed) then
    _ ← cascade_workspace_teardown (ws_id meta) "submit rejected: linked issue is closed";
    fail HtConflict
  else
    result ← run_submit meta id (default (base_version meta) (sv_head s));
    match result with
    | Ok r => _ ← record_merge meta id r; mret r
    | Err (SemanticConflicts count conflicts) => _ ← escalate meta id count conflicts; fail HtConflict
    | Err e => fail (merge_error e)
    | Panic => lift Panic
    end.

(** ** Reading the project *)

Record FileDownloadResponse : Type := mkDownload {
  fd_file_path : string; fd_content_base64 : string; fd_size : nat; fd_found_in : string
}.

(** The overlay before the project, the store before the server's disk. *)
Definition get_workspace_file_handler (allowed : bool) (disk : Disk) (vai_dir repo_root : string)
    (id path : string) : H FileDownloadResponse :=
  _ ← check allowed;
  _ ← find_workspace id;
  match sanitize_path path with
  | None => fail HtBadRequest
  | Some rel =>
      s ← get_st;
      let path_str := normalise_separators rel in
      let reply (content : bytes) (found_in : string) : FileDownloadResponse :=
        mkDownload path_str (b64_encode content) (length content) found_in in
      let from_disk (p found_in : string) : H FileDownloadResponse :=
        match disk !! p with Some c => mret (reply c found_in) | None => fail HtInternal end in
      let overlay_path :=
        path_join (path_join (path_join (path_join vai_dir "workspaces") id) "overlay") rel in
      let base_path := path_join repo_root rel in
      match sv_files s !! (overlay_prefix_of id +:+ path_str) with
      | Some c => mret (reply c "overlay")
      | None =>
          if path_exists disk overlay_path then from_disk overlay_path "overlay"
          else match sv_files s !! current_key path_str with
               | Some c => mret (reply c "base")
               | None => if path_exists disk base_path then from_disk base_path "base" else fail HtNotFound
               end
      end
  end.

(** The number of [vN]; 0 for anything else. *)
Definition version_num (version_id : string) : N := default 0%N (strip_prefix "v" version_id ≫= parse_u64).

Inductive FileChangeType : Type := FctAdded | FctModified | FctRemoved.
Record PullFileEntry : Type := mkPullEntry {
  pe_path : string; pe_change_type : FileChangeType; pe_content_base64 : option string
}.
Record FilesPullResponse : Type := mkPullResponse {
  pr_base_version : string; pr_head_version : string; pr_files : list PullFileEntry
}.

(** [list_versions_since], as the trait defines it. *)
Definition list_versions_since (since_num head_num : N) (s : ServerRepo) : list VersionMeta :=
  sort_by (fun a b => (version_num (version_id a) <=? version_num (version_id b))%N)
    (filter (fun v => (since_num < version_num (version_id v) <= head_num)%N) (sv_versions s)).

(** [query_since_id_filtered(0, ..)] with the two dimensions that are set here; an
    empty list of workspaces does not restrict. *)
Definition file_events_of (workspace_ids : list Uuid) (s : ServerRepo) : list Event :=
  filter (fun e => (0 < ev_id e)%N /\
    event_type (ev_kind e) ∈ ["FileAdded"; "FileModified"; "FileRemoved"]%string /\
    (workspace_ids = [] \/ event_workspace_id (ev_kind e) ∈ Some <$> workspace_ids))
    (sv_events s).

(** The workspaces that the versions merged, through their merge events. *)
Definition merged_workspaces (vs : list VersionMeta) (s : ServerRepo) : list Uuid :=
  let merge_events := query_by_type (sv_events s) "MergeCompleted" in
  omap (fun v => mid ← merge_event_id v; e ← find_by ev_id mid merge_events; event_workspace_id (ev_kind e)) vs.

(** The changes that one event stands for. *)
Definition change_state (changes : gmap string FileChangeType) (e : Event) : gmap string FileChangeType :=
  match ev_kind e with
  | FileAdded _ path _ => <[path := FctAdded]> changes
  | FileModified _ path _ _ =>
      <[path := match changes !! path with Some FctAdded => FctAdded | _ => FctModified end]> changes
  | FileRemoved _ path => <[path := FctRemoved]> changes
  | _ => changes
  end.

Definition pull_entry (s : ServerRepo) (c : string * FileChangeType) : PullFileEntry :=
  mkPullEntry c.1 c.2 (match c.2 with
                       | FctRemoved => None
                       | _ => b64_encode <$> (sv_files s !! current_key c.1)
                       end).

Definition files_pull_handler (allowed : bool) (since : string) : H FilesPullResponse :=
  _ ← check allowed;
  s ← get_st;
  let head_version := default "unknown"%string (sv_head s) in
  let since_num := version_num since in
  let head_num := version_num head_version in
  if (head_num <=? since_num)%N then mret (mkPullResponse since head_version [])
  else
    let newer_versions := list_versions_since since_num head_num s in
    if bool_decide (omap merge_event_id newer_versions = []) then mret (mkPullResponse since head_version [])
    else
      let changes := foldl change_state ∅ (file_events_of (merged_workspaces newer_versions s) s) in
      mret (mkPullResponse since head_version
        (sort_by (fun a b => String.leb (pe_path a) (pe_path b)) (pull_entry s <$> iter_map changes))).

Record ManifestFileEntry : Type := mkManifestEntry { mf_path : string; mf_sha256 : string }.

Definition files_manifest_handler (allowed : bool) : H (string * list ManifestFileEntry) :=
  _ ← check allowed;
  s ← get_st;
  let entries := omap (fun f => rel ← strip_prefix "current/" f.1;
    if String.eqb rel "" then None else Some (mkManifestEntry rel (sha256_hex f.2))) (list_stored "current/" s) in
  mret (default "v0"%string (sv_head s), sort_by (fun a b => String.leb (mf_path a) (mf_path b)) entries).

(** The hashes that the events of the versions up to [n] leave, then the blobs;
    a blob that is missing leaves its file out. *)
Definition path_hash (hashes : gmap string string) (e : Event) : gmap string string :=
  match ev_kind e with
  | FileAdded _ path hash => <[path := hash]> hashes
  | FileModified _ path _ new_hash => <[path := new_hash]> hashes
  | FileRemoved _ path => delete path hashes
  | _ => hashes
  end.

Definition build_file_map_at_version (n : N) (s : ServerRepo) : gmap string bytes :=
  let target := filter (fun v => (version_num (version_id v) <= n)%N) (sv_versions s) in
  if bool_decide (omap merge_event_id target = []) then ∅
  else omap (fun hash => sv_files s !! blob_key hash)
         (foldl path_hash ∅ (file_events_of (merged_workspaces target s) s)).

Record ArchiveEntry : Type := mkArchiveEntry { ar_path : string; ar_mode : Z; ar_content : bytes }.

(** The entries of the archive, under the version in [X-Vai-Head]; a script keeps
    its executable bit. *)
Definition files_download_handler (allowed : bool) (version : option string) :
    H (string * list ArchiveEntry) :=
  _ ← check allowed;
  s ← get_st;
  let head_version := default "unknown"%string (sv_head s) in
  let requested_num := version_num (default head_version version) in
  file_map ← (if (requested_num <? version_num head_version)%N
              then mret (build_file_map_at_version requested_num s)
              else if bool_decide (list_stored "current/" s = []) then fail HtBadRequest
              else mret (current_files s));
  mret (head_version,
    (fun f => mkArchiveEntry f.1 (if bool_decide (take 2 f.2 = bytes_of "#!") then 493 else 420)%Z f.2)
      <$> sort_by (fun a b => String.leb a.1 b.1) (iter_map file_map)).
End server.
