(* ===== verification/ServerPull.v ===== *)
(** What the pull endpoint promises: a client that has the project as it was at some
    version, and applies the answer, has the project as it is now. The server runs
    any sequence of requests in between. *)
From S2P Require Import Prelude Table RustStr TextMerge Graph EventLog MergeEngine MergeFs VaiDir Workspace Version Diff Submit SubmitFrame Conflict Escalation Issue ServerRepo.

(** ** The object store under a submission *)

Section store.
Variables (overlay_prefix base_prefix : string).

(** The store paths that no write of a submission has. *)
Definition outside (q : string) : Prop := forall x, q <> base_prefix +:+ x /\ q <> "versions/" +:+ x.

Lemma s3_read_at k s q : s3_at (s3_read_file overlay_prefix base_prefix k s).2 q = s3_at s q.
Proof using.
  unfold s3_read_file, mbind, M_bind, lift, get_st, fail, mret, M_ret, put_st.
  destruct (s3_path _ _ k) as [p|e|]; [|done..]. repeat case_match; done.
Qed.

Lemma s3_exists_at k s q : s3_at (s3_exists overlay_prefix base_prefix k s).2 q = s3_at s q.
Proof using.
  unfold s3_exists, mbind, M_bind, lift, get_st, fail, mret, M_ret.
  destruct (s3_path _ _ k) as [p|e|]; [|done..]. by repeat case_match.
Qed.

Lemma s3_list_at p s q : s3_at (s3_list_files overlay_prefix base_prefix p s).2 q = s3_at s q.
Proof using.
  unfold s3_list_files, mbind, M_bind, lift, get_st, mret, M_ret. by destruct (s3_prefix _ _ p) as [[]| |].
Qed.

Lemma s3_write_at k p c s q :
  s3_path overlay_prefix base_prefix k = Ok p -> q <> p ->
  s3_at (s3_write_file overlay_prefix base_prefix k c s).2 q = s3_at s q.
Proof using.
  intros Hk Hq. unfold s3_write_file, mbind, M_bind, lift, modify_st. rewrite Hk. unfold s3_at. simpl.
  rewrite lookup_insert_ne by done. destruct (pending_writes s !! q); [done|].
  assert (E : q ∈ filter (fun x => x <> p) (pending_deletes s) <-> q ∈ pending_deletes s)
    by (rewrite list_elem_of_filter; tauto).
  by rewrite (bool_decide_ext _ _ E).
Qed.

Lemma s3_delete_at k p s q :
  s3_path overlay_prefix base_prefix k = Ok p -> q <> p ->
  s3_at (s3_delete_file overlay_prefix base_prefix k s).2 q = s3_at s q.
Proof using.
  intros Hk Hq. unfold s3_delete_file, mbind, M_bind, lift, modify_st. rewrite Hk. unfold s3_at. simpl.
  rewrite lookup_delete_ne by done. destruct (pending_writes s !! q); [done|].
  assert (E : q ∈ (if bool_decide (p ∈ pending_deletes s) then pending_deletes s else pending_deletes s ++ [p])
    <-> q ∈ pending_deletes s).
  { case_bool_decide; [done|]. rewrite elem_of_app, list_elem_of_singleton. naive_solver. }
  by rewrite (bool_decide_ext _ _ E).
Qed.

Lemma path_base p : s3_path overlay_prefix base_prefix (bkey p) = Ok (base_prefix +:+ p).
Proof using. apply s3_path_cases. right; left. eauto. Qed.

Lemma path_snapshot n p : s3_path overlay_prefix base_prefix (skey ("v" +:+ print_u64 n) p) =
  Ok ("versions/" +:+ ("v" +:+ print_u64 n) +:+ "/snapshot/" +:+ p).
Proof using.
  apply s3_path_cases. right; right. exists ("v" +:+ print_u64 n), p. split_and!; [done| |done].
  by apply print_u64_no_char.
Qed.

Hypothesis apart : forall x y,
  overlay_prefix +:+ x <> base_prefix +:+ y /\
  overlay_prefix +:+ x <> "versions/" +:+ y /\
  base_prefix +:+ x <> "versions/" +:+ y.

(** Everything else in the store is as it was. *)
Lemma s3_keeps_outside files touched :
  @keeps_X S3 _ (S3MergeFsSpec overlay_prefix base_prefix apart) touched
    (fun s => forall q, outside q -> s3_at s q = files q).
Proof using.
  constructor.
  - intros k s _ _ Hx q Hq. etransitivity; [apply s3_read_at|auto].
  - intros k s _ _ Hx q Hq. etransitivity; [apply s3_exists_at|auto].
  - intros p s _ _ Hx q Hq. etransitivity; [apply s3_list_at|auto].
  - intros p c s _ _ Hx q Hq. etransitivity; [apply (s3_write_at _ _ _ _ _ (path_base p)), Hq|auto].
  - intros n p c s _ Hx q Hq. etransitivity; [apply (s3_write_at _ _ _ _ _ (path_snapshot n p))|auto].
    apply (Hq (("v" +:+ print_u64 n) +:+ "/snapshot/" +:+ p)).
  - intros p s _ _ Hx q Hq. etransitivity; [apply (s3_delete_at _ _ _ _ (path_base p)), Hq|auto].
Qed.
End store.

(** ** Requests *)

Section server.
Variable clock : nat -> DateTime.
Variable uuid : nat -> Uuid.
Variable parse_uuid : string -> option Uuid.
Variable sha256_hex : bytes -> string.
Variable iter_order : gset string -> list string.
Variable unpack : bytes -> option (list TarEntry).
Variable parse_manifest : bytes -> option DeltaManifest.
Variable b64_encode : bytes -> string.
Variable b64_decode : string -> option bytes.
Variable values : Engine -> list WorkspaceScope.
Variable read_dir : gmap string VersionMeta -> list VersionMeta.
Variable parse_rust_source : string -> bytes -> outcome GraphError (list Entity * list Relationship).
Variable parse_source_file : string -> bytes -> outcome GraphError (list Entity * list Relationship).

Abbreviation H := (M ServerRepo HttpError).

Inductive Request : Type :=
  | ReqCreate (allowed : bool) (intent : string)
  | ReqDiscard (allowed : bool) (id : string)
  | ReqUpload (allowed : bool) (id : string) (files : list FileUploadEntry) (deleted : list string)
  | ReqSnapshot (allowed : bool) (id : string) (allow_destructive : bool) (body : bytes)
  | ReqSubmit (allowed : bool) (id : string).

(** A request that writes, its answer aside. *)
Definition handle (r : Request) : H unit :=
  match r with
  | ReqCreate ok intent => _ ← create_workspace_handler clock uuid ok intent; mret tt
  | ReqDiscard ok id => discard_workspace_handler clock parse_uuid ok id
  | ReqUpload ok id files deleted =>
      _ ← upload_workspace_files_handler clock parse_uuid sha256_hex iter_order b64_decode values ok id files deleted;
      mret tt
  | ReqSnapshot ok id destructive body =>
      _ ← upload_snapshot_handler clock parse_uuid sha256_hex iter_order unpack parse_manifest ok id destructive body;
      mret tt
  | ReqSubmit ok id =>
      _ ← submit_workspace_handler clock uuid parse_uuid sha256_hex iter_order read_dir parse_rust_source
            parse_source_file ok id;
      mret tt
  end.

Definition serve (rs : list Request) (s : ServerRepo) : ServerRepo := foldl (fun s r => (handle r s).2) s rs.

(** ** The state of the project and of its log *)

Definition current_at (s : ServerRepo) (p : string) : option bytes := sv_files s !! current_key p.
Definition head_num (s : ServerRepo) : N := version_num (default "unknown"%string (sv_head s)).

(** A file event of the workspace for the path. *)
Definition file_event_for (w : Uuid) (p : string) (k : EventKind) : Prop :=
  match k with
  | FileAdded w' p' _ | FileModified w' p' _ _ | FileRemoved w' p' => w' = w /\ p' = p
  | _ => False
  end.

Definition logged (w : Uuid) (p : string) (l : EventLog) : Prop :=
  exists e, e ∈ l /\ file_event_for w p (ev_kind e).

Definition log_ok (l : EventLog) : Prop := log_wf l /\ Forall (fun e => (0 < ev_id e)%N) l.

(** The log increases, no version is past HEAD, what an overlay holds has an event
    of its workspace, and without HEAD the workspaces start from no version. *)
Record server_wf (s : ServerRepo) : Prop := {
  sw_log : log_ok (sv_events s);
  sw_versions v : v ∈ sv_versions s -> (version_num (version_id v) <= head_num s)%N;
  sw_overlay id u p : parse_uuid id = Some u -> is_Some (sv_files s !! (overlay_prefix_of id +:+ p)) ->
    logged u p (sv_events s);
  sw_base w : sv_head s = None -> w ∈ sv_workspaces s -> version_num (base_version w) = 0%N
}.

(** A step that makes no version: the log grows, the project stays, new files of
    overlays have events. *)
Record quiet (s s' : ServerRepo) : Prop := {
  q_grows : exists l, sv_events s' = sv_events s ++ l;
  q_log : log_ok (sv_events s) -> log_ok (sv_events s');
  q_versions : sv_versions s' = sv_versions s;
  q_head : sv_head s' = sv_head s;
  q_current p : current_at s' p = current_at s p;
  q_overlay id u p : parse_uuid id = Some u -> is_Some (sv_files s' !! (overlay_prefix_of id +:+ p)) ->
    is_Some (sv_files s !! (overlay_prefix_of id +:+ p)) \/ logged u p (sv_events s');
  q_base w : w ∈ sv_workspaces s' -> (exists w0, w0 ∈ sv_workspaces s /\ base_version w0 = base_version w) \/
    base_version w = default "unknown"%string (sv_head s)
}.

Lemma logged_grows w p l l' : logged w p l -> logged w p (l ++ l').
Proof using. intros (e & He & Hk). exists e. rewrite elem_of_app. auto. Qed.

Lemma log_ok_append t k l : log_ok l -> log_ok (append t k l).2.
Proof using.
  intros [Hwf Hpos]. split; [by apply append_wf|]. unfold append. simpl. apply Forall_app. split; [done|].
  constructor; [|done]. simpl. unfold next_id. lia.
Qed.

Lemma quiet_refl s : quiet s s.
Proof using. constructor; [exists []; by rewrite app_nil_r|eauto..]. Qed.

Lemma quiet_trans s1 s2 s3 : quiet s1 s2 -> quiet s2 s3 -> quiet s1 s3.
Proof using.
  intros [[l1 G1] L1 V1 H1 C1 O1 B1] [[l2 G2] L2 V2 H2 C2 O2 B2]. constructor.
  - exists (l1 ++ l2). by rewrite G2, G1, app_assoc.
  - auto.
  - congruence.
  - congruence.
  - intros p. by rewrite C2.
  - intros id u p Hu Hp. destruct (O2 id u p Hu Hp) as [Hp2|Hl]; [|by right].
    destruct (O1 id u p Hu Hp2) as [|Hl]; [by left|right]. rewrite G2. by apply logged_grows.
  - intros w [(w0 & Hw0 & <-)|Hw]%B2; [by apply B1|right]. congruence.
Qed.

(** Steps that leave the files, the log, the versions, HEAD and the workspaces. *)
Lemma quiet_core s s' :
  sv_files s' = sv_files s -> sv_events s' = sv_events s -> sv_versions s' = sv_versions s ->
  sv_head s' = sv_head s -> sv_workspaces s' = sv_workspaces s -> quiet s s'.
Proof using.
  intros Ef Ee Ev Eh Ew. constructor; [exists []; by rewrite app_nil_r|by rewrite Ee|done..| | |].
  - intros p. unfold current_at. by rewrite Ef.
  - intros id u p _. rewrite Ef. by left.
  - intros w. rewrite Ew. eauto.
Qed.

Definition quietly {A} (m : H A) : Prop := forall s, quiet s (m s).2.

Lemma quietly_ret {A} (a : A) : quietly (mret a).
Proof using. intros s. apply quiet_refl. Qed.
Lemma quietly_fail {A} e : quietly (A:=A) (fail e).
Proof using. intros s. apply quiet_refl. Qed.
Lemma quietly_get : quietly get_st.
Proof using. intros s. apply quiet_refl. Qed.
Lemma quietly_lift {A} (o : outcome HttpError A) : quietly (lift o).
Proof using. intros s. apply quiet_refl. Qed.

Lemma quietly_bind {A B} (m : H A) (k : A -> H B) :
  quietly m -> (forall a, quietly (k a)) -> quietly (m ≫= k).
Proof using.
  intros Hm Hk s. specialize (Hm s). unfold mbind, M_bind. destruct (m s) as [[a|e|] s1]; simpl in *; [|done..].
  eapply quiet_trans; [exact Hm|apply Hk].
Qed.

Lemma quietly_for_each {A} (f : A -> H unit) l : (forall x, quietly (f x)) -> quietly (for_each f l).
Proof using.
  intros Hf. induction l as [|x l IH]; simpl; [apply quietly_ret|]. by apply quietly_bind.
Qed.

Lemma quietly_best_effort {A} (m : H A) : quietly m -> quietly (best_effort m).
Proof using. intros Hm s. apply Hm. Qed.

Lemma quietly_core {A} (m : H A) :
  (forall s, let s' := (m s).2 in sv_files s' = sv_files s /\ sv_events s' = sv_events s /\
     sv_versions s' = sv_versions s /\ sv_head s' = sv_head s /\ sv_workspaces s' = sv_workspaces s) -> quietly m.
Proof using. intros Hm s. destruct (Hm s) as (? & ? & ? & ? & ?). by apply quiet_core. Qed.

(** ** The quiet operations *)

(** A UUID's text has no slash, and [parse_uuid] answers with a text as it is
    printed, without white space around it. *)
Hypothesis parse_uuid_ok : forall id u, parse_uuid id = Some u -> has_char "/" id = false /\ id_ok u.

Lemma overlay_key_inj id id' p p' :
  has_char "/" id = false -> has_char "/" id' = false ->
  overlay_prefix_of id +:+ p = overlay_prefix_of id' +:+ p' -> id = id' /\ p = p'.
Proof using.
  intros Hi Hi' E. unfold overlay_prefix_of in E. rewrite <-!string_app_assoc in E.
  apply string_app_inj_l in E. 
  assert (Hs : forall i q, has_char "/" i = false -> split_once "/" (i +:+ "/" +:+ q) = Some (i, q)).
  { intros i q Hq. by apply split_once_Some. }
  pose proof (Hs id p Hi) as E1. rewrite E, Hs in E1 by done. by injection E1 as -> ->.
Qed.

Lemma quiet_upload s s' u id path kind t :
  parse_uuid id = Some u -> file_event_for u path kind ->
  sv_events s' = (append t kind (sv_events s)).2 -> sv_versions s' = sv_versions s -> sv_head s' = sv_head s ->
  sv_workspaces s' = sv_workspaces s -> (forall p, current_at s' p = current_at s p) ->
  (forall id' p, is_Some (sv_files s' !! (overlay_prefix_of id' +:+ p)) ->
     is_Some (sv_files s !! (overlay_prefix_of id' +:+ p)) \/
     overlay_prefix_of id' +:+ p = overlay_prefix_of id +:+ path) ->
  quiet s s'.
Proof using parse_uuid_ok.
  intros Hu Hk Ee Ev Eh Ew Ec Ef. constructor; [| |done|done|done| |].
  - eexists. rewrite Ee. done.
  - rewrite Ee. apply log_ok_append.
  - intros id' u' p Hu' Hp. destruct (Ef id' p Hp) as [|E]; [by left|right].
    apply overlay_key_inj in E as [-> ->]; [|by apply (parse_uuid_ok _ _ Hu')|by apply (parse_uuid_ok _ _ Hu)].
    replace u' with u by congruence. eexists. split; [rewrite Ee; apply elem_of_app; right; by left|done].
  - intros w. rewrite Ew. eauto.
Qed.

Lemma quietly_tick : quietly (tick clock).
Proof using. by apply quietly_core. Qed.
Lemma quietly_new_uuid : quietly (new_uuid uuid).
Proof using. by apply quietly_core. Qed.
Lemma quietly_broadcast ty ws : quietly (broadcast ty ws).
Proof using. by apply quietly_core. Qed.
Lemma quietly_forget_scope u : quietly (forget_scope u).
Proof using. by apply quietly_core. Qed.
Lemma quietly_check b : quietly (check b).
Proof using. by destruct b; apply quietly_core. Qed.
Lemma quietly_check_len n s : quietly (check_len n s).
Proof using. unfold check_len. by case_match; apply quietly_core. Qed.
Lemma quietly_get_ws u : quietly (get_ws u).
Proof using. by apply quietly_core. Qed.
Lemma quietly_find_workspace id : quietly (find_workspace parse_uuid id).
Proof using. unfold find_workspace. case_match; [apply quietly_get_ws|apply quietly_fail]. Qed.
Lemma quietly_put_blob h c : quietly (put_file (blob_key h) c).
Proof using.
  intros s. unfold put_file, modify_st. simpl.
  constructor; simpl; [exists []; by rewrite app_nil_r|done..| | |by eauto].
  - intros p. unfold current_at. simpl. by rewrite lookup_insert_ne by by intros [=].
  - intros id u p _. rewrite lookup_insert_ne by by intros [=]. by left.
Qed.
Lemma quietly_append k : quietly (append_stored clock k).
Proof using.
  intros s. unfold append_stored. simpl. constructor; simpl; [by eexists|apply log_ok_append|done..|by left|by eauto].
Qed.
Lemma quietly_reopen i : quietly (reopen_issue i).
Proof using.
  apply quietly_core. intros s. unfold reopen_issue, mbind, M_bind, get_st. simpl.
  destruct i as [i|]; [|done]. by destruct (sv_issues s !! i) as [[]|].
Qed.

(** Rows are only rewritten with the base version they have. *)
Lemma quietly_rows u st iss del t :
  quietly (modify_st (fun s => set_ws_rows (update_by ws_id u (with_update st iss del t) (sv_workspaces s)) s)).
Proof using.
  intros s. unfold modify_st. simpl. constructor; simpl; [exists []; by rewrite app_nil_r|done..|by left|].
  intros w (w0 & Hw0 & ->)%update_by_elem. left. exists w0. split; [done|]. by case_decide.
Qed.

Create HintDb quietly.
#[local] Hint Resolve quietly_ret quietly_fail quietly_get quietly_lift quietly_for_each
  quietly_best_effort quietly_tick quietly_new_uuid quietly_broadcast quietly_forget_scope quietly_check
  quietly_check_len quietly_get_ws quietly_find_workspace quietly_put_blob quietly_append quietly_reopen
  quietly_rows : quietly.

Ltac quietly := repeat (first [solve [auto 2 with quietly]|progress intros|apply quietly_bind|case_match]).

Lemma quietly_update_workspace u st iss del : quietly (update_workspace clock u st iss del).
Proof using. unfold update_workspace. quietly. Qed.
#[local] Hint Resolve quietly_update_workspace : quietly.

Lemma quietly_finish_upload meta any merged : quietly (finish_upload clock meta any merged).
Proof using. unfold finish_upload. quietly. Qed.

Lemma quietly_record_deletions w paths merged : quietly (record_deletions clock w paths merged).
Proof using.
  revert merged; induction paths as [|p paths IH]; intros merged; simpl; [apply quietly_ret|].
  by apply quietly_bind; [apply quietly_append|].
Qed.

Lemma quietly_update_conflicts ws intent paths : quietly (update_conflicts values ws intent paths).
Proof using.
  intros s. unfold update_conflicts. unfold mbind at 1, M_bind, get_st.
  destruct (update_scope values (sv_engine s) ws intent paths) as [os e].
  eapply (quiet_trans _ (set_engine e s)); [by apply quiet_core|].
  unfold mbind, M_bind, put_st. apply quietly_for_each. intros o. unfold notify_overlap.
  apply quietly_bind; [apply quietly_broadcast|]. intros; apply quietly_broadcast.
Qed.
#[local] Hint Resolve quietly_finish_upload quietly_record_deletions quietly_update_conflicts : quietly.

Lemma quietly_discard_row u : quietly (discard_row clock u).
Proof using. unfold discard_row. quietly. Qed.
#[local] Hint Resolve quietly_discard_row : quietly.

Lemma quietly_discard ok id : quietly (discard_workspace_handler clock parse_uuid ok id).
Proof using. unfold discard_workspace_handler. quietly. Qed.

Lemma quietly_cascade u reason : quietly (cascade_workspace_teardown clock u reason).
Proof using. unfold cascade_workspace_teardown. quietly. Qed.

Lemma quietly_escalate meta id n cs : quietly (escalate clock uuid iter_order meta id n cs).
Proof using.
  unfold escalate. quietly. by apply quietly_core.
Qed.

Lemma find_workspace_ok id s meta s' :
  find_workspace parse_uuid id s = (Ok meta, s') ->
  s' = s /\ parse_uuid id = Some (ws_id meta) /\ meta ∈ sv_workspaces s.
Proof using.
  unfold find_workspace. destruct (parse_uuid id) as [u|]; [|done]. unfold get_ws.
  destruct (find_by ws_id u (sv_workspaces s)) as [w|] eqn:E; [|done].
  intros [= <- <-]. by apply find_by_Some in E as [Hin <-].
Qed.

Lemma quietly_find_bind {A} id (k : WorkspaceMeta -> H A) :
  (forall meta, parse_uuid id = Some (ws_id meta) -> quietly (k meta)) ->
  quietly (find_workspace parse_uuid id ≫= k).
Proof using.
  intros Hk s. unfold mbind, M_bind. destruct (find_workspace parse_uuid id s) as [[meta|e|] s'] eqn:E.
  - apply find_workspace_ok in E as (-> & Hu & _). by apply Hk.
  - pose proof (quietly_find_workspace id s) as Hq. by rewrite E in Hq.
  - pose proof (quietly_find_workspace id s) as Hq. by rewrite E in Hq.
Qed.

Lemma quietly_create ok intent : quietly (create_workspace_handler clock uuid ok intent).
Proof using.
  unfold create_workspace_handler. apply quietly_bind; [apply quietly_check|]. intros _.
  apply quietly_bind; [apply quietly_check_len|]. intros _.
  intros s. set (s1 := set_streams (S (sv_draws s)) (S (sv_ticks s)) s).
  set (row := mkWs (uuid (sv_draws s)) intent (default "unknown"%string (sv_head s)) WsCreated
    (clock (sv_ticks s)) (clock (sv_ticks s)) None []).
  set (s2 := set_ws_rows (sv_workspaces s1 ++ [row]) s1).
  assert (Q : quiet s s2).
  { constructor; simpl; [exists []; by rewrite app_nil_r|done..|by left|].
    intros w0 [Hw| ->%list_elem_of_singleton]%elem_of_app; [by eauto|by right]. }
  eapply quiet_trans; [exact Q|].
  change (quiet s2 ((ws ← get_ws (ws_id row);
    _ ← append_stored clock (WorkspaceCreated (ws_id ws) (ws_intent ws) (base_version ws));
    _ ← broadcast "WorkspaceCreated" (Some (ws_id ws)); mret ws) s2).2).
  assert (quietly (ws ← get_ws (ws_id row);
    _ ← append_stored clock (WorkspaceCreated (ws_id ws) (ws_intent ws) (base_version ws));
    _ ← broadcast "WorkspaceCreated" (Some (ws_id ws)); mret ws)) as Hr by quietly.
  apply Hr.
Qed.

Lemma quietly_upload_file u id entry :
  parse_uuid id = Some u -> quietly (upload_file clock sha256_hex b64_decode u id entry).
Proof using parse_uuid_ok.
  intros Hu. unfold upload_file. destruct (b64_decode _) as [c|]; [|apply quietly_fail].
  destruct (over _ c); [apply quietly_fail|]. destruct (stored_path _) as [path|]; [|apply quietly_fail].
  intros s. unfold mbind, M_bind, get_st. cbv beta iota zeta.
  set (existing := match sv_files s !! (overlay_prefix_of id +:+ path) with
    | Some c => Some c | None => sv_files s !! current_key path end).
  destruct existing as [old|];
    [apply (quiet_upload _ _ u id path (FileModified u path (sha256_hex old) (sha256_hex c)) (clock (sv_ticks s)))
    |apply (quiet_upload _ _ u id path (FileAdded u path (sha256_hex c)) (clock (sv_ticks s)))]; try done;
    [intros p; unfold current_at; simpl; by rewrite !lookup_insert_ne by by intros [=]| |
     intros p; unfold current_at; simpl; by rewrite !lookup_insert_ne by by intros [=]|];
    intros id' p; simpl; rewrite !(lookup_insert_ne _ (blob_key _)) by (by intros [=]);
    (destruct (decide (overlay_prefix_of id' +:+ p = overlay_prefix_of id +:+ path)); [by right|]);
    rewrite lookup_insert_ne by done; by left.
Qed.

Lemma quietly_upload_files u id entries :
  parse_uuid id = Some u -> quietly (upload_files clock sha256_hex b64_decode u id entries).
Proof using parse_uuid_ok.
  intros Hu. induction entries as [|e entries IH]; simpl; [apply quietly_ret|].
  apply quietly_bind; [by apply quietly_upload_file|]. intros p.
  apply quietly_bind; [done|]. intros ps. apply quietly_ret.
Qed.

Lemma quietly_upload ok id files deleted :
  quietly (upload_workspace_files_handler clock parse_uuid sha256_hex iter_order b64_decode values ok id files deleted).
Proof using parse_uuid_ok.
  unfold upload_workspace_files_handler. do 4 (apply quietly_bind; [quietly|intros _]).
  apply quietly_find_bind. intros meta Hu. apply quietly_bind; [by apply quietly_upload_files|]. quietly.
Qed.

Lemma quietly_diff_entry u id current acc f :
  parse_uuid id = Some u -> quietly (diff_entry clock sha256_hex u id current acc f).
Proof using parse_uuid_ok.
  intros Hu. destruct f as [path c]. unfold diff_entry.
  assert (Hst : forall kind acc s, file_event_for u path kind ->
    quiet s ((_ ← put_file (overlay_prefix_of id +:+ path) c; _ ← put_file (blob_key (sha256_hex c)) c;
      _ ← append_stored clock kind;
      mret (mkCounts (uc_added acc) (uc_modified acc) (uc_unchanged acc) (uc_paths acc ++ [path])) : H UploadCounts) s).2).
  { intros kind acc' s Hk. eapply (quiet_upload _ _ u id path kind (clock (sv_ticks s))); try done.
    - intros p. unfold current_at. simpl. by rewrite !lookup_insert_ne by by intros [=].
    - intros id' p. simpl. rewrite (lookup_insert_ne _ (blob_key _)) by by intros [=].
      destruct (decide (overlay_prefix_of id' +:+ p = overlay_prefix_of id +:+ path)); [by right|].
      rewrite lookup_insert_ne by done. by left. }
  destruct (current !! path) as [h|]; [destruct (String.eqb h _); [apply quietly_ret|]|];
    intros s; by apply Hst.
Qed.

Lemma quietly_diff_entries u id current files acc :
  parse_uuid id = Some u -> quietly (diff_entries clock sha256_hex u id current files acc).
Proof using parse_uuid_ok.
  intros Hu. revert acc; induction files as [|f files IH]; intros acc; simpl; [apply quietly_ret|].
  apply quietly_bind; [by apply quietly_diff_entry|done].
Qed.

Lemma quietly_snapshot ok id destructive body :
  quietly (upload_snapshot_handler clock parse_uuid sha256_hex iter_order unpack parse_manifest ok id destructive body).
Proof using parse_uuid_ok.
  unfold upload_snapshot_handler. apply quietly_bind; [quietly|intros _]. case_match; [apply quietly_fail|].
  apply quietly_find_bind. intros meta Hu. case_match; [|apply quietly_fail].
  apply quietly_bind; [quietly|]. intros raw. apply quietly_bind; [quietly|]. intros manifest.
  apply quietly_bind; [quietly|]. intros s.
  apply quietly_bind; [by apply quietly_diff_entries|]. quietly.
Qed.

(** ** Submissions *)

Hypothesis read_dir_ok : dir_ok read_dir.

Lemma server_apart id x y :
  overlay_prefix_of id +:+ x <> "current/" +:+ y /\ overlay_prefix_of id +:+ x <> "versions/" +:+ y /\
  "current/" +:+ x <> "versions/" +:+ y.
Proof using. split_and!; by intros [=]. Qed.

Abbreviation tmpdir := (setup_tmpdir_for_s3_submit clock).

Lemma tmpdir_active meta hd s : id_ok (ws_id meta) -> active (tmpdir meta hd s) = (Ok meta, tmpdir meta hd s).
Proof using.
  intros [Ht Hne]. unfold active, read_active, Workspace.get, read_meta, mbind, M_bind, get_st. simpl. rewrite Ht.
  rewrite (proj2 (String.eqb_neq _ _) Hne). unfold setup_tmpdir_for_s3_submit.
  cbn [workspaces]. rewrite lookup_singleton_eq. cbn [workspaces]. by rewrite lookup_singleton_eq.
Qed.

Lemma tmpdir_next_version meta hd s :
  (version_num hd + 1 < u64_bound)%N ->
  next_version_id read_dir (tmpdir meta hd s) = "v" +:+ print_u64 (version_num hd + 1).
Proof using read_dir_ok.
  intros Hb. unfold next_version_id, list_versions. simpl.
  set (stub := mkVersion _ _ _ _ _ _). pose proof (read_dir_ok {[hd := stub]}) as Hp.
  rewrite map_to_list_singleton in Hp. apply Permutation_singleton_r in Hp. rewrite Hp. simpl.
  fold (version_num hd). rewrite N.max_0_r, N.mod_small; [done|exact Hb].
Qed.

(** The project changed only at files of the overlay and deletions. *)
Record merged_store (meta : WorkspaceMeta) (id : string) (s s' : ServerRepo) : Prop := {
  mg_events : sv_events s' = sv_events s;
  mg_versions : sv_versions s' = sv_versions s;
  mg_head : sv_head s' = sv_head s;
  mg_workspaces : sv_workspaces s' = sv_workspaces s;
  mg_changed p : current_at s' p <> current_at s p ->
    is_Some (sv_files s !! (overlay_prefix_of id +:+ p)) \/ p ∈ ws_deleted_paths meta;
  mg_outside q : outside "current/" q -> sv_files s' !! q = sv_files s !! q
}.

Abbreviation submission := (run_submit clock uuid sha256_hex iter_order read_dir parse_rust_source parse_source_file).

(** A submission succeeds, or leaves the store. *)
Lemma run_submit_cases meta id hd s o s' :
  id_ok (ws_id meta) -> (version_num hd + 1 < u64_bound)%N -> submission meta id hd s = (o, s') ->
  (exists r, o = Ok (Ok r) /\ version_id (sr_version r) = "v" +:+ print_u64 (version_num hd + 1) /\
     merged_store meta id s s') \/
  (forall r, o <> Ok (Ok r)) /\ sv_files s' = sv_files s /\ sv_events s' = sv_events s /\ quiet s s'.
Proof using read_dir_ok.
  intros Hid Hb. unfold run_submit.
  set (fs0 := new_s3 (sv_files s) false). set (v0 := tmpdir meta hd s).
  destruct (submit_with_fs _ _ _ _ _ _ _ _ _ _) as [res [v fs]] eqn:E.
  destruct res as [r|e|]; [|intros [= <- <-]; right; split_and!; [done..|by apply quiet_core]..].
  set (spec := S3MergeFsSpec (overlay_prefix_of id) "current/" (server_apart id)).
  set (touched := fun p => is_Some (@fs_lookup S3 _ spec fs0 (okey p)) \/ p ∈ ws_deleted_paths meta).
  edestruct (@eff_submit S3 _ spec clock uuid read_dir parse_rust_source parse_source_file sha256_hex iter_order
    (@fs_lookup S3 _ spec fs0) touched (fun fs => forall q, outside "current/" q -> s3_at fs q = s3_at fs0 q))
    as [(Hwf & Hout & _ & Hb') Hr]; [apply s3_keeps_outside|by left| | | | |exact E|].
  { apply Forall_forall. by right. }
  { by apply tmpdir_active. }
  { eexists. apply lookup_singleton_eq. }
  { split_and!; [apply new_s3_wf|done..]. }
  pose proof (s3_flush_spec fs Hwf) as Hfl. destruct (s3_flush fs) as [fl fs'].
  destruct Hfl as (-> & _ & _ & Hst & _). intros [= <- <-]. left. exists r.
  assert (Hnew : forall q, s3_at fs0 q = sv_files s !! q).
  { intros q. unfold s3_at, fs0. simpl. by rewrite lookup_empty. }
  assert (Hlk : forall fs'' k p, s3_path (overlay_prefix_of id) "current/" k = Ok p ->
    @fs_lookup S3 _ spec fs'' k = s3_at fs'' p).
  { intros fs'' k p Hk. simpl. unfold s3_lookup. by rewrite Hk. }
  split_and!; [done|rewrite (an_id _ _ _ Hr); by apply tmpdir_next_version|].
  constructor; try done; simpl.
  - intros p Hp. unfold current_at in Hp. simpl in Hp. rewrite Hst in Hp.
    assert (Ho : s3_path (overlay_prefix_of id) "current/" (okey p) = Ok (overlay_prefix_of id +:+ p)).
    { apply s3_path_cases. left. eauto. }
    destruct (decide (p ∈ ws_deleted_paths meta)) as [|Hd]; [by right|left].
    destruct (sv_files s !! (overlay_prefix_of id +:+ p)) as [c|] eqn:Eo; [by eexists|exfalso].
    apply Hp. specialize (Hb' p). unfold touched in Hb'.
    rewrite (Hlk _ _ _ Ho), !(Hlk _ _ _ (path_base _ _ p)), !Hnew, Eo in Hb'. apply Hb'. by intros [[c [=]]|].
  - intros q Hq. by rewrite Hst, Hout, Hnew.
Qed.


(** A step that makes a version: the next one, with the event of the merge, whose
    workspace has an event for each path that changed. *)
Record merges (w : Uuid) (s s' : ServerRepo) : Prop := {
  ms_grows : exists l, sv_events s' = sv_events s ++ l;
  ms_log_ok : log_ok (sv_events s) -> log_ok (sv_events s');
  ms_version : exists v e, sv_versions s' = sv_versions s ++ [v] /\
    version_num (version_id v) = (head_num s + 1)%N /\ sv_head s' = Some (version_id v) /\
    merge_event_id v = Some (ev_id e) /\ e ∈ sv_events s' /\ event_type (ev_kind e) = "MergeCompleted"%string /\
    event_workspace_id (ev_kind e) = Some w /\
    (forall p, current_at s' p <> current_at s p -> logged w p (sv_events s'));
  ms_overlay id u p : parse_uuid id = Some u -> is_Some (sv_files s' !! (overlay_prefix_of id +:+ p)) ->
    is_Some (sv_files s !! (overlay_prefix_of id +:+ p)) \/ logged u p (sv_events s');
  ms_head : sv_head s' = Some ("v" +:+ print_u64 (head_num s + 1))
}.

Definition log_removal (w : Uuid) (p : string) : H unit := _ ← append_stored clock (FileRemoved w p); mret tt.

Lemma log_removals w paths s :
  let s' := (for_each (log_removal w) paths s).2 in
  (exists s'', for_each (log_removal w) paths s = (Ok tt, s'')) /\ quiet s s' /\ sv_files s' = sv_files s /\
  forall p, p ∈ paths -> logged w p (sv_events s').
Proof using.
  revert s; induction paths as [|q paths IH]; intros s.
  { simpl. split_and!; [by eexists|apply quiet_refl|done|by intros p ?%not_elem_of_nil]. }
  set (s1 := (append_stored clock (FileRemoved w q) s).2).
  destruct (IH s1) as ([s2 E] & Q & Ef & Hl). change (for_each _ (q :: paths) s) with (for_each (log_removal w) paths s1).
  rewrite E in *. cbv zeta. split_and!; [by eexists| |done|].
  - eapply quiet_trans; [apply (quietly_append (FileRemoved w q))|exact Q].
  - intros p [->|Hp]%elem_of_cons; [|by apply Hl].
    destruct (q_grows _ _ Q) as [l El]. rewrite El. apply logged_grows.
    eexists. split; [apply elem_of_app; right; by left|done].
Qed.

Lemma version_num_print n : (n < u64_bound)%N -> version_num ("v" +:+ print_u64 n) = n.
Proof using. apply parse_version_print. Qed.

(** What follows the version in [record_merge]. *)
Lemma quietly_after_version w id summary :
  quietly (_ ← best_effort (update_workspace clock w (Some WsMerged) None None);
           _ ← append_stored clock (WorkspaceSubmitted w summary); broadcast "WorkspaceSubmitted" (Some id)).
Proof using. quietly. Qed.

Lemma fresh_version s v :
  server_wf s -> version_num (version_id v) = (head_num s + 1)%N ->
  existsb (fun x => String.eqb (version_id x) (version_id v)) (sv_versions s) = false.
Proof using.
  intros Hwf Hv. apply not_true_is_false. intros (x & Hx & E)%existsb_exists.
  apply String.eqb_eq in E. apply list_elem_of_In in Hx. pose proof (sw_versions _ Hwf x Hx) as Hle.
  rewrite E, Hv in Hle. lia.
Qed.

Lemma record_merge_merges meta id r s s1 :
  parse_uuid id = Some (ws_id meta) -> server_wf s -> (head_num s + 1 < u64_bound)%N ->
  merged_store meta id s s1 -> version_id (sr_version r) = "v" +:+ print_u64 (head_num s + 1) ->
  merges (ws_id meta) s (record_merge clock meta id r s1).2.
Proof using parse_uuid_ok.
  intros Hu Hwf Hb [Ee Ev Eh Ew Hch Hout] Hid.
  set (w := ws_id meta). set (kind := MergeCompleted w (version_id (sr_version r)) (N.of_nat (auto_resolved r))).
  set (a := set_engine (remove_workspace (sv_engine s1) w) s1).
  set (e := mkEvent (next_id (sv_events s1)) (clock (sv_ticks s1)) kind).
  set (b := (append_stored clock kind a).2).
  destruct (log_removals w (ws_deleted_paths meta) b) as ([c Ec] & Qc & Efc & Hrem). rewrite Ec in *. simpl in Qc, Efc, Hrem.
  set (vm := mkVersion (version_id (sr_version r)) (parent_version_id (sr_version r)) (v_intent (sr_version r))
    (created_by (sr_version r)) (clock (sv_ticks c)) (Some (ev_id e))).
  assert (Hnum : version_num (version_id vm) = (head_num s + 1)%N) by (simpl; by rewrite Hid, version_num_print).
  set (d := mkServer (sv_files c) (sv_events c) (sv_versions c ++ [vm]) (Some (version_id vm)) (sv_workspaces c)
    (sv_issues c) (sv_escalations c) (sv_engine c) (sv_broadcasts c) (sv_draws c) (S (sv_ticks c))).
  assert (Hrun : exists summary, (record_merge clock meta id r s1).2 =
    ((_ ← best_effort (update_workspace clock w (Some WsMerged) None None);
      _ ← append_stored clock (WorkspaceSubmitted w summary); broadcast "WorkspaceSubmitted" (Some id)) d).2).
  { eexists. unfold record_merge.
    rewrite (M_bind_ok _ _ s1 tt a) by done.
    rewrite (M_bind_ok _ _ a e b) by done.
    rewrite (M_bind_ok _ _ b tt c) by exact Ec.
    rewrite (M_bind_ok _ _ c (clock (sv_ticks c)) (set_streams (sv_draws c) (S (sv_ticks c)) c)) by done.
    erewrite (M_bind_ok (best_effort _) _ _ tt).
    2:{ unfold best_effort, insert_version. change (sv_versions (set_streams _ _ c)) with (sv_versions c).
        replace (existsb _ _) with false; [reflexivity|]. symmetry.
        rewrite (q_versions _ _ Qc). change (sv_versions b) with (sv_versions s1). rewrite Ev.
        by apply (fresh_version s vm). }
    rewrite (M_bind_ok _ _ _ tt d) by done. reflexivity. }
  destruct Hrun as [summary ->]. pose proof (quietly_after_version w id summary d) as Q.
  set (g := (_ d).2) in *. clearbody g.
  destruct (q_grows _ _ Qc) as [lc Elc]. destruct (q_grows _ _ Q) as [lg Elg].
  change (sv_events b) with (sv_events s1 ++ [e]) in Elc. change (sv_events d) with (sv_events c) in Elg.
  assert (Hcur : forall p, current_at g p = current_at s1 p).
  { intros p. rewrite (q_current _ _ Q). change (current_at d p) with (current_at c p). by rewrite (q_current _ _ Qc). }
  constructor.
  - rewrite Elg, Elc, Ee, <-!app_assoc. by eexists.
  - intros Hl. apply (q_log _ _ Q). change (sv_events d) with (sv_events c). apply (q_log _ _ Qc).
    apply (log_ok_append (clock (sv_ticks s1)) kind). change (log_ok (sv_events s1)). by rewrite Ee.
  - exists vm, e. split_and!; [|done| |done| |done|done|].
    + rewrite (q_versions _ _ Q). simpl. rewrite (q_versions _ _ Qc). change (sv_versions b) with (sv_versions s1).
      by rewrite Ev.
    + by rewrite (q_head _ _ Q).
    + rewrite Elg, Elc, !elem_of_app. left; left; right. by left.
    + intros p Hp. rewrite Hcur in Hp. rewrite Elg. apply logged_grows.
      destruct (Hch p Hp) as [Ho|Hd]; [|by apply Hrem].
      rewrite Elc, Ee, <-app_assoc. apply logged_grows. by apply (sw_overlay _ Hwf id).
  - intros id' u p Hu' Hp. destruct (q_overlay _ _ Q id' u p Hu' Hp) as [Hp'|]; [|by right].
    change (sv_files d) with (sv_files c) in Hp'. rewrite Efc in Hp'. change (sv_files b) with (sv_files s1) in Hp'.
    left. rewrite <-Hout; [done|]. intros x. split; by intros [=].
  - rewrite (q_head _ _ Q). simpl. by rewrite Hid.
Qed.

Lemma merges_quiet w s s1 s2 : merges w s s1 -> quiet s1 s2 -> merges w s s2.
Proof using.
  intros [[l1 G1] L1 (v & e & V1 & N1 & H1 & I1 & E1 & T1 & W1 & C1) O1 Hd1] [[l2 G2] L2 V2 H2 C2 O2 _].
  constructor; [exists (l1 ++ l2); by rewrite G2, G1, app_assoc|auto| | |congruence].
  - exists v, e. split_and!; [congruence|done|congruence|done| |done..|].
    + rewrite G2. apply elem_of_app. by left.
    + intros p. rewrite C2, G2. intros Hp. by apply logged_grows, C1.
  - intros id u p Hu Hp. destruct (O2 id u p Hu Hp) as [Hp1|]; [|by right].
    destruct (O1 id u p Hu Hp1) as [|Hl]; [by left|right]. rewrite G2. by apply logged_grows.
Qed.

Lemma quiet_wf s s' : server_wf s -> quiet s s' -> server_wf s'.
Proof using.
  intros [Wl Wv Wo Wb] [[l G] L V Hd C O B]. assert (Hn : head_num s' = head_num s) by (unfold head_num; by rewrite Hd).
  constructor.
  - auto.
  - intros v. rewrite V, Hn. apply Wv.
  - intros id u p Hu Hp. destruct (O id u p Hu Hp) as [Hp'|]; [|done]. rewrite G. apply logged_grows. by apply (Wo id).
  - intros w. rewrite Hd. intros Hnone [(w0 & Hw0 & <-)|Hw]%B; [by apply Wb|]. rewrite Hw, Hnone. done.
Qed.

Lemma merges_wf w s s' : server_wf s -> merges w s s' -> server_wf s'.
Proof using.
  intros [Wl Wv Wo Wb] [[l G] L (v & e & V & N & Hd & _) O].
  assert (Hn : head_num s' = (head_num s + 1)%N) by (unfold head_num at 1; by rewrite Hd).
  constructor; [auto| | |by intros x; rewrite Hd].
  - intros x. rewrite V, Hn. intros [Hx| ->%list_elem_of_singleton]%elem_of_app; [|lia]. specialize (Wv x Hx). lia.
  - intros id u p Hu Hp. destruct (O id u p Hu Hp) as [Hp'|]; [|done]. rewrite G. apply logged_grows. by apply (Wo id).
Qed.

Lemma submit_step ok id s :
  server_wf s -> (head_num s + 1 < u64_bound)%N ->
  let s' := (submit_workspace_handler clock uuid parse_uuid sha256_hex iter_order read_dir parse_rust_source
               parse_source_file ok id s).2 in
  quiet s s' \/ exists w, parse_uuid id = Some w /\ merges w s s'.
Proof using parse_uuid_ok read_dir_ok.
  intros Hwf Hb. unfold submit_workspace_handler. destruct ok; [|left; apply quiet_refl].
  rewrite (M_bind_ok (check true) _ s tt s) by done.
  pose proof (quietly_find_workspace id s) as Hq.
  destruct (find_workspace parse_uuid id s) as [[meta|e|] s0] eqn:Ef;
    [|left; rewrite (M_bind_err _ _ _ _ _ Ef); exact Hq|left; rewrite (M_bind_panic _ _ _ _ Ef); exact Hq].
  rewrite (M_bind_ok _ _ _ _ _ Ef). clear Hq. apply find_workspace_ok in Ef as (-> & Hu & Hin).
  rewrite (M_bind_ok get_st _ s s s) by done.
  destruct (bool_decide _).
  { left. apply (quietly_bind (cascade_workspace_teardown clock (ws_id meta) _)); [apply quietly_cascade|].
    intros; apply quietly_fail. }
  assert (Hnum : version_num (default (base_version meta) (sv_head s)) = head_num s).
  { unfold head_num. destruct (sv_head s) as [h|] eqn:Eh; [done|]. simpl. by apply (sw_base _ Hwf). }
  destruct (submission meta id (default (base_version meta) (sv_head s)) s) as [o s1] eqn:Es.
  pose proof Es as Erun. apply run_submit_cases in Es as [(r & -> & Hid & Hm)|(Ho & _ & _ & Hq)]; [| |by apply (parse_uuid_ok _ _ Hu)|by rewrite Hnum].
  - right. exists (ws_id meta). split; [done|]. rewrite Hnum in Hid. pose proof (record_merge_merges meta id r s s1 Hu Hwf Hb Hm Hid) as Hr.
    rewrite (M_bind_ok _ _ _ _ _ Erun).
    unfold mbind, M_bind. by destruct (record_merge clock meta id r s1) as [[[]| |] s2].
  - left. destruct o as [[r|e|]|e|]; [by destruct (Ho r)| | | |];
      [|by rewrite (M_bind_ok _ _ _ _ _ Erun)|by rewrite (M_bind_err _ _ _ _ _ Erun)|
        by rewrite (M_bind_panic _ _ _ _ Erun)].
    rewrite (M_bind_ok _ _ _ _ _ Erun). destruct e; try done. eapply quiet_trans; [exact Hq|].
    apply (quietly_bind (escalate clock uuid iter_order meta id _ _)); [apply quietly_escalate|].
    intros; apply quietly_fail.
Qed.

(** Every request is quiet or merges. *)
Lemma handle_step r s :
  server_wf s -> (head_num s + 1 < u64_bound)%N -> quiet s (handle r s).2 \/ exists w, merges w s (handle r s).2.
Proof using parse_uuid_ok read_dir_ok.
  intros Hwf Hb.
  assert (Hdrop : forall A (m : H A), (_ ← m; mret tt : H unit) s = (match (m s).1 with Ok _ => Ok tt | Err e => Err e | Panic => Panic end, (m s).2)).
  { intros A m. unfold mbind, M_bind. by destruct (m s) as [[]]. }
  destruct r; simpl; rewrite ?Hdrop; simpl.
  - left. apply quietly_create.
  - left. apply quietly_discard.
  - left. apply quietly_upload.
  - left. apply quietly_snapshot.
  - destruct (submit_step allowed id s Hwf Hb) as [|(w & _ & ?)]; [by left|right; by exists w].
Qed.

(** ** Histories *)

(** Between two states, each path whose content differs belongs to a workspace
    that a version after the first state merged. *)
Record history (s0 s : ServerRepo) : Prop := {
  hs_grows : exists l, sv_events s = sv_events s0 ++ l;
  hs_head : (head_num s0 <= head_num s)%N;
  hs_changed p : current_at s p <> current_at s0 p -> exists v e w,
    v ∈ sv_versions s /\ (head_num s0 < version_num (version_id v))%N /\ merge_event_id v = Some (ev_id e) /\
    e ∈ sv_events s /\ event_type (ev_kind e) = "MergeCompleted"%string /\
    event_workspace_id (ev_kind e) = Some w /\ logged w p (sv_events s)
}.

Lemma history_refl s : history s s.
Proof using. constructor; [exists []; by rewrite app_nil_r|lia|done]. Qed.

Lemma history_quiet s0 s s' : history s0 s -> quiet s s' -> history s0 s'.
Proof using.
  intros [[l G] Hh Hc] [[l' G'] _ V Hd C _ _]. assert (Hn : head_num s' = head_num s) by (unfold head_num; by rewrite Hd).
  constructor; [exists (l ++ l'); by rewrite G', G, app_assoc|by rewrite Hn|].
  intros p. rewrite C. intros (v & e & w & Hv & Hlt & Hm & He & Ht & Hw & Hl)%Hc. exists v, e, w.
  rewrite V, G'. split_and!; try done; [apply elem_of_app; by left|by apply logged_grows].
Qed.

Lemma history_merges w s0 s s' : history s0 s -> merges w s s' -> history s0 s'.
Proof using.
  intros [[l G] Hh Hc] [[l' G'] _ (v & e & V & N & Hd & I & E & T & W & C) _].
  assert (Hn : head_num s' = (head_num s + 1)%N) by (unfold head_num at 1; by rewrite Hd).
  constructor; [exists (l ++ l'); by rewrite G', G, app_assoc|rewrite Hn; lia|].
  intros p Hp. destruct (decide (current_at s' p = current_at s p)) as [Ep|Hne].
  - rewrite Ep in Hp. destruct (Hc p Hp) as (v0 & e0 & w0 & Hv & Hlt & Hm & He & Ht & Hw & Hl). exists v0, e0, w0.
    rewrite V, G'. split_and!; try done; [apply elem_of_app; by left|apply elem_of_app; by left|by apply logged_grows].
  - exists v, e, w. rewrite V. split_and!; [apply elem_of_app; right; by left|lia|done..|by apply C].
Qed.

Lemma serve_history rs s0 :
  server_wf s0 -> (head_num s0 + N.of_nat (length rs) < u64_bound)%N ->
  let s := serve rs s0 in
  server_wf s /\ history s0 s /\ (head_num s <= head_num s0 + N.of_nat (length rs))%N.
Proof using parse_uuid_ok read_dir_ok.
  intros Hwf. unfold serve. induction rs as [|r rs IH] using rev_ind; intros Hb.
  { simpl. split_and!; [done|apply history_refl|lia]. }
  rewrite length_app in *. simpl in Hb. rewrite foldl_app. simpl.
  destruct IH as (Hwf' & Hh & Hle); [lia|]. set (s := foldl _ s0 rs) in *.
  destruct (handle_step r s Hwf') as [Q|[w Mg]]; [lia| |].
  - split_and!; [by eapply quiet_wf|by eapply history_quiet|]. unfold head_num at 1. rewrite (q_head _ _ Q).
    fold (head_num s). lia.
  - split_and!; [by eapply merges_wf|by eapply history_merges|].
    destruct (ms_version _ _ _ Mg) as (v & e & _ & Hv & Hd & _). unfold head_num at 1. rewrite Hd. simpl. lia.
Qed.

(** ** The answer of the pull endpoint *)

Hypothesis iter_perm : forall X, iter_order X ≡ₚ elements X.

Lemma iter_map_elem {A} (m : gmap string A) k x : (k, x) ∈ iter_map iter_order m <-> m !! k = Some x.
Proof using iter_perm.
  unfold iter_map. rewrite list_elem_of_omap. setoid_rewrite iter_perm. setoid_rewrite elem_of_elements. split.
  - intros (k' & _ & E). destruct (m !! k') eqn:Em; [|done]. by injection E as -> ->.
  - intros E. exists k. rewrite elem_of_dom, E. by split.
Qed.

Lemma iter_map_keys {A} (m : gmap string A) : (iter_map iter_order m).*1 = iter_order (dom m).
Proof using iter_perm.
  unfold iter_map.
  assert (Hd : Forall (fun k => is_Some (m !! k)) (iter_order (dom m))).
  { apply Forall_forall. intros k. rewrite iter_perm, elem_of_elements. apply elem_of_dom. }
  induction (iter_order (dom m)) as [|k l IH]; [done|]. apply Forall_cons in Hd as [[x Hx] Hd]. simpl. rewrite Hx.
  simpl. f_equal. by apply IH.
Qed.

Lemma iter_map_NoDup {A} (m : gmap string A) : NoDup (iter_map iter_order m).*1.
Proof using iter_perm. rewrite iter_map_keys, iter_perm. apply NoDup_elements. Qed.

Definition file_path_of (k : EventKind) : option string :=
  match k with FileAdded _ p _ | FileModified _ p _ _ | FileRemoved _ p => Some p | _ => None end.

Lemma change_state_dom m e p :
  is_Some (change_state m e !! p) <-> is_Some (m !! p) \/ file_path_of (ev_kind e) = Some p.
Proof using.
  unfold change_state, file_path_of.
  destruct (ev_kind e); try (split; [by left|by intros [|[=]]]);
    rewrite lookup_insert_is_Some'; (split; [intros [->|]; auto|intros [|[= ->]]; auto]).
Qed.

Lemma changes_dom l p :
  is_Some (foldl change_state ∅ l !! p) <-> exists e, e ∈ l /\ file_path_of (ev_kind e) = Some p.
Proof using.
  induction l as [|e l IH] using rev_ind; simpl.
  - rewrite lookup_empty. split; [by intros []|]. by intros (e & ?%not_elem_of_nil & _).
  - rewrite foldl_app. simpl. rewrite change_state_dom, IH. setoid_rewrite elem_of_app.
    setoid_rewrite list_elem_of_singleton. split.
    + intros [(x & Hx & Ex)|Ex]; [exists x; auto|exists e; auto].
    + intros (x & [Hx| ->] & Ex); [left; eauto|by right].
Qed.

Lemma log_wf_NoDup l : log_wf l -> NoDup (ev_id <$> l).
Proof using.
  unfold log_wf. generalize (ev_id <$> l). clear l. induction l as [|x l IH]; [constructor|].
  intros [Hs Hx]%StronglySorted_inv. constructor; [|by apply IH].
  intros Hin. rewrite Forall_forall in Hx. specialize (Hx x Hin). lia.
Qed.

(** The events of a merged workspace are found through its version. *)
Lemma merged_workspace_found s vs v e w :
  log_ok (sv_events s) -> v ∈ vs -> merge_event_id v = Some (ev_id e) -> e ∈ sv_events s ->
  event_type (ev_kind e) = "MergeCompleted"%string -> event_workspace_id (ev_kind e) = Some w ->
  w ∈ merged_workspaces vs s.
Proof using.
  intros [Hwf _] Hv Hm He Ht Hw. unfold merged_workspaces. apply list_elem_of_omap. exists v. split; [done|].
  rewrite Hm. simpl.
  assert (find_by ev_id (ev_id e) (query_by_type (sv_events s) "MergeCompleted") = Some e) as ->; [|done].
  apply find_by_elem; [apply filter_keys_NoDup, log_wf_NoDup, Hwf| |done].
  apply list_elem_of_filter. by split.
Qed.

Lemma logged_reported s ws w p :
  log_ok (sv_events s) -> w ∈ ws -> logged w p (sv_events s) ->
  is_Some (foldl change_state ∅ (file_events_of ws s) !! p).
Proof using.
  intros [_ Hpos] Hw (e & He & Hk). rewrite Forall_forall in Hpos. apply changes_dom. exists e.
  assert (event_workspace_id (ev_kind e) = Some w /\ file_path_of (ev_kind e) = Some p /\
    event_type (ev_kind e) ∈ ["FileAdded"; "FileModified"; "FileRemoved"]%string) as (Ew & Ep & Et).
  { destruct (ev_kind e); try done; destruct Hk as [-> ->]; (split_and!; [done..|]).
    - by left.
    - right; by left.
    - right; right; by left. }
  split; [|done]. apply list_elem_of_filter. split; [|done]. split_and!; [by apply Hpos|done|right].
  rewrite Ew. by apply list_elem_of_fmap_2.
Qed.

Lemma pull_entries_spec s changes p :
  let files := sort_by (fun a b => String.leb (pe_path a) (pe_path b))
                 (pull_entry b64_encode s <$> iter_map iter_order changes) in
  NoDup (pe_path <$> files) /\
  find_by pe_path p files = (fun c => pull_entry b64_encode s (p, c)) <$> (changes !! p).
Proof using iter_perm.
  intros files.
  assert (Hperm : files ≡ₚ pull_entry b64_encode s <$> iter_map iter_order changes) by apply sort_by_perm.
  assert (Hnd : NoDup (pe_path <$> files)).
  { rewrite Hperm, <-list_fmap_compose. apply iter_map_NoDup. }
  split; [done|]. destruct (changes !! p) as [c|] eqn:Ec; simpl.
  - apply find_by_elem; [done| |done]. rewrite Hperm. apply list_elem_of_fmap. exists (p, c).
    by rewrite iter_map_elem.
  - apply find_by_None. rewrite Hperm, <-list_fmap_compose. intros ([q c] & -> & Hin)%list_elem_of_fmap.
    apply iter_map_elem in Hin. simpl in Ec. congruence.
Qed.

Lemma pull_covers rs s0 since :
  server_wf s0 -> (head_num s0 + N.of_nat (length rs) < u64_bound)%N -> version_num since = head_num s0 ->
  let s := serve rs s0 in
  exists resp, files_pull_handler iter_order b64_encode true since s = (Ok resp, s) /\
    pr_head_version resp = default "unknown"%string (sv_head s) /\ NoDup (pe_path <$> pr_files resp) /\
    forall p, match find_by pe_path p (pr_files resp) with
              | None => current_at s p = current_at s0 p
              | Some e => pe_content_base64 e = match pe_change_type e with
                                                | FctRemoved => None
                                                | _ => b64_encode <$> current_at s p
                                                end
              end.
Proof using parse_uuid_ok read_dir_ok iter_perm.
  intros Hwf0 Hb Hs s. destruct (serve_history rs s0 Hwf0 Hb) as (Hwf & Hh & _). fold s in Hwf, Hh.
  assert (Hsame : forall p, (forall v e w, v ∈ sv_versions s -> (head_num s0 < version_num (version_id v))%N ->
    merge_event_id v = Some (ev_id e) -> e ∈ sv_events s -> event_type (ev_kind e) = "MergeCompleted"%string ->
    event_workspace_id (ev_kind e) = Some w -> logged w p (sv_events s) -> False) -> current_at s p = current_at s0 p).
  { intros p Hno. destruct (decide (current_at s p = current_at s0 p)) as [|Hne]; [done|exfalso].
    destruct (hs_changed _ _ Hh p Hne) as (v & e & w & H1 & H2 & H3 & H4 & H5 & H6 & H7).
    exact (Hno v e w H1 H2 H3 H4 H5 H6 H7). }
  unfold files_pull_handler. rewrite (M_bind_ok (check true) _ s tt s), (M_bind_ok get_st _ s s s) by done.
  rewrite Hs. fold (head_num s). destruct (N.leb_spec (head_num s) (head_num s0)) as [Hle|Hlt].
  { eexists. split_and!; [done..|constructor|]. intros p. simpl. apply Hsame. intros v e w Hv Hn _ _ _ _ _.
    pose proof (sw_versions _ Hwf v Hv). lia. }
  set (vs := list_versions_since (head_num s0) (head_num s) s).
  assert (Hvs : forall v, v ∈ sv_versions s -> (head_num s0 < version_num (version_id v))%N -> v ∈ vs).
  { intros v Hv Hn. unfold vs, list_versions_since. rewrite sort_by_perm. apply list_elem_of_filter.
    pose proof (sw_versions _ Hwf v Hv). auto. }
  case_bool_decide as Hnone.
  { eexists. split_and!; [done..|constructor|]. intros p. simpl. apply Hsame. intros v e w Hv Hn Hm _ _ _ _.
    assert (Hin : ev_id e ∈ omap merge_event_id vs) by (apply list_elem_of_omap; exists v; auto).
    rewrite Hnone in Hin. by apply not_elem_of_nil in Hin. }
  eexists. split_and!; [reflexivity|done|by apply (pull_entries_spec s _ EmptyString)|].
  intros p. simpl. rewrite (proj2 (pull_entries_spec s _ p)).
  destruct (_ !! p) as [c|] eqn:Ec; simpl; [by destruct c|].
  apply Hsame. intros v e w Hv Hn Hm He Ht Hw Hl.
  destruct (logged_reported s (merged_workspaces vs s) w p (sw_log _ Hwf)) as [c Hc]; [|done|congruence].
  by apply (merged_workspace_found s vs v e w (sw_log _ Hwf)); [apply Hvs|..].
Qed.

(** C16. A pull since the version at which the server was, after any requests whatever
    (creations, uploads, discards and submissions, refused ones included): it
    succeeds and changes nothing; each path is there at most once; a path that is
    not there has the content it had; a path that is there comes with the content
    that the project has now, unless it is said to be removed. *)
Theorem pull_covers_history rs s0 since :
  server_wf s0 -> (head_num s0 + N.of_nat (length rs) < u64_bound)%N -> version_num since = head_num s0 ->
  let s := serve rs s0 in
  exists resp, files_pull_handler iter_order b64_encode true since s = (Ok resp, s) /\
    pr_head_version resp = default "unknown"%string (sv_head s) /\ NoDup (pe_path <$> pr_files resp) /\
    forall p, match find_by pe_path p (pr_files resp) with
              | None => current_at s p = current_at s0 p
              | Some e => pe_content_base64 e = match pe_change_type e with
                                                | FctRemoved => None
                                                | _ => b64_encode <$> current_at s p
                                                end
              end.
Proof using parse_uuid_ok read_dir_ok iter_perm. apply pull_covers. Qed.
End server.

(** ** Witnesses *)

Definition wit_clock (n : nat) : DateTime := Z.of_nat n.
Definition wit_uuid (n : nat) : Uuid := "w" +:+ print_u64 (N.of_nat n).
Definition wit_parse_uuid (s : string) : option Uuid :=
  if negb (has_char "/" s) && bool_decide (trim s = s) && negb (String.eqb s "") then Some s else None.
Definition wit_iter (X : gset string) : list string := elements X.
Definition wit_values (e : Engine) : list WorkspaceScope := (map_to_list e).*2.
Definition wit_dir (t : gmap string VersionMeta) : list VersionMeta := (map_to_list t).*2.
Definition wit_decode (s : string) : option bytes := Some (bytes_of s).
Definition wit_parser (p : string) (c : bytes) : outcome GraphError (list Entity * list Relationship) := Ok ([], []).
Definition wit_unpack (b : bytes) : option (list TarEntry) := Some [mkEntry Regular "./a" b].
Definition wit_manifest (b : bytes) : option DeltaManifest := None.

Lemma wit_parse_uuid_ok id u : wit_parse_uuid id = Some u -> has_char "/" id = false /\ id_ok u.
Proof.
  unfold wit_parse_uuid. destruct (has_char "/" id); [done|]. case_bool_decide as Ht; [|done].
  destruct (String.eqb_spec id ""); [done|]. intros [= <-]. done.
Qed.

Lemma wit_dir_ok : dir_ok wit_dir.
Proof. by intros t. Qed.

(** A project with one file at [v1]. *)
Definition wit_server : ServerRepo :=
  mkServer {["current/a"%string := bytes_of "old"]} [] [mkVersion "v1" None "init" "server" 0 None]
    (Some "v1"%string) [] ∅ [] ∅ [] 0 0.

Lemma wit_server_wf : server_wf wit_parse_uuid wit_server.
Proof.
  constructor; simpl.
  - split; constructor.
  - intros v ->%list_elem_of_singleton. vm_compute. discriminate.
  - intros id u p _ [c Hc]. by apply lookup_singleton_Some in Hc as [[=] _].
  - done.
Qed.

Abbreviation wit_serve := (serve wit_clock wit_uuid wit_parse_uuid string_of wit_iter wit_unpack wit_manifest
  wit_decode wit_values wit_dir wit_parser wit_parser).

Definition wit_requests : list Request :=
  [ReqCreate true "fix"; ReqUpload true "w0" [mkFileUpload "a" "new"; mkFileUpload "b" "x"] [];
   ReqSubmit false "w0"; ReqSubmit true "w0"].

Lemma pull_covers_history_witness :
  exists resp,
    files_pull_handler wit_iter string_of true "v1" (wit_serve wit_requests wit_server)
      = (Ok resp, wit_serve wit_requests wit_server) /\
    pr_head_version resp = "v2"%string /\
    pr_files resp = [mkPullEntry "a" FctModified (Some "new"%string); mkPullEntry "b" FctAdded (Some "x"%string)].
Proof.
  destruct (pull_covers_history wit_clock wit_uuid wit_parse_uuid string_of wit_iter wit_unpack wit_manifest
    string_of wit_decode wit_values wit_dir wit_parser wit_parser wit_parse_uuid_ok wit_dir_ok
    (fun X => Permutation_refl _) wit_requests wit_server "v1" wit_server_wf) as (resp & E & Hh & _ & _).
  - vm_compute. reflexivity.
  - vm_compute. reflexivity.
  - exists resp. split; [exact E|]. vm_compute in E. injection E as <-. split; reflexivity.
Defined.

(** Two workspaces add the same path; the first drops it again and is merged
    while the second has uploaded it but is not merged yet. *)
Definition wit_crossing : list Request :=
  [ReqCreate true "one"; ReqCreate true "two";
   ReqUpload true "w0" [mkFileUpload "b" "draft"; mkFileUpload "c" "kept"] []; ReqUpload true "w0" [] ["b"%string];
   ReqUpload true "w1" [mkFileUpload "b" "final"] [];
   ReqSubmit true "w0"; ReqSubmit true "w1"].

(** The events are replayed in the order in which they were recorded, not in that
    of the merges: the file is in the project at HEAD, and the pull endpoint says
    that it was removed. *)
Theorem pull_removes_present_file :
  let s := wit_serve wit_crossing wit_server in
  current_at s "b" = Some (bytes_of "final") /\ sv_head s = Some "v3"%string /\
  exists resp, files_pull_handler wit_iter string_of true "v1" s = (Ok resp, s) /\
    mkPullEntry "b" FctRemoved None ∈ pr_files resp.
Proof.
  intros s. split_and!; [vm_compute; reflexivity..|].
  destruct (files_pull_handler wit_iter string_of true "v1" s) as [o s'] eqn:E.
  vm_compute in E. injection E as <- <-. eexists. split; [reflexivity|]. by left.
Qed.
