(* ===== verification/ServerUpload.v ===== *)
(** From a snapshot to the project: a client uploads the files it has as an archive,
    submits the workspace, and the project is what the archive holds. *)
From S2P Require Import Prelude Table RustStr TextMerge Graph EventLog MergeEngine MergeFs VaiDir Workspace Version Diff Submit SubmitFrame Conflict Escalation Issue ServerRepo ServerPull.

Section upload.
Variable clock : nat -> DateTime.
Variable sha256_hex : bytes -> string.

Abbreviation H := (M ServerRepo HttpError).

Definition overlay_at (id : string) (s : ServerRepo) (p : string) : option bytes :=
  sv_files s !! (overlay_prefix_of id +:+ p).

(** What an upload does not touch. *)
Record uploaded (s s' : ServerRepo) : Prop := {
  up_head : sv_head s' = sv_head s;
  up_issues : sv_issues s' = sv_issues s;
  up_workspaces : sv_workspaces s' = sv_workspaces s;
  up_current p : current_at s' p = current_at s p
}.

Lemma uploaded_refl s : uploaded s s.
Proof. by constructor. Qed.

Lemma uploaded_trans s1 s2 s3 : uploaded s1 s2 -> uploaded s2 s3 -> uploaded s1 s3.
Proof. intros [A1 A2 A3 A4] [B1 B2 B3 B4]. constructor; [congruence..|]. intros p. by rewrite B4. Qed.

(** The file events in between add or modify one of the paths. *)
Definition changes_at (Q : string -> Prop) (e : Event) : Prop :=
  match ev_kind e with
  | FileAdded _ p _ | FileModified _ p _ _ => Q p
  | FileRemoved _ _ => False
  | _ => True
  end.

Definition changes_only (Q : string -> Prop) (s s' : ServerRepo) : Prop :=
  exists l, sv_events s' = sv_events s ++ l /\ Forall (changes_at Q) l.

Lemma changes_only_same Q s s' : sv_events s' = sv_events s -> changes_only Q s s'.
Proof. intros E. exists []. by rewrite app_nil_r. Qed.

Lemma changes_only_one Q s s' e : sv_events s' = sv_events s ++ [e] -> changes_at Q e -> changes_only Q s s'.
Proof. intros E He. exists [e]. split; [done|]. by constructor. Qed.

Lemma changes_only_trans Q s1 s2 s3 : changes_only Q s1 s2 -> changes_only Q s2 s3 -> changes_only Q s1 s3.
Proof.
  intros (l & E & Hl) (l' & E' & Hl'). exists (l ++ l'). split; [by rewrite E', E, app_assoc|]. by apply Forall_app.
Qed.

Lemma changes_only_mono (P Q : string -> Prop) s s' :
  (forall p, P p -> Q p) -> changes_only P s s' -> changes_only Q s s'.
Proof.
  intros Hpq (l & E & Hl). exists l. split; [done|]. eapply Forall_impl; [exact Hl|]. intros e He.
  unfold changes_at in *. destruct (ev_kind e); auto.
Qed.

Lemma diff_entry_ok u id current acc path c s :
  exists acc' s', diff_entry clock sha256_hex u id current acc (path, c) s = (Ok acc', s') /\ uploaded s s' /\
    changes_only (fun q => q = path) s s' /\ forall p, overlay_at id s' p =
      if decide (p = path /\ current !! path <> Some (sha256_hex c)) then Some c else overlay_at id s p.
Proof.
  unfold diff_entry.
  assert (Hst : forall kind acc0, (forall i t, changes_at (fun q => q = path) (mkEvent i t kind)) -> exists acc' s', (_ ← put_file (overlay_prefix_of id +:+ path) c;
      _ ← put_file (blob_key (sha256_hex c)) c; _ ← append_stored clock kind;
      mret (mkCounts (uc_added acc0) (uc_modified acc0) (uc_unchanged acc0) (uc_paths acc0 ++ [path])) : H UploadCounts) s
      = (Ok acc', s') /\ uploaded s s' /\ changes_only (fun q => q = path) s s' /\
      forall p, overlay_at id s' p = if decide (p = path) then Some c else overlay_at id s p).
  { intros kind acc0 Hk. do 2 eexists. split; [reflexivity|]. split; [|split; [by eapply changes_only_one|]].
    - constructor; try done. intros p. unfold current_at. simpl. by rewrite !lookup_insert_ne by by intros [=].
    - intros p. unfold overlay_at. simpl. rewrite (lookup_insert_ne _ (blob_key _)) by by intros [=].
      case_decide as Hp; [by rewrite Hp, lookup_insert_eq|]. rewrite lookup_insert_ne; [done|].
      by intros E%string_app_inj_l. }
  destruct (current !! path) as [h|] eqn:Eh; [destruct (String.eqb_spec h (sha256_hex c)) as [->|Hne]|].
  - do 2 eexists. split; [reflexivity|]. split; [apply uploaded_refl|]. split; [by apply changes_only_same|].
    intros p. by rewrite decide_False by naive_solver.
  - destruct (Hst (FileModified u path h (sha256_hex c))
      (mkCounts (uc_added acc) (S (uc_modified acc)) (uc_unchanged acc) (uc_paths acc))) as (acc' & s' & E & Hu & Hr & Ho); [done|].
    exists acc', s'. split; [exact E|]. split; [done|]. split; [done|]. intros p. rewrite Ho. apply decide_ext. naive_solver.
  - destruct (Hst (FileAdded u path (sha256_hex c))
      (mkCounts (S (uc_added acc)) (uc_modified acc) (uc_unchanged acc) (uc_paths acc))) as (acc' & s' & E & Hu & Hr & Ho); [done|].
    exists acc', s'. split; [exact E|]. split; [done|]. split; [done|]. intros p. rewrite Ho. apply decide_ext. naive_solver.
Qed.

Lemma diff_entries_ok u id (current : gmap string string) files acc s :
  NoDup files.*1 ->
  exists acc' s', diff_entries clock sha256_hex u id current files acc s = (Ok acc', s') /\ uploaded s s' /\ changes_only (fun q => q ∈ files.*1) s s' /\
    (forall p, p ∉ files.*1 -> overlay_at id s' p = overlay_at id s p) /\
    (forall p c, (p, c) ∈ files -> overlay_at id s' p =
       if decide (current !! p = Some (sha256_hex c)) then overlay_at id s p else Some c).
Proof.
  revert acc s; induction files as [|[q d] files IH]; intros acc s Hnd.
  { do 2 eexists. split; [reflexivity|]. split_and!; [apply uploaded_refl|by apply changes_only_same|done|by intros p c ?%not_elem_of_nil]. }
  simpl in Hnd. apply NoDup_cons in Hnd as [Hq Hnd].
  destruct (diff_entry_ok u id current acc q d s) as (acc1 & s1 & E1 & U1 & R1 & O1).
  destruct (IH acc1 s1 Hnd) as (acc2 & s2 & E2 & U2 & R2 & N2 & I2).
  exists acc2, s2. simpl. rewrite (M_bind_ok _ _ _ _ _ E1). split_and!; [done|by eapply uploaded_trans|eapply changes_only_trans; (eapply changes_only_mono; [|eassumption]); intros x; set_solver| |].
  - intros p [Hpq Hp]%not_elem_of_cons. rewrite N2, O1 by done. rewrite decide_False by naive_solver. done.
  - intros p c [[= -> ->]|Hin]%elem_of_cons.
    + rewrite N2, O1 by done. repeat case_decide; naive_solver.
    + rewrite (I2 p c Hin), O1. assert (p <> q) by (intros ->; apply Hq, list_elem_of_fmap; by exists (q, c)).
      rewrite (decide_False (P := p = q /\ _)) by naive_solver. done.
Qed.

Lemma record_deletions_ok w paths merged s :
  exists merged' s', record_deletions clock w paths merged s = (Ok merged', s') /\
    sv_files s' = sv_files s /\ uploaded s s' /\ (paths = [] -> forall Q, changes_only Q s s') /\
    forall p, p ∈ merged' <-> p ∈ merged \/ p ∈ paths.
Proof.
  revert merged s; induction paths as [|q paths IH]; intros merged s.
  { do 2 eexists. split; [reflexivity|]. split_and!; [done|apply uploaded_refl|by intros; apply changes_only_same|]. intros p. rewrite elem_of_nil. tauto. }
  simpl. set (s1 := (append_stored clock (FileRemoved w q) s).2).
  set (m1 := if bool_decide (q ∈ merged) then merged else merged ++ [q]).
  destruct (IH m1 s1) as (m2 & s2 & E2 & F2 & U2 & _ & H2). exists m2, s2. split; [exact E2|].
  split_and!; [by rewrite F2|eapply uploaded_trans; [|exact U2]; by constructor|done|].
  intros p. rewrite H2, elem_of_cons. unfold m1. case_bool_decide as Hq.
  - split; [tauto|]. intros [?|[->|?]]; tauto.
  - rewrite elem_of_app, list_elem_of_singleton. tauto.
Qed.

(** The row after [finish_upload] has the deletions, and is otherwise the same as
    far as a submission goes. *)
Lemma finish_upload_ok meta any merged s :
  find_by ws_id (ws_id meta) (sv_workspaces s) = Some meta ->
  exists s' meta', finish_upload clock meta any merged s = (Ok tt, s') /\
    sv_files s' = sv_files s /\ sv_head s' = sv_head s /\ sv_issues s' = sv_issues s /\ sv_events s' = sv_events s /\
    find_by ws_id (ws_id meta) (sv_workspaces s') = Some meta' /\ ws_id meta' = ws_id meta /\
    base_version meta' = base_version meta /\ ws_issue_id meta' = ws_issue_id meta /\ ws_deleted_paths meta' = merged.
Proof.
  intros Hf. unfold finish_upload.
  set (st := if bool_decide (ws_status meta = WsCreated) && any then Some WsActive else None). set (ch := negb (bool_decide (merged = ws_deleted_paths meta))).
  destruct (bool_decide (st = None) && negb ch) eqn:Ec.
  { exists s, meta. split_and!; try done. apply andb_true_iff in Ec as [_ Ec]. unfold ch in Ec.
    rewrite negb_involutive in Ec. by apply bool_decide_eq_true in Ec. }
  set (del := if ch then Some merged else None).
  set (row := with_update st None del (clock (sv_ticks s))).
  set (s' := set_ws_rows (update_by ws_id (ws_id meta) row (sv_workspaces s)) (set_streams (sv_draws s) (S (sv_ticks s)) s)).
  assert (Hf' : find_by ws_id (ws_id meta) (sv_workspaces s') = Some (row meta)).
  { simpl. rewrite find_by_update by done. by rewrite decide_True, Hf by done. }
  exists s', (row meta). split_and!; try done.
  - unfold best_effort, update_workspace.
    rewrite (M_bind_ok (get_ws (ws_id meta)) _ s meta s) by (unfold get_ws; by rewrite Hf). done.
  - unfold row, with_update, del, ch. clear. case_bool_decide as Hm; simpl; [by rewrite Hm|done].
Qed.
End upload.

Section server.
Variable clock : nat -> DateTime.
Variable uuid : nat -> Uuid.
Variable parse_uuid : string -> option Uuid.
Variable sha256_hex : bytes -> string.
Variable iter_order : gset string -> list string.
Variable unpack : bytes -> option (list TarEntry).
Variable parse_manifest : bytes -> option DeltaManifest.
Hypothesis iter_perm : forall X, iter_order X ≡ₚ elements X.

Lemma current_files_lookup s p :
  current_files iter_order s !! p = if String.eqb p "" then None else current_at s p.
Proof using iter_perm.
  unfold current_files. set (l := omap _ _).
  assert (Hl : forall q c, (q, c) ∈ l <-> q <> EmptyString /\ current_at s q = Some c).
  { intros q c. unfold l, list_stored. rewrite list_elem_of_omap. split.
    - intros ([k x] & [_ Hin]%list_elem_of_filter & Hk). apply (iter_map_elem _ iter_perm) in Hin. cbn [fst snd] in Hk.
      destruct (strip_prefix "current/" k) as [rel|] eqn:Es; [|done]. apply strip_prefix_Some in Es as ->.
      cbn [mbind option_bind] in Hk. destruct (String.eqb_spec rel ""); [done|]. by injection Hk as -> ->.
    - intros [Hq Hc]. exists (current_key q, c). split.
      + apply list_elem_of_filter. split; [apply Is_true_eq_left, starts_with_spec; by exists q|].
        by apply (iter_map_elem _ iter_perm).
      + cbn [fst snd]. unfold current_key. rewrite strip_prefix_app. cbn [mbind option_bind]. by destruct (String.eqb_spec q ""). }
  destruct (list_to_map l !! p) as [c|] eqn:E.
  - apply elem_of_list_to_map_2, Hl in E as [Hp Hc]. by destruct (String.eqb_spec p "").
  - destruct (String.eqb_spec p ""); [done|]. destruct (current_at s p) as [c|] eqn:Ec; [|done].
    apply not_elem_of_list_to_map_2 in E. exfalso. apply E, list_elem_of_fmap. exists (p, c). by rewrite Hl.
Qed.

(** The files of the archive that count. *)
Definition archive_files (raw : gmap string bytes) : gmap string bytes :=
  filter (fun f => is_snapshot_path_ignored f.1 = false) (delete ".vai-delta.json"%string raw).

(** A path of the project that the archive does not have. *)
Definition missing (s : ServerRepo) (raw : gmap string bytes) (p : string) : Prop :=
  p <> EmptyString /\ is_Some (current_at s p) /\ archive_files raw !! p = None.

(** The paths of the project that the archive lacks, and the rail against an upload that would
    remove more than half of a project of three files and more. *)
Definition gone (s : ServerRepo) (raw : gmap string bytes) : list string :=
  filter (fun p => archive_files raw !! p = None) (elements (dom (current_files iter_order s))).

Definition railed (destructive : bool) (s : ServerRepo) (raw : gmap string bytes) : bool :=
  negb destructive && (0 <? length (gone s raw)) && (3 <=? size (current_files iter_order s)) &&
  (size (current_files iter_order s) <? length (gone s raw) * 2).

Lemma gone_elem s raw p : p ∈ gone s raw <-> missing s raw p.
Proof using iter_perm.
  unfold gone, missing. rewrite list_elem_of_filter, elem_of_elements, elem_of_dom, current_files_lookup.
  destruct (String.eqb_spec p "") as [Hp|Hp].
  - split; [by intros (_ & [? ?])|by intros (? & _)].
  - split; [by intros (? & ?)|by intros (_ & ? & ?)].
Qed.

Lemma gone_length s raw l : NoDup l -> (forall p, p ∈ l <-> missing s raw p) -> length l = length (gone s raw).
Proof using iter_perm.
  intros Hl He. apply Permutation_length, NoDup_Permutation; [done|apply NoDup_filter, NoDup_elements|].
  intros p. by rewrite He, gone_elem.
Qed.

Lemma railed_allowed s raw : railed true s raw = false.
Proof using. done. Qed.
Lemma railed_keeps destructive s raw : (forall p, ~ missing s raw p) -> railed destructive s raw = false.
Proof using iter_perm.
  intros Hm. unfold railed. destruct (gone s raw) as [|p l] eqn:E; [by rewrite andb_false_r|].
  destruct (Hm p). rewrite <-gone_elem, E. by left.
Qed.

Definition same_hash (s : ServerRepo) (p : string) (c : bytes) : Prop :=
  p <> EmptyString /\ sha256_hex <$> current_at s p = Some (sha256_hex c).

#[local] Instance same_hash_dec s p c : Decision (same_hash s p c).
Proof. unfold same_hash. apply _. Defined.

(** What a snapshot of all files leaves: each file of the archive in the overlay,
    unless the project has a file of the same hash there, in which case the overlay
    keeps what it has; the row's deletions and the paths that the archive lacks; the
    project as it is. *)
Record snapshot_taken (meta : WorkspaceMeta) (id : string) (raw : gmap string bytes) (s s' : ServerRepo) : Prop := {
  st_head : sv_head s' = sv_head s;
  st_issues : sv_issues s' = sv_issues s;
  st_current p : current_at s' p = current_at s p;
  st_overlay p : overlay_at id s' p =
    match archive_files raw !! p with
    | Some c => if decide (same_hash s p c) then overlay_at id s p else Some c
    | None => overlay_at id s p
    end;
  st_removals : (forall p, ~ missing s raw p) -> changes_only (fun p => is_Some (archive_files raw !! p)) s s';
  st_row : exists meta', find_by ws_id (ws_id meta) (sv_workspaces s') = Some meta' /\ ws_id meta' = ws_id meta /\
    base_version meta' = base_version meta /\ ws_issue_id meta' = ws_issue_id meta /\
    forall p, p ∈ ws_deleted_paths meta' <-> p ∈ ws_deleted_paths meta \/ missing s raw p
}.

(** A refused upload leaves its files in the overlay. *)
Record snapshot_refused (id : string) (raw : gmap string bytes) (s s' : ServerRepo) : Prop := {
  sr_head : sv_head s' = sv_head s;
  sr_current p : current_at s' p = current_at s p;
  sr_rows : sv_workspaces s' = sv_workspaces s;
  sr_overlay p : overlay_at id s' p =
    match archive_files raw !! p with
    | Some c => if decide (same_hash s p c) then overlay_at id s p else Some c
    | None => overlay_at id s p
    end
}.

Lemma upload_snapshot_ok id meta body entries raw destructive s :
  parse_uuid id = Some (ws_id meta) -> find_by ws_id (ws_id meta) (sv_workspaces s) = Some meta ->
  over MAX_SNAPSHOT_SIZE_BYTES body = false -> unpack body = Some entries ->
  extract_entries entries ∅ = Ok raw -> raw !! ".vai-delta.json"%string = None ->
  if railed destructive s raw then
    exists s', upload_snapshot_handler clock parse_uuid sha256_hex iter_order unpack parse_manifest true id destructive body s
      = (Err HtConflict, s') /\ snapshot_refused id raw s s'
  else
    exists resp s', upload_snapshot_handler clock parse_uuid sha256_hex iter_order unpack parse_manifest true id destructive body s
      = (Ok resp, s') /\ us_is_delta resp = false /\ snapshot_taken meta id raw s s'.
Proof using iter_perm.
  intros Hu Hf Hov Hun Hex Hnd. unfold upload_snapshot_handler.
  rewrite (M_bind_ok (check true) _ s tt s) by done. rewrite Hov.
  rewrite (M_bind_ok (find_workspace parse_uuid id) _ s meta s).
  2:{ unfold find_workspace. rewrite Hu. unfold get_ws. by rewrite Hf. }
  rewrite Hun. rewrite (M_bind_ok _ _ s raw s) by (unfold lift; by rewrite Hex). rewrite Hnd.
  rewrite (M_bind_ok (mret None) _ s None s), (M_bind_ok get_st _ s s s) by done.
  fold (archive_files raw). set (cur := sha256_hex <$> current_files iter_order s).
  assert (Hcur : forall p, cur !! p = if String.eqb p "" then None else sha256_hex <$> current_at s p).
  { intros p. unfold cur. rewrite lookup_fmap, current_files_lookup. by destruct (String.eqb p ""). }
  destruct (diff_entries_ok clock sha256_hex (ws_id meta) id cur (iter_map iter_order (archive_files raw)) (mkCounts 0 0 0 []) s)
    as (counts & s1 & E1 & U1 & R1 & N1 & I1); [by apply iter_map_NoDup|].
  rewrite (M_bind_ok _ _ _ _ _ E1). cbv zeta.
  set (dels := (iter_map iter_order (filter (fun f : string * string => archive_files raw !! f.1 = None) cur)).*1).
  assert (Hdels : forall p, p ∈ dels <-> missing s raw p).
  { intros p. unfold dels. rewrite list_elem_of_fmap. split.
    - intros ([q h] & -> & Hin). apply (iter_map_elem _ iter_perm), map_lookup_filter_Some in Hin as [Hq Hn].
      simpl in *. rewrite Hcur in Hq. destruct (String.eqb_spec q ""); [done|].
      apply fmap_Some in Hq as (c & Hc & _). by split_and!.
    - intros (Hne & [c Hc] & Hn). exists (p, sha256_hex c). split; [done|].
      apply (iter_map_elem _ iter_perm), map_lookup_filter_Some. split; [|done]. rewrite Hcur, Hc.
      by destruct (String.eqb_spec p ""). }
  assert (Hov1 : forall p, overlay_at id s1 p = match archive_files raw !! p with
    | Some c => if decide (same_hash s p c) then overlay_at id s p else Some c | None => overlay_at id s p end).
  { intros p. destruct (archive_files raw !! p) as [c|] eqn:Ec.
    + rewrite (I1 p c) by (by apply (iter_map_elem _ iter_perm)). apply decide_ext. rewrite Hcur. unfold same_hash.
      destruct (String.eqb_spec p ""); [|naive_solver]. split; [done|naive_solver].
    + apply N1. intros ([q c] & -> & Hin)%list_elem_of_fmap. apply (iter_map_elem _ iter_perm) in Hin. simpl in Ec. congruence. }
  assert (Hlen : length dels = length (gone s raw)) by (apply gone_length; [by apply iter_map_NoDup|exact Hdels]).
  assert (Hsize : size cur = size (current_files iter_order s)) by apply map_size_fmap.
  assert (Hr : negb destructive && (0 <? length dels) && (3 <=? size cur) && (size cur <? length dels * 2) = railed destructive s raw)
    by (unfold railed; by rewrite Hlen, Hsize).
  rewrite Hr. destruct (railed destructive s raw).
  { eexists. split; [reflexivity|]. split; [apply (up_head _ _ U1)|apply (up_current _ _ U1)|apply (up_workspaces _ _ U1)|exact Hov1]. }
  clear Hlen Hsize Hr.
  destruct (record_deletions_ok clock (ws_id meta) dels (ws_deleted_paths meta) s1) as (merged & s2 & E2 & F2 & U2 & R2 & M2).
  rewrite (M_bind_ok _ _ _ _ _ E2).
  destruct (finish_upload_ok clock meta (negb (bool_decide (uc_paths counts = [])) || (0 <? length dels)) merged s2)
    as (s3 & meta' & E3 & F3 & H3 & I3 & V3 & Hf3 & Hid & Hb & Hi & Hd).
  { by rewrite (up_workspaces _ _ U2), (up_workspaces _ _ U1). }
  rewrite (M_bind_ok _ _ _ _ _ E3).
  eexists _, _. split; [reflexivity|]. split; [done|]. constructor; simpl.
  - by rewrite H3, (up_head _ _ U2), (up_head _ _ U1).
  - by rewrite I3, (up_issues _ _ U2), (up_issues _ _ U1).
  - intros p. unfold current_at. simpl. rewrite F3, F2. apply (up_current _ _ U1).
  - intros p. unfold overlay_at. simpl. rewrite F3, F2. fold (overlay_at id s1 p).
    apply Hov1.
  - intros Hno'. eapply changes_only_trans.
    { eapply changes_only_mono; [|exact R1]. intros p ([q c] & -> & Hin%(iter_map_elem _ iter_perm))%list_elem_of_fmap.
      by exists c. }
    eapply changes_only_trans; [apply R2|by apply changes_only_same].
    destruct dels as [|p dels']; [done|]. exfalso. apply (Hno' p), Hdels. by left.
  - exists meta'. split_and!; try done. intros p. by rewrite Hd, M2, Hdels.
Qed.

(** ** The submission *)

Lemma insert_version_frame v s :
  let s' := (insert_version v s).2 in sv_files s' = sv_files s /\ sv_head s' = sv_head s /\ sv_events s' = sv_events s.
Proof using. unfold insert_version. by case_match. Qed.

Lemma update_workspace_frame w st iss del s :
  let s' := (update_workspace clock w st iss del s).2 in
  sv_files s' = sv_files s /\ sv_head s' = sv_head s /\ sv_events s' = sv_events s.
Proof using.
  unfold update_workspace, get_ws, mbind, M_bind, modify_st. simpl.
  destruct (find_by ws_id w (sv_workspaces s)); simpl; done.
Qed.

Lemma record_merge_ok meta id r s :
  exists s', record_merge clock meta id r s = (Ok tt, s') /\ sv_files s' = sv_files s /\
    sv_head s' = Some (version_id (sr_version r)) /\ (ws_deleted_paths meta = [] -> forall Q, changes_only Q s s').
Proof using parse_uuid.
  set (w := ws_id meta). set (kind := MergeCompleted w (version_id (sr_version r)) (N.of_nat (auto_resolved r))).
  set (a := set_engine (remove_workspace (sv_engine s) w) s).
  destruct (append_stored clock kind a) as [o b] eqn:Eb. injection Eb as <- Eb.
  destruct (log_removals clock parse_uuid w (ws_deleted_paths meta) b) as ([c Ec] & _ & Fc & _).
  rewrite Ec in Fc. simpl in Fc. unfold record_merge.
  rewrite (M_bind_ok _ _ s tt a), (M_bind_ok _ _ a _ b (f_equal2 pair eq_refl Eb)), (M_bind_ok _ _ b tt c Ec) by done.
  set (c' := set_streams (sv_draws c) (S (sv_ticks c)) c). rewrite (M_bind_ok _ _ c (clock (sv_ticks c)) c') by done.
  set (vm := mkVersion _ _ _ _ _ _). destruct (insert_version_frame vm c') as (Fd & _ & Vd).
  rewrite (M_bind_ok _ _ c' tt (insert_version vm c').2) by done. set (d := (insert_version vm c').2) in *.
  set (e := (advance_head (version_id (sr_version r)) d).2). rewrite (M_bind_ok _ _ d tt e) by done.
  destruct (update_workspace_frame w (Some WsMerged) None None e) as (Ff & Hf & Vf).
  rewrite (M_bind_ok _ _ e tt (update_workspace clock w (Some WsMerged) None None e).2) by done.
  eexists. split; [reflexivity|]. simpl. rewrite Ff, Hf. split_and!; [|done|].
  - simpl. rewrite Fd. simpl. by rewrite Fc, <-Eb.
  - intros Hnil Q. eapply (changes_only_trans Q s b); [by eapply changes_only_one; [by rewrite <-Eb|]|].
    rewrite Hnil in Ec. injection Ec as <-. eapply changes_only_one; [simpl; rewrite Vf; simpl; by rewrite Vd|done].
Qed.

Variable read_dir : gmap string VersionMeta -> list VersionMeta.
Variable parse_rust_source : string -> bytes -> outcome GraphError (list Entity * list Relationship).
Variable parse_source_file : string -> bytes -> outcome GraphError (list Entity * list Relationship).
Hypothesis parse_ok : forall p c, exists r, parse_rust_source p c = Ok r.
Hypothesis parse_no_panic : forall p c, parse_source_file p c <> Panic.

Abbreviation submission := (run_submit clock uuid sha256_hex iter_order read_dir parse_rust_source parse_source_file).

(** The merge of a workspace that starts from HEAD. *)
Lemma run_submit_on_head meta id s :
  id_ok (ws_id meta) -> trim (base_version meta +:+ String LF EmptyString) = base_version meta ->
  ((exists p, is_Some (overlay_at id s p)) \/ (exists p, p ∈ ws_deleted_paths meta /\ is_Some (current_at s p))) ->
  exists r s', submission meta id (base_version meta) s = (Ok (Ok r), s') /\ sv_events s' = sv_events s /\
  forall p, current_at s' p =
    if decide (p ∈ ws_deleted_paths meta) then None
    else match overlay_at id s p with Some c => Some c | None => current_at s p end.
Proof using parse_ok parse_no_panic.
  intros Hid Htrim Hne. unfold run_submit.
  set (fs0 := new_s3 (sv_files s) false). set (v0 := setup_tmpdir_for_s3_submit clock meta (base_version meta) s).
  set (spec := S3MergeFsSpec (overlay_prefix_of id) "current/" (server_apart id)).
  assert (Hnew : forall q, s3_at fs0 q = sv_files s !! q).
  { intros q. unfold s3_at, fs0. simpl. by rewrite lookup_empty. }
  assert (Hb : forall fs p, @fs_lookup S3 _ spec fs (bkey p) = s3_at fs (current_key p)).
  { intros fs p. simpl. unfold s3_lookup. by rewrite path_base. }
  assert (Ho : forall fs p, @fs_lookup S3 _ spec fs (okey p) = s3_at fs (overlay_prefix_of id +:+ p)).
  { intros fs p. simpl. unfold s3_lookup.
    assert (s3_path (overlay_prefix_of id) "current/" (okey p) = Ok (overlay_prefix_of id +:+ p)) as ->; [|done].
    apply s3_path_cases. left. eauto. }
  destruct (@submit_with_fs_on_head S3 _ spec clock uuid read_dir parse_rust_source parse_source_file sha256_hex
    iter_order parse_no_panic parse_ok meta (ws_deleted_paths meta) v0 fs0 meta)
    as (r & v & fs & E & Hwf & Hs).
  - apply new_s3_wf.
  - by apply tmpdir_active.
  - eexists. apply lookup_singleton_eq.
  - eexists. apply lookup_singleton_eq.
  - unfold read_head, v0. simpl. by rewrite Htrim.
  - destruct Hne as [(p & c & Hp)|(p & Hp & c & Hc)]; [left; exists p|right; exists p; split; [done|]]; exists c.
    + by rewrite Ho, Hnew.
    + by rewrite Hb, Hnew.
  - destruct Hs as [Hs _ _ _]. rewrite E. pose proof (s3_flush_spec fs Hwf) as Hfl. destruct (s3_flush fs) as [fl fs'].
    destruct Hfl as (-> & _ & _ & Hst & _). do 2 eexists. split; [reflexivity|]. split; [done|]. intros p.
    unfold current_at at 1. simpl. rewrite Hst, <-(Hb fs). rewrite Hs, Ho, Hb, !Hnew. done.
Qed.

Lemma submit_on_head ok id meta s :
  ok = true -> parse_uuid id = Some (ws_id meta) -> id_ok (ws_id meta) ->
  find_by ws_id (ws_id meta) (sv_workspaces s) = Some meta ->
  (ws_issue_id meta ≫= fun i => sv_issues s !! i) <> Some Closed ->
  sv_head s = Some (base_version meta) -> trim (base_version meta +:+ String LF EmptyString) = base_version meta ->
  ((exists p, is_Some (overlay_at id s p)) \/ (exists p, p ∈ ws_deleted_paths meta /\ is_Some (current_at s p))) ->
  exists r s', submit_workspace_handler clock uuid parse_uuid sha256_hex iter_order read_dir parse_rust_source
      parse_source_file ok id s = (Ok r, s') /\ sv_head s' = Some (version_id (sr_version r)) /\
    (ws_deleted_paths meta = [] -> forall Q, changes_only Q s s') /\
    forall p, current_at s' p =
      if decide (p ∈ ws_deleted_paths meta) then None
      else match overlay_at id s p with Some c => Some c | None => current_at s p end.
Proof using parse_ok parse_no_panic.
  intros -> Hu Hid Hf Hclosed Hh Htrim Hne.
  destruct (run_submit_on_head meta id s Hid Htrim Hne) as (r & s1 & E1 & V1 & Hc1).
  destruct (record_merge_ok meta id r s1) as (s2 & E2 & F2 & Hh2 & R2).
  exists r, s2. split_and!; [|done| |].
  2:{ intros Hnil Q. eapply changes_only_trans; [by apply changes_only_same|by apply R2]. }
  - unfold submit_workspace_handler. rewrite (M_bind_ok (check true) _ s tt s) by done.
    rewrite (M_bind_ok (find_workspace parse_uuid id) _ s meta s).
    2:{ unfold find_workspace. rewrite Hu. unfold get_ws. by rewrite Hf. }
    rewrite (M_bind_ok get_st _ s s s) by done. rewrite bool_decide_eq_false_2 by done. rewrite Hh. simpl default.
    rewrite (M_bind_ok _ _ _ _ _ E1). by rewrite (M_bind_ok _ _ _ _ _ E2).
  - intros p. rewrite <-Hc1. unfold current_at. by rewrite F2.
Qed.

Lemma upload_submit_ok id meta body entries raw destructive s :
  parse_uuid id = Some (ws_id meta) -> id_ok (ws_id meta) ->
  find_by ws_id (ws_id meta) (sv_workspaces s) = Some meta ->
  ws_deleted_paths meta = [] -> (forall p, overlay_at id s p = None) ->
  (ws_issue_id meta ≫= fun i => sv_issues s !! i) <> Some Closed ->
  sv_head s = Some (base_version meta) -> trim (base_version meta +:+ String LF EmptyString) = base_version meta ->
  over MAX_SNAPSHOT_SIZE_BYTES body = false -> unpack body = Some entries ->
  extract_entries entries ∅ = Ok raw -> raw !! ".vai-delta.json"%string = None ->
  (forall p c c', archive_files raw !! p = Some c -> current_at s p = Some c' -> sha256_hex c' = sha256_hex c -> c' = c) ->
  (exists p, p <> EmptyString /\ archive_files raw !! p <> current_at s p) ->
  railed destructive s raw = false ->
  exists resp s1 r s2,
    upload_snapshot_handler clock parse_uuid sha256_hex iter_order unpack parse_manifest true id destructive body s
      = (Ok resp, s1) /\
    submit_workspace_handler clock uuid parse_uuid sha256_hex iter_order read_dir parse_rust_source
      parse_source_file true id s1 = (Ok r, s2) /\
    sv_head s2 = Some (version_id (sr_version r)) /\
    ((forall p, ~ missing s raw p) -> changes_only (fun p => is_Some (archive_files raw !! p)) s s2) /\
    forall p, p <> EmptyString \/ current_at s p = None -> current_at s2 p = archive_files raw !! p.
Proof using iter_perm parse_ok parse_no_panic.
  intros Hu Hid Hf Hd Ho Hcl Hh Htrim Hov Hun Hex Hnd Hinj Hdiff Hrail.
  pose proof (upload_snapshot_ok id meta body entries raw destructive s Hu Hf Hov Hun Hex Hnd) as Hup. rewrite Hrail in Hup.
  destruct Hup as (resp & s1 & E1 & _ & [Sh Si Sc So Sr (meta' & Hf' & Hid' & Hb' & Hi' & Hd')]).
  assert (Hres : forall p, p <> EmptyString \/ current_at s p = None -> (if decide (p ∈ ws_deleted_paths meta') then None
    else match overlay_at id s1 p with Some c => Some c | None => current_at s1 p end) = archive_files raw !! p).
  { intros p Hp. rewrite So, Sc, Ho. destruct (archive_files raw !! p) as [c|] eqn:Ec.
    - rewrite decide_False by (rewrite Hd', Hd; intros [?%not_elem_of_nil|(_ & _ & ?)]; congruence).
      destruct (decide (same_hash s p c)) as [[_ Hsame]|]; [|done].
      apply fmap_Some in Hsame as (c' & Hc' & Heq). rewrite Hc'. f_equal. by eapply Hinj.
    - destruct (current_at s p) as [c|] eqn:Ecur; [|by case_decide].
      rewrite decide_True; [done|]. apply Hd'. right. destruct Hp as [Hp|]; [|done]. split_and!; [done|by eexists|done]. }
  destruct (submit_on_head true id meta' s1) as (r & s2 & E2 & Hh2 & R2 & Hc2); rewrite ?Hid', ?Hb', ?Hi', ?Si, ?Sh; try done.
  - destruct Hdiff as (p & Hp & Hne). specialize (Hres p (or_introl Hp)).
    destruct (overlay_at id s1 p) as [c|] eqn:Eo; [left; exists p; by rewrite Eo|right; exists p].
    destruct (decide (p ∈ ws_deleted_paths meta')) as [Hin|]; [|by rewrite Sc in Hres].
    split; [done|]. rewrite Sc. destruct (current_at s p); [by eexists|congruence].
  - exists resp, s1, r, s2. split_and!; [done..| |].
    + intros Hno. eapply changes_only_trans; [by apply Sr|apply R2].
      destruct (ws_deleted_paths meta') as [|p ps]; [done|]. exfalso. destruct (Hd' p) as [Hp _].
      destruct Hp as [Hp|Hp]; [by left| |by apply (Hno p)]. rewrite Hd in Hp. by apply not_elem_of_nil in Hp.
    + intros p Hp. rewrite Hc2. by apply Hres.
Qed.

(** C17. A workspace that starts from HEAD, has nothing in its overlay and no deletion;
    its client uploads an archive of files within the limit, none of them a manifest of
    deletions, and submits it. When the archive lacks more than half of a project of three files
    and more, and the client does not allow that, the upload is refused: HEAD and the
    project stay, but the overlay has the files. Otherwise, unless the archive is the
    project already, both calls succeed, and the project is
    exactly what the archive holds (its control files aside), the files that it
    lacks removed; HEAD is the version of the answer. The hash only has to tell
    apart the two contents of one path, and the parser of the sources to answer. *)
Theorem upload_submit_roundtrip id meta body entries raw destructive s :
  parse_uuid id = Some (ws_id meta) -> id_ok (ws_id meta) ->
  find_by ws_id (ws_id meta) (sv_workspaces s) = Some meta ->
  ws_deleted_paths meta = [] -> (forall p, overlay_at id s p = None) ->
  (ws_issue_id meta ≫= fun i => sv_issues s !! i) <> Some Closed ->
  sv_head s = Some (base_version meta) -> trim (base_version meta +:+ String LF EmptyString) = base_version meta ->
  over MAX_SNAPSHOT_SIZE_BYTES body = false -> unpack body = Some entries ->
  extract_entries entries ∅ = Ok raw -> raw !! ".vai-delta.json"%string = None ->
  (forall p c c', archive_files raw !! p = Some c -> current_at s p = Some c' -> sha256_hex c' = sha256_hex c -> c' = c) ->
  (exists p, p <> EmptyString /\ archive_files raw !! p <> current_at s p) ->
  let upload := upload_snapshot_handler clock parse_uuid sha256_hex iter_order unpack parse_manifest true id destructive body s in
  if railed destructive s raw then exists s1, upload = (Err HtConflict, s1) /\ snapshot_refused id raw s s1
  else exists resp s1 r s2, upload = (Ok resp, s1) /\
    submit_workspace_handler clock uuid parse_uuid sha256_hex iter_order read_dir parse_rust_source
      parse_source_file true id s1 = (Ok r, s2) /\
    sv_head s2 = Some (version_id (sr_version r)) /\
    forall p, p <> EmptyString -> current_at s2 p = archive_files raw !! p.
Proof using iter_perm parse_ok parse_no_panic.
  intros ? ? ? ? ? ? ? ? ? ? ? ? ? ? upload. destruct (railed destructive s raw) eqn:Er.
  - pose proof (upload_snapshot_ok id meta body entries raw destructive s) as Hup. rewrite Er in Hup. by apply (Hup ltac:(done)).
  - edestruct (upload_submit_ok id meta body entries raw destructive s) as (resp & s1 & r & s2 & E1 & E2 & E3 & _ & E4);
      try done. exists resp, s1, r, s2. split_and!; [done..|]. intros p Hp. apply E4. by left.
Qed.
End server.

(** ** Witness *)

Definition wit_meta : WorkspaceMeta := mkWs "w0" "fix" "v1" WsCreated 0 0 None [].
Definition wit_state : ServerRepo :=
  mkServer (list_to_map [("current/a"%string, bytes_of "old"); ("current/gone"%string, bytes_of "x")]) []
    [mkVersion "v1" None "init" "server" 0 None] (Some "v1"%string) [wit_meta] ∅ [] ∅ [] 0 0.
Definition wit_raw : gmap string bytes := {["a"%string := bytes_of "new"]}.

Lemma upload_submit_roundtrip_witness :
  exists resp s1 r s2,
    upload_snapshot_handler wit_clock wit_parse_uuid string_of wit_iter wit_unpack wit_manifest true "w0" true
      (bytes_of "new") wit_state = (Ok resp, s1) /\
    submit_workspace_handler wit_clock wit_uuid wit_parse_uuid string_of wit_iter wit_dir wit_parser wit_parser
      true "w0" s1 = (Ok r, s2) /\
    sv_head s2 = Some (version_id (sr_version r)) /\
    current_at s2 "a" = Some (bytes_of "new") /\ current_at s2 "gone" = None.
Proof.
  destruct (upload_submit_roundtrip wit_clock wit_uuid wit_parse_uuid string_of wit_iter wit_unpack wit_manifest
    (fun X => Permutation_refl _) wit_dir wit_parser wit_parser (fun p c => ex_intro _ _ eq_refl)
    (fun p c => ltac:(discriminate)) "w0" wit_meta (bytes_of "new") [mkEntry Regular "./a" (bytes_of "new")] wit_raw
    true wit_state) as (resp & s1 & r & s2 & E1 & E2 & Hh & Hc).
  - reflexivity.
  - by split.
  - reflexivity.
  - reflexivity.
  - intros p. unfold overlay_at, wit_state. cbn [sv_files]. apply not_elem_of_list_to_map_1.
    cbn [fmap list_fmap fst]. rewrite !not_elem_of_cons. split_and!; [by intros [=]..|apply not_elem_of_nil].
  - discriminate.
  - reflexivity.
  - reflexivity.
  - reflexivity.
  - reflexivity.
  - vm_compute. reflexivity.
  - reflexivity.
  - intros p c c' _ _ E. apply (f_equal bytes_of) in E. by rewrite !bytes_of_string_of in E.
  - exists "a"%string. split; [done|]. vm_compute. discriminate.
  - exists resp, s1, r, s2. split; [exact E1|]. split; [exact E2|]. split; [exact Hh|].
    split; rewrite Hc by done; vm_compute; reflexivity.
Defined.

(** The project has four files, and the archive one of them, changed. *)
Definition wit_large : ServerRepo :=
  mkServer (list_to_map [("current/a"%string, bytes_of "old"); ("current/b"%string, bytes_of "1");
      ("current/c"%string, bytes_of "2"); ("current/d"%string, bytes_of "3")]) []
    [mkVersion "v1" None "init" "server" 0 None] (Some "v1"%string) [wit_meta] ∅ [] ∅ [] 0 0.

(** The rail against destructive uploads comes after the overlay is written: the
    upload is refused, and the workspace can be submitted with what the refused
    upload left. *)
Theorem refused_snapshot_is_merged :
  let upload := upload_snapshot_handler wit_clock wit_parse_uuid string_of wit_iter wit_unpack wit_manifest true "w0"
                  false (bytes_of "new") wit_large in
  let s2 := (submit_workspace_handler wit_clock wit_uuid wit_parse_uuid string_of wit_iter wit_dir wit_parser
               wit_parser true "w0" upload.2).2 in
  upload.1 = Err HtConflict /\ sv_head s2 = Some "v2"%string /\
  current_at s2 "a" = Some (bytes_of "new") /\ current_at s2 "b" = Some (bytes_of "1").
Proof. split_and!; vm_compute; reflexivity. Qed.
