(* ===== verification/Remote.v ===== *)
(** Push, pull, force pull and sync of a working tree against a server
    ([src/src/remote/mod.rs], [src/src/remote/tarball.rs]), behind the port
    [RemoteAdapter]; what a client relies on as a second class. *)
From S2P Require Import Prelude Table RustStr TextMerge Graph EventLog MergeEngine MergeFs VaiDir Version Submit ServerRepo.

(** Messages are not kept. *)
Inductive RemoteError : Type :=
  | NothingToPush
  | PushWouldDeleteFiles (paths : list string)
  | RMergeConflict
  | RServer
  | RTransport
  | RIo
  | RBase64
  | RTarball
  | NotAClone
  | LocalVersionNotFound
  | PartialDownload (downloaded expected : nat).

Record ManifestEntry : Type := mkManifest { me_path : string; me_sha256 : string }.
Record ManifestResult : Type := mkManifestResult { mr_version : string; mr_files : list ManifestEntry }.
Record UploadStats : Type := mkStats { up_added : nat; up_modified : nat; up_deleted : nat }.
Record RSubmitResult : Type := mkRSubmit { rs_version : string; rs_files_applied : nat }.
Inductive ChangeKind : Type := CkAdded | CkModified | CkRemoved.
Record FilePullEntry : Type := mkFilePull { fp_path : string; fp_change : ChangeKind; fp_content : option string }.
Record IncrementalPullResult : Type := mkIncremental {
  ip_base_version : string; ip_head_version : string; ip_files : list FilePullEntry
}.
Record FullDownload : Type := mkFullDownload {
  dl_head_version : string; tarball_gz : bytes; expected_file_count : option nat
}.
Record VersionFileChange : Type := mkFileChange { vfc_path : string; vfc_change : ChangeKind }.

#[export] Instance ChangeKind_eq_dec : EqDecision ChangeKind.
Proof. solve_decision. Defined.

(** The port. A version's metadata, as the server sends it, is a [VersionMeta]. *)
Class RemoteAdapter (R : Type) : Type := {
  get_manifest : M R RemoteError ManifestResult;
  create_remote_workspace : string -> M R RemoteError string;
  upload_snapshot : string -> bytes -> M R RemoteError UploadStats;
  submit_workspace : string -> M R RemoteError RSubmitResult;
  pull_incremental : string -> M R RemoteError IncrementalPullResult;
  download_full : M R RemoteError FullDownload;
  get_server_head : M R RemoteError string;
  list_remote_versions : M R RemoteError (list string);
  get_remote_changes : string -> M R RemoteError (list VersionFileChange);
  download_file : string -> M R RemoteError bytes;
  fetch_versions_since : N -> M R RemoteError (list VersionMeta)
}.

Record PushOutcome : Type := mkPush {
  po_version : string; files_added : nat; files_modified : nat; po_files_deleted : nat;
  po_deleted_paths : list string; po_files_applied : nat; po_dry_run : bool
}.
Record PullOutcome : Type := mkPull {
  pl_previous_version : string; pl_new_version : string; pl_files_updated : list string;
  pl_files_removed : list string; pl_files_restored : list string; already_up_to_date : bool; pl_force : bool
}.
Record WorkspaceConflict : Type := mkWsConflict { wc_path : string; wc_intent : string }.
Record SyncOutcome : Type := mkSync {
  sy_previous_version : string; sy_new_version : string; sy_files_updated : list string;
  sy_files_removed : list string; sy_up_to_date : bool; sy_conflicts : list WorkspaceConflict
}.

(** ** The working tree *)

Definition IGNORE_DIRS : list string := [".vai"; ".git"; "target"; "node_modules"; "dist"; "__pycache__"]%string.
Definition is_ignored_dir (name : string) : bool := bool_decide (name ∈ IGNORE_DIRS).

Definition is_builtin_secret_file (name : string) : bool :=
  String.eqb name ".env" || starts_with ".env." name || ends_with ".pem" name || ends_with ".key" name ||
  starts_with "id_rsa" name || starts_with "id_ed25519" name.

Definition components (path : string) : list string := split_on "/" path.
Definition file_name (path : string) : string := default ""%string (last (components path)).
Definition directories (path : string) : list string := removelast (components path).

(** The walks skip the ignored directories; two of the three skip secret files. *)
Definition walked (path : string) : bool := forallb (fun d => negb (is_ignored_dir d)) (directories path).
Definition tracked (path : string) : bool := walked path && negb (is_builtin_secret_file (file_name path)).

(** The working tree, by path relative to its root, less [.vai/], which is a
    [VaiDir], if there is one; the overlays of the workspaces by id, as the lists of
    their files. *)
Record Local : Type := mkLocal {
  lc_tree : gmap string bytes;
  lc_vai : VaiDir;
  lc_has_vai : bool;
  lc_overlays : gmap string (list string)
}.

Definition set_tree (t : gmap string bytes) (l : Local) : Local := mkLocal t (lc_vai l) (lc_has_vai l) (lc_overlays l).
Definition set_vai (v : VaiDir) (l : Local) : Local := mkLocal (lc_tree l) v (lc_has_vai l) (lc_overlays l).

Section remote.
Context {R : Type} `{RemoteAdapter R}.
Variable clock : nat -> DateTime.
Variable parse_uuid : string -> option Uuid.
Variable sha256_hex : bytes -> string.
Variable iter_order : gset string -> list string.
(** The archive library, and base64. *)
Variable pack : list TarEntry -> bytes.
Variable unpack : bytes -> option (list TarEntry).
Variable b64_decode : string -> option bytes.

Abbreviation World := (Local * R)%type.
Abbreviation S := (M World RemoteError).

Definition on_remote {A} (m : M R RemoteError A) : S A := fun '(l, r) => let '(o, r') := m r in (o, (l, r')).
Definition on_local {A} (m : M Local RemoteError A) : S A := fun '(l, r) => let '(o, l') := m l in (o, (l', r)).
Definition local_state : S Local := fun '(l, r) => (Ok l, (l, r)).

(** [collect_local_hashes] *)
Definition collect_local_hashes (t : gmap string bytes) : gmap string string :=
  sha256_hex <$> filter (fun f => tracked f.1 = true) t.

(** [build_full_tarball]; the mode bits are not kept. *)
Definition build_full_tarball (t : gmap string bytes) : bytes :=
  pack ((fun f => mkEntry Regular (normalise_separators f.1) f.2)
          <$> iter_map iter_order (filter (fun f => tracked f.1 = true) t)).

Definition read_local_head : M Local RemoteError string := fun l =>
  (match head_file (lc_vai l) with Some raw => Ok (trim raw) | None => Err RIo end, l).

Definition write_head (v : string) : M Local RemoteError unit :=
  modify_st (fun l => set_vai (set_head (Some (v +:+ String LF EmptyString)) (lc_vai l)) l).

(** [create_dir_all] of the parent and [write]. *)
Definition write_tree (path : string) (content : bytes) : M Local RemoteError unit := fun l =>
  if is_dir (lc_tree l) path || below_file (lc_tree l) path then (Err RIo, l)
  else (Ok tt, set_tree (<[path := content]> (lc_tree l)) l).

(** [if dest.exists() { remove_file(dest)? }] *)
Definition remove_if_there (path : string) : M Local RemoteError unit := fun l =>
  if path_exists (lc_tree l) path then
    match lc_tree l !! path with
    | Some _ => (Ok tt, set_tree (delete path (lc_tree l)) l)
    | None => (Err RIo, l)
    end
  else (Ok tt, l).

(** ** Push *)

(** A list collected into a hash map: later entries win. *)
Definition manifest_map (files : list ManifestEntry) : gmap string string :=
  foldl (fun m e => <[me_path e := me_sha256 e]> m) ∅ files.

Definition push_event (w : Uuid) (server_map : gmap string string) (f : string * string) : option EventKind :=
  match server_map !! f.1 with
  | Some server_hash => if String.eqb server_hash f.2 then None else Some (FileModified w f.1 server_hash f.2)
  | None => Some (FileAdded w f.1 f.2)
  end.

(** The events and the version of a push; an identifier that is no UUID ends it. *)
Definition write_push_local_events (workspace_id parent new_version intent : string)
    (local_map server_map : gmap string string) (deleted : list string) : M VaiDir RemoteError unit :=
  match parse_uuid workspace_id with
  | None => fail RServer
  | Some w =>
      _ ← Diff.append_all clock (omap (push_event w server_map) (iter_map iter_order local_map));
      _ ← Diff.append_all clock (FileRemoved w <$> deleted);
      merge_event ← append_event clock (MergeCompleted w new_version 0);
      _ ← append_event clock (VersionCreated new_version (Some parent) intent);
      _ ← create_version clock new_version (Some parent) intent "agent" (Some (ev_id merge_event));
      mret tt
  end.

Definition is_modified (server_map : gmap string string) (f : string * string) : bool :=
  match server_map !! f.1 with Some h => negb (String.eqb h f.2) | None => false end.
Definition is_added (server_map : gmap string string) (f : string * string) : bool :=
  match server_map !! f.1 with Some _ => false | None => true end.

(** The steps of a push that change something: the workspace, the snapshot, the
    submission, and the local record of them. *)
Definition send_changes (message server_version : string) (local_map server_map : gmap string string)
    (deleted_paths : list string) : S PushOutcome :=
  workspace_id ← on_remote (create_remote_workspace message);
  l ← local_state;
  stats ← on_remote (upload_snapshot workspace_id (build_full_tarball (lc_tree l)));
  result ← on_remote (submit_workspace workspace_id);
  _ ← (if lc_has_vai l then
         _ ← on_local (write_head (rs_version result));
         on_local (fun l' =>
           let '(_, v) := write_push_local_events workspace_id server_version (rs_version result) message
                            local_map server_map deleted_paths (lc_vai l') in
           (Ok tt, set_vai v l'))
       else mret tt);
  mret (mkPush (rs_version result) (up_added stats) (up_modified stats) (up_deleted stats) []
          (rs_files_applied result) false).

Definition push (message : string) (dry_run force : bool) : S PushOutcome :=
  manifest ← on_remote get_manifest;
  l ← local_state;
  let server_map := manifest_map (mr_files manifest) in
  let local_map := collect_local_hashes (lc_tree l) in
  let modified := length (filter (fun f => is_modified server_map f) (iter_map iter_order local_map)) in
  let added := length (filter (fun f => is_added server_map f) (iter_map iter_order local_map)) in
  let deleted_paths := sort_strings (filter (fun p => local_map !! p = None) (iter_order (dom server_map))) in
  let deleted := length deleted_paths in
  if (modified =? 0) && (added =? 0) && (deleted =? 0) then fail NothingToPush
  else if negb force && negb dry_run && negb (bool_decide (deleted_paths = [])) then
    fail (PushWouldDeleteFiles deleted_paths)
  else if dry_run then mret (mkPush (mr_version manifest) added modified deleted deleted_paths 0 true)
  else send_changes message (mr_version manifest) local_map server_map deleted_paths.

(** ** Pull *)

Definition is_write (e : FilePullEntry) : bool :=
  match fp_change e with CkAdded | CkModified => true | CkRemoved => false end.

(** The entries that carry a content are written. *)
Fixpoint apply_writes (entries : list FilePullEntry) : M Local RemoteError (list string) :=
  match entries with
  | [] => mret []
  | e :: entries' =>
      match fp_content e with
      | None => apply_writes entries'
      | Some b64 =>
          match b64_decode b64 with
          | None => fail RBase64
          | Some content =>
              _ ← write_tree (fp_path e) content;
              rest ← apply_writes entries';
              mret (fp_path e :: rest)
          end
      end
  end.

(** The files of the server that the tree lacks are fetched one by one; the hashes
    are those from before. *)
Fixpoint restore_missing (updated : list string) (local_map : gmap string string) (files : list ManifestEntry) :
    S (list string) :=
  match files with
  | [] => mret []
  | e :: files' =>
      if bool_decide (me_path e ∈ updated) then restore_missing updated local_map files'
      else if bool_decide (is_Some (local_map !! me_path e)) then restore_missing updated local_map files'
      else
        content ← on_remote (download_file (me_path e));
        _ ← on_local (write_tree (me_path e) content);
        rest ← restore_missing updated local_map files';
        mret (me_path e :: rest)
  end.

Definition write_version_metas (since : N) : S unit :=
  metas ← on_remote (fetch_versions_since since);
  on_local (modify_st (fun l => set_vai (set_versions
    (foldl (fun m vm => <[version_id vm := vm]> m) (versions (lc_vai l)) metas) (lc_vai l)) l)).

Definition pull : S PullOutcome :=
  local_head ← on_local read_local_head;
  result ← on_remote (pull_incremental local_head);
  let apply := negb (String.eqb (ip_head_version result) local_head) && negb (bool_decide (ip_files result = [])) in
  let to_remove := filter (fun e => is_write e = false) (ip_files result) in
  updated ← (if apply then on_local (apply_writes (filter (fun e => is_write e = true) (ip_files result)))
             else mret []);
  _ ← (if apply then on_local (for_each (fun e => remove_if_there (fp_path e)) to_remove) else mret tt);
  let removed := if apply then fp_path <$> to_remove else [] in
  manifest ← on_remote get_manifest;
  l ← local_state;
  restored ← restore_missing updated (collect_local_hashes (lc_tree l)) (mr_files manifest);
  let new_version := ip_head_version result in
  _ ← (if String.eqb new_version local_head then mret tt
       else _ ← on_local (write_head new_version); write_version_metas (parse_version_num local_head));
  mret (mkPull local_head new_version updated removed (sort_strings restored)
          (bool_decide (updated = []) && bool_decide (removed = []) && bool_decide (restored = []) &&
             String.eqb new_version local_head) false).

(** ** Force pull *)

(** [extract_tarball]: the entries before one that would leave the tree, or that
    cannot be written, are there. A directory entry leaves no file. *)
Fixpoint extract_tarball (entries : list TarEntry) : M Local RemoteError (list string) :=
  match entries with
  | [] => mret []
  | e :: entries' =>
      match te_type e with
      | Regular =>
          if starts_with "/" (te_path e) || bool_decide (".."%string ∈ components (te_path e)) then fail RTarball
          else
            let path := join "/" (filter (fun c => c <> EmptyString /\ c <> "."%string) (components (te_path e))) in
            _ ← write_tree path (te_content e);
            rest ← extract_tarball entries';
            mret (path :: rest)
      | Directory =>
          if starts_with "/" (te_path e) || bool_decide (".."%string ∈ components (te_path e)) then fail RTarball
          else extract_tarball entries'
      | _ => extract_tarball entries'
      end
  end.

Definition tarball_paths (entries : list TarEntry) : list string :=
  omap (fun e => match te_type e with Regular => Some (normalise_separators (te_path e)) | _ => None end) entries.

(** What [remove_stale_local_files] deletes: the walk does not skip secret files. *)
Definition stale (server_paths : list string) (path : string) : bool :=
  walked path && negb (bool_decide (path ∈ server_paths)).

Definition pull_force : S PullOutcome :=
  l ← local_state;
  let local_head := match (read_local_head l).1 with Ok h => h | _ => ""%string end in
  dl ← on_remote download_full;
  match unpack (tarball_gz dl) with
  | None => fail RTarball
  | Some entries =>
      let server_paths := tarball_paths entries in
      if match expected_file_count dl with Some n => negb (length server_paths =? n) | None => false end
      then fail (PartialDownload (length server_paths) (default 0 (expected_file_count dl)))
      else
        l ← local_state;
        let removed := filter (fun p => stale server_paths p = true) (iter_order (dom (lc_tree l))) in
        _ ← on_local (modify_st (set_tree (filter (fun f => stale server_paths f.1 = false) (lc_tree l))));
        updated ← on_local (extract_tarball entries);
        _ ← (if String.eqb (dl_head_version dl) "unknown" then mret tt else on_local (write_head (dl_head_version dl)));
        _ ← write_version_metas 0;
        mret (mkPull local_head (dl_head_version dl) updated removed [] false true)
  end.

(** ** Sync *)

(** What follows the first occurrence. *)
Fixpoint after_version (v : string) (l : list string) : option (list string) :=
  match l with
  | [] => None
  | x :: l' => if String.eqb x v then Some l' else after_version v l'
  end.

(** The last kind of change of each path. *)
Fixpoint collect_changes (versions : list string) (changes : gmap string ChangeKind) : S (gmap string ChangeKind) :=
  match versions with
  | [] => mret changes
  | v :: versions' =>
      cs ← on_remote (get_remote_changes v);
      collect_changes versions' (foldl (fun m c => <[vfc_path c := vfc_change c]> m) changes cs)
  end.

Definition sync_download (path : string) : S unit :=
  content ← on_remote (download_file path);
  on_local (write_tree path content).

Definition detect_workspace_conflicts (changed : list string) (l : Local) : list WorkspaceConflict :=
  match active_file (lc_vai l) with
  | None => []
  | Some text =>
      let active_id := trim text in
      if String.eqb active_id "" then []
      else match workspaces (lc_vai l) !! active_id with
           | None => []
           | Some meta =>
               (fun p => mkWsConflict p (ws_intent meta)) <$>
                 filter (fun p => p ∈ changed) (default [] (lc_overlays l !! active_id))
           end
  end.

Definition sync : S SyncOutcome :=
  local_head ← on_local read_local_head;
  server_head ← on_remote get_server_head;
  if String.eqb local_head server_head then mret (mkSync local_head local_head [] [] true [])
  else
    all_versions ← on_remote list_remote_versions;
    match after_version local_head all_versions with
    | None => fail LocalVersionNotFound
    | Some new_versions =>
        changes ← collect_changes new_versions ∅;
        let to_download := sort_strings (filter (fun p => changes !! p <> Some CkRemoved) (iter_order (dom changes))) in
        let to_remove := sort_strings (filter (fun p => changes !! p = Some CkRemoved) (iter_order (dom changes))) in
        _ ← for_each sync_download to_download;
        _ ← on_local (for_each remove_if_there to_remove);
        _ ← on_local (write_head server_head);
        l ← local_state;
        mret (mkSync local_head server_head to_download to_remove false
                (detect_workspace_conflicts (to_download ++ to_remove) l))
    end.
End remote.

(** ** What a client relies on *)

(** The entries of an incremental pull account for the difference between two
    trees, except that a removal is no claim about the new tree. *)
Definition covers (b64_encode : bytes -> string) (files old : gmap string bytes) (entries : list FilePullEntry) : Prop :=
  NoDup (fp_path <$> entries) /\
  forall p, match find_by fp_path p entries with
            | None => files !! p = old !! p
            | Some e => fp_content e = match fp_change e with
                                       | CkRemoved => None
                                       | _ => b64_encode <$> files !! p
                                       end
            end.

(** The contract of the reads: the server shows a version, and the files at it;
    [rm_was r v old] says that [old] are the files that a client of version [v] has;
    where [rm_serves], single files can be fetched. *)
Class RemoteSpec (R : Type) `{RemoteAdapter R} (sha256_hex : bytes -> string) (b64_encode : bytes -> string) : Type := {
  rm_wf : R -> Prop;
  rm_files : R -> gmap string bytes;
  rm_head : R -> string;
  rm_was : R -> string -> gmap string bytes -> Prop;
  rm_serves : R -> Prop;
  get_manifest_spec r : rm_wf r -> exists man,
    get_manifest r = (Ok man, r) /\ mr_version man = rm_head r /\ NoDup (me_path <$> mr_files man) /\
    forall p h, mkManifest p h ∈ mr_files man <-> sha256_hex <$> rm_files r !! p = Some h;
  pull_incremental_spec r v old : rm_wf r -> rm_was r v old -> exists resp,
    pull_incremental v r = (Ok resp, r) /\ ip_head_version resp = rm_head r /\
    covers b64_encode (rm_files r) old (ip_files resp);
  download_file_spec r p c : rm_wf r -> rm_serves r -> rm_files r !! p = Some c -> download_file p r = (Ok c, r);
  fetch_versions_spec r n : rm_wf r -> exists metas, fetch_versions_since n r = (Ok metas, r);
  rm_was_head r old : rm_wf r -> rm_was r (rm_head r) old -> old = rm_files r
}.

(** No path of the set is a directory of another one. *)
Definition no_clash (X : gset string) : Prop :=
  forall p q, p ∈ X -> q ∈ X -> starts_with (p +:+ "/") q = false.

#[export] Instance no_clash_dec X : Decision (no_clash X).
Proof.
  refine (cast_if (decide (set_Forall (fun p => set_Forall (fun q => starts_with (p +:+ "/") q = false) X) X)));
    unfold no_clash, set_Forall in *; firstorder.
Defined.

Lemma no_clash_fits (X : gset string) (t : gmap string bytes) p :
  no_clash X -> dom t ⊆ X -> p ∈ X -> is_dir t p = false /\ below_file t p = false.
Proof.
  intros Hn Ht Hp. split; apply not_true_is_false; intros (q & Hq & E)%existsb_exists;
    apply list_elem_of_In, elem_of_elements, Ht in Hq.
  - by rewrite (Hn p q Hp Hq) in E.
  - by rewrite (Hn q p Hq Hp) in E.
Qed.

Lemma set_tree_twice t1 t2 l : set_tree t2 (set_tree t1 l) = set_tree t2 l.
Proof. done. Qed.
Lemma set_tree_id l : set_tree (lc_tree l) l = l.
Proof. by destruct l. Qed.

Lemma find_by_cons_ne {A} (key : A -> string) k x l : key x <> k -> find_by key k (x :: l) = find_by key k l.
Proof. intros Hne. unfold find_by. by rewrite filter_cons_False. Qed.
Lemma find_by_cons_eq {A} (key : A -> string) k x l : key x = k -> find_by key k (x :: l) = Some x.
Proof. intros E. unfold find_by. by rewrite filter_cons_True. Qed.

Section tree.
Variable X : gset string.
Hypothesis clash_free : no_clash X.

Lemma write_tree_ok p c l :
  dom (lc_tree l) ⊆ X -> p ∈ X -> write_tree p c l = (Ok tt, set_tree (<[p := c]> (lc_tree l)) l).
Proof using clash_free.
  intros Hd Hp. unfold write_tree. by destruct (no_clash_fits X (lc_tree l) p clash_free Hd Hp) as [-> ->].
Qed.

Lemma remove_if_there_ok p l :
  dom (lc_tree l) ⊆ X -> p ∈ X -> remove_if_there p l = (Ok tt, set_tree (delete p (lc_tree l)) l).
Proof using clash_free.
  intros Hd Hp. unfold remove_if_there, path_exists.
  destruct (no_clash_fits X (lc_tree l) p clash_free Hd Hp) as [-> _]. rewrite orb_false_r.
  case_bool_decide as Hs.
  - destruct (lc_tree l !! p); [done|]. by destruct Hs.
  - rewrite delete_id; [by rewrite set_tree_id|]. by apply eq_None_not_Some.
Qed.

Lemma remove_all_ok (entries : list FilePullEntry) l :
  dom (lc_tree l) ⊆ X -> (forall e, e ∈ entries -> fp_path e ∈ X) ->
  exists t, for_each (fun e => remove_if_there (fp_path e)) entries l = (Ok tt, set_tree t l) /\ dom t ⊆ X /\
    forall p, t !! p = if decide (p ∈ fp_path <$> entries) then None else lc_tree l !! p.
Proof using clash_free.
  revert l; induction entries as [|e entries IH]; intros l Hd HX; simpl.
  { exists (lc_tree l). by rewrite set_tree_id. }
  rewrite (M_bind_ok _ _ _ _ _ (remove_if_there_ok (fp_path e) l Hd (HX e ltac:(by left)))).
  destruct (IH (set_tree (delete (fp_path e) (lc_tree l)) l)) as (t & E & Hdt & Ht).
  { simpl. rewrite dom_delete. set_solver. }
  { intros e' He'. apply HX. by right. }
  exists t. split_and!; [exact E|done|]. intros p. rewrite Ht. simpl.
  destruct (decide (p = fp_path e)) as [->|Hne].
  - rewrite lookup_delete_eq. rewrite (decide_True (P := _ ∈ _ :: _)) by by left. by case_decide.
  - rewrite lookup_delete_ne by done. apply decide_ext. rewrite elem_of_cons. tauto.
Qed.
Variable b64_decode : string -> option bytes.

(** The content that an entry brings. *)
Definition brought (e : FilePullEntry) : option bytes := fp_content e ≫= b64_decode.

Lemma apply_writes_ok entries l :
  dom (lc_tree l) ⊆ X -> (forall e, e ∈ entries -> fp_path e ∈ X) -> NoDup (fp_path <$> entries) ->
  (forall e b, e ∈ entries -> fp_content e = Some b -> is_Some (b64_decode b)) ->
  exists updated t, apply_writes b64_decode entries l = (Ok updated, set_tree t l) /\ dom t ⊆ X /\
    (forall p, p ∈ updated <-> exists e, find_by fp_path p entries = Some e /\ is_Some (fp_content e)) /\
    (forall p, t !! p = match find_by fp_path p entries ≫= brought with Some c => Some c | None => lc_tree l !! p end).
Proof using clash_free.
  revert l; induction entries as [|e entries IH]; intros l Hd HX Hnd Hdec; simpl.
  { exists [], (lc_tree l). rewrite set_tree_id. split_and!; [done..| |done]. intros p. rewrite elem_of_nil.
    split; [done|]. by intros (e & ? & _). }
  simpl in Hnd. apply NoDup_cons in Hnd as [Hnin Hnd].
  assert (Hnone : find_by fp_path (fp_path e) entries = None) by by apply find_by_None.
  assert (HX' : forall e', e' ∈ entries -> fp_path e' ∈ X) by (intros; apply HX; by right).
  assert (Hdec' : forall e' b, e' ∈ entries -> fp_content e' = Some b -> is_Some (b64_decode b))
    by (intros e' b He'; apply Hdec; by right).
  destruct (fp_content e) as [b64|] eqn:Ec.
  - destruct (Hdec e b64) as [c Hc]; [by left|done|]. rewrite Hc.
    rewrite (M_bind_ok _ _ _ _ _ (write_tree_ok (fp_path e) c l Hd (HX e ltac:(by left)))).
    destruct (IH (set_tree (<[fp_path e := c]> (lc_tree l)) l)) as (upd & t & E & Hdt & Hu & Ht); [|done..|].
    { simpl. rewrite dom_insert. pose proof (HX e ltac:(by left)). set_solver. }
    exists (fp_path e :: upd), t. rewrite (M_bind_ok _ _ _ _ _ E). split_and!; [done|done| |].
    + intros p. rewrite elem_of_cons, Hu. destruct (decide (fp_path e = p)) as [<-|Hne].
      * rewrite (find_by_cons_eq fp_path) by done. split; [|by left]. intros _. exists e. by rewrite Ec.
      * rewrite find_by_cons_ne by done. split; [intros [->|]; done|by right].
    + intros p. rewrite Ht. simpl. destruct (decide (fp_path e = p)) as [<-|Hne].
      * rewrite (find_by_cons_eq fp_path) by done. rewrite Hnone. unfold brought. simpl. rewrite Ec. simpl.
        by rewrite Hc, lookup_insert_eq.
      * rewrite find_by_cons_ne by done. by rewrite lookup_insert_ne.
  - destruct (IH l Hd HX' Hnd Hdec') as (upd & t & E & Hdt & Hu & Ht). exists upd, t. split_and!; [done..| |].
    + intros p. rewrite Hu. destruct (decide (fp_path e = p)) as [<-|Hne].
      * rewrite (find_by_cons_eq fp_path), Hnone by done. split; [by intros (? & ? & _)|].
        intros (e' & [= <-] & Hs). rewrite Ec in Hs. by destruct Hs.
      * by rewrite find_by_cons_ne.
    + intros p. rewrite Ht. destruct (decide (fp_path e = p)) as [<-|Hne].
      * rewrite (find_by_cons_eq fp_path), Hnone by done. unfold brought. simpl. by rewrite Ec.
      * by rewrite find_by_cons_ne.
Qed.

End tree.

Section pulling.
Context {R : Type} (sha256_hex : bytes -> string) (b64_encode : bytes -> string) `{RemoteSpec R sha256_hex b64_encode}.
Variable b64_decode : string -> option bytes.
Hypothesis codec : forall c, b64_decode (b64_encode c) = Some c.

(** Without single files on offer, there must be nothing to restore. *)
Lemma restore_missing_ok X updated local_map files l r :
  no_clash X -> dom (lc_tree l) ⊆ X -> rm_wf r ->
  (forall e, e ∈ files -> me_path e ∈ X /\ is_Some (rm_files r !! me_path e)) -> NoDup (me_path <$> files) ->
  rm_serves r \/ (forall e, e ∈ files -> me_path e ∈ updated \/ is_Some (local_map !! me_path e)) ->
  exists restored t, restore_missing updated local_map files (l, r) = (Ok restored, (set_tree t l, r)) /\
    dom t ⊆ X /\
    forall p, t !! p = (if decide (p ∈ me_path <$> files /\ (p ∉ updated) /\ local_map !! p = None)
                        then (rm_files r !! p) else (lc_tree l !! p)).
Proof.
  intros Hn. revert l; induction files as [|e files IH]; intros l Hd Hwf HX Hnd Hs.
  { exists [], (lc_tree l). rewrite set_tree_id. split_and!; [done..|]. intros p. rewrite decide_False; [done|].
    by intros (?%not_elem_of_nil & _). }
  cbn [restore_missing].
  simpl in Hnd. apply NoDup_cons in Hnd as [Hnin Hnd].
  assert (HX' : forall e', e' ∈ files -> me_path e' ∈ X /\ is_Some (rm_files r !! me_path e'))
    by (intros; apply HX; by right).
  assert (Hs' : rm_serves r \/ (forall e', e' ∈ files -> me_path e' ∈ updated \/ is_Some (local_map !! me_path e'))).
  { destruct Hs as [|Hs]; [by left|right]. intros e' He'. apply Hs. by right. }
  assert (Hskip : me_path e ∈ updated \/ is_Some (local_map !! me_path e) ->
    forall p, (if decide (p ∈ me_path <$> files /\ (p ∉ updated) /\ local_map !! p = None) then (rm_files r !! p) else (lc_tree l !! p)) =
      (if decide (p ∈ me_path e :: (me_path <$> files) /\ (p ∉ updated) /\ local_map !! p = None)
       then (rm_files r !! p) else (lc_tree l !! p))).
  { intros Hsk p. apply decide_ext. rewrite elem_of_cons. split; [tauto|]. intros ([->|Hp] & Hu & Hl); [|tauto].
    exfalso. destruct Hsk as [|[x Hx]]; [done|congruence]. }
  case_bool_decide as Hu.
  { destruct (IH l Hd Hwf HX' Hnd Hs') as (rest & t & E & Hdt & Ht). exists rest, t. split_and!; [done..|].
    intros p. rewrite Ht. apply Hskip. by left. }
  case_bool_decide as Hl.
  { destruct (IH l Hd Hwf HX' Hnd Hs') as (rest & t & E & Hdt & Ht). exists rest, t. split_and!; [done..|].
    intros p. rewrite Ht. apply Hskip. by right. }
  assert (Hsv : rm_serves r) by (destruct Hs as [|Hs]; [done|destruct (Hs e ltac:(by left)); done]).
  destruct (HX e ltac:(by left)) as [HeX [c Hc]].
  rewrite (M_bind_ok _ _ (l, r) c (l, r)) by (unfold on_remote; by rewrite (download_file_spec r _ c Hwf Hsv Hc)).
  set (l1 := set_tree (<[me_path e := c]> (lc_tree l)) l).
  rewrite (M_bind_ok _ _ (l, r) tt (l1, r)) by (unfold on_local; by rewrite (write_tree_ok X Hn (me_path e) c l Hd HeX)).
  assert (Hd1 : dom (lc_tree l1) ⊆ X).
  { simpl. rewrite dom_insert_L. apply union_subseteq. split; [by apply singleton_subseteq_l|done]. }
  destruct (IH l1 Hd1 Hwf HX' Hnd Hs') as (rest & t & E & Hdt & Ht).
  exists (me_path e :: rest), t. rewrite (M_bind_ok _ _ _ _ _ E). split_and!; [done|done|]. intros p. rewrite Ht. simpl.
  destruct (decide (p = me_path e)) as [->|Hne].
  - rewrite (decide_False (P := _ ∈ me_path <$> files /\ _)) by (by intros [? _]).
    rewrite lookup_insert_eq, decide_True; [done|]. split_and!; [by left|done|by apply eq_None_not_Some].
  - rewrite lookup_insert_ne by done. apply decide_ext. rewrite elem_of_cons. tauto.
Qed.

(** The paths that a pull has to do with. *)
Definition pull_paths (l : Local) (r : R) (entries : list FilePullEntry) : gset string :=
  dom (lc_tree l) ∪ dom (rm_files r) ∪ list_to_set (fp_path <$> entries).

(** The client had the file, the server has it no more, and an entry says that it
    changed, but not that it was removed. *)
Definition phantom (old : gmap string bytes) (entries : list FilePullEntry) (p : string) : Prop :=
  is_Some (old !! p) /\ exists e, e ∈ entries /\ fp_path e = p /\ fp_change e <> CkRemoved /\ fp_content e = None.

Lemma phantom_absent files old entries p :
  covers b64_encode files old entries -> phantom old entries p -> files !! p = None.
Proof.
  intros [Hnd Hcov] (_ & e & He & <- & Hw & Hc). specialize (Hcov (fp_path e)).
  rewrite (find_by_elem fp_path _ entries e), Hc in Hcov by done.
  destruct (files !! fp_path e); [|done]. by destruct (fp_change e).
Qed.

(** The tree after the first pass. *)
Record first_pass (X : gset string) (old : gmap string bytes) (entries : list FilePullEntry) (files : gmap string bytes) (updated : list string)
    (t : gmap string bytes) : Prop := {
  f1_dom : dom t ⊆ X;
  f1_updated p : p ∈ updated -> is_Some (t !! p);
  f1_tree p : tracked p = true -> ~ phantom old entries p -> t !! p = files !! p \/
    (t !! p = None /\ exists e, e ∈ entries /\ fp_path e = p /\ fp_change e = CkRemoved)
}.

Lemma is_write_removed e : is_write e = false <-> fp_change e = CkRemoved.
Proof. unfold is_write. by destruct (fp_change e). Qed.

Lemma first_pass_ok l r old entries :
  let X := pull_paths l r entries in
  no_clash X -> (forall p, tracked p = true -> lc_tree l !! p = old !! p) ->
  covers b64_encode (rm_files r) old entries ->
  exists updated t1 t,
    apply_writes b64_decode (filter (fun e => is_write e = true) entries) l = (Ok updated, set_tree t1 l) /\
    for_each (fun e => remove_if_there (fp_path e)) (filter (fun e => is_write e = false) entries) (set_tree t1 l) =
      (Ok tt, set_tree t l) /\
    first_pass X old entries (rm_files r) updated t.
Proof using codec.
  intros X Hn Hclean [Hnd Hcov].
  set (ws := filter (fun e => is_write e = true) entries). set (rs := filter (fun e => is_write e = false) entries).
  assert (HX : forall e, e ∈ entries -> fp_path e ∈ X).
  { intros e He. apply elem_of_union_r, elem_of_list_to_set. by apply list_elem_of_fmap_2. }
  assert (Hfind : forall e, e ∈ entries -> find_by fp_path (fp_path e) entries = Some e)
    by (intros; by apply find_by_elem).
  assert (Hdec : forall e b, e ∈ ws -> fp_content e = Some b -> is_Some (b64_decode b)).
  { intros e b [Hw He]%list_elem_of_filter Hb. pose proof (Hcov (fp_path e)) as Hc. rewrite (Hfind e He) in Hc.
    rewrite Hb in Hc. unfold is_write in Hw. destruct (fp_change e); [..|done];
      symmetry in Hc; apply fmap_Some in Hc as (c & _ & ->); rewrite codec; by eexists. }
  destruct (apply_writes_ok X Hn b64_decode ws l) as (updated & t1 & E1 & Hd1 & Hu1 & Ht1).
  { intros x Hx. apply elem_of_union_l. by apply elem_of_union_l. }
  { intros e [_ He]%list_elem_of_filter. auto. }
  { by apply filter_keys_NoDup. }
  { done. }
  destruct (remove_all_ok X Hn rs (set_tree t1 l)) as (t2 & E2 & Hd2 & Ht2); [done| |].
  { intros e [_ He]%list_elem_of_filter. auto. }
  exists updated, t1, t2. split_and!; [done..|].
  constructor; [done| |].
  { intros p (e & Ef & [b64 Hb])%Hu1. pose proof Ef as [[Hw He]%list_elem_of_filter Hpe]%find_by_Some.
    rewrite Ht2, decide_False.
    - simpl. rewrite Ht1, Ef. unfold brought. simpl. rewrite Hb. simpl.
      destruct (Hdec e b64) as [c ->]; [by apply list_elem_of_filter|done..].
    - intros (e' & Hpe' & [Hw' He']%list_elem_of_filter)%list_elem_of_fmap.
      pose proof (Hfind e He) as F1. pose proof (Hfind e' He') as F2. rewrite Hpe in F1. rewrite <-Hpe', F1 in F2.
      injection F2 as <-. congruence. }
  intros p Hp Hph. rewrite Ht2. simpl.
  case_decide as Hr.
  { right. split; [done|]. apply list_elem_of_fmap in Hr as (e & -> & [Hw He]%list_elem_of_filter).
    exists e. by rewrite <-is_write_removed. }
  left. rewrite Ht1. specialize (Hcov p). destruct (find_by fp_path p entries) as [e|] eqn:Ef.
  - pose proof Ef as [He Hpe]%find_by_Some. destruct (is_write e) eqn:Hw.
    + assert (find_by fp_path p ws = Some e) as ->.
      { apply find_by_elem; [by apply filter_keys_NoDup| |done]. by apply list_elem_of_filter. }
      assert (Hc : fp_content e = b64_encode <$> rm_files r !! p) by (unfold is_write in Hw; by destruct (fp_change e)).
      unfold brought. simpl. rewrite Hc. destruct (rm_files r !! p) as [c|]; simpl; [by rewrite codec|].
      rewrite Hclean by done. destruct (old !! p) as [c|] eqn:Eo; [|done].
      exfalso. apply Hph. split; [by rewrite Eo|]. exists e. split_and!; try done.
      intros Hrem. apply is_write_removed in Hrem. congruence.
    + exfalso. apply Hr, list_elem_of_fmap. exists e. split; [done|]. by apply list_elem_of_filter.
  - assert (find_by fp_path p ws = None) as ->.
    { apply find_by_None. intros (e & -> & [_ He]%list_elem_of_filter)%list_elem_of_fmap.
      rewrite Hfind in Ef by done. done. }
    simpl. rewrite Hclean by done. done.
Qed.

(** A pull, with the first pass done or skipped. *)
Lemma pull_first l r old raw resp :
  let X := pull_paths l r (ip_files resp) in
  no_clash X -> rm_wf r -> rm_was r (trim raw) old -> head_file (lc_vai l) = Some raw ->
  pull_incremental (trim raw) r = (Ok resp, r) ->
  (forall p, tracked p = true -> lc_tree l !! p = old !! p) ->
  exists updated removed t,
    first_pass X old (ip_files resp) (rm_files r) updated t /\ ip_head_version resp = rm_head r /\
    pull sha256_hex b64_decode (l, r) =
      (manifest ← on_remote get_manifest;
       l ← local_state;
       restored ← restore_missing updated (collect_local_hashes sha256_hex (lc_tree l)) (mr_files manifest);
       _ ← (if String.eqb (rm_head r) (trim raw) then mret tt
            else _ ← on_local (write_head (rm_head r)); write_version_metas (parse_version_num (trim raw)));
       mret (mkPull (trim raw) (rm_head r) updated removed (sort_strings restored)
          (bool_decide (updated = []) && bool_decide (removed = []) && bool_decide (restored = []) &&
             String.eqb (rm_head r) (trim raw)) false)) (set_tree t l, r).
Proof using codec.
  intros X Hn Hwf Hwas Hhead Hpull Hclean.
  destruct (pull_incremental_spec r (trim raw) old Hwf Hwas) as (resp' & Hp' & Hv & Hcov).
  rewrite Hpull in Hp'. injection Hp' as <-.
  assert (Hskip : negb (String.eqb (ip_head_version resp) (trim raw)) && negb (bool_decide (ip_files resp = [])) = false ->
    first_pass X old (ip_files resp) (rm_files r) [] (lc_tree l)).
  { intros Ha. constructor.
    - intros x Hx. apply elem_of_union_l. by apply elem_of_union_l.
    - by intros p ?%not_elem_of_nil.
    - intros p Hp _. left. rewrite Hclean by done. apply andb_false_iff in Ha as [Ha|Ha]; apply negb_false_iff in Ha.
      + apply String.eqb_eq in Ha. rewrite <-Ha, Hv in Hwas. by rewrite (rm_was_head r old Hwf Hwas).
      + apply bool_decide_eq_true in Ha. destruct Hcov as [_ Hcov]. specialize (Hcov p). by rewrite Ha in Hcov. }
  unfold pull. rewrite (M_bind_ok _ _ (l, r) (trim raw) (l, r)) by (unfold on_local, read_local_head; by rewrite Hhead).
  rewrite (M_bind_ok _ _ (l, r) resp (l, r)) by (unfold on_remote; by rewrite Hpull). cbv zeta.
  rewrite Hv in Hskip |- *.
  destruct (_ && _) eqn:Ha.
  - destruct (first_pass_ok l r old (ip_files resp) Hn Hclean Hcov) as (updated & t1 & t & E1 & E2 & F).
    exists updated, (fp_path <$> filter (fun e => is_write e = false) (ip_files resp)), t. split_and!; [done..|].
    rewrite (M_bind_ok _ _ (l, r) updated (set_tree t1 l, r)) by (unfold on_local; by rewrite E1).
    rewrite (M_bind_ok _ _ _ tt (set_tree t l, r)) by (unfold on_local; by rewrite E2). done.
  - exists [], [], (lc_tree l). split_and!; [by apply Hskip|done|]. rewrite set_tree_id.
    by rewrite !(M_bind_ok _ _ (l, r) _ (l, r)) by done.
Qed.

Lemma write_head_ok v l :
  write_head v l = (Ok tt, set_vai (set_head (Some (v +:+ String LF EmptyString)) (lc_vai l)) l).
Proof. done. Qed.

Lemma pull_ok l r old raw resp :
  no_clash (pull_paths l r (ip_files resp)) -> rm_wf r -> rm_was r (trim raw) old -> head_file (lc_vai l) = Some raw ->
  pull_incremental (trim raw) r = (Ok resp, r) ->
  (forall p, tracked p = true -> lc_tree l !! p = old !! p) ->
  (forall p, is_Some (rm_files r !! p) -> tracked p = true) ->
  trim (rm_head r +:+ String LF EmptyString) = rm_head r ->
  rm_serves r \/ (forall e, e ∈ ip_files resp -> fp_change e = CkRemoved -> rm_files r !! fp_path e = None) ->
  exists out l', pull sha256_hex b64_decode (l, r) = (Ok out, (l', r)) /\
    read_local_head l' = (Ok (rm_head r), l') /\
    forall p, tracked p = true -> ~ phantom old (ip_files resp) p -> lc_tree l' !! p = rm_files r !! p.
Proof using codec.
  intros Hn Hwf Hwas Hhead Hpull Hclean Htr Htrim Hs.
  destruct (pull_first l r old raw resp Hn Hwf Hwas Hhead Hpull Hclean) as (updated & removed & t & F & Hv & ->).
  destruct (get_manifest_spec r Hwf) as (man & Em & _ & Hnd & Hman).
  destruct (pull_incremental_spec r (trim raw) old Hwf Hwas) as (resp' & Hp' & _ & Hcov).
  rewrite Hpull in Hp'. injection Hp' as <-.
  rewrite (M_bind_ok _ _ (set_tree t l, r) man (set_tree t l, r)) by (unfold on_remote; by rewrite Em).
  rewrite (M_bind_ok _ _ (set_tree t l, r) (set_tree t l) (set_tree t l, r)) by done. simpl lc_tree.
  assert (Hin : forall p, p ∈ me_path <$> mr_files man <-> is_Some (rm_files r !! p)).
  { intros p. rewrite list_elem_of_fmap. split.
    - intros ([q h] & -> & He). apply Hman in He. apply fmap_Some in He as (c & Hc & _). simpl. rewrite Hc. by eexists.
    - intros [c Hc]. exists (mkManifest p (sha256_hex c)). split; [done|]. apply Hman. by rewrite Hc. }
  assert (Hlocal : forall p, collect_local_hashes sha256_hex t !! p = None <-> t !! p = None \/ tracked p = false).
  { intros p. unfold collect_local_hashes. rewrite lookup_fmap, fmap_None, map_lookup_filter_None. split.
    - intros [?|Hf]; [by left|]. destruct (t !! p) as [c|] eqn:Et; [|by left]. right.
      apply not_true_is_false. by apply (Hf c).
    - intros [?|Hf]; [by left|]. right. intros c _. simpl. by rewrite Hf. }
  destruct (restore_missing_ok _ updated (collect_local_hashes sha256_hex t) (mr_files man) (set_tree t l) r Hn)
    as (restored & t' & Er & _ & Ht'); [apply F|done| |done| |].
  { intros e He. assert (Hs' : is_Some (rm_files r !! me_path e)) by (apply Hin; by apply list_elem_of_fmap_2).
    split; [|done]. apply elem_of_union_l, elem_of_union_r. by apply elem_of_dom. }
  { destruct Hs as [Hs|Hs]; [by left|right]. intros e He. right.
    assert (Hs' : is_Some (rm_files r !! me_path e)) by (apply Hin; by apply list_elem_of_fmap_2).
    pose proof (Htr _ Hs') as Ht. apply not_eq_None_Some. intros [Hnone|?]%Hlocal; [|congruence].
    destruct (f1_tree _ _ _ _ _ _ F (me_path e) Ht) as [Eq|(_ & e' & He' & Hpe & Hrem)].
    - intros Hph. rewrite (phantom_absent _ _ _ _ Hcov Hph) in Hs'. by destruct Hs'.
    - rewrite <-Eq, Hnone in Hs'. by destruct Hs'.
    - rewrite <-Hpe, (Hs e' He' Hrem) in Hs'. by destruct Hs'. }
  rewrite (M_bind_ok _ _ _ _ _ Er). rewrite set_tree_twice.
  assert (Htree : forall p, tracked p = true -> ~ phantom old (ip_files resp) p -> t' !! p = rm_files r !! p).
  { intros p Hp Hph. rewrite Ht'. simpl. case_decide as Hd; [done|].
    destruct (f1_tree _ _ _ _ _ _ F p Hp Hph) as [?|[Hnone _]]; [done|]. rewrite Hnone.
    destruct (rm_files r !! p) as [c|] eqn:Ec; [|done]. exfalso. apply Hd. split_and!.
    - apply Hin. by rewrite Ec.
    - intros Hu%(f1_updated _ _ _ _ _ _ F). rewrite Hnone in Hu. by destruct Hu.
    - apply Hlocal. by left. }
  destruct (String.eqb_spec (rm_head r) (trim raw)) as [Hh|Hh].
  - rewrite (M_bind_ok _ _ _ tt (set_tree t' l, r)) by done. eexists _, (set_tree t' l). split_and!; [done| |done].
    unfold read_local_head. simpl. by rewrite Hhead, Hh.
  - destruct (fetch_versions_spec r (parse_version_num (trim raw)) Hwf) as [metas Ef].
    set (l1 := set_vai (set_head (Some (rm_head r +:+ String LF EmptyString)) (lc_vai l)) (set_tree t' l)).
    set (l2 := set_vai (set_versions (foldl (fun m vm => <[version_id vm := vm]> m) (versions (lc_vai l1)) metas) (lc_vai l1)) l1).
    rewrite (M_bind_ok _ _ (set_tree t' l, r) tt (l2, r)).
    + eexists _, l2. split_and!; [done| |done]. unfold read_local_head. simpl. by rewrite Htrim.
    + rewrite (M_bind_ok _ _ _ tt (l1, r)) by done. unfold write_version_metas.
      by rewrite (M_bind_ok _ _ (l1, r) metas (l1, r)) by (unfold on_remote; by rewrite Ef).
Qed.
End pulling.
