(* ===== verification/HttpAdapter.v ===== *)
(** The HTTP implementation of the remote port ([src/src/remote/http_adapter.rs]),
    connected to the handlers of [ServerRepo]: the paging of the version list, and
    the proof that its reads keep the contract of [Remote.RemoteSpec]; so a pull
    over HTTP brings a clean clone to the state of the server. *)
From S2P Require Import Prelude Table RustStr TextMerge Graph EventLog MergeEngine MergeFs VaiDir Workspace Version Diff Submit SubmitFrame Conflict Escalation Issue Pagination ServerRepo ServerPull ServerUpload Remote.

Lemma NoDup_fmap_omap {A B K K'} (key : A -> K) (f : A -> option B) (g : B -> K') l :
  NoDup (key <$> l) -> (forall x y a b, f x = Some a -> f y = Some b -> g a = g b -> key x = key y) ->
  NoDup (g <$> omap f l).
Proof.
  intros Hnd Hinj. induction l as [|x l IH]; [constructor|]. simpl in Hnd. apply NoDup_cons in Hnd as [Hx Hnd].
  simpl. destruct (f x) as [a|] eqn:Ea; [|by apply IH]. simpl. apply NoDup_cons. split; [|by apply IH].
  intros (b & Hab & (y & Hy & Eb)%list_elem_of_omap)%list_elem_of_fmap. apply Hx.
  rewrite (Hinj x y a b Ea Eb Hab). by apply list_elem_of_fmap_2.
Qed.

Section http.
Context {unicode : Unicode}.
Variable clock : nat -> DateTime.
Variable uuid : nat -> Uuid.
Variable parse_uuid : string -> option Uuid.
Variable sha256_hex : bytes -> string.
Variable iter_order : gset string -> list string.
Variable unpack : bytes -> option (list TarEntry).
Variable parse_manifest : bytes -> option DeltaManifest.
Variable b64_encode : bytes -> string.
Variable read_dir : gmap string VersionMeta -> list VersionMeta.
Variable parse_rust_source : string -> bytes -> outcome GraphError (list Entity * list Relationship).
Variable parse_source_file : string -> bytes -> outcome GraphError (list Entity * list Relationship).
(** The archive library of the server, and the database on an [ORDER BY]. *)
Variable pack_archive : list ArchiveEntry -> bytes.
Variable order_rows : list SortField -> list VersionMeta -> list VersionMeta.
(** Whether the key has the role that the call needs. *)
Variable allowed : bool.

Abbreviation H := (M ServerRepo HttpError).
Abbreviation C := (M ServerRepo RemoteError).

(** [list_versions_handler], with the statement of the store behind it. *)
Definition list_versions_handler (page per_page : option Z) (sort_str : option string) :
    H (PaginatedResponse VersionMeta) :=
  _ ← check allowed;
  match from_params page per_page sort_str ["created_at"; "version_id"; "created_by"]%string with
  | Ok query =>
      s ← get_st;
      let items := select_page query (order_rows (sort query) (sv_versions s)) in
      mret (paginated items (Z.of_nat (length (sv_versions s))) query)
  | _ => fail HtBadRequest
  end.

(** [get_json] and [post_json]: any status but success is [Server]; a handler that
    panics closes the connection. *)
Definition call {A} (m : H A) : C A := fun s =>
  match m s with
  | (Ok a, s') => (Ok a, s')
  | (Err _, s') => (Err RServer, s')
  | (Panic, s') => (Err RTransport, s')
  end.

Definition call_submit (m : H SubmitResult) : C SubmitResult := fun s =>
  match m s with
  | (Ok r, s') => (Ok r, s')
  | (Err HtConflict, s') => (Err RMergeConflict, s')
  | (Err _, s') => (Err RServer, s')
  | (Panic, s') => (Err RTransport, s')
  end.

Definition change_kind (c : FileChangeType) : ChangeKind :=
  match c with FctAdded => CkAdded | FctModified => CkModified | FctRemoved => CkRemoved end.

Definition PER_PAGE : Z := 100.

(** The loop over the pages, [page] being the next one. *)
Fixpoint fetch_pages (fuel : nat) (page : Z) (since : N) : C (list VersionMeta) :=
  match fuel with
  | O => lift Panic
  | S fuel' =>
      resp ← call (list_versions_handler (Some page) (Some PER_PAGE) (Some "created_at:asc"%string));
      let all := filter (fun v => (since < parse_version_num (version_id v))%N) (data resp) in
      if (total_pages (pagination resp) <=? page)%Z then mret all
      else rest ← fetch_pages fuel' (page + 1)%Z since; mret (all ++ rest)
  end.

(** [HttpAdapter]. No header asks for a destructive upload; the four routes without
    a repository's name, that [sync] uses, are none of the server's. *)
#[export] Instance http_adapter : RemoteAdapter ServerRepo := {
  get_manifest :=
    resp ← call (files_manifest_handler sha256_hex iter_order allowed);
    mret (mkManifestResult resp.1 ((fun e => mkManifest (mf_path e) (mf_sha256 e)) <$> resp.2));
  create_remote_workspace intent :=
    w ← call (create_workspace_handler clock uuid allowed intent); mret (ws_id w);
  upload_snapshot id tarball :=
    r ← call (upload_snapshot_handler clock parse_uuid sha256_hex iter_order unpack parse_manifest allowed id false tarball);
    mret (mkStats (us_added r) (us_modified r) (us_deleted r));
  submit_workspace id :=
    r ← call_submit (submit_workspace_handler clock uuid parse_uuid sha256_hex iter_order read_dir parse_rust_source
                       parse_source_file allowed id);
    mret (mkRSubmit (version_id (sr_version r)) (files_applied r));
  pull_incremental since :=
    resp ← call (files_pull_handler iter_order b64_encode allowed since);
    mret (mkIncremental (pr_base_version resp) (pr_head_version resp)
      ((fun e => mkFilePull (pe_path e) (change_kind (pe_change_type e)) (pe_content_base64 e)) <$> pr_files resp));
  download_full :=
    resp ← call (files_download_handler iter_order allowed None);
    mret (mkFullDownload resp.1 (pack_archive resp.2) (Some (length resp.2)));
  get_server_head := fail RServer;
  list_remote_versions := fail RServer;
  get_remote_changes _ := fail RServer;
  download_file _ := fail RServer;
  fetch_versions_since since := fun s => fetch_pages (S (length (sv_versions s))) 1 since s
}.

(** ** Paging *)

Hypothesis order_perm : forall fields rows, order_rows fields rows ≡ₚ rows.

Definition by_creation : list SortField := [mkSortField "created_at" Asc].

Lemma page_query page :
  (1 <= page)%Z ->
  from_params (Some page) (Some PER_PAGE) (Some "created_at:asc"%string) ["created_at"; "version_id"; "created_by"]%string =
    Ok (mkListQuery page PER_PAGE by_creation).
Proof using.
  intros Hp.
  assert (E : parse_sort "created_at:asc" ["created_at"; "version_id"; "created_by"]%string = Ok by_creation) by done.
  unfold from_params. cbn [default from_option]. unfold id. destruct (Z.eqb_spec page 0); [lia|]. by rewrite E.
Qed.

Lemma page_ok i s :
  allowed = true -> (Z.of_nat (length (sv_versions s)) < 2 ^ 32 - 1)%Z -> (Z.of_nat i < 2 ^ 32 - 1)%Z ->
  exists resp, list_versions_handler (Some (Z.of_nat (S i))) (Some PER_PAGE) (Some "created_at:asc"%string) s = (Ok resp, s) /\
    data resp = take 100 (drop (i * 100) (order_rows by_creation (sv_versions s))) /\
    ((total_pages (pagination resp) <= Z.of_nat (S i))%Z <-> length (sv_versions s) <= S i * 100).
Proof using.
  intros Ha Hlen Hi. unfold list_versions_handler. rewrite Ha, (M_bind_ok (check true) _ s tt s) by done.
  rewrite page_query by lia. rewrite (M_bind_ok get_st _ s s s) by done.
  eexists. split; [done|]. unfold paginated. cbn [data pagination total_pages page per_page sort].
  destruct (limit_offset_exact (mkListQuery (Z.of_nat (S i)) PER_PAGE by_creation)) as [El _];
    [simpl; lia|unfold PER_PAGE; simpl; lia|].
  split.
  - rewrite select_page_eq, El. cbn [page per_page fst snd]. unfold PER_PAGE.
    by replace (Z.to_nat ((Z.of_nat (S i) - 1) * 100)) with (i * 100) by lia.
  - destruct (div_ceil_spec (Z.of_nat (length (sv_versions s))) PER_PAGE) as (H0 & H1 & H2); [lia|done|].
    unfold u32_wrap, PER_PAGE in *. replace ((100 =? 0) || (100 =? u32_max))%Z with false by done.
    rewrite Z.mod_small by lia. lia.
Qed.

Lemma fetch_pages_ok since s fuel i :
  allowed = true -> (Z.of_nat (length (sv_versions s)) < 2 ^ 32 - 1)%Z -> (Z.of_nat i < 2 ^ 32 - 1)%Z ->
  length (sv_versions s) - i * 100 < fuel ->
  fetch_pages fuel (Z.of_nat (S i)) since s =
    (Ok (filter (fun v => (since < parse_version_num (version_id v))%N)
           (drop (i * 100) (order_rows by_creation (sv_versions s)))), s).
Proof using order_perm.
  intros Ha Hlen. revert i; induction fuel as [|fuel IH]; intros i Hi Hf; [lia|]. cbn [fetch_pages].
  destruct (page_ok i s Ha Hlen Hi) as (resp & E & Hd & Hp).
  rewrite (M_bind_ok _ _ s resp s) by (unfold call; by rewrite E). rewrite Hd.
  assert (Hl : length (order_rows by_creation (sv_versions s)) = length (sv_versions s)) by by rewrite order_perm.
  destruct (Z.leb_spec (total_pages (pagination resp)) (Z.of_nat (S i))) as [Hle|Hgt].
  - rewrite take_ge; [done|]. rewrite length_drop, Hl. apply Hp in Hle. lia.
  - assert (~ length (sv_versions s) <= S i * 100) by (rewrite <-Hp; lia).
    replace (Z.of_nat (S i) + 1)%Z with (Z.of_nat (S (S i))) by lia.
    rewrite (M_bind_ok _ _ _ _ _ (IH (S i) ltac:(lia) ltac:(lia))). unfold mret, M_ret. f_equal. f_equal.
    rewrite <-filter_app. f_equal. replace (S i * 100) with (i * 100 + 100) by lia.
    by rewrite <-drop_drop, take_drop.
Qed.

(** The loop ends, and collects every version after the given one, each once, in the
    order of the pages. *)
Lemma fetch_versions_ok since s :
  allowed = true -> (Z.of_nat (length (sv_versions s)) < 2 ^ 32 - 1)%Z ->
  fetch_versions_since since s =
    (Ok (filter (fun v => (since < parse_version_num (version_id v))%N) (order_rows by_creation (sv_versions s))), s).
Proof using order_perm.
  intros Ha Hl. apply (fetch_pages_ok since s (S (length (sv_versions s))) 0); [done..|lia].
Qed.

(** ** The contract of the reads *)

Hypothesis iter_perm : forall X, iter_order X ≡ₚ elements X.

Lemma files_manifest_ok s : exists files,
  files_manifest_handler sha256_hex iter_order true s = (Ok (default "v0"%string (sv_head s), files), s) /\
  NoDup (mf_path <$> files) /\
  forall p h, mkManifestEntry p h ∈ files <-> sha256_hex <$> current_files iter_order s !! p = Some h.
Proof using iter_perm.
  unfold files_manifest_handler. rewrite (M_bind_ok (check true) _ s tt s), (M_bind_ok get_st _ s s s) by done.
  set (entries := omap _ _).
  assert (Hin : forall p h, mkManifestEntry p h ∈ entries <-> p <> EmptyString /\ sha256_hex <$> current_at s p = Some h).
  { intros p h. unfold entries, list_stored. rewrite list_elem_of_omap. split.
    - intros ([k x] & [_ Hin]%list_elem_of_filter & Hk). apply (iter_map_elem _ iter_perm) in Hin. cbn [fst snd] in Hk.
      destruct (strip_prefix "current/" k) as [rel|] eqn:Es; [|done]. apply strip_prefix_Some in Es as ->.
      cbn [mbind option_bind] in Hk. destruct (String.eqb_spec rel ""); [done|]. injection Hk as -> <-.
      split; [done|]. unfold current_at, current_key. by rewrite Hin.
    - intros [Hp (c & Hc & ->)%fmap_Some]. exists (current_key p, c). split.
      + apply list_elem_of_filter. split; [apply Is_true_eq_left, starts_with_spec; by exists p|].
        by apply (iter_map_elem _ iter_perm).
      + cbn [fst snd]. unfold current_key. rewrite strip_prefix_app. cbn [mbind option_bind].
        by destruct (String.eqb_spec p ""). }
  assert (Hnd : NoDup (mf_path <$> entries)).
  { unfold entries. eapply (NoDup_fmap_omap fst).
    - unfold list_stored. apply (filter_keys_NoDup fst), iter_map_NoDup, iter_perm.
    - intros [k x] [k' x'] a b. cbn [fst snd].
      destruct (strip_prefix "current/" k) as [q|] eqn:E1; [|done].
      destruct (strip_prefix "current/" k') as [q'|] eqn:E2; [|done]. cbn [mbind option_bind].
      apply strip_prefix_Some in E1 as ->, E2 as ->.
      destruct (String.eqb q ""); [done|]. destruct (String.eqb q' ""); [done|]. intros [= <-] [= <-]. simpl. by intros ->. }
  eexists. split_and!; [done|by rewrite sort_by_perm|]. intros p h. rewrite sort_by_perm, Hin, current_files_lookup by done.
  destruct (String.eqb_spec p ""); split; [by intros []|done|by intros []|done].
Qed.

Lemma manifest_ok s :
  allowed = true -> exists man, get_manifest s = (Ok man, s) /\ mr_version man = default "v0"%string (sv_head s) /\
    NoDup (me_path <$> mr_files man) /\
    forall p h, mkManifest p h ∈ mr_files man <-> sha256_hex <$> current_files iter_order s !! p = Some h.
Proof using iter_perm.
  intros Ha. destruct (files_manifest_ok s) as (files & E & Hnd & Hin). cbn [get_manifest http_adapter].
  rewrite (M_bind_ok _ _ s (default "v0"%string (sv_head s), files) s) by (unfold call; by rewrite Ha, E).
  eexists. split; [done|]. cbn [mr_version mr_files fst snd]. split_and!; [done| |].
  - by rewrite <-list_fmap_compose.
  - intros p h. rewrite <-Hin, list_elem_of_fmap. split.
    + by intros ([q k] & [= -> ->] & He).
    + intros He. by exists (mkManifestEntry p h).
Qed.

(** The server after any requests, from a state in which its project was [old]. *)
Variable b64_decode : string -> option bytes.
Variable values : Engine -> list WorkspaceScope.
Hypothesis parse_uuid_ok : forall id u, parse_uuid id = Some u -> has_char "/" id = false /\ id_ok u.
Hypothesis read_dir_ok : dir_ok read_dir.

Abbreviation server_serve := (serve clock uuid parse_uuid sha256_hex iter_order unpack parse_manifest b64_decode values
  read_dir parse_rust_source parse_source_file).

Definition has_been (s : ServerRepo) (v : string) (old : gmap string bytes) : Prop :=
  exists rs s0, server_wf parse_uuid s0 /\ (head_num s0 + N.of_nat (length rs) < u64_bound)%N /\
    version_num v = head_num s0 /\ s = server_serve rs s0 /\ old = current_files iter_order s0.

(** The server has a version, no file without a name, and pages enough. *)
Definition served (s : ServerRepo) : Prop :=
  is_Some (sv_head s) /\ current_at s "" = None /\ (Z.of_nat (length (sv_versions s)) < 2 ^ 32 - 1)%Z.

Lemma has_been_head s old :
  has_been s (default "v0"%string (sv_head s)) old -> is_Some (sv_head s) -> old = current_files iter_order s.
Proof using iter_perm parse_uuid_ok read_dir_ok.
  intros (rs & s0 & Hwf0 & Hb & Hv & -> & ->) [v Hh].
  destruct (serve_history clock uuid parse_uuid sha256_hex iter_order unpack parse_manifest b64_decode values read_dir
    parse_rust_source parse_source_file parse_uuid_ok read_dir_ok rs s0 Hwf0 Hb) as (Hwf & [_ _ Hc] & _).
  set (s := server_serve rs s0) in *. apply map_eq. intros p. rewrite !current_files_lookup by done.
  destruct (String.eqb p ""); [done|]. destruct (decide (current_at s p = current_at s0 p)) as [|Hne]; [done|].
  exfalso. destruct (Hc p Hne) as (v' & _ & _ & Hv' & Hlt & _). apply (sw_versions _ _ Hwf) in Hv'.
  unfold head_num at 1 in Hv'. rewrite Hh in Hv, Hv'. simpl in Hv, Hv'. lia.
Qed.

Lemma pull_incremental_ok s v old :
  allowed = true -> served s -> has_been s v old ->
  exists resp, pull_incremental v s = (Ok resp, s) /\ ip_head_version resp = default "v0"%string (sv_head s) /\
    covers b64_encode (current_files iter_order s) old (ip_files resp).
Proof using iter_perm parse_uuid_ok read_dir_ok.
  intros Ha ([hd Hh] & He & _) (rs & s0 & Hwf0 & Hb & Hv & Es & ->).
  destruct (pull_covers clock uuid parse_uuid sha256_hex iter_order unpack parse_manifest b64_encode b64_decode values
    read_dir parse_rust_source parse_source_file parse_uuid_ok read_dir_ok iter_perm rs s0 v Hwf0 Hb Hv)
    as (resp & E & Hhd & Hnd & Hcov). fold server_serve in E, Hhd, Hcov. rewrite <-Es in E, Hhd, Hcov.
  cbn [pull_incremental http_adapter]. rewrite (M_bind_ok _ _ s resp s) by (unfold call; by rewrite Ha, E).
  eexists. split; [done|]. cbn [ip_head_version ip_files]. split; [by rewrite Hhd, Hh|].
  set (f := fun e => mkFilePull (pe_path e) (change_kind (pe_change_type e)) (pe_content_base64 e)).
  assert (Hfp : fp_path <$> (f <$> pr_files resp) = pe_path <$> pr_files resp) by by rewrite <-list_fmap_compose.
  split; [by rewrite Hfp|]. intros p. specialize (Hcov p).
  assert (Hfind : find_by fp_path p (f <$> pr_files resp) = f <$> find_by pe_path p (pr_files resp)).
  { destruct (find_by pe_path p (pr_files resp)) as [e|] eqn:Ee.
    - apply find_by_Some in Ee as [Hin <-]. apply find_by_elem; [by rewrite Hfp|by apply list_elem_of_fmap_2|done].
    - apply find_by_None. rewrite Hfp. by apply find_by_None. }
  rewrite Hfind. rewrite !current_files_lookup by done.
  destruct (find_by pe_path p (pr_files resp)) as [e|]; simpl.
  - rewrite Hcov. destruct (String.eqb_spec p "") as [->|]; [rewrite He|]; by destruct (pe_change_type e).
  - by rewrite Hcov.
Qed.

(** Single files cannot be fetched: the server has no such route. *)
#[refine] Instance http_spec (allowed_ok : allowed = true) : RemoteSpec ServerRepo sha256_hex b64_encode := {
  rm_wf := served;
  rm_files := current_files iter_order;
  rm_head s := default "v0"%string (sv_head s);
  rm_was := has_been;
  rm_serves _ := False;
  get_manifest_spec := _; pull_incremental_spec := _; download_file_spec := _; fetch_versions_spec := _; rm_was_head := _
}.
Proof.
  - intros s _. by apply manifest_ok.
  - intros s v old. by apply pull_incremental_ok.
  - done.
  - intros s n (_ & _ & Hl). eexists. by apply fetch_versions_ok.
  - intros s old (Hh & _). intros Hb. by apply has_been_head.
Defined.

(** C27. A clone that was clean at the state [s0] of the server pulls after any requests of
    its version numbers' range. This is about an answer that claims no removal of a file that the
    server has, about paths of which none lies below another, and about a server all of whose
    files are ones that clones track. Then the pull succeeds, the HEAD of the clone is that of the
    server, and every tracked file of the server, and no other, is in its tree; excepted are
    files that the clone had and the server has no more, of which the answer says that they
    changed ([phantom]). *)
Theorem http_pull_converges rs s0 l raw resp :
  let s := server_serve rs s0 in
  allowed = true -> (forall c, b64_decode (b64_encode c) = Some c) ->
  server_wf parse_uuid s0 -> (head_num s0 + N.of_nat (length rs) < u64_bound)%N -> served s ->
  head_file (lc_vai l) = Some raw -> version_num (trim raw) = head_num s0 ->
  (forall p, tracked p = true -> lc_tree l !! p = current_files iter_order s0 !! p) ->
  (forall p, is_Some (current_files iter_order s !! p) -> tracked p = true) ->
  trim (default "v0"%string (sv_head s) +:+ String LF EmptyString) = default "v0"%string (sv_head s) ->
  pull_incremental (trim raw) s = (Ok resp, s) ->
  no_clash (dom (lc_tree l) ∪ dom (current_files iter_order s) ∪ list_to_set (fp_path <$> ip_files resp)) ->
  (forall e, e ∈ ip_files resp -> fp_change e = CkRemoved -> current_files iter_order s !! fp_path e = None) ->
  exists out l', pull sha256_hex b64_decode (l, s) = (Ok out, (l', s)) /\
    read_local_head l' = (Ok (default "v0"%string (sv_head s)), l') /\
    forall p, tracked p = true -> ~ phantom (current_files iter_order s0) (ip_files resp) p -> lc_tree l' !! p = current_files iter_order s !! p.
Proof using iter_perm order_perm parse_uuid_ok read_dir_ok.
  intros s Ha codec Hwf Hb Hs Hraw Hv Hclean Htr Htrim Hpull Hn Hrem.
  pose (spec := http_spec Ha).
  refine (@pull_ok ServerRepo sha256_hex b64_encode _ spec b64_decode codec l s _ raw resp Hn Hs _ Hraw Hpull Hclean
    Htr Htrim (or_intror Hrem)).
  by exists rs, s0.
Qed.
End http.

(** ** Witness *)

Definition wit_vai (h : string) : VaiDir := mkVai (Some h) ∅ ∅ None ∅ ∅ [] (mkSnapshot [] []) 0 0.
Definition wit_local : Local :=
  mkLocal {["a"%string := bytes_of "old"]} (wit_vai ("v1" +:+ String LF EmptyString)) true ∅.
Definition wit_archive (l : list ArchiveEntry) : bytes := [].
Definition wit_rows (f : list SortField) (l : list VersionMeta) : list VersionMeta := l.
#[local] Instance wit_adapter : RemoteAdapter ServerRepo :=
  http_adapter (unicode := ascii_unicode) wit_clock wit_uuid wit_parse_uuid string_of wit_iter wit_unpack wit_manifest string_of
    wit_dir wit_parser wit_parser wit_archive wit_rows true.

Lemma http_pull_converges_witness :
  exists out l', pull string_of wit_decode (wit_local, wit_serve wit_requests wit_server)
      = (Ok out, (l', wit_serve wit_requests wit_server)) /\
    lc_tree l' !! "a"%string = Some (bytes_of "new") /\ lc_tree l' !! "b"%string = Some (bytes_of "x").
Proof.
  destruct (http_pull_converges (unicode := ascii_unicode) wit_clock wit_uuid wit_parse_uuid string_of wit_iter wit_unpack
    wit_manifest string_of wit_dir wit_parser wit_parser wit_archive wit_rows true (fun _ l => Permutation_refl l)
    (fun X => Permutation_refl _) wit_decode wit_values wit_parse_uuid_ok wit_dir_ok wit_requests wit_server wit_local
    ("v1" +:+ String LF EmptyString)
    (mkIncremental "v1" "v2" [mkFilePull "a" CkModified (Some "new"%string); mkFilePull "b" CkAdded (Some "x"%string)]))
    as (out & l' & E & _ & Ht).
  - reflexivity.
  - intros c. unfold wit_decode. by rewrite bytes_of_string_of.
  - exact wit_server_wf.
  - vm_compute. reflexivity.
  - split_and!; [vm_compute; by eexists|vm_compute; reflexivity|vm_compute; reflexivity].
  - reflexivity.
  - vm_compute. reflexivity.
  - intros p _. apply (f_equal (lookup p)). vm_compute. reflexivity.
  - intros p [c Hc]. revert p c Hc. refine (bool_decide_unpack (map_Forall (fun p _ => tracked p = true) _) _).
    vm_compute. exact I.
  - vm_compute. reflexivity.
  - vm_compute. reflexivity.
  - refine (bool_decide_unpack (no_clash _) _). vm_compute. exact I.
  - intros e [->|[->|?%not_elem_of_nil]%elem_of_cons]%elem_of_cons; done.
  - exists out, l'. split; [exact E|]. split; (rewrite Ht; [vm_compute; reflexivity|reflexivity|]).
    + intros (_ & e & [->|[->|?%not_elem_of_nil]%elem_of_cons]%elem_of_cons & _ & _ & [=]); done.
    + intros (_ & e & [->|[->|?%not_elem_of_nil]%elem_of_cons]%elem_of_cons & _ & _ & [=]); done.
Defined.
