(* ===== verification/RemotePush.v ===== *)
(** Pushes ([Remote.push]): against any server that keeps the contract of the reads,
    what is refused and what a dry run says; over HTTP, that an accepted push makes
    the server's project the tracked files of the working tree. *)
From S2P Require Import Prelude Table RustStr TextMerge Graph EventLog MergeEngine MergeFs VaiDir Workspace Version Diff Submit SubmitFrame Conflict Escalation Issue Pagination ServerRepo ServerPull ServerUpload Remote HttpAdapter.

Section guards.
Context {R : Type} (sha256_hex : bytes -> string) (b64_encode : bytes -> string) `{RemoteSpec R sha256_hex b64_encode}.
Variable clock : nat -> DateTime.
Variable parse_uuid : string -> option Uuid.
Variable iter_order : gset string -> list string.
Variable pack : list TarEntry -> bytes.
Hypothesis iter_perm : forall X, iter_order X ≡ₚ elements X.

Abbreviation hashes := (collect_local_hashes sha256_hex).

Lemma manifest_map_lookup files p h :
  NoDup (me_path <$> files) -> manifest_map files !! p = Some h <-> mkManifest p h ∈ files.
Proof using.
  unfold manifest_map. induction files as [|[q k] files IH] using rev_ind; intros Hnd.
  { simpl. rewrite lookup_empty, elem_of_nil. by split. }
  rewrite fmap_app in Hnd. apply NoDup_app in Hnd as (Hnd & Hd & _).
  rewrite foldl_app. simpl. rewrite elem_of_app, list_elem_of_singleton, lookup_insert_Some, (IH Hnd).
  split.
  - intros [[-> ->]|[_ ?]]; [by right|by left].
  - intros [Hin|[= -> ->]]; [right|by left]. split; [|done]. intros <-.
    apply (Hd q); [|by left]. apply list_elem_of_fmap. by exists (mkManifest q h).
Qed.

Lemma count_zero {A} (P : A -> bool) (xs : list A) :
  (length (filter (fun x => P x) xs) =? 0) = true <-> forall x, x ∈ xs -> P x = false.
Proof using.
  rewrite Nat.eqb_eq, length_zero_iff_nil. induction xs as [|x xs IH].
  { split; [by intros _ x ?%not_elem_of_nil|done]. }
  destruct (P x) eqn:Ex.
  - rewrite filter_cons_True by by rewrite Ex. split; [done|]. intros Hall. rewrite (Hall x) in Ex; [done|by left].
  - rewrite filter_cons_False by (simpl; rewrite Ex; exact id). rewrite IH. split.
    + intros Hall y [->|Hy]%elem_of_cons; [done|by apply Hall].
    + intros Hall y Hy. apply Hall. by right.
Qed.

(** The files of the server that the tree lacks, or does not track. *)
Definition would_delete (l : Local) (r : R) : list string :=
  sort_strings (filter (fun p => hashes (lc_tree l) !! p = None) (iter_order (dom (sha256_hex <$> rm_files r)))).

Lemma would_delete_elem l r p : p ∈ would_delete l r <-> is_Some (rm_files r !! p) /\ hashes (lc_tree l) !! p = None.
Proof using iter_perm.
  unfold would_delete, sort_strings. rewrite sort_by_perm, list_elem_of_filter, iter_perm, elem_of_elements, elem_of_dom,
    lookup_fmap, fmap_is_Some. apply and_comm.
Qed.

Definition count_modified (l : Local) (r : R) : nat :=
  length (filter (fun f => is_modified (sha256_hex <$> rm_files r) f) (iter_map iter_order (hashes (lc_tree l)))).
Definition count_added (l : Local) (r : R) : nat :=
  length (filter (fun f => is_added (sha256_hex <$> rm_files r) f) (iter_map iter_order (hashes (lc_tree l)))).

Lemma nothing_counted l r :
  (count_modified l r =? 0) && (count_added l r =? 0) && (length (would_delete l r) =? 0) =
  bool_decide (hashes (lc_tree l) = sha256_hex <$> rm_files r).
Proof using iter_perm.
  apply eq_true_iff_eq. rewrite !andb_true_iff, bool_decide_eq_true. unfold count_modified, count_added.
  rewrite !count_zero. set (lm := hashes (lc_tree l)). set (sm := sha256_hex <$> rm_files r). split.
  - intros [[Hm Ha] Hd]. apply map_eq. intros p. destruct (lm !! p) as [h|] eqn:El.
    + assert (Hin : (p, h) ∈ iter_map iter_order lm) by by apply (iter_map_elem _ iter_perm).
      specialize (Hm _ Hin). specialize (Ha _ Hin). unfold is_modified, is_added in Hm, Ha. simpl in Hm, Ha.
      destruct (sm !! p) as [h'|] eqn:Es; [|done]. apply negb_false_iff, String.eqb_eq in Hm. by subst.
    + destruct (sm !! p) as [h|] eqn:Es; [|done]. exfalso. unfold sm in Es.
      rewrite lookup_fmap in Es. apply fmap_Some in Es as (c & Hc & _).
      assert (Hin : p ∈ would_delete l r) by (apply would_delete_elem; by rewrite Hc).
      apply Nat.eqb_eq, length_zero_iff_nil in Hd. rewrite Hd in Hin. by apply not_elem_of_nil in Hin.
  - intros E. rewrite E. split_and!.
    + intros [p h] Hp%(iter_map_elem _ iter_perm). unfold is_modified. simpl. by rewrite Hp, String.eqb_refl.
    + intros [p h] Hp%(iter_map_elem _ iter_perm). unfold is_added. simpl. by rewrite Hp.
    + apply Nat.eqb_eq, length_zero_iff_nil. destruct (would_delete l r) as [|p ps] eqn:Ed; [done|exfalso].
      assert (Hin : p ∈ would_delete l r) by (rewrite Ed; by left). apply would_delete_elem in Hin as [[c Hc] Hn].
      fold lm in Hn. rewrite E in Hn. unfold sm in Hn. rewrite lookup_fmap, Hc in Hn. done.
Qed.

(** Where a push stops, or what it sends. *)
Lemma push_eq message dry_run force l r :
  rm_wf r ->
  push clock parse_uuid sha256_hex iter_order pack message dry_run force (l, r) =
    if bool_decide (hashes (lc_tree l) = sha256_hex <$> rm_files r) then (Err NothingToPush, (l, r))
    else if negb force && negb dry_run && negb (bool_decide (would_delete l r = []))
    then (Err (PushWouldDeleteFiles (would_delete l r)), (l, r))
    else if dry_run
    then (Ok (mkPush (rm_head r) (count_added l r) (count_modified l r) (length (would_delete l r)) (would_delete l r) 0 true),
          (l, r))
    else send_changes clock parse_uuid iter_order pack message (rm_head r) (hashes (lc_tree l))
           (sha256_hex <$> rm_files r) (would_delete l r) (l, r).
Proof using iter_perm.
  intros Hwf. destruct (get_manifest_spec r Hwf) as (man & Em & Hv & Hnd & Hin). unfold push.
  rewrite (M_bind_ok _ _ (l, r) man (l, r)) by (unfold on_remote; by rewrite Em).
  rewrite (M_bind_ok local_state _ (l, r) l (l, r)) by done. cbv zeta.
  assert (Esm : manifest_map (mr_files man) = sha256_hex <$> rm_files r).
  { apply map_eq. intros p. apply option_eq. intros h. by rewrite manifest_map_lookup, Hin, lookup_fmap. }
  rewrite Esm. fold (count_modified l r) (count_added l r) (would_delete l r). rewrite nothing_counted, Hv.
  by repeat case_match.
Qed.

(** What a push refuses, and a dry run: nothing is sent, nothing local changes. A tree
    that hashes like the server's files is not pushed; without [--force], a push
    that would delete is refused with exactly the files of the server that the tree
    does not have or does not track; a dry run names them and goes no further. *)
Theorem push_refuses message dry_run force l r :
  rm_wf r ->
  let result := push clock parse_uuid sha256_hex iter_order pack message dry_run force (l, r) in
  let gone p := is_Some (rm_files r !! p) /\ hashes (lc_tree l) !! p = None in
  (hashes (lc_tree l) = sha256_hex <$> rm_files r -> result = (Err NothingToPush, (l, r))) /\
  (dry_run = false -> force = false -> (exists p, gone p) ->
   exists ps, result = (Err (PushWouldDeleteFiles ps), (l, r)) /\ forall p, p ∈ ps <-> gone p) /\
  (dry_run = true -> hashes (lc_tree l) <> sha256_hex <$> rm_files r ->
   exists out, result = (Ok out, (l, r)) /\ po_version out = rm_head r /\ forall p, p ∈ po_deleted_paths out <-> gone p).
Proof using iter_perm.
  intros Hwf result gone. unfold result. rewrite push_eq by done.
  assert (Hgone : forall p, p ∈ would_delete l r <-> gone p) by apply would_delete_elem. split_and!.
  - intros E. by rewrite bool_decide_eq_true_2.
  - intros -> -> [p Hp]. pose proof Hp as [[c Hc] Hn]. rewrite bool_decide_eq_false_2.
    2:{ intros E. rewrite E, lookup_fmap, Hc in Hn. done. }
    exists (would_delete l r). split; [|done]. rewrite (bool_decide_eq_false_2 (would_delete l r = [])); [done|].
    intros E. apply Hgone in Hp. rewrite E in Hp. by apply not_elem_of_nil in Hp.
  - intros -> Hne. rewrite bool_decide_eq_false_2, andb_false_r by done. eexists. split; [done|]. split; [done|]. apply Hgone.
Qed.
End guards.

(** ** Over HTTP *)

(** What is left of the local record: HEAD is as it was written. *)
Definition keeps_head {A} (m : M VaiDir RemoteError A) : Prop := forall v, head_file (m v).2 = head_file v.

Lemma keeps_head_bind {A B} (m : M VaiDir RemoteError A) (f : A -> M VaiDir RemoteError B) :
  keeps_head m -> (forall a, keeps_head (f a)) -> keeps_head (m ≫= f).
Proof.
  intros Hm Hf v. specialize (Hm v). destruct (m v) as [[a|e|] v'] eqn:E.
  - rewrite (M_bind_ok _ _ _ _ _ E). by rewrite Hf.
  - by rewrite (M_bind_err _ _ _ _ _ E).
  - by rewrite (M_bind_panic _ _ _ _ E).
Qed.

Lemma keeps_head_append clock k : keeps_head (append_event clock k).
Proof. by intros v. Qed.

Lemma keeps_head_append_all clock ks : keeps_head (Diff.append_all clock ks).
Proof.
  unfold Diff.append_all. induction ks as [|k ks IH]; [done|]. simpl. repeat apply keeps_head_bind; intros; try done.
Qed.

Lemma push_events_keep_head clock parse_uuid iter_order id v1 v2 intent lm sm del v :
  head_file (write_push_local_events clock parse_uuid iter_order id v1 v2 intent lm sm del v).2 = head_file v.
Proof.
  revert v. change (keeps_head (write_push_local_events clock parse_uuid iter_order id v1 v2 intent lm sm del)).
  unfold write_push_local_events. destruct (parse_uuid id) as [w|]; [|by intros v].
  apply keeps_head_bind; [apply keeps_head_append_all|intros _].
  apply keeps_head_bind; [apply keeps_head_append_all|intros _].
  apply keeps_head_bind; [apply keeps_head_append|intros e].
  apply keeps_head_bind; [apply keeps_head_append|intros _]. by intros v.
Qed.

(** ** The archive *)

(** The files of the tree that a push sends. *)
Definition sent (t : gmap string bytes) : gmap string bytes := filter (fun f => tracked f.1 = true) t.

(** A path that the server stores as it is, and a content that it takes. *)
Definition storable (p : string) (c : bytes) : Prop :=
  stored_path (trim_start_dots (normalise_separators p)) = Some p /\ p <> EmptyString /\
  over MAX_FILE_SIZE_BYTES c = false /\ is_snapshot_path_ignored p = false /\ p <> ".vai-delta.json"%string.

Lemma extract_storable (l : list (string * bytes)) files :
  Forall (fun f => storable f.1 f.2) l -> NoDup l.*1 ->
  exists raw, extract_entries ((fun f => mkEntry Regular (normalise_separators f.1) f.2) <$> l) files = Ok raw /\
    forall p, raw !! p = match list_to_map (M := gmap string bytes) l !! p with Some c => Some c | None => files !! p end.
Proof.
  revert files; induction l as [|[q x] l IH]; intros files Hs Hnd; [by exists files|].
  apply Forall_cons in Hs as [(Hq & Hne & Ho & _) Hs]. simpl in Hnd. apply NoDup_cons in Hnd as [Hnin Hnd].
  simpl in Hq, Hne, Ho. simpl. rewrite Hq. destruct (String.eqb_spec q ""); [done|]. rewrite Ho.
  destruct (IH (<[q := x]> files) Hs Hnd) as (raw & E & Hraw). exists raw. split; [done|]. intros p. rewrite Hraw.
  destruct (decide (p = q)) as [->|Hpq].
  - rewrite lookup_insert_eq, (not_elem_of_list_to_map_1 l) by done. by rewrite lookup_insert_eq.
  - by rewrite !lookup_insert_ne.
Qed.

Section http_push.
Context {unicode : Unicode}.
Variable clock : nat -> DateTime.
Variable uuid : nat -> Uuid.
Variable parse_uuid : string -> option Uuid.
Variable sha256_hex : bytes -> string.
Variable iter_order : gset string -> list string.
Variable unpack : bytes -> option (list TarEntry).
Variable parse_manifest : bytes -> option DeltaManifest.
Variable b64_encode : bytes -> string.
Variable read_dir : gmap string VersionMeta -> list VersionMeta.
Variable parse_rust_source : string -> bytes -> outcome GraphError (list Entity * list Relationship).
Variable parse_source_file : string -> bytes -> outcome GraphError (list Entity * list Relationship).
Variable pack_archive : list ArchiveEntry -> bytes.
Variable order_rows : list SortField -> list VersionMeta -> list VersionMeta.
Hypothesis iter_perm : forall X, iter_order X ≡ₚ elements X.

(** What the server makes of the archive of the tree. *)
Variable pack : list TarEntry -> bytes.
Hypothesis archives : forall es, unpack (pack es) = Some es.

Lemma tree_entries t :
  (forall p c, sent t !! p = Some c -> storable p c) ->
  exists entries, unpack (build_full_tarball iter_order pack t) = Some entries /\
    extract_entries entries ∅ = Ok (sent t) /\ archive_files (sent t) = sent t /\
    sent t !! ".vai-delta.json"%string = None.
Proof using iter_perm archives.
  intros Hs. unfold build_full_tarball. rewrite archives. eexists. split; [done|].
  fold (sent t). set (l := iter_map iter_order (sent t)).
  assert (Hl : forall p c, (p, c) ∈ l <-> sent t !! p = Some c) by (intros; by apply iter_map_elem).
  assert (Hmap : list_to_map l = sent t).
  { apply map_eq. intros p. apply option_eq. intros c.
    rewrite <-Hl. symmetry. apply elem_of_list_to_map. by apply iter_map_NoDup. }
  destruct (extract_storable l ∅) as (raw & E & Hraw).
  { apply Forall_forall. intros [p c] Hin. apply Hs. by apply Hl. }
  { by apply iter_map_NoDup. }
  assert (raw = sent t) as ->.
  { apply map_eq. intros p. rewrite Hraw, Hmap. by destruct (sent t !! p). }
  assert (Hdelta : sent t !! ".vai-delta.json"%string = None).
  { destruct (sent t !! _) as [c|] eqn:Ec; [|done]. by destruct (Hs _ _ Ec) as (_ & _ & _ & _ & []). }
  split_and!; [done| |done]. unfold archive_files. rewrite (delete_id _ _ Hdelta). apply map_filter_id.
  intros p c Hp. apply (Hs p c Hp).
Qed.

Lemma create_workspace_ok intent s hd :
  String.length intent <= MAX_INTENT_LEN -> sv_head s = Some hd ->
  find_by ws_id (uuid (sv_draws s)) (sv_workspaces s) = None ->
  exists meta s1, create_workspace_handler clock uuid true intent s = (Ok meta, s1) /\
    ws_id meta = uuid (sv_draws s) /\ base_version meta = hd /\ ws_deleted_paths meta = [] /\ ws_issue_id meta = None /\
    find_by ws_id (ws_id meta) (sv_workspaces s1) = Some meta /\
    sv_files s1 = sv_files s /\ sv_head s1 = sv_head s /\ forall Q, changes_only Q s s1.
Proof using.
  intros Hlen Hh Hnew. unfold create_workspace_handler. rewrite (M_bind_ok (check true) _ s tt s) by done.
  rewrite (M_bind_ok (check_len _ _) _ s tt s).
  2:{ unfold check_len. destruct (Nat.ltb_spec MAX_INTENT_LEN (String.length intent)); [lia|done]. }
  rewrite (M_bind_ok get_st _ s s s) by done.
  set (s1 := set_streams (S (sv_draws s)) (sv_ticks s) s). set (w := uuid (sv_draws s)) in *.
  rewrite (M_bind_ok (new_uuid uuid) _ s w s1) by done.
  set (s2 := set_streams (sv_draws s1) (S (sv_ticks s1)) s1).
  rewrite (M_bind_ok (tick clock) _ s1 (clock (sv_ticks s1)) s2) by done.
  set (meta := mkWs w intent _ WsCreated _ _ None []). set (s3 := set_ws_rows (sv_workspaces s2 ++ [meta]) s2).
  assert (Hf : find_by ws_id w (sv_workspaces s3) = Some meta).
  { simpl. rewrite find_by_snoc, Hnew. simpl. by rewrite decide_True. }
  rewrite (M_bind_ok (insert_workspace meta) _ s2 meta s3).
  2:{ unfold insert_workspace. rewrite (M_bind_ok _ _ s2 tt s3) by done. unfold get_ws. simpl ws_id. by rewrite Hf. }
  eexists meta, _. split; [reflexivity|]. split_and!; try done; [simpl; by rewrite Hh|intros Q; by eapply changes_only_one].
Qed.

Hypothesis order_perm : forall fields rows, order_rows fields rows ≡ₚ rows.
Variable b64_decode : string -> option bytes.
Variable values : Engine -> list WorkspaceScope.
Hypothesis parse_uuid_ok : forall id u, parse_uuid id = Some u -> has_char "/" id = false /\ id_ok u.
Hypothesis read_dir_ok : dir_ok read_dir.
Hypothesis parse_ok : forall p c, exists r, parse_rust_source p c = Ok r.
Hypothesis parse_no_panic : forall p c, parse_source_file p c <> Panic.

#[local] Instance adapter : RemoteAdapter ServerRepo :=
  http_adapter clock uuid parse_uuid sha256_hex iter_order unpack parse_manifest b64_encode read_dir parse_rust_source
    parse_source_file pack_archive order_rows true.

(** A push that has something to send, nothing that it would delete, and a server on
    which the identifier that comes next is new. The hash only has to tell apart the
    two contents of one path. *)
Record pushable (message : string) (hd : string) (l : Local) (s : ServerRepo) : Prop := {
  pb_served : served s;
  pb_head : sv_head s = Some hd;
  pb_trim : trim (hd +:+ String LF EmptyString) = hd;
  pb_message : String.length message <= MAX_INTENT_LEN;
  pb_id : parse_uuid (uuid (sv_draws s)) = Some (uuid (sv_draws s));
  pb_row : find_by ws_id (uuid (sv_draws s)) (sv_workspaces s) = None;
  pb_overlay p : overlay_at (uuid (sv_draws s)) s p = None;
  pb_storable p c : sent (lc_tree l) !! p = Some c -> storable p c;
  pb_size : over MAX_SNAPSHOT_SIZE_BYTES (build_full_tarball iter_order pack (lc_tree l)) = false;
  pb_keeps p : is_Some (current_files iter_order s !! p) -> is_Some (sent (lc_tree l) !! p);
  pb_hash p c c' : sent (lc_tree l) !! p = Some c -> current_at s p = Some c' -> sha256_hex c' = sha256_hex c -> c' = c;
  pb_differs : exists p, sent (lc_tree l) !! p <> current_files iter_order s !! p
}.

Lemma pushable_hashes message hd l s :
  pushable message hd l s -> collect_local_hashes sha256_hex (lc_tree l) <> sha256_hex <$> current_files iter_order s.
Proof using iter_perm.
  intros P E. destruct (pb_differs _ _ _ _ P) as [p Hp]. apply Hp. clear Hp.
  assert (Ep : sha256_hex <$> sent (lc_tree l) !! p = sha256_hex <$> current_files iter_order s !! p).
  { rewrite <-!lookup_fmap. by rewrite <-E. }
  destruct (current_files iter_order s !! p) as [c'|] eqn:Ec, (sent (lc_tree l) !! p) as [c|] eqn:Et; try done.
  injection Ep as Eh. f_equal. symmetry. apply (pb_hash _ _ _ _ P p); [done| |done].
  rewrite current_files_lookup in Ec by done. by destruct (String.eqb p "").
Qed.

(** The three requests of the push. *)
Definition push_requests (message : string) (l : Local) (s : ServerRepo) : list Request :=
  [ReqCreate true message;
   ReqSnapshot true (uuid (sv_draws s)) false (build_full_tarball iter_order pack (lc_tree l));
   ReqSubmit true (uuid (sv_draws s))].

Lemma push_ok message force hd l s :
  pushable message hd l s ->
  exists out l' s',
    push clock parse_uuid sha256_hex iter_order pack message false force (l, s) = (Ok out, (l', s')) /\
    s' = serve clock uuid parse_uuid sha256_hex iter_order unpack parse_manifest b64_decode values read_dir
           parse_rust_source parse_source_file (push_requests message l s) s /\
    sv_head s' = Some (po_version out) /\ (forall p, current_at s' p = sent (lc_tree l) !! p) /\ lc_tree l' = lc_tree l /\
    changes_only (fun p => is_Some (sent (lc_tree l) !! p)) s s' /\
    (server_wf parse_uuid s -> (head_num s + 1 < u64_bound)%N ->
     exists s2, quiet parse_uuid s s2 /\ merges parse_uuid (uuid (sv_draws s)) s2 s') /\
    (lc_has_vai l = true -> head_file (lc_vai l') = Some (po_version out +:+ String LF EmptyString)).
Proof using iter_perm archives order_perm parse_uuid_ok read_dir_ok parse_ok parse_no_panic.
  intros P. pose (spec := http_spec clock uuid parse_uuid sha256_hex iter_order unpack parse_manifest b64_encode read_dir
    parse_rust_source parse_source_file pack_archive order_rows true order_perm iter_perm b64_decode values parse_uuid_ok
    read_dir_ok eq_refl).
  rewrite (@push_eq ServerRepo sha256_hex b64_encode _ spec) by (done || apply P). simpl rm_files.
  rewrite bool_decide_eq_false_2 by (by eapply pushable_hashes).
  assert (@would_delete ServerRepo sha256_hex b64_encode _ spec iter_order l s = []) as ->.
  { destruct (would_delete _ _ _ _ _) as [|p ps] eqn:Ed; [done|exfalso].
    assert (Hin : p ∈ @would_delete ServerRepo sha256_hex b64_encode _ spec iter_order l s) by (rewrite Ed; by left).
    apply would_delete_elem in Hin as [Hc Hn]; [|done]. apply (pb_keeps _ _ _ _ P) in Hc as [c Hc].
    unfold collect_local_hashes in Hn. fold (sent (lc_tree l)) in Hn. rewrite lookup_fmap, Hc in Hn. done. }
  rewrite bool_decide_eq_true_2, andb_false_r by done.
  destruct (create_workspace_ok message s hd) as (meta & s1 & E1 & Hid & Hb & Hd & Hi & Hf & F1 & Hh1 & Hr1); [apply P..|].
  destruct (tree_entries (lc_tree l)) as (entries & Hun & Hex & Harch & Hdelta); [apply P|].
  assert (Hcur : forall p, current_at s1 p = current_at s p) by (intros p; unfold current_at; by rewrite F1).
  assert (Hsent : forall p, p <> EmptyString -> current_files iter_order s !! p = current_at s p).
  { intros p Hp. rewrite current_files_lookup by done. by destruct (String.eqb_spec p ""). }
  assert (Hkeep : forall p, ~ missing s1 (sent (lc_tree l)) p).
  { intros p (Hp & Hcs & Hn). rewrite Hcur in Hcs. rewrite <-Hsent in Hcs by done.
    apply (pb_keeps _ _ _ _ P) in Hcs as [c Hc]. rewrite Harch in Hn. congruence. }
  destruct (upload_submit_ok clock uuid parse_uuid sha256_hex iter_order unpack parse_manifest iter_perm read_dir
    parse_rust_source parse_source_file parse_ok parse_no_panic (ws_id meta) meta
    (build_full_tarball iter_order pack (lc_tree l)) entries (sent (lc_tree l)) false s1)
    as (resp & s2 & r & s3 & E2 & E3 & Hh3 & Hr3 & Hc3); rewrite ?Hid, ?Hb, ?Hh1, ?Hi; try done; try apply P.
  - eapply parse_uuid_ok, (pb_id _ _ _ _ P).
  - by rewrite <-Hid.
  - intros p. unfold overlay_at. rewrite F1. apply P.
  - intros p c c'. rewrite Harch, Hcur. apply P.
  - destruct (pb_differs _ _ _ _ P) as [p Hp]. exists p. rewrite Harch, Hcur. assert (p <> EmptyString).
    { intros ->. apply Hp. rewrite current_files_lookup by done. simpl.
      apply eq_None_not_Some. intros [c Hc]. by destruct (pb_storable _ _ _ _ P _ _ Hc) as (_ & ? & _). }
    split; [done|]. by rewrite <-Hsent.
  - by apply railed_keeps.
  - unfold send_changes.
    rewrite (M_bind_ok _ _ (l, s) (ws_id meta) (l, s1)).
    2:{ unfold on_remote. cbn [create_remote_workspace adapter http_adapter].
        rewrite (M_bind_ok _ _ s meta s1) by (unfold call; by rewrite E1). done. }
    rewrite (M_bind_ok local_state _ (l, s1) l (l, s1)) by done.
    rewrite (M_bind_ok _ _ (l, s1) (mkStats (us_added resp) (us_modified resp) (us_deleted resp)) (l, s2)).
    2:{ unfold on_remote. cbn [Remote.upload_snapshot adapter http_adapter].
        rewrite (M_bind_ok _ _ s1 resp s2) by (unfold call; by rewrite E2). done. }
    rewrite (M_bind_ok _ _ (l, s2) (mkRSubmit (version_id (sr_version r)) (files_applied r)) (l, s3)).
    2:{ unfold on_remote. cbn [Remote.submit_workspace adapter http_adapter].
        rewrite (M_bind_ok _ _ s2 r s3) by (unfold call_submit; by rewrite E3). done. }
    set (out := mkPush _ _ _ _ _ _ _). cbn [rs_version] in out.
    assert (Es : s3 = serve clock uuid parse_uuid sha256_hex iter_order unpack parse_manifest b64_decode values read_dir
      parse_rust_source parse_source_file (push_requests message l s) s).
    { unfold serve, push_requests. cbn [foldl handle]. rewrite (M_bind_ok _ _ _ _ _ E1). cbn [snd mret M_ret].
      rewrite <-Hid, (M_bind_ok _ _ _ _ _ E2). cbn [snd mret M_ret]. by rewrite (M_bind_ok _ _ _ _ _ E3). }
    assert (Ec : forall p, current_at s3 p = sent (lc_tree l) !! p).
    { intros p. rewrite Hc3, Harch; [done|]. rewrite Hcur. destruct (decide (p = EmptyString)) as [->|]; [right|by left].
      apply (pb_served _ _ _ _ P). }
    rewrite Harch in Hr3. pose proof (changes_only_trans _ _ _ _ (Hr1 _) (Hr3 Hkeep)) as Er.
    assert (Em : server_wf parse_uuid s -> (head_num s + 1 < u64_bound)%N ->
      exists s2, quiet parse_uuid s s2 /\ merges parse_uuid (uuid (sv_draws s)) s2 s3).
    { intros Hwf Hbound. exists s2.
      assert (Q : quiet parse_uuid s s2).
      { eapply quiet_trans; [|].
        - pose proof (quietly_create clock uuid parse_uuid true message s) as Q. rewrite E1 in Q. exact Q.
        - pose proof (quietly_snapshot clock parse_uuid sha256_hex iter_order unpack parse_manifest parse_uuid_ok true
            (ws_id meta) false (build_full_tarball iter_order pack (lc_tree l)) s1) as Q. rewrite E2 in Q. exact Q. }
      split; [done|].
      destruct (submit_step clock uuid parse_uuid sha256_hex iter_order read_dir parse_rust_source parse_source_file
        parse_uuid_ok read_dir_ok true (ws_id meta) s2) as [Q'|(w & Hw & Mg)].
      - by eapply quiet_wf.
      - unfold head_num. rewrite (q_head _ _ _ Q). exact Hbound.
      - exfalso. rewrite E3 in Q'. destruct (pb_differs _ _ _ _ P) as [p Hp]. apply Hp.
        rewrite <-Ec. rewrite (q_current _ _ _ Q'). rewrite (q_current _ _ _ Q). rewrite current_files_lookup by done.
        destruct (String.eqb_spec p "") as [->|]; [apply (pb_served _ _ _ _ P)|done].
      - rewrite E3 in Mg. rewrite Hid, (pb_id _ _ _ _ P) in Hw. by injection Hw as ->. }
    destruct (lc_has_vai l) eqn:Ev.
    + set (l1 := set_vai (set_head (Some (version_id (sr_version r) +:+ String LF EmptyString)) (lc_vai l)) l).
      set (ev := write_push_local_events clock parse_uuid iter_order (ws_id meta) hd (version_id (sr_version r)) message
        (collect_local_hashes sha256_hex (lc_tree l)) (sha256_hex <$> current_files iter_order s) [] (lc_vai l1)).
      exists out, (set_vai ev.2 l1), s3. split_and!; try done.
      * rewrite (M_bind_ok _ _ (l, s3) tt (set_vai ev.2 l1, s3)); [done|].
        rewrite (M_bind_ok _ _ (l, s3) tt (l1, s3)) by done.
        unfold on_local. cbn [rs_version]. simpl rm_head. rewrite (pb_head _ _ _ _ P). simpl default.
        fold ev. by destruct ev.
      * intros _. unfold ev. simpl. by rewrite push_events_keep_head.
    + exists out, l, s3. by split_and!.
Qed.
End http_push.

(** ** Witness *)

Definition wit_pack (l : list TarEntry) : bytes := [].
Definition wit_empty : Local := mkLocal ∅ (wit_vai ("v1" +:+ String LF EmptyString)) true ∅.

#[local] Existing Instance wit_adapter.

#[local] Instance wit_spec : @RemoteSpec ServerRepo wit_adapter string_of string_of :=
  http_spec (unicode := ascii_unicode) wit_clock wit_uuid wit_parse_uuid string_of wit_iter wit_unpack wit_manifest string_of
    wit_dir wit_parser wit_parser wit_archive wit_rows true (fun _ l => Permutation_refl l) (fun X => Permutation_refl _)
    wit_decode wit_values wit_parse_uuid_ok wit_dir_ok eq_refl.

(** A tree that lacks the only file of the server. *)
Lemma push_refuses_witness :
  exists ps, push wit_clock wit_parse_uuid string_of wit_iter wit_pack "fix" false false (wit_empty, wit_server)
    = (Err (PushWouldDeleteFiles ps), (wit_empty, wit_server)) /\ "a"%string ∈ ps.
Proof.
  destruct (push_refuses string_of string_of wit_clock wit_parse_uuid wit_iter wit_pack (fun X => Permutation_refl _)
    "fix" false false wit_empty wit_server) as (_ & H & _).
  - split_and!; [by eexists|vm_compute; reflexivity|vm_compute; reflexivity].
  - assert (Hgone : is_Some (@rm_files _ _ _ _ wit_spec wit_server !! "a"%string) /\
      collect_local_hashes string_of (lc_tree wit_empty) !! "a"%string = None) by (vm_compute; split; [by eexists|done]).
    destruct (H eq_refl eq_refl (ex_intro _ _ Hgone)) as (ps & E & Hps). exists ps. split; [exact E|]. by apply Hps.
Defined.
