(* ===== verification/RemoteRoundTrip.v ===== *)
(** One clone pushes, another one pulls: the second has the tree of the first. *)
From S2P Require Import Prelude Table RustStr TextMerge Graph EventLog MergeEngine MergeFs VaiDir Workspace Version Diff Submit SubmitFrame Conflict Escalation Issue Pagination ServerRepo ServerPull ServerUpload Remote HttpAdapter RemotePush.

(** ** What the pull endpoint reports *)

Section reported.
Variable iter_order : gset string -> list string.
Hypothesis iter_perm : forall X, iter_order X ≡ₚ elements X.

Lemma changes_removed l p :
  foldl change_state ∅ l !! p = Some FctRemoved -> exists e w, e ∈ l /\ ev_kind e = FileRemoved w p.
Proof using.
  induction l as [|e l IH] using rev_ind; [done|]. rewrite foldl_app. simpl. unfold change_state.
  assert (Hin : foldl change_state ∅ l !! p = Some FctRemoved -> exists e' w, e' ∈ l ++ [e] /\ ev_kind e' = FileRemoved w p).
  { intros (e' & w & He & Hk)%IH. exists e', w. by rewrite elem_of_app; auto. }
  destruct (ev_kind e) eqn:Ek; try exact Hin.
  - rewrite lookup_insert_Some. intros [[_ ?]|[_ ?]]; [done|auto].
  - rewrite lookup_insert_Some. intros [[_ ?]|[_ ?]]; [by repeat case_match|auto].
  - rewrite lookup_insert_Some. intros [[-> _]|[_ ?]]; [|auto]. exists e. eexists. rewrite elem_of_app, list_elem_of_singleton. eauto.
Qed.

Lemma pull_entry_event b64_encode since s resp e :
  files_pull_handler iter_order b64_encode true since s = (Ok resp, s) -> e ∈ pr_files resp ->
  let events := file_events_of (merged_workspaces (list_versions_since (version_num since) (head_num s) s) s) s in
  (exists ev, ev ∈ events /\ file_path_of (ev_kind ev) = Some (pe_path e)) /\
  (pe_change_type e = FctRemoved -> exists ev w, ev ∈ events /\ ev_kind ev = FileRemoved w (pe_path e)).
Proof using iter_perm.
  unfold files_pull_handler. rewrite (M_bind_ok (check true) _ s tt s), (M_bind_ok get_st _ s s s) by done.
  fold (head_num s). intros E He. destruct (N.leb _ _); [by injection E as <-; apply not_elem_of_nil in He|].
  destruct (bool_decide _); [by injection E as <-; apply not_elem_of_nil in He|].
  injection E as <-. simpl in He. rewrite sort_by_perm in He.
  apply list_elem_of_fmap in He as ([p c] & -> & Hin). apply (iter_map_elem _ iter_perm) in Hin. simpl. split.
  - apply changes_dom. by rewrite Hin.
  - intros ->. by apply changes_removed.
Qed.

(** The versions after a state, when one workspace was merged since. *)
Lemma merged_since parse_uuid w s s1 s2 :
  server_wf parse_uuid s -> quiet parse_uuid s s1 -> merges parse_uuid w s1 s2 ->
  let ws := merged_workspaces (list_versions_since (head_num s) (head_num s2) s2) s2 in
  w ∈ ws /\ forall u, u ∈ ws -> u = w.
Proof using.
  intros Hwf Q Mg. assert (Hwf1 : server_wf parse_uuid s1) by by eapply quiet_wf.
  assert (Hn1 : head_num s1 = head_num s) by (unfold head_num; by rewrite (q_head _ _ _ Q)).
  destruct (ms_version _ _ _ _ Mg) as (v & e & V & N & Hd & I & E & T & W & _).
  assert (Hlog : log_ok (sv_events s2)) by apply (ms_log_ok _ _ _ _ Mg), (sw_log _ _ Hwf1).
  assert (Hn2 : head_num s2 = (head_num s + 1)%N) by (unfold head_num at 1; rewrite Hd; simpl; by rewrite N, Hn1).
  assert (Hvs : forall x, x ∈ list_versions_since (head_num s) (head_num s2) s2 <-> x = v).
  { intros x. unfold list_versions_since. rewrite sort_by_perm, list_elem_of_filter, V, elem_of_app, list_elem_of_singleton.
    split.
    - intros [[Hlt _] [Hx|Hx]]; [|done]. apply (sw_versions _ _ Hwf1) in Hx. lia.
    - intros ->. split; [lia|by right]. }
  split.
  - eapply merged_workspace_found; try done. by apply Hvs.
  - intros u Hu. apply list_elem_of_omap in Hu as (x & ->%Hvs & Hu). rewrite I in Hu. simpl in Hu.
    destruct (find_by ev_id (ev_id e) _) as [e'|] eqn:Ef; [|done]. simpl in Hu.
    apply find_by_Some in Ef as [[_ He']%list_elem_of_filter Hid].
    assert (e' = e) as ->; [|congruence].
    destruct Hlog as [Hlog _]. apply log_wf_NoDup in Hlog.
    pose proof (find_by_elem ev_id _ _ e' Hlog He' Hid) as F1. pose proof (find_by_elem ev_id _ _ e Hlog E eq_refl) as F2.
    congruence.
Qed.
End reported.

Section roundtrip.
Context {unicode : Unicode}.
Variable clock : nat -> DateTime.
Variable uuid : nat -> Uuid.
Variable parse_uuid : string -> option Uuid.
Variable sha256_hex : bytes -> string.
Variable iter_order : gset string -> list string.
Variable pack : list TarEntry -> bytes.
Variable unpack : bytes -> option (list TarEntry).
Variable parse_manifest : bytes -> option DeltaManifest.
Variable b64_encode : bytes -> string.
Variable b64_decode : string -> option bytes.
Variable read_dir : gmap string VersionMeta -> list VersionMeta.
Variable parse_rust_source : string -> bytes -> outcome GraphError (list Entity * list Relationship).
Variable parse_source_file : string -> bytes -> outcome GraphError (list Entity * list Relationship).
Variable pack_archive : list ArchiveEntry -> bytes.
Variable order_rows : list SortField -> list VersionMeta -> list VersionMeta.
Hypothesis iter_perm : forall X, iter_order X ≡ₚ elements X.
Hypothesis archives : forall es, unpack (pack es) = Some es.
Hypothesis codec : forall c, b64_decode (b64_encode c) = Some c.
Hypothesis order_perm : forall fields rows, order_rows fields rows ≡ₚ rows.
Hypothesis parse_uuid_ok : forall id u, parse_uuid id = Some u -> has_char "/" id = false /\ id_ok u.
Hypothesis read_dir_ok : dir_ok read_dir.
Hypothesis parse_ok : forall p c, exists r, parse_rust_source p c = Ok r.
Hypothesis parse_no_panic : forall p c, parse_source_file p c <> Panic.

#[local] Instance http : RemoteAdapter ServerRepo :=
  http_adapter clock uuid parse_uuid sha256_hex iter_order unpack parse_manifest b64_encode read_dir parse_rust_source
    parse_source_file pack_archive order_rows true.

Abbreviation push_to := (push clock parse_uuid sha256_hex iter_order pack).
Abbreviation pull_from := (pull sha256_hex b64_decode).

(** Only the paths of the pushed files can be in an answer that goes back to the
    state before the push, and none of them as removed. *)
Lemma push_reported w l s s1 s2 resp e since :
  server_wf parse_uuid s -> quiet parse_uuid s s1 -> merges parse_uuid w s1 s2 -> changes_only (fun p => is_Some (sent (lc_tree l) !! p)) s s2 ->
  (forall ev, ev ∈ sv_events s -> event_workspace_id (ev_kind ev) <> Some w) -> version_num since = head_num s ->
  files_pull_handler iter_order b64_encode true since s2 = (Ok resp, s2) -> e ∈ pr_files resp ->
  is_Some (sent (lc_tree l) !! pe_path e) /\ pe_change_type e <> FctRemoved.
Proof using iter_perm.
  intros Hwf Q Mg (log & El & Hlog) Hnew Hs E He.
  destruct (merged_since parse_uuid w s s1 s2 Hwf Q Mg) as [Hw Hall].
  destruct (pull_entry_event iter_order iter_perm b64_encode since s2 resp e E He) as [(ev & Hev & Hp) Hrem].
  rewrite Hs in Hev, Hrem.
  assert (Hin : forall x, x ∈ file_events_of (merged_workspaces (list_versions_since (head_num s) (head_num s2) s2) s2) s2 ->
    changes_at (fun p => is_Some (sent (lc_tree l) !! p)) x).
  { intros x [(_ & _ & Hx) Hx']%list_elem_of_filter. rewrite El in Hx'. apply elem_of_app in Hx' as [Hx'|Hx'].
    - exfalso. destruct Hx as [Hx|Hx]; [rewrite Hx in Hw; by apply not_elem_of_nil in Hw|].
      apply list_elem_of_fmap in Hx as (u & Hu & ->%Hall). by apply (Hnew x).
    - rewrite Forall_forall in Hlog. by apply Hlog. }
  split.
  - specialize (Hin ev Hev). unfold changes_at in Hin. destruct (ev_kind ev); simplify_eq/=; done.
  - intros (ev' & u & Hev' & Hk)%Hrem. specialize (Hin ev' Hev'). unfold changes_at in Hin. by rewrite Hk in Hin.
Qed.

Lemma version_text_trim n : trim (("v" +:+ print_u64 n) +:+ String LF EmptyString) = "v" +:+ print_u64 n.
Proof using.
  apply trim_plain_line; [|done]. change (Forall (fun a => plain_char a = true) ("v"%char :: bytes_of (print_u64 n))).
  constructor; [done|apply print_u64_plain].
Qed.

Lemma no_clash_mono (X Y : gset string) : X ⊆ Y -> no_clash Y -> no_clash X.
Proof using. intros Hxy Hn p q Hp Hq. apply Hn; by apply Hxy. Qed.

Lemma pull_incremental_inv since s resp :
  pull_incremental since s = (Ok resp, s) -> exists r, files_pull_handler iter_order b64_encode true since s = (Ok r, s) /\
    ip_files resp = (fun e => mkFilePull (pe_path e) (change_kind (pe_change_type e)) (pe_content_base64 e)) <$> pr_files r.
Proof using.
  cbn [pull_incremental http http_adapter]. unfold call, mbind, M_bind.
  destruct (files_pull_handler iter_order b64_encode true since s) as [[r|e|] s0]; [|done..].
  intros [= <- <-]. by exists r.
Qed.

Abbreviation no_values := (fun _ : Engine => [] : list WorkspaceScope).
Abbreviation spec := (http_spec clock uuid parse_uuid sha256_hex iter_order unpack parse_manifest b64_encode read_dir
  parse_rust_source parse_source_file pack_archive order_rows true order_perm iter_perm b64_decode no_values parse_uuid_ok
  read_dir_ok eq_refl).

(** The server as a push leaves it, and what it then tells a clone at the version [hd] from
    before: only about files that the push sent, and of no removal. *)
Record pushed (l : Local) (hd : string) (s s' : ServerRepo) : Prop := {
  pu_files : forall p, current_files iter_order s' !! p = sent (lc_tree l) !! p;
  pu_head : exists n, sv_head s' = Some ("v" +:+ print_u64 n);
  pu_served : served s';
  pu_was : @rm_was _ _ _ _ spec s' hd (current_files iter_order s);
  pu_reported : forall resp e, pull_incremental hd s' = (Ok resp, s') -> e ∈ ip_files resp ->
    is_Some (sent (lc_tree l) !! fp_path e) /\ fp_change e <> CkRemoved;
}.

Lemma push_leaves message force hd l s :
  server_wf parse_uuid s -> (head_num s + 3 < u64_bound)%N -> (Z.of_nat (length (sv_versions s)) < 2 ^ 32 - 2)%Z ->
  pushable uuid parse_uuid sha256_hex iter_order pack message hd l s ->
  (forall ev, ev ∈ sv_events s -> event_workspace_id (ev_kind ev) <> Some (uuid (sv_draws s))) ->
  exists out l' s', push_to message false force (l, s) = (Ok out, (l', s')) /\ sv_head s' = Some (po_version out) /\
    pushed l hd s s'.
Proof using All.
  intros Hwf Hb Hlen P Hnew.
  destruct (push_ok clock uuid parse_uuid sha256_hex iter_order unpack parse_manifest b64_encode read_dir parse_rust_source
    parse_source_file pack_archive order_rows iter_perm pack archives order_perm b64_decode no_values parse_uuid_ok read_dir_ok
    parse_ok parse_no_panic message force hd l s P)
    as (out & l' & s' & Epush & Es & Hh & Hcur & _ & Hch & Hm & _).
  destruct (Hm Hwf) as (s2 & Q & Mg); [lia|].
  assert (Hnum : version_num hd = head_num s) by (unfold head_num; by rewrite (pb_head _ _ _ _ _ _ _ _ _ P)).
  assert (Hnone : sent (lc_tree l) !! "" = None).
  { apply eq_None_not_Some. intros [c Hc]. by destruct (pb_storable _ _ _ _ _ _ _ _ _ P _ _ Hc) as (_ & ? & _). }
  exists out, l', s'. split_and!; [done|done|]. split.
  - intros p. rewrite current_files_lookup by done. by destruct (String.eqb_spec p "") as [->|].
  - eexists. apply (ms_head _ _ _ _ Mg).
  - split_and!; [by rewrite Hh|by rewrite Hcur|].
    destruct (ms_version _ _ _ _ Mg) as (v & e & V & _). rewrite V, (q_versions _ _ _ Q), length_app. simpl. lia.
  - exists (push_requests uuid iter_order pack message l s), s. by split_and!.
  - intros resp e (r & Er & Hr)%pull_incremental_inv He. rewrite Hr in He. apply list_elem_of_fmap in He as (x & -> & Hx).
    simpl. destruct (push_reported _ l s s2 s' r x hd Hwf Q Mg Hch Hnew Hnum Er Hx) as [Hp Hc]. split; [done|].
    by destruct (pe_change_type x).
Qed.

(** C3. A clone pushes its working tree, and a second clone
    that is clean at the HEAD of the server, with as many tracked files, pulls. This is about a
    push that can go through ([pushable]): every file of the server is in the tree, so that nothing is
    deleted; the tree differs from the project; its files have paths that the server takes as
    they are, and sizes within the limits, as do the archive and the message; the identifier that
    the server draws is new to its rows, its events and its store; and the hash tells the two contents
    of a path apart. No path of the trees lies below another. The server is well formed and within the
    bounds of its version numbers and pages. Then both succeed, the HEAD of the second clone is the
    version that the push made, and its tracked files are those of the first tree. *)
Theorem push_then_pull message force hd l clone raw s :
  server_wf parse_uuid s -> (head_num s + 3 < u64_bound)%N -> (Z.of_nat (length (sv_versions s)) < 2 ^ 32 - 2)%Z ->
  pushable uuid parse_uuid sha256_hex iter_order pack message hd l s ->
  (forall ev, ev ∈ sv_events s -> event_workspace_id (ev_kind ev) <> Some (uuid (sv_draws s))) ->
  head_file (lc_vai clone) = Some raw -> trim raw = hd ->
  (forall p, tracked p = true -> lc_tree clone !! p = current_files iter_order s !! p) ->
  no_clash (dom (lc_tree clone) ∪ dom (sent (lc_tree l))) ->
  exists out l' pulled clone' s',
    push_to message false force (l, s) = (Ok out, (l', s')) /\ pull_from (clone, s') = (Ok pulled, (clone', s')) /\
    read_local_head clone' = (Ok (po_version out), clone') /\
    forall p, tracked p = true -> lc_tree clone' !! p = lc_tree l !! p.
Proof using All.
  intros Hwf Hb Hlen P Hnew Hraw <- Hclean Hn.
  destruct (push_leaves message force (trim raw) l s Hwf Hb Hlen P Hnew) as (out & l' & s' & Epush & Hh & [Hfiles [n Hv] Hserved Hbeen Hrep]).
  assert (Hmap : current_files iter_order s' = sent (lc_tree l)) by by apply map_eq.
  destruct (@pull_incremental_spec _ _ _ _ spec s' (trim raw) _ Hserved Hbeen) as (resp & Eresp & _ & Hnd & Hcov).
  specialize (fun e => Hrep resp e Eresp) as Hrep'.
  destruct (@pull_ok ServerRepo sha256_hex b64_encode _ spec b64_decode codec clone s' (current_files iter_order s) raw resp)
    as (pulled & clone' & Epull & Hhead & Htree); try done.
  - eapply no_clash_mono; [|exact Hn]. unfold pull_paths. cbn [rm_files http_spec]. rewrite Hmap.
    intros p [Hp|Hp]%elem_of_union; [done|]. apply elem_of_list_to_set, list_elem_of_fmap in Hp as (e & -> & He).
    apply elem_of_union_r, elem_of_dom, Hrep', He.
  - cbn [rm_files http_spec]. intros p. rewrite Hfiles. intros [c Hc]. by apply map_lookup_filter_Some in Hc as [_ Hc].
  - cbn [rm_head http_spec]. rewrite Hv. apply version_text_trim.
  - right. intros e He Hrem. by destruct (Hrep' e He).
  - exists out, l', pulled, clone', s'. split_and!; [done|done| |].
    + rewrite Hhead. cbn [rm_head http_spec]. by rewrite Hh.
    + intros p Hp. rewrite Htree; [|done|].
      * cbn [rm_files http_spec]. rewrite Hfiles. unfold sent. destruct (lc_tree l !! p) as [c|] eqn:Ec.
        -- by apply map_lookup_filter_Some.
        -- apply map_lookup_filter_None. by left.
      * intros (_ & e & He & <- & _ & Hnone). destruct (Hrep' e He) as [[c Hc] Hne]. specialize (Hcov (fp_path e)).
        rewrite (find_by_elem fp_path _ _ e Hnd He eq_refl), Hnone in Hcov. cbn [rm_files http_spec] in Hcov.
        rewrite Hfiles, Hc in Hcov. by destruct (fp_change e).
Qed.
End roundtrip.

(** ** Witness *)

(** An archive format: each byte of a text after a mark, and a mark at the end. *)
Definition enc_bytes (x : bytes) : bytes := concat ((fun b => ["1"%char; b]) <$> x) ++ ["0"%char].
Fixpoint dec_bytes (l : bytes) : option (bytes * bytes) :=
  match l with
  | "1"%char :: b :: l' => xr ← dec_bytes l'; Some (b :: xr.1, xr.2)
  | "0"%char :: l' => Some ([], l')
  | _ => None
  end.

Definition enc_type (t : EntryType) : ascii :=
  match t with Regular => "a" | Directory => "b" | Symlink => "c" | HardLink => "d" | OtherEntry => "e" end%char.
Definition dec_type (a : ascii) : EntryType :=
  match a with "a" => Regular | "b" => Directory | "c" => Symlink | "d" => HardLink | _ => OtherEntry end%char.

Definition enc_archive (es : list TarEntry) : bytes :=
  concat ((fun e => enc_type (te_type e) :: enc_bytes (bytes_of (te_path e)) ++ enc_bytes (te_content e)) <$> es).
Fixpoint dec_entries (fuel : nat) (l : bytes) : option (list TarEntry) :=
  match fuel, l with
  | _, [] => Some []
  | S fuel', t :: l1 =>
      p ← dec_bytes l1;
      c ← dec_bytes p.2;
      rest ← dec_entries fuel' c.2;
      Some (mkEntry (dec_type t) (string_of p.1) c.1 :: rest)
  | O, _ => None
  end.
Definition dec_archive (l : bytes) : option (list TarEntry) := dec_entries (length l) l.

Lemma dec_enc_bytes x r : dec_bytes (enc_bytes x ++ r) = Some (x, r).
Proof.
  induction x as [|b x IH]; [done|]. change (enc_bytes (b :: x)) with ("1"%char :: b :: enc_bytes x).
  cbn [dec_bytes app]. by rewrite IH.
Qed.

Lemma dec_enc_archive es : dec_archive (enc_archive es) = Some es.
Proof.
  unfold dec_archive. assert (Hf : forall fuel, length (enc_archive es) <= fuel -> dec_entries fuel (enc_archive es) = Some es);
    [|by apply Hf].
  induction es as [|[t p c] es IH]; intros fuel Hl; [by destruct fuel|].
  change (enc_archive (mkEntry t p c :: es)) with
    (enc_type t :: (enc_bytes (bytes_of p) ++ enc_bytes c) ++ enc_archive es) in *.
  destruct fuel as [|fuel]; [simpl in Hl; lia|]. cbn [dec_entries]. rewrite <-app_assoc, dec_enc_bytes.
  cbn [mbind option_bind fst snd]. rewrite dec_enc_bytes. cbn [mbind option_bind fst snd].
  rewrite IH by (simpl in Hl; rewrite length_app in Hl; lia). cbn [mbind option_bind].
  rewrite string_of_bytes_of. by destruct t.
Qed.

Definition wit_author : Local :=
  mkLocal (list_to_map [("a"%string, bytes_of "new"); ("b"%string, bytes_of "x")])
    (wit_vai ("v1" +:+ String LF EmptyString)) true ∅.

Lemma wit_author_files p c :
  lc_tree wit_author !! p = Some c -> (p = "a"%string /\ c = bytes_of "new") \/ (p = "b"%string /\ c = bytes_of "x").
Proof.
  intros Hp. apply elem_of_list_to_map_2 in Hp. apply elem_of_cons in Hp as [[= -> ->]|Hp]; [by left|].
  apply list_elem_of_singleton in Hp as [= -> ->]. by right.
Qed.

Lemma wit_server_files p c : current_files wit_iter wit_server !! p = Some c -> p = "a"%string /\ c = bytes_of "old".
Proof.
  assert (current_files wit_iter wit_server = {["a"%string := bytes_of "old"]}) as -> by (vm_compute; reflexivity).
  by intros [<- <-]%lookup_singleton_Some.
Qed.

#[local] Instance wit_http : RemoteAdapter ServerRepo :=
  http_adapter (unicode := ascii_unicode) wit_clock wit_uuid wit_parse_uuid string_of wit_iter dec_archive wit_manifest
    string_of wit_dir wit_parser wit_parser wit_archive wit_rows true.

Lemma wit_pushable :
  pushable wit_uuid wit_parse_uuid string_of wit_iter enc_archive "fix" "v1" wit_author wit_server.
Proof.
  constructor.
  - split_and!; [by eexists|vm_compute; reflexivity|vm_compute; reflexivity].
  - reflexivity.
  - reflexivity.
  - simpl. unfold MAX_INTENT_LEN. lia.
  - reflexivity.
  - reflexivity.
  - intros p. unfold overlay_at, wit_server. simpl sv_files. apply lookup_singleton_ne. by intros [=].
  - intros p c Hp. apply map_lookup_filter_Some in Hp as [Hp _]. apply wit_author_files in Hp as [[-> ->]|[-> ->]];
      split_and!; (reflexivity || discriminate || (intros [=])).
  - vm_compute. reflexivity.
  - intros p [c Hc]. apply wit_server_files in Hc as [-> ->]. vm_compute. by eexists.
  - intros p c c' _ _ E. apply (f_equal bytes_of) in E. by rewrite !bytes_of_string_of in E.
  - exists "b"%string. vm_compute. discriminate.
Qed.

Lemma push_then_pull_witness :
  exists out l' pulled clone' s',
    @push ServerRepo wit_http wit_clock wit_parse_uuid string_of wit_iter enc_archive "fix" false false
      (wit_author, wit_server) = (Ok out, (l', s')) /\
    @pull ServerRepo wit_http string_of wit_decode (wit_local, s') = (Ok pulled, (clone', s')) /\
    lc_tree clone' !! "a"%string = Some (bytes_of "new") /\ lc_tree clone' !! "b"%string = Some (bytes_of "x").
Proof.
  destruct (push_then_pull (unicode := ascii_unicode) wit_clock wit_uuid wit_parse_uuid string_of wit_iter enc_archive
    dec_archive wit_manifest string_of wit_decode wit_dir wit_parser wit_parser wit_archive wit_rows
    (fun X => Permutation_refl _) dec_enc_archive (fun c => f_equal Some (bytes_of_string_of c)) (fun _ l => Permutation_refl l)
    wit_parse_uuid_ok wit_dir_ok (fun p c => ex_intro _ _ eq_refl) (fun p c => ltac:(discriminate))
    "fix" false "v1" wit_author wit_local ("v1" +:+ String LF EmptyString) wit_server)
    as (out & l' & pulled & clone' & s' & E1 & E2 & _ & Ht).
  - exact wit_server_wf.
  - vm_compute. reflexivity.
  - vm_compute. reflexivity.
  - exact wit_pushable.
  - by intros ev ?%not_elem_of_nil.
  - reflexivity.
  - vm_compute. reflexivity.
  - intros p _. apply (f_equal (lookup p)). vm_compute. reflexivity.
  - refine (bool_decide_unpack (no_clash _) _). vm_compute. exact I.
  - exists out, l', pulled, clone', s'. split; [exact E1|]. split; [exact E2|].
    split; (rewrite Ht; [vm_compute; reflexivity|reflexivity]).
Defined.
