(* ===== verification/EventStream.v ===== *)
(** The event stream of the server ([src/src/server/ws.rs], the replay buffer and the
    broadcast of [src/src/server/mod.rs]): what a client that reconnects is sent, as
    two transition systems whose steps are the points at which the tasks of a
    connection can be interleaved. *)
From S2P Require Import Prelude Table RustStr TextMerge EventLog.

(** ** Events and filters *)

(** The payload is its JSON text, the timestamp what it parses to. *)
Record StreamEvent : Type := mkStream {
  se_type : string; se_id : N; se_workspace : option string; se_time : option DateTime; se_data : string
}.

#[export] Instance StreamEvent_eq_dec : EqDecision StreamEvent.
Proof. solve_decision. Defined.

Record SubscriptionFilter : Type := mkFilter {
  sf_entities : list string; sf_paths : list string; sf_event_types : list string; sf_workspaces : list string
}.

Definition filter_matches (filter : SubscriptionFilter) (event : StreamEvent) : bool :=
  (bool_decide (sf_event_types filter = []) || bool_decide (se_type event ∈ sf_event_types filter)) &&
  (bool_decide (sf_workspaces filter = []) ||
   match se_workspace event with Some ws => bool_decide (ws ∈ sf_workspaces filter) | None => false end) &&
  (bool_decide (sf_entities filter = []) || existsb (fun eid => str_contains eid (se_data event)) (sf_entities filter)) &&
  (bool_decide (sf_paths filter = []) || existsb (fun p => str_contains p (se_data event)) (sf_paths filter)).

(** ** The replay buffer *)

Definition BUFFER_MAX_EVENTS : nat := N.to_nat 10000.
Definition EVENT_CHANNEL_CAPACITY : nat := 1024.

Section buffer.
(** [BUFFER_MAX_AGE_SECS], as a duration. *)
Variable max_age : DateTime.

(** [while len > max { pop_front }] *)
Definition evict_count (events : list StreamEvent) : list StreamEvent :=
  drop (length events - BUFFER_MAX_EVENTS) events.

Fixpoint evict_age (cutoff : DateTime) (events : list StreamEvent) : list StreamEvent :=
  match events with
  | e :: events' =>
      match se_time e with
      | Some ts => if (ts <? cutoff)%Z then evict_age cutoff events' else events
      | None => events
      end
  | [] => []
  end.

(** [EventBuffer::push] at the instant [now]. *)
Definition buffer_push (now : DateTime) (event : StreamEvent) (events : list StreamEvent) : list StreamEvent :=
  evict_age (now - max_age)%Z (evict_count (events ++ [event])).

Definition events_since (last_event_id : N) (events : list StreamEvent) : bool * list StreamEvent :=
  (match events with
   | [] => (0 <? last_event_id)%N
   | oldest :: _ => (last_event_id + 1 <? se_id oldest)%N
   end,
   filter (fun e => (last_event_id < se_id e)%N) events).

(** [AppState::broadcast]: the next number, then the buffer, then the channel. *)
Record Hub : Type := mkHub { event_seq : N; event_buffer : list StreamEvent }.

Definition hub_broadcast (now : DateTime) (event : StreamEvent) (h : Hub) : StreamEvent * Hub :=
  let seq := (event_seq h + 1)%N in
  let e := mkStream (se_type event) seq (se_workspace event) (se_time event) (se_data event) in
  (e, mkHub seq (buffer_push now e (event_buffer h))).

(** The buffer holds the last events, up to the newest, numbered without a gap. *)
Record buffer_ok (h : Hub) : Prop := {
  bo_length : length (event_buffer h) <= BUFFER_MAX_EVENTS;
  bo_numbers i e : event_buffer h !! i = Some e ->
    se_id e = (event_seq h - N.of_nat (length (event_buffer h)) + N.of_nat i + 1)%N;
  bo_seq : (N.of_nat (length (event_buffer h)) <= event_seq h)%N
}.

Lemma evict_age_drop cutoff events : exists k, evict_age cutoff events = drop k events.
Proof using.
  induction events as [|e events IH]; [by exists 0|]. simpl. destruct (se_time e) as [ts|]; [|by exists 0].
  destruct (ts <? cutoff)%Z; [|by exists 0]. destruct IH as [k ->]. by exists (S k).
Qed.

Lemma evict_age_newest cutoff events e ts :
  se_time e = Some ts -> (cutoff <= ts)%Z -> evict_age cutoff (events ++ [e]) <> [].
Proof using.
  intros He Hts. induction events as [|x events IH]; simpl.
  - rewrite He. destruct (Z.ltb_spec ts cutoff); [lia|done].
  - destruct (se_time x) as [tx|]; [|done]. by destruct (tx <? cutoff)%Z.
Qed.

Lemma hub_broadcast_ok now event h : buffer_ok h -> buffer_ok (hub_broadcast now event h).2.
Proof using.
  intros [Hl Hn Hs]. simpl. set (e := mkStream _ _ _ _ _). unfold buffer_push, evict_count.
  destruct (evict_age_drop (now - max_age)%Z (drop (length (event_buffer h ++ [e]) - BUFFER_MAX_EVENTS)
    (event_buffer h ++ [e]))) as [k Hk]. rewrite drop_drop in Hk.
  set (n := length (event_buffer h ++ [e]) - BUFFER_MAX_EVENTS + k) in Hk.
  assert (Hlen : length (event_buffer h ++ [e]) = length (event_buffer h) + 1) by by rewrite length_app.
  constructor; simpl; rewrite Hk, length_drop, Hlen.
  - unfold n. rewrite Hlen. lia.
  - intros i x. rewrite lookup_drop. intros Hi.
    assert (Hx : se_id x = (event_seq h + 1 - N.of_nat (length (event_buffer h) + 1) + N.of_nat (n + i) + 1)%N).
    { apply lookup_app_Some in Hi as [Hi|[Hge Hi]].
      - rewrite (Hn _ _ Hi). pose proof (lookup_lt_Some _ _ _ Hi). lia.
      - apply list_lookup_singleton_Some in Hi as [Hi <-]. simpl. lia. }
    rewrite Hx. pose proof (lookup_lt_Some _ _ _ Hi) as Hlt. rewrite Hlen in Hlt. lia.
  - lia.
Qed.

(** What a client that has seen everything up to an event learns: without the flag,
    the answer holds every event since. *)
Lemma events_since_complete last h id :
  buffer_ok h -> (event_seq h = 0%N \/ event_buffer h <> []) -> (events_since last (event_buffer h)).1 = false ->
  (last < id <= event_seq h)%N -> exists e, e ∈ (events_since last (event_buffer h)).2 /\ se_id e = id.
Proof using.
  intros [_ Hn Hs] Hne Hflag Hid. unfold events_since in *. simpl in *.
  destruct (event_buffer h) as [|oldest b'] eqn:Eb; [destruct Hne as [Hz|]; [lia|done]|].
  rewrite <-Eb in *. set (b := event_buffer h) in *. set (n := length b) in *.
  assert (H0 : b !! 0 = Some oldest) by by rewrite Eb. apply Hn in H0.
  apply N.ltb_ge in Hflag. assert (Hpos : 0 < n) by (unfold n; rewrite Eb; simpl; lia).
  set (i := N.to_nat (id - se_id oldest)).
  destruct (lookup_lt_is_Some_2 b i) as [e He]; [unfold i; lia|].
  exists e. split; [|rewrite (Hn _ _ He); unfold i; lia].
  apply list_elem_of_filter. split; [rewrite (Hn _ _ He); unfold i; lia|by eapply list_elem_of_lookup_2].
Qed.

(** The numbers start again with the server: a client that saw more events than the new
    server has sent is told that nothing is missing. *)
Lemma restart_undetected last h :
  buffer_ok h -> event_buffer h <> [] -> N.of_nat (length (event_buffer h)) = event_seq h -> (event_seq h <= last)%N ->
  events_since last (event_buffer h) = (false, []).
Proof using.
  intros [_ Hn _] Hne Hall Hlast. unfold events_since. destruct (event_buffer h) as [|oldest b] eqn:Eb; [done|].
  rewrite <-Eb in *. assert (H0 : se_id oldest = 1%N) by (rewrite (Hn 0 oldest), Hall by (by rewrite Eb); lia).
  rewrite H0. f_equal; [apply N.ltb_ge; rewrite Eb in Hall; simpl in Hall; lia|].
  destruct (filter _ (event_buffer h)) as [|e l] eqn:Ef; [done|]. exfalso.
  assert (Hin : e ∈ filter (fun e => (last < se_id e)%N) (event_buffer h)) by (rewrite Ef; left).
  apply list_elem_of_filter in Hin as [Hid [i Hi]%list_elem_of_lookup]. rewrite (Hn _ _ Hi), Hall in Hid.
  pose proof (lookup_lt_Some _ _ _ Hi). lia.
Qed.

(** ** A connection in local mode *)

Inductive Msg : Type := MsgEvent (e : StreamEvent) | MsgExceeded | MsgError.

#[export] Instance Msg_eq_dec : EqDecision Msg.
Proof. solve_decision. Defined.

(** The channel holds what the connection has not received; [cn_skipped] counts what
    it lost there; [cn_replay] is the parameter [last_event_id] until it was used;
    [cn_pending] is the filter of a subscribe message whose replay was sent. *)
Record Conn : Type := mkConn {
  cn_queue : list StreamEvent; cn_skipped : nat; cn_filter : option SubscriptionFilter;
  cn_pending : option SubscriptionFilter; cn_replay : option N; cn_out : list Msg
}.

Definition connect (last_event_id : option N) : Conn := mkConn [] 0 None None last_event_id [].

(** The channel drops its oldest event when it is full. *)
Definition enqueue (e : StreamEvent) (c : Conn) : Conn :=
  let q := cn_queue c ++ [e] in
  let over := length q - EVENT_CHANNEL_CAPACITY in
  mkConn (drop over q) (cn_skipped c + over) (cn_filter c) (cn_pending c) (cn_replay c) (cn_out c).

(** A subscribe message, up to the point where the filter is stored. *)
Definition subscribe (f : SubscriptionFilter) (h : Hub) (c : Conn) : Conn :=
  match cn_replay c with
  | None => mkConn (cn_queue c) (cn_skipped c) (cn_filter c) (Some f) None (cn_out c)
  | Some last_id =>
      let '(buffer_exceeded, missed) := events_since last_id (event_buffer h) in
      mkConn (cn_queue c) (cn_skipped c) (cn_filter c) (Some f) None
        (cn_out c ++ (if buffer_exceeded then [MsgExceeded] else []) ++
         (MsgEvent <$> filter (fun e => filter_matches f e = true) missed))
  end.

Definition store_filter (c : Conn) : Conn :=
  match cn_pending c with
  | Some f => mkConn (cn_queue c) (cn_skipped c) (Some f) None (cn_replay c) (cn_out c)
  | None => c
  end.

Definition invalid_message (c : Conn) : Conn :=
  mkConn (cn_queue c) (cn_skipped c) (cn_filter c) (cn_pending c) (cn_replay c) (cn_out c ++ [MsgError]).

(** The forwarding loop takes one event. *)
Definition receive (c : Conn) : Conn :=
  match cn_queue c with
  | [] => c
  | event :: q =>
      let should_send := match cn_filter c with Some f => filter_matches f event | None => false end in
      mkConn q (cn_skipped c) (cn_filter c) (cn_pending c) (cn_replay c)
        (cn_out c ++ (if should_send then [MsgEvent event] else []))
  end.

(** The server, one connection, every event since the server started, and those that the
    forwarding loop has taken from the channel of the connection between the replay and the
    storing of the first filter. *)
Record Stream : Type := mkWorld {
  st_hub : Hub; st_conn : Conn; st_all : list StreamEvent; st_raced : list StreamEvent
}.

(** What the next turn of the forwarding loop drops although the replay was sent. *)
Definition raced (c : Conn) : list StreamEvent :=
  match cn_filter c, cn_pending c with None, Some _ => take 1 (cn_queue c) | _, _ => [] end.

Definition stream_broadcast (now : DateTime) (event : StreamEvent) (w : Stream) : Stream :=
  let '(e, h) := hub_broadcast now event (st_hub w) in
  mkWorld h (enqueue e (st_conn w)) (st_all w ++ [e]) (st_raced w).
Definition on_conn (g : Conn -> Conn) (w : Stream) : Stream := mkWorld (st_hub w) (g (st_conn w)) (st_all w) (st_raced w).
Definition stream_connect (last : N) (w : Stream) : Stream := mkWorld (st_hub w) (connect (Some last)) (st_all w) [].
Definition stream_receive (w : Stream) : Stream :=
  mkWorld (st_hub w) (receive (st_conn w)) (st_all w) (st_raced w ++ raced (st_conn w)).
Definition stream_subscribe (f : SubscriptionFilter) (w : Stream) : Stream :=
  on_conn (subscribe f (st_hub w)) w.

(** The steps, for a client that reconnects with the number [last] and always asks for
    the same filter: the task that reads its messages and the loop that forwards events
    run side by side, so [s_receive] can come between [s_subscribe] and [s_store]. *)
Inductive stream_step (f : SubscriptionFilter) (last : N) (w : Stream) : Stream -> Prop :=
  | s_broadcast now event : (exists ts, se_time event = Some ts /\ now - max_age <= ts)%Z ->
      stream_step f last w (stream_broadcast now event w)
  | s_connect : stream_step f last w (stream_connect last w)
  | s_subscribe : stream_step f last w (stream_subscribe f w)
  | s_store : stream_step f last w (on_conn store_filter w)
  | s_invalid : stream_step f last w (on_conn invalid_message w)
  | s_receive : stream_step f last w (stream_receive w).

Definition server_start (last : N) : Stream := mkWorld (mkHub 0 []) (connect (Some last)) [] [].

(** What the client has, or will have. *)
Definition covered (e : StreamEvent) (c : Conn) : Prop := MsgEvent e ∈ cn_out c \/ e ∈ cn_queue c.

(** The buffer is the end of the history, which is numbered from 1. *)
Record history_ok (w : Stream) : Prop := {
  so_buffer : buffer_ok (st_hub w);
  so_newest : event_seq (st_hub w) = 0%N \/ event_buffer (st_hub w) <> [];
  so_all i e : st_all w !! i = Some e -> se_id e = N.of_nat (S i);
  so_length : N.of_nat (length (st_all w)) = event_seq (st_hub w);
  so_suffix : exists k, event_buffer (st_hub w) = drop k (st_all w)
}.

Record conn_ok (f : SubscriptionFilter) (last : N) (all raced : list StreamEvent) (c : Conn) : Prop := {
  co_replay : is_Some (cn_replay c) -> cn_replay c = Some last /\ cn_filter c = None /\ cn_pending c = None;
  co_used : cn_replay c = None -> is_Some (cn_filter c) \/ is_Some (cn_pending c);
  co_filter g : cn_filter c = Some g \/ cn_pending c = Some g -> g = f;
  co_queue e : e ∈ cn_queue c -> e ∈ all;
  co_sound e : MsgEvent e ∈ cn_out c -> e ∈ all /\ filter_matches f e = true;
  co_covered : is_Some (cn_filter c) \/ is_Some (cn_pending c) -> cn_skipped c = 0 -> MsgExceeded ∉ cn_out c ->
    forall e, e ∈ all -> (last < se_id e)%N -> filter_matches f e = true -> covered e c \/ e ∈ raced
}.

Definition stream_ok (f : SubscriptionFilter) (last : N) (w : Stream) : Prop :=
  history_ok w /\ conn_ok f last (st_all w) (st_raced w) (st_conn w).

Lemma stream_broadcast_eq now event w : exists e,
  stream_broadcast now event w = mkWorld (mkHub (event_seq (st_hub w) + 1)%N (buffer_push now e (event_buffer (st_hub w))))
    (enqueue e (st_conn w)) (st_all w ++ [e]) (st_raced w) /\
  se_id e = (event_seq (st_hub w) + 1)%N /\ se_time e = se_time event /\
  hub_broadcast now event (st_hub w) = (e, mkHub (event_seq (st_hub w) + 1)%N (buffer_push now e (event_buffer (st_hub w)))).
Proof using. by eexists. Qed.

Lemma broadcast_history now event w ts :
  se_time event = Some ts -> (now - max_age <= ts)%Z -> history_ok w -> history_ok (stream_broadcast now event w).
Proof using.
  intros Hts Hage [Hb _ Ha Hl [k Hk]]. destruct (stream_broadcast_eq now event w) as (e & -> & Hid & Ht & Hhub).
  constructor; simpl.
  - pose proof (hub_broadcast_ok now event _ Hb) as Hb'. by rewrite Hhub in Hb'.
  - right. unfold buffer_push, evict_count. rewrite length_app. simpl.
    destruct (Nat.le_gt_cases (length (event_buffer (st_hub w)) + 1 - BUFFER_MAX_EVENTS) (length (event_buffer (st_hub w))))
      as [Hle|Hgt].
    + rewrite drop_app_le by done. by eapply evict_age_newest; [rewrite Ht; exact Hts|].
    + exfalso. destruct Hb as [Hb _ _]. unfold BUFFER_MAX_EVENTS in *. lia.
  - intros i x [Hx|[Hge Hx]]%lookup_app_Some; [by eapply Ha|].
    apply list_lookup_singleton_Some in Hx as [Hi <-]. rewrite Hid, <-Hl. lia.
  - rewrite length_app. simpl. lia.
  - unfold buffer_push, evict_count. destruct (evict_age_drop (now - max_age)%Z
      (drop (length (event_buffer (st_hub w) ++ [e]) - BUFFER_MAX_EVENTS) (event_buffer (st_hub w) ++ [e]))) as [n ->].
    rewrite drop_drop. destruct (Nat.le_gt_cases k (length (st_all w))) as [Hle|Hgt].
    + rewrite Hk. rewrite <-(drop_app_le (st_all w) [e] k) by done. rewrite drop_drop. by eexists.
    + rewrite Hk, (drop_ge (st_all w)) by lia. eexists (length (st_all w) + _).
      by rewrite drop_app_add.
Qed.

Lemma history_conn w c r : history_ok w -> history_ok (mkWorld (st_hub w) c (st_all w) r).
Proof using. by intros [? ? ? ? ?]. Qed.

Lemma elem_of_drop_l {A} (x : A) n (l : list A) : x ∈ drop n l -> x ∈ l.
Proof using. intros [i Hi]%list_elem_of_lookup. rewrite lookup_drop in Hi. by eapply list_elem_of_lookup_2. Qed.

(** Nothing was lost in the channel: the queue grew by the event. *)
Lemma enqueue_kept e c : cn_skipped (enqueue e c) = 0 -> cn_skipped c = 0 /\ cn_queue (enqueue e c) = cn_queue c ++ [e].
Proof using.
  simpl. set (over := length (cn_queue c ++ [e]) - EVENT_CHANNEL_CAPACITY). intros Hskip.
  assert (over = 0) as -> by lia. by rewrite drop_0; split; [lia|].
Qed.

Lemma enqueue_ok f last all rc e c :
  conn_ok f last all rc c -> conn_ok f last (all ++ [e]) rc (enqueue e c).
Proof using.
  intros [Hr Hu Hf Hq Hs Hc]. constructor.
  - exact Hr.
  - exact Hu.
  - exact Hf.
  - intros x Hx%elem_of_drop_l. apply elem_of_app in Hx as [Hx| ->%list_elem_of_singleton]; apply elem_of_app; [left|right; left].
    by apply Hq.
  - intros x Hx. destruct (Hs _ Hx) as [Hin Hm]. split; [apply elem_of_app; by left|done].
  - intros Hset [Hskip Hqueue]%enqueue_kept Hex x Hx Hid Hm. unfold covered. rewrite Hqueue. simpl.
    apply elem_of_app in Hx as [Hx| ->%list_elem_of_singleton]; [|left; right; apply elem_of_app; right; left].
    destruct (Hc Hset Hskip Hex x Hx Hid Hm) as [[Ho|Hi]|Hr']; [by left; left|left; right; apply elem_of_app; by left|by right].
Qed.

(** An event since [last] is in the answer of the buffer when the flag is down. *)
Lemma replay_complete last w e :
  history_ok w -> (events_since last (event_buffer (st_hub w))).1 = false -> e ∈ st_all w -> (last < se_id e)%N ->
  e ∈ (events_since last (event_buffer (st_hub w))).2.
Proof using.
  intros [Hb Hn Ha Hl [k Hk]] Hflag Hin Hid. apply list_elem_of_lookup in Hin as [i Hi].
  pose proof (lookup_lt_Some _ _ _ Hi) as Hlt. pose proof (Ha _ _ Hi) as He.
  destruct (events_since_complete last _ (se_id e) Hb Hn Hflag) as (e' & He' & Hsame); [lia|].
  enough (e' = e) as <- by done.
  assert (Hin : e' ∈ st_all w).
  { unfold events_since in He'. simpl in He'. apply list_elem_of_filter in He' as [_ He'].
    rewrite Hk in He'. by eapply elem_of_drop_l. }
  apply list_elem_of_lookup in Hin as [j Hj]. pose proof (Ha _ _ Hj) as Hej.
  assert (j = i) as -> by lia. congruence.
Qed.

Lemma replay_sound last w e :
  history_ok w -> e ∈ (events_since last (event_buffer (st_hub w))).2 -> e ∈ st_all w.
Proof using.
  intros [_ _ _ _ [k Hk]] He. unfold events_since in He. simpl in He. apply list_elem_of_filter in He as [_ He].
  rewrite Hk in He. by eapply elem_of_drop_l.
Qed.

Lemma subscribe_ok f last w :
  history_ok w -> conn_ok f last (st_all w) (st_raced w) (st_conn w) ->
  conn_ok f last (st_all w) (st_raced w) (subscribe f (st_hub w) (st_conn w)).
Proof using.
  intros Hh [Hr Hu Hf Hq Hs Hc]. unfold subscribe. destruct (cn_replay (st_conn w)) as [l|] eqn:Er.
  - destruct (Hr (ltac:(by eexists))) as ([= ->] & Hnof & Hnop).
    destruct (events_since last (event_buffer (st_hub w))) as [flag missed] eqn:Es.
    pose proof (fun e => replay_complete last w e Hh) as Hcomp. pose proof (fun e => replay_sound last w e Hh) as Hsnd.
    rewrite Es in Hcomp, Hsnd. simpl in Hcomp, Hsnd. constructor; simpl.
    + by intros [? [=]].
    + by right; eexists.
    + rewrite Hnof. by intros g [[=]|[= <-]].
    + exact Hq.
    + intros e [He|[He|He]%elem_of_app]%elem_of_app; [by apply Hs|by destruct flag; [apply list_elem_of_singleton in He|apply elem_of_nil in He]|].
      apply list_elem_of_fmap in He as (e' & [= <-] & [Hm He]%list_elem_of_filter). by split; [apply Hsnd|].
    + intros _ _ Hex e He Hid Hm. left. left. simpl. destruct flag; [|].
      { exfalso. apply Hex. apply elem_of_app. right. left. }
      apply elem_of_app. right. simpl. apply list_elem_of_fmap. exists e. split; [done|].
      apply list_elem_of_filter. split; [done|]. by apply Hcomp.
  - constructor; simpl.
    + by intros [? [=]].
    + by right; eexists.
    + intros g [Hg|[= <-]]; [by apply Hf; left|done].
    + exact Hq.
    + exact Hs.
    + intros _ Hskip Hex e He Hid Hm. by apply (Hc (Hu eq_refl) Hskip Hex e).
Qed.

Lemma store_ok f last all rc c : conn_ok f last all rc c -> conn_ok f last all rc (store_filter c).
Proof using.
  intros [Hr Hu Hf Hq Hs Hc]. unfold store_filter. destruct (cn_pending c) as [g|] eqn:Ep; [|by constructor; rewrite ?Ep].
  constructor; simpl; try done.
  - intros Hl. by destruct (Hr Hl) as (_ & _ & [=]).
  - intros _. by left; eexists.
  - intros g' [[= <-]|[=]]. by apply Hf; right.
  - intros _ Hskip Hex e He Hid Hm. apply (Hc (ltac:(right; by eexists)) Hskip Hex e He Hid Hm).
Qed.

Lemma invalid_ok f last all rc c : conn_ok f last all rc c -> conn_ok f last all rc (invalid_message c).
Proof using.
  intros [Hr Hu Hf Hq Hs Hc]. constructor; simpl; try done.
  - intros e [He|[=]%list_elem_of_singleton]%elem_of_app. by apply Hs.
  - intros Hset Hskip Hex e He Hid Hm. unfold covered. simpl.
    destruct (Hc Hset Hskip (ltac:(intros Hin; apply Hex, elem_of_app; by left)) e He Hid Hm) as [[Ho|Ho]|Ho]; [left; left|by left; right|by right].
    apply elem_of_app. by left.
Qed.

Lemma connect_ok f last all rc : conn_ok f last all rc (connect (Some last)).
Proof using.
  constructor; simpl; try done.
  - by intros g [[=]|[=]].
  - intros e He. by apply elem_of_nil in He.
  - intros e He. by apply elem_of_nil in He.
  - by intros [[? [=]]|[? [=]]].
Qed.

Lemma receive_ok f last all rc c : conn_ok f last all rc c -> conn_ok f last all (rc ++ raced c) (receive c).
Proof using.
  intros [Hr Hu Hf Hq Hs Hc]. unfold receive, raced. destruct (cn_queue c) as [|event q] eqn:Eq.
  { assert (match cn_filter c, cn_pending c with None, Some _ => take 1 ([] : list StreamEvent) | _, _ => [] end = []) as ->
      by (by destruct (cn_filter c), (cn_pending c)). rewrite app_nil_r. by constructor; rewrite ?Eq. }
  constructor; simpl; try done.
  - intros e He. apply Hq. by right.
  - intros e [He|He]%elem_of_app; [by apply Hs|]. destruct (cn_filter c) as [g|] eqn:Eg; [|by apply elem_of_nil in He].
    assert (g = f) as -> by (apply Hf; by left). destruct (filter_matches f event) eqn:Em; [|by apply elem_of_nil in He].
    apply list_elem_of_singleton in He as [= ->]. split; [apply Hq; left|done].
  - intros Hset Hskip Hex e He Hid Hm. unfold covered. simpl.
    destruct (Hc Hset Hskip (ltac:(intros Hin; apply Hex, elem_of_app; by left)) e He Hid Hm) as [[Ho|Ho]|Ho].
    { left; left. apply elem_of_app. by left. }
    2: { right. apply elem_of_app. by left. }
    rewrite Eq in Ho. apply elem_of_cons in Ho as [->|Ho]; [|by left; right].
    destruct (cn_filter c) as [g|] eqn:Hg.
    + assert (g = f) as -> by (apply Hf; by left). left. left. rewrite Hm. apply elem_of_app. right. left.
    + right. apply elem_of_app. right. destruct Hset as [[? [=]]|[p ->]]. simpl. by apply list_elem_of_singleton.
Qed.

Lemma stream_step_ok f last w w' : stream_step f last w w' -> stream_ok f last w -> stream_ok f last w'.
Proof using.
  intros Hstep [Hh Hc]. destruct Hstep as [now event (ts & Hts & Hage)| | | | |].
  - split; [by eapply broadcast_history|]. destruct (stream_broadcast_eq now event w) as (e & -> & _). by apply enqueue_ok.
  - split; [by apply history_conn|apply connect_ok].
  - split; [by apply history_conn|by apply (subscribe_ok f last w)].
  - split; [by apply history_conn|by apply store_ok].
  - split; [by apply history_conn|by apply invalid_ok].
  - split; [by apply history_conn|by apply receive_ok].
Qed.

Lemma stream_reachable_ok f last w : rtc (stream_step f last) (server_start last) w -> stream_ok f last w.
Proof using.
  intros Hrtc. enough (stream_ok f last (server_start last)) as Hstart.
  { revert Hstart. induction Hrtc as [|w w' w'' Hstep _ IH]; [done|]. intros Hw. apply IH. by eapply stream_step_ok. }
  split; [|apply connect_ok]. constructor; simpl; try done.
  - constructor; simpl; [unfold BUFFER_MAX_EVENTS; lia|done|lia].
  - by left.
  - by exists 0.
Qed.

(** C28. A client of the local server that reconnects with the number of the last event
    it has seen is sent no event that does not match its filter, and misses none of the
    later events that match it: whatever the order of broadcasts, reconnections, subscribe
    messages and deliveries, once its filter is in place every such event is sent or waits in
    its channel, with three exceptions: the server said that the replay buffer was exceeded,
    the channel overflowed, or the forwarding loop took the event after the replay and before
    the filter was stored, when it drops it. The last exception is real
    ([race_loses_event]). *)
Theorem reconnect_misses_nothing f last w e :
  rtc (stream_step f last) (server_start last) w ->
  (MsgEvent e ∈ cn_out (st_conn w) -> e ∈ st_all w /\ filter_matches f e = true) /\
  (is_Some (cn_filter (st_conn w)) -> cn_skipped (st_conn w) = 0 -> MsgExceeded ∉ cn_out (st_conn w) ->
   (e ∉ st_raced w) -> e ∈ st_all w -> (last < se_id e)%N -> filter_matches f e = true -> covered e (st_conn w)).
Proof using.
  intros [_ [_ _ _ _ Hs Hc]]%stream_reachable_ok. split; [apply Hs|].
  intros Hset Hskip Hex Hrc He Hid Hm. by destruct (Hc (or_introl Hset) Hskip Hex e He Hid Hm).
Qed.

Lemma stream_subscribe_replay f w last flag missed :
  cn_replay (st_conn w) = Some last -> events_since last (event_buffer (st_hub w)) = (flag, missed) ->
  stream_subscribe f w = on_conn (fun c => mkConn (cn_queue c) (cn_skipped c) (cn_filter c) (Some f) None
    (cn_out c ++ (if flag then [MsgExceeded] else []) ++ (MsgEvent <$> filter (fun e => filter_matches f e = true) missed))) w.
Proof using. intros Hr Hev. unfold stream_subscribe, on_conn, subscribe. by rewrite Hr, Hev. Qed.

(** The race loses an event: the replay is over, and the filter is not in place when the
    event is forwarded. *)
Lemma race_loses_event f now event h all last :
  se_time event = Some now -> filter_matches f (hub_broadcast now event h).1 = true -> (0 <= max_age)%Z ->
  events_since last (event_buffer h) = (false, []) ->
  let w := mkWorld h (connect (Some last)) all [] in
  let w' := on_conn store_filter (stream_receive (stream_broadcast now event (stream_subscribe f w))) in
  rtc (stream_step f last) w w' /\
  (hub_broadcast now event h).1 ∈ st_all w' /\ cn_filter (st_conn w') = Some f /\ cn_skipped (st_conn w') = 0 /\
  cn_out (st_conn w') = [] /\ cn_queue (st_conn w') = [] /\ st_raced w' = [(hub_broadcast now event h).1].
Proof using.
  intros Ht Hm Hage Hev w w'. split.
  - unfold w'. eapply rtc_r; [|apply s_store]. eapply rtc_r; [|apply s_receive].
    eapply rtc_r; [|apply s_broadcast; exists now; split; [done|lia]]. apply rtc_once, s_subscribe.
  - subst w'. rewrite (stream_subscribe_replay f w last false []) by done. split; [|done].
    apply elem_of_app. right. left.
Qed.

(** An event that is broadcast between the connection and the subscribe message is sent
    twice: by the replay, and from the channel. *)
Lemma replay_duplicates f now event h all last :
  let e := (hub_broadcast now event h).1 in
  filter_matches f e = true -> events_since last (event_buffer (hub_broadcast now event h).2) = (false, [e]) ->
  let w := stream_broadcast now event (mkWorld h (connect (Some last)) all []) in
  cn_out (st_conn (stream_receive (on_conn store_filter (stream_subscribe f w)))) = [MsgEvent e; MsgEvent e].
Proof using.
  intros e Hm Hev w. rewrite (stream_subscribe_replay f w last false [e]) by done.
  rewrite filter_cons_True by done. cbn in Hm |- *. by rewrite Hm.
Qed.
End buffer.

Definition ev (ty : string) (ws : option string) (ts : DateTime) (data : string) : StreamEvent :=
  mkStream ty 0 ws (Some ts) data.
Definition all_events : SubscriptionFilter := mkFilter [] [] [] [].

(** One event before the reconnection, one after. *)
Definition reconnected : Stream :=
  stream_receive (stream_broadcast 3600 11 (ev "B" None 11 "{}") (on_conn store_filter
    (stream_subscribe all_events (stream_broadcast 3600 10 (ev "A" None 10 "{}") (server_start 0))))).

Lemma reconnect_misses_nothing_witness :
  rtc (stream_step 3600 all_events 0) (server_start 0) reconnected /\
  Forall (fun e => covered e (st_conn reconnected)) (st_all reconnected).
Proof.
  assert (Hrtc : rtc (stream_step 3600 all_events 0) (server_start 0) reconnected).
  { unfold reconnected. eapply rtc_r; [|by apply s_receive]. eapply rtc_r; [|apply s_broadcast; exists 11%Z; split; [done|lia]].
    eapply rtc_r; [|apply s_store]. eapply rtc_r; [|apply s_subscribe]. apply rtc_once.
    apply s_broadcast. exists 10%Z. split; [done|lia]. }
  split; [done|]. apply Forall_forall. intros e He.
  destruct (reconnect_misses_nothing 3600 all_events 0 reconnected e Hrtc) as [_ Hc].
  apply Hc; try done.
  - refine (bool_decide_unpack (MsgExceeded ∉ _) _). vm_compute. exact I.
  - vm_compute. apply not_elem_of_nil.
  - assert (Hall : Forall (fun e => (0 < se_id e)%N) (st_all reconnected)).
    { refine (bool_decide_unpack _ _). vm_compute. exact I. }
    by apply (proj1 (Forall_forall _ _) Hall).
Defined.
