(* ===== verification/EventStreamPg.v ===== *)
(** The event stream over Postgres ([handle_ws_connection_pg] of [src/src/server/ws.rs],
    the queries of [src/src/storage/postgres/event.rs], [EventFilter] of
    [src/src/storage/mod.rs]): a client is sent rows of the table [events], and a
    notification only says that there may be new ones. *)
From S2P Require Import Prelude Table RustStr TextMerge EventLog EventStream.

(** ** Filters *)

Record EventFilter : Type := mkEventFilter {
  ef_event_types : list string; ef_workspace_ids : list string; ef_entity_ids : list string; ef_paths : list string
}.

Definition ef_is_empty (f : EventFilter) : bool :=
  bool_decide (ef_event_types f = []) && bool_decide (ef_workspace_ids f = []) &&
  bool_decide (ef_entity_ids f = []) && bool_decide (ef_paths f = []).

(** One dimension: no restriction when the list is empty. *)
Definition dimension {A} (l : list A) (test : A -> bool) : bool := match l with [] => true | _ => existsb test l end.

(** [EventFilter::matches] *)
Definition ef_matches (f : EventFilter) (e : StreamEvent) : bool :=
  dimension (ef_event_types f) (fun t => bool_decide (t = se_type e)) &&
  dimension (ef_workspace_ids f) (fun w => bool_decide (se_workspace e = Some w)) &&
  dimension (ef_entity_ids f) (fun eid => str_contains eid (se_data e)) &&
  dimension (ef_paths f) (fun p => str_contains p (se_data e)).

(** [n as i64] for an [n : u64]. *)
Definition as_i64 (n : N) : Z := if (n <? 2 ^ 63)%N then Z.of_N n else (Z.of_N n - 2 ^ 64)%Z.

(** [MAX_RECONNECT] *)
Definition MAX_RECONNECT : nat := 5.

(** Seconds of sleep before the listener is created again. *)
Definition backoff_secs (reconnect_count : nat) : Z := Z.min (Z.shiftl 1 (Z.of_nat reconnect_count - 1)) 30.

Section pg.
(** Postgres: [text LIKE pattern], and [payload::text]; the parser of UUIDs, which
    returns the canonical form. *)
Variable like : string -> string -> bool.
Variable payload_text : StreamEvent -> string.
Variable parse_uuid : string -> option string.

Definition subscription_to_event_filter (sub : SubscriptionFilter) : EventFilter :=
  mkEventFilter (sf_event_types sub) (omap parse_uuid (sf_workspaces sub)) (sf_entities sub) (sf_paths sub).

(** The [WHERE] clause. *)
Definition sql_matches (f : EventFilter) (e : StreamEvent) : bool :=
  dimension (ef_event_types f) (fun t => bool_decide (t = se_type e)) &&
  dimension (ef_workspace_ids f) (fun w => bool_decide (se_workspace e = Some w)) &&
  dimension (ef_entity_ids f) (fun eid => like ("%" ++ eid ++ "%") (payload_text e)) &&
  dimension (ef_paths f) (fun p => like ("%" ++ p ++ "%") (payload_text e)).

(** [ORDER BY id] *)
Definition order_by_id (rows : list StreamEvent) : list StreamEvent := sort_by (fun a b => se_id a <=? se_id b)%N rows.

Definition query_since_id (rows : list StreamEvent) (last_id : Z) : list StreamEvent :=
  order_by_id (filter (fun e => last_id < Z.of_N (se_id e))%Z rows).

Definition query_since_id_filtered (rows : list StreamEvent) (last_id : Z) (f : EventFilter) : list StreamEvent :=
  if ef_is_empty f then query_since_id rows last_id
  else order_by_id (filter (fun e => (last_id < Z.of_N (se_id e))%Z /\ sql_matches f e = true) rows).

Lemma sql_matches_empty f e : ef_is_empty f = true -> sql_matches f e = true.
Proof using.
  unfold ef_is_empty. rewrite !andb_true_iff, !bool_decide_eq_true. unfold sql_matches.
  by intros [[[-> ->] ->] ->].
Qed.

Lemma query_elem e rows last_id f :
  e ∈ query_since_id_filtered rows last_id f <->
  e ∈ rows /\ (last_id < Z.of_N (se_id e))%Z /\ sql_matches f e = true.
Proof using.
  unfold query_since_id_filtered, query_since_id, order_by_id. destruct (ef_is_empty f) eqn:Ee;
    rewrite sort_by_elem_of, list_elem_of_filter; [|tauto].
  pose proof (sql_matches_empty f e Ee). tauto.
Qed.

(** ** A connection *)

(** [pc_notes] are the ids of the notifications the listener holds, [None] before it
    exists; [pc_cursor] is [last_delivered_id]; [pc_replay] is the parameter of the
    request until the replay was done. *)
Record PgConn : Type := mkPgConn {
  pc_notes : option (list N); pc_filter : option SubscriptionFilter; pc_pending : option SubscriptionFilter;
  pc_cursor : N; pc_replay : option N; pc_reconnects : nat; pc_open : bool; pc_out : list Msg
}.

Definition pg_connect (last_event_id : option N) : PgConn :=
  mkPgConn None None None (default 0%N last_event_id) last_event_id 0 true [].


(** Postgres delivers a notification to a listener that exists. *)
Definition pg_note (id : N) (c : PgConn) : PgConn :=
  mkPgConn ((fun q => q ++ [id]) <$> pc_notes c) (pc_filter c) (pc_pending c) (pc_cursor c) (pc_replay c)
    (pc_reconnects c) (pc_open c) (pc_out c).




(** A notification of this repository is received. *)
Definition pg_notified (query_ok : bool) (rows : list StreamEvent) (c : PgConn) : PgConn :=
  match pc_notes c with
  | Some (notif_event_id :: q) =>
      match pc_filter c with
      | None => mkPgConn (Some q) None (pc_pending c) (pc_cursor c) (pc_replay c) 0 (pc_open c) (pc_out c)
      | Some sub =>
          if query_ok then
            let events := query_since_id_filtered rows (as_i64 (pc_cursor c)) (subscription_to_event_filter sub) in
            mkPgConn (Some q) (Some sub) (pc_pending c) (N.max (pc_cursor c) notif_event_id) (pc_replay c) 0 (pc_open c)
              (pc_out c ++ (MsgEvent <$> events))
          else mkPgConn (Some q) (Some sub) (pc_pending c) (pc_cursor c) (pc_replay c) 0 (pc_open c) (pc_out c)
      end
  | _ => c
  end.




(** The committed rows of the repository in the order of their commits, the connection, and
    the late rows: those that were committed when the cursor had passed their number. *)
Record PgWorld : Type := mkPgWorld { pw_rows : list StreamEvent; pw_conn : PgConn; pw_late : list StreamEvent }.

Definition late (e : StreamEvent) (c : PgConn) : list StreamEvent := if (se_id e <=? pc_cursor c)%N then [e] else [].

Definition pg_on_conn (g : PgConn -> PgConn) (w : PgWorld) : PgWorld := mkPgWorld (pw_rows w) (g (pw_conn w)) (pw_late w).
Definition pg_commit (e : StreamEvent) (w : PgWorld) : PgWorld :=
  mkPgWorld (pw_rows w ++ [e]) (pg_note (se_id e) (pw_conn w)) (pw_late w ++ late e (pw_conn w)).





Lemma as_i64_small n : (n < 2 ^ 63)%N -> as_i64 n = Z.of_N n.
Proof using. intros Hn%N.ltb_lt. unfold as_i64. by rewrite Hn. Qed.












(** Two commits before the first notification is handled: the second row is sent again
    for its own notification. *)
Lemma notified_twice sub e1 e2 c :
  pc_filter c = Some sub -> pc_notes c = Some [se_id e1; se_id e2] -> pc_cursor c = 0%N -> pc_out c = [] ->
  (0 < se_id e1 < se_id e2)%N -> (se_id e2 < 2 ^ 63)%N ->
  ef_is_empty (subscription_to_event_filter sub) = true ->
  pc_out (pg_notified true [e1; e2] (pg_notified true [e1; e2] c)) = [MsgEvent e1; MsgEvent e2; MsgEvent e2].
Proof using.
  intros Hf Hn Hc Ho H12 H2 He. unfold pg_notified. rewrite Hn, Hf, Hc, Ho. simpl. unfold query_since_id_filtered.
  rewrite He. unfold query_since_id, order_by_id. rewrite !as_i64_small by lia.
  rewrite filter_cons_True, filter_cons_True, filter_nil by (simpl; lia).
  rewrite filter_cons_False, filter_cons_True, filter_nil by (simpl; lia). simpl.
  assert ((se_id e1 <=? se_id e2)%N = true) as Hle by (apply N.leb_le; lia). by rewrite Hle.
Qed.

(** Two transactions that commit in the other order: the row with the smaller number is
    never sent. *)
Lemma commit_order_loses sub e1 e2 c :
  pc_filter c = Some sub -> pc_notes c = Some [] -> pc_cursor c = 0%N -> pc_out c = [] -> pc_open c = true ->
  (0 < se_id e1 < se_id e2)%N -> (se_id e2 < 2 ^ 63)%N ->
  ef_is_empty (subscription_to_event_filter sub) = true ->
  let w1 := pg_commit e2 (mkPgWorld [] c []) in
  let w2 := pg_on_conn (pg_notified true (pw_rows w1)) w1 in
  let w3 := pg_commit e1 w2 in
  let w4 := pg_on_conn (pg_notified true (pw_rows w3)) w3 in
  pc_out (pw_conn w4) = [MsgEvent e2] /\ pc_notes (pw_conn w4) = Some [] /\ pw_late w4 = [e1].
Proof using.
  intros Hf Hn Hc Ho Hopen H12 H2 He w1 w2 w3 w4. subst w4 w3 w2 w1. unfold pg_commit, pg_on_conn, pg_notified, pg_note, late.
  simpl. rewrite Hn, Hf, Hc, Ho. simpl. unfold query_since_id_filtered.
  rewrite He. unfold query_since_id, order_by_id. rewrite !as_i64_small by lia.
  rewrite filter_cons_True, filter_nil by lia. rewrite N.max_r by (simpl; lia).
  rewrite filter_cons_False, filter_cons_False, filter_nil by (simpl; lia). simpl. split; [done|split; [done|]].
  destruct (N.leb_spec (se_id e2) 0), (N.leb_spec (se_id e1) (se_id e2)); (lia || done).
Qed.

(** A connection without [last_event_id] is sent the whole history with the first
    notification after its filter is stored. *)
Lemma fresh_gets_history sub rows c n q e :
  pc_filter c = Some sub -> pc_notes c = Some (n :: q) -> pc_cursor c = pc_cursor (pg_connect None) ->
  e ∈ rows -> (0 < se_id e)%N -> sql_matches (subscription_to_event_filter sub) e = true ->
  MsgEvent e ∈ pc_out (pg_notified true rows c).
Proof using.
  intros Hf Hn Hc He Hid Hm. unfold pg_notified. rewrite Hn, Hf, Hc. simpl. apply elem_of_app. right.
  apply list_elem_of_fmap_2, query_elem. split; [done|]. split; [|done]. rewrite as_i64_small by done. simpl. lia.
Qed.

(** A filter on workspaces none of which parses is a filter on nothing. *)
Lemma unparsed_workspaces_match_all sub e :
  Forall (fun w => parse_uuid w = None) (sf_workspaces sub) ->
  sf_entities sub = [] -> sf_paths sub = [] -> sf_event_types sub = [] ->
  sql_matches (subscription_to_event_filter sub) e = true.
Proof using.
  intros Hw He Hp Ht. unfold subscription_to_event_filter, sql_matches. rewrite He, Hp, Ht. simpl.
  induction Hw as [|w ws Hw _ IH]; [done|]. simpl. by rewrite Hw.
Qed.

Lemma dimension_or {A} (l : list A) test (D : Decision (l = [])) : dimension l test = bool_decide (l = []) || existsb test l.
Proof using. destruct l; [by rewrite bool_decide_eq_true_2|by rewrite bool_decide_eq_false_2]. Qed.

Lemma existsb_elem {A} `{EqDecision A} (l : list A) (test : A -> bool) x :
  (forall y, test y = bool_decide (y = x)) -> existsb test l = bool_decide (x ∈ l).
Proof using.
  intros Ht. induction l as [|y l IH]; [by rewrite bool_decide_eq_false_2 by by intros ?%elem_of_nil|].
  simpl. rewrite Ht, IH. apply eq_true_iff_eq.
  rewrite orb_true_iff, !bool_decide_eq_true, elem_of_cons. naive_solver.
Qed.

(** The two modes filter alike when the filter names workspaces by canonical ids. *)
Lemma filters_agree sub e :
  Forall (fun w => parse_uuid w = Some w) (sf_workspaces sub) ->
  ef_matches (subscription_to_event_filter sub) e = filter_matches sub e.
Proof using.
  intros Hw. assert (Hws : omap parse_uuid (sf_workspaces sub) = sf_workspaces sub).
  { induction Hw as [|w ws Hw _ IH]; [done|]. simpl. rewrite Hw. f_equal. exact IH. }
  unfold ef_matches, filter_matches, subscription_to_event_filter. simpl. rewrite Hws, !(dimension_or _ _ _).
  rewrite (existsb_elem _ _ (se_type e)) by done. f_equal. f_equal. f_equal. f_equal.
  destruct (se_workspace e) as [ws|].
  - apply existsb_elem. intros y. apply bool_decide_ext. split; [by intros [= ->]|by intros ->].
  - apply not_true_is_false. intros (w & _ & [=]%bool_decide_eq_true)%existsb_exists.
Qed.

(** The delay never reaches its bound. *)
Lemma backoff_below_cap n : 0 < n < MAX_RECONNECT -> (1 <= backoff_secs n <= 8)%Z.
Proof using. unfold MAX_RECONNECT. intros Hn. destruct n as [|[|[|[|[|n]]]]]; try lia; by vm_compute. Qed.

(** A number a client sends that is no [i64] makes the query start before every row. *)
Lemma wrapped_cursor n rows f e :
  (2 ^ 63 <= n < 2 ^ 64)%N -> e ∈ rows -> sql_matches f e = true -> e ∈ query_since_id_filtered rows (as_i64 n) f.
Proof using.
  intros Hn He Hm. apply query_elem. split; [done|]. split; [|done]. unfold as_i64.
  destruct (N.ltb_spec n (2 ^ 63)); lia.
Qed.
End pg.



