(* ===== verification/FileWorkspace.v ===== *)
(** The workspace façade of the command line ([src/src/file_workspace/mod.rs]): plan,
    submit and pull over the file abstraction, the metadata directory, the issue store
    and a server behind the port [RemoteRepo]; what a caller may rely on as a second
    class. *)
From S2P Require Import Prelude Table RustStr Graph EventLog MergeEngine MergeFs MergeFsReads VaiDir Workspace Version Diff Submit Issue.
From S2P Require Import ScopeHistory ScopeInference.

(** ** Data *)

Inductive Backend : Type := BackendLocal | BackendRemote.

#[export] Instance Backend_eq_dec : EqDecision Backend.
Proof. solve_decision. Defined.

Inductive Intent : Type :=
  | IntentExisting
  | IntentCreateFor (text : string) (issue_id : option Uuid)
  | IntentAgentWork (workspace_id : Uuid) (issue_id : option Uuid) (intent work_dir : string).

(** [ConflictPredicted] is declared, and no code makes one. *)
Inductive ConflictKind : Type := SameEntityModified | RemovedModified.
Inductive Surprise : Type :=
  | ServerHasFileLocalDoesNot (path : string)
  | BaseDrifted (expected actual : string)
  | ConflictPredicted (path : string) (kind : ConflictKind).

Record Plan : Type := mkPlan {
  adds : list string; mods : list string; dels : list string; pl_file_diffs : list FileDiff;
  pl_entity_changes : list EntityChange; surprises : list Surprise; pl_base_version : string; pl_head_version : string
}.

Definition plan_is_empty (p : Plan) : bool :=
  bool_decide (adds p = []) && bool_decide (mods p = []) && bool_decide (dels p = []) &&
  match pl_entity_changes p with [] => true | _ => false end.

Record SnapshotInfo : Type := mkSnapshotInfo { si_added : nat; si_modified : nat; si_deleted : nat; si_is_delta : bool }.

Record Applied : Type := mkApplied {
  ap_version : string; ap_files : nat; ap_entities : nat; ap_entity_ids : list string; ap_intent : string;
  ap_snapshot : option SnapshotInfo
}.

(** Messages are not kept. *)
Inductive FwError : Type :=
  | FwIo
  | FwWorkspace (e : WorkspaceError)
  | FwMerge (e : MergeError)
  | FwDiff (e : DiffError)
  | FwRepo
  | NotARepo
  | FwEmpty
  | FwWorkspaceEmpty
  | FwSurprises (p : Plan)
  | FwRemote.

(** The port; an upload reads the files of the caller, all of them or the overlay. *)
Class RemoteRepo (S R : Type) : Type := {
  list_head_files : M R FwError (list string);
  head_version : M R FwError string;
  upload_workspace : Uuid -> bool -> S -> string -> list string -> M R FwError SnapshotInfo;
  submit_workspace : Uuid -> M R FwError Applied;
  download_files : list string -> M R FwError (list (string * bytes));
  create_workspace : string -> M R FwError string
}.

(** What the reads promise: they show one set of files at one HEAD. *)
Class RemoteRepoSpec (S R : Type) `{RemoteRepo S R} : Type := {
  rr_head : R -> string;
  rr_file : R -> string -> option bytes;
  head_version_spec r : exists r', head_version r = (Ok (rr_head r), r') /\ rr_head r' = rr_head r /\ rr_file r' = rr_file r;
  list_head_files_spec r : exists r' files, list_head_files r = (Ok files, r') /\ rr_head r' = rr_head r /\
    rr_file r' = rr_file r /\ (forall p, p ∈ files <-> is_Some (rr_file r p)) /\ NoDup files;
  download_files_spec r paths contents :
    Forall2 (fun p c => rr_file r p = Some c) paths contents -> exists r',
    download_files paths r = (Ok (zip paths contents), r') /\ rr_head r' = rr_head r /\ rr_file r' = rr_file r
}.

(** An open workspace; its file abstraction maps [base/] to the directory
    [upload_root], which is the repository or the directory of an agent. *)
Record FileWorkspace : Type := mkFw {
  fw_meta : WorkspaceMeta; fw_upload_root : option string; fw_deleted : list string; fw_backend : Backend;
  is_push_from_root : bool
}.

(** The metadata directory, the files, the server, and the stores that a submission
    updates if it can open them. *)
Record FwWorld (S R : Type) : Type := mkFwWorld {
  ww_vai : VaiDir; ww_fs : S; ww_remote : R; ww_issues : option IssueStore; ww_history : option HistoryStore
}.
Arguments mkFwWorld {S R}.
Arguments ww_vai {S R}.
Arguments ww_fs {S R}.
Arguments ww_remote {S R}.
Arguments ww_issues {S R}.
Arguments ww_history {S R}.

Section file_workspace.
Context {S R : Type} `{MergeFs S} {RR : RemoteRepo S R} {unicode : Unicode}.
Variable clock : nat -> DateTime.
Variable uuid : nat -> Uuid.
Variable read_dir : gmap string VersionMeta -> list VersionMeta.
Variable parse_rust_source : string -> bytes -> outcome GraphError (list Entity * list Relationship).
Variable parse_source_file : string -> bytes -> outcome GraphError (list Entity * list Relationship).
Variable sha256_hex : bytes -> string.
Variable iter_order : gset string -> list string.
Variable parse_uuid : string -> option Uuid.
Variable source_from_json : string -> option AgentSource.
Variable criteria_from_json : string -> option (list string).
Variable strings_to_json : list string -> string.

Abbreviation World := (FwWorld S R).
Abbreviation P := (M World FwError).

Definition with_vai {A} (m : M VaiDir FwError A) : P A := fun w =>
  let '(o, v) := m (ww_vai w) in (o, mkFwWorld v (ww_fs w) (ww_remote w) (ww_issues w) (ww_history w)).
Definition with_fs {A} (m : M S FwError A) : P A := fun w =>
  let '(o, s) := m (ww_fs w) in (o, mkFwWorld (ww_vai w) s (ww_remote w) (ww_issues w) (ww_history w)).
Definition with_remote {A} (m : M R FwError A) : P A := fun w =>
  let '(o, r) := m (ww_remote w) in (o, mkFwWorld (ww_vai w) (ww_fs w) r (ww_issues w) (ww_history w)).
Definition with_merge {A} (m : M (VaiDir * S) MergeError A) : P A := fun w =>
  let '(o, (v, s)) := m (ww_vai w, ww_fs w) in
  (map_err FwMerge o, mkFwWorld v s (ww_remote w) (ww_issues w) (ww_history w)).
Definition vai_now : P VaiDir := fun w => (Ok (ww_vai w), w).
Definition io_err (_ : IoError) : FwError := FwIo.

Definition local_head : P string := v ← vai_now; lift (match read_head v with Some h => Ok h | None => Err FwRepo end).

(** [fs::write(".vai/head")] and [workspace::update_meta]. *)
Definition write_head (version : string) : P unit :=
  with_vai (modify_st (set_head (Some (version +:+ String LF EmptyString)))).
Definition save_meta (m : WorkspaceMeta) : P unit := with_vai (err_into FwWorkspace (update_meta m)).

(** ** Opening *)

(** A workspace that is only in memory. *)
Definition ephemeral (id : Uuid) (intent : string) (status : WorkspaceStatus) (head : string) (issue_id : option Uuid) :
    P FileWorkspace :=
  t ← with_vai (now clock);
  mret (mkFw (mkWs id intent head status t t issue_id []) None [] BackendRemote true).

Definition open_existing (b : Backend) : P FileWorkspace :=
  meta ← with_vai (err_into FwWorkspace active);
  v ← vai_now;
  mret (mkFw meta None (deleted_paths_of v meta) b false).

(** [vai_exists] is the test of the directory [.vai]. *)
Definition open (vai_exists : bool) (backend : Backend) (intent : Intent) : P FileWorkspace :=
  if negb vai_exists then fail NotARepo
  else
    head ← local_head;
    match backend, intent with
    | BackendLocal, IntentExisting => open_existing BackendLocal
    | BackendLocal, IntentCreateFor text issue_id =>
        meta ← with_vai (err_into FwWorkspace (Workspace.create clock uuid text head));
        meta' ← match issue_id with
                | Some iid =>
                    let m := mkWs (ws_id meta) (ws_intent meta) (base_version meta) (ws_status meta) (ws_created_at meta)
                               (ws_updated_at meta) (Some iid) (ws_deleted_paths meta) in
                    _ ← save_meta m; mret m
                | None => mret meta
                end;
        v ← vai_now;
        mret (mkFw meta' None (deleted_paths_of v meta') BackendLocal false)
    | BackendLocal, IntentAgentWork _ _ _ _ => fail FwRemote
    | BackendRemote, IntentExisting => open_existing BackendRemote
    | BackendRemote, IntentCreateFor text issue_id =>
        id ← with_remote (create_workspace text);
        match parse_uuid id with
        | Some u => ephemeral u text WsCreated head issue_id
        | None => fail FwRemote
        end
    | BackendRemote, IntentAgentWork w issue_id text work_dir =>
        fw ← ephemeral w text WsActive head issue_id;
        mret (mkFw (fw_meta fw) (Some work_dir) [] BackendRemote true)
    end.

(** ** Planning *)

(** The paths below a prefix of the file abstraction, as a set. *)
Definition listed (prefix : string) : P (gset string) :=
  keys ← with_fs (err_into io_err (list_files prefix));
  mret (list_to_set ((fun k => default k (strip_prefix prefix k)) <$> keys)).

Definition paths_of (t : FileChangeType) (fds : list FileDiff) : list string :=
  fd_path <$> filter (fun fd => fd_change_type fd = t) fds.

Definition drift (base head : string) : list Surprise :=
  if String.eqb head base then [] else [BaseDrifted base head].

(** The files of the server that are not among the local ones. *)
Definition server_only (server local : gset string) : list string :=
  filter (fun p => p ∉ local) (iter_order server).

(** [plan_repo_root_push] *)
Definition plan_repo_root_push (fw : FileWorkspace) : P Plan :=
  server_head ← with_remote head_version;
  files ← with_remote list_head_files;
  let server : gset string := list_to_set files in
  local ← listed "base/";
  mret (mkPlan (sort_strings (filter (fun p => p ∉ server) (iter_order local)))
          (sort_strings (filter (fun p => p ∈ server) (iter_order local))) [] [] []
          (drift (base_version (fw_meta fw)) server_head ++
           (ServerHasFileLocalDoesNot <$> sort_strings (server_only server local)))
          (base_version (fw_meta fw)) server_head).

Definition plan (fw : FileWorkspace) : P Plan :=
  if is_push_from_root fw then plan_repo_root_push fw
  else
    let base := base_version (fw_meta fw) in
    d ← with_fs (err_into FwDiff (compute_with_fs parse_rust_source sha256_hex iter_order (ws_id (fw_meta fw)) base (fw_deleted fw)));
    head ← match fw_backend fw with BackendRemote => with_remote head_version | BackendLocal => local_head end;
    missing ← match fw_backend fw with
              | BackendLocal => mret []
              | BackendRemote =>
                  files ← with_remote list_head_files;
                  local_base ← listed "base/";
                  local_overlay ← listed "overlay/";
                  mret (server_only (list_to_set files) ((local_base ∪ local_overlay) ∖ list_to_set (fw_deleted fw)))
              end;
    _ ← match fw_backend fw with
        | BackendLocal => with_vai (err_into FwDiff (record_events clock d))
        | BackendRemote => mret tt
        end;
    mret (mkPlan (paths_of FcAdded (file_diffs d)) (paths_of FcModified (file_diffs d)) (fw_deleted fw)
            (file_diffs d) (wd_entity_changes d) (drift base head ++ (ServerHasFileLocalDoesNot <$> missing)) base head).

(** ** Submitting *)

(** A call whose failure is ignored: the state it reached is kept. *)
Definition best_effort_issue (m : M Tracker IssueError unit) : P unit := fun w =>
  match ww_issues w with
  | None => (Ok tt, w)
  | Some st =>
      let v := ww_vai w in
      let '(_, k) := m (mkTracker st (log v) (draws v) (ticks v)) in
      (Ok tt, mkFwWorld (set_log (tk_log k) (set_ticks (tk_ticks k) (set_draws (tk_draws k) v))) (ww_fs w) (ww_remote w)
                (Some (tk_store k)) (ww_history w))
  end.

Definition record_history (ws : Uuid) (r : SubmitResult) : P unit := fun w =>
  match ww_history w with
  | None => (Ok tt, w)
  | Some h =>
      let '(_, h') := ScopeHistory.record strings_to_json uuid clock (v_intent (sr_version r)) (extract_terms (v_intent (sr_version r)))
                        [] (sr_entity_ids r) (Some ws) h in
      (Ok tt, mkFwWorld (ww_vai w) (ww_fs w) (ww_remote w) (ww_issues w) (Some h'))
  end.

Definition with_status (st : WorkspaceStatus) (t : DateTime) (m : WorkspaceMeta) : WorkspaceMeta :=
  mkWs (ws_id m) (ws_intent m) (base_version m) st (ws_created_at m) t (ws_issue_id m) (ws_deleted_paths m).

Definition submit_local (fw : FileWorkspace) : P (Applied * FileWorkspace) :=
  result ← with_merge (Submit.submit clock uuid read_dir parse_rust_source parse_source_file sha256_hex iter_order);
  _ ← record_history (ws_id (fw_meta fw)) result;
  mret (mkApplied (version_id (sr_version result)) (files_applied result) (entities_changed result) (sr_entity_ids result)
          (v_intent (sr_version result)) None, fw).

Definition submit_remote (fw : FileWorkspace) : P (Applied * FileWorkspace) :=
  let ws := ws_id (fw_meta fw) in
  let from_root := is_push_from_root fw in
  w ← get_st;
  snapshot ← with_remote (upload_workspace ws from_root (ww_fs w) (base_version (fw_meta fw))
               (if from_root then [] else fw_deleted fw));
  submitted ← with_remote (submit_workspace ws);
  let submitted' := mkApplied (ap_version submitted) (ap_files submitted) (ap_entities submitted) (ap_entity_ids submitted)
                      (ap_intent submitted) (Some snapshot) in
  _ ← write_head (ap_version submitted);
  if from_root then mret (submitted', fw)
  else
    t ← with_vai (now clock);
    let meta := with_status WsSubmitted t (fw_meta fw) in
    _ ← save_meta meta;
    mret (submitted', mkFw meta (fw_upload_root fw) (fw_deleted fw) (fw_backend fw) (is_push_from_root fw)).

Definition do_submit (fw : FileWorkspace) (p : Plan) : P (Applied * FileWorkspace) :=
  if plan_is_empty p then fail FwEmpty
  else
    '(applied, fw') ← match fw_backend fw with BackendLocal => submit_local fw | BackendRemote => submit_remote fw end;
    _ ← match ws_issue_id (fw_meta fw') with
        | Some issue_id =>
            best_effort_issue (_ ← Issue.resolve source_from_json criteria_from_json clock issue_id (Some (ap_version applied)); mret tt)
        | None => mret tt
        end;
    mret (applied, fw').

Definition submit (fw : FileWorkspace) : P (Applied * FileWorkspace) :=
  p ← plan fw;
  match surprises p with
  | [] => do_submit fw p
  | _ => fail (FwSurprises p)
  end.

Definition submit_forcing_deletions (fw : FileWorkspace) : P (Applied * FileWorkspace) :=
  p ← plan fw; do_submit fw p.

(** ** Pulling *)

Definition nothing_applied (version : string) (files : nat) : Applied := mkApplied version files 0 [] EmptyString None.

(** HEAD of the server, and its files that the client has nowhere. *)
Definition missing_files : P (string * list string) :=
  server_head ← with_remote head_version;
  server_files ← with_remote list_head_files;
  local_base ← listed "base/";
  local_overlay ← listed "overlay/";
  mret (server_head, filter (fun p => p ∉ local_base ∪ local_overlay) server_files).

Definition do_pull (fw : FileWorkspace) (force : bool) : P (Applied * FileWorkspace) :=
  '(server_head, missing) ← missing_files;
  match missing with
  | [] => mret (nothing_applied server_head 0, fw)
  | _ =>
      downloaded ← with_remote (download_files missing);
      _ ← for_each (fun f => with_fs (err_into io_err (write_file ("base/" +:+ f.1) f.2))) downloaded;
      t ← with_vai (now clock);
      let m := fw_meta fw in
      let meta := mkWs (ws_id m) (ws_intent m) server_head (ws_status m) (ws_created_at m) t (ws_issue_id m) (ws_deleted_paths m) in
      _ ← save_meta meta;
      _ ← write_head server_head;
      mret (nothing_applied server_head (length downloaded),
            mkFw meta (fw_upload_root fw) (fw_deleted fw) (fw_backend fw) (is_push_from_root fw))
  end.

Definition pull_with (force : bool) (fw : FileWorkspace) : P (Applied * FileWorkspace) :=
  match fw_backend fw with
  | BackendLocal => mret (nothing_applied (base_version (fw_meta fw)) 0, fw)
  | BackendRemote => do_pull fw force
  end.

Definition pull : FileWorkspace -> P (Applied * FileWorkspace) := pull_with false.
Definition pull_discarding_local : FileWorkspace -> P (Applied * FileWorkspace) := pull_with true.
End file_workspace.

(** ** Reasoning *)

(** What is left after the deletions is what the client has. *)
Lemma unseen_iff (X Y : Prop) (b o : option bytes) (D : Decision Y) :
  X /\ ~ ((is_Some b \/ is_Some o) /\ ~ Y) <-> X /\ (Y \/ (b = None /\ o = None)).
Proof. destruct b, o; rewrite ?is_Some_alt; destruct (decide Y); naive_solver. Qed.

Section reading.
Context {S R : Type} `{MergeFsReads S} `{RR : RemoteRepo S R} {unicode : Unicode}.
Variable clock : nat -> DateTime.
Variable uuid : nat -> Uuid.
Variable read_dir : gmap string VersionMeta -> list VersionMeta.
Variable parse_rust_source : string -> bytes -> outcome GraphError (list Entity * list Relationship).
Variable parse_source_file : string -> bytes -> outcome GraphError (list Entity * list Relationship).
Variable sha256_hex : bytes -> string.
Variable iter_order : gset string -> list string.
Variable source_from_json : string -> option AgentSource.
Variable criteria_from_json : string -> option (list string).
Variable strings_to_json : list string -> string.
Hypothesis iter_perm : forall X, iter_order X ≡ₚ elements X.
Hypothesis parse_ok : forall p c, exists r, parse_rust_source p c = Ok r.
(** The file abstraction lists the base directory. *)
Hypothesis base_listed : rd_prefix "base/".

Abbreviation World := (FwWorld S R).
Abbreviation fplan := (plan clock parse_rust_source sha256_hex iter_order).
Abbreviation fsubmit := (submit clock uuid read_dir parse_rust_source parse_source_file sha256_hex iter_order
  source_from_json criteria_from_json strings_to_json).

(** What a caller can see of the files and the stores is unchanged; the server is apart. *)
Record same_world (w w' : World) : Prop := {
  sw_vai : ww_vai w' = ww_vai w;
  sw_wf : rd_wf (ww_fs w');
  sw_files : rd_lookup (ww_fs w') = rd_lookup (ww_fs w);
  sw_issues : ww_issues w' = ww_issues w;
  sw_history : ww_history w' = ww_history w
}.

Lemma same_refl w : rd_wf (ww_fs w) -> same_world w w.
Proof using. by constructor. Qed.

Lemma same_trans w1 w2 w3 : same_world w1 w2 -> same_world w2 w3 -> same_world w1 w3.
Proof using. intros [] []. constructor; congruence. Qed.

(** The call succeeds, is not seen, and leaves the server in the state [r]. *)
Definition quiet {A} (m : M World FwError A) (w : World) (r : R) (Q : A -> Prop) : Prop :=
  exists a w', m w = (Ok a, w') /\ same_world w w' /\ ww_remote w' = r /\ Q a.

Lemma quiet_ret {A} (a : A) w r (Q : A -> Prop) : rd_wf (ww_fs w) -> ww_remote w = r -> Q a -> quiet (mret a) w r Q.
Proof using. intros Hwf Hr HQ. exists a, w. split; [done|]. split; [by apply same_refl|done]. Qed.

Lemma quiet_bind {A B} (m : M World FwError A) (f : A -> M World FwError B) w r r' Q Q' :
  quiet m w r Q -> (forall a w', same_world w w' -> ww_remote w' = r -> Q a -> quiet (f a) w' r' Q') -> quiet (m ≫= f) w r' Q'.
Proof using.
  intros (a & w' & Hm & Hs & Hr & HQ) Hf. destruct (Hf a w' Hs Hr HQ) as (b & w'' & Hb & Hs' & Hr' & HQ').
  exists b, w''. rewrite (M_bind_ok _ _ _ _ _ Hm). split; [done|]. split; [by eapply same_trans|done].
Qed.

Lemma quiet_remote {A} (m : M R FwError A) w r a :
  rd_wf (ww_fs w) -> m (ww_remote w) = (Ok a, r) -> quiet (with_remote m) w r (eq a).
Proof using. intros Hwf E. unfold quiet, with_remote. rewrite E. do 2 eexists. split; [done|]. by split. Qed.

Lemma quiet_listed prefix w :
  rd_wf (ww_fs w) -> rd_prefix prefix ->
  quiet (listed prefix) w (ww_remote w) (fun X => forall p, p ∈ X <-> is_Some (rd_lookup (ww_fs w) (prefix +:+ p))).
Proof using.
  intros Hwf Hp. destruct (rd_list (ww_fs w) prefix Hwf Hp) as (s' & keys & Hr & Hwf' & Hl & Hkeys).
  unfold listed. eapply (quiet_bind _ _ _ (ww_remote w) _ (eq keys)).
  - unfold quiet, with_fs, err_into. rewrite Hr. do 2 eexists. split; [done|]. by split.
  - intros ? w' Hs Hrem <-. apply quiet_ret; [apply (sw_wf _ _ Hs)|done|]. intros p.
    rewrite elem_of_list_to_set, list_elem_of_fmap. split.
    + intros (k & -> & [Hk (rel & ->)]%Hkeys). rewrite strip_prefix_app. done.
    + intros Hk. exists (prefix +:+ p). rewrite strip_prefix_app. split; [done|]. apply Hkeys. split; [done|by exists p].
Qed.

(** No path that the workspace changes is such that the files take a directory for it. *)
Definition exact_paths (f : string -> option bytes) (deleted : list string) : Prop :=
  forall p, is_Some (f (okey p)) \/ p ∈ deleted -> rd_exact f p.

Lemma quiet_diff ws base deleted w : rd_wf (ww_fs w) -> exact_paths (rd_lookup (ww_fs w)) deleted ->
  quiet (with_fs (err_into FwDiff (compute_with_fs parse_rust_source sha256_hex iter_order ws base deleted))) w (ww_remote w) (fun d =>
    forall fd, fd ∈ file_diffs d <->
      (exists p c, rd_lookup (ww_fs w) (okey p) = Some c /\ fd = overlay_diff sha256_hex (rd_lookup (ww_fs w)) p c) \/
      (exists p, p ∈ deleted /\ is_Some (rd_lookup (ww_fs w) (bkey p)) /\ fd = mkFileDiff p FcDeleted 0 "")).
Proof using parse_ok.
  intros Hwf Hx. destruct (compute_with_reads parse_rust_source sha256_hex iter_order parse_ok ws base deleted _ Hwf Hx)
    as (d & s' & Hr & Hwf' & Hl & _ & _ & Hd).
  unfold quiet, with_fs, err_into. rewrite Hr. do 2 eexists. split; [done|]. by split.
Qed.

Lemma elem_server_only p server local : p ∈ server_only iter_order server local <-> p ∈ server /\ p ∉ local.
Proof using iter_perm. unfold server_only. rewrite list_elem_of_filter, iter_perm, elem_of_elements. by split; intros [? ?]. Qed.

(** A file of the server that the client does not have, or deletes. *)
Definition unseen (fw : FileWorkspace) (w : World) (files : list string) (p : string) : Prop :=
  p ∈ files /\
  (p ∈ fw_deleted fw \/ (rd_lookup (ww_fs w) (bkey p) = None /\ rd_lookup (ww_fs w) (okey p) = None)).

Definition remote_plan (fw : FileWorkspace) (w : World) (head : string) (files : list string) (p : Plan) : Prop :=
  (forall path, path ∈ adds p <-> is_Some (rd_lookup (ww_fs w) (okey path)) /\ rd_lookup (ww_fs w) (bkey path) = None) /\
  (forall path, path ∈ mods p <-> is_Some (rd_lookup (ww_fs w) (okey path)) /\ is_Some (rd_lookup (ww_fs w) (bkey path))) /\
  dels p = fw_deleted fw /\ pl_base_version p = base_version (fw_meta fw) /\ pl_head_version p = head /\
  (forall x, x ∈ surprises p <->
     (x = BaseDrifted (base_version (fw_meta fw)) head /\ head <> base_version (fw_meta fw)) \/
     (exists path, x = ServerHasFileLocalDoesNot path /\ unseen fw w files path)).

Lemma elem_paths_of t d path : path ∈ paths_of t (file_diffs d) <-> exists fd, fd ∈ file_diffs d /\ fd_change_type fd = t /\ fd_path fd = path.
Proof using.
  unfold paths_of. rewrite list_elem_of_fmap. setoid_rewrite list_elem_of_filter.
  split; [intros (fd & -> & Ht & Hfd)|intros (fd & Hfd & Ht & <-)]; by exists fd.
Qed.

(** The questions of a plan to the server, and the state in which they leave it. *)
Definition server_says (r : R) (head : string) (files : list string) (r' : R) : Prop :=
  exists r1, head_version r = (Ok head, r1) /\ list_head_files r1 = (Ok files, r').

Lemma plan_remote fw w head files r :
  rd_wf (ww_fs w) -> exact_paths (rd_lookup (ww_fs w)) (fw_deleted fw) -> server_says (ww_remote w) head files r ->
  fw_backend fw = BackendRemote -> is_push_from_root fw = false -> quiet (fplan fw) w r (remote_plan fw w head files).
Proof using parse_ok iter_perm base_listed.
  intros Hwf Hexact (r1 & Eh & Ef) Hb Hroot. unfold plan. rewrite Hroot, Hb.
  eapply quiet_bind; [by apply quiet_diff|]. intros d w1 S1 R1 Hd.
  eapply quiet_bind; [eapply quiet_remote; [apply (sw_wf _ _ S1)|by rewrite R1]|]. intros ? w2 S2 R2 <-.
  eapply (quiet_bind _ _ _ r _ (fun missing => forall p, p ∈ missing <-> unseen fw w files p)).
  { eapply quiet_bind; [eapply quiet_remote; [apply (sw_wf _ _ S2)|by rewrite R2]|]. intros ? w3 S3 R3 <-.
    eapply quiet_bind; [apply quiet_listed; [apply (sw_wf _ _ S3)|apply base_listed]|]. intros lb w4 S4 R4 Hlb.
    eapply quiet_bind; [apply quiet_listed; [apply (sw_wf _ _ S4)|apply rd_prefix_overlay]|]. intros lo w5 S5 R5 Hlo. cbv beta in *.
    apply quiet_ret; [apply (sw_wf _ _ S5)|congruence|]. intros p. rewrite elem_server_only, elem_of_list_to_set.
    assert (Hl : p ∈ (lb ∪ lo) ∖ list_to_set (fw_deleted fw) <-> (is_Some (rd_lookup (ww_fs w3) ("base/" +:+ p)) \/
      is_Some (rd_lookup (ww_fs w4) ("overlay/" +:+ p))) /\ ~ p ∈ fw_deleted fw).
    { rewrite elem_of_difference, elem_of_union, Hlb, Hlo. by rewrite elem_of_list_to_set. }
    rewrite Hl. unfold unseen, bkey, okey.
    rewrite (sw_files _ _ S4), (sw_files _ _ S3), (sw_files _ _ S2), (sw_files _ _ S1).
    apply unseen_iff. apply _. }
  intros missing w3 S3 R3 Hmissing. cbv beta in *.
  eapply (quiet_bind _ _ _ r _ (fun _ => True)); [apply quiet_ret; [apply (sw_wf _ _ S3)|done..]|].
  intros [] w4 S4 R4 _. apply quiet_ret; [apply (sw_wf _ _ S4)|done|]. unfold remote_plan. simpl.
  split_and!; try done.
  - intros path. rewrite elem_paths_of. setoid_rewrite Hd. split.
    + intros (fd & [(p & c & Hc & ->)|(p & _ & _ & ->)] & Ht & <-); [|done]. simpl in *.
      case_bool_decide as Hs; [done|]. split; [by eexists|]. by apply eq_None_not_Some.
    + intros [[c Hc] Hn]. exists (overlay_diff sha256_hex (rd_lookup (ww_fs w)) path c). split; [left; by exists path, c|].
      simpl. rewrite bool_decide_eq_false_2; [done|]. rewrite Hn. by intros [? [=]].
  - intros path. rewrite elem_paths_of. setoid_rewrite Hd. split.
    + intros (fd & [(p & c & Hc & ->)|(p & _ & _ & ->)] & Ht & <-); [|done]. simpl in *.
      case_bool_decide as Hs; [|done]. split; [by eexists|done].
    + intros [[c Hc] Hn]. exists (overlay_diff sha256_hex (rd_lookup (ww_fs w)) path c). split; [left; by exists path, c|].
      simpl. by rewrite bool_decide_eq_true_2.
  - intros x. rewrite elem_of_app, list_elem_of_fmap. setoid_rewrite Hmissing.
    unfold drift. destruct (String.eqb_spec head (base_version (fw_meta fw))) as [He|Hne].
    + split; [intros [?%elem_of_nil|?]; [done|by right]|intros [[_ ?]|?]; [done|by right]].
    + rewrite list_elem_of_singleton. split; (intros [Hx|Hx]; [left|by right]); [by split|by destruct Hx].
Qed.

(** The plan of a push of the whole directory. *)
Definition root_plan (fw : FileWorkspace) (w : World) (head : string) (files : list string) (p : Plan) : Prop :=
  (forall path, path ∈ adds p <-> is_Some (rd_lookup (ww_fs w) (bkey path)) /\ path ∉ files) /\
  (forall path, path ∈ mods p <-> is_Some (rd_lookup (ww_fs w) (bkey path)) /\ path ∈ files) /\
  dels p = [] /\ pl_base_version p = base_version (fw_meta fw) /\ pl_head_version p = head /\
  (forall x, x ∈ surprises p <->
     (x = BaseDrifted (base_version (fw_meta fw)) head /\ head <> base_version (fw_meta fw)) \/
     (exists path, x = ServerHasFileLocalDoesNot path /\ path ∈ files /\
        rd_lookup (ww_fs w) (bkey path) = None)).

Lemma elem_drift base head x : x ∈ drift base head <-> x = BaseDrifted base head /\ head <> base.
Proof using.
  unfold drift. destruct (String.eqb_spec head base) as [He|Hne].
  - split; [by intros ?%elem_of_nil|by intros [_ ?]].
  - rewrite list_elem_of_singleton. by split; [|intros [? _]].
Qed.

Lemma elem_sort_strings x l : x ∈ sort_strings l <-> x ∈ l.
Proof using. apply sort_by_elem_of. Qed.

Lemma not_some {A} (o : option A) : ~ is_Some o <-> o = None.
Proof using. symmetry. apply eq_None_not_Some. Qed.

Lemma plan_root fw w head files r :
  rd_wf (ww_fs w) -> server_says (ww_remote w) head files r -> is_push_from_root fw = true ->
  quiet (fplan fw) w r (root_plan fw w head files).
Proof using iter_perm base_listed.
  intros Hwf (r1 & Eh & Ef) Hroot. unfold plan, plan_repo_root_push. rewrite Hroot.
  eapply quiet_bind; [by eapply quiet_remote|]. intros ? w1 S1 R1 <-.
  eapply quiet_bind; [eapply quiet_remote; [apply (sw_wf _ _ S1)|by rewrite R1]|]. intros ? w2 S2 R2 <-.
  eapply quiet_bind; [apply quiet_listed; [apply (sw_wf _ _ S2)|apply base_listed]|]. intros local w3 S3 R3 Hlocal. cbv beta in Hlocal.
  apply quiet_ret; [apply (sw_wf _ _ S3)|congruence|].
  assert (Hl : forall p, p ∈ local <-> is_Some (rd_lookup (ww_fs w) (bkey p))).
  { intros p. rewrite Hlocal. by rewrite (sw_files _ _ S2), (sw_files _ _ S1). }
  assert (Hs : forall p, p ∈ (list_to_set files : gset string) <-> p ∈ files) by (intros p; apply elem_of_list_to_set).
  unfold root_plan. simpl. split_and!; try done.
  - intros p. rewrite elem_sort_strings, list_elem_of_filter, iter_perm, elem_of_elements, Hl, Hs. by split; intros [? ?].
  - intros p. rewrite elem_sort_strings, list_elem_of_filter, iter_perm, elem_of_elements, Hl, Hs. by split; intros [? ?].
  - intros x. rewrite elem_of_app, elem_drift, list_elem_of_fmap.
    setoid_rewrite elem_sort_strings. setoid_rewrite elem_server_only. setoid_rewrite Hl. setoid_rewrite Hs.
    by setoid_rewrite not_some.
Qed.

Lemma submit_surprised fw w r Q :
  quiet (fplan fw) w r Q -> (forall p, Q p -> exists x, x ∈ surprises p) ->
  exists p w', fsubmit fw w = (Err (FwSurprises p), w') /\ same_world w w' /\ ww_remote w' = r /\ Q p.
Proof using.
  intros (p & w' & Hp & Hs & Hr & HQ) Hx. exists p, w'. split; [|done]. unfold submit.
  rewrite (M_bind_ok _ _ _ _ _ Hp). destruct (Hx p HQ) as [x Hin].
  destruct (surprises p); [by apply elem_of_nil in Hin|done].
Qed.

(** C32. A submission to a server that names as its HEAD another version than the base
    of the workspace, or lists a file which the client has not or deletes, is refused
    once the server answered these two questions: it names exactly these files, asks
    nothing further, so sends nothing, and changes nothing, for a workspace with an
    overlay and for a push of the whole directory. So a workspace that deletes a file of
    the server is never submitted without force. Of the files it needs only the reads,
    which the disk answers when its paths are written with slashes; for a workspace with
    an overlay, no path that the overlay has or the workspace deletes may be a directory
    of the base, which the disk would take for a file of the base. *)
Theorem submit_refuses_surprises fw w head files r :
  rd_wf (ww_fs w) -> fw_backend fw = BackendRemote ->
  (is_push_from_root fw = false -> exact_paths (rd_lookup (ww_fs w)) (fw_deleted fw)) ->
  server_says (ww_remote w) head files r ->
  (head <> base_version (fw_meta fw) \/
   exists path, if is_push_from_root fw then path ∈ files /\ rd_lookup (ww_fs w) (bkey path) = None
                else unseen fw w files path) ->
  exists p w', fsubmit fw w = (Err (FwSurprises p), w') /\ same_world w w' /\ ww_remote w' = r /\
    if is_push_from_root fw then root_plan fw w head files p else remote_plan fw w head files p.
Proof using parse_ok iter_perm base_listed.
  intros Hwf Hb Hex Hsays Hx. destruct (is_push_from_root fw) eqn:Hroot.
  - apply (submit_surprised fw w r (root_plan fw w head files)); [by apply plan_root|].
    intros p (_ & _ & _ & _ & _ & Hs). setoid_rewrite Hs. destruct Hx as [Hd|(path & Hp)]; eexists; [by left|].
    right. by exists path.
  - apply (submit_surprised fw w r (remote_plan fw w head files)); [by apply plan_remote; auto|].
    intros p (_ & _ & _ & _ & _ & Hs). setoid_rewrite Hs. destruct Hx as [Hd|(path & Hp)]; eexists; [by left|].
    right. by exists path.
Qed.
End reading.

Section reasoning.
Context {S R : Type} `{MergeFsSpec S} `{RRS : RemoteRepoSpec S R} {unicode : Unicode}.
Variable clock : nat -> DateTime.
Variable uuid : nat -> Uuid.
Variable read_dir : gmap string VersionMeta -> list VersionMeta.
Variable parse_rust_source : string -> bytes -> outcome GraphError (list Entity * list Relationship).
Variable parse_source_file : string -> bytes -> outcome GraphError (list Entity * list Relationship).
Variable sha256_hex : bytes -> string.
Variable iter_order : gset string -> list string.
Variable source_from_json : string -> option AgentSource.
Variable criteria_from_json : string -> option (list string).
Variable strings_to_json : list string -> string.
Hypothesis parse_ok : forall p c, exists r, parse_rust_source p c = Ok r.
Hypothesis parse_no_panic : forall p c, parse_source_file p c <> Panic.
(** The file abstraction lists the base directory. *)
Hypothesis base_listed : fs_prefix "base/".

Abbreviation World := (FwWorld S R).
Abbreviation fplan := (plan clock parse_rust_source sha256_hex iter_order).
Abbreviation fsubmit := (submit clock uuid read_dir parse_rust_source parse_source_file sha256_hex iter_order
  source_from_json criteria_from_json strings_to_json).


(** The server shows what it showed. *)
Definition same_server (w w' : World) : Prop :=
  rr_head (ww_remote w') = rr_head (ww_remote w) /\ rr_file (ww_remote w') = rr_file (ww_remote w).

Lemma seen_files (w w' : World) : same_world w w' -> fs_lookup (ww_fs w') = fs_lookup (ww_fs w).
Proof using. intros Hs. exact (sw_files _ _ Hs). Qed.

(** *** Pulling *)

Lemma write_downloaded files (w : World) :
  fs_wf (ww_fs w) -> NoDup files.*1 -> exists s',
  for_each (fun f => with_fs (err_into io_err (write_file ("base/" +:+ f.1) f.2))) files w =
    (Ok tt, mkFwWorld (ww_vai w) s' (ww_remote w) (ww_issues w) (ww_history w)) /\ fs_wf s' /\
  (forall k, fs_key k -> (forall p, p ∈ files.*1 -> k <> bkey p) -> fs_lookup s' k = fs_lookup (ww_fs w) k) /\
  (forall f, f ∈ files -> fs_lookup s' (bkey f.1) = Some f.2).
Proof using.
  revert w. induction files as [|f files IH]; intros w Hwf Hnd.
  - exists (ww_fs w). simpl. split; [by destruct w|]. split; [done|]. split; [done|by intros f ?%elem_of_nil].
  - simpl in Hnd. apply NoDup_cons in Hnd as [Hf Hnd].
    destruct (write_file_spec (ww_fs w) (bkey f.1) f.2 Hwf (fs_key_base _)) as (s1 & Hr & Hwf1 & Hl1).
    set (w1 := mkFwWorld (ww_vai w) s1 (ww_remote w) (ww_issues w) (ww_history w)).
    assert (E : with_fs (R:=R) (err_into io_err (write_file ("base/" +:+ f.1) f.2)) w = (Ok tt, w1)).
    { unfold with_fs, err_into. change ("base/" +:+ f.1) with (bkey f.1). by rewrite Hr. }
    destruct (IH w1 Hwf1 Hnd) as (s2 & Hrun & Hwf2 & Hfr & Hin). exists s2.
    cbn [for_each]. rewrite (M_bind_ok _ _ _ _ _ E). split; [exact Hrun|]. split; [done|]. split.
    + intros k Hk Hne. rewrite Hfr; [|done|intros p Hp; apply Hne; by right]. simpl. rewrite Hl1 by done.
      rewrite decide_False; [done|]. apply Hne. by left.
    + intros g [->|Hg]%elem_of_cons; [|by apply Hin]. rewrite Hfr; [|apply fs_key_base|].
      * simpl. by rewrite Hl1, decide_True by first [done|apply fs_key_base].
      * intros p Hp Heq%bkey_inj. by rewrite <-Heq in Hp.
Qed.

Definition absent (w : World) (p : string) : Prop :=
  fs_lookup (ww_fs w) (bkey p) = None /\ fs_lookup (ww_fs w) (okey p) = None.

(** What a pull brings: the files of the server that the client has nowhere. *)
Definition pulled (w : World) (p : string) : option bytes :=
  match fs_lookup (ww_fs w) (bkey p), fs_lookup (ww_fs w) (okey p) with
  | None, None => rr_file (ww_remote w) p
  | o, _ => o
  end.

Lemma all_contents r paths :
  (forall p, p ∈ paths -> is_Some (rr_file r p)) -> exists contents, Forall2 (fun p c => rr_file r p = Some c) paths contents.
Proof using.
  induction paths as [|p paths IH]; intros Hp; [by exists []|].
  destruct (Hp p (list_elem_of_here _ _)) as [c Hc]. destruct IH as [cs Hcs]; [intros q Hq; apply Hp; by right|].
  exists (c :: cs). by constructor.
Qed.

Lemma zip_fst {A B} (P : A -> B -> Prop) l k : Forall2 P l k -> (zip l k).*1 = l.
Proof using. intros Hl%Forall2_length. apply fst_zip. lia. Qed.

Lemma zip_elem {A B} (P : A -> B -> Prop) l k x : Forall2 P l k -> x ∈ zip l k -> P x.1 x.2.
Proof using.
  induction 1 as [|a b l k Hab _ IH]; [by intros ?%elem_of_nil|]. intros [->|Hx]%elem_of_cons; [done|by apply IH].
Qed.

Lemma Forall2_elem_l {A B} (P : A -> B -> Prop) l k x :
  Forall2 P l k -> x ∈ l -> exists y, (x, y) ∈ zip l k /\ P x y.
Proof using.
  induction 1 as [|a b l k Hab _ IH]; [by intros ?%elem_of_nil|]. intros [->|Hx]%elem_of_cons.
  - exists b. split; [left|done].
  - destruct (IH Hx) as (y & Hy & HP). exists y. split; [by right|done].
Qed.

Lemma pull_missing (w : World) :
  fs_wf (ww_fs w) ->
  exists x w', missing_files w = (Ok x, w') /\ same_world w w' /\ same_server w w' /\
    (x.1 = rr_head (ww_remote w) /\ NoDup x.2 /\
       forall p, p ∈ x.2 <-> is_Some (rr_file (ww_remote w) p) /\ absent w p).
Proof using base_listed.
  intros Hwf. destruct (head_version_spec (ww_remote w)) as (r1 & Eh & Hh1 & Hf1).
  destruct (list_head_files_spec r1) as (r2 & files & Ef & Hh2 & Hf2 & Hfiles & Hnd).
  assert (Hq : quiet missing_files w r2 (fun x => x.1 = rr_head (ww_remote w) /\ NoDup x.2 /\
    forall p, p ∈ x.2 <-> is_Some (rr_file (ww_remote w) p) /\ absent w p)).
  { eapply quiet_bind; [by eapply quiet_remote|]. intros ? w2 S2 R2 <-.
    eapply quiet_bind; [eapply quiet_remote; [apply (sw_wf _ _ S2)|by rewrite R2]|]. intros ? w3 S3 R3 <-.
    eapply quiet_bind; [apply quiet_listed; [apply (sw_wf _ _ S3)|apply base_listed]|]. intros lb w4 S4 R4 Hlb.
    eapply quiet_bind; [apply (quiet_listed "overlay/"); [apply (sw_wf _ _ S4)|apply fs_prefix_overlay]|].
    intros lo w5 S5 R5 Hlo. cbv beta in *.
    apply quiet_ret; [apply (sw_wf _ _ S5)|congruence|]. split; [done|]. split; [by apply NoDup_filter|]. intros p. simpl.
    rewrite list_elem_of_filter, Hfiles, Hf1, not_elem_of_union, Hlb, Hlo, !not_some. unfold absent, bkey, okey.
    rewrite (sw_files _ _ S4), (sw_files _ _ S3), (sw_files _ _ S2).
    change (fs_lookup (ww_fs w)) with (rd_lookup (ww_fs w)). by split; intros [? ?]. }
  destruct Hq as (x & w' & E & Hs & Hr & HQ). exists x, w'. split; [done|]. split; [done|]. split; [|done].
  unfold same_server. rewrite Hr. split; congruence.
Qed.

Abbreviation fpull := (pull clock).

Lemma pulled_lookup w w1 s' missing contents p :
  same_world w w1 -> same_server w w1 -> Forall2 (fun p c => rr_file (ww_remote w1) p = Some c) missing contents ->
  (forall q, q ∈ missing <-> is_Some (rr_file (ww_remote w) q) /\ absent w q) ->
  (forall k, fs_key k -> (forall q, q ∈ missing -> k <> bkey q) -> fs_lookup s' k = fs_lookup (ww_fs w1) k) ->
  (forall f, f ∈ zip missing contents -> fs_lookup s' (bkey f.1) = Some f.2) ->
  fs_lookup s' (bkey p) = pulled w p.
Proof using.
  intros S1 [_ Hsrv] Hc Hm Hfr Hin. unfold pulled. destruct (decide (p ∈ missing)) as [Hp|Hp].
  - destruct (proj1 (Hm p) Hp) as [_ [Hb Ho]]. rewrite Hb, Ho.
    destruct (Forall2_elem_l _ _ _ _ Hc Hp) as (c & Hz & Hsc).
    pose proof (Hin (p, c) Hz) as Hpc. simpl in Hpc. rewrite Hpc. by rewrite <-Hsrv.
  - rewrite Hfr; [|apply fs_key_base|intros q Hq ->%bkey_inj; done]. rewrite (seen_files _ _ S1).
    destruct (fs_lookup (ww_fs w) (bkey p)) eqn:Eb; [done|].
    destruct (fs_lookup (ww_fs w) (okey p)) eqn:Eo; [done|].
    destruct (rr_file (ww_remote w) p) eqn:Es; [|done]. exfalso. apply Hp, Hm. rewrite Es. by split.
Qed.

(** The force of [pull_discarding_local] is not used. *)
Lemma pull_discarding_local_is_pull fw : pull_discarding_local clock fw = fpull fw.
Proof using. done. Qed.

(** A pull from a server succeeds and brings exactly the files of the server that
    the client has neither in its tree nor in its overlay; every other file keeps its
    content, even when the server has a newer one. It moves the base of the workspace
    and the local HEAD to the HEAD of the server if it brought a file, and otherwise
    leaves everything as it was, a base behind HEAD included. *)
Theorem pull_brings_missing fw w :
  fs_wf (ww_fs w) -> fw_backend fw = BackendRemote -> is_Some (workspaces (ww_vai w) !! ws_id (fw_meta fw)) ->
  exists applied fw' w', fpull fw w = (Ok (applied, fw'), w') /\ ap_version applied = rr_head (ww_remote w) /\
    rr_head (ww_remote w') = rr_head (ww_remote w) /\ rr_file (ww_remote w') = rr_file (ww_remote w) /\
    (forall p, fs_lookup (ww_fs w') (bkey p) = pulled w p) /\
    (forall k, fs_key k -> (forall p, k <> bkey p) -> fs_lookup (ww_fs w') k = fs_lookup (ww_fs w) k) /\
    ((forall p, absent w p -> rr_file (ww_remote w) p = None) -> fw' = fw /\ ww_vai w' = ww_vai w) /\
    (forall p, absent w p -> is_Some (rr_file (ww_remote w) p) ->
      base_version (fw_meta fw') = rr_head (ww_remote w) /\
      head_file (ww_vai w') = Some (rr_head (ww_remote w) +:+ String LF EmptyString)).
Proof using base_listed.
  intros Hwf Hb Hws. unfold pull, pull_with, do_pull. rewrite Hb.
  destruct (pull_missing w Hwf) as ([head missing] & w1 & E1 & S1 & Hsrv & Hhead & Hnd & Hm). simpl in *. subst head.
  rewrite (M_bind_ok _ _ _ _ _ E1). destruct missing as [|p0 ps] eqn:Emiss.
  - exists (nothing_applied (rr_head (ww_remote w)) 0), fw, w1. split; [done|]. split; [done|].
    split; [apply Hsrv|]. split; [apply Hsrv|].
    assert (Hno : forall p, absent w p -> rr_file (ww_remote w) p = None).
    { intros p Hp. apply not_some. intros Hs. by apply (not_elem_of_nil p), Hm. }
    split; [|split; [intros k _ _; by rewrite (seen_files _ _ S1)|split; [intros _; split; [done|apply S1]|]]].
    + intros p. rewrite (seen_files _ _ S1). unfold pulled.
      destruct (fs_lookup (ww_fs w) (bkey p)) eqn:Eb; [done|].
      destruct (fs_lookup (ww_fs w) (okey p)) eqn:Eo; [done|]. symmetry. by apply Hno.
    + intros p Hp Hs. rewrite Hno in Hs by done. by destruct Hs.
  - rewrite <-Emiss in *.
    destruct (all_contents (ww_remote w1) missing) as [contents Hc].
    { intros p [Hp _]%Hm. by rewrite (proj2 Hsrv). }
    destruct (download_files_spec (ww_remote w1) missing contents Hc) as (r2 & Hdl & Hh2 & Hf2).
    set (w2 := mkFwWorld (ww_vai w1) (ww_fs w1) r2 (ww_issues w1) (ww_history w1)).
    assert (E2 : with_remote (download_files missing) w1 = (Ok (zip missing contents), w2)).
    { unfold with_remote. by rewrite Hdl. }
    destruct (write_downloaded (zip missing contents) w2) as (s3 & E3 & Hwf3 & Hfr & Hin); [apply S1|by rewrite (zip_fst _ _ _ Hc)|].
    rewrite (zip_fst _ _ _ Hc) in Hfr. rewrite (M_bind_ok _ _ _ _ _ E2), (M_bind_ok _ _ _ _ _ E3).
    destruct Hws as [m0 Hm0]. rewrite <-(sw_vai _ _ S1) in Hm0.
    unfold with_vai, now, save_meta, err_into, update_meta, write_meta, write_head, get_st, modify_st, mbind, M_bind.
    unfold with_vai. simpl. unfold with_vai. simpl. rewrite Hm0. simpl. do 3 eexists. split; [reflexivity|]. simpl. split; [done|].
    split; [rewrite Hh2; apply Hsrv|]. split; [rewrite Hf2; apply Hsrv|]. split; [|split; [|split]].
    + intros p. apply (pulled_lookup w w1 s3 missing contents); try done.
    + intros k Hk Hne. rewrite Hfr by auto. simpl. by rewrite (seen_files _ _ S1).
    + intros Hno. exfalso. assert (Hp0 : p0 ∈ missing) by (rewrite Emiss; left).
      apply Hm in Hp0 as [Hs Ha]. rewrite Hno in Hs by done. by destruct Hs.
    + intros p _ _. done.
Qed.

(** *** Local submissions *)

(** The workspace that the file [.vai/workspaces/active] names. *)
Definition active_is (v : VaiDir) (m : WorkspaceMeta) : Prop :=
  active_id v = Some (ws_id m) /\ workspaces v !! ws_id m = Some m.

Lemma active_is_ok v m : active_is v m -> active v = (Ok m, v).
Proof using.
  intros [Hid Hm]. unfold active_id in Hid. unfold active, mbind, M_bind.
  assert (Hv : read_active v = ((read_active v).1, v)) by done. rewrite Hv.
  destruct (read_active v).1 as [id| |]; [|done..]. injection Hid as ->.
  unfold Workspace.get. rewrite (M_bind_ok _ _ v v v) by done. rewrite Hm. unfold read_meta. by rewrite Hm.
Qed.

Lemma grown_active kinds v v' m : grown kinds v v' -> active_is v m -> active_is v' m.
Proof using. by intros (l & n & -> & _). Qed.

(** The workspace after a diff was recorded. *)
Lemma record_events_active d v m :
  active_is v m -> exists v' m', record_events clock d v = (Ok tt, v') /\ recorded v v' /\ active_is v' m' /\
    ws_id m' = ws_id m /\ base_version m' = base_version m /\ ws_intent m' = ws_intent m /\ manifests v' = manifests v.
Proof using.
  intros Hm. unfold record_events.
  assert (E : err_into DWorkspace active v = (Ok m, v)) by (unfold err_into; by rewrite (active_is_ok _ _ Hm)).
  rewrite (M_bind_ok _ _ _ _ _ E). case_bool_decide; simpl; [|by exists v, m].
  destruct (append_all_grown (E:=DiffError) clock (file_event (wd_workspace_id d) <$> file_diffs d) v) as (v1 & E1 & G1).
  rewrite (M_bind_ok _ _ _ _ _ E1).
  destruct (append_all_grown (E:=DiffError) clock (entity_event (wd_workspace_id d) <$> wd_entity_changes d) v1)
    as (v2 & E2 & G2).
  rewrite (M_bind_ok _ _ _ _ _ E2). pose proof (grown_trans _ _ _ _ _ G1 G2) as (l & n & -> & _ & _).
  destruct Hm as [Hid Hm]. unfold now, err_into, update_meta, write_meta, get_st, modify_st, mbind, M_bind. simpl. rewrite Hm.
  simpl. eexists _, (mkWs (ws_id m) (ws_intent m) (base_version m) WsActive (ws_created_at m) (clock n) (ws_issue_id m) (ws_deleted_paths m)).
  split; [reflexivity|]. split; [|split; [split|]]; simpl.
  - constructor; simpl; [done..|]. intros k Hk. destruct (decide (k = ws_id m)) as [->|Hne].
    + by rewrite lookup_insert_eq.
    + by rewrite lookup_insert_ne.
  - exact Hid.
  - apply lookup_insert_eq.
  - done.
Qed.

Definition local_plan (fw : FileWorkspace) (w : World) (head : string) (p : Plan) : Prop :=
  surprises p = drift (base_version (fw_meta fw)) head /\ dels p = fw_deleted fw /\
  ((exists path, is_Some (fs_lookup (ww_fs w) (okey path))) \/ fw_deleted fw <> [] -> plan_is_empty p = false).

(** A local plan records the changes once, and changes no file. *)
Lemma plan_local fw w m head :
  fs_wf (ww_fs w) -> fw_backend fw = BackendLocal -> is_push_from_root fw = false ->
  active_is (ww_vai w) m -> read_head (ww_vai w) = Some head ->
  exists p v' s' m', fplan fw w = (Ok p, mkFwWorld v' s' (ww_remote w) (ww_issues w) (ww_history w)) /\
    local_plan fw w head p /\ fs_wf s' /\ fs_lookup s' = fs_lookup (ww_fs w) /\ recorded (ww_vai w) v' /\
    active_is v' m' /\ ws_id m' = ws_id m /\ base_version m' = base_version m /\ ws_intent m' = ws_intent m /\
    manifests v' = manifests (ww_vai w).
Proof using parse_ok.
  intros Hwf Hb Hroot Hm Hh. unfold plan. rewrite Hroot, Hb.
  destruct (compute_with_fs_reads parse_rust_source sha256_hex iter_order parse_ok (ws_id (fw_meta fw))
    (base_version (fw_meta fw)) (fw_deleted fw) _ Hwf) as (d & s' & Hr & Hwf' & Hl & _ & _ & Hd).
  set (w1 := mkFwWorld (ww_vai w) s' (ww_remote w) (ww_issues w) (ww_history w)).
  assert (E1 : with_fs (R:=R) (err_into FwDiff (compute_with_fs parse_rust_source sha256_hex iter_order (ws_id (fw_meta fw))
    (base_version (fw_meta fw)) (fw_deleted fw))) w = (Ok d, w1)) by (unfold with_fs, err_into; by rewrite Hr).
  rewrite (M_bind_ok _ _ _ _ _ E1).
  assert (E2 : local_head w1 = (Ok head, w1)).
  { unfold local_head, vai_now, lift, mbind, M_bind. simpl. by rewrite Hh. }
  rewrite (M_bind_ok _ _ _ _ _ E2). rewrite (M_bind_ok _ _ w1 [] w1) by done.
  destruct (record_events_active d (ww_vai w) m Hm) as (v' & m' & Er & Hrec & Hm' & Hid & Hbv & Hi & Hman).
  assert (E3 : with_vai (err_into FwDiff (record_events clock d)) w1 =
    (Ok tt, mkFwWorld v' s' (ww_remote w) (ww_issues w) (ww_history w))).
  { unfold with_vai, err_into. simpl. by rewrite Er. }
  rewrite (M_bind_ok _ _ _ _ _ E3). do 4 eexists. split; [reflexivity|]. split; [|by split_and!].
  unfold local_plan. simpl. rewrite app_nil_r. split; [done|]. split; [done|]. intros Hne.
  unfold plan_is_empty. simpl. destruct Hne as [(path & c & Hc)|Hdel].
  - assert (Hfd : overlay_diff sha256_hex (fs_lookup (ww_fs w)) path c ∈ file_diffs d) by (apply Hd; left; by exists path, c).
    destruct (decide (is_Some (fs_lookup (ww_fs w) (bkey path)))) as [Hs|Hs].
    + assert (Hin : path ∈ paths_of FcModified (file_diffs d)).
      { apply elem_paths_of. eexists. split; [exact Hfd|]. simpl. by rewrite bool_decide_eq_true_2. }
      destruct (paths_of FcModified (file_diffs d)); [by apply elem_of_nil in Hin|]. by rewrite andb_false_r.
    + assert (Hin : path ∈ paths_of FcAdded (file_diffs d)).
      { apply elem_paths_of. eexists. split; [exact Hfd|]. simpl. by rewrite bool_decide_eq_false_2. }
      destruct (paths_of FcAdded (file_diffs d)); [by apply elem_of_nil in Hin|]. done.
  - rewrite (bool_decide_eq_false_2 (fw_deleted fw = [])) by done. by rewrite andb_false_r.
Qed.

Definition manifest_deletions (w : World) (m : WorkspaceMeta) : list string := default [] (manifests (ww_vai w) !! ws_id m).

(** What a local submission leaves. *)
Definition locally_submitted (w w' : World) (m : WorkspaceMeta) : Prop :=
  (forall p, fs_lookup (ww_fs w') (bkey p) =
     if decide (p ∈ manifest_deletions w m) then None
     else match fs_lookup (ww_fs w) (okey p) with Some c => Some c | None => fs_lookup (ww_fs w) (bkey p) end) /\
  (forall p, fs_lookup (ww_fs w') (okey p) = fs_lookup (ww_fs w) (okey p)) /\
  read_head (ww_vai w') = Some (next_version_id read_dir (ww_vai w)) /\ ww_remote w' = ww_remote w.

Lemma keep_first_elem seen l x : x ∈ Diff.keep_first seen l <-> x ∈ l /\ x ∉ seen.
Proof using.
  revert seen. induction l as [|y l IH]; intros seen; cbn [Diff.keep_first].
  - split; [by intros ?%elem_of_nil|by intros [?%elem_of_nil _]].
  - case_bool_decide as Hy.
    + rewrite IH, elem_of_cons. split; [intros [? ?]; split; [by right|done]|].
      intros [[->|Hx] Hs]; [done|by split].
    + rewrite !elem_of_cons, IH, not_elem_of_union, not_elem_of_singleton. split.
      * intros [->|(Hx & Hne & Hs)]; [by split; [left|]|by split; [right|]].
      * intros [[->|Hx] Hs]; [by left|]. destruct (decide (x = y)) as [->|Hne]; [by left|right; by split_and!].
Qed.

Lemma deleted_paths_elem v m p : p ∈ default [] (manifests v !! ws_id m) -> p ∈ deleted_paths_of v m.
Proof using. intros Hp. apply keep_first_elem. split; [apply elem_of_app; by left|apply not_elem_of_empty]. Qed.

Lemma record_history_ok ws r (w : World) : exists w',
  record_history clock uuid strings_to_json ws r w = (Ok tt, w') /\
  ww_vai w' = ww_vai w /\ ww_fs w' = ww_fs w /\ ww_remote w' = ww_remote w.
Proof using.
  unfold record_history. destruct (ww_history w) as [h|]; [|by exists w].
  destruct (ScopeHistory.record _ _ _ _ _ _ _ _ h) as [o h']. by eexists.
Qed.

Lemma best_effort_ok m (w : World) : exists w',
  best_effort_issue m w = (Ok tt, w') /\ ww_fs w' = ww_fs w /\ ww_remote w' = ww_remote w /\
  head_file (ww_vai w') = head_file (ww_vai w).
Proof using.
  unfold best_effort_issue. destruct (ww_issues w) as [st|]; [|by exists w]. destruct (m _) as [o k]. by eexists.
Qed.

Lemma submit_active m v s kept :
  active_is v m -> fs_wf s -> read_head v = Some (base_version m) -> manifests v = kept ->
  ((exists p, is_Some (fs_lookup s (okey p))) \/
   (exists p, p ∈ default [] (kept !! ws_id m) /\ is_Some (fs_lookup s (bkey p)))) ->
  exists r v' s', Submit.submit clock uuid read_dir parse_rust_source parse_source_file sha256_hex iter_order (v, s) =
    (Ok r, (v', s')) /\ fs_wf s' /\ submitted read_dir m (default [] (kept !! ws_id m)) v s r v' s'.
Proof using parse_ok parse_no_panic.
  intros Hm Hwf Hh <- Hne. unfold Submit.submit.
  assert (E1 : on_vai (S:=S) (err_into MeWorkspace active) (v, s) = (Ok m, (v, s))).
  { unfold on_vai, err_into. by rewrite (active_is_ok _ _ Hm). }
  rewrite (M_bind_ok _ _ _ _ _ E1). rewrite (M_bind_ok _ _ (v, s) v (v, s)) by done.
  assert (Hw : is_Some (workspaces v !! ws_id m)) by (destruct Hm as [_ ->]; by eexists).
  apply (submit_with_fs_on_head clock uuid read_dir parse_rust_source parse_source_file sha256_hex iter_order
    parse_no_panic parse_ok m (default [] (manifests v !! ws_id m)) v s m Hwf (active_is_ok _ _ Hm) Hw Hw Hh Hne).
Qed.

(** A local submission never merges: when HEAD is no longer the base of the
    workspace it is refused with that surprise and changes no file; otherwise, if the
    workspace changes something, it succeeds, and the project becomes the overlay over
    the project less the deletions of the manifest. The deletions of the metadata file,
    which the plan lists, are not applied. *)
Theorem local_submit_fast_forwards fw w m head :
  fs_wf (ww_fs w) -> fw_backend fw = BackendLocal -> is_push_from_root fw = false ->
  active_is (ww_vai w) m -> fw_meta fw = m -> read_head (ww_vai w) = Some head ->
  fw_deleted fw = deleted_paths_of (ww_vai w) m ->
  ((exists p, is_Some (fs_lookup (ww_fs w) (okey p))) \/
   (exists p, p ∈ manifest_deletions w m /\ is_Some (fs_lookup (ww_fs w) (bkey p)))) ->
  if decide (head = base_version m) then
    exists applied w', fsubmit fw w = (Ok (applied, fw), w') /\ locally_submitted w w' m /\
      ap_version applied = next_version_id read_dir (ww_vai w)
  else
    exists p w', fsubmit fw w = (Err (FwSurprises p), w') /\ surprises p = [BaseDrifted (base_version m) head] /\
      dels p = fw_deleted fw /\ fs_lookup (ww_fs w') = fs_lookup (ww_fs w) /\ ww_remote w' = ww_remote w /\
      recorded (ww_vai w) (ww_vai w').
Proof using parse_ok parse_no_panic.
  intros Hwf Hb Hroot Hm Hmeta Hh Hdel Hne.
  destruct (plan_local fw w m head Hwf Hb Hroot Hm Hh)
    as (p & v1 & s1 & m1 & Ep & (Hs & Hd & Hnonempty) & Hwf1 & Hl1 & Hrec & Hm1 & Hid1 & Hb1 & Hi1 & Hman).
  unfold submit. rewrite (M_bind_ok _ _ _ _ _ Ep), Hs, Hmeta. unfold drift. case_decide as Hhead.
  2:{ destruct (String.eqb_spec head (base_version m)) as [|_]; [done|]. do 2 eexists. split; [reflexivity|]. simpl.
      split; [rewrite Hs, Hmeta; unfold drift; by destruct (String.eqb_spec head (base_version m))|]. by split_and!. }
  subst head. rewrite String.eqb_refl. unfold do_submit. rewrite Hnonempty.
  2:{ destruct Hne as [Ho|(q & Hq & _)]; [by left|]. right. rewrite Hdel. intros Hempty.
      apply (not_elem_of_nil (A:=string) q). rewrite <-Hempty. by apply deleted_paths_elem. }
  rewrite Hb. unfold submit_local. set (w1 := mkFwWorld v1 s1 _ _ _).
  destruct (submit_active m1 v1 s1 (manifests (ww_vai w))) as (r & v2 & s2 & Er & Hwf2 & Hsub); try done.
  { rewrite Hb1. unfold read_head in *. by rewrite (rd_head _ _ Hrec). }
  { by rewrite Hid1, Hl1. }
  set (w2 := mkFwWorld v2 s2 (ww_remote w) (ww_issues w) (ww_history w)).
  assert (E2 : with_merge (R:=R) (Submit.submit clock uuid read_dir parse_rust_source parse_source_file sha256_hex iter_order) w1 = (Ok r, w2)).
  { unfold with_merge, w1. simpl. by rewrite Er. }
  destruct (record_history_ok (ws_id (fw_meta fw)) r w2) as (w3 & E3 & V3 & F3 & R3).
  set (applied := mkApplied (version_id (sr_version r)) (files_applied r) (entities_changed r) (sr_entity_ids r)
                    (v_intent (sr_version r)) None).
  rewrite (M_bind_ok _ _ w1 (applied, fw) w3).
  2:{ rewrite (M_bind_ok _ _ _ _ _ E2), (M_bind_ok _ _ _ _ _ E3). done. }
  destruct Hsub as [Hbase Hover Hhd (Hv & _ & _)]. rewrite Hid1, Hl1 in Hbase. rewrite Hl1 in Hover.
  assert (Hnv : next_version_id read_dir v1 = next_version_id read_dir (ww_vai w)).
  { unfold next_version_id, list_versions. by rewrite (rd_versions _ _ Hrec). }
  rewrite Hnv in Hhd, Hv.
  assert (Hend : forall w', ww_fs w' = ww_fs w3 -> ww_remote w' = ww_remote w3 ->
    head_file (ww_vai w') = head_file (ww_vai w3) -> locally_submitted w w' m).
  { intros w' Hf Hr Hv'. unfold locally_submitted. rewrite Hf, Hr, F3, R3. simpl. split_and!; [done..| |done].
    unfold read_head in *. by rewrite Hv', V3. }
  destruct (ws_issue_id (fw_meta fw)) as [issue_id|].
  - destruct (best_effort_ok (_ ← Issue.resolve source_from_json criteria_from_json clock issue_id (Some (ap_version applied)); mret tt) w3)
      as (w4 & E4 & F4 & R4 & H4).
    exists applied, w4. cbn zeta. split; [|by split; [apply Hend|]].
    by rewrite (M_bind_ok _ _ _ _ _ E4).
  - exists applied, w3. split; [done|]. by split; [apply Hend|].
Qed.
End reasoning.

(** ** A server in memory *)

(** [InMemoryRemoteRepo] of the tests: [dir_files] are the files of the directory that
    is uploaded. *)
Record InMemoryRemoteRepo : Type := mkMem { mem_head : string; mem_files : gmap string bytes }.

Section memory.
Context {S : Type}.
Variable dir_files : bool -> S -> list (string * bytes).
Variable uuid : nat -> Uuid.

Definition mem_insert (acc : gmap string bytes * (nat * nat)) (f : string * bytes) : gmap string bytes * (nat * nat) :=
  let '(files, (added, modified)) := acc in
  (<[f.1 := f.2]> files, match files !! f.1 with None => (added + 1, modified) | Some _ => (added, modified + 1) end).
Definition mem_remove (acc : gmap string bytes * nat) (p : string) : gmap string bytes * nat :=
  (delete p acc.1, match acc.1 !! p with Some _ => acc.2 + 1 | None => acc.2 end).

Definition mem_upload (from_root : bool) (s : S) (deleted_paths : list string) : M InMemoryRemoteRepo FwError SnapshotInfo := fun r =>
  let '(files, deleted) := foldl mem_remove (mem_files r, 0) deleted_paths in
  let '(files', (added, modified)) := foldl mem_insert (files, (0, 0)) (dir_files from_root s) in
  (Ok (mkSnapshotInfo added modified deleted true), mkMem (mem_head r) files').

#[export] Instance mem_repo : RemoteRepo S InMemoryRemoteRepo := {|
  list_head_files r := (Ok (map_to_list (mem_files r)).*1, r);
  head_version r := (Ok (mem_head r), r);
  upload_workspace ws from_root s base deleted_paths := mem_upload from_root s deleted_paths;
  submit_workspace ws r :=
    let v := mem_head r +:+ "-merged" in (Ok (mkApplied v (size (mem_files r)) 0 [] EmptyString None), mkMem v (mem_files r));
  download_files paths r := (Ok (omap (fun p => pair p <$> (mem_files r !! p)) paths), r);
  create_workspace intent r := (Ok (uuid 0), r)
|}.

#[export] #[refine] Instance mem_repo_spec : RemoteRepoSpec S InMemoryRemoteRepo := {|
  rr_head := mem_head; rr_file r p := mem_files r !! p
|}.
Proof.
  - intros r. by exists r.
  - intros r. exists r, (map_to_list (mem_files r)).*1. split_and!; [done..| |apply NoDup_fst_map_to_list].
    intros p. rewrite list_elem_of_fmap. split.
    + intros ([q c] & -> & Hq%elem_of_map_to_list). by eexists.
    + intros [c Hc]. exists (p, c). split; [done|]. by apply elem_of_map_to_list.
  - intros r paths contents Hc. exists r. split_and!; [|done..]. simpl. f_equal. f_equal.
    induction Hc as [|p c paths contents Hp _ IH]; [done|]. simpl. rewrite Hp. simpl. f_equal. exact IH.
Defined.
End memory.

(** ** Witnesses *)

Definition wit_remote : InMemoryRemoteRepo := mkMem "v1" {["a"%string := bytes_of text_base; "b"%string := bytes_of "B"]}.
Definition fw_world (server_head : string) : FwWorld S3 InMemoryRemoteRepo :=
  mkFwWorld (wit_vai "v1") (new_s3 (<["current/a"%string := bytes_of text_base]> {["workspaces/w/a"%string := bytes_of text_ws]}) false)
    (mkMem server_head (mem_files wit_remote)) None None.
Definition wit_fw (b : Backend) (deleted : list string) : FileWorkspace := mkFw wit_ws None deleted b false.

Lemma wit_base_listed : @fs_prefix S3 wit_fs wit_spec "base/".
Proof. exists "current/"%string. split; [done|]. intros rel. apply s3_path_cases. right; left. eauto. Defined.

(** A clone on disk: the overlay has a new [a], and the workspace deletes [b]. *)
Definition wit_disk : Disk :=
  <["/r/.vai/workspaces/w/overlay/a"%string := bytes_of text_ws]> {["/r/a"%string := bytes_of text_base]}.
Definition disk_world (server_head : string) : FwWorld Disk InMemoryRemoteRepo :=
  mkFwWorld (wit_vai "v1") wit_disk (mkMem server_head (mem_files wit_remote)) None None.
Definition wit_disk_fs : MergeFs Disk := DiskMergeFs "/r/.vai" "w" "/r" elements.
Definition wit_disk_reads : @MergeFsReads Disk wit_disk_fs :=
  disk_reads "/r/.vai" "w" "/r" elements (fun X => reflexivity _) ltac:(discriminate) eq_refl.

Lemma wit_disk_wf : disk_wf wit_disk.
Proof.
  intros f Hf. unfold wit_disk in Hf. rewrite dom_insert, dom_singleton, elem_of_union, !elem_of_singleton in Hf.
  by destruct Hf as [-> | ->].
Qed.

Lemma wit_disk_exact : @exact_paths Disk wit_disk_fs wit_disk_reads (disk_lookup "/r/.vai" "w" "/r" wit_disk) ["b"%string].
Proof.
  assert (Hx : forall p, p = "a"%string \/ p = "b"%string -> no_base_dir (disk_lookup "/r/.vai" "w" "/r" wit_disk) p).
  { intros p Hp. split; [by destruct Hp as [-> | ->]|]. intros q. rewrite lookup_base.
    destruct Hp as [-> | ->]; unfold wit_disk; (rewrite lookup_insert_ne; [|discriminate]); by rewrite lookup_singleton_ne. }
  intros p [[c Hc]|Hp]; apply Hx; [left|right; by apply list_elem_of_singleton].
  rewrite lookup_overlay in Hc. destruct (relative p); [|done]. unfold wit_disk in Hc.
  apply lookup_insert_Some in Hc as [[E _]|[_ [E _]%lookup_singleton_Some]]; [|discriminate E].
  by injection E.
Qed.

Lemma submit_refuses_surprises_witness :
  exists p w', @submit Disk InMemoryRemoteRepo wit_disk_fs (mem_repo (fun _ _ => []) wit_uuid) ascii_unicode wit_clock wit_uuid
    wit_versions wit_parse wit_parse (fun _ => ""%string) elements (fun _ => None) (fun _ => None) (fun _ => ""%string)
    (wit_fw BackendRemote ["b"%string]) (disk_world "v1") = (Err (FwSurprises p), w') /\
    ServerHasFileLocalDoesNot "b" ∈ surprises p /\ "a"%string ∈ mods p /\
    ww_remote w' = mkMem "v1" (mem_files wit_remote).
Proof.
  destruct (@submit_refuses_surprises Disk InMemoryRemoteRepo wit_disk_fs wit_disk_reads (mem_repo (fun _ _ => []) wit_uuid)
    ascii_unicode wit_clock wit_uuid wit_versions wit_parse wit_parse (fun _ => ""%string) elements
    (fun _ => None) (fun _ => None) (fun _ => ""%string) (fun X => reflexivity _) (fun p c => ex_intro _ _ eq_refl)
    (or_intror eq_refl) (wit_fw BackendRemote ["b"%string]) (disk_world "v1") "v1"%string (map_to_list (mem_files wit_remote)).*1
    (mkMem "v1" (mem_files wit_remote))) as (p & w' & E & _ & Hr & (_ & Hm & _ & _ & _ & Hx)).
  - apply wit_disk_wf.
  - reflexivity.
  - intros _. apply wit_disk_exact.
  - eexists. by split.
  - right. exists "b"%string. split; [by vm_compute; right; left|]. left. left.
  - exists p, w'. split; [exact E|]. split; [|split; [|exact Hr]].
    + apply Hx. right. exists "b"%string. split; [done|]. split; [by vm_compute; right; left|]. left. left.
    + apply Hm. split; by eexists.
Defined.

Lemma pull_brings_missing_witness :
  exists applied fw' w', @pull S3 InMemoryRemoteRepo wit_fs (mem_repo (fun _ _ => []) wit_uuid) wit_clock
    (wit_fw BackendRemote []) (fw_world "v2") = (Ok (applied, fw'), w') /\
    base_version (fw_meta fw') = "v2"%string /\ s3_lookup "workspaces/w/" "current/" (ww_fs w') "base/b" = Some (bytes_of "B").
Proof.
  destruct (@pull_brings_missing S3 InMemoryRemoteRepo wit_fs wit_spec (mem_repo (fun _ _ => []) wit_uuid) (mem_repo_spec _ _)
    wit_clock wit_base_listed (wit_fw BackendRemote []) (fw_world "v2")) as (applied & fw' & w' & E & _ & _ & _ & Hp & _ & _ & Hb).
  - apply new_s3_wf.
  - reflexivity.
  - by eexists.
  - exists applied, fw', w'. split; [exact E|]. split.
    + apply (Hb "b"%string); [split; vm_compute; reflexivity|by eexists].
    + exact (Hp "b"%string).
Defined.

Lemma local_submit_fast_forwards_witness :
  exists applied w', @submit S3 InMemoryRemoteRepo wit_fs (mem_repo (fun _ _ => []) wit_uuid) ascii_unicode wit_clock wit_uuid wit_versions
    wit_parse wit_parse (fun _ => ""%string) elements (fun _ => None) (fun _ => None) (fun _ => ""%string)
    (wit_fw BackendLocal []) (fw_world "v1") = (Ok (applied, wit_fw BackendLocal []), w') /\
    s3_lookup "workspaces/w/" "current/" (ww_fs w') "base/a" = Some (bytes_of text_ws) /\ ap_version applied = "v2"%string.
Proof.
  pose proof (@local_submit_fast_forwards S3 InMemoryRemoteRepo wit_fs wit_spec (mem_repo (fun _ _ => []) wit_uuid)
    ascii_unicode wit_clock wit_uuid wit_versions wit_parse wit_parse (fun _ => ""%string) elements (fun _ => None) (fun _ => None)
    (fun _ => ""%string) (fun p c => ex_intro _ _ eq_refl) (fun p c H => ltac:(discriminate H))
    (wit_fw BackendLocal []) (fw_world "v1") wit_ws "v1"%string) as Hspec.
  rewrite decide_True in Hspec by reflexivity.
  destruct Hspec as (applied & w' & E & (Hb & _) & Hv).
  - apply new_s3_wf.
  - reflexivity.
  - reflexivity.
  - split; reflexivity.
  - reflexivity.
  - reflexivity.
  - reflexivity.
  - left. exists "a"%string. exists (bytes_of text_ws). reflexivity.
  - exists applied, w'. split; [exact E|]. split; [exact (Hb "a"%string)|exact Hv].
Defined.
