(* ===== verification/Auth.v ===== *)
(** Accounts and access of the hosted server: the tables of organizations, users,
    memberships, collaborators, keys, refresh tokens and device codes with the
    operations on them ([src/src/storage/postgres/org.rs],
    [src/src/storage/postgres/auth.rs]), the roles of [src/src/storage/mod.rs], and the
    permission check of [src/src/server/mod.rs]. *)
From S2P Require Import Prelude Table RustStr EventLog.

Inductive StorageError : Type := SeNotFound | SeConflict | SeDatabase.

(** ** Roles *)

Inductive OrgRole : Type := OrgOwner | OrgAdmin | OrgMember_.
Inductive RepoRole : Type := RoleOwner | RoleAdmin | RoleWrite | RoleRead.

#[export] Instance RepoRole_eq_dec : EqDecision RepoRole.
Proof. solve_decision. Defined.

Definition org_role_from_db_str (s : string) : OrgRole :=
  if String.eqb s "owner" then OrgOwner else if String.eqb s "admin" then OrgAdmin else OrgMember_.
Definition org_role_as_str (r : OrgRole) : string :=
  match r with OrgOwner => "owner" | OrgAdmin => "admin" | OrgMember_ => "member" end.

Definition role_from_db_str (s : string) : RepoRole :=
  if String.eqb s "owner" then RoleOwner else if String.eqb s "admin" then RoleAdmin
  else if String.eqb s "write" then RoleWrite else RoleRead.
Definition role_as_str (r : RepoRole) : string :=
  match r with RoleOwner => "owner" | RoleAdmin => "admin" | RoleWrite => "write" | RoleRead => "read" end.
Definition rank (r : RepoRole) : nat :=
  match r with RoleOwner => 4 | RoleAdmin => 3 | RoleWrite => 2 | RoleRead => 1 end.
Definition role_max (a b : RepoRole) : RepoRole := if rank b <=? rank a then a else b.

Lemma role_roundtrip r : role_from_db_str (role_as_str r) = r.
Proof. by destruct r. Qed.
Lemma org_role_roundtrip r : org_role_from_db_str (org_role_as_str r) = r.
Proof. by destruct r. Qed.
Lemma rank_role_max a b : rank (role_max a b) = Nat.max (rank a) (rank b).
Proof. by destruct a, b. Qed.
Lemma rank_inj a b : rank a = rank b -> a = b.
Proof. by destruct a, b. Qed.

(** ** Tables *)

Record Organization : Type := mkOrg { og_id : Uuid; og_name : string; og_slug : string; og_created_at : DateTime }.
Record User : Type := mkUser { us_id : Uuid; us_email : string; us_name : string; us_created_at : DateTime }.
(** Roles are stored as texts. *)
Record MemberRow : Type := mkMember { mb_org : Uuid; mb_user : Uuid; mb_role : string; mb_created_at : DateTime }.
Record RepoRow : Type := mkRepoRow { rp_id : Uuid; rp_name : string; rp_org : option Uuid; rp_created_at : DateTime }.
Record CollabRow : Type := mkCollab { cb_repo : Uuid; cb_user : Uuid; cb_role : string; cb_created_at : DateTime }.
Record ApiKey : Type := mkApiKey {
  ak_id : string; ak_name : string; key_prefix : string; last_used_at : option DateTime; ak_created_at : DateTime;
  revoked : bool; ak_user_id : option Uuid; role_override : option string; agent_type : option string;
  expires_at : option DateTime
}.
Record KeyRow : Type := mkKeyRow { kr_key : ApiKey; kr_repo : option Uuid; kr_hash : string }.
Record RefreshRow : Type := mkRefresh { rf_user : Uuid; rf_hash : string; rf_expires_at : DateTime; rf_revoked : bool }.
Record DeviceRow : Type := mkDevice { dv_code : string; dv_user : option Uuid; dv_key : option string; dv_expires_at : DateTime }.
Record SessionRow : Type := mkSession { ss_token : string; ss_user : string; ss_expires_at : DateTime }.

(** The first version of a repository that is created. *)
Record SeedVersion : Type := mkSeed { sd_id : Uuid; sd_repo : Uuid; sd_version : string; sd_intent : string; sd_created_by : string }.

(** [db_last_used] is the cache that debounces the writes of [last_used_at];
    [db_draws] and [db_ticks] count the identifiers drawn and the readings of the clock. *)
Record AuthDb : Type := mkAuthDb {
  db_orgs : list Organization; db_users : list User; db_members : list MemberRow; db_repos : list RepoRow;
  db_versions : list SeedVersion; db_heads : gmap Uuid string; db_collabs : list CollabRow; db_keys : list KeyRow;
  db_refresh : list RefreshRow; db_devices : list DeviceRow; db_sessions : list SessionRow;
  db_last_used : gmap string DateTime; db_draws : nat; db_ticks : nat
}.

Definition set_orgs x d := mkAuthDb x (db_users d) (db_members d) (db_repos d) (db_versions d) (db_heads d)
  (db_collabs d) (db_keys d) (db_refresh d) (db_devices d) (db_sessions d) (db_last_used d) (db_draws d) (db_ticks d).
Definition set_users x d := mkAuthDb (db_orgs d) x (db_members d) (db_repos d) (db_versions d) (db_heads d)
  (db_collabs d) (db_keys d) (db_refresh d) (db_devices d) (db_sessions d) (db_last_used d) (db_draws d) (db_ticks d).
Definition set_members x d := mkAuthDb (db_orgs d) (db_users d) x (db_repos d) (db_versions d) (db_heads d)
  (db_collabs d) (db_keys d) (db_refresh d) (db_devices d) (db_sessions d) (db_last_used d) (db_draws d) (db_ticks d).
Definition set_repos x d := mkAuthDb (db_orgs d) (db_users d) (db_members d) x (db_versions d) (db_heads d)
  (db_collabs d) (db_keys d) (db_refresh d) (db_devices d) (db_sessions d) (db_last_used d) (db_draws d) (db_ticks d).
Definition set_versions x d := mkAuthDb (db_orgs d) (db_users d) (db_members d) (db_repos d) x (db_heads d)
  (db_collabs d) (db_keys d) (db_refresh d) (db_devices d) (db_sessions d) (db_last_used d) (db_draws d) (db_ticks d).
Definition set_heads x d := mkAuthDb (db_orgs d) (db_users d) (db_members d) (db_repos d) (db_versions d) x
  (db_collabs d) (db_keys d) (db_refresh d) (db_devices d) (db_sessions d) (db_last_used d) (db_draws d) (db_ticks d).
Definition set_collabs x d := mkAuthDb (db_orgs d) (db_users d) (db_members d) (db_repos d) (db_versions d) (db_heads
  d) x (db_keys d) (db_refresh d) (db_devices d) (db_sessions d) (db_last_used d) (db_draws d) (db_ticks d).
Definition set_keys x d := mkAuthDb (db_orgs d) (db_users d) (db_members d) (db_repos d) (db_versions d) (db_heads d)
  (db_collabs d) x (db_refresh d) (db_devices d) (db_sessions d) (db_last_used d) (db_draws d) (db_ticks d).
Definition set_refresh x d := mkAuthDb (db_orgs d) (db_users d) (db_members d) (db_repos d) (db_versions d) (db_heads
  d) (db_collabs d) (db_keys d) x (db_devices d) (db_sessions d) (db_last_used d) (db_draws d) (db_ticks d).
Definition set_devices x d := mkAuthDb (db_orgs d) (db_users d) (db_members d) (db_repos d) (db_versions d) (db_heads
  d) (db_collabs d) (db_keys d) (db_refresh d) x (db_sessions d) (db_last_used d) (db_draws d) (db_ticks d).
Definition set_last_used x d := mkAuthDb (db_orgs d) (db_users d) (db_members d) (db_repos d) (db_versions d)
  (db_heads d) (db_collabs d) (db_keys d) (db_refresh d) (db_devices d) (db_sessions d) x (db_draws d) (db_ticks d).
Definition set_draws n d := mkAuthDb (db_orgs d) (db_users d) (db_members d) (db_repos d) (db_versions d) (db_heads d)
  (db_collabs d) (db_keys d) (db_refresh d) (db_devices d) (db_sessions d) (db_last_used d) n (db_ticks d).
Definition set_ticks n d := mkAuthDb (db_orgs d) (db_users d) (db_members d) (db_repos d) (db_versions d) (db_heads d)
  (db_collabs d) (db_keys d) (db_refresh d) (db_devices d) (db_sessions d) (db_last_used d) (db_draws d) n.

Abbreviation Db := (M AuthDb StorageError).

Definition found {A} (o : option A) : outcome StorageError A := match o with Some x => Ok x | None => Err SeNotFound end.
Definition is_user (u : Uuid) (d : AuthDb) : bool := existsb (fun x => String.eqb (us_id x) u) (db_users d).

(** What the code takes from its environment: the clock, the identifiers it draws (the
    [n]-th, its text without dashes and its sixteen bytes), the parser of identifiers
    and SHA-256 in hexadecimal. *)
Class AuthEnv : Type := mkAuthEnv {
  clock : nat -> DateTime;
  uuid : nat -> Uuid;
  uuid_simple : nat -> string;
  uuid_bytes : nat -> list nat;
  parse_uuid : string -> option Uuid;
  sha256_hex : string -> string
}.

Section auth.
Context `{AuthEnv}.

Definition now : Db DateTime := fun d => (Ok (clock (db_ticks d)), set_ticks (S (db_ticks d)) d).
Definition draw : Db Uuid := fun d => (Ok (uuid (db_draws d)), set_draws (S (db_draws d)) d).

Definition hash_token (token : string) : string := sha256_hex token.

(** [while out.len() < hex_chars { push }], then [truncate]. *)
Fixpoint random_go (fuel hex_chars : nat) (out : string) (n : nat) : string * nat :=
  match fuel with
  | 0 => (out, n)
  | S fuel => if String.length out <? hex_chars then random_go fuel hex_chars (out +:+ uuid_simple n) (S n) else (out, n)
  end.
Definition random_token (hex_chars : nat) : Db string := fun d =>
  let '(out, n) := random_go hex_chars hex_chars EmptyString (db_draws d) in
  (Ok (String.substring 0 hex_chars out), set_draws n d).

(** *** Organizations, users and members *)

Definition create_org (name slug : string) : Db Organization :=
  id ← draw; t ← now; d ← get_st;
  if bool_decide (is_Some (find_by og_slug slug (db_orgs d)) \/ is_Some (find_by og_id id (db_orgs d))) then fail SeConflict
  else
    let org := mkOrg id name slug t in
    _ ← put_st (set_orgs (db_orgs d ++ [org]) d);
    mret org.

Definition get_org (id : Uuid) : Db Organization := d ← get_st; lift (found (find_by og_id id (db_orgs d))).
Definition get_org_by_slug (slug : string) : Db Organization := d ← get_st; lift (found (find_by og_slug slug (db_orgs d))).

Definition create_user (email name : string) : Db User :=
  id ← draw; t ← now; d ← get_st;
  if bool_decide (is_Some (find_by us_email email (db_users d)) \/ is_Some (find_by us_id id (db_users d))) then fail SeConflict
  else
    let user := mkUser id email name t in
    _ ← put_st (set_users (db_users d ++ [user]) d);
    mret user.

Definition get_user (id : Uuid) : Db User := d ← get_st; lift (found (find_by us_id id (db_users d))).
Definition get_user_by_email (email : string) : Db User := d ← get_st; lift (found (find_by us_email email (db_users d))).

(** [ORDER BY name] *)
Definition list_orgs : Db (list Organization) :=
  d ← get_st; mret (sort_by (fun a b => String.leb (og_name a) (og_name b)) (db_orgs d)).

(** Its members go with an organization; the repositories keep its identifier. *)
Definition delete_org (id : Uuid) : Db unit :=
  d ← get_st;
  match find_by og_id id (db_orgs d) with
  | None => fail SeNotFound
  | Some _ =>
      put_st (set_orgs (filter (fun o => og_id o <> id) (db_orgs d))
        (set_members (filter (fun m => mb_org m <> id) (db_members d)) d))
  end.

Definition member_key (m : MemberRow) : Uuid * Uuid := (mb_org m, mb_user m).

(** A violated constraint is a conflict, of the foreign keys as well. *)
Definition add_org_member (org user : Uuid) (role : OrgRole) : Db MemberRow :=
  t ← now; d ← get_st;
  if bool_decide (is_Some (find_by member_key (org, user) (db_members d))) || negb (is_user user d) ||
     bool_decide (find_by og_id org (db_orgs d) = None) then fail SeConflict
  else
    let m := mkMember org user (org_role_as_str role) t in
    _ ← put_st (set_members (db_members d ++ [m]) d);
    mret m.

Definition update_org_member (org user : Uuid) (role : OrgRole) : Db MemberRow :=
  d ← get_st;
  m ← lift (found (find_by member_key (org, user) (db_members d)));
  let m' := mkMember org user (org_role_as_str role) (mb_created_at m) in
  _ ← put_st (set_members (update_by member_key (org, user) (fun _ => m') (db_members d)) d);
  mret m'.

Definition remove_org_member (org user : Uuid) : Db unit :=
  d ← get_st;
  match find_by member_key (org, user) (db_members d) with
  | None => fail SeNotFound
  | Some _ => put_st (set_members (filter (fun m => member_key m <> (org, user)) (db_members d)) d)
  end.

Definition list_org_members (org : Uuid) : Db (list MemberRow) :=
  d ← get_st;
  mret (sort_by (fun a b => mb_created_at a <=? mb_created_at b)%Z (filter (fun m => mb_org m = org) (db_members d))).

(** *** Repositories and collaborators *)

Definition get_repo_id_in_org (org : Uuid) (name : string) : Db Uuid :=
  d ← get_st;
  r ← lift (found (head (filter (fun r => rp_org r = Some org /\ rp_name r = name) (db_repos d))));
  mret (rp_id r).

Definition get_repo_by_name (name : string) : Db (option RepoRow) :=
  d ← get_st; mret (head (filter (fun r => rp_name r = name) (db_repos d))).

Definition collab_key (c : CollabRow) : Uuid * Uuid := (cb_repo c, cb_user c).

Definition add_collaborator (repo user : Uuid) (role : RepoRole) : Db CollabRow :=
  t ← now; d ← get_st;
  if bool_decide (is_Some (find_by collab_key (repo, user) (db_collabs d))) || negb (is_user user d) ||
     bool_decide (find_by rp_id repo (db_repos d) = None) then fail SeConflict
  else
    let c := mkCollab repo user (role_as_str role) t in
    _ ← put_st (set_collabs (db_collabs d ++ [c]) d);
    mret c.

Definition update_collaborator (repo user : Uuid) (role : RepoRole) : Db CollabRow :=
  d ← get_st;
  c ← lift (found (find_by collab_key (repo, user) (db_collabs d)));
  let c' := mkCollab repo user (role_as_str role) (cb_created_at c) in
  _ ← put_st (set_collabs (update_by collab_key (repo, user) (fun _ => c') (db_collabs d)) d);
  mret c'.

Definition remove_collaborator (repo user : Uuid) : Db unit :=
  d ← get_st;
  match find_by collab_key (repo, user) (db_collabs d) with
  | None => fail SeNotFound
  | Some _ => put_st (set_collabs (filter (fun c => collab_key c <> (repo, user)) (db_collabs d)) d)
  end.

Definition list_collaborators (repo : Uuid) : Db (list CollabRow) :=
  d ← get_st;
  mret (sort_by (fun a b => cb_created_at a <=? cb_created_at b)%Z (filter (fun c => cb_repo c = repo) (db_collabs d))).

Definition count_repos_owned_by_user (user : Uuid) (d : AuthDb) : nat :=
  length (filter (fun c => cb_user c = user /\ cb_role c = "admin"%string) (db_collabs d)).

(** The role the membership of the organization gives. *)
Definition org_derived (user : Uuid) (r : RepoRow) (d : AuthDb) : option RepoRole :=
  org ← rp_org r;
  m ← find_by member_key (org, user) (db_members d);
  if String.eqb (mb_role m) "owner" then Some RoleOwner
  else if String.eqb (mb_role m) "admin" then Some RoleAdmin else None.

Definition direct (user repo : Uuid) (d : AuthDb) : option RepoRole :=
  c ← find_by collab_key (repo, user) (db_collabs d); Some (role_from_db_str (cb_role c)).

Definition resolve_repo_role (user repo : Uuid) (d : AuthDb) : option RepoRole :=
  r ← find_by rp_id repo (db_repos d);
  match org_derived user r d, direct user repo d with
  | Some a, Some b => Some (role_max a b)
  | Some a, None => Some a
  | None, o => o
  end.

Definition get_or_create_personal_org (user : Uuid) (user_name : string) : Db Organization :=
  let slug := "user-" +:+ user in
  id ← draw; t ← now; d ← get_st;
  org ← (match find_by og_slug slug (db_orgs d) with
         | Some org => mret org
         | None =>
             let org := mkOrg id user_name slug t in
             if bool_decide (is_Some (find_by og_id id (db_orgs d))) then fail SeDatabase
             else _ ← put_st (set_orgs (db_orgs d ++ [org]) d); mret org
         end);
  t' ← now; d' ← get_st;
  match find_by member_key (og_id org, user) (db_members d') with
  | Some _ => mret org
  | None =>
      if is_user user d' then
        _ ← put_st (set_members (db_members d' ++ [mkMember (og_id org) user "owner" t']) d');
        mret org
      else fail SeDatabase
  end.
End auth.
