(* ===== verification/AuthKeys.v ===== *)
(** The credentials of the hosted server ([src/src/storage/postgres/auth.rs]): API keys,
    sessions, refresh tokens and the device codes of the command line, with what the
    tables keep true: hashes are unique, and a revoked key stays revoked. *)
From S2P Require Import Prelude Table RustStr EventLog Auth.

Definition SECOND : Z := 1000000000%Z.

Section keys.
Context `{AuthEnv}.

Definition row_to_api_key (r : KeyRow) : ApiKey := kr_key r.
Definition kr_id (r : KeyRow) : string := ak_id (kr_key r).

(** The partial unique index [api_keys_user_name_active]. *)
Definition active_named (user : option Uuid) (name : string) (r : KeyRow) : bool :=
  negb (revoked (kr_key r)) && bool_decide (is_Some user /\ ak_user_id (kr_key r) = user) &&
  String.eqb (ak_name (kr_key r)) name.

(** What [DO UPDATE SET] leaves of the row: its identifier, scope, agent type and expiry. *)
Definition rotate (hash prefix : string) (t : DateTime) (override : option string) (r : KeyRow) : KeyRow :=
  let k := kr_key r in
  mkKeyRow (mkApiKey (ak_id k) (ak_name k) prefix None t (revoked k) (ak_user_id k)
              (match role_override k with Some o => Some o | None => override end) (agent_type k) (expires_at k))
    (kr_repo r) hash.

(** The constraints of a new row. *)
Definition key_row_fits (r : KeyRow) (d : AuthDb) : bool :=
  bool_decide (find_by kr_id (kr_id r) (db_keys d) = None) &&
  bool_decide (find_by kr_hash (kr_hash r) (db_keys d) = None) &&
  match ak_user_id (kr_key r) with Some u => is_user u d | None => true end &&
  match kr_repo r with Some p => bool_decide (is_Some (find_by rp_id p (db_repos d))) | None => true end.

Definition create_key (repo_id : option Uuid) (name : string) (user_id : option Uuid)
    (override agent : option string) (expires : option DateTime) : Db (ApiKey * string) :=
  id ← draw; token ← random_token 64;
  let key_hash := hash_token token in
  let prefix := String.substring 0 8 token in
  t ← now; d ← get_st;
  match List.find (active_named user_id name) (db_keys d) with
  | Some r =>
      let r' := rotate key_hash prefix t override r in
      if bool_decide (default (kr_id r) (kr_id <$> find_by kr_hash key_hash (db_keys d)) = kr_id r) then
        _ ← put_st (set_keys (update_by kr_id (kr_id r) (fun _ => r') (db_keys d)) d);
        mret (row_to_api_key r', token)
      else fail SeDatabase
  | None =>
      let r := mkKeyRow (mkApiKey id name prefix None t false user_id override agent expires) repo_id key_hash in
      if key_row_fits r d then
        _ ← put_st (set_keys (db_keys d ++ [r]) d);
        mret (kr_key r, token)
      else fail SeDatabase
  end.

Definition valid_at (t : DateTime) (r : KeyRow) : bool :=
  negb (revoked (kr_key r)) && match expires_at (kr_key r) with Some e => (t <? e)%Z | None => true end.

Definition set_last_used_at (t : DateTime) (r : KeyRow) : KeyRow :=
  let k := kr_key r in
  mkKeyRow (mkApiKey (ak_id k) (ak_name k) (key_prefix k) (Some t) (ak_created_at k) (revoked k) (ak_user_id k)
              (role_override k) (agent_type k) (expires_at k)) (kr_repo r) (kr_hash r).

(** The key of a token; the time of use is written at most once a minute for a key. *)
Definition validate_key (token : string) : Db ApiKey :=
  t ← now; d ← get_st;
  r ← lift (found (head (filter (fun r => kr_hash r = hash_token token /\ valid_at t r) (db_keys d))));
  t' ← now; d' ← get_st;
  let should_update := match db_last_used d' !! kr_id r with Some last => (60 * SECOND <=? t' - last)%Z | None => true end in
  _ ← (if should_update then
         put_st (set_keys (update_by kr_id (kr_id r) (set_last_used_at t') (db_keys d'))
                  (set_last_used (<[kr_id r := t']> (db_last_used d')) d'))
       else mret tt);
  mret (row_to_api_key r).

Definition by_creation (l : list KeyRow) : list ApiKey :=
  row_to_api_key <$> sort_by (fun a b => ak_created_at (kr_key a) <=? ak_created_at (kr_key b))%Z l.

Definition list_keys (repo_id : option Uuid) : Db (list ApiKey) :=
  d ← get_st; mret (by_creation (filter (fun r => kr_repo r = repo_id /\ revoked (kr_key r) = false) (db_keys d))).

Definition list_keys_by_user (user : Uuid) : Db (list ApiKey) :=
  d ← get_st;
  mret (by_creation (filter (fun r => ak_user_id (kr_key r) = Some user /\ revoked (kr_key r) = false) (db_keys d))).

Definition revoke (r : KeyRow) : KeyRow :=
  let k := kr_key r in
  mkKeyRow (mkApiKey (ak_id k) (ak_name k) (key_prefix k) (last_used_at k) (ak_created_at k) true (ak_user_id k)
              (role_override k) (agent_type k) (expires_at k)) (kr_repo r) (kr_hash r).

(** No error when there is no such key. *)
Definition revoke_key (id : string) : Db unit :=
  d ← get_st; put_st (set_keys (update_by kr_id id revoke (db_keys d)) d).

Definition revoke_where (p : KeyRow -> bool) : Db nat :=
  d ← get_st;
  let hit r := p r && negb (revoked (kr_key r)) in
  _ ← put_st (set_keys ((fun r => if hit r then revoke r else r) <$> db_keys d) d);
  mret (length (filter hit (db_keys d))).
Definition revoke_keys_by_repo (repo : Uuid) : Db nat := revoke_where (fun r => bool_decide (kr_repo r = Some repo)).
Definition revoke_keys_by_user (user : Uuid) : Db nat :=
  revoke_where (fun r => bool_decide (ak_user_id (kr_key r) = Some user)).

(** *** Sessions and refresh tokens *)

Definition validate_session (session_token : string) : Db string :=
  t ← now; d ← get_st;
  s ← lift (found (head (filter (fun s => ss_token s = session_token /\ (t < ss_expires_at s)%Z) (db_sessions d))));
  mret (ss_user s).

Definition create_refresh_token (user : Uuid) (expires : DateTime) : Db string :=
  token ← random_token 64;
  let token_hash := hash_token token in
  let plaintext := "rt_" +:+ token in
  d ← get_st;
  if bool_decide (is_Some (find_by rf_hash token_hash (db_refresh d))) || negb (is_user user d) then fail SeDatabase
  else
    _ ← put_st (set_refresh (db_refresh d ++ [mkRefresh user token_hash expires false]) d);
    mret plaintext.

Definition live_refresh (hash : string) (t : DateTime) (r : RefreshRow) : Prop :=
  rf_hash r = hash /\ (t < rf_expires_at r)%Z /\ rf_revoked r = false.

Definition validate_refresh_token (token : string) : Db Uuid :=
  t ← now; d ← get_st;
  r ← lift (found (head (filter (live_refresh (hash_token token) t) (db_refresh d))));
  mret (rf_user r).

Definition revoke_refresh_token (token : string) : Db unit :=
  d ← get_st;
  let hit r := String.eqb (rf_hash r) (hash_token token) && negb (rf_revoked r) in
  if existsb hit (db_refresh d) then
    put_st (set_refresh
      ((fun r => if hit r then mkRefresh (rf_user r) (rf_hash r) (rf_expires_at r) true else r) <$> db_refresh d) d)
  else fail SeNotFound.

(** *** Device codes *)

Definition CHARS : string := "ABCDEFGHIJKLMNOPQRSTUVWXYZ0123456789".

(** [XXXX-YYYY]: four characters from the first four bytes of an identifier, four from the next. *)
Definition code_char (b : nat) : string :=
  match String.get (b mod String.length CHARS) CHARS with Some c => String c EmptyString | None => EmptyString end.
Definition generate_device_code (bytes : list nat) : string :=
  String.concat EmptyString (code_char <$> take 4 bytes) +:+ "-" +:+
  String.concat EmptyString (code_char <$> take 4 (drop 4 bytes)).

Inductive DeviceCodeStatus : Type := DvPending | DvExpired | DvAuthorized (key : string) (user : Uuid) (email : string).

Definition create_device_code : Db string :=
  d ← get_st;
  let code := generate_device_code (uuid_bytes (db_draws d)) in
  _ ← put_st (set_draws (S (db_draws d)) d);
  t ← now; d' ← get_st;
  match find_by dv_code code (db_devices d') with
  | Some _ => fail SeDatabase
  | None =>
      _ ← put_st (set_devices (db_devices d' ++ [mkDevice code None None (t + 600 * SECOND)%Z]) d');
      mret code
  end.

Definition drop_code (code : string) : Db unit :=
  d ← get_st; put_st (set_devices (filter (fun v => dv_code v <> code) (db_devices d)) d).

Definition poll_device_code (code : string) : Db DeviceCodeStatus :=
  d ← get_st;
  row ← lift (found (find_by dv_code code (db_devices d)));
  t ← now;
  if (dv_expires_at row <? t)%Z then _ ← drop_code code; mret DvExpired
  else
    match dv_key row with
    | None => mret DvPending
    | Some key =>
        match dv_user row, u ← dv_user row; find_by us_id u (db_users d) with
        | Some user, Some u => _ ← drop_code code; mret (DvAuthorized key user (us_email u))
        | _, _ => fail SeDatabase
        end
    end.

Definition authorize_device_code (code : string) (user : Uuid) (api_key : string) : Db unit :=
  t ← now; d ← get_st;
  let hit v := String.eqb (dv_code v) code && (t <=? dv_expires_at v)%Z && bool_decide (dv_key v = None) in
  if existsb hit (db_devices d) then
    if is_user user d then
      put_st (set_devices ((fun v => if hit v then mkDevice (dv_code v) (Some user) (Some api_key) (dv_expires_at v) else v)
                            <$> db_devices d) d)
    else fail SeDatabase
  else fail SeNotFound.
End keys.
