(* ===== verification/AuthServer.v ===== *)
(** Who a request comes from and what it may do: the access tokens of
    [src/src/auth/jwt.rs], the authentication and the permission check of
    [src/src/server/mod.rs], and the handlers that hand out and take back credentials
    ([src/src/server/auth.rs]). *)
From S2P Require Import Prelude Table RustStr EventLog Auth AuthKeys.

(** Error replies; messages are not kept. *)
Inductive ApiError : Type :=
  | AeUnauthorized | AeForbidden | AeNotFound | AeBadRequest | AeConflict | AeInternal
  | AeQuotaExceeded (limit current : Z).

Definition api_error (e : StorageError) : ApiError :=
  match e with SeNotFound => AeNotFound | SeConflict => AeConflict | SeDatabase => AeInternal end.
(** [map_err] with the reply for a missing row. *)
Definition or_not_found (reply : ApiError) (e : StorageError) : ApiError :=
  match e with SeNotFound => reply | _ => api_error e end.

(** ** Access tokens *)

Record TokenClaims : Type := mkClaims {
  sub : string; tc_name : option string; tc_repo_id : option string; tc_role : option string; iat : Z; exp : Z
}.
Inductive JwtError : Type := JwEncode | JwInvalid | JwExpired.

(** The library's encoding of claims under a secret, and its decoding with a secret, a
    leeway and the time in seconds. *)
Class JwtLib : Type := mkJwtLib {
  jwt_encode : TokenClaims -> string -> option string;
  jwt_decode : string -> string -> Z -> Z -> outcome JwtError TokenClaims
}.

Record JwtService : Type := mkJwtService {
  current_secret : string; previous_secret : option string; overlap_secs : Z; access_token_ttl : Z; leeway_secs : Z
}.
Definition jwt_new (current : string) (previous : option string) (overlap : Z) : JwtService :=
  mkJwtService current previous overlap 86400 30.

Inductive AuthSource : Type := SrcJwt | SrcApiKey | SrcAdminKey.
Record AgentIdentity : Type := mkIdentity {
  ai_key_id : string; ai_name : string; is_admin : bool; ai_user_id : option Uuid; ai_role_override : option string;
  jwt_repo_scope : option Uuid; auth_source : AuthSource
}.

(** What the handlers read of the state of the server; [is_local] is the storage of one machine. *)
Record AuthState : Type := mkAuthState {
  jwt_service : JwtService; admin_key : string; is_local : bool; multi_repo : bool; max_repos_per_user : Z
}.

Section server.
Context `{AuthEnv, JwtLib}.

Abbreviation Hd := (M AuthDb ApiError).

(** A call of the store, its error mapped. *)
Definition ask {A} (f : StorageError -> ApiError) (m : Db A) : Hd A := fun d => let '(r, d') := m d in (map_err f r, d').
(** A call whose error is only logged. *)
Definition attempt {A} (m : Db A) : Hd (option A) := fun d =>
  let '(r, d') := m d in (match r with Ok a => Ok (Some a) | Err _ => Ok None | Panic => Panic end, d').
Definition lookup_role (user repo : Uuid) : Db (option RepoRole) := d ← get_st; mret (resolve_repo_role user repo d).

Definition sign (svc : JwtService) (subject : string) (name repo_id role : option string) : M AuthDb JwtError string :=
  fun d =>
  let now := (clock (db_ticks d) / SECOND)%Z in
  let claims := mkClaims subject name repo_id role now (now + access_token_ttl svc)%Z in
  (match jwt_encode claims (current_secret svc) with Some t => Ok t | None => Err JwEncode end,
   set_ticks (S (db_ticks d)) d).

(** The previous secret is tried when the current one does not fit. *)
Definition verify (svc : JwtService) (token : string) : M AuthDb JwtError TokenClaims := fun d =>
  let try secret := jwt_decode token secret (leeway_secs svc) (clock (db_ticks d) / SECOND)%Z in
  (match try (current_secret svc) with
   | Ok claims => Ok claims
   | Err JwInvalid => match previous_secret svc with Some prev => try prev | None => Err JwInvalid end
   | e => e
   end, set_ticks (S (db_ticks d)) d).

(** ** Authentication *)

Definition jwt_identity (c : TokenClaims) : AgentIdentity :=
  mkIdentity ("jwt:" +:+ sub c) (default (sub c) (tc_name c)) (bool_decide (tc_role c = Some "admin"%string))
    (parse_uuid (sub c)) (tc_role c) (r ← tc_repo_id c; parse_uuid r) SrcJwt.
Definition key_identity (k : ApiKey) : AgentIdentity :=
  mkIdentity (ak_id k) (ak_name k) false (ak_user_id k) (role_override k) None SrcApiKey.
Definition admin_identity : AgentIdentity := mkIdentity "admin" "admin" true None None None SrcAdminKey.

(** The identity a request carries on; a WebSocket upgrade goes through without one. *)
Definition auth_middleware (st : AuthState) (ws_upgrade : bool) (authorization : option string) :
    Hd (option AgentIdentity) :=
  if ws_upgrade then mret None
  else
    match h ← authorization; strip_prefix "Bearer " h with
    | None => fail AeUnauthorized
    | Some rest =>
        let key_str := trim rest in
        if has_char "." key_str then fun d =>
          let '(r, d') := verify (jwt_service st) key_str d in
          (match r with Ok c => Ok (Some (jwt_identity c)) | Err _ => Err AeUnauthorized | Panic => Panic end, d')
        else fun d =>
          let '(r, d') := validate_key key_str d in
          (match r with
           | Ok k => Ok (Some (key_identity k))
           | Err SeNotFound => if String.eqb key_str (admin_key st) then Ok (Some admin_identity) else Err AeUnauthorized
           | Err _ => Err AeInternal
           | Panic => Panic
           end, d')
    end.

(** ** Permissions *)

(** The lesser of the two. *)
Definition cap_role (effective : RepoRole) (override : option string) : RepoRole :=
  match override with
  | Some s => if rank (role_from_db_str s) <? rank effective then role_from_db_str s else effective
  | None => effective
  end.

Definition require_repo_permission (st : AuthState) (i : AgentIdentity) (repo : Uuid) (required : RepoRole) : Hd RepoRole :=
  if is_admin i then mret RoleOwner
  else if is_local st then mret RoleOwner
  else if bool_decide (ai_role_override i = Some "worker"%string) then
    if bool_decide (jwt_repo_scope i = Some repo) then
      match required with RoleAdmin | RoleOwner => fail AeForbidden | _ => mret RoleWrite end
    else fail AeForbidden
  else
    match ai_user_id i with
    | None => fail AeForbidden
    | Some user =>
        resolved ← ask (fun _ => AeInternal) (lookup_role user repo);
        match resolved with
        | None => fail AeForbidden
        | Some r =>
            let effective := cap_role r (ai_role_override i) in
            if rank effective <? rank required then fail AeForbidden else mret effective
        end
    end.

Definition require_server_admin (i : AgentIdentity) : Hd unit := if is_admin i then mret tt else fail AeForbidden.

(** ** Exchange of credentials *)

Record TokenRequest : Type := mkTokenRequest {
  grant_type : string; rq_session_token : option string; rq_api_key : option string; rq_repo_id : option Uuid
}.
Record TokenResponse : Type := mkTokenResponse {
  access_token : string; token_type : string; expires_in : Z; tr_refresh_token : option string
}.

Definition signed {A} (m : M AuthDb JwtError A) : Hd A := fun d =>
  let '(r, d') := m d in (map_err (fun _ => AeInternal) r, d').

Definition session_exchange (st : AuthState) (token : string) (repo_id : option Uuid) : Hd TokenResponse :=
  user_text ← ask (or_not_found AeUnauthorized) (validate_session token);
  match parse_uuid user_text with
  | None => fail AeUnauthorized
  | Some user_uuid =>
      user ← ask (or_not_found AeUnauthorized) (get_user user_uuid);
      _ ← attempt (get_or_create_personal_org (us_id user) (us_name user));
      role ← (match repo_id with
              | Some repo => r ← ask api_error (lookup_role (us_id user) repo); mret (role_as_str <$> r)
              | None => mret None
              end);
      access ← signed (sign (jwt_service st) (us_id user) (Some (us_name user)) repo_id role);
      t ← ask api_error now;
      refresh ← ask api_error (create_refresh_token (us_id user) (t + 604800 * SECOND)%Z);
      mret (mkTokenResponse access "Bearer" (access_token_ttl (jwt_service st)) (Some refresh))
  end.

Definition key_exchange (st : AuthState) (key : string) (repo_id : option Uuid) : Hd TokenResponse :=
  c ← (if String.eqb key (admin_key st) then mret ("admin", "admin", Some "admin")%string
       else
         meta ← ask (or_not_found AeUnauthorized) (validate_key key);
         mret (default (ak_id meta) (ak_user_id meta), ak_name meta, role_override meta));
  let '(subject, name, role) := c in
  access ← signed (sign (jwt_service st) subject (Some name) repo_id role);
  mret (mkTokenResponse access "Bearer" (access_token_ttl (jwt_service st)) None).

Definition token_exchange_handler (st : AuthState) (body : TokenRequest) : Hd TokenResponse :=
  if String.eqb (grant_type body) "session_exchange" then
    match rq_session_token body with None => fail AeBadRequest | Some t => session_exchange st t (rq_repo_id body) end
  else if String.eqb (grant_type body) "api_key" then
    match rq_api_key body with None => fail AeBadRequest | Some k => key_exchange st k (rq_repo_id body) end
  else fail AeBadRequest.

Definition refresh_token_handler (st : AuthState) (refresh_token : string) : Hd TokenResponse :=
  user ← ask (or_not_found AeUnauthorized) (validate_refresh_token refresh_token);
  row ← attempt (get_user user);
  access ← signed (sign (jwt_service st) user (us_name <$> row) None None);
  mret (mkTokenResponse access "Bearer" (access_token_ttl (jwt_service st)) None).

Definition revoke_token_handler (refresh_token : string) : Hd unit :=
  ask (or_not_found AeUnauthorized) (revoke_refresh_token refresh_token).

(** ** Device codes *)

Record DeviceCodeResponse : Type := mkDeviceCode { dc_code : string; verification_url : string; poll_interval : nat }.
Record DeviceCodeStatusResponse : Type := mkDeviceStatus {
  ds_status : string; ds_api_key : option string; ds_user_id : option string; ds_user_email : option string
}.

(** [dashboard_url] is what the environment configures. *)
Definition create_device_code_handler (dashboard_url : string) : Hd DeviceCodeResponse :=
  code ← ask api_error create_device_code;
  mret (mkDeviceCode code (dashboard_url +:+ "/cli") 3).

Definition poll_device_code_handler (code : string) : Hd DeviceCodeStatusResponse :=
  status ← ask (or_not_found AeNotFound) (poll_device_code code);
  mret (match status with
        | DvPending => mkDeviceStatus "pending" None None None
        | DvExpired => mkDeviceStatus "expired" None None None
        | DvAuthorized key user email => mkDeviceStatus "authorized" (Some key) (Some user) (Some email)
        end).

Definition authorize_device_code_handler (i : AgentIdentity) (code : string) : Hd unit :=
  match ai_user_id i with
  | None => fail AeUnauthorized
  | Some user =>
      made ← ask api_error (create_key None "CLI (device code)" (Some user) (Some "write"%string) (Some "cli"%string) None);
      ask (or_not_found AeNotFound) (authorize_device_code code user made.2)
  end.
End server.
