(* ===== verification/AuthAdmin.v ===== *)
(** Administration of the hosted server ([src/src/server/admin.rs]): organizations, users,
    members, repositories, collaborators and API keys, each handler with its guards; and
    the requests of the server as the steps of a state machine. *)
From S2P Require Import Prelude Table RustStr EventLog Auth AuthKeys AuthServer.

Record CreateKeyRequest : Type := mkCreateKey {
  ck_name : string; ck_repo_id : option Uuid; ck_role_override : option string; ck_agent_type : option string;
  ck_expires_at : option DateTime; for_user_id : option Uuid
}.
Record MeResponse : Type := mkMe { me_user_id : string; me_email : option string; me_role : string; auth_type : string }.
Record RepoResponse : Type := mkRepoResponse {
  rr_id : Uuid; rr_name : string; rr_path : option string; rr_created_at : DateTime; head_version : string;
  workspace_count : nat
}.

Section admin.
Context `{AuthEnv, JwtLib, Unicode}.
Variable st : AuthState.

Abbreviation Hd := (M AuthDb ApiError).
Abbreviation db := (ask api_error).

(** Slugs of organizations and names of repositories. *)
Definition plain_name (s : string) : bool :=
  negb (String.eqb s EmptyString) &&
  forallb (fun c => is_alphanumeric c || String.eqb c "-" || String.eqb c "_") (chars s).

(** *** Organizations and users *)

Definition create_org_handler (i : AgentIdentity) (name slug : string) : Hd Organization :=
  _ ← require_server_admin i;
  if plain_name slug then db (create_org name slug) else fail AeBadRequest.

Definition list_orgs_handler (i : AgentIdentity) : Hd (list Organization) := _ ← require_server_admin i; db list_orgs.
Definition get_org_handler (i : AgentIdentity) (slug : string) : Hd Organization :=
  _ ← require_server_admin i; db (get_org_by_slug slug).
Definition delete_org_handler (i : AgentIdentity) (slug : string) : Hd unit :=
  _ ← require_server_admin i;
  org ← db (get_org_by_slug slug);
  db (delete_org (og_id org)).

Definition create_user_handler (i : AgentIdentity) (email name : string) : Hd User :=
  _ ← require_server_admin i;
  user ← db (create_user email name);
  _ ← attempt (get_or_create_personal_org (us_id user) (us_name user));
  mret user.

Definition get_user_handler (i : AgentIdentity) (user_ref : string) : Hd User :=
  _ ← require_server_admin i;
  match parse_uuid user_ref with Some id => db (get_user id) | None => db (get_user_by_email user_ref) end.

Definition get_me_handler (i : AgentIdentity) (repo : Uuid) : Hd MeResponse :=
  let ty := match auth_source i with SrcJwt => "jwt" | _ => "api_key" end%string in
  if is_admin i then mret (mkMe "admin" None "admin" ty)
  else
    match ai_user_id i with
    | Some uid =>
        user ← ask (fun _ => AeInternal) (get_user uid);
        resolved ← ask (fun _ => AeInternal) (lookup_role uid repo);
        match resolved with
        | None => fail AeForbidden
        | Some r => mret (mkMe uid (Some (us_email user)) (role_as_str (cap_role r (ai_role_override i))) ty)
        end
    | None => mret (mkMe (ai_key_id i) None "owner" ty)
    end.

(** *** Members *)

Definition parse_org_role (s : string) : Hd OrgRole :=
  if String.eqb s "owner" then mret OrgOwner else if String.eqb s "admin" then mret OrgAdmin
  else if String.eqb s "member" then mret OrgMember_ else fail AeBadRequest.

Definition list_org_members_handler (i : AgentIdentity) (slug : string) : Hd (list MemberRow) :=
  _ ← require_server_admin i;
  org ← db (get_org_by_slug slug);
  db (list_org_members (og_id org)).
Definition add_org_member_handler (i : AgentIdentity) (slug : string) (user : Uuid) (role : string) : Hd MemberRow :=
  _ ← require_server_admin i;
  r ← parse_org_role role;
  org ← db (get_org_by_slug slug);
  db (add_org_member (og_id org) user r).
Definition update_org_member_handler (i : AgentIdentity) (slug : string) (user : Uuid) (role : string) : Hd MemberRow :=
  _ ← require_server_admin i;
  r ← parse_org_role role;
  org ← db (get_org_by_slug slug);
  db (update_org_member (og_id org) user r).
Definition remove_org_member_handler (i : AgentIdentity) (slug : string) (user : Uuid) : Hd unit :=
  _ ← require_server_admin i;
  org ← db (get_org_by_slug slug);
  db (remove_org_member (og_id org) user).

(** *** Collaborators *)

Definition parse_repo_role (s : string) : Hd RepoRole :=
  if String.eqb s "owner" then mret RoleOwner else if String.eqb s "admin" then mret RoleAdmin
  else if String.eqb s "write" then mret RoleWrite else if String.eqb s "read" then mret RoleRead else fail AeBadRequest.

Definition repo_in_org (org_slug repo_name : string) : Hd Uuid :=
  org ← db (get_org_by_slug org_slug);
  db (get_repo_id_in_org (og_id org) repo_name).

(** [Write] is enough to add a collaborator, of any role. *)
Definition add_collaborator_handler (i : AgentIdentity) (org_slug repo_name : string) (user : Uuid) (role : string) :
    Hd CollabRow :=
  r ← parse_repo_role role;
  repo ← repo_in_org org_slug repo_name;
  _ ← require_repo_permission st i repo RoleWrite;
  db (add_collaborator repo user r).
Definition list_collaborators_handler (i : AgentIdentity) (org_slug repo_name : string) : Hd (list CollabRow) :=
  repo ← repo_in_org org_slug repo_name;
  _ ← require_repo_permission st i repo RoleRead;
  db (list_collaborators repo).
Definition update_collaborator_handler (i : AgentIdentity) (org_slug repo_name : string) (user : Uuid) (role : string) :
    Hd CollabRow :=
  r ← parse_repo_role role;
  repo ← repo_in_org org_slug repo_name;
  _ ← require_repo_permission st i repo RoleAdmin;
  db (update_collaborator repo user r).
Definition remove_collaborator_handler (i : AgentIdentity) (org_slug repo_name : string) (user : Uuid) : Hd unit :=
  repo ← repo_in_org org_slug repo_name;
  _ ← require_repo_permission st i repo RoleAdmin;
  db (remove_collaborator repo user).

(** *** Repositories *)

(** [EXISTS collaborator OR EXISTS member with owner or admin] *)
Definition visible (user : Uuid) (r : RepoRow) (d : AuthDb) : bool :=
  existsb (fun c => String.eqb (cb_repo c) (rp_id r) && String.eqb (cb_user c) user) (db_collabs d) ||
  existsb (fun m => bool_decide (rp_org r = Some (mb_org m)) && String.eqb (mb_user m) user &&
                    (String.eqb (mb_role m) "owner" || String.eqb (mb_role m) "admin")) (db_members d).

Definition repo_response (i : AgentIdentity) (storage_root : option string) (count : Uuid -> nat) (d : AuthDb) (r : RepoRow) :
    RepoResponse :=
  mkRepoResponse (rp_id r) (rp_name r)
    (if is_admin i then (fun root => root +:+ "/" +:+ rp_name r) <$> storage_root else None)
    (rp_created_at r) (default "v1"%string (db_heads d !! rp_id r)) (count (rp_id r)).

Definition list_repos_handler (i : AgentIdentity) (storage_root : option string) (count : Uuid -> nat) :
    Hd (list RepoResponse) :=
  d ← get_st;
  let rows := if is_admin i then db_repos d
              else match ai_user_id i with Some u => filter (fun r => visible u r d) (db_repos d) | None => [] end in
  mret (repo_response i storage_root count d <$> sort_by (fun a b => rp_created_at a <=? rp_created_at b)%Z rows).

Definition get_repo_handler (i : AgentIdentity) (name : string) (storage_root : option string) (count : Uuid -> nat) :
    Hd RepoResponse :=
  d ← get_st;
  let named := filter (fun r => rp_name r = name) (db_repos d) in
  let rows := if is_admin i then named
              else match ai_user_id i with Some u => filter (fun r => visible u r d) named | None => [] end in
  match rows with r :: _ => mret (repo_response i storage_root count d r) | [] => fail AeNotFound end.

(** The transaction that makes a repository: all of it or nothing. *)
Definition insert_repo (r : RepoRow) (seed : Uuid) (creator : option Uuid) (t : DateTime) : Hd unit :=
  d ← get_st;
  if bool_decide (is_Some (find_by rp_id (rp_id r) (db_repos d))) ||
     existsb (fun x => bool_decide (is_Some (rp_org r) /\ rp_org x = rp_org r) && String.eqb (rp_name x) (rp_name r)) (db_repos d)
  then fail AeConflict
  else if match creator with Some u => is_user u d | None => true end then
    put_st (set_repos (db_repos d ++ [r])
      (set_versions (db_versions d ++ [mkSeed seed (rp_id r) "v1" "initial repository" "system"])
        (set_heads (<[rp_id r := "v1"%string]> (db_heads d))
          (set_collabs (db_collabs d ++ match creator with Some u => [mkCollab (rp_id r) u "admin" t] | None => [] end) d))))
  else fail AeInternal.

(** The hosted branch: no file is written. *)
Definition create_repo_handler (i : AgentIdentity) (name : string) : Hd RepoResponse :=
  if negb (is_admin i) && bool_decide (ai_user_id i = None) then fail AeForbidden
  else if negb (multi_repo st) then fail AeBadRequest
  else if negb (plain_name name) then fail AeBadRequest
  else
    _ ← (match is_admin i, ai_user_id i with
         | false, Some u =>
             d ← get_st;
             let current := Z.of_nat (count_repos_owned_by_user u d) in
             if (max_repos_per_user st <=? current)%Z then fail (AeQuotaExceeded (max_repos_per_user st) current) else mret tt
         | _, _ => mret tt
         end);
    existing ← ask (fun _ => AeInternal) (get_repo_by_name name);
    match existing with
    | Some _ => fail AeConflict
    | None =>
        id ← db draw; created ← db now; seed ← db draw;
        org ← (match ai_user_id i with Some u => attempt (get_or_create_personal_org u (ai_name i)) | None => mret None end);
        t ← db now;
        _ ← insert_repo (mkRepoRow id name (og_id <$> org) created) seed (ai_user_id i) t;
        mret (mkRepoResponse id name None created "v1" 0)
    end.

(** *** API keys *)

Definition create_key_handler (i : AgentIdentity) (body : CreateKeyRequest) : Hd (ApiKey * string) :=
  user_id ← (if is_admin i then mret (for_user_id body)
             else match ai_user_id i with Some u => mret (Some u) | None => fail AeForbidden end);
  override ← (match ck_role_override body with
              | Some r =>
                  let parsed := role_from_db_str r in
                  _ ← (match is_admin i, ck_repo_id body with
                       | false, Some repo =>
                           effective ← require_repo_permission st i repo RoleRead;
                           if rank effective <? rank parsed then fail AeBadRequest else mret tt
                       | _, _ => mret tt
                       end);
                  mret (Some (role_as_str parsed))
              | None => mret None
              end);
  db (create_key (ck_repo_id body) (ck_name body) user_id override (ck_agent_type body) (ck_expires_at body)).

Definition list_keys_handler (i : AgentIdentity) : Hd (list ApiKey) :=
  if is_admin i then db (list_keys None)
  else match ai_user_id i with Some u => db (list_keys_by_user u) | None => fail AeForbidden end.

Definition revoke_key_handler (i : AgentIdentity) (key_id : string) : Hd unit :=
  _ ← (if is_admin i then mret tt
       else
         match ai_user_id i with
         | None => fail AeForbidden
         | Some u =>
             ks ← db (list_keys_by_user u);
             if existsb (fun k => String.eqb (ak_id k) key_id) ks then mret tt else fail AeForbidden
         end);
  db (revoke_key key_id).

Definition bulk_revoke_keys_handler (i : AgentIdentity) (repo_id created_by : option Uuid) : Hd nat :=
  if is_admin i then
    match repo_id, created_by with
    | Some repo, None => db (revoke_keys_by_repo repo)
    | None, Some user => db (revoke_keys_by_user user)
    | _, _ => fail AeBadRequest
    end
  else fail AeForbidden.
End admin.
