(* ===== verification/AuthSystem.v ===== *)
(** The accounts of the hosted server as a state machine: a request is authenticated and
    handled, whoever sends it; what the tables keep true under every request. *)
From S2P Require Import Prelude Table RustStr EventLog Auth AuthKeys AuthServer AuthAdmin.

(** The private requests, which need an identity. *)
Inductive Action : Type :=
  | AcAuthorizeDevice (code : string)
  | AcMe (repo : Uuid)
  | AcCreateOrg (name slug : string)
  | AcDeleteOrg (slug : string)
  | AcCreateUser (email name : string)
  | AcAddMember (slug : string) (user : Uuid) (role : string)
  | AcUpdateMember (slug : string) (user : Uuid) (role : string)
  | AcRemoveMember (slug : string) (user : Uuid)
  | AcAddCollaborator (org repo : string) (user : Uuid) (role : string)
  | AcUpdateCollaborator (org repo : string) (user : Uuid) (role : string)
  | AcRemoveCollaborator (org repo : string) (user : Uuid)
  | AcCreateRepo (name : string)
  | AcCreateKey (body : CreateKeyRequest)
  | AcRevokeKey (id : string)
  | AcBulkRevoke (repo created_by : option Uuid).

(** All requests; a private one says whether it asks for a WebSocket and carries its
    [Authorization] header. *)
Inductive Request : Type :=
  | RqToken (body : TokenRequest)
  | RqRefresh (token : string)
  | RqRevokeToken (token : string)
  | RqDevice (dashboard_url : string)
  | RqPoll (code : string)
  | RqPrivate (ws_upgrade : bool) (authorization : option string) (a : Action).

Lemma Forall_filter_keep {A} (P Q : A -> Prop) `{!forall x, Decision (P x)} l : Forall Q l -> Forall Q (filter P l).
Proof. rewrite !Forall_forall. intros HQ x [_ Hx]%list_elem_of_filter. auto. Qed.

Lemma fmap_keeps {A B} (key : A -> B) (f : A -> A) (l : list A) : (forall x, key (f x) = key x) -> key <$> (f <$> l) = key <$> l.
Proof. intros Hf. rewrite <-list_fmap_compose. apply list_fmap_ext. intros i x _. apply Hf. Qed.

(** A column can only lose values when each row keeps or loses its own. *)
Lemma omap_map_loses {A B} (g : A -> option B) f (l : list A) :
  (forall x, g (f x) = None \/ g (f x) = g x) -> omap g (f <$> l) `sublist_of` omap g l.
Proof.
  intros Hf. induction l as [|x l IH]; [done|]. simpl. destruct (Hf x) as [Hx|Hx]; rewrite Hx.
  - destruct (g x); [by apply sublist_cons|done].
  - destruct (g x); [by apply sublist_skip|done].
Qed.

Section system.
Context `{AuthEnv, JwtLib, Unicode}.
Variable st : AuthState.

Abbreviation Hd := (M AuthDb ApiError).

Definition quietly_done {A} (m : Hd A) : Hd unit := _ ← m; mret tt.

Definition handle (i : AgentIdentity) (a : Action) : Hd unit :=
  match a with
  | AcAuthorizeDevice code => authorize_device_code_handler i code
  | AcMe repo => quietly_done (get_me_handler i repo)
  | AcCreateOrg name slug => quietly_done (create_org_handler i name slug)
  | AcDeleteOrg slug => delete_org_handler i slug
  | AcCreateUser email name => quietly_done (create_user_handler i email name)
  | AcAddMember slug user role => quietly_done (add_org_member_handler i slug user role)
  | AcUpdateMember slug user role => quietly_done (update_org_member_handler i slug user role)
  | AcRemoveMember slug user => remove_org_member_handler i slug user
  | AcAddCollaborator org repo user role => quietly_done (add_collaborator_handler st i org repo user role)
  | AcUpdateCollaborator org repo user role => quietly_done (update_collaborator_handler st i org repo user role)
  | AcRemoveCollaborator org repo user => remove_collaborator_handler st i org repo user
  | AcCreateRepo name => quietly_done (create_repo_handler st i name)
  | AcCreateKey body => quietly_done (create_key_handler st i body)
  | AcRevokeKey id => revoke_key_handler i id
  | AcBulkRevoke repo by_user => quietly_done (bulk_revoke_keys_handler i repo by_user)
  end.

(** A private handler extracts the identity; a request that has none fails. *)
Definition serve (rq : Request) : Hd unit :=
  match rq with
  | RqToken body => quietly_done (token_exchange_handler st body)
  | RqRefresh token => quietly_done (refresh_token_handler st token)
  | RqRevokeToken token => revoke_token_handler token
  | RqDevice url => quietly_done (create_device_code_handler url)
  | RqPoll code => quietly_done (poll_device_code_handler code)
  | RqPrivate ws header a =>
      i ← auth_middleware st ws header;
      match i with Some i => handle i a | None => fail AeInternal end
  end.

(** One request after another; replies do not matter to the tables. *)
Definition run_requests (l : list Request) (d : AuthDb) : AuthDb := foldl (fun d rq => (serve rq d).2) d l.

(** ** What the tables keep true *)

Definition org_ref (d : AuthDb) (id : Uuid) : Prop := id ∈ og_id <$> db_orgs d.
Definition user_ref (d : AuthDb) (id : Uuid) : Prop := id ∈ us_id <$> db_users d.
Definition repo_ref (d : AuthDb) (id : Uuid) : Prop := id ∈ rp_id <$> db_repos d.
Definition repo_role_text (s : string) : Prop := exists r, s = role_as_str r.
Definition org_role_text (s : string) : Prop := exists r, s = org_role_as_str r.

Definition member_ok (d : AuthDb) (m : MemberRow) : Prop :=
  org_ref d (mb_org m) /\ user_ref d (mb_user m) /\ org_role_text (mb_role m).
Definition collab_ok (d : AuthDb) (c : CollabRow) : Prop :=
  repo_ref d (cb_repo c) /\ user_ref d (cb_user c) /\ repo_role_text (cb_role c).
Definition key_ok (d : AuthDb) (r : KeyRow) : Prop :=
  from_option (user_ref d) True (ak_user_id (kr_key r)) /\ from_option (repo_ref d) True (kr_repo r) /\
  from_option repo_role_text True (role_override (kr_key r)).
(** A code that has a key has the user who authorised it. *)
Definition device_ok (d : AuthDb) (v : DeviceRow) : Prop :=
  is_Some (dv_key v) -> exists u, dv_user v = Some u /\ user_ref d u.

(** The name an active key of a user has among that user's keys. *)
Definition active_name (r : KeyRow) : option (Uuid * string) :=
  if revoked (kr_key r) then None else (fun u => (u, ak_name (kr_key r))) <$> ak_user_id (kr_key r).

Record db_ok (d : AuthDb) : Prop := mkDbOk {
  ok_orgs : NoDup (og_id <$> db_orgs d);
  ok_slugs : NoDup (og_slug <$> db_orgs d);
  ok_users : NoDup (us_id <$> db_users d);
  ok_emails : NoDup (us_email <$> db_users d);
  ok_members : NoDup (member_key <$> db_members d);
  ok_member_rows : Forall (member_ok d) (db_members d);
  ok_repos : NoDup (rp_id <$> db_repos d);
  ok_repo_names : NoDup (rp_name <$> db_repos d);
  ok_heads : forall id, repo_ref d id <-> is_Some (db_heads d !! id);
  ok_collabs : NoDup (collab_key <$> db_collabs d);
  ok_collab_rows : Forall (collab_ok d) (db_collabs d);
  ok_keys : NoDup (kr_id <$> db_keys d);
  ok_hashes : NoDup (kr_hash <$> db_keys d);
  ok_active : NoDup (omap active_name (db_keys d));
  ok_key_rows : Forall (key_ok d) (db_keys d);
  ok_refresh : NoDup (rf_hash <$> db_refresh d);
  ok_refresh_rows : Forall (fun r => user_ref d (rf_user r)) (db_refresh d);
  ok_codes : NoDup (dv_code <$> db_devices d);
  ok_device_rows : Forall (device_ok d) (db_devices d)
}.

(** *** Each table at a time *)

Lemma is_user_ref u d : is_user u d = true <-> user_ref d u.
Proof.
  unfold is_user, user_ref. rewrite existsb_exists, list_elem_of_fmap. setoid_rewrite <-list_elem_of_In.
  split; intros (x & Hx & He); exists x; [apply String.eqb_eq in He|rewrite String.eqb_eq]; auto.
Qed.

Ltac keep_tables := intros []; constructor; simpl; auto.

Lemma ok_set_ticks n d : db_ok d -> db_ok (set_ticks n d).
Proof. keep_tables. Qed.
Lemma ok_set_draws n d : db_ok d -> db_ok (set_draws n d).
Proof. keep_tables. Qed.
Lemma ok_set_last_used x d : db_ok d -> db_ok (set_last_used x d).
Proof. keep_tables. Qed.

Lemma ok_add_org o d :
  find_by og_slug (og_slug o) (db_orgs d) = None -> find_by og_id (og_id o) (db_orgs d) = None ->
  db_ok d -> db_ok (set_orgs (db_orgs d ++ [o]) d).
Proof.
  intros Hs Hi. keep_tables; [by apply snoc_keys_NoDup..|].
  eapply Forall_impl; [done|]. intros m (Ho & Hu & Hr). split_and!; [|done..].
  unfold org_ref. simpl. rewrite fmap_app. apply elem_of_app. by left.
Qed.

Lemma user_ref_app u d x : user_ref d u -> user_ref (set_users (db_users d ++ [x]) d) u.
Proof. unfold user_ref. simpl. rewrite fmap_app, elem_of_app. by left. Qed.

Lemma ok_add_user x d :
  find_by us_email (us_email x) (db_users d) = None -> find_by us_id (us_id x) (db_users d) = None ->
  db_ok d -> db_ok (set_users (db_users d ++ [x]) d).
Proof.
  intros He Hi. keep_tables; [by apply snoc_keys_NoDup..| | | | |]; (eapply Forall_impl; [done|]).
  - intros m (Ho & Hu & Hr). split_and!; [done| |done]. by apply user_ref_app.
  - intros c (Ho & Hu & Hr). split_and!; [done| |done]. by apply user_ref_app.
  - intros r (Hu & Hp & Hr). split_and!; [|done..]. destruct (ak_user_id (kr_key r)); [|done]. by apply user_ref_app.
  - intros r Hu. by apply user_ref_app.
  - intros v Hv Hk. destruct (Hv Hk) as (u & Hu & Hr). exists u. split; [done|]. by apply user_ref_app.
Qed.

Lemma ok_add_member m d :
  find_by member_key (member_key m) (db_members d) = None -> member_ok d m ->
  db_ok d -> db_ok (set_members (db_members d ++ [m]) d).
Proof.
  intros Hn Hm. keep_tables; [by apply snoc_keys_NoDup|]. apply Forall_app. split; [done|]. by constructor.
Qed.

Lemma ok_replace_member k m d :
  member_key m = k -> member_ok d m -> db_ok d ->
  db_ok (set_members (update_by member_key k (fun _ => m) (db_members d)) d).
Proof.
  intros Hk Hm. keep_tables.
  - rewrite update_by_keys; [done|]. by intros x ->.
  - apply update_by_Forall; [done|]. by intros.
Qed.

Lemma ok_filter_members (P : MemberRow -> Prop) `{!forall m, Decision (P m)} d :
  db_ok d -> db_ok (set_members (filter P (db_members d)) d).
Proof. keep_tables; [by apply filter_keys_NoDup|]. by apply Forall_filter_keep. Qed.

Lemma ok_delete_org id d :
  db_ok d ->
  db_ok (set_orgs (filter (fun o => og_id o <> id) (db_orgs d))
    (set_members (filter (fun m => mb_org m <> id) (db_members d)) d)).
Proof.
  keep_tables; [by apply filter_keys_NoDup..|].
  apply Forall_forall. intros m [Hm Hin]%list_elem_of_filter.
  destruct (proj1 (Forall_forall _ _) ok_member_rows0 m Hin) as (Ho & Hu & Hr). split_and!; [|done..].
  apply list_elem_of_fmap in Ho as (o & Ho & Hino). apply list_elem_of_fmap. exists o. split; [done|].
  apply list_elem_of_filter. split; [by rewrite <-Ho|done].
Qed.

Lemma ok_add_collab c d :
  find_by collab_key (collab_key c) (db_collabs d) = None -> collab_ok d c ->
  db_ok d -> db_ok (set_collabs (db_collabs d ++ [c]) d).
Proof.
  intros Hn Hm. keep_tables; [by apply snoc_keys_NoDup|]. apply Forall_app. split; [done|]. by constructor.
Qed.

Lemma ok_replace_collab k c d :
  collab_key c = k -> collab_ok d c -> db_ok d ->
  db_ok (set_collabs (update_by collab_key k (fun _ => c) (db_collabs d)) d).
Proof.
  intros Hk Hm. keep_tables.
  - rewrite update_by_keys; [done|]. by intros x ->.
  - apply update_by_Forall; [done|]. by intros.
Qed.

Lemma ok_filter_collabs (P : CollabRow -> Prop) `{!forall m, Decision (P m)} d :
  db_ok d -> db_ok (set_collabs (filter P (db_collabs d)) d).
Proof. keep_tables; [by apply filter_keys_NoDup|]. by apply Forall_filter_keep. Qed.

(** A repository comes with its head and, when a user makes it, with a collaborator. *)
Lemma ok_insert_repo r seed creator t d :
  find_by rp_id (rp_id r) (db_repos d) = None -> find_by rp_name (rp_name r) (db_repos d) = None ->
  from_option (user_ref d) True creator -> db_ok d ->
  db_ok (set_repos (db_repos d ++ [r])
    (set_versions (db_versions d ++ [seed])
      (set_heads (<[rp_id r := "v1"%string]> (db_heads d))
        (set_collabs (db_collabs d ++ match creator with Some u => [mkCollab (rp_id r) u "admin" t] | None => [] end) d)))).
Proof.
  intros Hi Hn Hc Hok.
  assert (forall d', db_repos d' = db_repos d ++ [r] -> forall id, repo_ref d id -> repo_ref d' id) as Hup.
  { unfold repo_ref. intros d' -> id Hid. rewrite fmap_app. apply elem_of_app. by left. }
  destruct Hok. constructor; simpl; try assumption; [by apply snoc_keys_NoDup..| | | |].
  - intros id. unfold repo_ref. simpl. rewrite fmap_app. rewrite elem_of_app.
    destruct (decide (id = rp_id r)) as [->|Hne].
    + rewrite lookup_insert_eq. split; [done|]. intros _. right. by apply list_elem_of_singleton.
    + rewrite lookup_insert_ne by done. rewrite <-ok_heads0. split; [|by left].
      intros [?|?%list_elem_of_singleton]; done.
  - destruct creator as [u|]; [|by rewrite app_nil_r]. apply snoc_keys_NoDup; [done|].
    apply find_by_None. intros (c & Hk & Hin)%list_elem_of_fmap.
    destruct (proj1 (Forall_forall _ _) ok_collab_rows0 c Hin) as (Hr & _ & _).
    injection Hk as Hk _. apply find_by_None in Hi. apply Hi. by rewrite Hk.
  - apply Forall_app. split.
    + eapply Forall_impl; [done|]. intros c (Hr & Hu & Ht). split_and!; [by apply Hup|done..].
    + destruct creator as [u|]; [|done]. constructor; [|done]. split_and!; [|done|by exists RoleAdmin].
      unfold repo_ref. simpl. rewrite fmap_app. apply elem_of_app. right. by left.
  - eapply Forall_impl; [done|]. intros x (Hu & Hp & Ht). split_and!; [done| |done].
    destruct (kr_repo x); [|done]. by apply Hup.
Qed.

(** *** Keys *)

(** A change of rows one by one that at most takes keys out of use. *)
Lemma ok_map_keys (f : KeyRow -> KeyRow) d :
  (forall r, kr_id (f r) = kr_id r /\ kr_hash (f r) = kr_hash r /\ kr_repo (f r) = kr_repo r /\
             ak_user_id (kr_key (f r)) = ak_user_id (kr_key r) /\ role_override (kr_key (f r)) = role_override (kr_key r) /\
             (active_name (f r) = None \/ active_name (f r) = active_name r)) ->
  db_ok d -> db_ok (set_keys (f <$> db_keys d) d).
Proof.
  intros Hf. keep_tables.
  - rewrite fmap_keeps; [done|]. intros r. apply Hf.
  - rewrite fmap_keeps; [done|]. intros r. apply Hf.
  - eapply sublist_NoDup; [done|]. apply omap_map_loses. intros r. apply Hf.
  - apply Forall_fmap. eapply Forall_impl; [done|]. intros r (Hu & Hp & Hr). unfold key_ok. simpl.
    destruct (Hf r) as (_ & _ & -> & -> & -> & _). done.
Qed.

Lemma update_by_fmap {A K} `{EqDecision K} (key : A -> K) k f l :
  update_by key k f l = (fun x => if decide (key x = k) then f x else x) <$> l.
Proof. done. Qed.

Lemma ok_add_key r d :
  key_row_fits r d = true -> from_option repo_role_text True (role_override (kr_key r)) ->
  from_option (fun n => n ∉ omap active_name (db_keys d)) True (active_name r) ->
  db_ok d -> db_ok (set_keys (db_keys d ++ [r]) d).
Proof.
  unfold key_row_fits. intros Hfit Hrole Hact.
  apply andb_true_iff in Hfit as [[[Hi%bool_decide_eq_true_1 Hh%bool_decide_eq_true_1]%andb_true_iff Hu]%andb_true_iff Hp].
  keep_tables; [by apply snoc_keys_NoDup..| |].
  - rewrite omap_app. apply NoDup_app. split; [done|]. simpl. destruct (active_name r) as [n|]; simpl in *.
    + split; [|apply NoDup_singleton]. by intros x Hx ->%list_elem_of_singleton.
    + split; [|constructor]. by intros x Hx ?%elem_of_nil.
  - apply Forall_app. split; [done|]. constructor; [|done]. split_and!; [| |done].
    + destruct (ak_user_id (kr_key r)) as [u|]; [|done]. by apply is_user_ref.
    + destruct (kr_repo r) as [p|]; [|done]. apply bool_decide_eq_true_1 in Hp as [x Hx].
      apply find_by_Some in Hx as [Hx <-]. by apply list_elem_of_fmap_2.
Qed.

(** A key that is rotated keeps its row: another hash, which no other key has. *)
Lemma ok_rotate r r' d :
  r ∈ db_keys d -> kr_id r' = kr_id r -> kr_repo r' = kr_repo r -> active_name r' = active_name r ->
  ak_user_id (kr_key r') = ak_user_id (kr_key r) -> from_option repo_role_text True (role_override (kr_key r')) ->
  (forall x, x ∈ db_keys d -> kr_hash x = kr_hash r' -> kr_id x = kr_id r) ->
  db_ok d -> db_ok (set_keys (update_by kr_id (kr_id r) (fun _ => r') (db_keys d)) d).
Proof.
  intros Hin Hi Hp Ha Hu Hr Hh Hok.
  pose proof (update_by_split kr_id _ _ _ (ok_keys d Hok)
                (find_by_elem kr_id _ _ _ (ok_keys d Hok) Hin eq_refl)) as (l1 & l2 & Hl & Hup).
  pose proof (proj1 (Forall_forall _ _) (ok_key_rows d Hok) r Hin) as (Hur & Hpr & _).
  destruct Hok. constructor; simpl; try assumption; rewrite ?Hup.
  - rewrite Hl in ok_keys0. rewrite fmap_app, fmap_cons, Hi in *. done.
  - rewrite Hl in ok_hashes0, ok_keys0. rewrite !fmap_app, !fmap_cons in *.
    rewrite NoDup_app, NoDup_cons in *. destruct ok_hashes0 as (Hn1 & Hd1 & Hn2 & Hn3).
    assert (forall x, x ∈ l1 ++ l2 -> kr_hash x <> kr_hash r') as Hne.
    { intros x Hx He. assert (kr_id x = kr_id r) as Hid.
      { apply Hh; [|done]. rewrite Hl, elem_of_app, elem_of_cons in *. clear -Hx. tauto. }
      destruct ok_keys0 as (_ & Hd & Hn & _). apply elem_of_app in Hx as [Hx|Hx].
      - apply (Hd (kr_id x)); [by apply list_elem_of_fmap_2|]. rewrite Hid. by left.
      - apply Hn. rewrite <-Hid. by apply list_elem_of_fmap_2. }
    split_and!; [done| | |done].
    + intros h Hh1 [->|Hh2]%elem_of_cons.
      * apply list_elem_of_fmap in Hh1 as (x & He & Hx). apply (Hne x); [|done]. apply elem_of_app. by left.
      * apply (Hd1 h); [done|]. by right.
    + intros (x & He & Hx)%list_elem_of_fmap. apply (Hne x); [|done]. apply elem_of_app. by right.
  - rewrite Hl in ok_active0. rewrite omap_app in *. simpl in *. by rewrite Ha.
  - rewrite Hl in ok_key_rows0. rewrite Forall_app, Forall_cons in *. destruct ok_key_rows0 as (H1' & _ & H2').
    split_and!; [done| |done]. split_and!; [by rewrite Hu|by rewrite Hp|done].
Qed.

(** *** Refresh tokens and device codes *)

Lemma ok_add_refresh r d :
  find_by rf_hash (rf_hash r) (db_refresh d) = None -> user_ref d (rf_user r) ->
  db_ok d -> db_ok (set_refresh (db_refresh d ++ [r]) d).
Proof.
  intros Hn Hu. keep_tables; [by apply snoc_keys_NoDup|]. apply Forall_app. split; [done|]. by constructor.
Qed.

Lemma ok_map_refresh (f : RefreshRow -> RefreshRow) d :
  (forall r, rf_hash (f r) = rf_hash r /\ rf_user (f r) = rf_user r) -> db_ok d -> db_ok (set_refresh (f <$> db_refresh d) d).
Proof.
  intros Hf. keep_tables.
  - rewrite fmap_keeps; [done|]. intros r. apply Hf.
  - apply Forall_fmap. eapply Forall_impl; [done|]. intros r Hu. simpl. destruct (Hf r) as [_ ->]. done.
Qed.

Lemma ok_add_device v d :
  find_by dv_code (dv_code v) (db_devices d) = None -> dv_key v = None ->
  db_ok d -> db_ok (set_devices (db_devices d ++ [v]) d).
Proof.
  intros Hn Hk. keep_tables; [by apply snoc_keys_NoDup|]. apply Forall_app. split; [done|]. constructor; [|done].
  intros Hs. rewrite Hk in Hs. by apply is_Some_None in Hs.
Qed.

Lemma ok_filter_devices (P : DeviceRow -> Prop) `{!forall m, Decision (P m)} d :
  db_ok d -> db_ok (set_devices (filter P (db_devices d)) d).
Proof. keep_tables; [by apply filter_keys_NoDup|]. by apply Forall_filter_keep. Qed.

Lemma ok_map_devices (f : DeviceRow -> DeviceRow) d :
  (forall v, dv_code (f v) = dv_code v /\ (device_ok d v -> device_ok d (f v))) ->
  db_ok d -> db_ok (set_devices (f <$> db_devices d) d).
Proof.
  intros Hf. keep_tables.
  - rewrite fmap_keeps; [done|]. intros r. apply Hf.
  - apply Forall_fmap. eapply Forall_impl; [done|]. intros v Hv. apply (proj2 (Hf v) Hv).
Qed.

(** ** Every call keeps the tables, and a revoked key revoked *)

(** A revoked row keeps its hash: no other row can take it. *)
Definition dead (d : AuthDb) (id hash : string) : Prop :=
  exists r, r ∈ db_keys d /\ kr_id r = id /\ kr_hash r = hash /\ revoked (kr_key r) = true.

(** The hashes of refresh tokens are those of the texts that are drawn. *)
Definition drawn_token (n : nat) : string := String.substring 0 64 (random_go 64 64 EmptyString n).1.
Definition made_refresh (d d' : AuthDb) : Prop :=
  forall h, h ∈ rf_hash <$> db_refresh d' -> h ∈ rf_hash <$> db_refresh d \/ exists n, h = hash_token (drawn_token n).

Definition safe_step (d d' : AuthDb) : Prop :=
  db_ok d -> db_ok d' /\ (forall id h, dead d id h -> dead d' id h) /\ made_refresh d d'.
Definition keeps {E A} (m : M AuthDb E A) : Prop := forall d, safe_step d (m d).2.

Lemma safe_refl d : safe_step d d.
Proof. intros Hok. split_and!; [done..|]. by left. Qed.
Lemma safe_trans d1 d2 d3 : safe_step d1 d2 -> safe_step d2 d3 -> safe_step d1 d3.
Proof.
  intros H12 H23 Hok. destruct (H12 Hok) as (Hok2 & Hd & Hr). destruct (H23 Hok2) as (Hok3 & Hd3 & Hr3).
  split_and!; [done|by auto|]. intros h [Hh|Hh]%Hr3; [by apply Hr|by right].
Qed.
(** Keys and refresh tokens that are not touched stay as they are. *)
Lemma safe_tables d d' :
  db_keys d' = db_keys d -> db_refresh d' = db_refresh d -> (db_ok d -> db_ok d') -> safe_step d d'.
Proof.
  intros Hk Hr Hok H'. split_and!; [by auto| |].
  - unfold dead. by rewrite Hk.
  - intros h. rewrite Hr. by left.
Qed.
Lemma safe_keys x d :
  (db_ok d -> db_ok (set_keys x d) /\ forall id h, dead d id h -> dead (set_keys x d) id h) -> safe_step d (set_keys x d).
Proof. intros Hk Hok. destruct (Hk Hok). split_and!; [done..|]. by left. Qed.

Lemma safe_bind {E A B} (m : M AuthDb E A) (f : A -> M AuthDb E B) d :
  safe_step d (m d).2 -> (forall a d', m d = (Ok a, d') -> safe_step d' (f a d').2) -> safe_step d ((m ≫= f) d).2.
Proof.
  unfold mbind, M_bind. intros Hm Hf. destruct (m d) as [[a|e|] d'] eqn:E1; simpl in *; [|done..].
  eapply safe_trans; [done|]. by apply Hf.
Qed.
Lemma keeps_bind {E A B} (m : M AuthDb E A) (f : A -> M AuthDb E B) :
  keeps m -> (forall a, keeps (f a)) -> keeps (m ≫= f).
Proof. intros Hm Hf d. apply safe_bind; [done|]. intros. apply Hf. Qed.
Lemma keeps_ret {E A} (a : A) : keeps (E := E) (mret a).
Proof. intros d. apply safe_refl. Qed.
Lemma keeps_fail {E A} (e : E) : keeps (A := A) (fail e).
Proof. intros d. apply safe_refl. Qed.
Lemma keeps_get {E} : keeps (E := E) get_st.
Proof. intros d. apply safe_refl. Qed.
Lemma keeps_lift {E A} (o : outcome E A) : keeps (lift o).
Proof. intros d. apply safe_refl. Qed.
(** Reading the tables first. *)
Lemma safe_get {E B} (f : AuthDb -> M AuthDb E B) d : safe_step d (f d d).2 -> safe_step d ((get_st ≫= f) d).2.
Proof. done. Qed.
Lemma safe_lift {E A B} (o : outcome E A) (f : A -> M AuthDb E B) d :
  (forall a, o = Ok a -> safe_step d (f a d).2) -> safe_step d ((lift o ≫= f) d).2.
Proof. intros Hf. apply safe_bind; [apply safe_refl|]. intros a d' [= -> <-]. auto. Qed.
Lemma safe_put {E B} (f : unit -> M AuthDb E B) d d' :
  safe_step d d' -> (forall x, keeps (f x)) -> safe_step d ((put_st d' ≫= f) d).2.
Proof. intros Hd Hf. apply safe_bind; [done|]. intros [] ? [= <-]. apply Hf. Qed.

Lemma keeps_now : keeps now.
Proof. intros d. apply safe_tables; [done..|]. apply ok_set_ticks. Qed.
Lemma keeps_draw : keeps draw.
Proof. intros d. apply safe_tables; [done..|]. apply ok_set_draws. Qed.
Lemma keeps_random_token n : keeps (random_token n).
Proof.
  intros d. unfold random_token. destruct (random_go _ _ _ _) as [out k]. apply safe_tables; [done..|]. apply ok_set_draws.
Qed.
Lemma keeps_ask {A} f (m : Db A) : keeps m -> keeps (ask f m).
Proof. intros Hm d. unfold ask. specialize (Hm d). by destruct (m d). Qed.
Lemma keeps_attempt {A} (m : Db A) : keeps m -> keeps (attempt m).
Proof. intros Hm d. unfold attempt. specialize (Hm d). by destruct (m d). Qed.

Create HintDb keeps.
#[local] Hint Resolve keeps_ret keeps_fail keeps_get keeps_lift keeps_now keeps_draw keeps_random_token keeps_ask
  keeps_attempt safe_refl : keeps.
Ltac keeping := repeat (first [solve [auto 2 with keeps]|progress intros|apply keeps_bind|case_match]).
(** One call before the tables are read. *)
Ltac call := apply keeps_bind; [solve [keeping]|intros ?].

(** *** The calls of the store *)

Lemma ref_by_id {A} (key : A -> Uuid) l k x : find_by key k l = Some x -> k ∈ key <$> l.
Proof. intros [Hx <-]%find_by_Some. by apply list_elem_of_fmap_2. Qed.

Lemma not_Some {A} (o : option A) : ~ is_Some o -> o = None.
Proof. apply eq_None_not_Some. Qed.

Lemma keeps_create_org name slug : keeps (create_org name slug).
Proof.
  unfold create_org. do 2 call. intros d. apply safe_get. case_bool_decide as Hc; [apply safe_refl|].
  apply safe_put; [|keeping]. apply safe_tables; [done..|]. apply ok_add_org; apply not_Some; tauto.
Qed.

Lemma keeps_create_user email name : keeps (create_user email name).
Proof.
  unfold create_user. do 2 call. intros d. apply safe_get. case_bool_decide as Hc; [apply safe_refl|].
  apply safe_put; [|keeping]. apply safe_tables; [done..|]. apply ok_add_user; apply not_Some; tauto.
Qed.

Lemma keeps_delete_org id : keeps (delete_org id).
Proof.
  intros d. apply safe_get. destruct (find_by og_id id (db_orgs d)); [|apply safe_refl].
  apply safe_tables; [done..|]. apply ok_delete_org.
Qed.

Lemma new_row {A K} `{EqDecision K} (key : A -> K) k l b c :
  bool_decide (is_Some (find_by key k l)) || b || c = false -> find_by key k l = None /\ b = false /\ c = false.
Proof.
  intros [[Hk%bool_decide_eq_false_1 Hb]%orb_false_iff Hc]%orb_false_iff. split; [by apply not_Some|done].
Qed.

Lemma keeps_add_org_member org user role : keeps (add_org_member org user role).
Proof.
  unfold add_org_member. do 1 call. intros d. apply safe_get.
  destruct (_ || _ || _) eqn:Hc; [apply safe_refl|]. apply new_row in Hc as (Hn & Hu & Ho).
  apply safe_put; [|keeping]. apply safe_tables; [done..|]. apply ok_add_member; [done|]. split_and!; simpl.
  - apply bool_decide_eq_false_1 in Ho. apply not_eq_None_Some in Ho as [x Hx]. by eapply ref_by_id.
  - apply is_user_ref. by apply negb_false_iff.
  - by exists role.
Qed.

Lemma keeps_update_org_member org user role : keeps (update_org_member org user role).
Proof.
  intros d. apply safe_get, safe_lift. intros m Hm. apply safe_put; [|keeping]. apply safe_tables; [done..|].
  intros Hok. destruct (find_by _ _ _) as [m'|] eqn:Hf; [|done]. injection Hm as ->.
  apply find_by_Some in Hf as [Hin Hk]. apply ok_replace_member; [done| |done].
  destruct (proj1 (Forall_forall _ _) (ok_member_rows d Hok) m Hin) as (Ho & Hu & _).
  injection Hk as Ho' Hu'. split_and!; simpl; [by rewrite <-Ho'|by rewrite <-Hu'|by exists role].
Qed.

Lemma keeps_remove_org_member org user : keeps (remove_org_member org user).
Proof.
  intros d. apply safe_get. destruct (find_by _ _ _); [|apply safe_refl]. apply safe_tables; [done..|].
  apply ok_filter_members.
Qed.

Lemma keeps_add_collaborator repo user role : keeps (add_collaborator repo user role).
Proof.
  unfold add_collaborator. do 1 call. intros d. apply safe_get.
  destruct (_ || _ || _) eqn:Hc; [apply safe_refl|]. apply new_row in Hc as (Hn & Hu & Ho).
  apply safe_put; [|keeping]. apply safe_tables; [done..|]. apply ok_add_collab; [done|]. split_and!; simpl.
  - apply bool_decide_eq_false_1 in Ho. apply not_eq_None_Some in Ho as [x Hx]. by eapply ref_by_id.
  - apply is_user_ref. by apply negb_false_iff.
  - by exists role.
Qed.

Lemma keeps_update_collaborator repo user role : keeps (update_collaborator repo user role).
Proof.
  intros d. apply safe_get, safe_lift. intros c Hc. apply safe_put; [|keeping]. apply safe_tables; [done..|].
  intros Hok. destruct (find_by _ _ _) as [c'|] eqn:Hf; [|done]. injection Hc as ->.
  apply find_by_Some in Hf as [Hin Hk]. apply ok_replace_collab; [done| |done].
  destruct (proj1 (Forall_forall _ _) (ok_collab_rows d Hok) c Hin) as (Ho & Hu & _).
  injection Hk as Ho' Hu'. split_and!; simpl; [by rewrite <-Ho'|by rewrite <-Hu'|by exists role].
Qed.

Lemma keeps_remove_collaborator repo user : keeps (remove_collaborator repo user).
Proof.
  intros d. apply safe_get. destruct (find_by _ _ _); [|apply safe_refl]. apply safe_tables; [done..|].
  apply ok_filter_collabs.
Qed.

Lemma keeps_personal_org user name : keeps (get_or_create_personal_org user name).
Proof.
  unfold get_or_create_personal_org. do 2 call. intros d. apply safe_get, safe_bind.
  - destruct (find_by og_slug _ _) eqn:Hs; [apply safe_refl|]. case_bool_decide as Hi; [apply safe_refl|].
    apply safe_put; [|keeping]. apply safe_tables; [done..|]. apply ok_add_org; [done|by apply not_Some].
  - intros org d1 Horg. apply safe_bind; [apply keeps_now|]. intros t d2 [= <- <-]. apply safe_get.
    destruct (find_by member_key _ _) eqn:Hm; [apply safe_refl|]. destruct (is_user user _) eqn:Hu; [|apply safe_refl].
    apply safe_put; [|keeping]. apply safe_tables; [done..|]. intros Hok. apply ok_add_member; [done| |done].
    split_and!; [|by apply is_user_ref|by exists OrgOwner]. simpl. unfold org_ref. simpl.
    destruct (find_by og_slug _ _) eqn:Hs.
    + injection Horg as -> <-. apply find_by_Some in Hs as [Hin _]. by apply list_elem_of_fmap_2.
    + case_bool_decide; [done|]. injection Horg as <- <-. simpl. rewrite fmap_app. apply elem_of_app. right. by left.
Qed.

(** *** Keys, tokens and codes *)

Lemma active_named_name user name r :
  active_named user name r = true -> exists u, user = Some u /\ active_name r = Some (u, name) /\ revoked (kr_key r) = false.
Proof.
  unfold active_named, active_name.
  intros [[Hr%negb_true_iff [[u ->] Hu]%bool_decide_eq_true_1]%andb_true_iff Hn%String.eqb_eq]%andb_true_iff.
  exists u. by rewrite Hr, Hu, <-Hn.
Qed.

Lemma not_active_named user name l u :
  List.find (active_named user name) l = None -> user = Some u -> (u, name) ∉ omap active_name l.
Proof.
  intros Hn -> (r & Hin & Hr)%list_elem_of_omap. unfold active_name in Hr.
  assert (active_named (Some u) name r = true) as Ha; [|by rewrite (List.find_none _ _ Hn r (proj1 (list_elem_of_In _ _) Hin)) in Ha].
  unfold active_named. destruct (revoked (kr_key r)); [done|]. destruct (ak_user_id (kr_key r)); [|done].
  simpl in *. injection Hr as -> ->. rewrite String.eqb_refl, bool_decide_eq_true_2; [done|]. by split.
Qed.

(** Rows that are dead stay where they are when another row changes. *)
Lemma dead_update k f d :
  (forall r, r ∈ db_keys d -> kr_id r = k -> revoked (kr_key r) = true ->
             kr_id (f r) = kr_id r /\ kr_hash (f r) = kr_hash r /\ revoked (kr_key (f r)) = true) ->
  forall id h, dead d id h -> dead (set_keys (update_by kr_id k f (db_keys d)) d) id h.
Proof.
  intros Hf id h (r & Hin & <- & <- & Hr). exists (if decide (kr_id r = k) then f r else r). split.
  - simpl. apply update_by_elem. by exists r.
  - case_decide as Hk; [|done]. by apply Hf.
Qed.

Lemma dead_map f d :
  (forall r, revoked (kr_key r) = true -> kr_id (f r) = kr_id r /\ kr_hash (f r) = kr_hash r /\ revoked (kr_key (f r)) = true) ->
  forall id h, dead d id h -> dead (set_keys (f <$> db_keys d) d) id h.
Proof.
  intros Hf id h (r & Hin & <- & <- & Hr). exists (f r). split; [by apply list_elem_of_fmap_2|]. by apply Hf.
Qed.

Lemma safe_map_keys (f : KeyRow -> KeyRow) d :
  (forall r, kr_id (f r) = kr_id r /\ kr_hash (f r) = kr_hash r /\ kr_repo (f r) = kr_repo r /\
             ak_user_id (kr_key (f r)) = ak_user_id (kr_key r) /\ role_override (kr_key (f r)) = role_override (kr_key r) /\
             (active_name (f r) = None \/ active_name (f r) = active_name r) /\
             (revoked (kr_key r) = true -> revoked (kr_key (f r)) = true)) ->
  safe_step d (set_keys (f <$> db_keys d) d).
Proof.
  intros Hf. apply safe_keys. intros Hok. split.
  - apply ok_map_keys; [|done]. intros r. destruct (Hf r) as (? & ? & ? & ? & ? & ? & _). done.
  - apply dead_map. intros r Hr. destruct (Hf r) as (? & ? & _ & _ & _ & _ & Hk). auto.
Qed.

Lemma keeps_create_key repo name user override agent expires :
  from_option repo_role_text True override -> keeps (create_key repo name user override agent expires).
Proof.
  intros Hov. unfold create_key. apply keeps_bind; [keeping|]. intros id. apply keeps_bind; [keeping|]. intros token.
  cbv zeta. apply keeps_bind; [keeping|]. intros t d. apply safe_get.
  destruct (List.find _ _) as [r|] eqn:Hfind.
  - case_bool_decide as Hh; [|apply safe_refl]. apply safe_put; [|keeping].
    apply List.find_some in Hfind as [Hin%list_elem_of_In Ha]. apply active_named_name in Ha as (u & -> & Ha & Hr).
    apply safe_keys. intros Hok. split.
    + pose proof (proj1 (Forall_forall _ _) (ok_key_rows d Hok) r Hin) as (_ & _ & Hro).
      eapply ok_rotate; [done|try done..].
      * simpl. by destruct (role_override (kr_key r)).
      * simpl. intros x Hx Hxh. rewrite (find_by_elem kr_hash _ _ x (ok_hashes d Hok) Hx Hxh) in Hh. done.
    + apply dead_update. intros x Hx Hxi Hxr. rewrite (keys_inj kr_id _ _ _ (ok_keys d Hok) Hx Hin Hxi) in Hxr. congruence.
  - destruct (key_row_fits _ _) eqn:Hfit; [|apply safe_refl]. apply safe_put; [|keeping]. apply safe_keys. intros Hok. split.
    + apply ok_add_key; [done..| |done]. simpl. unfold active_name. simpl. destruct user as [u|]; [|done]. simpl.
      by eapply not_active_named.
    + intros i h (r & Hr & Hd). exists r. split; [|done]. simpl. apply elem_of_app. by left.
Qed.

Lemma keeps_validate_key token : keeps (validate_key token).
Proof.
  unfold validate_key. call. intros d. apply safe_get, safe_lift. intros r _. revert d. call. intros d. apply safe_get.
  apply safe_bind; [|intros; apply keeps_ret]. destruct (match _ with Some _ => _ | None => _ end); [|apply safe_refl].
  intros Hok.
  destruct (safe_map_keys (fun x => if decide (kr_id x = kr_id r) then set_last_used_at a0 x else x) d) as [H1' H2'];
    [|done|].
  - intros x. case_decide; [|naive_solver]. split_and!; try done. by right.
  - split_and!; [exact (ok_set_last_used _ _ H1')|exact (proj1 H2')|by left].
Qed.

Lemma revoke_row r :
  kr_id (revoke r) = kr_id r /\ kr_hash (revoke r) = kr_hash r /\ kr_repo (revoke r) = kr_repo r /\
  ak_user_id (kr_key (revoke r)) = ak_user_id (kr_key r) /\ role_override (kr_key (revoke r)) = role_override (kr_key r) /\
  (active_name (revoke r) = None \/ active_name (revoke r) = active_name r) /\
  (revoked (kr_key r) = true -> revoked (kr_key (revoke r)) = true).
Proof. split_and!; try done. by left. Qed.

Lemma keeps_revoke_key id : keeps (revoke_key id).
Proof.
  intros d. apply safe_get. apply safe_map_keys. intros r. case_decide; [apply revoke_row|].
  split_and!; try done. by right.
Qed.

Lemma keeps_revoke_where p : keeps (revoke_where p).
Proof.
  intros d. apply safe_get. apply safe_put; [|keeping]. apply safe_map_keys. intros r.
  destruct (p r && _); [apply revoke_row|]. split_and!; try done. by right.
Qed.

Lemma keeps_revoke_by_repo repo : keeps (revoke_keys_by_repo repo).
Proof. apply keeps_revoke_where. Qed.
Lemma keeps_revoke_by_user user : keeps (revoke_keys_by_user user).
Proof. apply keeps_revoke_where. Qed.

Lemma random_token_drawn d token d' : random_token 64 d = (Ok token, d') -> token = drawn_token (db_draws d).
Proof. unfold random_token, drawn_token. destruct (random_go _ _ _ _). by intros [= <- _]. Qed.

Lemma keeps_create_refresh_token user expires : keeps (create_refresh_token user expires).
Proof.
  intros d0. unfold create_refresh_token. apply safe_bind; [apply keeps_random_token|].
  intros token d Htoken%random_token_drawn. apply safe_get. destruct (_ || _) eqn:Hc; [apply safe_refl|].
  apply orb_false_iff in Hc as [Hh%bool_decide_eq_false_1 Hu%negb_false_iff].
  apply safe_put; [|keeping]. intros Hok. split_and!.
  - apply ok_add_refresh; [by apply not_Some|by apply is_user_ref|done].
  - done.
  - intros h. simpl. rewrite fmap_app, elem_of_app. intros [?|Hx%list_elem_of_singleton]; [by left|].
    right. eexists. by rewrite Hx, Htoken.
Qed.

Lemma keeps_revoke_refresh_token token : keeps (revoke_refresh_token token).
Proof.
  intros d. apply safe_get. cbv zeta. destruct (existsb _ _); [|apply safe_refl]. intros Hok. split_and!.
  - apply ok_map_refresh; [|done]. intros r. by destruct (_ && _).
  - done.
  - intros h. simpl. rewrite fmap_keeps; [by left|]. intros r. by destruct (_ && _).
Qed.

Lemma keeps_create_device_code : keeps create_device_code.
Proof.
  intros d. apply safe_get. cbv zeta. apply safe_put; [apply safe_tables; [done..|]; apply ok_set_draws|]. intros _. call.
  intros d1. apply safe_get. destruct (find_by _ _ _) eqn:Hf; [apply safe_refl|]. apply safe_put; [|keeping].
  apply safe_tables; [done..|]. by apply ok_add_device.
Qed.

Lemma keeps_drop_code code : keeps (drop_code code).
Proof. intros d. apply safe_get, safe_tables; [done..|]. apply ok_filter_devices. Qed.

Lemma keeps_poll code : keeps (poll_device_code code).
Proof.
  intros d. apply safe_get, safe_lift. intros row _. apply safe_bind; [apply keeps_now|]. intros t d' _.
  repeat case_match; first [apply safe_refl|apply safe_bind; [apply keeps_drop_code|intros; apply safe_refl]].
Qed.

Lemma keeps_authorize code user key : keeps (authorize_device_code code user key).
Proof.
  unfold authorize_device_code. call. intros d. apply safe_get. cbv zeta. destruct (existsb _ _); [|apply safe_refl].
  destruct (is_user user d) eqn:Hu; [|apply safe_refl]. apply safe_tables; [done..|]. apply ok_map_devices.
  intros v. destruct (_ && _); [|done]. split; [done|]. intros _ _. exists user. split; [done|]. by apply is_user_ref.
Qed.

Lemma keeps_sign svc subject name repo role : keeps (sign svc subject name repo role).
Proof. intros d. apply safe_tables; [done..|]. apply ok_set_ticks. Qed.
Lemma keeps_verify svc token : keeps (verify svc token).
Proof. intros d. apply safe_tables; [done..|]. apply ok_set_ticks. Qed.
Lemma keeps_signed {A} (m : M AuthDb JwtError A) : keeps m -> keeps (signed m).
Proof. intros Hm d. unfold signed. specialize (Hm d). by destruct (m d). Qed.
Lemma keeps_insert_repo r seed creator t :
  (forall d, find_by rp_name (rp_name r) (db_repos d) = None -> safe_step d (insert_repo r seed creator t d).2).
Proof.
  intros d Hn. apply safe_get. destruct (_ || _) eqn:Hc; [apply safe_refl|].
  apply orb_false_iff in Hc as [Hi%bool_decide_eq_false_1 _].
  destruct (match creator with Some _ => _ | None => _ end) eqn:Hu; [|apply safe_refl].
  apply safe_tables; [done..|]. apply ok_insert_repo; [by apply not_Some|done|].
  destruct creator; [|done]. by apply is_user_ref.
Qed.

#[local] Hint Resolve keeps_create_org keeps_create_user keeps_delete_org keeps_add_org_member keeps_update_org_member
  keeps_remove_org_member keeps_add_collaborator keeps_update_collaborator keeps_remove_collaborator keeps_personal_org
  keeps_validate_key keeps_revoke_key keeps_revoke_by_repo keeps_revoke_by_user keeps_create_refresh_token keeps_revoke_refresh_token
  keeps_create_device_code keeps_poll keeps_authorize keeps_sign keeps_verify keeps_signed : keeps.

(** *** Calls that only read *)

Lemma keeps_get_org slug : keeps (get_org_by_slug slug).
Proof. unfold get_org_by_slug. keeping. Qed.
Lemma keeps_get_user u : keeps (get_user u).
Proof. unfold get_user. keeping. Qed.
Lemma keeps_lookup_role u p : keeps (lookup_role u p).
Proof. unfold lookup_role. keeping. Qed.
Lemma keeps_repo_id org name : keeps (get_repo_id_in_org org name).
Proof. unfold get_repo_id_in_org. keeping. Qed.
Lemma keeps_keys_of_user u : keeps (list_keys_by_user u).
Proof. unfold list_keys_by_user. keeping. Qed.
Lemma keeps_validate_session t : keeps (validate_session t).
Proof. unfold validate_session. keeping. Qed.
Lemma keeps_validate_refresh t : keeps (validate_refresh_token t).
Proof. unfold validate_refresh_token. keeping. Qed.
#[local] Hint Resolve keeps_get_org keeps_get_user keeps_lookup_role keeps_repo_id keeps_keys_of_user
  keeps_validate_session keeps_validate_refresh : keeps.

(** *** The handlers *)

Lemma keeps_permission i repo required : keeps (require_repo_permission st i repo required).
Proof. unfold require_repo_permission. keeping. Qed.
Lemma keeps_server_admin i : keeps (require_server_admin i).
Proof. unfold require_server_admin. keeping. Qed.
Lemma keeps_repo_in_org org repo : keeps (repo_in_org org repo).
Proof. unfold repo_in_org. keeping. Qed.
Lemma keeps_parse_org_role r : keeps (parse_org_role r).
Proof. unfold parse_org_role. keeping. Qed.
Lemma keeps_parse_repo_role r : keeps (parse_repo_role r).
Proof. unfold parse_repo_role. keeping. Qed.
#[local] Hint Resolve keeps_permission keeps_server_admin keeps_repo_in_org keeps_parse_org_role keeps_parse_repo_role : keeps.

Lemma keeps_token_exchange body : keeps (token_exchange_handler st body).
Proof. unfold token_exchange_handler, session_exchange, key_exchange. keeping. Qed.

Lemma keeps_auth ws header : keeps (auth_middleware st ws header).
Proof.
  unfold auth_middleware. destruct ws; [keeping|]. destruct (h ← header; _); [|keeping]. cbv zeta.
  destruct (has_char _ _); intros d; [pose proof (keeps_verify (jwt_service st) (trim s) d)|pose proof (keeps_validate_key (trim s) d)].
  - by destruct (verify _ _ d) as [[]].
  - by destruct (validate_key _ d) as [[|[]|]].
Qed.

Lemma keeps_create_key_handler i body : keeps (create_key_handler st i body).
Proof.
  unfold create_key_handler. apply keeps_bind; [keeping|]. intros user d.
  destruct (ck_role_override body) as [r|].
  - apply safe_bind.
    + revert d. apply keeps_bind; [keeping|]. intros. apply keeps_ret.
    + intros ov d' Hov. apply keeps_ask, keeps_create_key. unfold mbind, M_bind in Hov.
      destruct ((match is_admin i with _ => _ end) d) as [[]]; [|done..]. injection Hov as <- _. by eexists.
  - apply keeps_ask. by apply keeps_create_key.
Qed.

Lemma personal_org_repos u name d : db_repos (attempt (get_or_create_personal_org u name) d).2 = db_repos d.
Proof.
  unfold attempt, get_or_create_personal_org, draw, now, get_st, put_st, fail, mret, mbind, M_bind, M_ret.
  simpl. repeat (case_match; simplify_eq/=; try done).
Qed.

(** The name is free when the row is written, because nothing in between makes a repository. *)
Lemma keeps_create_repo i name : keeps (create_repo_handler st i name).
Proof.
  unfold create_repo_handler. do 3 (case_match; [keeping|]). apply keeps_bind; [keeping|]. intros _ d.
  apply safe_bind; [apply keeps_ask; unfold get_repo_by_name; keeping|].
  intros existing d1 Hex. destruct existing as [|]; [apply safe_refl|].
  assert (find_by rp_name name (db_repos d1) = None) as Hn by (injection Hex as Hn <-; done).
  apply safe_bind; [apply keeps_ask, keeps_draw|]. intros id d2 [= <- <-].
  apply safe_bind; [apply keeps_ask, keeps_now|]. intros t1 d3 [= <- <-].
  apply safe_bind; [apply keeps_ask, keeps_draw|]. intros seed d4 [= <- <-].
  apply safe_bind; [destruct (ai_user_id i); [apply keeps_attempt, keeps_personal_org|apply safe_refl]|]. intros org d5 Horg.
  assert (db_repos d5 = db_repos d1) as Hr.
  { destruct (ai_user_id i) as [u|]; [|by injection Horg as _ <-].
    match type of Horg with attempt _ ?d0 = _ => pose proof (personal_org_repos u (ai_name i) d0) as Hp end.
    by rewrite Horg in Hp. }
  apply safe_bind; [apply keeps_ask, keeps_now|]. intros t2 d6 [= <- <-].
  apply safe_bind; [apply keeps_insert_repo; simpl; by rewrite Hr|]. intros; apply keeps_ret.
Qed.
#[local] Hint Resolve keeps_token_exchange keeps_auth keeps_create_key_handler keeps_create_repo : keeps.

Lemma keeps_done {A} (m : Hd A) : keeps m -> keeps (quietly_done m).
Proof. intros Hm. unfold quietly_done. keeping. Qed.
#[local] Hint Resolve keeps_done : keeps.

Lemma keeps_handle i a : keeps (handle i a).
Proof.
  destruct a; simpl; try solve [keeping]; try apply keeps_done;
    unfold authorize_device_code_handler, get_me_handler, create_org_handler, delete_org_handler, create_user_handler,
      add_org_member_handler, update_org_member_handler, remove_org_member_handler, add_collaborator_handler,
      update_collaborator_handler, remove_collaborator_handler, revoke_key_handler, bulk_revoke_keys_handler;
    try solve [keeping].
  case_match; [|keeping]. apply keeps_bind; [|intros; keeping]. apply keeps_ask, keeps_create_key. by exists RoleWrite.
Qed.

Lemma keeps_serve rq : keeps (serve rq).
Proof.
  destruct rq; simpl; try apply keeps_done;
    unfold refresh_token_handler, revoke_token_handler, create_device_code_handler, poll_device_code_handler;
    try solve [keeping].
  apply keeps_bind; [keeping|]. intros [i|]; [apply keeps_handle|keeping].
Qed.

Lemma run_requests_keep l d : safe_step d (run_requests l d).
Proof.
  revert d. induction l as [|rq l IH]; intros d; [apply safe_refl|]. simpl.
  eapply safe_trans; [apply keeps_serve|]. apply IH.
Qed.
End system.
