(* ===== verification/AuthProps.v ===== *)
(** What the accounts of the hosted server guarantee and what they do not: the tables, the
    revocation of keys, the permission check, the life of an access token, the listing of
    repositories, and the three places where the code does something else than it says. *)
From stdpp Require Import pretty.
From S2P Require Import Prelude Table RustStr EventLog Auth AuthKeys AuthServer AuthAdmin AuthSystem.

(** ** An environment to compute with *)

(** A positive as a text of digits, most significant last. *)
Fixpoint digits_of (p : positive) : string :=
  match p with xH => EmptyString | xO p => String "0" (digits_of p) | xI p => String "1" (digits_of p) end.
Fixpoint of_digits (s : string) : option positive :=
  match s with
  | EmptyString => Some xH
  | String c s => p ← of_digits s; if Ascii.eqb c "0" then Some (xO p) else if Ascii.eqb c "1" then Some (xI p) else None
  end.
Lemma of_digits_of p : of_digits (digits_of p) = Some p.
Proof. induction p as [p IH|p IH|]; simpl; [by rewrite IH..|done]. Qed.

Definition claims_tuple (c : TokenClaims) := (sub c, tc_name c, tc_repo_id c, tc_role c, iat c, exp c).
Definition tuple_claims (t : string * option string * option string * option string * Z * Z) : TokenClaims :=
  let '(s, n, p, r, i, e) := t in mkClaims s n p r i e.

(** Tokens that carry their claims and the secret in the open. *)
Definition ex_jwt : JwtLib := {|
  jwt_encode c secret := Some ("." +:+ digits_of (encode (secret, claims_tuple c)));
  jwt_decode token secret leeway now :=
    match p ← s ← strip_prefix "." token; of_digits s; decode p with
    | Some (secret', t) =>
        if String.eqb secret secret' then
          let c := tuple_claims t in if (exp c + leeway <? now)%Z then Err JwExpired else Ok c
        else Err JwInvalid
    | None => Err JwInvalid
    end
|}.

Fixpoint bits (w n : nat) : string :=
  match w with 0 => EmptyString | S w => String (if Nat.odd n then "1" else "0") (bits w (Nat.div2 n)) end.
Definition ex_env : AuthEnv := {|
  clock n := (Z.of_nat n * 60 * SECOND)%Z;
  uuid n := "id" +:+ pretty n;
  uuid_simple n := bits 32 n;
  uuid_bytes n := n :: seq 0 15;
  parse_uuid := Some;
  sha256_hex s := "#" +:+ s
|}.
Definition ex_state : AuthState := mkAuthState (jwt_new "secret" None 0) "the-admin-key" false true 100.
Definition ex_db : AuthDb := mkAuthDb [] [mkUser "alice" "alice@example.org" "Alice" 0] [] [] [] ∅ [] [] [] []
  [mkSession "cookie" "alice" 100000000000000] ∅ 0 0.

(** ** What the library of access tokens promises *)

Class JwtLaws `{JwtLib} : Prop := {
  jwt_total : forall c s, is_Some (jwt_encode c s);
  jwt_dotted : forall c s t, jwt_encode c s = Some t -> has_char "." t = true /\ trim t = t;
  jwt_accepts : forall c s t leeway now, jwt_encode c s = Some t ->
    jwt_decode t s leeway now = if (exp c + leeway <? now)%Z then Err JwExpired else Ok c;
  jwt_rejects : forall c s s' t leeway now, jwt_encode c s = Some t -> s <> s' -> jwt_decode t s' leeway now = Err JwInvalid
}.

Section access.
Context `{AuthEnv, JwtLib, !JwtLaws}.

Definition seconds (d : AuthDb) : Z := (clock (db_ticks d) / SECOND)%Z.

(** An access token is good for exactly its life and a leeway, for the services that
    have the secret it was signed with as the current or as the previous one: any other
    service refuses it as invalid, and a late one as expired, whatever has happened to
    the tables in between. *)
Theorem access_token_life svc svc' subject name repo role d t d1 d2 :
  sign svc subject name repo role d = (Ok t, d1) ->
  let claims := mkClaims subject name repo role (seconds d) (seconds d + access_token_ttl svc)%Z in
  (verify svc' t d2).1 =
    if bool_decide (current_secret svc' = current_secret svc \/ previous_secret svc' = Some (current_secret svc)) then
      if (exp claims + leeway_secs svc' <? seconds d2)%Z then Err JwExpired else Ok claims
    else Err JwInvalid.
Proof.
  unfold sign, verify, seconds. cbv zeta. destruct (jwt_encode _ _) as [t'|] eqn:Henc; [|done]. intros [= -> <-]. simpl.
  destruct (decide (current_secret svc' = current_secret svc)) as [Hc|Hc].
  - rewrite Hc. erewrite jwt_accepts by done. rewrite bool_decide_eq_true_2 by by left. simpl. by destruct (_ <? _)%Z.
  - erewrite jwt_rejects by done. destruct (previous_secret svc') as [prev|]; simpl.
    + destruct (decide (prev = current_secret svc)) as [->|Hp].
      * erewrite jwt_accepts by done. by rewrite bool_decide_eq_true_2 by by right.
      * erewrite jwt_rejects by done. rewrite bool_decide_eq_false_2; [done|]. intros [?|[= ?]]; congruence.
    + rewrite bool_decide_eq_false_2; [done|]. intros [?|?]; congruence.
Qed.
End access.

#[local] Existing Instance ex_jwt.

Lemma digits_plain p : Forall (fun a => plain_char a = true) (bytes_of (digits_of p)).
Proof. induction p; simpl; by constructor. Qed.

Lemma ex_decodes c s leeway now t :
  jwt_encode c s = Some t ->
  forall s', jwt_decode t s' leeway now =
    if String.eqb s' s then if (exp c + leeway <? now)%Z then Err JwExpired else Ok c else Err JwInvalid.
Proof.
  intros [= <-] s'. simpl. change (EmptyString +:+ ?x) with x. rewrite of_digits_of. simpl. rewrite decode_encode.
  by destruct c.
Qed.

#[local] Instance ex_laws : JwtLaws.
Proof.
  split.
  - by eexists.
  - intros c s t [= <-]. split; [done|]. apply trim_plain_line; [|done]. constructor; [done|]. apply digits_plain.
  - intros c s t leeway now Ht. by rewrite (ex_decodes _ _ _ _ _ Ht), String.eqb_refl.
  - intros c s s' t leeway now Ht Hs. rewrite (ex_decodes _ _ _ _ _ Ht). destruct (String.eqb_spec s' s); congruence.
Qed.

(** ** Permissions *)

Section rights.
Context `{AuthEnv, JwtLib}.

(** The weight of a role that may be missing. *)
Definition weight (o : option RepoRole) : nat := from_option rank 0 o.

(** What a user's place in the repository gives: the better of the membership of its
    organization and the collaboration. *)
Definition standing (user repo : Uuid) (d : AuthDb) : nat :=
  match find_by rp_id repo (db_repos d) with
  | Some r => Nat.max (weight (org_derived user r d)) (weight (direct user repo d))
  | None => 0
  end.

(** What an identity is granted on a repository. *)
Inductive Granted (st : AuthState) (d : AuthDb) (i : AgentIdentity) (repo : Uuid) (required : RepoRole) : RepoRole -> Prop :=
  | GrantedAll : is_admin i = true \/ is_local st = true -> Granted st d i repo required RoleOwner
  | GrantedWorker :
      is_admin i = false -> is_local st = false -> ai_role_override i = Some "worker"%string ->
      jwt_repo_scope i = Some repo -> rank required <= 2 -> Granted st d i repo required RoleWrite
  | GrantedUser user r :
      is_admin i = false -> is_local st = false -> ai_role_override i <> Some "worker"%string ->
      ai_user_id i = Some user -> 0 < standing user repo d ->
      rank r = Nat.min (standing user repo d) (from_option (fun s => rank (role_from_db_str s)) 4 (ai_role_override i)) ->
      rank required <= rank r -> Granted st d i repo required r.

Lemma resolve_weight user repo d : weight (resolve_repo_role user repo d) = standing user repo d.
Proof.
  unfold resolve_repo_role, standing. destruct (find_by _ _ _) as [r|]; simpl; [|done].
  destruct (org_derived user r d), (direct user repo d); simpl; rewrite ?rank_role_max; lia.
Qed.
Lemma rank_bounds r : 0 < rank r <= 4.
Proof. destruct r; simpl; lia. Qed.
Lemma cap_rank r o :
  rank (cap_role r o) = Nat.min (rank r) (from_option (fun s => rank (role_from_db_str s)) 4 o).
Proof.
  destruct o as [s|]; simpl; [destruct (Nat.ltb_spec (rank (role_from_db_str s)) (rank r)); lia|].
  pose proof (rank_bounds r). lia.
Qed.

Lemma permission_outcome st i repo required d : exists o,
  require_repo_permission st i repo required d = (o, d) /\
  match o with Ok r => Granted st d i repo required r | Err e => e = AeForbidden | Panic => False end.
Proof.
  unfold require_repo_permission. destruct (is_admin i) eqn:Ha; [eexists; split; [done|]; constructor; by left|].
  destruct (is_local st) eqn:Hl; [eexists; split; [done|]; constructor; by right|].
  case_bool_decide as Hw.
  { case_bool_decide as Hs; [|by eexists]. destruct required; (eexists; split; [done|]); try done; simpl;
      apply GrantedWorker; simpl; auto. }
  destruct (ai_user_id i) as [user|] eqn:Hu; [|by eexists].
  unfold ask, lookup_role, mbind, M_bind, get_st, mret, M_ret. simpl.
  destruct (resolve_repo_role user repo d) as [r|] eqn:Hr; [|by eexists].
  pose proof (resolve_weight user repo d) as Hst. rewrite Hr in Hst. simpl in Hst. pose proof (rank_bounds r).
  destruct (Nat.ltb_spec (rank (cap_role r (ai_role_override i))) (rank required)); eexists; (split; [done|]); [done|].
  eapply GrantedUser; try done; [lia|]. by rewrite cap_rank, Hst.
Qed.

Lemma granted_permission st i repo required d r :
  Granted st d i repo required r -> (require_repo_permission st i repo required d).1 = Ok r.
Proof.
  unfold require_repo_permission. intros [[Ha|Hl]|Ha Hl Hw Hs Hreq|user r' Ha Hl Hw Hu Hst Hr Hreq].
  - by rewrite Ha.
  - destruct (is_admin i); [done|]. by rewrite Hl.
  - rewrite Ha, Hl, Hw, Hs, !bool_decide_eq_true_2 by done. destruct required; simpl in Hreq; by try lia.
  - rewrite Ha, Hl, Hu, bool_decide_eq_false_2 by done. unfold ask, lookup_role, mbind, M_bind, get_st, mret, M_ret.
    simpl. pose proof (resolve_weight user repo d) as Hweight.
    destruct (resolve_repo_role user repo d) as [a|] eqn:Hres; [|simpl in Hweight; lia]. simpl in Hweight.
    assert (cap_role a (ai_role_override i) = r') as -> by by apply rank_inj; rewrite cap_rank, Hr, Hweight.
    destruct (Nat.ltb_spec (rank r') (rank required)); [lia|done].
Qed.

Lemma permission_ok st i repo required d r :
  require_repo_permission st i repo required d = (Ok r, d) <-> Granted st d i repo required r.
Proof.
  destruct (permission_outcome st i repo required d) as (o & Ho & Hg).
  pose proof (granted_permission st i repo required d r) as Hback. rewrite Ho in *. simpl in Hback.
  split; [by intros [= ->]|]. by intros HG%Hback; rewrite HG.
Qed.

(** C18. The permission check grants a role exactly when one of three reasons holds: the
    identity is the administrator's or the storage is local; it is a worker's, scoped to
    this very repository, and asks for no more than [Write]; or it is a user's, and the
    lesser of the user's standing (the better of membership and collaboration) and the
    cap of the credential reaches what is required, which is then the role returned. In
    every other case the reply is Forbidden, and the tables are not touched. *)
Theorem permission_granted_iff st i repo required d :
  (forall r, require_repo_permission st i repo required d = (Ok r, d) <-> Granted st d i repo required r) /\
  ((forall r, ~ Granted st d i repo required r) -> require_repo_permission st i repo required d = (Err AeForbidden, d)).
Proof.
  split; [intros r; apply permission_ok|]. intros Hno.
  destruct (permission_outcome st i repo required d) as (o & -> & Hg).
  destruct o as [r|e|]; [by destruct (Hno r)|by rewrite Hg|done].
Qed.
End rights.

(** ** The tables under all requests *)

Lemma bearer_header token : (h ← Some ("Bearer " +:+ token); strip_prefix "Bearer " h) = Some token.
Proof. reflexivity. Qed.

Section requests.
Context `{AuthEnv, JwtLib, Unicode}.
Variable st : AuthState.

(** C23. The tables keep their form under every sequence of requests, whoever sends them,
    refused ones included: identifiers, slugs, addresses, names of repositories, hashes
    and codes stay unique, a user has at most one active key of a name, every reference
    points to a row, roles are the texts of roles, every repository has a head, and a
    device code that carries a key names the user who authorised it. *)
Theorem requests_keep_tables l d : db_ok d -> db_ok (run_requests st l d).
Proof. intros Hok. apply (run_requests_keep st l d Hok). Qed.

Lemma validate_dead token id d : db_ok d -> dead d id (sha256_hex token) -> (validate_key token d).1 = Err SeNotFound.
Proof.
  intros Hok (r & Hin & <- & Hh & Hr). unfold validate_key, now, get_st, lift, mbind, M_bind. simpl.
  replace (filter _ _) with (@nil KeyRow); [done|]. symmetry. apply elem_of_nil_inv. intros x [[Hx Hv] Hinx]%list_elem_of_filter.
  assert (x = r) as -> by by apply (keys_inj kr_hash _ _ _ (ok_hashes d Hok)); [..|unfold hash_token in Hx; congruence].
  unfold valid_at in Hv. by rewrite Hr in Hv.
Qed.

(** C19. A revoked key stays dead: once the row of a token is revoked, no sequence of
    requests, whoever sends them, makes the token valid again. The store answers that
    there is no such key, and the middleware refuses the request, unless the text is
    the administrator's key or looks like an access token. *)
Theorem revoked_stays_dead d r token l :
  db_ok d -> r ∈ db_keys d -> kr_hash r = sha256_hex token ->
  let d' := run_requests st l (revoke_key (kr_id r) d).2 in
  (validate_key token d').1 = Err SeNotFound /\
  (has_char "." token = false -> trim token = token -> token <> admin_key st ->
   (auth_middleware st false (Some ("Bearer " +:+ token)) d').1 = Err AeUnauthorized).
Proof.
  intros Hok Hin Hh d'. destruct (keeps_revoke_key (kr_id r) d Hok) as (Hok1 & _ & _).
  assert (dead (revoke_key (kr_id r) d).2 (kr_id r) (sha256_hex token)) as Hdead.
  { exists (revoke r). simpl. split_and!; [|done|done|done]. apply update_by_elem. exists r. by rewrite decide_True. }
  destruct (run_requests_keep st l _ Hok1) as (Hok2 & Hd & _).
  assert ((validate_key token d').1 = Err SeNotFound) as Hv by by eapply validate_dead, Hd.
  split; [done|]. intros Hdot Htrim Hadmin. unfold auth_middleware. rewrite bearer_header. cbv zeta. rewrite Htrim, Hdot.
  destruct (validate_key token d') as [o d2]. simpl in *. subst o. by destruct (String.eqb_spec token (admin_key st)).
Qed.

Lemma extends_refl (s : string) : exists x, s = s +:+ x.
Proof. exists EmptyString. induction s as [|c s IH]; [done|]. rewrite string_app_cons. by rewrite <-IH. Qed.

Lemma random_go_extends fuel h out n : exists x, (random_go fuel h out n).1 = out +:+ x.
Proof.
  revert out n. induction fuel as [|fuel IH]; intros out n; simpl; [by apply extends_refl|].
  destruct (_ <? _); [|by apply extends_refl].
  destruct (IH (out +:+ uuid_simple n) (S n)) as [x Hx]. exists (uuid_simple n +:+ x). by rewrite Hx, string_app_assoc.
Qed.

(** Identifiers in their simple form are lower-case hexadecimal digits. *)
Definition hex_digit (a : ascii) : bool := in_range 48 57 a || in_range 97 102 a.
Definition simple_form (s : string) : Prop := String.length s = 32 /\ forallb hex_digit (bytes_of s) = true.

Lemma drawn_token_plain n x : (forall k, simple_form (uuid_simple k)) -> drawn_token n <> "rt_" +:+ x.
Proof.
  intros Hsimple. unfold drawn_token. destruct (random_go_extends 63 64 (uuid_simple n) (S n)) as [y Hy].
  change (random_go 64 64 EmptyString n) with (random_go 63 64 (uuid_simple n) (S n)). rewrite Hy.
  destruct (Hsimple n) as [Hlen Hhex]. destruct (uuid_simple n) as [|c s]; [done|]. simpl. intros [= -> _].
  by apply andb_true_iff in Hhex as [Hc _].
Qed.

(** No refresh token is ever good for anything: what is handed out is the drawn text
    with a prefix, what is stored is the hash of the text without it, and what is looked
    up is the hash of the text with it. From tables without refresh tokens, after any
    requests, every text with the prefix is refused, by the refresh and by the revocation
    of refresh tokens; hashes that do not collide are assumed. *)
Theorem refresh_tokens_never_work d l x :
  (forall a b, sha256_hex a = sha256_hex b -> a = b) -> (forall k, simple_form (uuid_simple k)) ->
  db_ok d -> db_refresh d = [] ->
  let d' := run_requests st l d in
  (refresh_token_handler st ("rt_" +:+ x) d').1 = Err AeUnauthorized /\
  (revoke_token_handler ("rt_" +:+ x) d').1 = Err AeUnauthorized.
Proof.
  intros Hinj Hsimple Hok Hnil d'. destruct (run_requests_keep st l d Hok) as (_ & _ & Hmade).
  assert (forall r, r ∈ db_refresh d' -> rf_hash r <> hash_token ("rt_" +:+ x)) as Hne.
  { intros r Hr He. destruct (Hmade (rf_hash r)) as [Hin|[n Hn]]; [by apply list_elem_of_fmap_2|by rewrite Hnil in Hin; apply elem_of_nil in Hin|].
    rewrite He in Hn. by apply Hinj, eq_sym, drawn_token_plain in Hn. }
  split.
  - unfold refresh_token_handler, validate_refresh_token, ask, now, get_st, lift, mbind, M_bind. simpl.
    replace (filter _ _) with (@nil RefreshRow); [done|]. symmetry. apply elem_of_nil_inv.
    intros r [[Hh _] Hr]%list_elem_of_filter. by apply (Hne r).
  - unfold revoke_token_handler, revoke_refresh_token, ask, get_st, mbind, M_bind. simpl.
    replace (existsb _ _) with false; [done|]. symmetry. apply not_true_iff_false. intros (r & Hr%list_elem_of_In & Hh)%existsb_exists.
    apply andb_true_iff in Hh as [Hh%String.eqb_eq _]. by apply (Hne r).
Qed.
End requests.

(** ** Listing, escalation and device codes *)

Section flows.
Context `{AuthEnv, JwtLib}.
Variable st : AuthState.

(** A user sees a repository exactly when something gives a standing there. *)
Lemma visible_collab user r d :
  NoDup (collab_key <$> db_collabs d) ->
  existsb (fun c => String.eqb (cb_repo c) (rp_id r) && String.eqb (cb_user c) user) (db_collabs d) = true <->
  0 < weight (direct user (rp_id r) d).
Proof.
  intros Hnd. rewrite existsb_exists. setoid_rewrite <-list_elem_of_In. unfold direct. split.
  - intros (c & Hc & [Hp%String.eqb_eq Hu%String.eqb_eq]%andb_true_iff).
    rewrite (find_by_elem collab_key (rp_id r, user) _ c Hnd Hc) by (unfold collab_key; by rewrite Hp, Hu).
    apply rank_bounds.
  - destruct (find_by _ _ _) as [c|] eqn:Hf; simpl; [|lia]. intros _. apply find_by_Some in Hf as [Hin [= Hp Hu]].
    exists c. split; [done|]. by rewrite Hp, Hu, !String.eqb_refl.
Qed.

Lemma visible_member user r d :
  NoDup (member_key <$> db_members d) ->
  existsb (fun m => bool_decide (rp_org r = Some (mb_org m)) && String.eqb (mb_user m) user &&
                    (String.eqb (mb_role m) "owner" || String.eqb (mb_role m) "admin")) (db_members d) = true <->
  0 < weight (org_derived user r d).
Proof.
  intros Hnd. rewrite existsb_exists. setoid_rewrite <-list_elem_of_In. unfold org_derived. split.
  - intros (m & Hm & [[Ho%bool_decide_eq_true_1 Hu%String.eqb_eq]%andb_true_iff Hrole]%andb_true_iff).
    rewrite Ho. simpl. rewrite (find_by_elem member_key (mb_org m, user) _ m Hnd Hm) by (unfold member_key; by rewrite Hu).
    simpl. apply orb_true_iff in Hrole. destruct (String.eqb (mb_role m) "owner"); simpl; [lia|].
    destruct Hrole as [?|Hrole]; [done|]. rewrite Hrole. simpl. lia.
  - destruct (rp_org r) as [org|]; simpl; [|lia].
    destruct (find_by member_key _ _) as [m|] eqn:Hf; simpl; [|lia]. apply find_by_Some in Hf as [Hin [= Ho Hu]].
    intros Hpos. exists m. split; [done|]. rewrite bool_decide_eq_true_2 by by rewrite Ho. rewrite Hu, String.eqb_refl.
    simpl. destruct (String.eqb (mb_role m) "owner"); [done|]. destruct (String.eqb (mb_role m) "admin"); [done|simpl in Hpos; lia].
Qed.

Lemma visible_standing user r d : db_ok d -> r ∈ db_repos d -> visible user r d = true <-> 0 < standing user (rp_id r) d.
Proof.
  intros Hok Hr. unfold visible, standing. rewrite (find_by_elem rp_id _ _ r (ok_repos d Hok) Hr eq_refl), orb_true_iff.
  rewrite visible_collab, visible_member by apply Hok. lia.
Qed.

(** C25. The list of repositories and the permission check agree: a user sees exactly the
    repositories on which the check lets the user read. *)
Theorem listed_iff_readable user r d name :
  db_ok d -> r ∈ db_repos d -> is_local st = false ->
  let i := mkIdentity name name false (Some user) None None SrcApiKey in
  visible user r d = true <-> exists role, require_repo_permission st i (rp_id r) RoleRead d = (Ok role, d).
Proof.
  intros Hok Hr Hl i. rewrite visible_standing by done.
  setoid_rewrite permission_ok.
  pose proof (resolve_weight user (rp_id r) d) as Hw. split.
  - intros Hpos. destruct (resolve_repo_role user (rp_id r) d) as [role|]; simpl in Hw; [|lia]. exists role.
    pose proof (rank_bounds role). eapply GrantedUser; simpl; [done|done|done|done|done| |]; lia.
  - intros [role [[?|?]|? ? ? |u r' ? ? ? [= <-] ? ? ?]]; simpl in *; congruence || done.
Qed.

Lemma random_token_step n d : exists text m, random_token n d = (Ok text, set_draws m d).
Proof. unfold random_token. destruct (random_go _ _ _ _) as [out m]. by eexists _, _. Qed.

(** A key that is made under a new name: its row, and the tables around it. *)
Lemma create_key_row repo name user override agent expires d k token d' :
  List.find (active_named user name) (db_keys d) = None ->
  create_key repo name user override agent expires d = (Ok (k, token), d') ->
  (exists r, r ∈ db_keys d' /\ kr_key r = k /\ kr_hash r = hash_token token) /\
  revoked k = false /\ ak_user_id k = user /\ role_override k = override /\ expires_at k = expires /\
  db_devices d' = db_devices d /\ db_users d' = db_users d.
Proof.
  intros Hnew. unfold create_key, mbind at 1, M_bind at 1, draw. unfold mbind at 1, M_bind at 1.
  match goal with |- context [random_token 64 ?d0] => destruct (random_token_step 64 d0) as (text & n & ->) end.
  unfold now, get_st, put_st, fail, mret, mbind, M_bind, M_ret. simpl. rewrite Hnew.
  match goal with |- context [key_row_fits ?r _] => set (row := r) end.
  destruct (key_row_fits _ _); [|done]. intros [= <- <- <-]. split_and!; try done.
  exists row. split; [|done]. apply elem_of_app. right. by left.
Qed.

Lemma validate_row token r d :
  db_ok d -> r ∈ db_keys d -> kr_hash r = hash_token token -> revoked (kr_key r) = false -> expires_at (kr_key r) = None ->
  (validate_key token d).1 = Ok (kr_key r).
Proof.
  intros Hok Hin Hh Hr He. unfold validate_key, now, get_st, lift, mbind, M_bind. simpl.
  replace (head (filter _ _)) with (Some r).
  - simpl. by destruct (match _ with Some _ => _ | None => _ end).
  - symmetry. destruct (filter _ _) as [|x l] eqn:Hf.
    + exfalso. apply (elem_of_nil r). rewrite <-Hf. apply list_elem_of_filter. split; [|done]. split; [done|].
      unfold valid_at. by rewrite Hr, He.
    + simpl. f_equal. assert (x ∈ x :: l) as Hx by by left. rewrite <-Hf in Hx. apply list_elem_of_filter in Hx as [[Hxh _] Hx].
      apply (keys_inj kr_hash _ _ _ (ok_hashes d Hok)); congruence.
Qed.

(** A command line that follows the device flow gets its key: once a user has
    authorised a code, the poll, if it comes before the code expires, answers with a key
    that the server accepts as this user's, capped at [write] and without expiry, and
    every later poll of the code finds nothing: the key is shown once. The user has no
    active key of the flow's name before. *)
Theorem device_flow_delivers i user code d d1 :
  db_ok d -> ai_user_id i = Some user ->
  List.find (active_named (Some user) "CLI (device code)") (db_keys d) = None ->
  authorize_device_code_handler i code d = (Ok tt, d1) ->
  Forall (fun v => dv_code v = code -> (clock (db_ticks d1) <= dv_expires_at v)%Z) (db_devices d) ->
  exists key email d2 k,
    poll_device_code_handler code d1 = (Ok (mkDeviceStatus "authorized" (Some key) (Some user) (Some email)), d2) /\
    (poll_device_code_handler code d2).1 = Err AeNotFound /\
    (validate_key key d2).1 = Ok k /\
    ak_user_id k = Some user /\ role_override k = Some "write"%string /\ expires_at k = None.
Proof.
  intros Hok Hu Hnew Hauth Htime. pose proof (keeps_handle (H1 := ascii_unicode) st i (AcAuthorizeDevice code) d Hok) as (Hok1 & _ & _).
  simpl in Hok1. rewrite Hauth in Hok1. simpl in Hok1. unfold authorize_device_code_handler in Hauth. rewrite Hu in Hauth.
  unfold ask, mbind, M_bind in Hauth.
  match type of Hauth with context [create_key ?a ?b ?c ?o ?g ?x d] =>
    destruct (create_key a b c o g x d) as [[[k token]|e|] da] eqn:Hk; try done end. simpl in Hauth.
  apply create_key_row in Hk as ((r & Hin & <- & Hh) & Hrev & Huser & Hrole & Hexp & Hdev & Husers); [|done].
  unfold authorize_device_code, now, get_st, mbind, M_bind in Hauth. simpl in Hauth.
  destruct (existsb _ _) eqn:Hhit; [|done]. destruct (is_user user _) eqn:Huref; [|done]. injection Hauth as <-.
  apply existsb_exists in Hhit as (v & Hv%list_elem_of_In & Hhitv). simpl in Hv.
  pose proof Hhitv as [[Hcode%String.eqb_eq _]%andb_true_iff _]%andb_true_iff.
  match type of Hok1 with db_ok ?x => set (d1 := x) in * end.
  assert (find_by dv_code code (db_devices d1) = Some (mkDevice (dv_code v) (Some user) (Some token) (dv_expires_at v))) as Hrow.
  { apply find_by_elem; [apply Hok1| |done]. apply list_elem_of_fmap. exists v. by rewrite Hhitv. }
  apply is_user_ref in Huref. destruct (find_by us_id user (db_users d1)) as [u|] eqn:Hfu;
    [|by apply find_by_None in Hfu].
  assert ((dv_expires_at v <? clock (db_ticks d1))%Z = false) as Hlive.
  { apply Z.ltb_ge. rewrite Hdev in Hv. by apply (proj1 (Forall_forall _ _) Htime v). }
  exists token, (us_email u). eexists. exists (kr_key r). split; [|split; [|split; [|done]]].
  - unfold poll_device_code_handler, poll_device_code, ask, get_st, lift, now, mbind, M_bind. rewrite Hrow. simpl.
    simpl in Hlive. rewrite Hlive. simpl in Hfu. rewrite Hfu. reflexivity.
  - unfold poll_device_code_handler, poll_device_code, ask, get_st, lift, now, mbind, M_bind. simpl.
    replace (find_by _ _ _) with (@None DeviceRow); [done|]. symmetry. apply find_by_None.
    by intros (x & Hx & [Hne _]%list_elem_of_filter)%list_elem_of_fmap.
  - apply validate_row; [|done..]. apply ok_filter_devices, ok_set_ticks, Hok1.
Qed.

(** What a validation leaves: the time passes. *)
Lemma validate_ticks token d : db_ticks d <= db_ticks (validate_key token d).2.
Proof.
  unfold validate_key, now, get_st, put_st, lift, mret, mbind, M_bind, M_ret. simpl.
  destruct (head _); simpl; [|lia]. destruct (match _ with Some _ => _ | None => _ end); simpl; lia.
Qed.

Lemma bearer_identity `{!JwtLaws} name subject secret c t d :
  jwt_encode c secret = Some t -> current_secret (jwt_service st) = secret ->
  (seconds d <= exp c + leeway_secs (jwt_service st))%Z -> sub c = subject -> tc_name c = Some name ->
  exists i d', auth_middleware st false (Some ("Bearer " +:+ t)) d = (Ok (Some i), d') /\
    is_admin i = bool_decide (tc_role c = Some "admin"%string).
Proof.
  intros Henc Hcur Htime Hs Hn. destruct (jwt_dotted _ _ _ Henc) as [Hdot Htrim].
  unfold auth_middleware. rewrite bearer_header. cbv zeta. rewrite Htrim, Hdot. unfold verify. cbv zeta.
  rewrite Hcur. erewrite jwt_accepts by done. unfold seconds in Htime.
  destruct (Z.ltb_spec (exp c + leeway_secs (jwt_service st)) (clock (db_ticks d) / SECOND)); [lia|]. by eexists _, _.
Qed.
End flows.

Section escalation.
Context `{AuthEnv, JwtLib, !JwtLaws, Unicode}.
Variable st : AuthState.
Hypothesis clock_grows : forall m n, m <= n -> (clock m <= clock n)%Z.

Lemma seconds_grow m n : m <= n -> (clock m / SECOND <= clock n / SECOND)%Z.
Proof. intros Hmn. apply Z.div_le_mono; [done|]. by apply clock_grows. Qed.

(** The token that is exchanged for a key whose cap is [admin], or for the administrator's key. *)
Definition admin_claims (subject name : string) (t : Z) : TokenClaims :=
  mkClaims subject (Some name) None (Some "admin"%string) t (t + access_token_ttl (jwt_service st))%Z.

Lemma admin_exchange key r d :
  db_ok d -> r ∈ db_keys d -> kr_hash r = hash_token key -> revoked (kr_key r) = false -> expires_at (kr_key r) = None ->
  role_override (kr_key r) = Some "admin"%string ->
  exists subject name now token d', (seconds d <= now)%Z /\
    jwt_encode (admin_claims subject name now) (current_secret (jwt_service st)) = Some token /\
    token_exchange_handler st (mkTokenRequest "api_key" None (Some key) None) d =
      (Ok (mkTokenResponse token "Bearer" (access_token_ttl (jwt_service st)) None), d').
Proof.
  intros Hok Hin Hh Hrev Hexp Hrole. unfold token_exchange_handler, key_exchange. simpl.
  unfold signed, sign, ask, mret, mbind, M_bind, M_ret. simpl.
  destruct (String.eqb key (admin_key st)).
  - destruct (jwt_total (admin_claims "admin" "admin" (seconds d)) (current_secret (jwt_service st))) as [t Ht].
    eexists _, _, _, t, _. split; [reflexivity|]. split; [exact Ht|]. simpl. unfold admin_claims, seconds in Ht. by rewrite Ht.
  - pose proof (validate_row key r d Hok Hin Hh Hrev Hexp) as Hv. pose proof (validate_ticks key d) as Hticks.
    destruct (validate_key key d) as [o d'] eqn:Hvd. simpl in Hv, Hticks. subst o. simpl. rewrite Hrole.
    destruct (jwt_total (admin_claims (default (ak_id (kr_key r)) (ak_user_id (kr_key r))) (ak_name (kr_key r)) (seconds d'))
      (current_secret (jwt_service st))) as [t Ht].
    eexists _, _, _, t, _. split; [exact (seconds_grow _ _ Hticks)|]. split; [exact Ht|].
    unfold admin_claims, seconds in Ht. by rewrite Ht.
Qed.

(** C24. Any user can become the administrator of the server. A user asks for a key under a
    new name, without a repository, capped at [admin] (the check against the user's own
    role is made only when a repository is named), and exchanges it for an access token:
    the middleware takes the cap of the key, which the token carries as its role, for
    the role of the administrator. While the token lives, every request with it is the
    administrator's, and every repository is the user's own. *)
Theorem user_key_becomes_admin i user name agent d k key d1 :
  db_ok d -> is_admin i = false -> ai_user_id i = Some user ->
  List.find (active_named (Some user) name) (db_keys d) = None ->
  create_key_handler st i (mkCreateKey name None (Some "admin"%string) agent None None) d = (Ok (k, key), d1) ->
  exists reply d2, token_exchange_handler st (mkTokenRequest "api_key" None (Some key) None) d1 = (Ok reply, d2) /\
    forall d3, (seconds d3 <= seconds d1 + access_token_ttl (jwt_service st) + leeway_secs (jwt_service st))%Z ->
      exists i' d4, auth_middleware st false (Some ("Bearer " +:+ access_token reply)) d3 = (Ok (Some i'), d4) /\
        require_server_admin i' d4 = (Ok tt, d4) /\
        forall repo, require_repo_permission st i' repo RoleOwner d4 = (Ok RoleOwner, d4).
Proof.
  intros Hok Ha Hu Hnew Hcreate.
  pose proof (keeps_create_key_handler st i (mkCreateKey name None (Some "admin"%string) agent None None) d Hok) as (Hok1 & _).
  rewrite Hcreate in Hok1. simpl in Hok1. revert Hcreate. unfold create_key_handler. rewrite Ha, Hu.
  unfold ask, mret, mbind, M_bind, M_ret. simpl.
  destruct (create_key _ _ _ _ _ _ d) as [[[k' key']|e|] d1'] eqn:Hk; try done. intros [= -> -> ->].
  apply create_key_row in Hk as ((r & Hin & <- & Hh) & Hrev & Huser & Hrole & Hexp & _); [|done].
  destruct (admin_exchange key r d1 Hok1 Hin Hh Hrev Hexp Hrole) as (subject & kname & now & t & d2 & Hnow & Ht & Hx).
  eexists _, d2. split; [done|]. intros d3 H3. cbn [access_token].
  assert (seconds d3 <= exp (admin_claims subject kname now) + leeway_secs (jwt_service st))%Z as Htime by (simpl; lia).
  destruct (bearer_identity st _ _ _ _ _ d3 Ht eq_refl Htime eq_refl eq_refl) as (i' & d4 & Hi & Hadm).
  exists i', d4. split; [done|]. rewrite bool_decide_eq_true_2 in Hadm by done.
  split; [by unfold require_server_admin; rewrite Hadm|]. intros repo. unfold require_repo_permission. by rewrite Hadm.
Qed.
End escalation.

(** ** The theorems at work *)

Definition ex_key (id name token : string) : KeyRow :=
  mkKeyRow (mkApiKey id name token None 0 false (Some "alice"%string) None None None) None ("#" +:+ token).
Definition ex_repo : RepoRow := mkRepoRow "r1" "demo" (Some "o1"%string) 0.
(** Alice owns the organization of a repository and has a key. *)
Definition ex_full : AuthDb := mkAuthDb [mkOrg "o1" "Alice" "user-alice" 0] (db_users ex_db)
  [mkMember "o1" "alice" "owner" 0] [ex_repo] [mkSeed "v" "r1" "v1" "initial repository" "system"] {["r1" := "v1"]} []
  [ex_key "k1" "ci" "secret"] [] [mkDevice "AAAA-BBBB" None None 900000000000] [] ∅ 0 0.

Ltac check_tables := constructor; simpl;
  try (refine (bool_decide_unpack (NoDup _) _); vm_compute; exact I); try (by apply Forall_nil).

Lemma ex_db_ok : db_ok ex_db.
Proof.
  check_tables. intros id. unfold repo_ref. simpl. rewrite lookup_empty. split; [by intros ?%elem_of_nil|by intros []].
Qed.

Lemma ex_full_ok : db_ok ex_full.
Proof.
  check_tables; try (apply Forall_singleton).
  - split_and!; [by left|by left|by exists OrgOwner].
  - intros id. unfold repo_ref. simpl. rewrite list_elem_of_singleton. split; [intros ->; by rewrite lookup_singleton_eq|].
    intros Hs. destruct (decide (id = "r1"%string)); [done|]. rewrite lookup_singleton_ne in Hs by done. by destruct Hs.
  - split_and!; [by left|done|done].
  - by intros [].
Qed.

Lemma access_token_life_witness :
  exists t d1, @sign ex_env ex_jwt (jwt_new "old" None 0) "alice" None None (Some "write"%string) ex_db = (Ok t, d1) /\
    (@verify ex_env ex_jwt (jwt_new "new" (Some "old"%string) 0) t (set_ticks 1440 d1)).1 =
      Ok (mkClaims "alice" None None (Some "write"%string) 0 86400) /\
    (@verify ex_env ex_jwt (jwt_new "new" (Some "old"%string) 0) t (set_ticks 1441 d1)).1 = Err JwExpired /\
    (@verify ex_env ex_jwt (jwt_new "new" None 0) t d1).1 = Err JwInvalid.
Proof.
  eexists _, _. split; [reflexivity|].
  split_and!; (etransitivity; [by eapply (@access_token_life ex_env ex_jwt ex_laws)|vm_compute; reflexivity]).
Defined.

#[local] Existing Instances ex_env ascii_unicode.

Lemma requests_keep_tables_witness :
  db_ok ex_db /\
  let d := run_requests ex_state
    [RqDevice "https://vai"; RqToken (mkTokenRequest "session_exchange" (Some "cookie"%string) None None);
     RqPrivate false (Some "Bearer the-admin-key"%string) (AcCreateUser "bob@example.org" "Bob");
     RqPrivate false (Some "Bearer the-admin-key"%string) (AcCreateRepo "demo"); RqPoll "AAAA-BBBB"] ex_db in
  db_ok d /\ (length (db_users d), length (db_orgs d), length (db_repos d), length (db_refresh d), length (db_devices d)) = (2, 2, 1, 1, 1).
Proof. split; [exact ex_db_ok|]. split; [apply requests_keep_tables, ex_db_ok|vm_compute; reflexivity]. Defined.

Lemma revoked_stays_dead_witness :
  (validate_key "secret" ex_full).1 = Ok (kr_key (ex_key "k1" "ci" "secret")) /\
  (auth_middleware ex_state false (Some "Bearer secret"%string)
    (run_requests ex_state [RqDevice "https://vai"] (revoke_key "k1" ex_full).2)).1 = Err AeUnauthorized.
Proof.
  split; [vm_compute; reflexivity|].
  refine (proj2 (revoked_stays_dead ex_state ex_full (ex_key "k1" "ci" "secret") "secret" [RqDevice "https://vai"]
    ex_full_ok _ eq_refl) _ _ _); [by left|vm_compute; reflexivity|vm_compute; reflexivity|done].
Defined.

Lemma bits_simple n : simple_form (bits 32 n).
Proof.
  split; [reflexivity|]. generalize 32. intros w. revert n. induction w as [|w IH]; intros n; [done|]. simpl.
  rewrite IH. by destruct (Nat.odd n).
Qed.

Lemma refresh_tokens_never_work_witness :
  let rq := mkTokenRequest "session_exchange" (Some "cookie"%string) None None in
  let x := String.substring 3 64 (from_option (fun r => default EmptyString (tr_refresh_token r)) EmptyString
    (match (token_exchange_handler ex_state rq ex_db).1 with Ok r => Some r | _ => None end)) in
  (match (token_exchange_handler ex_state rq ex_db).1 with Ok r => tr_refresh_token r | _ => None end) = Some ("rt_" +:+ x) /\
  (refresh_token_handler ex_state ("rt_" +:+ x) (run_requests ex_state [RqToken rq] ex_db)).1 = Err AeUnauthorized.
Proof.
  intros rq x. split; [vm_compute; reflexivity|].
  refine (proj1 (refresh_tokens_never_work ex_state ex_db [RqToken rq] x _ bits_simple ex_db_ok eq_refl)).
  intros a b. apply string_app_inj_l.
Defined.

Lemma listed_iff_readable_witness :
  exists role, require_repo_permission ex_state (mkIdentity "k1" "k1" false (Some "alice"%string) None None SrcApiKey)
    (rp_id ex_repo) RoleRead ex_full = (Ok role, ex_full).
Proof.
  refine (proj1 (listed_iff_readable ex_state "alice" ex_repo ex_full "k1" ex_full_ok _ eq_refl) _); [by left|].
  vm_compute. reflexivity.
Defined.

Definition ex_alice : AgentIdentity := mkIdentity "k1" "ci" false (Some "alice"%string) None None SrcApiKey.

Lemma device_flow_delivers_witness :
  let d1 := (authorize_device_code_handler ex_alice "AAAA-BBBB" ex_full).2 in
  exists key email d2 k,
    poll_device_code_handler "AAAA-BBBB" d1 = (Ok (mkDeviceStatus "authorized" (Some key) (Some "alice"%string) (Some email)), d2) /\
    (poll_device_code_handler "AAAA-BBBB" d2).1 = Err AeNotFound /\
    (validate_key key d2).1 = Ok k /\
    ak_user_id k = Some "alice"%string /\ role_override k = Some "write"%string /\ expires_at k = None.
Proof.
  apply (device_flow_delivers ex_state ex_alice "alice" "AAAA-BBBB" ex_full); [exact ex_full_ok|reflexivity|vm_compute; reflexivity|vm_compute; reflexivity|].
  apply Forall_singleton. intros _. vm_compute. discriminate.
Defined.

Lemma ex_clock_grows m n : m <= n -> (clock m <= clock n)%Z.
Proof. unfold clock, ex_env, SECOND. lia. Qed.

Lemma user_key_becomes_admin_witness :
  exists k key d1, create_key_handler ex_state ex_alice (mkCreateKey "my key" None (Some "admin"%string) None None None) ex_full
      = (Ok (k, key), d1) /\
  exists reply d2, token_exchange_handler ex_state (mkTokenRequest "api_key" None (Some key) None) d1 = (Ok reply, d2) /\
    exists i' d4, auth_middleware ex_state false (Some ("Bearer " +:+ access_token reply)) d2 = (Ok (Some i'), d4) /\
      require_server_admin i' d4 = (Ok tt, d4).
Proof.
  eexists _, _, _. split; [vm_compute; reflexivity|].
  edestruct (user_key_becomes_admin ex_state ex_clock_grows ex_alice "alice" "my key" None ex_full)
    as (reply & d2 & Hx & Hlater); [exact ex_full_ok|reflexivity|reflexivity|vm_compute; reflexivity|vm_compute; reflexivity|].
  eexists _, _. split; [exact Hx|]. destruct (Hlater d2) as (i' & d4 & Hi & Hadm & _); [|by eexists _, _].
  pose proof (f_equal (fun p => db_ticks p.2) Hx) as Ht. simpl in Ht. unfold seconds. rewrite <-Ht. vm_compute. discriminate.
Defined.

(** ** What else the handlers allow *)

(** Bob may write to the repository, which belongs to Alice's organization. *)
Definition ex_shared : AuthDb := set_users (db_users ex_full ++ [mkUser "bob" "bob@example.org" "Bob" 0; mkUser "eve" "eve@example.org" "Eve" 0])
  (set_collabs [mkCollab "r1" "bob" "write" 0] ex_full).
Definition ex_bob : AgentIdentity := mkIdentity "k2" "ci" false (Some "bob"%string) (Some "write"%string) None SrcApiKey.

(** Whoever may write can make anyone an owner. *)
Lemma writer_adds_owner :
  let d := (add_collaborator_handler ex_state ex_bob "user-alice" "demo" "eve" "owner" ex_shared).2 in
  require_repo_permission ex_state ex_bob "r1" RoleAdmin ex_shared = (Err AeForbidden, ex_shared) /\
  resolve_repo_role "eve" "r1" ex_shared = None /\ resolve_repo_role "eve" "r1" d = Some RoleOwner.
Proof. vm_compute. split_and!; reflexivity. Qed.

(** A key that is capped makes a key that is not: the cap of the maker is looked at only
    when a repository and a cap are asked for. *)
Lemma capped_key_mints_uncapped :
  let reader := mkIdentity "k1" "ci" false (Some "alice"%string) (Some "read"%string) None SrcApiKey in
  require_repo_permission ex_state reader "r1" RoleWrite ex_full = (Err AeForbidden, ex_full) /\
  match create_key_handler ex_state reader (mkCreateKey "fresh" None None None None None) ex_full with
  | (Ok (k, _), d) => require_repo_permission ex_state (key_identity k) "r1" RoleOwner d = (Ok RoleOwner, d)
  | _ => False
  end.
Proof. vm_compute. split; reflexivity. Qed.

(** A key that is asked for again keeps the expiry and the cap it had, whatever is asked. *)
Lemma rotated_key_keeps_terms hash prefix t override r :
  let k := kr_key (rotate hash prefix t override r) in
  expires_at k = expires_at (kr_key r) /\
  (is_Some (role_override (kr_key r)) -> role_override k = role_override (kr_key r)).
Proof. split; [done|]. by intros [s Hs]; simpl; rewrite Hs. Qed.

(** To authorise a code that does not exist is refused, but the key of the flow's name is
    made, or its text replaced, all the same. *)
Lemma unknown_code_still_makes_key :
  let '(o, d) := authorize_device_code_handler ex_alice "no such code" ex_full in
  o = Err AeNotFound /\ length (db_keys d) = S (length (db_keys ex_full)).
Proof. vm_compute. split; reflexivity. Qed.
