(* ===== verification/RateLimit.v ===== *)
(** The limits on the rate of requests ([src/src/server/mod.rs]): the sliding window of
    [RateLimiter], the classes of requests and the middleware that applies one to the
    other. *)
From S2P Require Import Prelude RustStr EventLog Auth AuthKeys AuthServer.

Inductive RateLimitResult : Type := Allowed | Denied (retry_after_secs : Z).

(** The times of the recent requests of each key, oldest first, in nanoseconds. *)
Abbreviation RateLimiter := (gmap string (list Z)).

(** [while matches!(front, Some(ts) if ts <= cutoff) { pop_front }] *)
Fixpoint drop_old (cutoff : Z) (l : list Z) : list Z :=
  match l with
  | ts :: l' => if (ts <=? cutoff)%Z then drop_old cutoff l' else l
  | [] => []
  end.

(** A bucket that is full without an entry, which needs a limit of zero, panics. The instant
    before the window is a point of the clock, whose range goes far below its start; the [unwrap_or] of
    the source, for a clock that cannot show it, is not modelled. *)
Definition check_rate (key : string) (limit : nat) (window now : Z) (windows : RateLimiter) :
    outcome unit RateLimitResult * RateLimiter :=
  let entry := drop_old (now - window) (default [] (windows !! key)) in
  if limit <=? length entry then
    (match entry with
     | [] => Panic
     | oldest :: _ => Ok (Denied (Z.max 1 (Z.max 0 (window - Z.max 0 (now - oldest)) / SECOND)))
     end, <[key := entry]> windows)
  else (Ok Allowed, <[key := entry ++ [now]]> windows).

Inductive RateLimitCategory : Type := AuthIp | IssueCreate | WorkspaceCreate | FileUpload | NoLimit.

#[export] Instance RateLimitCategory_eq_dec : EqDecision RateLimitCategory.
Proof. solve_decision. Defined.

Definition classify_rate_limit (method path : string) : RateLimitCategory :=
  let p := match strip_prefix "/api/repos/" path with
           | Some rest => match split_once "/" rest with Some (_, x) => String "/" x | None => EmptyString end
           | None => path
           end in
  if String.eqb method "POST" then
    if String.eqb p "/api/keys" then AuthIp
    else if String.eqb p "/issues" then IssueCreate
    else if String.eqb p "/workspaces" then WorkspaceCreate
    else if existsb (fun pat => ends_with pat p) ["/files"; "/upload-snapshot"; "/attachments"]%string then FileUpload
    else NoLimit
  else NoLimit.

(** What the middleware reads of a request; [hr_peer] is the address of the socket. *)
Record HttpRequest : Type := mkHttpRequest {
  hr_method : string; hr_path : string; x_forwarded_for : option string; x_real_ip : option string;
  hr_peer : option string; hr_identity : option AgentIdentity
}.

Definition nonempty (s : string) : option string := if String.eqb s EmptyString then None else Some s.

Definition extract_client_ip (r : HttpRequest) : string :=
  match v ← x_forwarded_for r; first ← head (split_on "," v); nonempty (trim first) with
  | Some ip => ip
  | None =>
      match v ← x_real_ip r; nonempty (trim v) with
      | Some ip => ip
      | None => default "unknown"%string (hr_peer r)
      end
  end.

(** The bucket of a request, its limit and its window; none when nothing applies. *)
Definition bucket (r : HttpRequest) : option (string * nat * Z) :=
  let of_key prefix limit := (fun i => (prefix +:+ ai_key_id i, limit, 3600 * SECOND)%Z) <$> hr_identity r in
  match classify_rate_limit (hr_method r) (hr_path r) with
  | NoLimit => None
  | AuthIp => Some ("ip_auth:" +:+ extract_client_ip r, 10, (60 * SECOND)%Z)
  | IssueCreate => of_key "issue_create:"%string 100
  | WorkspaceCreate => of_key "workspace_create:"%string 50
  | FileUpload => of_key "file_upload:"%string 200
  end.

(** [None] lets the request through, [Some] is the reply that denies it. *)
Definition rate_limit_middleware (r : HttpRequest) (now : Z) (windows : RateLimiter) :
    outcome unit (option Z) * RateLimiter :=
  match bucket r with
  | None => (Ok None, windows)
  | Some (key, limit, window) =>
      let '(o, windows') := check_rate key limit window now windows in
      (match o with Ok Allowed => Ok None | Ok (Denied s) => Ok (Some s) | Err e => Err e | Panic => Panic end, windows')
  end.

(** Requests one after another, each with its time and whether it passed. *)
Fixpoint run_limited (l : list (HttpRequest * Z)) (windows : RateLimiter) : list (HttpRequest * Z * bool) * RateLimiter :=
  match l with
  | [] => ([], windows)
  | (r, now) :: l =>
      let '(o, windows1) := rate_limit_middleware r now windows in
      let '(rest, windows2) := run_limited l windows1 in
      ((r, now, match o with Ok None => true | _ => false end) :: rest, windows2)
  end.

(** ** Buckets *)

(** A key has one limit and one window: the classes have prefixes of their own. *)
Lemma bucket_class r k n w :
  bucket r = Some (k, n, w) -> exists id, (k, n, w) ∈
    [("ip_auth:" +:+ id, 10, (60 * SECOND)%Z); ("issue_create:" +:+ id, 100, (3600 * SECOND)%Z);
     ("workspace_create:" +:+ id, 50, (3600 * SECOND)%Z); ("file_upload:" +:+ id, 200, (3600 * SECOND)%Z)].
Proof.
  unfold bucket. destruct (classify_rate_limit _ _), (hr_identity r); simpl; try discriminate;
    intros [= <- <- <-]; eexists; rewrite !elem_of_cons; tauto.
Qed.

Lemma bucket_inj r r' k n n' w w' : bucket r = Some (k, n, w) -> bucket r' = Some (k, n', w') -> n = n' /\ w = w'.
Proof.
  intros [id H1]%bucket_class [id' H2]%bucket_class. rewrite !elem_of_cons, elem_of_nil in *.
  destruct H1 as [H1|[H1|[H1|[H1|[]]]]], H2 as [H2|[H2|[H2|[H2|[]]]]]; simplify_eq/=; done.
Qed.

(** ** The window *)

Lemma drop_old_filter c l : StronglySorted Z.le l -> drop_old c l = filter (fun t => (c < t)%Z) l.
Proof.
  induction 1 as [|t l Hs IH Hall]; [done|]. simpl. destruct (Z.leb_spec t c).
  - rewrite filter_cons_False by lia. done.
  - rewrite filter_all; [done|]. constructor; [lia|]. eapply Forall_impl; [done|]. simpl. lia.
Qed.

Lemma run_limited_snoc l r now w :
  run_limited (l ++ [(r, now)]) w =
  let '(h, w1) := run_limited l w in
  let '(o, w2) := rate_limit_middleware r now w1 in
  (h ++ [(r, now, match o with Ok None => true | _ => false end)], w2).
Proof.
  revert w. induction l as [|[r' t] l IH]; intros w; simpl.
  - by destruct (rate_limit_middleware r now w).
  - destruct (rate_limit_middleware r' t w) as [o w1]. rewrite IH. destruct (run_limited l w1) as [h w2].
    by destruct (rate_limit_middleware r now w2).
Qed.

Definition of_bucket (k : string) (x : HttpRequest * Z * bool) : bool :=
  x.2 && match bucket x.1.1 with Some (k', _, _) => String.eqb k k' | None => false end.
(** When the requests of a bucket passed. *)
Definition passed_times (k : string) (h : list (HttpRequest * Z * bool)) : list Z :=
  (fun x => x.1.2) <$> filter (of_bucket k) h.

Lemma passed_times_snoc k h x :
  passed_times k (h ++ [x]) = passed_times k h ++ (if of_bucket k x then [x.1.2] else []).
Proof.
  unfold passed_times. rewrite filter_app, fmap_app. f_equal. rewrite filter_cons, filter_nil.
  case_decide as Hx; by destruct (of_bucket k x).
Qed.

(** What the limiter remembers: for each bucket the times that passed, less some that are
    out of every window to come. *)
Record limiter_ok (h : list (HttpRequest * Z * bool)) (w : RateLimiter) (last : Z) : Prop := mkLimiterOk {
  lo_sorted : forall k, StronglySorted Z.le (passed_times k h);
  lo_last : forall k t, t ∈ passed_times k h -> (t <= last)%Z;
  lo_kept : forall k, exists old, passed_times k h = old ++ default [] (w !! k) /\
    forall r n window, bucket r = Some (k, n, window) -> Forall (fun t => t <= last - window)%Z old
}.

(** The entry, once old times are dropped, is what passed within the window. *)
Lemma kept_window h w last k r n window now :
  limiter_ok h w last -> (last <= now)%Z -> bucket r = Some (k, n, window) ->
  drop_old (now - window) (default [] (w !! k)) = filter (fun t => (now - window < t)%Z) (passed_times k h).
Proof.
  intros [Hs _ Hk] Hlast Hb. destruct (Hk k) as (old & Heq & Hold). specialize (Hold _ _ _ Hb).
  rewrite drop_old_filter by by eapply StronglySorted_app_1_r; rewrite <-Heq.
  rewrite Heq, filter_app, (filter_none _ old); [done|]. eapply Forall_impl; [done|]. simpl. lia.
Qed.

Lemma middleware_eq r now w k n window :
  bucket r = Some (k, n, window) ->
  let kept := drop_old (now - window) (default [] (w !! k)) in
  rate_limit_middleware r now w =
    if n <=? length kept then
      (match kept with [] => Panic
       | t :: _ => Ok (Some (Z.max 1 (Z.max 0 (window - Z.max 0 (now - t)) / SECOND))) end, <[k := kept]> w)
    else (Ok None, <[k := kept ++ [now]]> w).
Proof.
  intros Hb kept. unfold rate_limit_middleware. rewrite Hb. unfold check_rate. fold kept.
  destruct (n <=? length kept); [|done]. by destruct kept.
Qed.

Lemma limits_positive r k n window : bucket r = Some (k, n, window) -> 0 < n /\ (0 < window)%Z.
Proof.
  intros [id Hb]%bucket_class. rewrite !elem_of_cons, elem_of_nil in Hb.
  destruct Hb as [Hb|[Hb|[Hb|[Hb|[]]]]]; injection Hb as _ -> ->; split; (lia || done).
Qed.

(** What the middleware answers, in terms of what has passed. *)
Lemma middleware_answers h w last r now k n window :
  limiter_ok h w last -> (last <= now)%Z -> bucket r = Some (k, n, window) ->
  let recent := filter (fun t => (now - window < t)%Z) (passed_times k h) in
  exists o, rate_limit_middleware r now w = (o, <[k := recent ++ (if n <=? length recent then [] else [now])]> w) /\
    if n <=? length recent then exists s, o = Ok (Some s) /\ (1 <= s <= Z.max 1 (window / SECOND))%Z else o = Ok None.
Proof.
  intros Hok Hlast Hb recent. rewrite (middleware_eq _ _ _ _ _ _ Hb). cbv zeta.
  rewrite (kept_window _ _ _ _ _ _ _ _ Hok Hlast Hb). fold recent. destruct (Nat.leb_spec n (length recent)); [|by eexists].
  rewrite app_nil_r. destruct (limits_positive _ _ _ _ Hb) as [Hn Hw]. destruct recent as [|t l] eqn:Hr; [simpl in *; lia|].
  eexists. split; [done|]. eexists. split; [done|].
  assert (Z.max 0 (window - Z.max 0 (now - t)) / SECOND <= window / SECOND)%Z by (apply Z.div_le_mono; [done|lia]). lia.
Qed.

Lemma of_bucket_key k r now ok : of_bucket k (r, now, ok) = true -> ok = true /\ exists n window, bucket r = Some (k, n, window).
Proof.
  unfold of_bucket. simpl. intros [-> Hb]%andb_true_iff. split; [done|].
  destruct (bucket r) as [[[k' n] w]|]; [|done]. apply String.eqb_eq in Hb as <-. by exists n, w.
Qed.

Lemma old_later w1 w2 (last now : Z) old :
  Forall (fun t => t <= last - w1)%Z old -> (last <= now)%Z -> w2 = w1 -> Forall (fun t => t <= now - w2)%Z old.
Proof. intros Ho Hl ->. eapply Forall_impl; [done|]. simpl. lia. Qed.

(** A split of sorted times at a bound. *)
Lemma split_window c l : StronglySorted Z.le l ->
  l = filter (fun t => (t <= c)%Z) l ++ filter (fun t => (c < t)%Z) l.
Proof.
  induction 1 as [|t l Hs IH Hall]; [done|]. destruct (Z.le_gt_cases t c) as [Ht|Ht].
  - rewrite filter_cons_True by done. rewrite (filter_cons_False (fun t => (c < t)%Z)) by lia. simpl. by rewrite <-IH.
  - rewrite filter_none, filter_all; [done|..]; constructor; try lia; (eapply Forall_impl; [done|]); simpl; lia.
Qed.

Lemma limiter_step h w last r now :
  limiter_ok h w last -> (last <= now)%Z ->
  let '(o, w') := rate_limit_middleware r now w in
  limiter_ok (h ++ [(r, now, match o with Ok None => true | _ => false end)]) w' now.
Proof.
  intros Hok Hlast. destruct (rate_limit_middleware r now w) as [o w'] eqn:Hm.
  set (ok := match o with Ok None => true | _ => false end). pose proof Hok as [Hs Hl Hk]. constructor.
  - intros k. rewrite passed_times_snoc. apply StronglySorted_app_intro; [done| |].
    + destruct (of_bucket _ _); repeat constructor.
    + intros x y Hx Hy. destruct (of_bucket _ _); [|by apply elem_of_nil in Hy].
      apply list_elem_of_singleton in Hy as ->. simpl. specialize (Hl k x Hx). lia.
  - intros k t. rewrite passed_times_snoc, elem_of_app. intros [Ht|Ht]; [specialize (Hl k t Ht); lia|].
    destruct (of_bucket _ _); [|by apply elem_of_nil in Ht]. apply list_elem_of_singleton in Ht as ->. simpl. lia.
  - intros k. rewrite passed_times_snoc. destruct (bucket r) as [[[k0 n] window]|] eqn:Hb.
    + destruct (middleware_answers h w last r now k0 n window Hok Hlast Hb) as (o' & Hm' & Ho').
      rewrite Hm in Hm'. injection Hm' as <- ->. destruct (decide (k = k0)) as [->|Hne].
      * rewrite lookup_insert_eq. simpl. exists (filter (fun t => (t <= now - window)%Z) (passed_times k0 h)). split.
        -- rewrite app_assoc, <-split_window by done. f_equal. unfold of_bucket. simpl. rewrite Hb, String.eqb_refl, andb_true_r.
           unfold ok. destruct (n <=? length _); [destruct Ho' as (s & -> & _)|subst o]; done.
        -- intros r' n' window' Hb'. destruct (bucket_inj _ _ _ _ _ _ _ Hb Hb') as [_ <-].
           apply Forall_forall. by intros t [Ht _]%list_elem_of_filter.
      * rewrite lookup_insert_ne by done. destruct (Hk k) as (old & Heq & Hold). exists old. split.
        -- unfold of_bucket. simpl. rewrite Hb. destruct (String.eqb_spec k k0); [done|]. by rewrite ?andb_false_r, app_nil_r.
        -- intros r' n' window' Hb'. eapply old_later; [by eapply Hold|done|done].
    + unfold rate_limit_middleware in Hm. rewrite Hb in Hm. injection Hm as <- <-. destruct (Hk k) as (old & Heq & Hold).
      exists old. split.
      * unfold of_bucket. simpl. rewrite Hb. by rewrite ?andb_false_r, app_nil_r.
      * intros r' n' window' Hb'. eapply old_later; [by eapply Hold|done|done].
Qed.

Definition history (l : list (HttpRequest * Z)) : list (HttpRequest * Z * bool) := (run_limited l ∅).1.

(** The times of the requests do not go back. *)
Definition in_order (l : list (HttpRequest * Z)) : Prop := StronglySorted Z.le l.*2.

Lemma run_limited_ok l : in_order l -> forall last, Forall (fun t => t <= last)%Z l.*2 ->
  limiter_ok (history l) (run_limited l ∅).2 last.
Proof.
  unfold in_order, history. induction l as [|[r now] l IH] using rev_ind; intros Hs last Hlast.
  - simpl. constructor.
    + intros k. constructor.
    + by intros k t ?%elem_of_nil.
    + intros k. exists []. rewrite lookup_empty. split; [done|]. intros. constructor.
  - rewrite fmap_app in *. apply Forall_app in Hlast as [_ Hnow]. simpl in Hnow. rewrite Forall_singleton in Hnow.
    assert (Forall (fun t => t <= now)%Z l.*2) as Hle.
    { apply Forall_forall. intros t Ht. eapply StronglySorted_app_1_elem_of; [done..|by left]. }
    apply StronglySorted_app_1_l in Hs. specialize (IH Hs now Hle). rewrite run_limited_snoc.
    destruct (run_limited l ∅) as [h w]. simpl in *.
    pose proof (limiter_step h w now r now IH (Z.le_refl now)) as Hstep. destruct (rate_limit_middleware r now w) as [o w'].
    destruct Hstep as [Hs' Hl' Hk']. constructor; [done| |].
    + intros k t Ht. specialize (Hl' k t Ht). simpl in *. lia.
    + intros k. destruct (Hk' k) as (old & Heq & Hold). exists old. split; [done|]. intros r' n window Hb.
      eapply old_later; [by eapply Hold|simpl in *; lia|done].
Qed.

Lemma filter_length_mono {A} (P Q : A -> Prop) `{!forall x, Decision (P x), !forall x, Decision (Q x)} l :
  (forall x, P x -> Q x) -> length (filter P l) <= length (filter Q l).
Proof.
  intros HPQ. induction l as [|x l IH]; [done|]. rewrite !filter_cons.
  repeat case_decide; simpl; [lia|exfalso; auto|lia|done].
Qed.

(** How many requests of a bucket passed after a time. *)
Definition passed_after (k : string) (c : Z) (h : list (HttpRequest * Z * bool)) : nat :=
  length (filter (fun t => (c < t)%Z) (passed_times k h)).

Lemma limited_answers l r now k n window :
  in_order (l ++ [(r, now)]) -> bucket r = Some (k, n, window) ->
  let o := (rate_limit_middleware r now (run_limited l ∅).2).1 in
  if n <=? passed_after k (now - window) (history l) then exists s, o = Ok (Some s) /\ (1 <= s <= Z.max 1 (window / SECOND))%Z
  else o = Ok None.
Proof.
  intros Hs Hb o. unfold in_order in Hs. rewrite fmap_app in Hs.
  assert (Forall (fun t => t <= now)%Z l.*2) as Hle.
  { apply Forall_forall. intros t Ht. eapply StronglySorted_app_1_elem_of; [done..|by left]. }
  apply StronglySorted_app_1_l in Hs. pose proof (run_limited_ok l Hs now Hle) as Hok.
  destruct (middleware_answers _ _ _ _ _ _ _ _ Hok (Z.le_refl now) Hb) as (o' & Hm & Ho).
  unfold o. by rewrite Hm.
Qed.

(** C26. The limiter is exact: with a clock that does not go back, a request that falls
    into a bucket passes if and only if fewer requests of the bucket than its limit have
    passed within the window before it, whatever other requests came in between;
    otherwise it is denied with a wait of at least a second and at most the window. It
    never panics. Refused requests do not count. *)
Theorem limiter_exact l r now k n window :
  in_order (l ++ [(r, now)]) -> bucket r = Some (k, n, window) ->
  let o := (rate_limit_middleware r now (run_limited l ∅).2).1 in
  (o = Ok None <-> passed_after k (now - window) (history l) < n) /\
  (n <= passed_after k (now - window) (history l) -> exists s, o = Ok (Some s) /\ (1 <= s <= Z.max 1 (window / SECOND))%Z).
Proof.
  intros Hs Hb o. pose proof (limited_answers l r now k n window Hs Hb) as Ho. fold o in Ho. cbv zeta in Ho.
  destruct (Nat.leb_spec n (passed_after k (now - window) (history l))) as [Hn|Hn].
  - split; [|done]. destruct Ho as (s & -> & _). split; [done|lia].
  - split; [done|lia].
Qed.

(** No window is overrun: in every stretch of time as long as its window, a bucket lets
    at most its limit of requests pass. *)
Theorem window_never_overrun l r k n window t :
  in_order l -> bucket r = Some (k, n, window) ->
  length (filter (fun x => (t - window < x <= t)%Z) (passed_times k (history l))) <= n.
Proof.
  unfold in_order. induction l as [|[r' now] l IH] using rev_ind; intros Hs Hb; [simpl; lia|].
  pose proof (fmap_app snd l [(r', now)]) as Hf. rewrite Hf in Hs. pose proof (StronglySorted_app_1_l _ _ _ Hs) as Hs1.
  specialize (IH Hs1 Hb). unfold history. rewrite run_limited_snoc.
  destruct (run_limited l ∅) as [h w] eqn:Hrun. destruct (rate_limit_middleware r' now w) as [o w'] eqn:Hm. simpl.
  unfold history in IH. rewrite Hrun in IH. simpl in IH. rewrite passed_times_snoc, filter_app, length_app. simpl.
  destruct (of_bucket _ _) eqn:Hob; [|simpl; lia]. apply of_bucket_key in Hob as (Hpass & n' & window' & Hb').
  destruct (bucket_inj _ _ _ _ _ _ _ Hb Hb') as [<- <-]. rewrite filter_cons, filter_nil. case_decide as Ht; [|simpl; lia].
  pose proof (limited_answers l r' now k n window) as Hans. unfold in_order, history, passed_after in Hans.
  rewrite Hf, Hrun in Hans. simpl in Hans. rewrite Hm in Hans. specialize (Hans Hs Hb').
  assert (length (filter (fun x => (t - window < x <= t)%Z) (passed_times k h)) <=
          length (filter (fun x => (now - window < x)%Z) (passed_times k h))) as Hle.
  { apply filter_length_mono. simpl. lia. }
  simpl in *. destruct (Nat.leb_spec n (length (filter (fun x => (now - window < x)%Z) (passed_times k h)))); [|lia].
  destruct Hans as (s & -> & _). done.
Qed.

(** ** Examples *)

Definition key_request (ip : option string) : HttpRequest := mkHttpRequest "POST" "/api/keys" ip None None None.

(** Ten requests at once. *)
Definition ex_requests : list (HttpRequest * Z) :=
  replicate 10 (key_request (Some "10.0.0.1"%string), 0%Z).

Lemma limiter_exact_witness :
  passed_after "ip_auth:10.0.0.1" (- 60 * SECOND) (history ex_requests) = 10 /\
  exists s, (rate_limit_middleware (key_request (Some "10.0.0.1"%string)) 0 (run_limited ex_requests ∅).2).1 = Ok (Some s) /\
    (1 <= s <= 60)%Z.
Proof.
  split; [vm_compute; reflexivity|].
  refine (proj2 (limiter_exact ex_requests (key_request (Some "10.0.0.1"%string)) 0 "ip_auth:10.0.0.1" 10 (60 * SECOND) _ eq_refl) _).
  - unfold in_order. repeat (constructor; [|repeat constructor; done]). constructor.
  - apply Nat.leb_le. vm_compute. reflexivity.
Defined.

Lemma window_never_overrun_witness :
  length (filter (fun x => (0 - 60 * SECOND < x <= 0)%Z) (passed_times "ip_auth:10.0.0.1" (history (ex_requests ++ ex_requests)))) <= 10.
Proof.
  refine (window_never_overrun (ex_requests ++ ex_requests) (key_request (Some "10.0.0.1"%string)) "ip_auth:10.0.0.1" 10 (60 * SECOND) 0 _ eq_refl).
  unfold in_order. repeat (constructor; [|repeat constructor; done]). constructor.
Defined.

(** The wait is rounded down: a client that waits as told is denied again. *)
Lemma retry_comes_too_early :
  let r := key_request (Some "10.0.0.1"%string) in
  let denied_at := (58 * SECOND + 500000000)%Z in
  let w := (run_limited ex_requests ∅).2 in
  let '(o, w1) := rate_limit_middleware r denied_at w in
  o = Ok (Some 1%Z) /\ (rate_limit_middleware r (denied_at + 1 * SECOND) w1).1 = Ok (Some 1%Z).
Proof. vm_compute. split; reflexivity. Qed.

(** A client that writes another address into the header of a proxy has another bucket. *)
Lemma forwarded_header_escapes ip ip' :
  "ip_auth:" +:+ extract_client_ip (key_request ip) <> "ip_auth:" +:+ extract_client_ip (key_request ip') ->
  forall n w n' w' k k', bucket (key_request ip) = Some (k, n, w) -> bucket (key_request ip') = Some (k', n', w') -> k <> k'.
Proof. intros Hne n w n' w' k k' [= <- _ _] [= <- _ _]. exact Hne. Qed.
