(* ===== verification/IssuePg.v ===== *)
(** The issues of the hosted server: the tables of issues, comments, mentions, links and
    attachments of one repository, and their stores over Postgres
    ([src/src/storage/postgres/issue.rs], [src/src/storage/mod.rs]). *)
From S2P Require Import Prelude Table RustStr EventLog Workspace Issue Pagination ServerRepo Auth.

(** ** Rows *)

Inductive IssueLinkRelationship : Type := Blocks | RelatesTo | Duplicates.

#[export] Instance IssueLinkRelationship_eq_dec : EqDecision IssueLinkRelationship.
Proof. solve_decision. Defined.

Definition rel_from_db_str (s : string) : option IssueLinkRelationship :=
  if String.eqb s "blocks" then Some Blocks
  else if String.eqb s "relates-to" then Some RelatesTo
  else if String.eqb s "duplicates" then Some Duplicates
  else None.
Definition rel_as_str (r : IssueLinkRelationship) : string :=
  match r with Blocks => "blocks" | RelatesTo => "relates-to" | Duplicates => "duplicates" end.
Definition inverse_str (r : IssueLinkRelationship) : string :=
  match r with Blocks => "is-blocked-by" | RelatesTo => "relates-to" | Duplicates => "is-duplicated-by" end.

Lemma rel_roundtrip r : rel_from_db_str (rel_as_str r) = Some r.
Proof. by destruct r. Qed.

Record IssueLink : Type := mkLink { il_source : Uuid; il_target : Uuid; il_relationship : IssueLinkRelationship }.

Record CommentMention : Type := mkMention {
  cm_id : Uuid; cm_comment_id : Uuid; mentioned_user_id : option Uuid; mentioned_key_id : option Uuid;
  mentioned_name : string; mention_type : string
}.
Record NewCommentMention : Type := mkNewMention {
  nm_user_id : option Uuid; nm_key_id : option Uuid; nm_name : string; nm_type : string
}.
Definition entity_id (m : CommentMention) : option Uuid :=
  match mentioned_user_id m with Some u => Some u | None => mentioned_key_id m end.

Record IssueAttachment : Type := mkAttachment {
  at_id : Uuid; at_issue_id : Uuid; at_filename : string; at_content_type : string; size_bytes : Z;
  s3_key : string; uploaded_by : string; at_created_at : DateTime
}.

(** A row of [issues] without its status, which is in the column [sv_issues] of the
    repository, where the handlers of workspaces find it. *)
Record IssueInfo : Type := mkInfo {
  ii_id : Uuid; ii_title : string; ii_description : string; ii_priority : IssuePriority; ii_labels : list string;
  ii_creator : string; ii_agent_source : option AgentSource; ii_resolution : option string;
  ii_acceptance_criteria : list string; ii_created_at : DateTime; ii_updated_at : DateTime
}.

Record NewIssue : Type := mkNewIssue {
  ni_title : string; ni_description : string; ni_priority : IssuePriority; ni_labels : list string;
  ni_creator : string; ni_agent_source : option AgentSource; ni_acceptance_criteria : list string
}.
(** The workspace of an update is not written by any back end. *)
Record IssueUpdate : Type := mkIssueUpdate {
  iu_title : option string; iu_description : option string; iu_priority : option IssuePriority;
  iu_labels : option (list string); iu_status : option IssueStatus; iu_resolution : option string;
  iu_workspace_id : option Uuid; iu_acceptance_criteria : option (list string)
}.
Definition no_update : IssueUpdate := mkIssueUpdate None None None None None None None None.

(** One repository with its issues. *)
Record Desk : Type := mkDesk {
  dk_repo : ServerRepo; dk_issues : list IssueInfo; dk_comments : list IssueComment; dk_mentions : list CommentMention;
  dk_links : list IssueLink; dk_attachments : list IssueAttachment
}.

Definition set_repo r d := mkDesk r (dk_issues d) (dk_comments d) (dk_mentions d) (dk_links d) (dk_attachments d).
Definition set_infos x d := mkDesk (dk_repo d) x (dk_comments d) (dk_mentions d) (dk_links d) (dk_attachments d).
Definition set_desk_comments x d := mkDesk (dk_repo d) (dk_issues d) x (dk_mentions d) (dk_links d) (dk_attachments d).
Definition set_mentions x d := mkDesk (dk_repo d) (dk_issues d) (dk_comments d) x (dk_links d) (dk_attachments d).
Definition set_desk_links x d := mkDesk (dk_repo d) (dk_issues d) (dk_comments d) (dk_mentions d) x (dk_attachments d).
Definition set_attachments x d := mkDesk (dk_repo d) (dk_issues d) (dk_comments d) (dk_mentions d) (dk_links d) x.

Abbreviation St := (M Desk StorageError).

Definition info_of (id : Uuid) (d : Desk) : option IssueInfo := find_by ii_id id (dk_issues d).
Definition status_of (d : Desk) (id : Uuid) : IssueStatus := default Open (sv_issues (dk_repo d) !! id).
Definition set_status (id : Uuid) (s : IssueStatus) (d : Desk) : Desk :=
  set_repo (set_issue_rows (<[id := s]> (sv_issues (dk_repo d))) (dk_repo d)) d.

(** [row_to_issue] *)
Definition info_to_issue (d : Desk) (r : IssueInfo) : Issue :=
  mkIssue (ii_id r) (ii_title r) (ii_description r) (status_of d (ii_id r)) (ii_priority r) (ii_labels r) (ii_creator r)
    (ii_resolution r) (ii_agent_source r) (ii_acceptance_criteria r) (ii_created_at r) (ii_updated_at r).

Section stores.
Context `{AuthEnv}.
(** The order in which a query visits the rows, the comparison of texts and the lower
    case of the database. *)
Variable scan : forall A, list A -> list A.
Variable collate : string -> string -> comparison.
Variable pg_lower : string -> string.

Definition desk_now {E} : M Desk E DateTime := fun d =>
  let r := dk_repo d in (Ok (clock (sv_ticks r)), set_repo (set_streams (sv_draws r) (S (sv_ticks r)) r) d).
Definition desk_draw {E} : M Desk E Uuid := fun d =>
  let r := dk_repo d in (Ok (uuid (sv_draws r)), set_repo (set_streams (S (sv_draws r)) (sv_ticks r) r) d).

(** ** Issues *)

Definition get_issue (id : Uuid) : St Issue := fun d =>
  (match info_of id d with Some r => Ok (info_to_issue d r) | None => Err SeNotFound end, d).

Definition create_issue (i : NewIssue) : St Issue :=
  id ← desk_draw;
  t ← desk_now;
  d ← get_st;
  match info_of id d with
  | Some _ => fail SeDatabase
  | None =>
      _ ← modify_st (fun d => set_status id Open (set_infos (dk_issues d ++
            [mkInfo id (ni_title i) (ni_description i) (ni_priority i) (ni_labels i) (ni_creator i) (ni_agent_source i)
               None (ni_acceptance_criteria i) t t]) d));
      get_issue id
  end.

Definition issue_matches (f : IssueFilter) (links : list IssueLink) (i : Issue) : bool :=
  match f_status f with None | Some [] => true | Some ss => bool_decide (i_status i ∈ ss) end &&
  match f_priority f with Some p => bool_decide (i_priority i = p) | None => true end &&
  match f_label f with Some l => existsb (fun x => String.eqb (pg_lower x) (pg_lower l)) (i_labels i) | None => true end &&
  match f_creator f with Some c => String.eqb (i_creator i) c | None => true end &&
  match f_blocked_by f with
  | Some b => existsb (fun l => String.eqb (il_source l) b && bool_decide (il_relationship l = Blocks) &&
                                String.eqb (il_target l) (i_id i)) links
  | None => true
  end.

(** [ORDER BY] on the columns of [issues]; the others are dropped from the clause. *)
Definition issue_column (c : string) : option (Issue -> Issue -> comparison) :=
  let text (f : Issue -> string) := Some (fun a b => collate (f a) (f b)) in
  if String.eqb c "created_at" then Some (fun a b => Z.compare (i_created_at a) (i_created_at b))
  else if String.eqb c "updated_at" then Some (fun a b => Z.compare (i_updated_at a) (i_updated_at b))
  else if String.eqb c "priority" then text (fun i => priority_as_str (i_priority i))
  else if String.eqb c "status" then text (fun i => status_as_str (i_status i))
  else if String.eqb c "title" then text i_title
  else if String.eqb c "creator" then text i_creator
  else if String.eqb c "id" then text i_id
  else None.

Fixpoint ordered (fields : list ((Issue -> Issue -> comparison) * SortDirection)) (a b : Issue) : bool :=
  match fields with
  | [] => true
  | (cmp, dir) :: fields' =>
      match (match dir with Asc => cmp a b | Desc => cmp b a end) with
      | Lt => true
      | Gt => false
      | Eq => ordered fields' a b
      end
  end.

Definition order_fields (q : ListQuery) : list ((Issue -> Issue -> comparison) * SortDirection) :=
  match omap (fun f => (fun cmp => (cmp, direction f)) <$> issue_column (column f)) (sort q) with
  | [] => [(fun a b => Z.compare (i_created_at a) (i_created_at b), Desc)]
  | fields => fields
  end.

(** No [LIMIT] clause for the largest limit. *)
Definition page_rows {A} (q : ListQuery) (l : list A) : list A :=
  if ((sql_limit_offset q).1 =? i64_max)%Z then l else select_page q l.

Definition matching_issues (f : IssueFilter) (d : Desk) : list Issue :=
  filter (fun i => issue_matches f (dk_links d) i = true) (info_to_issue d <$> scan _ (dk_issues d)).

Definition list_issues (f : IssueFilter) (q : ListQuery) (d : Desk) : ListResult Issue :=
  let rows := matching_issues f d in
  mkListResult (page_rows q (sort_by (ordered (order_fields q)) rows)) (Z.of_nat (length rows)).

Definition with_issue_update (u : IssueUpdate) (t : DateTime) (r : IssueInfo) : IssueInfo :=
  mkInfo (ii_id r) (default (ii_title r) (iu_title u)) (default (ii_description r) (iu_description u))
    (default (ii_priority r) (iu_priority u)) (default (ii_labels r) (iu_labels u)) (ii_creator r) (ii_agent_source r)
    (match iu_resolution u with Some x => Some x | None => ii_resolution r end)
    (default (ii_acceptance_criteria r) (iu_acceptance_criteria u)) (ii_created_at r) t.

Definition update_issue (id : Uuid) (u : IssueUpdate) : St Issue :=
  current ← get_issue id;
  t ← desk_now;
  _ ← modify_st (fun d => set_status id (default (i_status current) (iu_status u))
                            (set_infos (update_by ii_id id (with_issue_update u t) (dk_issues d)) d));
  get_issue id.

(** An update of no row is not an error. *)
Definition close_issue (id : Uuid) (resolution : string) : St Issue :=
  t ← desk_now;
  _ ← modify_st (fun d =>
        match info_of id d with
        | Some _ => set_status id Closed (set_infos (update_by ii_id id (with_issue_update
                      (mkIssueUpdate None None None None None (Some resolution) None None) t) (dk_issues d)) d)
        | None => d
        end);
  get_issue id.

(** ** Comments *)

Record NewIssueComment : Type := mkNewComment {
  nc_author : string; nc_body : string; nc_author_type : string; nc_author_id : option string; nc_parent_id : option Uuid
}.

Definition comment_by (id : Uuid) (d : Desk) : option IssueComment := find_by c_id id (dk_comments d).
Definition has_issue (id : Uuid) (d : Desk) : bool := bool_decide (is_Some (info_of id d)).
Definition has_comment (id : Uuid) (d : Desk) : bool := bool_decide (is_Some (comment_by id d)).

(** The issue and the parent are references to rows. *)
Definition create_comment (issue_id : Uuid) (c : NewIssueComment) : St IssueComment :=
  id ← desk_draw;
  t ← desk_now;
  d ← get_st;
  if has_comment id d || negb (has_issue issue_id d) || negb (from_option (fun p => has_comment p d) true (nc_parent_id c))
  then fail SeDatabase
  else
    let row := mkComment id issue_id (nc_author c) (Some (nc_body c)) (nc_author_type c) (nc_author_id c) t (nc_parent_id c)
                 None None in
    _ ← modify_st (fun d => set_desk_comments (dk_comments d ++ [row]) d);
    mret row.

Definition list_comments (issue_id : Uuid) (d : Desk) : list IssueComment :=
  sort_by (fun a b => (c_created_at a <=? c_created_at b)%Z)
    (filter (fun c => c_issue_id c = issue_id) (scan _ (dk_comments d))).

Definition change_comment (id : Uuid) (f : DateTime -> IssueComment -> IssueComment) : St IssueComment :=
  t ← desk_now;
  _ ← modify_st (fun d => set_desk_comments (update_by c_id id (f t) (dk_comments d)) d);
  d ← get_st;
  lift (found (comment_by id d)).

Definition with_body (new_body : string) (t : DateTime) (c : IssueComment) : IssueComment :=
  mkComment (c_id c) (c_issue_id c) (c_author c) (Some new_body) (c_author_type c) (c_author_id c) (c_created_at c)
    (c_parent_id c) (Some t) (c_deleted_at c).
Definition with_deletion (t : DateTime) (c : IssueComment) : IssueComment :=
  mkComment (c_id c) (c_issue_id c) (c_author c) (c_body c) (c_author_type c) (c_author_id c) (c_created_at c)
    (c_parent_id c) (c_edited_at c) (Some t).

Definition update_comment (id : Uuid) (new_body : string) : St IssueComment := change_comment id (with_body new_body).
Definition soft_delete_comment (id : Uuid) : St IssueComment := change_comment id with_deletion.

Fixpoint insert_mentions (comment_id : Uuid) (l : list NewCommentMention) : St (list CommentMention) :=
  match l with
  | [] => mret []
  | m :: l' =>
      id ← desk_draw;
      let row := mkMention id comment_id (nm_user_id m) (nm_key_id m) (nm_name m) (nm_type m) in
      _ ← modify_st (fun d => set_mentions (dk_mentions d ++ [row]) d);
      rows ← insert_mentions comment_id l';
      mret (row :: rows)
  end.

(** One transaction. *)
Definition replace_mentions (comment_id : Uuid) (l : list NewCommentMention) : St (list CommentMention) :=
  _ ← modify_st (fun d => set_mentions (filter (fun m => cm_comment_id m <> comment_id) (dk_mentions d)) d);
  insert_mentions comment_id l.

(** The mentions of the comments of an issue; those of one comment are written at one time. *)
Definition mentions_of (comment_id : Uuid) (d : Desk) : list CommentMention :=
  filter (fun m => cm_comment_id m = comment_id) (scan _ (dk_mentions d)).

(** ** Links *)

Definition link_key (l : IssueLink) : Uuid * Uuid := (il_source l, il_target l).

(** [ON CONFLICT (source_id, target_id) DO UPDATE SET relationship] *)
Definition create_link (source_id target_id : Uuid) (r : IssueLinkRelationship) : St IssueLink :=
  d ← get_st;
  if negb (has_issue source_id d) || negb (has_issue target_id d) then fail SeDatabase
  else
    let row := mkLink source_id target_id r in
    _ ← put_st (set_desk_links (match find_by link_key (source_id, target_id) (dk_links d) with
                                | Some _ => update_by link_key (source_id, target_id) (fun _ => row) (dk_links d)
                                | None => dk_links d ++ [row]
                                end) d);
    mret row.

Definition list_links (issue_id : Uuid) (d : Desk) : list IssueLink :=
  filter (fun l => il_source l = issue_id \/ il_target l = issue_id) (scan _ (dk_links d)).

Definition delete_link (source_id target_id : Uuid) : St unit :=
  modify_st (fun d => set_desk_links (filter (fun l => link_key l <> (source_id, target_id)) (dk_links d)) d).

(** ** Attachments *)

Record NewIssueAttachment : Type := mkNewAttachment {
  na_filename : string; na_content_type : string; na_size_bytes : Z; na_s3_key : string; na_uploaded_by : string
}.

Definition attachment_key (a : IssueAttachment) : Uuid * string := (at_issue_id a, at_filename a).

(** [UNIQUE (issue_id, filename)] *)
Definition create_attachment (issue_id : Uuid) (a : NewIssueAttachment) : St IssueAttachment :=
  id ← desk_draw;
  t ← desk_now;
  d ← get_st;
  if negb (has_issue issue_id d) then fail SeDatabase
  else
    match find_by attachment_key (issue_id, na_filename a) (dk_attachments d) with
    | Some _ => fail SeConflict
    | None =>
        let row := mkAttachment id issue_id (na_filename a) (na_content_type a) (na_size_bytes a) (na_s3_key a)
                     (na_uploaded_by a) t in
        _ ← modify_st (fun d => set_attachments (dk_attachments d ++ [row]) d);
        mret row
    end.

Definition list_attachments (issue_id : Uuid) (d : Desk) : list IssueAttachment :=
  sort_by (fun a b => (at_created_at a <=? at_created_at b)%Z)
    (filter (fun a => at_issue_id a = issue_id) (scan _ (dk_attachments d))).

Definition get_attachment (issue_id : Uuid) (filename : string) : St IssueAttachment := fun d =>
  (found (find_by attachment_key (issue_id, filename) (dk_attachments d)), d).

Definition delete_attachment (issue_id : Uuid) (filename : string) : St unit :=
  modify_st (fun d => set_attachments (filter (fun a => attachment_key a <> (issue_id, filename)) (dk_attachments d)) d).
End stores.
