(* ===== verification/IssueServer.v ===== *)
(** The handlers of issues, comments, links and attachments ([src/src/server/issue.rs])
    over the stores of [IssuePg], and the search for the members of a repository
    ([src/src/storage/postgres/org.rs]) that resolves the names a comment mentions. *)
From S2P Require Import Prelude Table RustStr EventLog VaiDir Issue Pagination ServerRepo Auth AuthServer IssuePg.

Definition MAX_ISSUE_TITLE_LEN : nat := 500.
Definition MAX_ISSUE_BODY_LEN : nat := 50 * 1024.
Definition MAX_LABEL_LEN : nat := 100.
Definition MAX_LABELS_PER_ISSUE : nat := 20.
Definition MAX_ATTACHMENT_BYTES : Z := (10 * 1024 * 1024)%Z.
Definition MAX_ATTACHMENTS_PER_ISSUE : nat := 10.

(** ** Requests and replies *)

Record CreateIssueRequest : Type := mkCreateIssue {
  ci_title : string; ci_description : string; ci_priority : string; ci_labels : list string; ci_creator : string;
  created_by_agent : option string; ci_source : option AgentSource; max_per_hour : Z; ci_blocked_by : list string;
  ci_acceptance_criteria : list string
}.
Record UpdateIssueRequest : Type := mkUpdateIssue {
  ui_title : option string; ui_description : option string; ui_priority : option string;
  ui_labels : option (list string); ui_acceptance_criteria : option (list string); ui_blocked_by : list string
}.
Record ListIssuesQuery : Type := mkListIssues {
  lq_status : option string; lq_priority : option string; lq_label : option string; lq_created_by : option string;
  lq_blocked_by : option string; lq_page : option Z; lq_per_page : option Z; lq_sort : option string
}.
Record CreateCommentRequest : Type := mkCreateComment {
  cc_body : string; cc_author : option string; cc_author_type : option string; cc_author_id : option string;
  cc_parent_id : option string
}.
Record UploadAttachmentRequest : Type := mkUploadAttachment {
  ua_filename : string; ua_content_type : string; ua_content : string; ua_uploaded_by : string
}.

(** A reply with an issue shows its fields as they are. *)
Record IssueResponse : Type := mkIssueResponse {
  ir_issue : Issue; possible_duplicate_of : option Uuid; linked_ids : list Uuid; ir_blocked_by : list Uuid;
  blocking : list Uuid
}.
Record MentionRef : Type := mkMentionRef { mr_id : string; mr_name : string; mr_type : string }.
Record CommentResponse : Type := mkCommentResponse { cr_comment : IssueComment; cr_mentions : list MentionRef }.
Record IssueLinkDetail : Type := mkLinkDetail {
  other_issue_id : Uuid; relationship : string; ld_title : string; ld_status : IssueStatus
}.
Record IssueDetailResponse : Type := mkIssueDetail {
  id_issue : IssueResponse; id_links : list IssueLinkDetail; id_attachments : list IssueAttachment;
  id_comments : list CommentResponse
}.

Definition mention_ref (m : CommentMention) : MentionRef :=
  mkMentionRef (default EmptyString (entity_id m)) (mentioned_name m) (mention_type m).
Definition with_mentions (c : IssueComment) (l : list CommentMention) : CommentResponse :=
  mkCommentResponse c (mention_ref <$> l).

(** ** Names that a comment mentions *)

Definition word_char (a : ascii) : bool := ascii_alphanumeric a || Ascii.eqb a "_".
Definition name_char (a : ascii) : bool := word_char a || Ascii.eqb a "." || Ascii.eqb a "-".

Fixpoint span_bytes (p : ascii -> bool) (l : bytes) : bytes * bytes :=
  match l with
  | a :: l' => if p a then let '(x, y) := span_bytes p l' in (a :: x, y) else ([], l)
  | [] => ([], [])
  end.

(** Each round consumes a byte: the length of the text is fuel enough. *)
Fixpoint mention_names (fuel : nat) (l : bytes) : list string :=
  match fuel, l with
  | S fuel, a :: l' =>
      if Ascii.eqb a "@" then
        match l' with
        | b :: _ =>
            if word_char b then
              let '(name, rest) := span_bytes name_char l' in string_of name :: mention_names fuel rest
            else mention_names fuel l'
        | [] => []
        end
      else mention_names fuel l'
  | _, _ => []
  end.

Definition extract_mention_names (body : string) : list string :=
  dedup (sort_strings (mention_names (String.length body) (bytes_of body))).

Record RepoMember : Type := mkRepoMember { rm_id : string; rm_name : string; member_type : string }.

#[export] Instance RepoMember_eq_dec : EqDecision RepoMember.
Proof. solve_decision. Defined.

Definition eq_ignore_ascii_case (a b : string) : bool :=
  bool_decide (lower_ascii <$> bytes_of a = lower_ascii <$> bytes_of b).

Section handlers.
Context `{AuthEnv} {unicode : Unicode}.
Variable scan : forall A, list A -> list A.
Variable collate : string -> string -> comparison.
Variable pg_lower : string -> string.
(** The [ILIKE] of the database, base64 and [serde_json] on an upload. *)
Variable ilike : string -> string -> bool.
Variable b64_decode : string -> option bytes.
Variable parse_upload : bytes -> option UploadAttachmentRequest.

(** The accounts, which the handlers of issues only read. *)
Variable db : AuthDb.

Abbreviation Hi := (M Desk HttpError).

Definition on_repo {A} (m : M ServerRepo HttpError A) : Hi A := fun d =>
  let '(o, r) := m (dk_repo d) in (o, set_repo r d).
Definition http_error (e : StorageError) : HttpError :=
  match e with SeNotFound => HtNotFound | SeConflict => HtConflict | SeDatabase => HtInternal end.
Definition stored {A} (m : M Desk StorageError A) : Hi A := fun d => let '(o, d') := m d in (map_err http_error o, d').
Definition stored_or {A} (e : HttpError) (m : M Desk StorageError A) : Hi A := fun d =>
  let '(o, d') := m d in (map_err (fun _ => e) o, d').
(** A store call whose result is dropped. *)
Definition attempt {A} (m : M Desk StorageError A) : Hi unit := fun d => (Ok tt, (m d).2).

Definition parse_id (id : string) : Hi Uuid :=
  match parse_uuid id with Some u => mret u | None => fail HtBadRequest end.
Definition or_bad {A} (o : option A) : Hi A := match o with Some x => mret x | None => fail HtBadRequest end.
Definition check_access (allowed : bool) : Hi unit := on_repo (check allowed).
Definition limit_len (n : nat) (s : string) : Hi unit := on_repo (check_len n s).
Definition record_event (k : EventKind) : Hi unit := _ ← on_repo (append_stored clock k); mret tt.
Definition announce (ty : string) : Hi unit := on_repo (broadcast ty None).

(** *** Members of the repository *)

Definition user_matches (pattern : string) (u : User) : bool := ilike pattern (us_name u) || ilike pattern (us_email u).
Definition human (u : User) : RepoMember := mkRepoMember (us_id u) (us_name u) "human".
Definition users_among (ids : list Uuid) (pattern : string) : list RepoMember :=
  human <$> filter (fun u => (us_id u ∈ ids) /\ user_matches pattern u = true) (db_users db).

Definition search_repo_members (repo : Uuid) (query : string) (limit : nat) : list RepoMember :=
  let pattern := query +:+ "%" in
  let collaborators := cb_user <$> filter (fun c => cb_repo c = repo) (db_collabs db) in
  let org_members :=
    r ← filter (fun r => rp_id r = repo) (db_repos db);
    mb_user <$> filter (fun m => rp_org r = Some (mb_org m)) (db_members db) in
  let agents := (fun k => mkRepoMember (ak_id (kr_key k)) (ak_name (kr_key k)) "agent") <$>
    filter (fun k => kr_repo k = Some repo /\ revoked (kr_key k) = false /\ ilike pattern (ak_name (kr_key k)) = true)
      (db_keys db) in
  take limit (sort_by (fun a b => bool_decide (collate (rm_name a) (rm_name b) <> Gt))
    (scan _ (remove_dups (users_among collaborators pattern ++ users_among org_members pattern ++ agents)))).

Definition resolve_name (repo : Uuid) (name : string) : option NewCommentMention :=
  (fun m =>
     if String.eqb (member_type m) "human" then mkNewMention (parse_uuid (rm_id m)) None (rm_name m) (member_type m)
     else mkNewMention None (parse_uuid (rm_id m)) (rm_name m) (member_type m)) <$>
  List.find (fun m => eq_ignore_ascii_case (rm_name m) name) (search_repo_members repo name 10).

Definition resolve_comment_mentions (repo : Uuid) (names : list string) : list NewCommentMention :=
  omap (resolve_name repo) names.

(** *** Validation *)

Definition validate_labels (labels : list string) : Hi unit :=
  if MAX_LABELS_PER_ISSUE <? length labels then fail HtBadRequest else for_each (limit_len MAX_LABEL_LEN) labels.

Definition validate_attachment_filename (filename : string) : Hi unit :=
  if String.eqb filename EmptyString || has_char "/" filename || has_char "\" filename || starts_with "." filename
  then fail HtBadRequest else mret tt.

Definition is_comment_author (i : AgentIdentity) (c : IssueComment) : bool :=
  match c_author_id c with
  | None => is_admin i
  | Some author_id =>
      match auth_source i with
      | SrcJwt => String.eqb (default (ai_key_id i) (ai_user_id i)) author_id
      | SrcApiKey => String.eqb (ai_key_id i) author_id
      | SrcAdminKey => is_admin i
      end
  end.

(** *** Shared reads *)

(** [ORDER BY created_at DESC] *)
Definition list_workspaces (include_inactive : bool) (d : Desk) : list WorkspaceMeta :=
  sort_by (fun a b => (ws_created_at b <=? ws_created_at a)%Z)
    (filter (fun w => include_inactive = true \/ (ws_status w <> WsDiscarded /\ ws_status w <> WsMerged))
       (scan _ (sv_workspaces (dk_repo d)))).

Definition linked_workspace_ids (d : Desk) (issue : Uuid) : list Uuid :=
  ws_id <$> filter (fun w => ws_issue_id w = Some issue) (list_workspaces true d).

(** A link to itself counts as a blocker, and not as blocking. *)
Definition links_for_issue (d : Desk) (issue : Uuid) : list Uuid * list Uuid :=
  let blocks := filter (fun l => il_relationship l = Blocks) (list_links scan issue d) in
  (il_source <$> filter (fun l => il_target l = issue) blocks,
   il_target <$> filter (fun l => il_target l <> issue /\ il_source l = issue) blocks).

Definition issue_response (d : Desk) (i : Issue) : IssueResponse :=
  let '(by_, bl) := links_for_issue d (i_id i) in
  mkIssueResponse i None (linked_workspace_ids d (i_id i)) by_ bl.

(** ** Issues *)

(** Every blocker must exist. *)
Fixpoint parse_blockers (l : list string) : Hi (list Uuid) :=
  match l with
  | [] => mret []
  | b :: l' =>
      id ← parse_id b;
      _ ← stored_or HtBadRequest (get_issue id);
      ids ← parse_blockers l';
      mret (id :: ids)
  end.

Definition block_all (blockers : list Uuid) (issue : Uuid) : Hi unit :=
  for_each (fun b => attempt (create_link b issue Blocks)) blockers.

Definition one_hour : Z := (3600 * 1000000000)%Z.

(** The guardrails of an issue that an agent creates. *)
Definition agent_guard (agent : string) (b : CreateIssueRequest) : Hi (option Uuid) :=
  d ← get_st;
  let all := items (list_issues scan collate pg_lower (mkFilter None None None None None) default_query d) in
  now ← desk_now;
  let recent := filter (fun i => i_creator i = agent /\ (now - one_hour < i_created_at i)%Z) all in
  if (max_per_hour b <=? u32_wrap (Z.of_nat (length recent)))%Z then fail HtRateLimited
  else mret (find_similar_open_issue all (ci_title b)).

Definition create_issue_handler (allowed : bool) (b : CreateIssueRequest) : Hi IssueResponse :=
  _ ← check_access allowed;
  _ ← limit_len MAX_ISSUE_TITLE_LEN (ci_title b);
  _ ← limit_len MAX_ISSUE_BODY_LEN (ci_description b);
  _ ← validate_labels (ci_labels b);
  priority ← or_bad (priority_from_db_str (ci_priority b));
  '(creator, source, dup) ←
    match created_by_agent b with
    | Some agent =>
        dup ← agent_guard agent b;
        mret (agent, Some (default (mkAgentSource "unknown" "null") (ci_source b)), dup)
    | None => mret (ci_creator b, None, None)
    end;
  blockers ← parse_blockers (ci_blocked_by b);
  issue ← stored (create_issue (mkNewIssue (ci_title b) (ci_description b) priority (ci_labels b) creator source
                                  (ci_acceptance_criteria b)));
  _ ← record_event (IssueCreated (i_id issue) (i_title issue) (i_creator issue) (priority_as_str (i_priority issue)));
  _ ← announce "IssueCreated";
  _ ← block_all blockers (i_id issue);
  mret (mkIssueResponse issue dup [] blockers []).

(** The word [open] stands for every issue that is not closed. *)
Definition parse_status (s : option string) : Hi (option (list IssueStatus)) :=
  match s with
  | None => mret None
  | Some s =>
      if String.eqb s "open" then mret (Some [Open; InProgress; Resolved])
      else st ← or_bad (status_from_db_str s); mret (Some [st])
  end.

Definition opt_parse {A B} (f : A -> Hi B) (o : option A) : Hi (option B) :=
  match o with Some x => y ← f x; mret (Some y) | None => mret None end.

Definition ALLOWED_SORT : list string :=
  ["created_at"; "updated_at"; "priority"; "status"; "title"; "creator"; "id"]%string.

Definition list_issues_handler (allowed : bool) (q : ListIssuesQuery) : Hi (PaginatedResponse IssueResponse) :=
  _ ← check_access allowed;
  status ← parse_status (lq_status q);
  priority ← opt_parse (fun p => or_bad (priority_from_db_str p)) (lq_priority q);
  blocker ← opt_parse parse_id (lq_blocked_by q);
  match from_params (lq_page q) (lq_per_page q) (lq_sort q) ALLOWED_SORT with
  | Ok query =>
      d ← get_st;
      let result := list_issues scan collate pg_lower (mkFilter status priority (lq_label q) (lq_created_by q) blocker) query d in
      mret (paginated (issue_response d <$> items result) (lr_total result) query)
  | _ => fail HtBadRequest
  end.

(** The other issue of a link and the link as this issue sees it. *)
Definition link_view (issue : Uuid) (l : IssueLink) : Uuid * string :=
  if String.eqb (il_source l) issue then (il_target l, rel_as_str (il_relationship l))
  else (il_source l, inverse_str (il_relationship l)).

(** A link whose other issue is gone is left out. *)
Definition link_detail (d : Desk) (issue : Uuid) (l : IssueLink) : option IssueLinkDetail :=
  let '(other, rel) := link_view issue l in
  (fun r => mkLinkDetail other rel (ii_title r) (status_of d other)) <$> info_of other d.

Definition get_issue_handler (allowed : bool) (id : string) : Hi IssueDetailResponse :=
  _ ← check_access allowed;
  issue_id ← parse_id id;
  issue ← stored (get_issue issue_id);
  d ← get_st;
  let comments := list_comments scan issue_id d in
  mret (mkIssueDetail (issue_response d issue) (omap (link_detail d issue_id) (list_links scan issue_id d))
          (list_attachments scan issue_id d)
          ((fun c => with_mentions c (mentions_of scan (c_id c) d)) <$> drop (length comments - 50) comments)).

Definition fields_of (b : UpdateIssueRequest) (priority : option IssuePriority) : list string :=
  let name {A} (o : option A) (x : string) := (fun _ => x) <$> o in
  omap id [name (ui_title b) "title"; name (ui_description b) "description"; name priority "priority";
           name (ui_labels b) "labels"; name (ui_acceptance_criteria b) "acceptance_criteria"]%string.

Definition update_issue_handler (allowed : bool) (id : string) (b : UpdateIssueRequest) : Hi IssueResponse :=
  _ ← check_access allowed;
  _ ← from_option (limit_len MAX_ISSUE_TITLE_LEN) (mret tt) (ui_title b);
  _ ← from_option (limit_len MAX_ISSUE_BODY_LEN) (mret tt) (ui_description b);
  _ ← from_option validate_labels (mret tt) (ui_labels b);
  issue_id ← parse_id id;
  priority ← opt_parse (fun p => or_bad (priority_from_db_str p)) (ui_priority b);
  blockers ← parse_blockers (ui_blocked_by b);
  issue ← stored (update_issue issue_id (mkIssueUpdate (ui_title b) (ui_description b) priority (ui_labels b) None None None
                                           (ui_acceptance_criteria b)));
  _ ← block_all blockers issue_id;
  _ ← record_event (IssueUpdated issue_id (fields_of b priority));
  d ← get_st;
  mret (issue_response d issue).

(** The workspaces that a closed issue takes with it. *)
Definition live (w : WorkspaceMeta) : bool := bool_decide (ws_status w = WsCreated \/ ws_status w = WsActive).

Definition close_issue_handler (allowed : bool) (id resolution : string) : Hi IssueResponse :=
  _ ← check_access allowed;
  issue_id ← parse_id id;
  issue ← stored (close_issue issue_id resolution);
  _ ← record_event (IssueClosed issue_id resolution);
  _ ← announce "IssueClosed";
  d ← get_st;
  let active := ws_id <$> filter (fun w => ws_issue_id w = Some issue_id /\ live w = true) (list_workspaces false d) in
  _ ← for_each (fun w => on_repo (cascade_workspace_teardown clock w "linked issue closed")) active;
  d ← get_st;
  mret (issue_response d issue).

(** ** Comments *)

(** The author: the identity, except that the server's own key names anyone. *)
Definition comment_author (i : AgentIdentity) (b : CreateCommentRequest) : string * string * option string :=
  match auth_source i with
  | SrcJwt => (ai_name i, "human"%string, Some (default (ai_key_id i) (ai_user_id i)))
  | SrcApiKey => (ai_name i, "agent"%string, Some (ai_key_id i))
  | SrcAdminKey => (default "admin"%string (cc_author b), default "human"%string (cc_author_type b), cc_author_id b)
  end.

Definition parse_parent (issue : Uuid) (p : option string) : Hi (option Uuid) :=
  opt_parse (fun x =>
    pid ← parse_id x;
    d ← get_st;
    if existsb (fun c => String.eqb (c_id c) pid) (list_comments scan issue d) then mret pid else fail HtBadRequest) p.

Variable repo_id : Uuid.

Definition mentions_in (body : string) : list NewCommentMention :=
  resolve_comment_mentions repo_id (extract_mention_names body).

(** [unwrap_or_default] of the mentions that were stored. *)
Definition store_mentions (comment : Uuid) (l : list NewCommentMention) : Hi (list CommentMention) := fun d =>
  match replace_mentions comment l d with
  | (Ok rows, d') => (Ok rows, d')
  | (_, d') => (Ok [], d')
  end.

Definition create_issue_comment_handler (i : AgentIdentity) (allowed : bool) (id : string) (b : CreateCommentRequest) :
    Hi CommentResponse :=
  _ ← check_access allowed;
  issue_id ← parse_id id;
  _ ← stored (get_issue issue_id);
  let '(author, author_type, author_id) := comment_author i b in
  parent ← parse_parent issue_id (cc_parent_id b);
  comment ← stored (create_comment issue_id (mkNewComment author (cc_body b) author_type author_id parent));
  rows ← store_mentions (c_id comment) (mentions_in (cc_body b));
  _ ← record_event (CommentCreated issue_id (c_id comment) author author_type (c_parent_id comment) (omap entity_id rows));
  _ ← announce "CommentCreated";
  mret (with_mentions comment rows).

Definition list_issue_comments_handler (allowed : bool) (id : string) : Hi (list CommentResponse) :=
  _ ← check_access allowed;
  issue_id ← parse_id id;
  _ ← stored (get_issue issue_id);
  d ← get_st;
  mret ((fun c => with_mentions c (mentions_of scan (c_id c) d)) <$> list_comments scan issue_id d).

(** The comment of a request, once both identifiers are read and the issue is found. *)
Definition find_comment (id comment_id : string) : Hi IssueComment :=
  issue_id ← parse_id id;
  cid ← parse_id comment_id;
  _ ← stored (get_issue issue_id);
  d ← get_st;
  match List.find (fun c => String.eqb (c_id c) cid) (list_comments scan issue_id d) with
  | Some c => mret c
  | None => fail HtNotFound
  end.

Definition update_issue_comment_handler (i : AgentIdentity) (allowed : bool) (id comment_id body : string) :
    Hi CommentResponse :=
  _ ← check_access allowed;
  c ← find_comment id comment_id;
  if negb (is_comment_author i c) then fail HtForbidden
  else
    updated ← stored (update_comment (c_id c) body);
    rows ← store_mentions (c_id c) (mentions_in body);
    mret (with_mentions updated rows).

Definition delete_issue_comment_handler (i : AgentIdentity) (allowed : bool) (id comment_id : string) :
    Hi CommentResponse :=
  _ ← check_access allowed;
  c ← find_comment id comment_id;
  if negb (is_admin i) && negb (is_comment_author i c) then fail HtForbidden
  else
    deleted ← stored (soft_delete_comment (c_id c));
    mret (with_mentions deleted []).

(** ** Links *)

Definition create_issue_link_handler (allowed : bool) (id target rel : string) : Hi (Uuid * string) :=
  _ ← check_access allowed;
  source_id ← parse_id id;
  target_id ← parse_id target;
  r ← or_bad (rel_from_db_str rel);
  _ ← stored (get_issue source_id);
  _ ← stored (get_issue target_id);
  _ ← stored (create_link source_id target_id r);
  mret (target_id, rel_as_str r).

Definition list_issue_links_handler (allowed : bool) (id : string) : Hi (list (Uuid * string)) :=
  _ ← check_access allowed;
  issue_id ← parse_id id;
  _ ← stored (get_issue issue_id);
  d ← get_st;
  mret (link_view issue_id <$> list_links scan issue_id d).

Definition delete_issue_link_handler (allowed : bool) (id target : string) : Hi unit :=
  _ ← check_access allowed;
  source_id ← parse_id id;
  target_id ← parse_id target;
  stored (delete_link source_id target_id).

(** ** Attachments *)

(** A field of a form, as the multipart library delivers it. *)
Record FormField : Type := mkField {
  ff_name : option string; ff_file_name : option string; ff_content_type : option string; ff_data : bytes
}.
Inductive AttachmentBody : Type :=
  | Multipart (fields : list FormField)
  | JsonBody (body : bytes).

Record Upload : Type := mkUploadParts {
  up_filename : option string; up_content_type : option string; up_bytes : option bytes; up_by : option string
}.

Definition first_of {A} (a b : option A) : option A := match a with Some _ => a | None => b end.

Definition read_field (u : Upload) (f : FormField) : Upload :=
  let text := string_of (ff_data f) in
  match ff_name f with
  | Some n =>
      if String.eqb n "file" then
        mkUploadParts (first_of (up_filename u) (ff_file_name f)) (first_of (up_content_type u) (ff_content_type f))
          (Some (ff_data f)) (up_by u)
      else if String.eqb n "filename" then mkUploadParts (Some text) (up_content_type u) (up_bytes u) (up_by u)
      else if String.eqb n "content_type" then mkUploadParts (up_filename u) (Some text) (up_bytes u) (up_by u)
      else if String.eqb n "uploaded_by" then mkUploadParts (up_filename u) (up_content_type u) (up_bytes u) (Some text)
      else u
  | None => u
  end.

Definition parse_attachment_body (b : AttachmentBody) : Hi (string * string * bytes * string) :=
  match b with
  | Multipart fields =>
      let u := foldl read_field (mkUploadParts None None None None) fields in
      filename ← or_bad (up_filename u);
      content ← or_bad (up_bytes u);
      mret (filename, default "application/octet-stream"%string (up_content_type u), content, default "unknown"%string (up_by u))
  | JsonBody body =>
      if over (MAX_ATTACHMENT_BYTES * 2) body then fail HtBadRequest
      else
        req ← or_bad (parse_upload body);
        content ← or_bad (b64_decode (ua_content req));
        mret (ua_filename req, ua_content_type req, content, ua_uploaded_by req)
  end.

Definition storage_key (issue : Uuid) (filename : string) : string :=
  "issues/" +:+ issue +:+ "/attachments/" +:+ filename.

(** The bytes are stored before the row, whose name may be taken. *)
Definition upload_attachment_handler (allowed : bool) (id : string) (b : AttachmentBody) : Hi IssueAttachment :=
  _ ← check_access allowed;
  issue_id ← parse_id id;
  _ ← stored (get_issue issue_id);
  d ← get_st;
  if MAX_ATTACHMENTS_PER_ISSUE <=? length (list_attachments scan issue_id d) then fail HtBadRequest
  else
    '(filename, content_type, content, by_) ← parse_attachment_body b;
    _ ← validate_attachment_filename filename;
    if over MAX_ATTACHMENT_BYTES content then fail HtTooLarge
    else
      let key := storage_key issue_id filename in
      _ ← on_repo (put_file key content);
      stored (create_attachment issue_id
                (mkNewAttachment filename content_type (Z.of_nat (length content)) key by_)).

Definition list_attachments_handler (allowed : bool) (id : string) : Hi (list IssueAttachment) :=
  _ ← check_access allowed;
  issue_id ← parse_id id;
  _ ← stored (get_issue issue_id);
  d ← get_st;
  mret (list_attachments scan issue_id d).

(** Which texts the HTTP library takes as the value of a header. *)
Variable header_value : string -> bool.

Definition disposition (filename : string) : string :=
  let quote := String (Ascii.ascii_of_nat 34) EmptyString in "attachment; filename=" +:+ quote +:+ filename +:+ quote.

(** The content type and the content; a response with a header that is no value cannot be
    built. *)
Definition download_attachment_handler (allowed : bool) (id filename : string) : Hi (string * bytes) :=
  _ ← check_access allowed;
  issue_id ← parse_id id;
  meta ← stored (get_attachment issue_id filename);
  d ← get_st;
  match sv_files (dk_repo d) !! s3_key meta with
  | Some content =>
      if header_value (at_content_type meta) && header_value (disposition filename) then mret (at_content_type meta, content)
      else fail HtInternal
  | None => fail HtInternal
  end.

Definition delete_attachment_handler (allowed : bool) (id filename : string) : Hi unit :=
  _ ← check_access allowed;
  issue_id ← parse_id id;
  meta ← stored (get_attachment issue_id filename);
  _ ← on_repo (delete_stored (s3_key meta));
  stored (delete_attachment issue_id filename).
End handlers.
