(* ===== verification/QueueServer.v ===== *)
(** The work queue of the hosted server ([src/src/server/work_queue.rs]): the issues that
    can be worked on, the claim of one of them, and the release of a claim by discarding
    its workspace ([src/src/server/workspace.rs]). *)
From S2P Require Import Prelude Table RustStr Graph EventLog VaiDir Conflict Issue WorkQueue Pagination ServerRepo Auth AuthServer IssuePg IssueServer.

Section queue.
Context `{AuthEnv} {unicode : Unicode}.
Variable scan : forall A, list A -> list A.
Variable collate : string -> string -> comparison.
Variable pg_lower : string -> string.
(** The iteration orders of the hash maps, and the semantic graph of the repository. *)
Variable iter_order : gset string -> list string.
Variable values : Engine -> list WorkspaceScope.
Variable g : GraphSnapshot.

Definition all_issues (f : IssueFilter) (d : Desk) : list Issue := items (list_issues scan collate pg_lower f default_query d).
Definition open_filter : IssueFilter := mkFilter (Some [Open]) None None None None.
Definition no_filter : IssueFilter := mkFilter None None None None None.

Definition scopes (d : Desk) : list WorkspaceScope := values (sv_engine (dk_repo d)).
Definition scope_of (i : Issue) : ScopePrediction := issue_scope iter_order g i.

(** The issues that block an issue and are not settled; [l] are all issues. *)
Definition status_in (l : list Issue) (id : Uuid) : option IssueStatus := i_status <$> find_by i_id id l.
Definition unsettled (s : option IssueStatus) : bool :=
  match s with Some Open | Some InProgress => true | _ => false end.
Definition open_blockers (l : list Issue) (d : Desk) (i : Issue) : list Uuid :=
  filter (fun b => unsettled (status_in l b) = true)
    (il_source <$> filter (fun k => il_relationship k = Blocks /\ il_target k = i_id i) (list_links scan (i_id i) d)).

Definition blocked_by_issues (l : list Issue) (i : Issue) (blockers : list Uuid) : BlockedWork :=
  mkBlocked (i_id i) (i_title i) (priority_as_str (i_priority i)) blockers
    ("Blocked by: " +:+ join ", " (omap (fun b => i_title <$> find_by i_id b l) blockers)).

Definition place (l : list Issue) (d : Desk) (acc : list AvailableWork * list BlockedWork) (i : Issue) :
    list AvailableWork * list BlockedWork :=
  let '(available, blocked) := acc in
  match open_blockers l d i with
  | [] =>
      match filter (fun s => conflicts_with (scope_of i) s = true) (scopes d) with
      | [] => (available ++ [mkAvailable (i_id i) (i_title i) (priority_as_str (i_priority i)) (scope_of i)], blocked)
      | conflicting => (available, blocked ++ [blocked_of i conflicting])
      end
  | blockers => (available, blocked ++ [blocked_by_issues l i blockers])
  end.

(** The pair of the priority and the flag of missing criteria, as one number. *)
Definition work_key (l : list Issue) (w : AvailableWork) : nat :=
  2 * priority_rank (aw_priority w) +
  match find_by i_id (aw_issue_id w) l with
  | Some i => if bool_decide (i_acceptance_criteria i = []) then 1 else 0
  | None => 1
  end.

Definition get_work_queue_handler (allowed : bool) : M Desk HttpError (list AvailableWork * list BlockedWork) :=
  _ ← check_access allowed;
  d ← get_st;
  let l := all_issues no_filter d in
  let '(available, blocked) := foldl (place l d) ([], []) (all_issues open_filter d) in
  mret (sort_by (fun a b => work_key l a <=? work_key l b) available,
        sort_by (fun a b => priority_rank (bw_priority a) <=? priority_rank (bw_priority b)) blocked).

(** ** Claiming and releasing *)

Definition linked_row (id : Uuid) (intent head : string) (t : DateTime) (issue : Uuid) : WorkspaceMeta :=
  mkWs id intent head WsCreated t t (Some issue) [].

(** [create_workspace] of the store. *)
Definition create_linked (intent head : string) (issue : Uuid) : M Desk HttpError WorkspaceMeta :=
  id ← desk_draw;
  t ← desk_now;
  on_repo (insert_workspace (linked_row id intent head t issue)).

Definition status_update (s : IssueStatus) (ws : option Uuid) : IssueUpdate :=
  mkIssueUpdate None None None None (Some s) None ws None.

Definition claim_work_handler (allowed : bool) (id : string) : M Desk HttpError ClaimResult :=
  _ ← check_access allowed;
  issue_id ← parse_id id;
  issue ← stored (get_issue issue_id);
  if bool_decide (i_status issue <> Open) then fail HtConflict
  else
    d ← get_st;
    let prediction := scope_of issue in
    if existsb (conflicts_with prediction) (scopes d) then fail HtConflict
    else
      ws ← create_linked (i_title issue) (default "unknown"%string (sv_head (dk_repo d))) issue_id;
      _ ← stored (update_issue issue_id (status_update InProgress (Some (ws_id ws))));
      _ ← record_event (WorkspaceCreated (ws_id ws) (ws_intent ws) (base_version ws));
      _ ← record_event (IssueLinkedToWorkspace issue_id (ws_id ws));
      _ ← on_repo (broadcast "WorkspaceCreated" (Some (ws_id ws)));
      mret (mkClaim issue_id (ws_id ws) (i_title issue) prediction).

(** The issue of a discarded workspace is open again, unless it was settled. *)
Definition reopen_linked (issue : option Uuid) : M Desk HttpError unit :=
  match issue with
  | Some i =>
      d ← get_st;
      match info_of i d with
      | Some r => if bool_decide (status_of d i = InProgress) then attempt (update_issue i (status_update Open None)) else mret tt
      | None => mret tt
      end
  | None => mret tt
  end.

(** [discard_workspace_handler] with the table of the issues; [ServerRepo] has its column
    of the status only. Nothing asks for the status of the workspace. *)
Definition discard_handler (allowed : bool) (id : string) : M Desk HttpError unit :=
  _ ← check_access allowed;
  meta ← on_repo (find_workspace parse_uuid id);
  _ ← on_repo (discard_row clock (ws_id meta));
  _ ← on_repo (forget_scope (ws_id meta));
  _ ← reopen_linked (ws_issue_id meta);
  _ ← record_event (WorkspaceDiscarded (ws_id meta) "discarded via API");
  on_repo (broadcast "WorkspaceDiscarded" (Some id)).

(** ** The claim *)

(** The issue is open, and no active workspace touches what it is predicted to touch. *)
Definition claimable (d : Desk) (u : Uuid) (r : IssueInfo) : Prop :=
  info_of u d = Some r /\ status_of d u = Open /\ (forall s, s ∈ scopes d -> ~ overlaps (scope_of (info_to_issue d r)) s).

(** What a claim changes: one row more, the status and the time of the issue, two events
    and a broadcast. *)
Record claimed (u : Uuid) (r : IssueInfo) (d d' : Desk) : Prop := {
  cd_rows : sv_workspaces (dk_repo d') = sv_workspaces (dk_repo d) ++
    [linked_row (uuid (sv_draws (dk_repo d))) (ii_title r) (default "unknown"%string (sv_head (dk_repo d)))
       (clock (sv_ticks (dk_repo d))) u];
  cd_issues : exists t, dk_issues d' = update_by ii_id u (with_issue_update (status_update InProgress None) t) (dk_issues d);
  cd_status : sv_issues (dk_repo d') = <[u := InProgress]> (sv_issues (dk_repo d));
  cd_events : ev_kind <$> sv_events (dk_repo d') = (ev_kind <$> sv_events (dk_repo d)) ++
    [WorkspaceCreated (uuid (sv_draws (dk_repo d))) (ii_title r) (default "unknown"%string (sv_head (dk_repo d)));
     IssueLinkedToWorkspace u (uuid (sv_draws (dk_repo d)))];
  cd_engine : sv_engine (dk_repo d') = sv_engine (dk_repo d);
  cd_files : sv_files (dk_repo d') = sv_files (dk_repo d);
  cd_head : sv_head (dk_repo d') = sv_head (dk_repo d);
  cd_links : dk_links d' = dk_links d;
  cd_comments : dk_comments d' = dk_comments d
}.

Lemma no_conflict d r :
  existsb (conflicts_with (scope_of (info_to_issue d r))) (scopes d) = false <->
  (forall s, s ∈ scopes d -> ~ overlaps (scope_of (info_to_issue d r)) s).
Proof using.
  rewrite <-not_true_iff_false, existsb_exists. setoid_rewrite <-list_elem_of_In. setoid_rewrite conflicts_with_spec.
  split; [intros Hn s Hs Ho; apply Hn; by exists s|intros Hn (s & Hs & Ho); by apply (Hn s)].
Qed.

Lemma no_conflict_or d r :
  (exists s, s ∈ scopes d /\ overlaps (scope_of (info_to_issue d r)) s) \/
  (forall s, s ∈ scopes d -> ~ overlaps (scope_of (info_to_issue d r)) s).
Proof using.
  destruct (existsb (conflicts_with (scope_of (info_to_issue d r))) (scopes d)) eqn:Hc; [left|right; by apply no_conflict].
  apply existsb_exists in Hc as (s & Hs & Ho). exists s. by rewrite list_elem_of_In, <-conflicts_with_spec.
Qed.

Lemma claimable_dec d u r : info_of u d = Some r -> {claimable d u r} + {~ claimable d u r}.
Proof using.
  intros Hr. destruct (decide (status_of d u = Open)) as [Ho|Ho]; [|right; by intros (_ & ? & _)].
  destruct (existsb (conflicts_with (scope_of (info_to_issue d r))) (scopes d)) eqn:Hc.
  - right. intros (_ & _ & Hn%no_conflict). congruence.
  - left. split; [done|]. split; [done|]. by apply no_conflict.
Qed.

Lemma not_claimable d u r : info_of u d = Some r -> ~ claimable d u r ->
  status_of d u <> Open \/ exists s, s ∈ scopes d /\ overlaps (scope_of (info_to_issue d r)) s.
Proof using.
  intros Hr Hn. destruct (no_conflict_or d r) as [|Hc]; [by right|left]. intros Ho. by apply Hn.
Qed.

Lemma claim_succeeds id u r d :
  parse_uuid id = Some u -> claimable d u r -> (uuid (sv_draws (dk_repo d)) ∉ ws_id <$> sv_workspaces (dk_repo d)) ->
  exists d', claim_work_handler true id d =
    (Ok (mkClaim u (uuid (sv_draws (dk_repo d))) (ii_title r) (scope_of (info_to_issue d r))), d') /\ claimed u r d d'.
Proof using.
  intros Hu (Hr & Hst & Hc%no_conflict) Hf. unfold claim_work_handler.
  rewrite (M_bind_ok _ _ d tt d) by by destruct d. rewrite (M_bind_ok _ _ d u d) by by unfold parse_id; rewrite Hu.
  rewrite (M_bind_ok _ _ d (info_to_issue d r) d) by by unfold stored, get_issue; rewrite Hr.
  pose proof Hr as Hid. apply find_by_Some in Hid as [_ Hid].
  rewrite bool_decide_eq_false_2 by by intros Hn; apply Hn; simpl; rewrite Hid.
  rewrite (M_bind_ok _ _ d d d) by done. rewrite Hc.
  set (row := linked_row (uuid (sv_draws (dk_repo d))) (ii_title r) (default "unknown"%string (sv_head (dk_repo d)))
    (clock (sv_ticks (dk_repo d))) u).
  set (d2 := set_repo (set_ws_rows (sv_workspaces (dk_repo d) ++ [row])
    (set_streams (S (sv_draws (dk_repo d))) (S (sv_ticks (dk_repo d))) (dk_repo d))) d).
  rewrite (M_bind_ok _ _ d row d2).
  2:{ unfold create_linked, mbind, M_bind, desk_draw, desk_now, on_repo, insert_workspace, modify_st, get_ws. simpl.
      unfold mbind, M_bind. simpl. rewrite find_by_snoc.
      apply find_by_None in Hf. rewrite Hf. by rewrite decide_True. }
  set (u0 := status_update InProgress (Some (ws_id row))).
  assert (E : exists i d3, stored (update_issue u u0) d2 = (Ok i, d3) /\
    d3 = set_status u InProgress (set_infos (update_by ii_id u (with_issue_update (status_update InProgress None)
           (clock (sv_ticks (dk_repo d2)))) (dk_issues d)) (set_repo (set_streams (sv_draws (dk_repo d2)) (S (sv_ticks (dk_repo d2))) (dk_repo d2)) d2))).
  { unfold stored, update_issue, mbind, M_bind, get_issue at 1. change (info_of u d2) with (info_of u d). rewrite Hr. simpl.
    unfold get_issue. change (info_of u (set_status ?x ?y ?z)) with (info_of u z). unfold info_of. simpl.
    rewrite find_by_update by done. rewrite decide_True by done. unfold info_of in Hr. rewrite Hr. simpl. by do 2 eexists. }
  destruct E as (i & d3 & E & Ed3). rewrite (M_bind_ok _ _ _ _ _ E). subst d3. clear E.
  eexists. split; [reflexivity|]. constructor; try done; [by eexists|]. simpl. by rewrite !fmap_app, <-app_assoc.
Qed.

(** The refusals of a claim. *)
Lemma claim_forbidden id d : claim_work_handler false id d = (Err HtForbidden, d).
Proof using. by destruct d. Qed.

Ltac start_claim d := unfold claim_work_handler; rewrite (M_bind_ok _ _ d tt d) by by destruct d.

Lemma claim_bad_id id d : parse_uuid id = None -> claim_work_handler true id d = (Err HtBadRequest, d).
Proof using. intros Hu. start_claim d. by rewrite (M_bind_err _ _ d HtBadRequest d) by by unfold parse_id; rewrite Hu. Qed.

Lemma claim_unknown id u d : parse_uuid id = Some u -> info_of u d = None -> claim_work_handler true id d = (Err HtNotFound, d).
Proof using.
  intros Hu Hr. start_claim d. rewrite (M_bind_ok _ _ d u d) by by unfold parse_id; rewrite Hu.
  by rewrite (M_bind_err _ _ d HtNotFound d) by by unfold stored, get_issue; rewrite Hr.
Qed.

Lemma claim_refused id u r d :
  parse_uuid id = Some u -> info_of u d = Some r -> ~ claimable d u r -> claim_work_handler true id d = (Err HtConflict, d).
Proof using.
  intros Hu Hr Hn. start_claim d. rewrite (M_bind_ok _ _ d u d) by by unfold parse_id; rewrite Hu.
  rewrite (M_bind_ok _ _ d (info_to_issue d r) d) by by unfold stored, get_issue; rewrite Hr.
  pose proof Hr as Hid. apply find_by_Some in Hid as [_ Hid]. simpl. rewrite Hid. case_bool_decide as Ho; [done|].
  rewrite (M_bind_ok _ _ d d d) by done. destruct (existsb _ _) eqn:Hc; [done|]. destruct Hn. split; [done|]. split; [|by apply no_conflict].
  by destruct (status_of d u); try (destruct Ho).
Qed.

(** A claim is made, or nothing changes. *)
Lemma claim_cases allowed id d :
  (uuid (sv_draws (dk_repo d)) ∉ ws_id <$> sv_workspaces (dk_repo d)) ->
  (exists c u r d', claim_work_handler allowed id d = (Ok c, d') /\ claimable d u r /\ claimed u r d d') \/
  (exists e, claim_work_handler allowed id d = (Err e, d)).
Proof using.
  intros Hf. destruct allowed; [|right; eexists; apply claim_forbidden].
  destruct (parse_uuid id) as [u|] eqn:Hu; [|right; eexists; by apply claim_bad_id].
  destruct (info_of u d) as [r|] eqn:Hr; [|right; eexists; by apply (claim_unknown id u)].
  destruct (claimable_dec d u r Hr) as [Hc|Hc]; [left|right; eexists; by apply (claim_refused id u r)].
  destruct (claim_succeeds id u r d Hu Hc Hf) as (d' & E & C). eexists. exists u, r, d'. by split; [exact E|].
Qed.

(** C9. The claim of an issue over HTTP: it succeeds exactly for a caller who may write, an
    identifier of an issue that is open, and a predicted scope that no active workspace
    overlaps; it then makes one workspace for the issue at HEAD, moves the issue to
    in-progress and records both. Each refusal has its reply and changes nothing. The
    blockers of the issue, which keep it out of the queue, are not asked for. *)
Theorem claim_work_spec allowed id d :
  (uuid (sv_draws (dk_repo d)) ∉ ws_id <$> sv_workspaces (dk_repo d)) ->
  match claim_work_handler allowed id d with
  | (Ok c, d') => allowed = true /\ exists u r, parse_uuid id = Some u /\ claimable d u r /\ claimed u r d d' /\
      c = mkClaim u (uuid (sv_draws (dk_repo d))) (ii_title r) (scope_of (info_to_issue d r))
  | (Err e, d') => d' = d /\
      match e with
      | HtForbidden => allowed = false
      | HtBadRequest => parse_uuid id = None
      | HtNotFound => exists u, parse_uuid id = Some u /\ info_of u d = None
      | HtConflict => exists u r, parse_uuid id = Some u /\ info_of u d = Some r /\
          (status_of d u <> Open \/ exists s, s ∈ scopes d /\ overlaps (scope_of (info_to_issue d r)) s)
      | _ => False
      end
  | (Panic, _) => False
  end.
Proof using.
  intros Hf. destruct allowed; [|by rewrite claim_forbidden].
  destruct (parse_uuid id) as [u|] eqn:Hu; [|by rewrite claim_bad_id].
  destruct (info_of u d) as [r|] eqn:Hr; [|rewrite (claim_unknown id u) by done; split; [done|by exists u]].
  destruct (claimable_dec d u r Hr) as [Hc|Hc].
  - destruct (claim_succeeds id u r d Hu Hc Hf) as (d' & -> & C). split; [done|]. by exists u, r.
  - rewrite (claim_refused id u r) by done. split; [done|]. exists u, r. split_and!; [done..|]. by apply not_claimable.
Qed.

(** ** The queue *)

Definition free (l : list Issue) (d : Desk) (i : Issue) : bool :=
  bool_decide (open_blockers l d i = []) && negb (existsb (conflicts_with (scope_of i)) (scopes d)).

Definition available_entry (i : Issue) : AvailableWork :=
  mkAvailable (i_id i) (i_title i) (priority_as_str (i_priority i)) (scope_of i).
Definition blocked_entry (l : list Issue) (d : Desk) (i : Issue) : BlockedWork :=
  match open_blockers l d i with
  | [] => blocked_of i (filter (fun s => conflicts_with (scope_of i) s = true) (scopes d))
  | blockers => blocked_by_issues l i blockers
  end.

Lemma filter_nil_iff {A} (p : A -> bool) (l : list A) : filter (fun x => p x = true) l = [] <-> existsb p l = false.
Proof using.
  rewrite <-not_true_iff_false, existsb_exists. setoid_rewrite <-list_elem_of_In. split.
  - intros E (x & Hx & Hp). apply (not_elem_of_nil x). rewrite <-E. by apply list_elem_of_filter.
  - intros Hn. apply elem_of_nil_inv. intros x [Hp Hx]%list_elem_of_filter. apply Hn. by exists x.
Qed.


Lemma filter_split_perm {A} (p : A -> bool) (l : list A) :
  filter (fun x => p x = true) l ++ filter (fun x => negb (p x) = true) l ≡ₚ l.
Proof using.
  induction l as [|x l IH]; [done|]. rewrite !filter_cons. destruct (p x); simpl; rewrite ?IH; [done|].
  by rewrite <-Permutation_middle, IH.
Qed.

Lemma place_one l d av bl i :
  place l d (av, bl) i =
  if free l d i then (av ++ [available_entry i], bl) else (av, bl ++ [blocked_entry l d i]).
Proof using.
  unfold place, free, blocked_entry. destruct (open_blockers l d i) as [|b bs]; [|done]. simpl.
  destruct (filter _ (scopes d)) as [|s ss] eqn:Es; [by rewrite (proj1 (filter_nil_iff _ _) Es)|].
  destruct (existsb _ _) eqn:Ex; [done|]. apply filter_nil_iff in Ex. congruence.
Qed.

Lemma place_all l d todo av bl :
  foldl (place l d) (av, bl) todo =
  (av ++ (available_entry <$> filter (fun i => free l d i = true) todo),
   bl ++ (blocked_entry l d <$> filter (fun i => free l d i = false) todo)).
Proof using.
  revert av bl. induction todo as [|i todo IH]; intros av bl; [by rewrite !app_nil_r|].
  cbn [foldl]. rewrite place_one, !filter_cons. destruct (free l d i); rewrite IH, <-app_assoc; done.
Qed.

(** *** What the queue shows *)

Hypothesis scan_perm : forall A (l : list A), scan A l ≡ₚ l.

Lemma all_issues_perm f d : all_issues f d ≡ₚ filter (fun i => issue_matches pg_lower f (dk_links d) i = true) (info_to_issue d <$> dk_issues d).
Proof using scan_perm.
  unfold all_issues, list_issues. cbn [items]. unfold page_rows. change (((sql_limit_offset default_query).1 =? i64_max)%Z) with true.
  cbv iota. rewrite sort_by_perm. unfold matching_issues. by rewrite scan_perm.
Qed.

Lemma open_issue_elem d i :
  i ∈ all_issues open_filter d <-> exists r, r ∈ dk_issues d /\ i = info_to_issue d r /\ status_of d (ii_id r) = Open.
Proof using scan_perm.
  rewrite all_issues_perm, list_elem_of_filter, list_elem_of_fmap. unfold issue_matches. simpl. rewrite !andb_true_r, bool_decide_eq_true.
  split.
  - intros [Hs (r & -> & Hr)]. exists r. split_and!; [done|done|]. by apply list_elem_of_singleton in Hs.
  - intros (r & Hr & -> & Hs). split; [simpl; rewrite Hs; by left|]. by exists r.
Qed.

Lemma status_in_all d b : NoDup (ii_id <$> dk_issues d) -> status_in (all_issues no_filter d) b = status_of d <$> (ii_id <$> info_of b d).
Proof using scan_perm.
  intros Hnd. unfold status_in. assert (Hp : all_issues no_filter d ≡ₚ info_to_issue d <$> dk_issues d).
  { rewrite all_issues_perm. apply Permutation_refl', filter_all, Forall_true. by intros i. }
  assert (Hi : i_id <$> all_issues no_filter d ≡ₚ ii_id <$> dk_issues d).
  { rewrite Hp, <-list_fmap_compose. done. }
  unfold info_of. destruct (find_by ii_id b (dk_issues d)) as [r|] eqn:E.
  - apply find_by_Some in E as [Hr <-]. rewrite (find_by_elem i_id (ii_id r) (all_issues no_filter d) (info_to_issue d r)); [done|by rewrite Hi| |done].
    rewrite Hp. by apply list_elem_of_fmap_2.
  - apply find_by_None in E. rewrite (proj2 (find_by_None i_id b _)); [done|]. by rewrite Hi.
Qed.

(** An issue that is not settled blocks it. *)
Definition is_blocked (d : Desk) (u : Uuid) : Prop :=
  exists b, mkLink b u Blocks ∈ dk_links d /\ is_Some (info_of b d) /\ (status_of d b = Open \/ status_of d b = InProgress).

Lemma unsettled_iff st : unsettled (Some st) = true <-> st = Open \/ st = InProgress.
Proof using. destruct st; simpl; split; try done; [by left|by right|by intros [|]|by intros [|]]. Qed.

Lemma open_blockers_none d i :
  NoDup (ii_id <$> dk_issues d) -> open_blockers (all_issues no_filter d) d i = [] <-> ~ is_blocked d (i_id i).
Proof using scan_perm.
  intros Hnd. assert (Hb : forall b, b ∈ open_blockers (all_issues no_filter d) d i <->
    mkLink b (i_id i) Blocks ∈ dk_links d /\ is_Some (info_of b d) /\ (status_of d b = Open \/ status_of d b = InProgress)).
  { intros b. unfold open_blockers. rewrite list_elem_of_filter, list_elem_of_fmap, (status_in_all d b Hnd).
    assert (Hl : (exists y, b = il_source y /\ y ∈ filter (fun k => il_relationship k = Blocks /\ il_target k = i_id i) (list_links scan (i_id i) d)) <->
      mkLink b (i_id i) Blocks ∈ dk_links d).
    { setoid_rewrite list_elem_of_filter. unfold list_links. setoid_rewrite list_elem_of_filter. setoid_rewrite scan_perm. split.
      - intros ([x y k] & -> & [Hk Ht] & _ & Hin). simpl in *. by subst.
      - intros Hin. exists (mkLink b (i_id i) Blocks). simpl. auto. }
    rewrite Hl. destruct (info_of b d) as [r|] eqn:Er; cbn [fmap option_fmap option_map].
    - apply find_by_Some in Er as [_ ->]. rewrite unsettled_iff.
      split; [intros [Hs Hx]; split; [exact Hx|split; [by eexists|exact Hs]]|intros (Hx & _ & Hs); by split].
    - split; [by intros [? _]|by intros (_ & [] & _)]. }
  split.
  - intros E (b & Hx). apply (not_elem_of_nil b). rewrite <-E. by apply Hb.
  - intros Hn. apply elem_of_nil_inv. intros b Hx%Hb. apply Hn. by exists b.
Qed.

(** The issues that a queue offers: those that can be claimed and that no open issue blocks. *)
Definition offered (d : Desk) (u : Uuid) : Prop := (exists r, claimable d u r) /\ ~ is_blocked d u.

Lemma free_spec d r :
  NoDup (ii_id <$> dk_issues d) -> r ∈ dk_issues d -> status_of d (ii_id r) = Open ->
  free (all_issues no_filter d) d (info_to_issue d r) = true <-> offered d (ii_id r).
Proof using scan_perm.
  intros Hnd Hr Ho. unfold free. rewrite andb_true_iff, bool_decide_eq_true, negb_true_iff, open_blockers_none, no_conflict by done.
  assert (Hi : info_of (ii_id r) d = Some r) by (by apply find_by_elem). unfold offered, claimable.
  split.
  - intros [Hb Hc]. split; [|exact Hb]. by exists r.
  - intros [(r' & Hr' & _ & Hc) Hb]. split; [exact Hb|]. rewrite Hi in Hr'. by injection Hr' as ->.
Qed.

Lemma shown_ids d (p : Issue -> bool) u :
  NoDup (ii_id <$> dk_issues d) ->
  u ∈ i_id <$> filter (fun i => p i = true) (all_issues open_filter d) <->
  exists r, info_of u d = Some r /\ status_of d u = Open /\ p (info_to_issue d r) = true.
Proof using scan_perm.
  intros Hnd. rewrite list_elem_of_fmap. setoid_rewrite list_elem_of_filter. split.
  - intros (i & -> & Hp & (r & Hr & -> & Ho)%open_issue_elem). exists r. split; [by apply find_by_elem|]. done.
  - intros (r & Hr & Ho & Hp). apply find_by_Some in Hr as [Hr <-]. exists (info_to_issue d r). split; [done|].
    split; [done|]. apply open_issue_elem. by exists r.
Qed.

Lemma blocked_ids (l todo : list Issue) (d : Desk) :
  bw_issue_id <$> (blocked_entry l d <$> filter (fun i => free l d i = false) todo) =
  i_id <$> filter (fun i => negb (free l d i) = true) todo.
Proof using.
  rewrite <-list_fmap_compose. etransitivity; [apply (list_fmap_ext _ i_id)|].
  - intros ? i _. unfold compose, blocked_entry. by destruct (open_blockers l d i).
  - f_equal. apply list_filter_iff. intros i. by rewrite negb_true_iff.
Qed.

Definition shown_available (d : Desk) : list AvailableWork :=
  sort_by (fun a b => work_key (all_issues no_filter d) a <=? work_key (all_issues no_filter d) b)
    (available_entry <$> filter (fun i => free (all_issues no_filter d) d i = true) (all_issues open_filter d)).
Definition shown_blocked (d : Desk) : list BlockedWork :=
  sort_by (fun a b => priority_rank (bw_priority a) <=? priority_rank (bw_priority b))
    (blocked_entry (all_issues no_filter d) d <$> filter (fun i => free (all_issues no_filter d) d i = false) (all_issues open_filter d)).

Lemma queue_eq d : get_work_queue_handler true d = (Ok (shown_available d, shown_blocked d), d).
Proof using.
  unfold get_work_queue_handler. rewrite (M_bind_ok _ _ d tt d) by by destruct d. rewrite (M_bind_ok _ _ d d d) by done.
  by rewrite place_all, !app_nil_l.
Qed.

Lemma available_ids d :
  aw_issue_id <$> shown_available d ≡ₚ i_id <$> filter (fun i => free (all_issues no_filter d) d i = true) (all_issues open_filter d).
Proof using. unfold shown_available. by rewrite sort_by_perm, <-list_fmap_compose. Qed.

Lemma blocked_view_ids d :
  bw_issue_id <$> shown_blocked d ≡ₚ i_id <$> filter (fun i => negb (free (all_issues no_filter d) d i) = true) (all_issues open_filter d).
Proof using. unfold shown_blocked. by rewrite sort_by_perm, blocked_ids. Qed.

Lemma shown_available_iff d u : NoDup (ii_id <$> dk_issues d) -> u ∈ aw_issue_id <$> shown_available d <-> offered d u.
Proof using scan_perm.
  intros Hnd. rewrite available_ids, shown_ids by done. split.
  - intros (r & Hr & Ho & Hp). pose proof Hr as Hin. apply find_by_Some in Hin as [Hin <-]. by apply free_spec.
  - intros Hof. pose proof Hof as [(r & Hr & Ho & Hc) Hb]. exists r. split_and!; [done|done|]. pose proof Hr as Hin.
    apply find_by_Some in Hin as [Hin <-]. by apply free_spec.
Qed.

Lemma shown_blocked_iff d u : NoDup (ii_id <$> dk_issues d) ->
  u ∈ bw_issue_id <$> shown_blocked d <-> is_Some (info_of u d) /\ status_of d u = Open /\ ~ offered d u.
Proof using scan_perm.
  intros Hnd. rewrite blocked_view_ids, (shown_ids d (fun i => negb (free (all_issues no_filter d) d i))) by done. split.
  - intros (r & Hr & Ho & Hp). split; [by eexists|]. split; [done|]. pose proof Hr as Hin. apply find_by_Some in Hin as [Hin <-].
    rewrite <-free_spec by done. apply negb_true_iff in Hp. by rewrite Hp.
  - intros ([r Hr] & Ho & Hn). exists r. split_and!; [done|done|]. pose proof Hr as Hin. apply find_by_Some in Hin as [Hin <-].
    rewrite <-free_spec in Hn by done. by destruct (free _ d _).
Qed.

Lemma shown_NoDup d : NoDup (ii_id <$> dk_issues d) ->
  NoDup ((aw_issue_id <$> shown_available d) ++ (bw_issue_id <$> shown_blocked d)).
Proof using scan_perm.
  intros Hnd. rewrite available_ids, blocked_view_ids, <-fmap_app, filter_split_perm, all_issues_perm.
  apply (filter_keys_NoDup i_id). by rewrite <-list_fmap_compose.
Qed.

(** C8. The work queue over HTTP. It shows every open issue once: as available exactly when
    the issue can be claimed at once and no unsettled issue of the repository blocks it,
    and as blocked otherwise. Available work comes by priority and, within one, with the
    issues that state acceptance criteria first; blocked work comes by priority. *)
Theorem work_queue_spec d :
  NoDup (ii_id <$> dk_issues d) ->
  exists available blocked, get_work_queue_handler true d = (Ok (available, blocked), d) /\
    (forall u, u ∈ aw_issue_id <$> available <-> offered d u) /\
    (forall u, u ∈ bw_issue_id <$> blocked <-> is_Some (info_of u d) /\ status_of d u = Open /\ ~ offered d u) /\
    NoDup ((aw_issue_id <$> available) ++ (bw_issue_id <$> blocked)) /\
    StronglySorted (fun a b => work_key (all_issues no_filter d) a <= work_key (all_issues no_filter d) b) available /\
    StronglySorted (fun a b => priority_rank (bw_priority a) <= priority_rank (bw_priority b)) blocked.
Proof using scan_perm.
  intros Hnd. exists (shown_available d), (shown_blocked d). split; [apply queue_eq|]. split; [intros u; by apply shown_available_iff|].
  split; [intros u; by apply shown_blocked_iff|]. split; [by apply shown_NoDup|]. split; [|apply (sort_by_key_sorted (fun b => priority_rank (bw_priority b)))].
  apply (sort_by_key_sorted (work_key (all_issues no_filter d))).
Qed.

Lemma claimed_ids u r d d' : claimed u r d d' -> ii_id <$> dk_issues d' = ii_id <$> dk_issues d.
Proof using. intros C. destruct (cd_issues _ _ _ _ C) as [t ->]. by apply update_by_keys. Qed.

Lemma claimed_status u r d d' i : claimed u r d d' -> status_of d' i = if decide (i = u) then InProgress else status_of d i.
Proof using.
  intros C. unfold status_of. rewrite (cd_status _ _ _ _ C). case_decide as Hi; [subst; by rewrite lookup_insert_eq|by rewrite lookup_insert_ne].
Qed.

(** The entry of an issue shows the scope that a claim predicts. *)
Lemma entry_scope d a r :
  NoDup (ii_id <$> dk_issues d) -> a ∈ shown_available d -> claimable d (aw_issue_id a) r -> scope_of (info_to_issue d r) = aw_scope a.
Proof using scan_perm.
  intros Hnd Ha (Hr & _). unfold shown_available in Ha.
  rewrite sort_by_perm in Ha. apply list_elem_of_fmap in Ha as (i & -> & [_ Hi]%list_elem_of_filter).
  apply open_issue_elem in Hi as (r' & Hr' & -> & _). simpl in Hr. unfold info_of in Hr.
  rewrite (find_by_elem ii_id _ _ r' Hnd Hr' eq_refl) in Hr. by injection Hr as ->.
Qed.

Lemma claim_settled u d : parse_uuid u = Some u -> is_Some (info_of u d) -> status_of d u <> Open ->
  claim_work_handler true u d = (Err HtConflict, d).
Proof using. intros Hp [r Hr] Ho. apply (claim_refused u u r); [done|done|]. by intros (_ & ? & _). Qed.

(** C10. What the queue offers can be taken: the claim of an available entry, sent before
    anything else happens, succeeds with the scope that the queue showed; after it the
    queue shows the issue no more, and a second claim of it is refused. *)
Theorem offered_work_is_taken d available blocked a :
  NoDup (ii_id <$> dk_issues d) -> (uuid (sv_draws (dk_repo d)) ∉ ws_id <$> sv_workspaces (dk_repo d)) ->
  get_work_queue_handler true d = (Ok (available, blocked), d) -> a ∈ available ->
  parse_uuid (aw_issue_id a) = Some (aw_issue_id a) ->
  exists c d' available' blocked', claim_work_handler true (aw_issue_id a) d = (Ok c, d') /\
    cl_issue_id c = aw_issue_id a /\ cl_scope c = aw_scope a /\
    get_work_queue_handler true d' = (Ok (available', blocked'), d') /\
    (aw_issue_id a ∉ (aw_issue_id <$> available') ++ (bw_issue_id <$> blocked')) /\
    claim_work_handler true (aw_issue_id a) d' = (Err HtConflict, d').
Proof using scan_perm.
  intros Hnd Hf Hq Ha Hp. rewrite queue_eq in Hq. injection Hq as <- <-.
  assert (Hof : offered d (aw_issue_id a)) by (apply shown_available_iff; [done|by apply list_elem_of_fmap_2]). pose proof Hof as [(r & Hr) _].
  destruct (claim_succeeds (aw_issue_id a) (aw_issue_id a) r d Hp Hr Hf) as (d' & Hc & C).
  assert (Hs' : status_of d' (aw_issue_id a) = InProgress) by (rewrite (claimed_status _ _ _ _ _ C); by apply decide_True).
  assert (Hnd' : NoDup (ii_id <$> dk_issues d')) by (by rewrite (claimed_ids _ _ _ _ C)).
  do 4 eexists. split; [exact Hc|]. split; [done|]. split; [by apply entry_scope|]. split; [apply queue_eq|]. split.
  - rewrite not_elem_of_app, shown_available_iff, shown_blocked_iff by done. unfold offered, claimable. rewrite Hs'.
    split; [by intros [(x & _ & ? & _) _]|by intros (_ & ? & _)].
  - apply claim_settled; [done| |by rewrite Hs'].
    destruct Hr as [Hr _]. unfold info_of in *. destruct (cd_issues _ _ _ _ C) as [t ->]. rewrite find_by_update, decide_True, Hr by done. by eexists.
Qed.
End queue.
