(* ===== verification/DeskSystem.v ===== *)
(** The issues, comments and workspaces of a repository as a state machine: the requests
    of the hosted server that write them, and what every sequence of them keeps true.
    The claim of an issue is exclusive as long as nobody discards a workspace that is
    already gone. *)
From S2P Require Import Prelude Table RustStr Graph EventLog MergeEngine MergeFs VaiDir Workspace Submit Conflict Issue WorkQueue Pagination ServerRepo ServerPull Auth AuthServer IssuePg IssueServer QueueServer.

Inductive DeskRequest : Type :=
  | DqCreateIssue (b : CreateIssueRequest)
  | DqUpdateIssue (id : string) (b : UpdateIssueRequest)
  | DqCloseIssue (id resolution : string)
  | DqComment (i : AgentIdentity) (id : string) (b : CreateCommentRequest)
  | DqEditComment (i : AgentIdentity) (id comment_id body : string)
  | DqDeleteComment (i : AgentIdentity) (id comment_id : string)
  | DqLink (id target rel : string)
  | DqUnlink (id target : string)
  | DqAttach (id : string) (b : AttachmentBody)
  | DqDetach (id filename : string)
  | DqClaim (id : string)
  | DqDiscard (id : string)
  | DqCreateWorkspace (intent : string)
  | DqUpload (id : string) (files : list FileUploadEntry) (deleted : list string)
  | DqSnapshot (id : string) (allow_destructive : bool) (body : bytes)
  | DqSubmit (id : string).

(** ** What the requests of workspaces do to their rows *)

(** A row of a workspace after a request: its issue stays, and a row that is not live
    stays so. *)
Definition row_le (w w' : WorkspaceMeta) : Prop :=
  ws_id w' = ws_id w /\ ws_issue_id w' = ws_issue_id w /\ (live w' = true -> live w = true).

Lemma row_le_refl w : row_le w w.
Proof. done. Qed.

Lemma row_le_trans x y z : row_le x y -> row_le y z -> row_le x z.
Proof. intros (Ha & Hb & Hc) (Ha' & Hb' & Hc'). split_and!; [congruence|congruence|auto]. Qed.

Lemma rows_le_refl l : Forall2 row_le l l.
Proof. apply Forall_Forall2_diag, Forall_true. intros w. apply row_le_refl. Qed.

Lemma rows_le_trans l1 l2 l3 : Forall2 row_le l1 l2 -> Forall2 row_le l2 l3 -> Forall2 row_le l1 l3.
Proof. apply Forall2_trans, row_le_trans. Qed.

(** The rows of the workspaces and the statuses of the issues. *)
Definition rows_kept (s s' : ServerRepo) : Prop :=
  Forall2 row_le (sv_workspaces s) (sv_workspaces s') /\ sv_issues s' = sv_issues s.

Lemma kept_refl s : rows_kept s s.
Proof. split; [apply rows_le_refl|done]. Qed.

Lemma kept_trans s1 s2 s3 : rows_kept s1 s2 -> rows_kept s2 s3 -> rows_kept s1 s3.
Proof. intros [R1 I1] [R2 I2]. split; [by eapply rows_le_trans|congruence]. Qed.

(** The rows of the workspaces and the statuses of the issues stay. *)
Definition same_rows (s s' : ServerRepo) : Prop := sv_workspaces s' = sv_workspaces s /\ sv_issues s' = sv_issues s.

#[export] Instance same_rows_pre : PreOrder same_rows.
Proof. split; [done|]. intros s1 s2 s3 [? ?] [? ?]. split; congruence. Qed.
#[export] Instance rows_kept_pre : PreOrder rows_kept.
Proof. split; [exact kept_refl|exact kept_trans]. Qed.

Lemma same_kept s s' : same_rows s s' -> rows_kept s s'.
Proof. intros [Hw Hi]. split; [rewrite Hw; apply rows_le_refl|done]. Qed.

Section rows.
Variable clock : nat -> DateTime.
Variable uuid : nat -> Uuid.
Variable parse_uuid : string -> option Uuid.
Variable hash : bytes -> string.
Variable iter_order : gset string -> list string.
Variable b64_decode : string -> option bytes.
Variable values : Engine -> list WorkspaceScope.

Abbreviation H := (M ServerRepo HttpError).
Abbreviation still := (along (E:=HttpError) same_rows).
Abbreviation keeping := (along (E:=HttpError) rows_kept).

Lemma still_keeping {A} (m : H A) : still m -> keeping m.
Proof. intros Hm s. apply same_kept, Hm. Qed.
Lemma still_best_effort {A} (m : H A) : still m -> still (best_effort m).
Proof. intros Hm s. apply Hm. Qed.
Lemma keeping_best_effort {A} (m : H A) : keeping m -> keeping (best_effort m).
Proof. intros Hm s. apply Hm. Qed.

Lemma still_tick : still (ServerRepo.tick clock).
Proof. done. Qed.
Lemma still_new_uuid : still (ServerRepo.new_uuid uuid).
Proof. done. Qed.
Lemma still_broadcast ty ws : still (broadcast ty ws).
Proof. done. Qed.
Lemma still_forget u : still (forget_scope u).
Proof. done. Qed.
Lemma still_check b : still (check b).
Proof. by destruct b. Qed.
Lemma still_check_len n x : still (check_len n x).
Proof. unfold check_len. by case_match. Qed.
Lemma still_get_ws u : still (get_ws u).
Proof. done. Qed.
Lemma still_find id : still (find_workspace parse_uuid id).
Proof. unfold find_workspace. by case_match. Qed.
Lemma still_append k : still (append_stored clock k).
Proof. done. Qed.
Lemma still_put k c : still (put_file k c).
Proof. done. Qed.
Lemma still_delete k : still (delete_stored k).
Proof. done. Qed.
Lemma still_head v : still (advance_head v).
Proof. done. Qed.
Lemma still_insert_version v : still (insert_version v).
Proof. intros s. unfold insert_version. by case_match. Qed.

Create HintDb still.
#[local] Hint Resolve still_tick still_new_uuid still_broadcast still_forget still_check still_check_len still_get_ws
  still_find still_append still_put still_delete still_head still_insert_version still_best_effort along_ret along_fail
  along_get along_lift along_for_each : still.
#[local] Hint Extern 1 (PreOrder _) => typeclasses eauto : still.

Ltac still := repeat (first [solve [auto 3 with still]|progress intros|apply along_bind; [typeclasses eauto|..]|case_match]).

Lemma still_notify o : still (notify_overlap o).
Proof. unfold notify_overlap. still. Qed.

Lemma still_conflicts ws intent paths : still (update_conflicts values ws intent paths).
Proof.
  intros s. unfold update_conflicts, mbind, M_bind, get_st.
  destruct (update_scope values (sv_engine s) ws intent paths) as [os e].
  etransitivity; [|apply (along_for_each _ notify_overlap), still_notify]. done.
Qed.

Lemma still_deletions w paths merged : still (record_deletions clock w paths merged).
Proof. revert merged; induction paths as [|p paths IH]; intros merged; simpl; still. Qed.

Lemma still_upload_files w id entries : still (upload_files clock hash b64_decode w id entries).
Proof. induction entries as [|e entries IH]; simpl; [still|]. unfold upload_file. still. Qed.

Lemma still_diff_entries w id cur files acc : still (diff_entries clock hash w id cur files acc).
Proof. revert acc; induction files as [|[p c] files IH]; intros acc; simpl; [still|]. unfold diff_entry. still. Qed.

(** An update keeps the rows if the status it writes brings none back. *)
Lemma kept_update u st iss del s :
  iss = None -> (forall w, w ∈ sv_workspaces s -> ws_id w = u -> st = Some WsCreated \/ st = Some WsActive -> live w = true) ->
  rows_kept s (update_workspace clock u st iss del s).2.
Proof.
  intros -> Hst. unfold update_workspace, mbind, M_bind, get_ws.
  destruct (find_by ws_id u (sv_workspaces s)) as [w0|]; simpl; [|apply kept_refl]. split; [|done]. simpl.
  unfold update_by. apply Forall2_fmap_r, Forall_Forall2_diag, Forall_forall. intros w Hw. simpl. case_decide as Hu; [|apply row_le_refl].
  split_and!; [done|done|]. unfold live, with_update. simpl. intros Hl. destruct st as [st|]; [|done]. apply (Hst w Hw Hu). simpl in Hl.
  apply bool_decide_eq_true in Hl as [->| ->]; auto.
Qed.

Lemma keeping_discard u : keeping (discard_row clock u).
Proof.
  intros s. unfold discard_row, mbind, M_bind. simpl. split; [|done]. simpl. unfold update_by.
  apply Forall2_fmap_r, Forall_Forall2_diag, Forall_true. intros w. simpl. case_decide; [|apply row_le_refl].
  split_and!; [done|done|]. done.
Qed.

(** *** A call that starts with the rows of a state *)

Definition from {A} (s0 : ServerRepo) (m : H A) : Prop := forall s, same_rows s0 s -> rows_kept s (m s).2.

Lemma from_still {A B} s0 (m : H A) (k : A -> H B) : still m -> (forall a, from s0 (k a)) -> from s0 (m ≫= k).
Proof.
  intros Hm Hk s Hs. specialize (Hm s). unfold mbind, M_bind. destruct (m s) as [[a|e|] s1]; simpl in *;
    [|by apply same_kept..]. etransitivity; [apply same_kept, Hm|]. apply Hk. by transitivity s.
Qed.

Lemma from_keeping {A} s0 (m : H A) : keeping m -> from s0 m.
Proof. intros Hm s _. apply Hm. Qed.

Lemma from_then {A B} s0 (m : H A) (k : A -> H B) : from s0 m -> (forall a, still (k a)) -> from s0 (m ≫= k).
Proof.
  intros Hm Hk s Hs. specialize (Hm s Hs). unfold mbind, M_bind. destruct (m s) as [[a|e|] s1]; simpl in *; [|done..].
  etransitivity; [exact Hm|]. apply same_kept, Hk.
Qed.

(** What was found when the identifiers are unique. *)
Lemma find_bind_kept {A} id (k : WorkspaceMeta -> H A) s :
  (forall meta, meta ∈ sv_workspaces s -> from s (k meta)) -> rows_kept s ((find_workspace parse_uuid id ≫= k) s).2.
Proof.
  intros Hk. unfold mbind, M_bind. pose proof (still_find id s) as Hst.
  destruct (find_workspace parse_uuid id s) as [[meta|e|] s'] eqn:E; simpl in *; [|by apply same_kept..].
  apply ServerPull.find_workspace_ok in E as (-> & _ & Hin). by apply Hk.
Qed.

Lemma from_finish s0 meta any merged :
  NoDup (ws_id <$> sv_workspaces s0) -> meta ∈ sv_workspaces s0 -> from s0 (finish_upload clock meta any merged).
Proof.
  intros Hnd Hin s [Hw _]. unfold finish_upload. case_match; [apply kept_refl|].
  unfold best_effort. simpl. apply kept_update; [done|]. intros w Hws Hu Hst. rewrite Hw in Hws.
  rewrite (keys_inj ws_id _ _ _ Hnd Hws Hin Hu). unfold live. apply bool_decide_eq_true. left.
  case_bool_decide as Hc; [done|]. simpl in Hst. by destruct Hst.
Qed.
Variable unpack : bytes -> option (list TarEntry).
Variable parse_manifest : bytes -> option DeltaManifest.
Variable read_dir : gmap string VersionMeta -> list VersionMeta.
Variable parse_rust_source : string -> bytes -> outcome GraphError (list Entity * list Relationship).
Variable parse_source_file : string -> bytes -> outcome GraphError (list Entity * list Relationship).

#[local] Hint Resolve still_notify still_conflicts still_deletions still_upload_files still_diff_entries : still.

(** The steps of a handler before it looks for the workspace. *)
Lemma still_then_kept {A B} (m : H A) (k : A -> H B) s :
  still m -> (forall a s1, same_rows s s1 -> rows_kept s1 (k a s1).2) -> rows_kept s ((m ≫= k) s).2.
Proof.
  intros Hm Hk. specialize (Hm s). unfold mbind, M_bind. destruct (m s) as [[a|e|] s1]; simpl in *; [|by apply same_kept..].
  etransitivity; [apply same_kept, Hm|]. by apply Hk.
Qed.

Lemma upload_kept ok id files deleted s :
  NoDup (ws_id <$> sv_workspaces s) ->
  rows_kept s (upload_workspace_files_handler clock parse_uuid hash iter_order b64_decode values ok id files deleted s).2.
Proof.
  intros Hnd. unfold upload_workspace_files_handler. do 4 (apply still_then_kept; [still|intros _ ? [Hw ?]; rewrite <-Hw in Hnd; clear Hw]).
  apply find_bind_kept. intros meta Hin. do 5 (apply from_still; [still|intros]).
  case_match; [|apply from_keeping, still_keeping; still].
  apply from_then; [by apply from_finish|]. intros. still.
Qed.

Lemma snapshot_kept ok id destructive body s :
  NoDup (ws_id <$> sv_workspaces s) ->
  rows_kept s (upload_snapshot_handler clock parse_uuid hash iter_order unpack parse_manifest ok id destructive body s).2.
Proof.
  intros Hnd. unfold upload_snapshot_handler. apply still_then_kept; [still|intros _ ? [Hw ?]; rewrite <-Hw in Hnd; clear Hw].
  case_match; [apply kept_refl|]. apply find_bind_kept. intros meta Hin.
  case_match; [|apply from_keeping, still_keeping; still]. do 4 (apply from_still; [still|intros]).
  case_match; [apply from_keeping, still_keeping; still|]. apply from_still; [still|intros].
  apply from_then; [by apply from_finish|]. intros. still.
Qed.

Lemma keeping_cascade u reason : keeping (cascade_workspace_teardown clock u reason).
Proof.
  unfold cascade_workspace_teardown. apply along_bind; [apply _|apply keeping_discard|]. intros. apply still_keeping. still.
Qed.

Lemma still_escalate meta id n cs : still (escalate clock uuid iter_order meta id n cs).
Proof. unfold escalate. still. Qed.

Lemma still_run_submit meta id hd : still (run_submit clock uuid hash iter_order read_dir parse_rust_source parse_source_file meta id hd).
Proof.
  intros s. unfold run_submit. destruct (submit_with_fs _ _ _ _ _ _ _ _ _ _) as [res [v fs]].
  destruct res; [|done..]. by destruct (s3_flush fs).
Qed.

#[local] Hint Resolve still_escalate still_run_submit : still.

Lemma keeping_record_merge meta id r : keeping (record_merge clock meta id r).
Proof.
  unfold record_merge. do 6 (apply along_bind; [apply _|apply still_keeping; still|intros]).
  apply along_bind; [apply _|apply keeping_best_effort|intros; apply still_keeping; still].
  intros s. apply kept_update; [done|]. intros w _ _ [|]; done.
Qed.

Lemma keeping_submit ok id :
  keeping (submit_workspace_handler clock uuid parse_uuid hash iter_order read_dir parse_rust_source parse_source_file ok id).
Proof.
  unfold submit_workspace_handler. do 3 (apply along_bind; [apply _|apply still_keeping; still|intros]).
  case_match.
  - apply along_bind; [apply _|apply keeping_cascade|]. intros. apply still_keeping. still.
  - apply along_bind; [apply _|apply still_keeping; still|]. intros [r|e|]; [|apply still_keeping; still..].
    apply along_bind; [apply _|apply keeping_record_merge|]. intros. apply still_keeping. still.
Qed.
End rows.

Section system.
Context `{AuthEnv} {unicode : Unicode}.
Variable scan : forall A, list A -> list A.
Variable collate : string -> string -> comparison.
Variable pg_lower : string -> string.
Variable ilike : string -> string -> bool.
Variable b64_decode : string -> option bytes.
Variable parse_upload : bytes -> option UploadAttachmentRequest.
Variable db : AuthDb.
Variable repo_id : Uuid.
Variable iter_order : gset string -> list string.
Variable values : Engine -> list WorkspaceScope.
Variable g : GraphSnapshot.
Variable hash : bytes -> string.
Variable unpack : bytes -> option (list TarEntry).
Variable parse_manifest : bytes -> option DeltaManifest.
Variable read_dir : gmap string VersionMeta -> list VersionMeta.
Variable parse_rust_source : string -> bytes -> outcome GraphError (list Entity * list Relationship).
Variable parse_source_file : string -> bytes -> outcome GraphError (list Entity * list Relationship).

Abbreviation Hi := (M Desk HttpError).

Definition drop_reply {A} (m : Hi A) : Hi unit := _ ← m; mret tt.

(** A request, and whether the permission check lets it pass. *)
Definition handle (allowed : bool) (rq : DeskRequest) : Hi unit :=
  match rq with
  | DqCreateIssue b => drop_reply (create_issue_handler scan collate pg_lower allowed b)
  | DqUpdateIssue id b => drop_reply (update_issue_handler scan allowed id b)
  | DqCloseIssue id resolution => drop_reply (close_issue_handler scan allowed id resolution)
  | DqComment i id b => drop_reply (create_issue_comment_handler scan collate ilike db repo_id i allowed id b)
  | DqEditComment i id cid body => drop_reply (update_issue_comment_handler scan collate ilike db repo_id i allowed id cid body)
  | DqDeleteComment i id cid => drop_reply (delete_issue_comment_handler scan i allowed id cid)
  | DqLink id target rel => drop_reply (create_issue_link_handler allowed id target rel)
  | DqUnlink id target => delete_issue_link_handler allowed id target
  | DqAttach id b => drop_reply (upload_attachment_handler scan b64_decode parse_upload allowed id b)
  | DqDetach id filename => delete_attachment_handler allowed id filename
  | DqClaim id => drop_reply (claim_work_handler iter_order values g allowed id)
  | DqDiscard id => discard_handler allowed id
  | DqCreateWorkspace intent => drop_reply (on_repo (create_workspace_handler clock uuid allowed intent))
  | DqUpload id files deleted =>
      drop_reply (on_repo (upload_workspace_files_handler clock parse_uuid hash iter_order b64_decode values allowed id files deleted))
  | DqSnapshot id destructive body =>
      drop_reply (on_repo (upload_snapshot_handler clock parse_uuid hash iter_order unpack parse_manifest allowed id destructive body))
  | DqSubmit id =>
      drop_reply (on_repo (submit_workspace_handler clock uuid parse_uuid hash iter_order read_dir parse_rust_source
        parse_source_file allowed id))
  end.

Definition serve (rqs : list (bool * DeskRequest)) (d : Desk) : Desk := foldl (fun d rq => (handle rq.1 rq.2 d).2) d rqs.

(** ** What the requests keep *)

Definition rows (d : Desk) : list WorkspaceMeta := sv_workspaces (dk_repo d).

(** A step that opens no issue and gives none a workspace. *)
Record tame (d d' : Desk) : Prop := {
  tm_rows : Forall2 row_le (rows d) (rows d');
  tm_issues : ii_id <$> dk_issues d' = ii_id <$> dk_issues d;
  tm_status id : status_of d' id = Open -> status_of d id = Open
}.

Lemma tame_refl d : tame d d.
Proof using. constructor; [apply rows_le_refl|done..]. Qed.

Lemma tame_trans d1 d2 d3 : tame d1 d2 -> tame d2 d3 -> tame d1 d3.
Proof using.
  intros [R1 I1 S1] [R2 I2 S2]. constructor; [|congruence|auto].
  by eapply rows_le_trans.
Qed.

(** Store calls: the same with the errors of the store. *)
#[local] Instance tame_pre : PreOrder tame.
Proof using. split; [exact tame_refl|exact tame_trans]. Qed.

Abbreviation tamely := (along (E:=HttpError) tame).
Abbreviation tamely_st := (along (E:=StorageError) tame).

Lemma tamely_stored {A} (m : M Desk StorageError A) : tamely_st m -> tamely (stored m).
Proof using. intros Hm d. specialize (Hm d). unfold stored. by destruct (m d). Qed.
Lemma tamely_stored_or {A} e (m : M Desk StorageError A) : tamely_st m -> tamely (stored_or e m).
Proof using. intros Hm d. specialize (Hm d). unfold stored_or. by destruct (m d). Qed.
Lemma tamely_attempt {A} (m : M Desk StorageError A) : tamely_st m -> tamely (attempt m).
Proof using. intros Hm d. apply Hm. Qed.

Lemma tame_repo d r : rows_kept (dk_repo d) r -> tame d (set_repo r d).
Proof using.
  intros [Hr Hi]. constructor; [exact Hr|done|]. intros id. unfold status_of. simpl. by rewrite Hi.
Qed.

Lemma tamely_on_repo {A} (m : M ServerRepo HttpError A) : along rows_kept m -> tamely (on_repo m).
Proof using.
  intros Hm d. specialize (Hm (dk_repo d)). unfold on_repo. destruct (m (dk_repo d)). by apply tame_repo.
Qed.

Lemma tamely_still {A} (m : M ServerRepo HttpError A) : along same_rows m -> tamely (on_repo m).
Proof using. intros Hm. by apply tamely_on_repo, still_keeping. Qed.

(** The tables that neither the issues nor the workspaces are in. *)
Lemma tame_others d d' : dk_repo d' = dk_repo d -> dk_issues d' = dk_issues d -> tame d d'.
Proof using.
  intros Hr Hi. unfold rows, info_of. constructor; unfold rows, info_of, status_of; rewrite ?Hr, ?Hi; [apply rows_le_refl|done..].
Qed.

Lemma tamely_others {E A} (m : M Desk E A) :
  (forall d, dk_repo (m d).2 = dk_repo d /\ dk_issues (m d).2 = dk_issues d) -> along tame m.
Proof using. intros Hm d. destruct (Hm d). by apply tame_others. Qed.

Lemma tamely_now {E} : along tame (desk_now (E:=E)).
Proof using. intros d. apply tame_repo. split; [apply rows_le_refl|done]. Qed.
Lemma tamely_draw {E} : along tame (desk_draw (E:=E)).
Proof using. intros d. apply tame_repo. split; [apply rows_le_refl|done]. Qed.
Lemma tamely_get_issue id : tamely_st (get_issue id).
Proof using. by apply tamely_others. Qed.

(** The issues stay when rows are rewritten under their identifiers. *)
Lemma info_of_update id u f d :
  (forall r, ii_id (f r) = ii_id r) ->
  info_of id (set_infos (update_by ii_id u f (dk_issues d)) d) = if decide (id = u) then f <$> info_of id d else info_of id d.
Proof using. intros Hf. unfold info_of. simpl. by rewrite find_by_update. Qed.

Lemma info_of_status id u st d : info_of id (set_status u st d) = info_of id d.
Proof using. done. Qed.

Lemma status_of_set u st d id : status_of (set_status u st d) id = if decide (id = u) then st else status_of d id.
Proof using.
  unfold status_of, set_status. simpl. case_decide as Hid; [subst; by rewrite lookup_insert_eq|by rewrite lookup_insert_ne].
Qed.

Lemma tame_rewrite u st f d :
  (forall r, ii_id (f r) = ii_id r) -> (st = Open -> status_of d u = Open) ->
  tame d (set_status u st (set_infos (update_by ii_id u f (dk_issues d)) d)).
Proof using.
  intros Hf Hst. constructor; [apply rows_le_refl| |intros id].
  - simpl. by apply update_by_keys.
  - rewrite status_of_set. case_decide as Hid; [subst; done|done].
Qed.

(** An update writes no [Open] over another status. *)
Lemma tamely_update u up : iu_status up <> Some Open -> tamely_st (update_issue u up).
Proof using.
  intros Hup d. unfold update_issue, mbind, M_bind, get_issue. destruct (info_of u d) as [r|] eqn:Er; [|apply tame_refl]. simpl.
  set (d1 := set_repo _ d). transitivity d1; [apply (tame_repo d); split; [apply rows_le_refl|done]|].
  apply (tame_rewrite u _ _ d1); [done|]. change (status_of d1 u) with (status_of d u).
  apply find_by_Some in Er as [_ <-]. destruct (iu_status up) as [[]|]; [done..|]. done.
Qed.

Lemma tamely_close u res : tamely_st (close_issue u res).
Proof using.
  unfold close_issue. apply along_bind; [apply _|apply tamely_now|intros t]. apply along_bind; [apply _| |intros; apply tamely_get_issue].
  intros d. unfold modify_st. simpl. destruct (info_of u d); [|apply tame_refl]. by apply tame_rewrite.
Qed.

(** *** Stores and handlers that open nothing *)

Lemma tamely_create_comment u c : tamely_st (create_comment u c).
Proof using.
  unfold create_comment. do 3 (apply along_bind; [apply _|first [apply tamely_now|apply tamely_draw|apply along_get, _]|intros]).
  case_match; [apply along_fail, _|]. by apply tamely_others.
Qed.

Lemma tamely_change_comment u f : tamely_st (change_comment u f).
Proof using.
  unfold change_comment. apply along_bind; [apply _|apply tamely_now|intros]. by apply tamely_others.
Qed.

Lemma tamely_insert_mentions u l : tamely_st (insert_mentions u l).
Proof using.
  induction l as [|m l IH]; simpl; [apply along_ret, _|]. apply along_bind; [apply _|apply tamely_draw|intros].
  apply along_bind; [apply _|by apply tamely_others|intros]. apply along_bind; [apply _|apply IH|intros; apply along_ret, _].
Qed.

Lemma tamely_store_mentions u l : tamely (store_mentions u l).
Proof using.
  intros d. unfold store_mentions, replace_mentions. set (m := _ ≫= _).
  assert (Hm : tamely_st m).
  { apply along_bind; [apply _|by apply tamely_others|intros]. apply tamely_insert_mentions. }
  specialize (Hm d). by destruct (m d) as [[| |] d'].
Qed.

Lemma tamely_create_link a b r : tamely_st (create_link a b r).
Proof using.
  apply tamely_others. intros d. unfold create_link, mbind, M_bind, get_st. by destruct (_ || _).
Qed.
Lemma tamely_delete_link a b : tamely_st (delete_link a b).
Proof using. by apply tamely_others. Qed.

Lemma tamely_create_attachment u a : tamely_st (create_attachment u a).
Proof using.
  unfold create_attachment. do 3 (apply along_bind; [apply _|first [apply tamely_now|apply tamely_draw|apply along_get, _]|intros]).
  do 2 (case_match; try by apply along_fail, _). by apply tamely_others.
Qed.
Lemma tamely_get_attachment u f : tamely_st (get_attachment u f).
Proof using. by apply tamely_others. Qed.
Lemma tamely_delete_attachment u f : tamely_st (delete_attachment u f).
Proof using. by apply tamely_others. Qed.

Create HintDb tamely.
#[local] Hint Resolve tamely_stored tamely_stored_or tamely_attempt tamely_still tamely_on_repo tamely_now tamely_draw tamely_get_issue
  tamely_close tamely_create_comment tamely_change_comment tamely_store_mentions tamely_create_link tamely_delete_link
  tamely_create_attachment tamely_get_attachment tamely_delete_attachment still_append still_broadcast still_check
  still_check_len still_put still_delete keeping_cascade : tamely.
#[local] Hint Extern 1 (along _ (mret _)) => apply along_ret, _ : tamely.
#[local] Hint Extern 1 (along _ (fail _)) => apply along_fail, _ : tamely.
#[local] Hint Extern 1 (along _ get_st) => apply along_get, _ : tamely.
#[local] Hint Extern 1 (along _ (for_each _ _)) => apply along_for_each; [apply _|intros] : tamely.

Ltac tamely := repeat (first
  [solve [eauto 4 with tamely]|progress intros|apply along_bind; [apply _|..]|apply along_for_each; [apply _|]|case_match]).

Lemma tamely_parse_id id : tamely (parse_id id).
Proof using. unfold parse_id. tamely. Qed.
Lemma tamely_or_bad {A} (o : option A) : tamely (or_bad o).
Proof using. unfold or_bad. tamely. Qed.
Lemma tamely_check b : tamely (check_access b).
Proof using. unfold check_access. tamely. Qed.
Lemma tamely_limit n x : tamely (limit_len n x).
Proof using. unfold limit_len. tamely. Qed.
Lemma tamely_event k : tamely (record_event k).
Proof using. unfold record_event. tamely. Qed.
Lemma tamely_announce k : tamely (announce k).
Proof using. unfold announce. tamely. Qed.
#[local] Hint Resolve tamely_parse_id tamely_or_bad tamely_check tamely_limit tamely_event tamely_announce : tamely.

Lemma tamely_labels l : tamely (validate_labels l).
Proof using. unfold validate_labels. tamely. Qed.
Lemma tamely_filename f : tamely (validate_attachment_filename f).
Proof using. unfold validate_attachment_filename. tamely. Qed.
Lemma tamely_blockers l : tamely (parse_blockers l).
Proof using. induction l as [|b l IH]; simpl; tamely. Qed.
Lemma tamely_block_all l u : tamely (block_all l u).
Proof using. unfold block_all. tamely. Qed.
Lemma tamely_opt {A B} (f : A -> Hi B) o : (forall x, tamely (f x)) -> tamely (opt_parse f o).
Proof using. intros Hf. unfold opt_parse. tamely. Qed.
Lemma tamely_body b : tamely (parse_attachment_body b64_decode parse_upload b).
Proof using. unfold parse_attachment_body. tamely. Qed.
Lemma tamely_find_comment a b : tamely (find_comment scan a b).
Proof using. unfold find_comment. tamely. Qed.
Lemma tamely_parent u p : tamely (parse_parent scan u p).
Proof using. apply tamely_opt. tamely. Qed.
#[local] Hint Resolve tamely_labels tamely_filename tamely_blockers tamely_block_all tamely_opt tamely_body tamely_find_comment
  tamely_parent : tamely.

Lemma tamely_update_handler ok id b : tamely (update_issue_handler scan ok id b).
Proof using.
  unfold update_issue_handler.
  apply along_bind; [apply _|tamely|intros]. do 3 (apply along_bind; [apply _|destruct (_ b); simpl; tamely|intros]).
  apply along_bind; [apply _|tamely|intros]. apply along_bind; [apply _|tamely|intros].
  apply along_bind; [apply _|tamely|intros]. apply along_bind; [apply _|by apply tamely_stored, tamely_update|intros].
  tamely.
Qed.

Lemma tamely_close_handler ok id res : tamely (close_issue_handler scan ok id res).
Proof using. unfold close_issue_handler. tamely. Qed.

Lemma tamely_comment_handler i ok id b : tamely (create_issue_comment_handler scan collate ilike db repo_id i ok id b).
Proof using. unfold create_issue_comment_handler. tamely. Qed.

Lemma tamely_edit_handler i ok id cid body : tamely (update_issue_comment_handler scan collate ilike db repo_id i ok id cid body).
Proof using. unfold update_issue_comment_handler, update_comment. tamely. Qed.

Lemma tamely_delete_handler i ok id cid : tamely (delete_issue_comment_handler scan i ok id cid).
Proof using. unfold delete_issue_comment_handler, soft_delete_comment. tamely. Qed.

Lemma tamely_link_handler ok id t r : tamely (create_issue_link_handler ok id t r).
Proof using. unfold create_issue_link_handler. tamely. Qed.

Lemma tamely_unlink_handler ok id t : tamely (delete_issue_link_handler ok id t).
Proof using. unfold delete_issue_link_handler. tamely. Qed.

Lemma tamely_attach_handler ok id b : tamely (upload_attachment_handler scan b64_decode parse_upload ok id b).
Proof using. unfold upload_attachment_handler. tamely. Qed.

Lemma tamely_detach_handler ok id f : tamely (delete_attachment_handler ok id f).
Proof using. unfold delete_attachment_handler. tamely. Qed.

#[local] Hint Resolve tamely_update_handler tamely_close_handler tamely_comment_handler tamely_edit_handler tamely_delete_handler
  tamely_link_handler tamely_unlink_handler tamely_attach_handler tamely_detach_handler : tamely.

(** The requests that open an issue, give one a workspace or make a row. *)
Definition plain (rq : DeskRequest) : bool :=
  match rq with DqCreateIssue _ | DqClaim _ | DqDiscard _ | DqCreateWorkspace _ => false | _ => true end.

Lemma drop_reply_state {A} (m : Hi A) d : (drop_reply m d).2 = (m d).2.
Proof using. unfold drop_reply, mbind, M_bind. by destruct (m d) as [[]]. Qed.

Lemma on_repo_state {A} (m : M ServerRepo HttpError A) d : (on_repo m d).2 = set_repo (m (dk_repo d)).2 d.
Proof using. unfold on_repo. by destruct (m (dk_repo d)). Qed.

Lemma plain_tame ok rq d : plain rq = true -> NoDup (ws_id <$> rows d) -> tame d (handle ok rq d).2.
Proof using.
  intros Hp Hnd. destruct rq; try discriminate Hp; simpl; rewrite ?drop_reply_state, ?on_repo_state.
  all: first [by apply tame_repo, upload_kept|by apply tame_repo, snapshot_kept|by apply tame_repo, keeping_submit|
    match goal with |- tame ?d (?m ?d).2 => let H := fresh in assert (H : tamely m) by tamely; apply H end].
Qed.

(** ** Claims are exclusive *)

(** The workspaces that are at work on an issue. *)
Definition holders (d : Desk) (i : Uuid) : list WorkspaceMeta :=
  filter (fun w => ws_issue_id w = Some i /\ live w = true) (rows d).

(** Identifiers are unique, workspaces belong to issues that exist, an issue has at most
    one workspace at work on it, and an open issue has none. *)
Record desk_ok (d : Desk) : Prop := {
  do_issues : NoDup (ii_id <$> dk_issues d);
  do_rows : NoDup (ws_id <$> rows d);
  do_linked w i : w ∈ rows d -> ws_issue_id w = Some i -> is_Some (info_of i d);
  do_one i : length (holders d i) <= 1;
  do_open i : status_of d i = Open -> holders d i = []
}.

Lemma info_is_Some i d : is_Some (info_of i d) <-> i ∈ ii_id <$> dk_issues d.
Proof using.
  unfold info_of. destruct (find_by ii_id i (dk_issues d)) as [r|] eqn:E.
  - apply find_by_Some in E as [Hin <-]. split; [intros _; by apply list_elem_of_fmap_2|by eexists].
  - apply find_by_None in E. by split; [intros []|].
Qed.

Lemma rows_le_ids l l' : Forall2 row_le l l' -> ws_id <$> l' = ws_id <$> l.
Proof using. induction 1 as [|w w' l l' (Hi & _) _ IH]; [done|]. rewrite !fmap_cons. by rewrite Hi, IH. Qed.

(** The holders are among those before. *)
Lemma holders_le i l l' :
  Forall2 row_le l l' ->
  length (filter (fun w => ws_issue_id w = Some i /\ live w = true) l') <=
  length (filter (fun w => ws_issue_id w = Some i /\ live w = true) l).
Proof using.
  induction 1 as [|w w' l l' (_ & Hs & Hl) _ IH]; [done|]. rewrite !filter_cons.
  case_decide as H1; [|case_decide; [by apply le_S|done]]. destruct H1 as [Hw' Hl'].
  rewrite decide_True by (split; [congruence|auto]). by apply le_n_S.
Qed.

Lemma tame_ok d d' : desk_ok d -> tame d d' -> desk_ok d'.
Proof using.
  intros [Di Dr Dl D1 Do] [R I S]. pose proof (fun i => holders_le i _ _ R) as Hh. constructor.
  - by rewrite I.
  - by rewrite (rows_le_ids _ _ R).
  - intros w' i Hw Hi. apply info_is_Some. rewrite I. apply info_is_Some.
    apply list_elem_of_lookup in Hw as [k Hk]. destruct (Forall2_lookup_r _ _ _ _ _ R Hk) as (w & Hw & _ & Hs & _).
    apply (Dl w); [by eapply list_elem_of_lookup_2|by rewrite <-Hs].
  - intros i. etransitivity; [apply Hh|apply D1].
  - intros i Hop. apply length_zero_iff_nil. specialize (Hh i). specialize (Do i (S i Hop)). unfold holders in *. rewrite Do in Hh. simpl in Hh. lia.
Qed.

(** *** The identifier that the next request draws is new *)

Definition next_id (d : Desk) : Uuid := uuid (sv_draws (dk_repo d)).
Definition fresh (d : Desk) : Prop := info_of (next_id d) d = None /\ (next_id d ∉ ws_id <$> rows d).

(** A call that only reads, the clock included. *)
Definition idle (d d' : Desk) : Prop :=
  exists t, d' = set_repo (set_streams (sv_draws (dk_repo d)) t (dk_repo d)) d.

#[local] Instance idle_pre : PreOrder idle.
Proof using.
  split; [intros d; exists (sv_ticks (dk_repo d)); by destruct d as [[]]|].
  intros d1 d2 d3 [t1 ->] [t2 ->]. exists t2. done.
Qed.

Lemma idle_same {E A} (m : M Desk E A) : (forall d, (m d).2 = d) -> along idle m.
Proof using. intros Hm d. by rewrite Hm. Qed.

Lemma idle_tame d d' : idle d d' -> tame d d'.
Proof using. intros [t ->]. apply tame_repo. split; [apply rows_le_refl|done]. Qed.

Lemma idle_fresh d d' : idle d d' -> fresh d -> fresh d'.
Proof using. by intros [t ->]. Qed.

Lemma idle_now {E} : along idle (desk_now (E:=E)).
Proof using. intros d. by eexists. Qed.
Lemma idle_check b : along idle (check_access b).
Proof using. apply idle_same. intros d. unfold check_access, on_repo. by destruct b, d. Qed.
Lemma idle_limit n x : along idle (limit_len n x).
Proof using. apply idle_same. intros d. unfold limit_len, on_repo, check_len. by destruct (_ <? _), d. Qed.
Lemma idle_labels l : along idle (validate_labels l).
Proof using. unfold validate_labels. case_match; [apply along_fail, _|apply along_for_each; [apply _|intros; apply idle_limit]]. Qed.
Lemma idle_or_bad {A} (o : option A) : along idle (or_bad o).
Proof using. apply idle_same. by destruct o. Qed.
Lemma idle_parse_id id : along idle (parse_id id).
Proof using. apply idle_same. intros d. unfold parse_id. by destruct (parse_uuid id). Qed.
Lemma idle_get_issue {A} (f : M Desk StorageError Issue -> M Desk HttpError A) u :
  (forall m d, (f m d).2 = (m d).2) -> along idle (f (get_issue u)).
Proof using. intros Hf. apply idle_same. intros d. by rewrite Hf. Qed.
Lemma stored_state {A} (m : M Desk StorageError A) d : (stored m d).2 = (m d).2.
Proof using. unfold stored. by destruct (m d). Qed.
Lemma stored_or_state {A} e (m : M Desk StorageError A) d : (stored_or e m d).2 = (m d).2.
Proof using. unfold stored_or. by destruct (m d). Qed.

Lemma idle_blockers l : along idle (parse_blockers l).
Proof using.
  induction l as [|b l IH]; simpl; [apply along_ret, _|]. apply along_bind; [apply _|apply idle_parse_id|intros].
  apply along_bind; [apply _|apply (idle_get_issue (stored_or HtBadRequest)), stored_or_state|intros].
  apply along_bind; [apply _|apply IH|intros; apply along_ret, _].
Qed.

Lemma idle_guard a b : along idle (agent_guard scan collate pg_lower a b).
Proof using.
  unfold agent_guard. apply along_bind; [apply _|apply along_get, _|intros]. apply along_bind; [apply _|apply idle_now|intros].
  case_match; [apply along_fail, _|apply along_ret, _].
Qed.

(** A handler first reads, and then makes a step that keeps the tables in order. *)
Lemma idle_then {A B} (m : Hi A) (k : A -> Hi B) d :
  along idle m -> desk_ok d -> fresh d ->
  (forall a d1, idle d d1 -> desk_ok d1 -> fresh d1 -> m d = (Ok a, d1) -> desk_ok (k a d1).2) -> desk_ok ((m ≫= k) d).2.
Proof using.
  intros Hm Hd Hf Hk. specialize (Hm d). unfold mbind, M_bind.
  destruct (m d) as [[a|e|] d1] eqn:E; simpl in *; [|by eapply tame_ok, idle_tame..].
  apply Hk; [done|by eapply tame_ok, idle_tame|by eapply idle_fresh|done].
Qed.

Lemma then_tame {A B} (m : Hi A) (k : A -> Hi B) d :
  desk_ok (m d).2 -> (forall a, tamely (k a)) -> desk_ok ((m ≫= k) d).2.
Proof using.
  intros Hm Hk. unfold mbind, M_bind. destruct (m d) as [[a|e|] d1]; simpl in *; [|done..]. by eapply tame_ok, Hk.
Qed.

Lemma info_of_snoc u r d :
  info_of u (set_infos (dk_issues d ++ [r]) d) =
  match info_of u d with Some x => Some x | None => if decide (ii_id r = u) then Some r else None end.
Proof using. unfold info_of. simpl. by rewrite find_by_snoc. Qed.

Lemma holders_elem d i w : w ∈ holders d i <-> w ∈ rows d /\ ws_issue_id w = Some i /\ live w = true.
Proof using. unfold holders. rewrite list_elem_of_filter. split; intros H1; destruct H1 as [? ?]; [|]; split; try done; destruct H1; done. Qed.

Lemma no_holders d i : desk_ok d -> info_of i d = None -> holders d i = [].
Proof using.
  intros Hd Hi. apply elem_of_nil_inv. intros w (Hw & Hs & _)%holders_elem.
  destruct (do_linked _ Hd w i Hw Hs) as [r Hr]. by rewrite Hi in Hr.
Qed.

Lemma insert_issue_ok d r :
  desk_ok d -> info_of (ii_id r) d = None -> desk_ok (set_status (ii_id r) Open (set_infos (dk_issues d ++ [r]) d)).
Proof using.
  intros Hd Hn. constructor.
  - simpl. apply snoc_keys_NoDup; [apply do_issues, Hd|done].
  - apply (do_rows _ Hd).
  - intros w i Hw Hi. rewrite info_of_status, info_of_snoc. by destruct (do_linked _ Hd w i Hw Hi) as [x ->].
  - apply (do_one _ Hd).
  - intros i. rewrite status_of_set. change (holders _ i) with (holders d i). case_decide as Hi; [subst; intros _; by apply no_holders|].
    change (status_of (set_infos _ d) i) with (status_of d i). apply (do_open _ Hd).
Qed.

Lemma create_issue_ok ni d : desk_ok d -> fresh d -> desk_ok (create_issue ni d).2.
Proof using.
  intros Hd [Hf _]. unfold create_issue, mbind, M_bind, desk_draw, desk_now, get_st, modify_st, fail. simpl.
  set (d2 := set_repo _ _).
  assert (Hd2 : desk_ok d2) by exact (tame_ok _ _ Hd (tame_repo d (dk_repo d2) (conj (rows_le_refl _) eq_refl))).
  change (info_of _ d2) with (info_of (next_id d) d). rewrite Hf. apply (insert_issue_ok d2 (mkInfo (next_id d) _ _ _ _ _ _ _ _ _ _) Hd2), Hf.
Qed.

Tactic Notation "reading" tactic3(tac) :=
  match goal with
  | Hd : desk_ok ?d, Hf : fresh ?d |- _ =>
      apply idle_then; [tac|exact Hd|exact Hf|];
      let a := fresh "a" in let d' := fresh "d" in let Hd' := fresh "Hd" in let Hf' := fresh "Hf" in
      intros a d' _ Hd' Hf' _; clear d Hd Hf
  end.

Lemma create_handler_ok ok b d : desk_ok d -> fresh d -> desk_ok (create_issue_handler scan collate pg_lower ok b d).2.
Proof using.
  intros Hd Hf. unfold create_issue_handler. reading (apply idle_check). do 2 reading (apply idle_limit). reading (apply idle_labels).
  reading (apply idle_or_bad).
  reading (case_match; [|apply along_ret, _]; apply along_bind; [apply _|apply idle_guard|intros; apply along_ret, _]).
  destruct a4 as [[creator source] dup]. reading (apply idle_blockers).
  apply then_tame; [rewrite stored_state; by apply create_issue_ok|]. tamely.
Qed.

(** *** A new row *)

Lemma holders_snoc d d' w i :
  rows d' = rows d ++ [w] -> holders d' i = holders d i ++ (if decide (ws_issue_id w = Some i /\ live w = true) then [w] else []).
Proof using. intros Hr. unfold holders. rewrite Hr, filter_app. by f_equal. Qed.

Lemma add_row_ok d d' w :
  desk_ok d -> rows d' = rows d ++ [w] -> ii_id <$> dk_issues d' = ii_id <$> dk_issues d -> (ws_id w ∉ ws_id <$> rows d) ->
  (forall i, ws_issue_id w = Some i -> is_Some (info_of i d) /\ holders d i = [] /\ status_of d' i <> Open) ->
  (forall i, status_of d' i = Open -> status_of d i = Open) -> desk_ok d'.
Proof using.
  intros Hd Hr Hi Hf Hw Ho. constructor.
  - rewrite Hi. apply Hd.
  - rewrite Hr. apply snoc_keys_NoDup; [apply Hd|by apply find_by_None].
  - intros x i. rewrite Hr, elem_of_app, list_elem_of_singleton. intros Hx Hs. apply info_is_Some. rewrite Hi. apply info_is_Some.
    destruct Hx as [Hx| ->]; [by apply (do_linked _ Hd x)|by apply Hw].
  - intros i. rewrite (holders_snoc _ _ _ _ Hr). case_decide as Hc; [|rewrite app_nil_r; apply (do_one _ Hd)].
    destruct (Hw i (proj1 Hc)) as (_ & -> & _). done.
  - intros i Hop. rewrite (holders_snoc _ _ _ _ Hr), (do_open _ Hd i (Ho i Hop)).
    case_decide as Hc; [|done]. by destruct (Hw i (proj1 Hc)) as (_ & _ & []).
Qed.

Lemma create_row_ok ok intent d :
  desk_ok d -> fresh d -> desk_ok (on_repo (create_workspace_handler clock uuid ok intent) d).2.
Proof using.
  intros Hd [_ Hf]. rewrite on_repo_state. unfold create_workspace_handler, insert_workspace, mbind, M_bind.
  unfold check, check_len. destruct ok; [|by destruct d]. destruct (MAX_INTENT_LEN <? _); [by destruct d|]. simpl.
  unfold get_ws. simpl. rewrite find_by_snoc. unfold fresh, next_id, rows in Hf. apply find_by_None in Hf. rewrite Hf. rewrite decide_True by done. simpl.
  eapply (add_row_ok d _ _ Hd); [reflexivity|done|by apply find_by_None|done|done].
Qed.

Lemma claim_ok ok id d : desk_ok d -> fresh d -> desk_ok (claim_work_handler iter_order values g ok id d).2.
Proof using.
  intros Hd [_ Hf]. destruct (claim_cases iter_order values g ok id d Hf) as [(c & u & r & d' & -> & (Hr & Ho & _) & C)|[e ->]]; [|done].
  pose proof (fun i => claimed_status u r d d' i C) as Hs.
  apply (add_row_ok d _ _ Hd (cd_rows _ _ _ _ C)).
  - apply (claimed_ids _ _ _ _ C).
  - exact Hf.
  - intros i [= <-]. rewrite Hs, decide_True by done. split; [by eexists|]. split; [by apply (do_open _ Hd)|done].
  - intros i. rewrite Hs. by case_decide.
Qed.

(** *** The release of an issue *)

(** A discard that does not take an issue from under another workspace. *)
Definition orderly_discard (d : Desk) (id : string) : Prop :=
  forall w i, w ∈ rows d -> parse_uuid id = Some (ws_id w) -> ws_issue_id w = Some i -> live w = true \/ holders d i = [].

Lemma discard_row_live u (s : ServerRepo) w :
  w ∈ sv_workspaces (discard_row clock u s).2 -> ws_id w = u -> live w = false.
Proof using.
  unfold discard_row, mbind, M_bind. simpl. intros (x & -> & _)%list_elem_of_fmap. case_decide as Hx; [done|]. by intros.
Qed.

Lemma one_holder d i w w' : desk_ok d -> w ∈ holders d i -> w' ∈ holders d i -> w = w'.
Proof using.
  intros Hd. pose proof (do_one _ Hd i) as Hl. destruct (holders d i) as [|x [|y l]]; simpl in Hl; [by intros ?%not_elem_of_nil| |lia].
  by intros ->%list_elem_of_singleton ->%list_elem_of_singleton.
Qed.

Lemma released d w i :
  desk_ok d -> w ∈ rows d -> ws_issue_id w = Some i -> live w = true \/ holders d i = [] ->
  holders (set_repo (discard_row clock (ws_id w) (dk_repo d)).2 d) i = [].
Proof using.
  intros Hd Hw Hi Ho. pose proof (keeping_discard clock (ws_id w) (dk_repo d)) as [Hk _]. apply elem_of_nil_inv.
  intros x (Hx & Hxi & Hxl)%holders_elem. unfold rows in Hx. simpl in Hx.
  pose proof Hx as Hx'. apply list_elem_of_lookup in Hx' as [k Hk']. destruct (Forall2_lookup_r _ _ _ _ _ Hk Hk') as (y & Hy & Hid & Hs & Hl).
  apply list_elem_of_lookup_2 in Hy. assert (Hyh : y ∈ holders d i) by (apply holders_elem; rewrite <-Hs; auto).
  destruct Ho as [Ho|Ho]; [|rewrite Ho in Hyh; by apply not_elem_of_nil in Hyh].
  rewrite (one_holder d i y w Hd Hyh) in Hid by (by apply holders_elem).
  by rewrite (discard_row_live (ws_id w) (dk_repo d) x Hx Hid) in Hxl.
Qed.

Lemma reopen_ok d i f st :
  desk_ok d -> holders d i = [] -> (forall r, ii_id (f r) = ii_id r) ->
  desk_ok (set_status i st (set_infos (update_by ii_id i f (dk_issues d)) d)).
Proof using.
  intros Hd Hh Hf. assert (Hids : ii_id <$> update_by ii_id i f (dk_issues d) = ii_id <$> dk_issues d) by by apply update_by_keys.
  constructor.
  - simpl. rewrite Hids. apply Hd.
  - apply (do_rows _ Hd).
  - intros w j Hw Hj. apply info_is_Some. simpl. rewrite Hids. apply info_is_Some. by apply (do_linked _ Hd w).
  - apply (do_one _ Hd).
  - intros j. rewrite status_of_set. change (holders _ j) with (holders d j). case_decide as Hj; [by subst|]. apply (do_open _ Hd).
Qed.

Lemma reopen_linked_ok o d :
  desk_ok d -> (forall i, o = Some i -> holders d i = []) -> desk_ok (reopen_linked o d).2.
Proof using.
  intros Hd Ho. unfold reopen_linked. destruct o as [i|]; [|done]. unfold mbind, M_bind, get_st.
  destruct (info_of i d) as [r|] eqn:Hr; [|done]. case_bool_decide; [|done]. unfold attempt, update_issue, mbind, M_bind, get_issue.
  rewrite Hr. simpl. set (d1 := set_repo _ d).
  assert (Hd1 : desk_ok d1) by exact (tame_ok _ _ Hd (tame_repo d (dk_repo d1) (conj (rows_le_refl _) eq_refl))).
  by apply (reopen_ok d1); [|apply Ho|].
Qed.

Lemma discard_ok ok id d : desk_ok d -> orderly_discard d id -> desk_ok (discard_handler ok id d).2.
Proof using.
  intros Hd Ho. unfold discard_handler. destruct ok; [|by destruct d]. rewrite (M_bind_ok _ _ d tt d) by by destruct d.
  unfold mbind at 1, M_bind at 1. unfold on_repo at 1. destruct (find_workspace parse_uuid id (dk_repo d)) as [[meta|e|] s] eqn:E.
  2-3: pose proof (still_find parse_uuid id (dk_repo d)) as Hs; rewrite E in Hs; exact (tame_ok _ _ Hd (tame_repo d s (same_kept _ _ Hs))).
  apply ServerPull.find_workspace_ok in E as (-> & Hid & Hin). replace (set_repo (dk_repo d) d) with d by by destruct d.
  set (d1 := set_repo (discard_row clock (ws_id meta) (dk_repo d)).2 d).
  rewrite (M_bind_ok _ _ d tt d1) by done. set (d2 := (on_repo (forget_scope (ws_id meta)) d1).2). rewrite (M_bind_ok _ _ d1 tt d2) by done.
  assert (Hd1 : desk_ok d1) by (eapply tame_ok, tame_repo, keeping_discard; exact Hd).
  assert (Hd2 : desk_ok d2) by (eapply tame_ok; [exact Hd1|by apply tame_repo, same_kept]).
  apply then_tame; [apply reopen_linked_ok; [exact Hd2|]|tamely].
  intros i Hi. apply (released d meta i Hd Hin Hi). by apply (Ho meta i Hin Hid).
Qed.

(** *** The requests in any order *)

(** One request, at a moment when the next identifier is new; a discard is orderly. *)
Inductive request_step (d : Desk) : Desk -> Prop :=
  | Request ok rq : fresh d -> (forall id, rq = DqDiscard id -> orderly_discard d id) -> request_step d (handle ok rq d).2.

Lemma request_ok d d' : request_step d d' -> desk_ok d -> desk_ok d'.
Proof using.
  intros [ok rq Hf Ho] Hd. destruct (plain rq) eqn:Hp; [by eapply tame_ok, plain_tame, do_rows|].
  destruct rq; try discriminate Hp; simpl; rewrite ?drop_reply_state.
  - by apply create_handler_ok.
  - by apply claim_ok.
  - by apply discard_ok, Ho.
  - by apply create_row_ok.
Qed.

Lemma requests_ok d d' : rtc request_step d d' -> desk_ok d -> desk_ok d'.
Proof using. induction 1; eauto using request_ok. Qed.

(** The workspace of a claim is the only one at work on the issue. *)
Lemma claim_holds u r d d' :
  desk_ok d -> status_of d u = Open -> claimed u r d d' -> ws_id <$> holders d' u = [next_id d].
Proof using.
  intros Hd Ho C. rewrite (holders_snoc _ _ _ u (cd_rows _ _ _ _ C)), (do_open _ Hd u Ho), decide_True by done. done.
Qed.

(** C4. Claims are exclusive. Whatever requests about issues, comments, links, attachments
    and workspaces arrive, refused ones included, every issue has at most one workspace at
    work on it, an open issue has none, and a claim that succeeds makes its workspace the
    only one at work on the issue; as long as a discard that names a workspace which is
    already gone does not hit an issue that another workspace has taken since. *)
Theorem claims_exclusive d0 d :
  desk_ok d0 -> rtc request_step d0 d ->
  (forall i, length (holders d i) <= 1 /\ (status_of d i = Open -> holders d i = [])) /\
  (fresh d -> forall ok id c d', claim_work_handler iter_order values g ok id d = (Ok c, d') ->
     ws_id <$> holders d' (cl_issue_id c) = [cl_workspace_id c]).
Proof using.
  intros Hd0 Hr. pose proof (requests_ok _ _ Hr Hd0) as Hd. split; [intros i; split; [apply (do_one _ Hd)|apply (do_open _ Hd)]|].
  intros [_ Hf] ok id c d' E. destruct ok; [|by rewrite claim_forbidden in E].
  destruct (parse_uuid id) as [u|] eqn:Hu; [|by rewrite claim_bad_id in E].
  destruct (info_of u d) as [r|] eqn:Hi; [|by rewrite (claim_unknown iter_order values g id u) in E].
  destruct (claimable_dec iter_order values g d u r Hi) as [Hc|Hc]; [|by rewrite (claim_refused iter_order values g id u r) in E].
  destruct (claim_succeeds iter_order values g id u r d Hu Hc Hf) as (d1 & E1 & C). rewrite E1 in E. injection E as <- <-.
  apply (claim_holds u r d d1 Hd); [apply Hc|exact C].
Qed.
End system.

(** ** A desk to compute with *)

Definition desk_env : AuthEnv := {|
  clock := wit_clock; uuid := wit_uuid; uuid_simple := wit_uuid; uuid_bytes := fun n => [n]; parse_uuid := wit_parse_uuid; sha256_hex := fun s => s
|}.
Definition ex_values (e : Engine) : list WorkspaceScope := (map_to_list e).*2.
Definition ex_graph : GraphSnapshot := mkSnapshot [] [].
Definition empty_desk : Desk := mkDesk (mkServer ∅ [] [] (Some "v1"%string) [] ∅ [] ∅ [] 0 0) [] [] [] [] [].
Definition ex_issue : CreateIssueRequest := mkCreateIssue "Fix the parser" "" "high" [] "alice" None None 10 [] [].

#[local] Existing Instances desk_env ascii_unicode.

Definition ex_handle : bool -> DeskRequest -> M Desk HttpError unit :=
  handle (fun _ l => l) String.compare (fun s => s) String.eqb wit_decode (fun _ => None)
    (mkAuthDb [] [] [] [] [] ∅ [] [] [] [] [] ∅ 0 0) "repo" elements ex_values ex_graph string_of wit_unpack wit_manifest wit_dir
    wit_parser wit_parser.
Definition ex_serve (rqs : list (bool * DeskRequest)) (d : Desk) : Desk := foldl (fun d rq => (ex_handle rq.1 rq.2 d).2) d rqs.
Definition one_issue : Desk := ex_serve [(true, DqCreateIssue ex_issue)] empty_desk.

Lemma empty_desk_ok : desk_ok empty_desk.
Proof. constructor; simpl; [constructor..|by intros w i Hw%not_elem_of_nil|intros i; apply Nat.le_0_l|done]. Qed.

Lemma ex_serve_cons rq rqs d : ex_serve (rq :: rqs) d = ex_serve rqs (ex_serve [rq] d).
Proof. reflexivity. Qed.

Lemma ex_step ok rq d :
  fresh d -> (forall id, rq = DqDiscard id -> orderly_discard d id) ->
  request_step (fun _ l => l) String.compare (fun s => s) String.eqb wit_decode (fun _ => None)
    (mkAuthDb [] [] [] [] [] ∅ [] [] [] [] [] ∅ 0 0) "repo" elements ex_values ex_graph string_of wit_unpack wit_manifest wit_dir
    wit_parser wit_parser d (ex_serve [(ok, rq)] d).
Proof. apply Request. Qed.

Lemma claims_exclusive_witness :
  let d := ex_serve [(true, DqCreateIssue ex_issue); (true, DqClaim "w0")] empty_desk in
  (forall i, length (holders d i) <= 1 /\ (status_of d i = Open -> holders d i = [])) /\ ws_id <$> holders d "w0" = ["w1"%string].
Proof.
  intros d. split; [|vm_compute; reflexivity].
  refine (proj1 (claims_exclusive (fun _ l => l) String.compare (fun s => s) String.eqb wit_decode (fun _ => None)
    (mkAuthDb [] [] [] [] [] ∅ [] [] [] [] [] ∅ 0 0) "repo" elements ex_values ex_graph string_of wit_unpack wit_manifest wit_dir
    wit_parser wit_parser empty_desk d empty_desk_ok _)).
  unfold d. rewrite ex_serve_cons. apply (rtc_l _ _ one_issue); [|apply rtc_once].
  - apply ex_step; [|done]. split; [done|apply not_elem_of_nil].
  - apply ex_step; [|done]. split; [vm_compute; reflexivity|apply not_elem_of_nil].
Defined.

(** A second discard of a workspace opens the issue that another workspace has taken
    since: the next claim puts two workspaces to work on it. *)
Lemma stale_discard_breaks_claims :
  ws_id <$> holders (ex_serve [(true, DqClaim "w0"); (true, DqDiscard "w1"); (true, DqClaim "w0"); (true, DqDiscard "w1");
                               (true, DqClaim "w0")] one_issue) "w0" = ["w2"; "w3"]%string.
Proof. vm_compute. reflexivity. Qed.

(** A discarded workspace can be submitted, and its changes become a version. *)
Lemma discarded_workspace_is_merged :
  let d := ex_serve [(true, DqClaim "w0"); (true, DqUpload "w1" [mkFileUpload "a" "new"] []); (true, DqDiscard "w1");
                     (true, DqSubmit "w1")] one_issue in
  sv_head (dk_repo d) = Some "v2"%string.
Proof. vm_compute. reflexivity. Qed.

Lemma one_issue_queue :
  get_work_queue_handler (fun _ l => l) String.compare (fun s => s) elements ex_values ex_graph true one_issue =
  (Ok ([mkAvailable "w0" "Fix the parser" "high" (scope_of elements ex_graph (mkIssue "w0" "Fix the parser" "" Open PrHigh [] "alice" None None [] 0 0))], []), one_issue).
Proof. vm_compute. reflexivity. Qed.

Definition ex_available : AvailableWork :=
  mkAvailable "w0" "Fix the parser" "high" (scope_of elements ex_graph (mkIssue "w0" "Fix the parser" "" Open PrHigh [] "alice" None None [] 0 0)).

Lemma work_queue_spec_witness :
  exists available blocked,
    get_work_queue_handler (fun _ l => l) String.compare (fun s => s) elements ex_values ex_graph true one_issue =
      (Ok (available, blocked), one_issue) /\
    offered elements ex_values ex_graph one_issue "w0" /\ aw_issue_id <$> available = ["w0"%string].
Proof.
  destruct (work_queue_spec (fun _ l => l) String.compare (fun s => s) elements ex_values ex_graph (fun _ l => Permutation_refl l) one_issue)
    as (av & bl & E & Hav & _); [apply NoDup_singleton|].
  pose proof one_issue_queue as E'. rewrite E in E'. injection E' as -> ->. do 2 eexists. split; [exact E|]. split; [|done].
  apply Hav. by left.
Defined.

Lemma offered_work_is_taken_witness :
  exists c d', claim_work_handler elements ex_values ex_graph true "w0" one_issue = (Ok c, d') /\ cl_issue_id c = "w0"%string /\
    claim_work_handler elements ex_values ex_graph true "w0" d' = (Err HtConflict, d').
Proof.
  destruct (offered_work_is_taken (fun _ l => l) String.compare (fun s => s) elements ex_values ex_graph (fun _ l => Permutation_refl l)
    one_issue [ex_available] [] ex_available) as (c & d' & av & bl & E & Hi & _ & _ & _ & E2);
    [apply NoDup_singleton|apply not_elem_of_nil|exact one_issue_queue|by left|done|]. by exists c, d'.
Defined.

Lemma claim_work_spec_witness :
  exists r c d', claim_work_handler elements ex_values ex_graph true "w0" one_issue = (Ok c, d') /\
    claimable elements ex_values ex_graph one_issue "w0" r /\ claimed "w0" r one_issue d'.
Proof.
  pose proof (claim_work_spec elements ex_values ex_graph true "w0" one_issue (not_elem_of_nil _)) as Hc.
  destruct (claim_work_handler elements ex_values ex_graph true "w0" one_issue) as [[c|e|] d'] eqn:E; [|vm_compute in E; discriminate E|done].
  destruct Hc as (_ & u & r & [= <-] & Hcl & C & _). by exists r, c, d'.
Defined.
