(* ===== verification/DeskFrame.v ===== *)
(** A logic of the requests about issues: a relation on desks that the elementary writes
    obey is obeyed by every request. *)
From S2P Require Import Prelude Table RustStr Graph EventLog MergeEngine MergeFs VaiDir Workspace Submit Conflict Issue WorkQueue Pagination ServerRepo ServerPull Auth AuthServer IssuePg IssueServer QueueServer DeskSystem.

(** What the elementary writes of the stores do; comments are added, and changed by the
    requests that change them only. *)
Class DeskFrame (R : Desk -> Desk -> Prop) : Prop := {
  fr_pre :: PreOrder R;
  fr_repo r d : R d (set_repo r d);
  fr_infos u f d : (forall r, ii_id (f r) = ii_id r) -> R d (set_infos (update_by ii_id u f (dk_issues d)) d);
  fr_new_info x d : R d (set_infos (dk_issues d ++ [x]) d);
  fr_new_comment c d : R d (set_desk_comments (dk_comments d ++ [c]) d);
  fr_mentions x d : R d (set_mentions x d);
  fr_links x d : R d (set_desk_links x d);
  fr_attachments x d : R d (set_attachments x d)
}.

Section framed.
Context `{AuthEnv} {unicode : Unicode}.
Variable scan : forall A, list A -> list A.
Variable collate : string -> string -> comparison.
Variable pg_lower : string -> string.
Variable ilike : string -> string -> bool.
Variable b64_decode : string -> option bytes.
Variable parse_upload : bytes -> option UploadAttachmentRequest.
Variable db : AuthDb.
Variable repo_id : Uuid.
Variable iter_order : gset string -> list string.
Variable values : Engine -> list WorkspaceScope.
Variable g : GraphSnapshot.
Variable hash : bytes -> string.
Variable unpack : bytes -> option (list TarEntry).
Variable parse_manifest : bytes -> option DeltaManifest.
Variable read_dir : gmap string VersionMeta -> list VersionMeta.
Variable parse_rust_source : string -> bytes -> outcome GraphError (list Entity * list Relationship).
Variable parse_source_file : string -> bytes -> outcome GraphError (list Entity * list Relationship).
Variable R : Desk -> Desk -> Prop.
Context `{!DeskFrame R}.

Abbreviation framed := (along (E:=HttpError) R).
Abbreviation framed_st := (along (E:=StorageError) R).

Lemma framed_read {E A} (m : M Desk E A) : (forall d, (m d).2 = d) -> along R m.
Proof using Type*. intros Hm d. rewrite Hm. reflexivity. Qed.
Lemma framed_on_repo {A} (m : M ServerRepo HttpError A) : framed (on_repo m).
Proof using Type*. intros d. rewrite on_repo_state. apply fr_repo. Qed.
Lemma framed_stored {A} (m : M Desk StorageError A) : framed_st m -> framed (stored m).
Proof using Type*. intros Hm d. rewrite stored_state. apply Hm. Qed.
Lemma framed_stored_or {A} e (m : M Desk StorageError A) : framed_st m -> framed (stored_or e m).
Proof using Type*. intros Hm d. rewrite stored_or_state. apply Hm. Qed.
Lemma framed_attempt {A} (m : M Desk StorageError A) : framed_st m -> framed (attempt m).
Proof using Type*. intros Hm d. apply Hm. Qed.
Lemma framed_now {E} : along R (desk_now (E:=E)).
Proof using Type*. intros d. apply fr_repo. Qed.
Lemma framed_draw {E} : along R (desk_draw (E:=E)).
Proof using Type*. intros d. apply fr_repo. Qed.
Lemma framed_modify {E} f : (forall d, R d (f d)) -> along (E:=E) R (modify_st f).
Proof using Type*. intros Hf d. apply Hf. Qed.
Lemma framed_get_issue id : framed_st (get_issue id).
Proof using Type*. by apply framed_read. Qed.
Lemma framed_get_attachment u f : framed_st (get_attachment u f).
Proof using Type*. by apply framed_read. Qed.
Lemma framed_delete_link a b : framed_st (delete_link a b).
Proof using Type*. intros d. apply fr_links. Qed.
Lemma framed_create_link a b r : framed_st (create_link a b r).
Proof using Type*. intros d. unfold create_link, mbind, M_bind, get_st. destruct (_ || _); [simpl; reflexivity|apply fr_links]. Qed.

(** The row of an issue and its status. *)
Lemma fr_status u st d d' : R d d' -> R d (set_status u st d').
Proof using Type*. intros Hd. etransitivity; [exact Hd|apply fr_repo]. Qed.

Create HintDb framed.
#[local] Hint Resolve framed_on_repo framed_stored framed_stored_or framed_attempt framed_now framed_draw framed_get_issue
  framed_get_attachment framed_delete_link framed_create_link : framed.
#[local] Hint Extern 1 (along _ (mret _)) => apply along_ret, _ : framed.
#[local] Hint Extern 1 (along _ (fail _)) => apply along_fail, _ : framed.
#[local] Hint Extern 1 (along _ (lift _)) => apply along_lift, _ : framed.
#[local] Hint Extern 1 (along _ get_st) => apply along_get, _ : framed.
#[local] Hint Extern 1 (along _ (modify_st _)) => apply framed_modify; intros; first
  [apply fr_links|apply fr_mentions|apply fr_attachments|apply fr_new_comment|apply fr_status, fr_new_info|apply fr_status, fr_infos; done] : framed.

Ltac framed := repeat (first
  [solve [eauto 4 with framed]|progress intros|apply along_bind; [apply _|..]|apply along_for_each; [apply _|]
  |match goal with |- along _ (attempt _) => apply framed_attempt | |- along _ (stored _) => apply framed_stored end|case_match]).

Lemma framed_update_issue u up : framed_st (update_issue u up).
Proof using Type*. unfold update_issue. framed. Qed.
Lemma framed_close_issue u res : framed_st (close_issue u res).
Proof using Type*.
  unfold close_issue. framed. intros d. unfold modify_st. simpl. destruct (info_of u d); [by apply fr_status, fr_infos|reflexivity].
Qed.
Lemma framed_create_issue ni : framed_st (create_issue ni).
Proof using Type*. unfold create_issue. framed. Qed.
Lemma framed_create_comment u c : framed_st (create_comment u c).
Proof using Type*. unfold create_comment. framed. Qed.
Lemma framed_insert_mentions u l : framed_st (insert_mentions u l).
Proof using Type*. induction l as [|m l IH]; simpl; framed. Qed.
Lemma framed_store_mentions u l : framed (store_mentions u l).
Proof using Type*.
  intros d. unfold store_mentions. assert (Hm : framed_st (replace_mentions u l)) by (unfold replace_mentions; framed; apply framed_insert_mentions).
  specialize (Hm d). by destruct (replace_mentions u l d) as [[| |] d'].
Qed.
Lemma framed_create_attachment u a : framed_st (create_attachment u a).
Proof using Type*. unfold create_attachment. framed. Qed.
Lemma framed_delete_attachment u f : framed_st (delete_attachment u f).
Proof using Type*. intros d. apply fr_attachments. Qed.
#[local] Hint Resolve framed_update_issue framed_close_issue framed_create_issue framed_create_comment framed_store_mentions
  framed_create_attachment framed_delete_attachment : framed.

Lemma framed_check b : framed (check_access b).
Proof using Type*. apply framed_on_repo. Qed.
Lemma framed_limit n x : framed (limit_len n x).
Proof using Type*. apply framed_on_repo. Qed.
Lemma framed_event k : framed (record_event k).
Proof using Type*. unfold record_event. framed. Qed.
Lemma framed_announce k : framed (announce k).
Proof using Type*. apply framed_on_repo. Qed.
Lemma framed_parse_id id : framed (parse_id id).
Proof using Type*. unfold parse_id. framed. Qed.
Lemma framed_or_bad {A} (o : option A) : framed (or_bad o).
Proof using Type*. unfold or_bad. framed. Qed.
Lemma framed_opt {A B} (f : A -> M Desk HttpError B) o : (forall x, framed (f x)) -> framed (opt_parse f o).
Proof using Type*. intros Hf. unfold opt_parse. framed. Qed.
#[local] Hint Resolve framed_check framed_limit framed_event framed_announce framed_parse_id framed_or_bad framed_opt : framed.
Lemma framed_labels l : framed (validate_labels l).
Proof using Type*. unfold validate_labels. framed. Qed.
Lemma framed_filename f : framed (validate_attachment_filename f).
Proof using Type*. unfold validate_attachment_filename. framed. Qed.
Lemma framed_blockers l : framed (parse_blockers l).
Proof using Type*. induction l as [|b l IH]; simpl; framed. Qed.
Lemma framed_block_all l u : framed (block_all l u).
Proof using Type*. unfold block_all. framed. Qed.
Lemma framed_guard a b : framed (agent_guard scan collate pg_lower a b).
Proof using Type*. unfold agent_guard. framed. Qed.
Lemma framed_body b : framed (parse_attachment_body b64_decode parse_upload b).
Proof using Type*. unfold parse_attachment_body. framed. Qed.
Lemma framed_find_comment a b : framed (find_comment scan a b).
Proof using Type*. unfold find_comment. framed. Qed.
Lemma framed_parent u p : framed (parse_parent scan u p).
Proof using Type*. apply framed_opt. framed. Qed.
#[local] Hint Resolve framed_labels framed_filename framed_blockers framed_block_all framed_guard framed_body framed_find_comment
  framed_parent : framed.

Lemma framed_drop {A} (m : M Desk HttpError A) : framed m -> framed (drop_reply m).
Proof using Type*. intros Hm d. rewrite drop_reply_state. apply Hm. Qed.

Lemma framed_update_handler ok id b : framed (update_issue_handler scan ok id b).
Proof using Type*.
  unfold update_issue_handler. apply along_bind; [apply _|framed|intros].
  do 3 (apply along_bind; [apply _|destruct (_ b); simpl; framed|intros]). framed.
Qed.

(** Requests other than the change and the deletion of a comment. *)
Definition writes_comment (rq : DeskRequest) : bool :=
  match rq with DqEditComment _ _ _ _ | DqDeleteComment _ _ _ => true | _ => false end.

Lemma others_framed ok rq : writes_comment rq = false ->
  framed (handle scan collate pg_lower ilike b64_decode parse_upload db repo_id iter_order values g hash unpack parse_manifest read_dir
    parse_rust_source parse_source_file ok rq).
Proof using Type*.
  intros Hw. destruct rq; try discriminate Hw; simpl; try apply framed_drop.
  - unfold create_issue_handler. framed.
  - apply framed_update_handler.
  - unfold close_issue_handler. framed.
  - unfold create_issue_comment_handler. framed.
  - unfold create_issue_link_handler. framed.
  - unfold delete_issue_link_handler. framed.
  - unfold upload_attachment_handler. framed.
  - unfold delete_attachment_handler. framed.
  - unfold claim_work_handler, create_linked. framed.
  - unfold discard_handler, reopen_linked. framed.
  - apply framed_on_repo.
  - apply framed_on_repo.
  - apply framed_on_repo.
  - apply framed_on_repo.
Qed.

(** Every request, when comments may change as well. *)
Lemma requests_framed ok rq : (forall x d, R d (set_desk_comments x d)) ->
  framed (handle scan collate pg_lower ilike b64_decode parse_upload db repo_id iter_order values g hash unpack parse_manifest read_dir
    parse_rust_source parse_source_file ok rq).
Proof using Type*.
  intros He. destruct (writes_comment rq) eqn:Hw; [|by apply others_framed].
  assert (Hc : forall id f, framed_st (change_comment id f)).
  { intros id f. unfold change_comment. framed. intros d. apply He. }
  destruct rq; try discriminate Hw; simpl; apply framed_drop.
  - unfold update_issue_comment_handler, update_comment. framed.
  - unfold delete_issue_comment_handler, soft_delete_comment. framed.
Qed.
End framed.
