(* ===== verification/DeskProps.v ===== *)
(** What the comments and the attachments of issues are safe from: a comment changes by its
    author's requests only, an attachment is served with the bytes that were uploaded, and
    the upload that is refused for its name and still replaces them. *)
From S2P Require Import Prelude Table RustStr Graph EventLog MergeEngine MergeFs VaiDir Workspace Submit Conflict Issue WorkQueue Pagination ServerRepo ServerPull Auth AuthServer IssuePg IssueServer QueueServer DeskSystem DeskFrame.

(** ** Comments *)

(** Every comment is still there, as it was. *)
Definition said (d d' : Desk) : Prop := forall c, c ∈ dk_comments d -> c ∈ dk_comments d'.

#[export] Instance said_pre : PreOrder said.
Proof. split; [by intros d c|]. intros d1 d2 d3 H1 H2 c Hc. auto. Qed.

#[export] Instance said_frame : DeskFrame said.
Proof. split; [apply _|..]; try (intros; intros y Hy; exact Hy). intros c d x Hx. simpl. apply elem_of_app. by left. Qed.

Section comments.
Context `{AuthEnv} {unicode : Unicode}.
Variable scan : forall A, list A -> list A.
Variable collate : string -> string -> comparison.
Variable pg_lower : string -> string.
Variable ilike : string -> string -> bool.
Variable b64_decode : string -> option bytes.
Variable parse_upload : bytes -> option UploadAttachmentRequest.
Variable db : AuthDb.
Variable repo_id : Uuid.
Variable iter_order : gset string -> list string.
Variable values : Engine -> list WorkspaceScope.
Variable g : GraphSnapshot.
Variable hash : bytes -> string.
Variable unpack : bytes -> option (list TarEntry).
Variable parse_manifest : bytes -> option DeltaManifest.
Variable read_dir : gmap string VersionMeta -> list VersionMeta.
Variable parse_rust_source : string -> bytes -> outcome GraphError (list Entity * list Relationship).
Variable parse_source_file : string -> bytes -> outcome GraphError (list Entity * list Relationship).

Hypothesis scan_perm : forall A (l : list A), scan A l ≡ₚ l.

Lemma found_comment id cid d c0 d' : find_comment scan id cid d = (Ok c0, d') -> d' = d /\ c0 ∈ dk_comments d.
Proof using scan_perm.
  unfold find_comment, parse_id, mbind, M_bind. destruct (parse_uuid id) as [u|]; [|done]. destruct (parse_uuid cid) as [v|]; [|done]. simpl.
  unfold stored, get_issue. destruct (info_of u d); [|done]. simpl. destruct (List.find _ _) as [x|] eqn:E; [|done].
  intros [= -> <-]. split; [done|]. apply List.find_some in E as [E _]. apply list_elem_of_In in E. unfold list_comments in E.
  rewrite sort_by_perm in E. apply list_elem_of_filter in E as [_ E]. by rewrite scan_perm in E.
Qed.

(** A comment stays when a request finds another one. *)
Lemma comment_stays {A} (k : IssueComment -> M Desk HttpError A) ok id cid d c :
  c ∈ dk_comments d -> (forall c0, c0 ∈ dk_comments d -> c ∈ dk_comments (k c0 d).2) ->
  c ∈ dk_comments ((_ ← check_access ok; c0 ← find_comment scan id cid; k c0) d).2.
Proof using scan_perm.
  intros Hc Hk. destruct ok; [|by destruct d]. rewrite (M_bind_ok _ _ d tt d) by by destruct d.
  pose proof (framed_find_comment scan said id cid d c Hc) as Hf. unfold mbind, M_bind.
  destruct (find_comment scan id cid d) as [[c0|e|] d'] eqn:E; [|exact Hf|exact Hf]. apply found_comment in E as [-> Hin]. by apply Hk.
Qed.

Lemma change_keeps id f d c : c ∈ dk_comments d -> c_id c <> id -> c ∈ dk_comments (change_comment id f d).2.
Proof using.
  intros Hc Hi. unfold change_comment, mbind, M_bind. simpl. apply list_elem_of_fmap. exists c. by rewrite decide_False.
Qed.

(** C29. A comment changes by its own author's hand. For any request of any caller, a comment
    that is neither one the caller edits or deletes as its author, nor one that an
    administrator deletes, is in the table afterwards as it was before. *)
Theorem comments_are_their_authors ok rq d c :
  NoDup (c_id <$> dk_comments d) -> c ∈ dk_comments d ->
  match rq with
  | DqEditComment i _ _ _ => is_comment_author i c = false
  | DqDeleteComment i _ _ => is_comment_author i c = false /\ is_admin i = false
  | _ => True
  end ->
  c ∈ dk_comments (handle scan collate pg_lower ilike b64_decode parse_upload db repo_id iter_order values g hash unpack parse_manifest
    read_dir parse_rust_source parse_source_file ok rq d).2.
Proof using scan_perm.
  intros Hnd Hc Hrq. destruct (writes_comment rq) eqn:Hw; [|by apply (others_framed _ _ _ _ _ _ _ _ _ _ _ _ _ _ _ _ _ said ok rq Hw)].
  destruct rq; try discriminate Hw; simpl; rewrite drop_reply_state; apply comment_stays; try done; intros c0 Hin.
  - destruct (is_comment_author i c0) eqn:Ha; [|done]. simpl.
    assert (Hne : c_id c <> c_id c0) by (intros E; rewrite (keys_inj c_id _ _ _ Hnd Hc Hin E) in Hrq; congruence).
    pose proof (change_keeps (c_id c0) (with_body body) d c Hc Hne) as Hu. unfold mbind, M_bind. rewrite <-stored_state in Hu.
    unfold update_comment. destruct (stored _ d) as [[x|e|] d1]; simpl in *; [|exact Hu|exact Hu].
    pose proof (framed_store_mentions said (c_id c0) (mentions_in scan collate ilike db repo_id body) d1 c Hu) as Hm.
    by destruct (store_mentions _ _ d1) as [[y|e|] d2].
  - destruct Hrq as [Hrq Had]. rewrite Had. destruct (is_comment_author i c0) eqn:Ha; [|done]. simpl.
    assert (Hne : c_id c <> c_id c0) by (intros E; rewrite (keys_inj c_id _ _ _ Hnd Hc Hin E) in Hrq; congruence).
    pose proof (change_keeps (c_id c0) with_deletion d c Hc Hne) as Hu. unfold mbind, M_bind. rewrite <-stored_state in Hu.
    unfold soft_delete_comment. by destruct (stored _ d) as [[x|e|] d1].
Qed.
End comments.

(** ** What a release and a closing do *)

Section releases.
Context `{AuthEnv} {unicode : Unicode}.
Variable scan : forall A, list A -> list A.
Hypothesis scan_perm : forall A (l : list A), scan A l ≡ₚ l.

(** The issue is open again, nobody works on it, and the other issues are as before. *)
Record reopened (u : Uuid) (w : Uuid) (d d' : Desk) : Prop := {
  re_holders : holders d' u = [];
  re_status i : status_of d' i = if decide (i = u) then Open else status_of d i;
  re_info : exists t, dk_issues d' = update_by ii_id u (with_issue_update (status_update Open None) t) (dk_issues d);
  re_links : dk_links d' = dk_links d;
  re_engine : sv_engine (dk_repo d') = delete w (sv_engine (dk_repo d))
}.

Lemma reopen_runs u r d :
  info_of u d = Some r -> status_of d u = InProgress ->
  exists d', reopen_linked (Some u) d = (Ok tt, d') /\ (forall i, status_of d' i = if decide (i = u) then Open else status_of d i) /\
    (exists t, dk_issues d' = update_by ii_id u (with_issue_update (status_update Open None) t) (dk_issues d)) /\ dk_links d' = dk_links d /\
    sv_workspaces (dk_repo d') = sv_workspaces (dk_repo d) /\ sv_engine (dk_repo d') = sv_engine (dk_repo d).
Proof using.
  intros Hr Hs. unfold reopen_linked, mbind, M_bind, get_st. rewrite Hr, Hs, bool_decide_eq_true_2 by done.
  unfold attempt, update_issue, mbind, M_bind, get_issue. rewrite Hr. simpl. eexists. split; [reflexivity|].
  split; [intros i; exact (status_of_set u Open d i)|]. split; [by eexists|]. done.
Qed.

Lemma discard_runs id d w u :
  desk_ok d -> w ∈ holders d u -> parse_uuid id = Some (ws_id w) -> status_of d u = InProgress ->
  exists d', discard_handler true id d = (Ok tt, d') /\ reopened u (ws_id w) d d'.
Proof using.
  intros Hd Hw Hp Hs. pose proof Hw as (Hin & Hi & Hl)%holders_elem. destruct (do_linked _ Hd w u Hin Hi) as [r Hr].
  unfold discard_handler. rewrite (M_bind_ok _ _ d tt d) by by destruct d.
  assert (Hf : find_by ws_id (ws_id w) (sv_workspaces (dk_repo d)) = Some w) by (by apply find_by_elem; [apply do_rows|..]).
  rewrite (M_bind_ok _ _ d w d) by (unfold on_repo, find_workspace; rewrite Hp; unfold get_ws; rewrite Hf; by destruct d).
  set (d1 := set_repo (discard_row clock (ws_id w) (dk_repo d)).2 d). rewrite (M_bind_ok _ _ d tt d1) by done.
  set (d2 := (on_repo (forget_scope (ws_id w)) d1).2). rewrite (M_bind_ok _ _ d1 tt d2) by done.
  rewrite Hi. destruct (reopen_runs u r d2) as (d3 & E & Hs3 & [t Hi3] & Hl3 & Hr3); [done|done|].
  rewrite (M_bind_ok _ _ d2 tt d3 E). unfold record_event, mbind, M_bind, on_repo. simpl. eexists. split; [reflexivity|]. constructor.
  - unfold holders, rows. simpl. rewrite (proj1 Hr3). exact (released d w u Hd Hin Hi (or_introl Hl)).
  - exact Hs3.
  - exists t. exact Hi3.
  - exact Hl3.
  - simpl. by rewrite (proj2 Hr3).
Qed.

(** Discarding a list of workspaces, one after the other. *)
Lemma cascade_all l d :
  exists d', for_each (fun w => on_repo (cascade_workspace_teardown clock w "linked issue closed")) l d = (Ok tt, d') /\
    rows_kept (dk_repo d) (dk_repo d') /\ dk_issues d' = dk_issues d /\ (forall w, w ∈ rows d' -> ws_id w ∈ l -> live w = false).
Proof using.
  revert d. induction l as [|u l IH]; intros d; [by exists d; split; [|split; [apply kept_refl|split; [|by intros w _ ?%not_elem_of_nil]]]|].
  simpl. unfold mbind, M_bind at 1. unfold on_repo at 1.
  pose proof (keeping_cascade clock uuid u "linked issue closed" (dk_repo d)) as Hk.
  assert (Hl : forall w, w ∈ sv_workspaces (cascade_workspace_teardown clock u "linked issue closed" (dk_repo d)).2 -> ws_id w = u -> live w = false)
    by apply (discard_row_live u (dk_repo d)).
  assert (Ho : (cascade_workspace_teardown clock u "linked issue closed" (dk_repo d)).1 = Ok tt) by done.
  destruct (cascade_workspace_teardown clock u "linked issue closed" (dk_repo d)) as [o s1]. simpl in *. subst o.
  destruct (IH (set_repo s1 d)) as (d' & E & Hk' & Hi & Hl'). exists d'. split; [exact E|]. split; [by etransitivity|]. split; [done|].
  intros w Hw [Hwu|Hwl]%elem_of_cons; [|by apply Hl'].
  pose proof Hw as Hw'. apply list_elem_of_lookup in Hw' as [k Hk1]. destruct (Forall2_lookup_r _ _ _ _ _ (proj1 Hk') Hk1) as (x & Hx & Hid & _ & Hlx).
  apply list_elem_of_lookup_2 in Hx. apply not_true_is_false. intros Hlw. specialize (Hlx Hlw).
  rewrite (Hl x) in Hlx; [done|exact Hx|congruence].
Qed.

(** A closing settles the issue and takes the workspaces at work on it along. *)
Lemma close_runs id res d u r :
  parse_uuid id = Some u -> info_of u d = Some r ->
  exists reply d', close_issue_handler scan true id res d = (Ok reply, d') /\ holders d' u = [] /\
    (forall i, status_of d' i = if decide (i = u) then Closed else status_of d i) /\ ii_id <$> dk_issues d' = ii_id <$> dk_issues d.
Proof using scan_perm.
  intros Hp Hr. unfold close_issue_handler. rewrite (M_bind_ok _ _ d tt d) by by destruct d.
  rewrite (M_bind_ok _ _ d u d) by by unfold parse_id; rewrite Hp.
  set (t := clock (sv_ticks (dk_repo d))).
  set (r1 := with_issue_update (mkIssueUpdate None None None None None (Some res) None None) t r).
  set (d0 := set_repo (set_streams (sv_draws (dk_repo d)) (S (sv_ticks (dk_repo d))) (dk_repo d)) d).
  set (d1 := set_status u Closed (set_infos (update_by ii_id u (with_issue_update (mkIssueUpdate None None None None None (Some res) None None) t) (dk_issues d)) d0)).
  assert (Hr1 : info_of u d1 = Some r1).
  { unfold info_of, d1. simpl. rewrite find_by_update by done. unfold info_of in Hr. by rewrite decide_True, Hr. }
  rewrite (M_bind_ok _ _ d (info_to_issue d1 r1) d1).
  2:{ unfold stored, close_issue, mbind, M_bind, desk_now, modify_st, get_issue. change (info_of u (set_repo _ _)) with (info_of u d).
      rewrite Hr. simpl. change (set_status _ _ _) with d1. by rewrite Hr1. }
  unfold record_event. set (d2 := (on_repo (append_stored clock (IssueClosed u res)) d1).2).
  rewrite (M_bind_ok _ _ d1 tt d2) by done. set (d3 := (announce "IssueClosed" d2).2). rewrite (M_bind_ok _ _ d2 tt d3) by done.
  rewrite (M_bind_ok _ _ d3 d3 d3) by done. set (active := ws_id <$> _). destruct (cascade_all active d3) as (d4 & E & Hk & Hi & Hl).
  rewrite (M_bind_ok _ _ d3 tt d4 E). unfold mbind, M_bind, get_st. do 2 eexists. split; [reflexivity|]. split; [|split].
  - apply elem_of_nil_inv. intros w (Hw & Hwi & Hwl)%holders_elem.
    pose proof Hw as Hw'. apply list_elem_of_lookup in Hw' as [k Hk1].
    destruct (Forall2_lookup_r _ _ _ _ _ (proj1 Hk) Hk1) as (x & Hx & Hid & Hxi & Hlx). apply list_elem_of_lookup_2 in Hx.
    rewrite (Hl w Hw) in Hwl; [done|]. rewrite Hid. apply list_elem_of_fmap_2, list_elem_of_filter. split; [split; [congruence|by apply Hlx]|].
    unfold list_workspaces. rewrite sort_by_perm. apply list_elem_of_filter. split; [|by rewrite scan_perm]. right.
    specialize (Hlx Hwl). unfold live in Hlx. apply bool_decide_eq_true in Hlx. by destruct Hlx as [->| ->].
  - intros i. unfold status_of. rewrite (proj2 Hk). exact (status_of_set u Closed d i).
  - rewrite Hi. simpl. by apply update_by_keys.
Qed.
End releases.

(** ** Attachments *)

Section attachments.
Context `{AuthEnv}.
Variable scan : forall A, list A -> list A.
Variable b64_decode : string -> option bytes.
Variable parse_upload : bytes -> option UploadAttachmentRequest.
Hypothesis parse_uuid_plain : forall id u, parse_uuid id = Some u -> has_char "/" u = false.

Abbreviation upload := (upload_attachment_handler scan b64_decode parse_upload true).
Variable header_value : string -> bool.
Abbreviation download := (download_attachment_handler header_value true).

(** The headers of the response can be built. *)
Definition answerable (ct f : string) : bool := header_value ct && header_value (disposition f).

(** The rows say where their bytes are. *)
Definition attached_ok (d : Desk) : Prop :=
  forall a, a ∈ dk_attachments d -> s3_key a = storage_key (at_issue_id a) (at_filename a) /\ has_char "/" (at_issue_id a) = false.

Lemma storage_key_inj u f u' f' :
  has_char "/" u = false -> has_char "/" u' = false -> storage_key u f = storage_key u' f' -> u = u' /\ f = f'.
Proof using.
  intros Hu Hu' E. unfold storage_key in E. apply (inj (String.append "issues/")) in E.
  assert (Hs : forall v x, has_char "/" v = false -> split_once "/" (v +:+ "/attachments/" +:+ x) = Some (v, "attachments/" +:+ x)).
  { intros v x Hv. apply split_once_Some. by split. }
  pose proof (Hs u f Hu) as H1. rewrite E, (Hs u' f' Hu') in H1. injection H1 as -> Hf. split; [done|].
  exact (eq_sym Hf).
Qed.

(** What passes the checks of an upload. *)
Record uploadable (id : string) (b : AttachmentBody) (d : Desk) (u : Uuid) (f ct : string) (content : bytes) (who : string) : Prop := {
  ul_id : parse_uuid id = Some u;
  ul_issue : is_Some (info_of u d);
  ul_count : length (list_attachments scan u d) < MAX_ATTACHMENTS_PER_ISSUE;
  ul_body : parse_attachment_body b64_decode parse_upload b d = (Ok (f, ct, content, who), d);
  ul_name : validate_attachment_filename f d = (Ok tt, d);
  ul_size : over MAX_ATTACHMENT_BYTES content = false
}.

Definition put_bytes (u : Uuid) (f : string) (content : bytes) (d : Desk) : Desk := (on_repo (put_file (storage_key u f) content) d).2.

Lemma upload_runs id b d u f ct content who :
  uploadable id b d u f ct content who ->
  upload id b d = stored (create_attachment u (mkNewAttachment f ct (Z.of_nat (length content)) (storage_key u f) who)) (put_bytes u f content d).
Proof using.
  intros [Hi [r Hr] Hc Hb Hn Hs]. unfold upload_attachment_handler. rewrite (M_bind_ok _ _ d tt d) by by destruct d.
  rewrite (M_bind_ok _ _ d u d) by by unfold parse_id; rewrite Hi.
  rewrite (M_bind_ok _ _ d (info_to_issue d r) d) by by unfold stored, get_issue; rewrite Hr. rewrite (M_bind_ok _ _ d d d) by done.
  rewrite (proj2 (Nat.leb_gt _ _) Hc). rewrite (M_bind_ok _ _ d _ d Hb). simpl. rewrite (M_bind_ok _ _ d tt d Hn). rewrite Hs.
  by rewrite (M_bind_ok _ _ d tt (put_bytes u f content d)).
Qed.

Lemma body_pure b d : (parse_attachment_body b64_decode parse_upload b d).2 = d.
Proof using.
  unfold parse_attachment_body, or_bad. destruct b as [fields|body].
  - destruct (up_filename _); [|done]. simpl. unfold mbind, M_bind. by destruct (up_bytes _).
  - destruct (over _ body); [done|]. destruct (parse_upload body) as [q|]; [|done]. unfold mbind, M_bind. simpl.
    by destruct (b64_decode _).
Qed.

Lemma filename_pure f d : (validate_attachment_filename f d).2 = d.
Proof using. unfold validate_attachment_filename. by case_match. Qed.

#[local] Opaque MAX_ATTACHMENTS_PER_ISSUE.
Lemma upload_ok_inv id b d a d' :
  upload id b d = (Ok a, d') -> exists u f ct content who, uploadable id b d u f ct content who.
Proof using.
  unfold upload_attachment_handler. rewrite (M_bind_ok _ _ d tt d) by by destruct d. unfold mbind, M_bind, parse_id.
  destruct (parse_uuid id) as [u|] eqn:Hi; [|done]. simpl. unfold stored at 1, get_issue. destruct (info_of u d) as [r|] eqn:Hr; [|done]. simpl.
  destruct (MAX_ATTACHMENTS_PER_ISSUE <=? length (list_attachments scan u d)) eqn:Hc; [done|]. pose proof (body_pure b d) as Hb.
  destruct (parse_attachment_body _ _ b d) as [[[[[f ct] content] who]|e|] d1] eqn:Eb; simpl in Hb; [subst d1|done..].
  pose proof (filename_pure f d) as Hn. destruct (validate_attachment_filename f d) as [[[]|e|] d1] eqn:En; simpl in Hn; [subst d1|done..].
  destruct (over MAX_ATTACHMENT_BYTES content) eqn:Hs; [done|]. intros _. exists u, f, ct, content, who.
  constructor; [done|by eexists|by apply Nat.leb_gt|done..].
Qed.

Lemma get_put u f content d x : sv_files (dk_repo (put_bytes u f content d)) !! x =
  if decide (x = storage_key u f) then Some content else sv_files (dk_repo d) !! x.
Proof using. simpl. case_decide as Hx; [subst; by rewrite lookup_insert_eq|by rewrite lookup_insert_ne]. Qed.

(** A download reads the row, and then the bytes under its key. *)
Lemma download_eq id f d :
  (download id f d).1 =
  match parse_uuid id with
  | None => Err HtBadRequest
  | Some u =>
      match find_by attachment_key (u, f) (dk_attachments d) with
      | None => Err HtNotFound
      | Some m =>
          match sv_files (dk_repo d) !! s3_key m with
          | Some c => if answerable (at_content_type m) f then Ok (at_content_type m, c) else Err HtInternal
          | None => Err HtInternal
          end
      end
  end /\ (download id f d).2 = d.
Proof using.
  unfold download_attachment_handler. rewrite (M_bind_ok _ _ d tt d) by by destruct d. unfold mbind, M_bind, parse_id.
  destruct (parse_uuid id) as [u|]; [|done]. simpl. unfold stored, get_attachment. destruct (find_by _ _ _) as [m|]; [|done]. simpl.
  destruct (sv_files (dk_repo d) !! s3_key m); [|done]. unfold answerable. by destruct (_ && _).
Qed.

Lemma has_issue_true u d : is_Some (info_of u d) -> has_issue u d = true.
Proof using. intros Hu. unfold has_issue. by rewrite bool_decide_eq_true_2. Qed.

(** What is stored when the name is new. *)
Lemma upload_new id b d u f ct content who :
  uploadable id b d u f ct content who -> find_by attachment_key (u, f) (dk_attachments d) = None ->
  exists a d', upload id b d = (Ok a, d') /\ at_issue_id a = u /\ at_filename a = f /\ at_content_type a = ct /\ uploaded_by a = who /\
    size_bytes a = Z.of_nat (length content) /\ s3_key a = storage_key u f /\
    dk_attachments d' = dk_attachments d ++ [a] /\ sv_files (dk_repo d') = sv_files (dk_repo (put_bytes u f content d)).
Proof using.
  intros Hu Hf. rewrite (upload_runs _ _ _ _ _ _ _ _ Hu). unfold stored, create_attachment, mbind, M_bind. simpl.
  change (has_issue u _) with (has_issue u d). rewrite (has_issue_true u d (ul_issue _ _ _ _ _ _ _ _ Hu)). simpl. rewrite Hf. simpl. by do 2 eexists.
Qed.

Lemma upload_taken id b d u f ct content who m :
  uploadable id b d u f ct content who -> find_by attachment_key (u, f) (dk_attachments d) = Some m ->
  exists d', upload id b d = (Err HtConflict, d') /\ dk_attachments d' = dk_attachments d /\
    sv_files (dk_repo d') = sv_files (dk_repo (put_bytes u f content d)).
Proof using.
  intros Hu Hf. rewrite (upload_runs _ _ _ _ _ _ _ _ Hu). unfold stored, create_attachment, mbind, M_bind. simpl.
  change (has_issue u _) with (has_issue u d). rewrite (has_issue_true u d (ul_issue _ _ _ _ _ _ _ _ Hu)). simpl. rewrite Hf. simpl. by eexists.
Qed.

(** C30. An attachment comes back as it was uploaded: after an upload that is accepted, a
    download of the name gives the content type and the bytes that the body carried, with
    their number in the row, or an internal error when the content type or the name is no text
    for a header, which no upload is refused for; and every other download, of another name or
    another issue, answers what it did before. *)
Theorem attachment_roundtrip id b a d d' :
  attached_ok d -> upload id b d = (Ok a, d') ->
  attached_ok d' /\
  (exists content, (parse_attachment_body b64_decode parse_upload b d).1 = Ok (at_filename a, at_content_type a, content, uploaded_by a) /\
    size_bytes a = Z.of_nat (length content) /\
    download id (at_filename a) d' =
      (if answerable (at_content_type a) (at_filename a) then Ok (at_content_type a, content) else Err HtInternal, d')) /\
  forall id2 f2, (parse_uuid id2, f2) <> (parse_uuid id, at_filename a) -> (download id2 f2 d').1 = (download id2 f2 d).1.
Proof using parse_uuid_plain.
  intros Hd E. destruct (upload_ok_inv _ _ _ _ _ E) as (u & f & ct & content & who & Hu). pose proof (ul_id _ _ _ _ _ _ _ _ Hu) as Hid.
  pose proof (parse_uuid_plain _ _ Hid) as Hp. destruct (find_by attachment_key (u, f) (dk_attachments d)) as [m|] eqn:Hf.
  { destruct (upload_taken _ _ _ _ _ _ _ _ m Hu Hf) as (d1 & E1 & _). by rewrite E1 in E. }
  destruct (upload_new _ _ _ _ _ _ _ _ Hu Hf) as (a1 & d1 & E1 & Hi & Hn & Hc & Hw & Hs & Hk & Ha & Hfi).
  rewrite E1 in E. injection E as -> ->. subst f ct who. split; [|split].
  - intros x. rewrite Ha, elem_of_app, list_elem_of_singleton. intros [Hx| ->]; [by apply Hd|]. by subst u.
  - exists content. split; [by rewrite (ul_body _ _ _ _ _ _ _ _ Hu)|]. split; [done|].
    destruct (download_eq id (at_filename a) d') as [H1 H2]. rewrite (surjective_pairing (download _ _ _)), H1, H2, Hid, Ha, find_by_snoc, Hf.
    rewrite decide_True by by unfold attachment_key; rewrite Hi. by rewrite Hk, Hfi, get_put, decide_True.
  - intros id2 f2 Hne. rewrite !(proj1 (download_eq _ _ _)). destruct (parse_uuid id2) as [u2|] eqn:H2; [|done].
    rewrite Ha, find_by_snoc. destruct (find_by attachment_key (u2, f2) (dk_attachments d)) as [m|] eqn:Hm.
    + apply find_by_Some in Hm as [Hm Hmk]. rewrite Hfi, get_put, decide_False; [done|]. intros Hx. destruct (Hd m Hm) as [Hmx Hmp].
      rewrite Hmx in Hx. apply storage_key_inj in Hx as [Hx1 Hx2]; [|done|done]. apply Hne. unfold attachment_key in Hmk. congruence.
    + rewrite decide_False; [done|]. unfold attachment_key. rewrite Hi. intros [= <- <-]. by apply Hne; rewrite Hid.
Qed.

(** An upload that is refused because the name is taken has replaced the bytes all the
    same: the reply is a conflict and the row stays, with its size and its content type,
    but a download of the name, when it can be answered, gives the new bytes. *)
Theorem refused_upload_replaces id b d u f ct content who m :
  attached_ok d -> uploadable id b d u f ct content who -> find_by attachment_key (u, f) (dk_attachments d) = Some m ->
  exists d', upload id b d = (Err HtConflict, d') /\ dk_attachments d' = dk_attachments d /\
    download id f d' = (if answerable (at_content_type m) f then Ok (at_content_type m, content) else Err HtInternal, d').
Proof using parse_uuid_plain.
  intros Hd Hu Hf. destruct (upload_taken _ _ _ _ _ _ _ _ m Hu Hf) as (d1 & E1 & Ha & Hfi). exists d1. split; [done|]. split; [done|].
  destruct (download_eq id f d1) as [H1 H2]. rewrite (surjective_pairing (download _ _ _)), H1, H2, (ul_id _ _ _ _ _ _ _ _ Hu), Ha, Hf.
  apply find_by_Some in Hf as [Hm [= Hk1 Hk2]]. destruct (Hd m Hm) as [-> _]. by rewrite Hk1, Hk2, Hfi, get_put, decide_True.
Qed.
End attachments.

(** ** Witnesses *)

#[local] Existing Instances desk_env ascii_unicode.

Definition ex_file (content : string) : AttachmentBody :=
  Multipart [mkField (Some "file"%string) (Some "log.txt"%string) (Some "text/plain"%string) (bytes_of content)].
Definition ex_upload := upload_attachment_handler (fun _ l => l) wit_decode (fun _ => None) true.
(** No control characters. *)
Definition plain_text (s : string) : bool := forallb (fun a => (32 <=? Ascii.N_of_ascii a)%N && negb (Ascii.N_of_ascii a =? 127)%N) (bytes_of s).
Definition with_log : Desk := (ex_upload "w0" (ex_file "first") one_issue).2.

Lemma desk_parse_plain id u : parse_uuid id = Some u -> has_char "/" u = false.
Proof. intros Hu. pose proof Hu as Hp. apply wit_parse_uuid_ok in Hp as [Hc _]. simpl in Hu. unfold wit_parse_uuid in Hu. case_match; by simplify_eq. Qed.

Lemma attachment_roundtrip_witness :
  exists a, ex_upload "w0" (ex_file "first") one_issue = (Ok a, with_log) /\
    download_attachment_handler plain_text true "w0" (at_filename a) with_log = (Ok ("text/plain"%string, bytes_of "first"), with_log).
Proof.
  destruct (ex_upload "w0" (ex_file "first") one_issue) as [[a|e|] d'] eqn:E; [|vm_compute in E; discriminate E..].
  destruct (attachment_roundtrip (fun _ l => l) wit_decode (fun _ => None) desk_parse_plain plain_text "w0" (ex_file "first") a one_issue d')
    as (_ & (content & Hb & _ & Hd) & _); [by intros x Hx%not_elem_of_nil|exact E|].
  assert (Hd' : with_log = d') by (unfold with_log; by rewrite E). rewrite Hd'. exists a. split; [done|]. rewrite Hd.
  change (Ok (E:=HttpError) ("log.txt"%string, "text/plain"%string, bytes_of "first", "unknown"%string) =
    Ok (at_filename a, at_content_type a, content, uploaded_by a)) in Hb. injection Hb as <- <- <- _. done.
Defined.

(** An upload whose content type is a line break is accepted, and cannot be downloaded. *)
Definition ex_break : AttachmentBody :=
  Multipart [mkField (Some "file"%string) (Some "log.txt"%string) None (bytes_of "first");
             mkField (Some "content_type"%string) None None [Ascii.ascii_of_nat 10]].

Lemma accepted_not_served :
  (exists a, (ex_upload "w0" ex_break one_issue).1 = Ok a) /\
  (download_attachment_handler plain_text true "w0" "log.txt" (ex_upload "w0" ex_break one_issue).2).1 = Err HtInternal.
Proof. split; [eexists|]; vm_compute; reflexivity. Qed.

Lemma refused_upload_replaces_witness :
  exists d', ex_upload "w0" (ex_file "second") with_log = (Err HtConflict, d') /\
    dk_attachments d' = dk_attachments with_log /\
    download_attachment_handler plain_text true "w0" "log.txt" d' = (Ok ("text/plain"%string, bytes_of "second"), d').
Proof.
  eapply (refused_upload_replaces (fun _ l => l) wit_decode (fun _ => None) desk_parse_plain plain_text "w0" (ex_file "second") with_log "w0" "log.txt"
    "text/plain" (bytes_of "second") "unknown" (mkAttachment "w1" "w0" "log.txt" "text/plain" 5 (storage_key "w0" "log.txt") "unknown" 2)).
  - intros a. vm_compute dk_attachments. intros ->%list_elem_of_singleton. vm_compute. done.
  - constructor; [vm_compute; reflexivity|by eexists|vm_compute; lia|vm_compute; reflexivity..].
  - vm_compute. reflexivity.
Defined.

Definition ex_alice : AgentIdentity := mkIdentity "k1" "alice" false None None None SrcApiKey.
Definition ex_bob : AgentIdentity := mkIdentity "k2" "bob" false None None None SrcApiKey.
Definition with_comment : Desk := ex_serve [(true, DqComment ex_alice "w0" (mkCreateComment "Seen it" None None None None))] one_issue.

Lemma comments_are_their_authors_witness :
  exists c, dk_comments with_comment = [c] /\
    c ∈ dk_comments (ex_handle true (DqEditComment ex_bob "w0" (c_id c) "Not so") with_comment).2 /\
    (c ∉ dk_comments (ex_handle true (DqEditComment ex_alice "w0" (c_id c) "Not so") with_comment).2).
Proof.
  eexists. split; [vm_compute; reflexivity|]. set (c := mkComment _ _ _ _ _ _ _ _ _ _). split.
  - apply comments_are_their_authors; [by intros X l|apply NoDup_singleton|by left|reflexivity].
  - vm_compute dk_comments. intros Hc%list_elem_of_singleton. discriminate Hc.
Defined.
