(* ===== verification/Agent.v ===== *)
(** The agent commands ([src/src/agent/mod.rs]): configuration and state of one iteration
    on disk, the HTTP client with its retries, and the commands claim, download, submit,
    reset, close, status, prompt, setup and verify. The network with the server behind it,
    the formats TOML and JSON, the archive library and the shell are parameters. *)
From stdpp Require Import pretty.
From S2P Require Import Prelude Table RustStr Graph EventLog MergeEngine MergeFs VaiDir Workspace Version Diff Submit Issue ServerRepo.
From S2P Require Import ScopeHistory ScopeInference FileWorkspace.

(** ** Data *)

Inductive AgentError : Type :=
  | AgIo
  | AgTomlSer
  | AgTomlDe
  | AgJson
  | MissingConfig (field env_var : string)
  | ServerUnreachable (url : string)
  | NoState
  | AgPartialDownload (downloaded expected : nat)
  | AgWorkspaceEmpty
  | AgOther.

Record ChecksConfig : Type := mkChecks { ck_setup : list string; ck_commands : list string; ck_teardown : list string }.
Record IgnoreConfig : Type := mkIgnore { ig_patterns : list string }.
Record AgentConfig : Type := mkAgentConfig {
  ac_server : string; ac_repo : string; prompt_template : option string; default_agent : option string;
  ac_checks : option ChecksConfig; ac_ignore : option IgnoreConfig
}.

Inductive AgentPhase : Type := Claimed | Downloaded | Verified | Submitted.
Record AgentState : Type := mkAgentState {
  as_issue_id : string; as_issue_title : string; as_workspace_id : string; phase : AgentPhase; claimed_at : DateTime
}.

Record ProjectAgentConfig : Type := mkProjectAgent {
  pa_prompt_template : option string; pa_setup : list string; pa_commands : list string; pa_teardown : list string;
  pa_ignore : option IgnoreConfig
}.
Record VaiProjectConfig : Type := mkProject { pr_agent : option ProjectAgentConfig }.

Definition into_checks_config (a : ProjectAgentConfig) : ChecksConfig := mkChecks (pa_setup a) (pa_commands a) (pa_teardown a).

(** The variables of the environment. *)
Record AgentEnv : Type := mkEnv {
  VAI_SERVER_URL : option string; VAI_REPO : option string; VAI_API_KEY : option string; VAI_WORKER_ID : option string
}.

Definition non_empty (o : option string) : option string :=
  match o with Some s => if String.eqb s "" then None else Some s | None => None end.
Definition or_else {A} (a b : option A) : option A := match a with Some _ => a | None => b end.

Definition resolve_api_key (e : AgentEnv) : option string := non_empty (VAI_API_KEY e).

(** ** Paths *)

Definition vai_path (dir : string) : string := path_join dir ".vai".
Definition config_path (dir : string) : string := path_join (vai_path dir) "agent.toml".
Definition project_config_path (dir : string) : string := path_join dir "vai.toml".
Definition state_path (dir : string) : string := path_join (vai_path dir) "agent-state.json".
Definition manifest_path (dir : string) : string := path_join (vai_path dir) "download-manifest.json".
Definition prompt_template_path (c : AgentConfig) (dir : string) : string :=
  match prompt_template c with Some p => path_join dir p | None => path_join (vai_path dir) "prompt.md" end.

(** ** Values of JSON *)

#[local] Unset Elimination Schemes.
Inductive Json : Type :=
  | JNull
  | JBool (b : bool)
  | JNum (n : Z)
  | JStr (s : string)
  | JArr (l : list Json)
  | JObj (fields : list (string * Json)).
#[local] Set Elimination Schemes.

(** [v[key]]: [Null] where there is none. *)
Definition field (key : string) (v : Json) : Json :=
  match v with
  | JObj fields => match find_by fst key fields with Some (_, x) => x | None => JNull end
  | _ => JNull
  end.
Definition as_str (v : Json) : option string := match v with JStr s => Some s | _ => None end.
Definition as_array (v : Json) : option (list Json) := match v with JArr l => Some l | _ => None end.

(** ** The network *)

Inductive HttpMethod : Type := GET | POST | DELETE.
Record HttpCall : Type := mkCall { hc_method : HttpMethod; hc_url : string; hc_auth : option string; hc_body : option Json }.
Record HttpReply : Type := mkReply { hr_status : Z; hr_body : bytes; hr_expected_files : option nat }.

(** What [send] can fail with; [is_transient_reqwest_error] looks at the library's error. *)
Inductive SendError : Type := Transient | Permanent.

Definition is_success (r : HttpReply) : bool := (200 <=? hr_status r)%Z && (hr_status r <? 300)%Z.

Definition RETRY_MAX_ATTEMPTS : nat := 4.
Definition RETRY_BASE_DELAY_MS : Z := 1000.
Definition retry_delay (attempt : nat) : Z := Z.min (RETRY_BASE_DELAY_MS * 2 ^ Z.of_nat (attempt - 1)) 8000.
Definition DOWNLOAD_MAX_ATTEMPTS : nat := 3.
Definition DOWNLOAD_BASE_DELAY_MS : Z := 500.
Definition download_delay (attempt : nat) : Z := Z.min (DOWNLOAD_BASE_DELAY_MS * 2 ^ Z.of_nat attempt) 5000.

(** What a process leaves. *)
Record Output : Type := mkOutput { out_code : option Z; out_stdout : string; out_stderr : string }.
Definition succeeded (o : Output) : bool := bool_decide (out_code o = Some 0%Z).
Definition exit_code_of (o : Output) : Z := default (-1)%Z (out_code o).

(** ** The world of an agent *)

(** The disk of the machine and the server are those of the façade; the pauses, and the
    commands that ran with their directories, are kept. *)
Record AgentWorld (R : Type) : Type := mkWorld {
  aw_fw : FwWorld Disk R; aw_env : AgentEnv; aw_ticks : nat; aw_slept : list Z; aw_ran : list (string * string)
}.
Arguments mkWorld {R}.
Arguments aw_fw {R}.
Arguments aw_env {R}.
Arguments aw_ticks {R}.
Arguments aw_slept {R}.
Arguments aw_ran {R}.

Section agent.
Context {R : Type} {unicode : Unicode}.
Variable clock : nat -> DateTime.
Variable uuid : nat -> Uuid.
Variable parse_uuid : string -> option Uuid.
(** The network: the server and everything before it. *)
Variable send : HttpCall -> R -> outcome SendError HttpReply * R.
(** The port for submissions, for a server, a repository and a key. *)
Variable http_remote : string -> string -> string -> RemoteRepo Disk R.
(** The formats. *)
Variable parse_config : string -> option AgentConfig.
Variable print_config : AgentConfig -> string.
Variable parse_project : string -> option VaiProjectConfig.
Variable parse_state : string -> option AgentState.
Variable print_state : AgentState -> string.
Variable print_strings : list string -> string.
Variable parse_json : bytes -> option Json.
(** The entries of a compressed archive, [None] where one cannot be read. *)
Variable unpack : bytes -> option (list (option TarEntry)).
(** A shell command in a directory after those that ran before; [None] when it cannot be started. *)
Variable sh : list (string * string) -> string -> string -> option Output.
(** The order in which a directory tree is walked. *)
Variable walk : gset string -> list string.

Abbreviation World := (AgentWorld R).
Abbreviation Ag := (M World AgentError).

(** ** Disk, clock and environment *)

Definition disk_of (w : World) : Disk := ww_fs (aw_fw w).
Definition set_fw (x : FwWorld Disk R) (w : World) : World := mkWorld x (aw_env w) (aw_ticks w) (aw_slept w) (aw_ran w).
Definition set_disk (d : Disk) (w : World) : World :=
  set_fw (mkFwWorld (ww_vai (aw_fw w)) d (ww_remote (aw_fw w)) (ww_issues (aw_fw w)) (ww_history (aw_fw w))) w.
Definition set_remote (r : R) (w : World) : World :=
  set_fw (mkFwWorld (ww_vai (aw_fw w)) (ww_fs (aw_fw w)) r (ww_issues (aw_fw w)) (ww_history (aw_fw w))) w.
Definition now : Ag DateTime := fun w =>
  (Ok (clock (aw_ticks w)), mkWorld (aw_fw w) (aw_env w) (S (aw_ticks w)) (aw_slept w) (aw_ran w)).
Definition sleep (ms : Z) : Ag unit :=
  modify_st (fun w => mkWorld (aw_fw w) (aw_env w) (aw_ticks w) (aw_slept w ++ [ms]) (aw_ran w)).
Definition asks {A} (f : World -> A) : Ag A := fun w => (Ok (f w), w).
Definition or_fail {A} (e : AgentError) (o : option A) : Ag A := match o with Some a => mret a | None => fail e end.

(** [fs::read_to_string] *)
Definition read_text (d : Disk) (path : string) : option string := d !! path ≫= from_utf8.
(** [create_dir_all] of the parent, [fs::write]. *)
Definition write_text (path text : string) : Ag unit := fun w =>
  if is_dir (disk_of w) path || below_file (disk_of w) path then (Err AgIo, w)
  else (Ok tt, set_disk (<[path := bytes_of text]> (disk_of w)) w).

(** ** Configuration *)

Definition load_config (dir : string) (d : Disk) : outcome AgentError AgentConfig :=
  match read_text d (config_path dir) with
  | None => Err AgOther
  | Some text => match parse_config text with Some c => Ok c | None => Err AgTomlDe end
  end.

Definition load_project_config (dir : string) (d : Disk) : outcome AgentError (option VaiProjectConfig) :=
  if negb (path_exists d (project_config_path dir)) then Ok None
  else
    match read_text d (project_config_path dir) with
    | None => Err AgOther
    | Some text => match parse_project text with Some p => Ok (Some p) | None => Err AgTomlDe end
    end.

Definition patterns_of (i : option IgnoreConfig) : list string := default [] (ig_patterns <$> i).

Definition resolve_checks_config (dir : string) (d : Disk) :
    outcome AgentError (option ChecksConfig * list string * bool) :=
  match load_project_config dir d with
  | Err e => Err e
  | Panic => Panic
  | Ok (Some proj) => Ok (into_checks_config <$> pr_agent proj, patterns_of (pr_agent proj ≫= pa_ignore), false)
  | Ok None =>
      let legacy := match load_config dir d with Ok c => Some c | _ => None end in
      let checks := legacy ≫= ac_checks in
      Ok (checks, patterns_of (legacy ≫= ac_ignore), bool_decide (is_Some checks))
  end.

Definition resolve_config (dir : string) (server_override repo_override : option string) (w : World) :
    outcome AgentError AgentConfig :=
  let file := match load_config dir (disk_of w) with Ok c => Some c | _ => None end in
  match or_else server_override (or_else (non_empty (VAI_SERVER_URL (aw_env w))) (ac_server <$> file)) with
  | None => Err (MissingConfig "server" "VAI_SERVER_URL")
  | Some server =>
      match or_else repo_override (or_else (non_empty (VAI_REPO (aw_env w))) (ac_repo <$> file)) with
      | None => Err (MissingConfig "repo" "VAI_REPO")
      | Some repo =>
          Ok (mkAgentConfig server repo (file ≫= prompt_template) (file ≫= default_agent) (file ≫= ac_checks) (file ≫= ac_ignore))
      end
  end.

(** ** State *)

Definition load_state (dir : string) (d : Disk) : outcome AgentError AgentState :=
  if negb (path_exists d (state_path dir)) then Err NoState
  else
    match read_text d (state_path dir) with
    | None => Err AgOther
    | Some text => match parse_state text with Some s => Ok s | None => Err AgJson end
    end.

Definition as_other {A} (m : Ag A) : Ag A := fun w => let '(o, w') := m w in (map_err (fun _ => AgOther) o, w').

Definition save_state (dir : string) (s : AgentState) : Ag unit := as_other (write_text (state_path dir) (print_state s)).

Definition clear_state (dir : string) : Ag unit := fun w =>
  let d := disk_of w in
  if path_exists d (state_path dir) then
    match d !! state_path dir with
    | Some _ => (Ok tt, set_disk (delete (state_path dir) d) w)
    | None => (Err AgOther, w)
    end
  else (Ok tt, w).

Definition reading {A} (f : Disk -> outcome AgentError A) : Ag A := fun w => (f (disk_of w), w).

(** ** HTTP *)

Definition send_once (c : HttpCall) : M World SendError HttpReply := fun w =>
  let '(o, r) := send c (ww_remote (aw_fw w)) in (o, set_remote r w).

(** [for attempt in 1u32..] *)
Fixpoint send_go (fuel attempt : nat) (c : HttpCall) : M World SendError HttpReply := fun w =>
  match fuel with
  | 0 => (Panic, w)
  | S fuel =>
      match send_once c w with
      | (Ok reply, w') => (Ok reply, w')
      | (Err Transient, w') =>
          if attempt <? RETRY_MAX_ATTEMPTS then
            send_go fuel (S attempt) c
              (mkWorld (aw_fw w') (aw_env w') (aw_ticks w') (aw_slept w' ++ [retry_delay attempt]) (aw_ran w'))
          else (Err Transient, w')
      | (Err Permanent, w') => (Err Permanent, w')
      | (Panic, w') => (Panic, w')
      end
  end.
Definition send_with_retry (c : HttpCall) : M World SendError HttpReply := send_go (S RETRY_MAX_ATTEMPTS) 1 c.

Definition unreachable {A} (url : string) (m : M World SendError A) : Ag A := fun w =>
  let '(o, w') := m w in (map_err (fun _ => ServerUnreachable url) o, w').

Definition url_of (server path : string) : string :=
  trim_end_matches "/" server +:+ "/" +:+ trim_start_slashes path.
Definition bearer (key : option string) : option string := (fun k => "Bearer " +:+ k) <$> key.

Definition json_reply (r : HttpReply) : Ag Json :=
  if is_success r then or_fail AgOther (parse_json (hr_body r)) else fail AgOther.

Definition agent_get (server path : string) (key : option string) : Ag Json :=
  r ← unreachable (url_of server path) (send_with_retry (mkCall GET (url_of server path) (bearer key) None));
  json_reply r.

Definition agent_post (server path : string) (key : option string) (body : Json) : Ag Json :=
  r ← unreachable (url_of server path) (send_once (mkCall POST (url_of server path) (bearer key) (Some body)));
  json_reply r.

(** ** claim *)

Inductive ClaimOutcome : Type :=
  | ClClaimed (s : AgentState)
  | AlreadyClaimed (s : AgentState)
  | NoWork.

Definition repo_path (repo path : string) : string := "api/repos/" +:+ repo +:+ path.

Definition claim_body (issue_id : string) (worker : option string) : Json :=
  JObj (("issue_id"%string, JStr issue_id) ::
        match non_empty worker with Some w => [("worker_id"%string, JStr w)] | None => [] end).

(** [if !vai_dir.exists() { create_dir_all(&vai_dir)? }] *)
Definition ensure_vai (dir : string) : Ag unit := fun w =>
  (if negb (path_exists (disk_of w) (vai_path dir)) && below_file (disk_of w) (vai_path dir) then Err AgIo else Ok tt, w).

(** The claim of one entry of the queue. *)
Definition claim_entry (dir : string) (config : AgentConfig) (key : option string) (top : Json) : Ag ClaimOutcome :=
  issue_id ← or_fail AgOther (as_str (field "issue_id" top));
  let issue_title := default "(untitled)"%string (as_str (field "title" top)) in
  worker ← asks (fun w => VAI_WORKER_ID (aw_env w));
  result ← agent_post (ac_server config) (repo_path (ac_repo config) "/work-queue/claim") key (claim_body issue_id worker);
  workspace_id ← or_fail AgOther (as_str (field "workspace_id" result));
  _ ← ensure_vai dir;
  t ← now;
  let state := mkAgentState issue_id issue_title workspace_id Claimed t in
  _ ← save_state dir state;
  mret (ClClaimed state).

Definition configured {A} (dir : string) (so ro : option string) (k : AgentConfig -> option string -> Ag A) : Ag A :=
  config ← (fun w => (resolve_config dir so ro w, w));
  key ← asks (fun w => resolve_api_key (aw_env w));
  k config key.

Definition claim_next (dir : string) (server_override repo_override : option string) : Ag ClaimOutcome :=
  configured dir server_override repo_override (fun config key =>
    queue ← agent_get (ac_server config) (repo_path (ac_repo config) "/work-queue") key;
    match default [] (as_array (field "available_work" queue)) with
    | [] => mret NoWork
    | top :: _ => claim_entry dir config key top
    end).

Definition claim (dir : string) (server_override repo_override : option string) : Ag ClaimOutcome := fun w =>
  match load_state dir (disk_of w) with
  | Ok existing => (Ok (AlreadyClaimed existing), w)
  | _ => claim_next dir server_override repo_override w
  end.

(** ** init *)

Record InitResult : Type := mkInit { in_config_path : string; in_server : string; in_repo : string; server_reachable : bool }.

Definition validate_server_reachable (server : string) : Ag bool := fun w =>
  let key := resolve_api_key (aw_env w) in
  match send_once (mkCall GET (trim_end_matches "/" server +:+ "/api/status") (bearer key) None) w with
  | (Ok r, w') => (Ok (is_success r), w')
  | (Err _, w') => (Ok false, w')
  | (Panic, w') => (Panic, w')
  end.

Definition init (dir : string) (server repo template : option string) : Ag InitResult :=
  config ← (fun w => (resolve_config dir server repo w, w));
  _ ← write_text (config_path dir) (print_config (mkAgentConfig (ac_server config) (ac_repo config) template None None None));
  reachable ← validate_server_reachable (ac_server config);
  mret (mkInit (config_path dir) (ac_server config) (ac_repo config) reachable).

(** ** issue *)

Record AgComment : Type := mkAgComment { gc_author : string; gc_body : string; gc_created_at : string }.
Record AgLink : Type := mkAgLink { gl_other_issue_id : string; gl_relationship : string; gl_title : string; gl_status : string }.
Record AgIssue : Type := mkAgIssue {
  gi_id : string; gi_title : string; gi_description : string; gi_status : string; gi_priority : string; gi_labels : list string;
  gi_creator : string; gi_resolution : option string; gi_acceptance_criteria : list string; gi_created_at : string;
  gi_updated_at : string; gi_links : list AgLink; gi_comments : list AgComment
}.

(** The derived readers: a field that is absent or of another type is an error, an option
    may be absent or null, and fields that are not declared are skipped. *)
Definition read_string (key : string) (v : Json) : option string := as_str (field key v).
Definition read_list {A} (read : Json -> option A) (key : string) (v : Json) : option (list A) :=
  as_array (field key v) ≫= mapM read.
Definition read_optional (key : string) (v : Json) : option (option string) :=
  match field key v with JNull => Some None | JStr s => Some (Some s) | _ => None end.
Definition read_comment (v : Json) : option AgComment :=
  a ← read_string "author" v; b ← read_string "body" v; t ← read_string "created_at" v; Some (mkAgComment a b t).
Definition read_link (v : Json) : option AgLink :=
  i ← read_string "other_issue_id" v; r ← read_string "relationship" v; t ← read_string "title" v; st ← read_string "status" v;
  Some (mkAgLink i r t st).
Definition read_issue (v : Json) : option AgIssue :=
  i ← read_string "id" v; t ← read_string "title" v; d ← read_string "description" v; st ← read_string "status" v;
  p ← read_string "priority" v; l ← read_list as_str "labels" v; c ← read_string "creator" v; r ← read_optional "resolution" v;
  ac ← read_list as_str "acceptance_criteria" v; ct ← read_string "created_at" v; u ← read_string "updated_at" v;
  ls ← read_list read_link "links" v; cs ← read_list read_comment "comments" v;
  Some (mkAgIssue i t d st p l c r ac ct u ls cs).

Definition fetch_issue (dir : string) : Ag AgIssue :=
  config ← reading (load_config dir);
  state ← reading (load_state dir);
  key ← asks (fun w => resolve_api_key (aw_env w));
  v ← agent_get (ac_server config) (repo_path (ac_repo config) ("/issues/" +:+ as_issue_id state)) key;
  or_fail AgOther (read_issue v).

(** The text of the reply, whatever it is. *)
Definition fetch_issue_raw (dir : string) : Ag string :=
  config ← reading (load_config dir);
  state ← reading (load_state dir);
  key ← asks (fun w => resolve_api_key (aw_env w));
  let url := trim_end_matches "/" (ac_server config) +:+ "/" +:+ repo_path (ac_repo config) ("/issues/" +:+ as_issue_id state) in
  r ← unreachable url (send_with_retry (mkCall GET url (bearer key) None));
  if is_success r then mret (from_utf8_lossy (hr_body r)) else fail AgOther.

(** ** download *)

Record DownloadResult : Type := mkDownload { dr_file_count : nat; target_dir : string; dr_version : option string }.

Definition fetch_files_tarball (server repo : string) (key : option string) : Ag (bytes * option nat) :=
  let url := trim_end_matches "/" server +:+ "/" +:+ repo_path repo "/files/download" in
  r ← unreachable url (send_with_retry (mkCall GET url (bearer key) None));
  if is_success r then mret (hr_body r, hr_expected_files r) else fail AgOther.

(** Whether a path of an archive leaves the directory, and the path without empty and
    dot components. *)
Definition unsafe_path (p : string) : bool := starts_with "/" p || bool_decide (".."%string ∈ split_on "/" p).
Definition clean_path (p : string) : string :=
  join "/" (filter (fun c => c <> EmptyString /\ c <> "."%string) (split_on "/" p)).

(** [entry.unpack(&dest)] and the directories above it. *)
Definition unpack_file (target rel : string) (content : bytes) : Ag unit := fun w =>
  let path := path_join target rel in
  if String.eqb rel "" then (Err AgOther, w)
  else if below_file (disk_of w) path then (Err AgIo, w)
  else if is_dir (disk_of w) path then (Err AgOther, w)
  else (Ok tt, set_disk (<[path := content]> (disk_of w)) w).
Definition make_dir (target rel : string) : Ag unit := fun w =>
  let path := path_join target rel in
  if bool_decide (is_Some (disk_of w !! path)) || below_file (disk_of w) path then (Err AgIo, w) else (Ok tt, w).

Fixpoint extract_entries_to (entries : list (option TarEntry)) (target : string) : Ag nat :=
  match entries with
  | [] => mret 0
  | None :: _ => fail AgOther
  | Some e :: entries' =>
      match te_type e with
      | Regular =>
          if unsafe_path (te_path e) then fail AgOther
          else
            _ ← unpack_file target (clean_path (te_path e)) (te_content e);
            n ← extract_entries_to entries' target;
            mret (S n)
      | Directory =>
          if unsafe_path (te_path e) then fail AgOther
          else
            _ ← make_dir target (clean_path (te_path e));
            extract_entries_to entries' target
      | _ => extract_entries_to entries' target
      end
  end.

Definition extract_tarball_to_dir (gz : bytes) (target : string) : Ag nat :=
  entries ← or_fail AgOther (unpack gz); extract_entries_to entries target.

(** The files below a directory, as texts relative to it. *)
Definition collect_files (d : Disk) (root : string) : list string := omap (strip_prefix (root +:+ "/")) (walk (dom d)).
Definition build_file_manifest (d : Disk) (root : string) : list string := sort_strings (collect_files d root).

Definition below (root path : string) : bool := starts_with (root +:+ "/") path.
Definition remove_dir_all (root : string) : Ag unit := fun w =>
  let d := disk_of w in
  match d !! root with
  | Some _ => (Err AgIo, w)
  | None => (Ok tt, set_disk (filter (fun f => below root f.1 = false) d) w)
  end.
(** [if exists { remove_dir_all? }; create_dir_all?] *)
Definition fresh_dir (root : string) : Ag unit := fun w =>
  if path_exists (disk_of w) root then remove_dir_all root w
  else if below_file (disk_of w) root then (Err AgIo, w) else (Ok tt, w).

Definition advance (dir target : string) (state : AgentState) (count : nat) : Ag DownloadResult :=
  manifest ← asks (fun w => build_file_manifest (disk_of w) target);
  _ ← as_other (write_text (manifest_path dir) (print_strings manifest));
  _ ← save_state dir (mkAgentState (as_issue_id state) (as_issue_title state) (as_workspace_id state) Downloaded (claimed_at state));
  mret (mkDownload count target None).

(** [for attempt in 1..=DOWNLOAD_MAX_ATTEMPTS] *)
Fixpoint download_go (fuel attempt : nat) (dir target : string) (config : AgentConfig) (state : AgentState) (key : option string) :
    Ag DownloadResult :=
  match fuel with
  | 0 => fail AgOther
  | S fuel =>
      _ ← fresh_dir target;
      '(gz, expected_count) ← fetch_files_tarball (ac_server config) (ac_repo config) key;
      file_count ← extract_tarball_to_dir gz target;
      match expected_count with
      | Some expected =>
          if negb (file_count =? expected) then
            if attempt <? DOWNLOAD_MAX_ATTEMPTS then
              _ ← sleep (download_delay attempt);
              download_go fuel (S attempt) dir target config state key
            else fun w => (Err (AgPartialDownload file_count expected), (remove_dir_all target w).2)
          else advance dir target state file_count
      | None => advance dir target state file_count
      end
  end.

Definition download (dir target : string) : Ag DownloadResult :=
  config ← reading (load_config dir);
  state ← reading (load_state dir);
  key ← asks (fun w => resolve_api_key (aw_env w));
  download_go DOWNLOAD_MAX_ATTEMPTS 1 dir target config state key.

(** ** submit, close, reset, status *)

Record AgSubmitResult : Type := mkAgSubmit {
  sb_added : nat; sb_modified : nat; sb_deleted : nat; sb_version_id : option string; sb_issue_title : string
}.

Variable read_dir : gmap string VersionMeta -> list VersionMeta.
Variable parse_rust_source : string -> bytes -> outcome GraphError (list Entity * list Relationship).
Variable parse_source_file : string -> bytes -> outcome GraphError (list Entity * list Relationship).
Variable sha256_hex : bytes -> string.
Variable iter_order : gset string -> list string.
Variable source_from_json : string -> option AgentSource.
Variable criteria_from_json : string -> option (list string).
Variable strings_to_json : list string -> string.

Definition in_workspace {A} (f : FwError -> AgentError) (m : M (FwWorld Disk R) FwError A) : Ag A := fun w =>
  let '(o, x) := m (aw_fw w) in (map_err f o, set_fw x w).

Definition submit_error (e : FwError) : AgentError :=
  match e with FwWorkspaceEmpty | FwEmpty => AgWorkspaceEmpty | _ => AgOther end.

(** [FileWorkspace::open] with the intent of an agent, and [submit_forcing_deletions]: the
    files are those of [work_dir], the server is reached with the key. *)
Definition open_agent_work (dir work_dir : string) (ws : Uuid) (issue : option Uuid) (state : AgentState) (remote : RemoteRepo Disk R) :
    Ag FileWorkspace :=
  vai_exists ← asks (fun w => is_dir (disk_of w) (vai_path dir));
  in_workspace (fun _ => AgOther)
    (FileWorkspace.open (RR := remote) clock uuid parse_uuid vai_exists BackendRemote
       (IntentAgentWork ws issue (as_issue_title state) work_dir)).

Definition submit_snapshot (dir work_dir : string) (ws : Uuid) (fw : FileWorkspace) (remote : RemoteRepo Disk R) : Ag Applied :=
  '(applied, _) ← in_workspace submit_error
    (FileWorkspace.submit_forcing_deletions (H := DiskMergeFs (vai_path dir) ws work_dir walk) (RR := remote) clock uuid read_dir
       parse_rust_source parse_source_file sha256_hex iter_order source_from_json criteria_from_json strings_to_json fw);
  mret applied.

Definition close_body : Json := JObj [("resolution"%string, JStr "resolved")].
Definition close_path (repo issue : string) : string := repo_path repo ("/issues/" +:+ issue +:+ "/close").

Definition submit (dir work_dir : string) : Ag AgSubmitResult :=
  config ← reading (load_config dir);
  state ← reading (load_state dir);
  key ← asks (fun w => resolve_api_key (aw_env w));
  ws ← or_fail AgOther (parse_uuid (as_workspace_id state));
  let remote := http_remote (trim_end_matches "/" (ac_server config)) (ac_repo config) (default ""%string key) in
  fw ← open_agent_work dir work_dir ws (parse_uuid (as_issue_id state)) state remote;
  applied ← submit_snapshot dir work_dir ws fw remote;
  _ ← agent_post (ac_server config) (close_path (ac_repo config) (as_issue_id state)) key close_body;
  _ ← clear_state dir;
  let n f := default 0 (f <$> ap_snapshot applied) in
  mret (mkAgSubmit (n si_added) (n si_modified) (n si_deleted) (Some (ap_version applied)) (as_issue_title state)).

Record StatusResult : Type := mkStatus {
  st_issue_id : string; st_issue_title : string; st_workspace_id : string; st_phase : AgentPhase; st_claimed_at : DateTime;
  elapsed_seconds : Z
}.
Definition status (dir : string) : Ag StatusResult :=
  state ← reading (load_state dir);
  t ← now;
  mret (mkStatus (as_issue_id state) (as_issue_title state) (as_workspace_id state) (phase state) (claimed_at state)
          (Z.max (Z.quot (t - claimed_at state) 1000000000) 0)).

Record ResetResult : Type := mkReset { rs_issue_id : string; rs_issue_title : string; rs_workspace_id : string }.
Definition reset (dir : string) : Ag ResetResult :=
  state ← reading (load_state dir);
  config ← reading (load_config dir);
  key ← asks (fun w => resolve_api_key (aw_env w));
  let url := trim_end_matches "/" (ac_server config) +:+ "/" +:+ repo_path (ac_repo config) ("/workspaces/" +:+ as_workspace_id state) in
  r ← unreachable url (send_once (mkCall DELETE url (bearer key) None));
  if is_success r then
    _ ← clear_state dir;
    mret (mkReset (as_issue_id state) (as_issue_title state) (as_workspace_id state))
  else fail AgOther.

Definition close_issue_as_resolved (dir : string) : Ag (string * string) :=
  config ← reading (load_config dir);
  state ← reading (load_state dir);
  key ← asks (fun w => resolve_api_key (aw_env w));
  _ ← agent_post (ac_server config) (close_path (ac_repo config) (as_issue_id state)) key close_body;
  _ ← clear_state dir;
  mret (as_issue_id state, as_issue_title state).

(** ** prompt *)

Record PromptResult : Type := mkPrompt { pp_prompt : string; template_path : option string; deprecation_hint : option string }.

Definition hint_superseded : string :=
  "hint: .vai/prompt.md is superseded by vai.toml [agent].prompt_template — consider removing .vai/prompt.md".
Definition hint_move : string := "hint: move prompt template to vai.toml [agent].prompt_template so cloud workers use it too".
Definition default_prompt : string :=
  join (String LF EmptyString)
    ["You are an AI agent working on a software development issue."; ""; "Here are the details of the issue you need to work on:";
     ""; "{{issue}}"; "";
     "Please implement the required changes. When you are done, run `vai agent verify` to check your work, then `vai agent submit` to submit your changes."]%string.

Definition project_template (dir : string) (d : Disk) : outcome AgentError (option string) :=
  match load_project_config dir d with
  | Ok (Some proj) => Ok (pr_agent proj ≫= pa_prompt_template)
  | Ok None => Ok None
  | Err e => Err e
  | Panic => Panic
  end.

Definition legacy_path (dir : string) : string := path_join (vai_path dir) "prompt.md".
Definition agent_prompt_path (dir name : string) : string :=
  path_join (path_join (path_join (vai_path dir) "agents") name) "prompt.md".

Definition configured_base_path (dir : string) (d : Disk) (config : AgentConfig) : string * option string * option string :=
  let legacy :=
    let p := prompt_template_path config dir in
    (p, prompt_template config,
     match prompt_template config with None => if path_exists d p then Some hint_move else None | Some _ => None end) in
  match default_agent config with
  | Some name =>
      let p := agent_prompt_path dir name in
      if path_exists d p then (p, Some p, None) else legacy
  | None => legacy
  end.

Definition resolve_prompt_base_path (dir : string) (template_override : option string) (d : Disk) :
    outcome AgentError (string * option string * option string) :=
  match template_override with
  | Some t => Ok (path_join dir t, Some t, None)
  | None =>
      match project_template dir d with
      | Err e => Err e
      | Panic => Panic
      | Ok (Some rel) =>
          if negb (path_exists d (path_join dir rel)) then Err AgOther
          else Ok (path_join dir rel, Some rel, if path_exists d (legacy_path dir) then Some hint_superseded else None)
      | Ok None =>
          match load_config dir d with
          | Ok config => Ok (configured_base_path dir d config)
          | Err e => Err e
          | Panic => Panic
          end
      end
  end.

Definition trim_end (s : string) : string := string_of (trim_end_bytes (bytes_of s)).
Definition blank_line : string := String LF (String LF EmptyString).
Definition assemble_prompt (base : string) (overlay : option string) (issue_json : string) : string :=
  match overlay with
  | Some ov => trim_end base +:+ blank_line +:+ trim_end ov +:+ blank_line +:+ issue_json +:+ String LF EmptyString
  | None => trim_end base +:+ blank_line +:+ issue_json +:+ String LF EmptyString
  end.

(** [s.replace(pat, by)]: the occurrences from left to right. *)
Fixpoint replace_go (fuel : nat) (pat by_ s : string) : string :=
  match fuel with
  | 0 => s
  | S fuel =>
      match strip_prefix pat s with
      | Some rest => by_ +:+ replace_go fuel pat by_ rest
      | None => match s with EmptyString => EmptyString | String a s' => String a (replace_go fuel pat by_ s') end
      end
  end.
Definition replace (pat by_ s : string) : string := replace_go (S (String.length s)) pat by_ s.
Definition ISSUE_TOKEN : string := "{{issue}}".

Definition render_prompt (base : string) (overlay : option string) (issue_json : string) : string :=
  if str_contains ISSUE_TOKEN base then
    let rendered := replace ISSUE_TOKEN issue_json base in
    match overlay with
    | Some ov => trim_end rendered +:+ blank_line +:+ trim_end ov +:+ String LF EmptyString
    | None => rendered
    end
  else assemble_prompt (trim_end base) overlay issue_json.

(** [if path.exists() { Some(read_to_string(path)?) }] *)
Definition read_if_there (path : string) : Ag (option string) := fun w =>
  (if path_exists (disk_of w) path then match read_text (disk_of w) path with Some t => Ok (Some t) | None => Err AgIo end
   else Ok None, w).

Definition prompt (dir : string) (template_override : option string) : Ag PromptResult :=
  '(base_path, base_path_str, hint) ← reading (resolve_prompt_base_path dir template_override);
  issue_json ← fetch_issue_raw dir;
  content ← read_if_there base_path;
  overlay ← read_if_there (path_join (vai_path dir) "custom-prompt.md");
  mret (mkPrompt (render_prompt (default default_prompt content) overlay issue_json)
          (match content with Some _ => Some (default base_path base_path_str) | None => None end) hint).

(** ** setup and verify *)

Record CheckResult : Type := mkCheck { cr_command : string; cr_stdout : string; cr_stderr : string; cr_exit_code : Z; cr_passed : bool }.

(** A command that cannot be started leaves no trace. *)
Definition run_in (work_dir cmd : string) : Ag Output := fun w =>
  match sh (aw_ran w) work_dir cmd with
  | Some o => (Ok o, mkWorld (aw_fw w) (aw_env w) (aw_ticks w) (aw_slept w) (aw_ran w ++ [(work_dir, cmd)]))
  | None => (Err AgOther, w)
  end.

Definition check_of (cmd : string) (o : Output) : CheckResult :=
  mkCheck cmd (out_stdout o) (out_stderr o) (exit_code_of o) (succeeded o).

Fixpoint run_all (work_dir : string) (cmds : list string) : Ag (list CheckResult) :=
  match cmds with
  | [] => mret []
  | cmd :: cmds' =>
      o ← run_in work_dir cmd;
      rest ← run_all work_dir cmds';
      mret (check_of cmd o :: rest)
  end.

Record SetupResult : Type := mkSetup { su_commands : list CheckResult; su_all_passed : bool; no_setup_configured : bool }.

Definition setup (work_dir : string) : Ag SetupResult :=
  proj ← reading (load_project_config work_dir);
  match default [] (pa_setup <$> (proj ≫= pr_agent)) with
  | [] => mret (mkSetup [] true true)
  | cmds =>
      results ← run_all work_dir cmds;
      mret (mkSetup results (forallb cr_passed results) false)
  end.

Record VerifyResult : Type := mkVerify { vr_checks : list CheckResult; vr_all_passed : bool; no_checks_configured : bool }.

Definition is_background (cmd : string) : bool := ends_with "&" (trim_end cmd).

Definition setup_failure (cmd : string) (o : Output) : CheckResult :=
  if is_background cmd then
    mkCheck ("[setup] " +:+ cmd) "" ("background setup command exited with code " +:+ pretty (exit_code_of o)) (exit_code_of o) false
  else mkCheck ("[setup] " +:+ cmd) (out_stdout o) (out_stderr o) (exit_code_of o) false.

(** The setup commands up to the first that fails. *)
Fixpoint run_setup (work_dir : string) (cmds : list string) : Ag (option CheckResult) :=
  match cmds with
  | [] => mret None
  | cmd :: cmds' =>
      o ← run_in work_dir cmd;
      if succeeded o then run_setup work_dir cmds' else mret (Some (setup_failure cmd o))
  end.

(** The teardown: whatever becomes of the commands is ignored. *)
Fixpoint run_teardown (work_dir : string) (cmds : list string) : Ag unit :=
  match cmds with
  | [] => mret tt
  | cmd :: cmds' => fun w => run_teardown work_dir cmds' (run_in work_dir cmd w).2
  end.

Definition verify (dir work_dir : string) : Ag VerifyResult :=
  '(checks, _, _) ← reading (resolve_checks_config dir);
  match default [] (ck_commands <$> checks) with
  | [] => mret (mkVerify [] true true)
  | commands =>
      failed ← run_setup work_dir (default [] (ck_setup <$> checks));
      results ← match failed with Some e => mret [e] | None => run_all work_dir commands end;
      _ ← run_teardown work_dir (default [] (ck_teardown <$> checks));
      mret (mkVerify results (forallb cr_passed results) false)
  end.
End agent.
