(* ===== verification/AgentProps.v ===== *)
(** What the agent commands guarantee: the retries of the client, the claim that survives a
    crash, the download that is complete or refused, and the order of the quality checks. *)
From S2P Require Import Prelude Table RustStr Graph EventLog MergeEngine MergeFs VaiDir Workspace Version Diff Submit Issue ServerRepo.
From S2P Require Import ScopeHistory ScopeInference FileWorkspace Agent.

Section client.
Context {R : Type}.
Variable send : HttpCall -> R -> outcome SendError HttpReply * R.

Abbreviation World := (AgentWorld R).
Abbreviation send_retrying := (send_with_retry send).

Definition slept (l : list Z) (w : World) : World := mkWorld (aw_fw w) (aw_env w) (aw_ticks w) (aw_slept w ++ l) (aw_ran w).

(** The network answers the same call [n] times: all answers but the last are transient
    failures. *)
Inductive tries (c : HttpCall) : nat -> R -> outcome SendError HttpReply -> R -> Prop :=
  | TryLast r o r' : send c r = (o, r') -> tries c 1 r o r'
  | TryAgain n r r1 o r' : send c r = (Err Transient, r1) -> tries c n r1 o r' -> tries c (S n) r o r'.

Lemma set_remote_slept l (w : World) r : set_remote r (slept l w) = slept l (set_remote r w).
Proof using. done. Qed.

Lemma send_go_spec fuel attempt c w :
  1 <= attempt -> attempt <= RETRY_MAX_ATTEMPTS -> RETRY_MAX_ATTEMPTS < fuel + attempt ->
  exists n o r', tries c n (ww_remote (aw_fw w)) o r' /\ attempt + n <= S RETRY_MAX_ATTEMPTS /\
    (o = Err Transient -> attempt + n = S RETRY_MAX_ATTEMPTS) /\
    send_go send fuel attempt c w = (o, set_remote r' (slept (retry_delay <$> seq attempt (n - 1)) w)).
Proof using.
  revert attempt w. induction fuel as [|fuel IH]; intros attempt w H1 H4 Hf; [lia|]. cbn [send_go]. unfold send_once.
  destruct (send c (ww_remote (aw_fw w))) as [o r] eqn:E.
  assert (Hid : forall x, set_remote r x = set_remote r (slept (retry_delay <$> seq attempt (1 - 1)) x)).
  { intros x. unfold slept. simpl. rewrite app_nil_r. by destruct x. }
  destruct o as [reply|[]|].
  - exists 1, (Ok reply), r. split; [by apply TryLast|]. split; [lia|]. split; [done|]. by rewrite <-Hid.
  - destruct (Nat.ltb_spec attempt RETRY_MAX_ATTEMPTS) as [Hl|Hl].
    + destruct (IH (S attempt) (slept [retry_delay attempt] (set_remote r w))) as (n & o & r' & Ht & Hn & He & Es); [lia..|].
      exists (S n), o, r'. split; [by eapply TryAgain|]. split; [lia|]. split; [intros Ho; specialize (He Ho); lia|].
      unfold slept at 1 in Es. simpl in Es |- *. rewrite Es. f_equal. unfold slept. simpl.
      rewrite Nat.sub_0_r. destruct n as [|n]; [inversion Ht|]. simpl. by rewrite Nat.sub_0_r, <-app_assoc.
    + exists 1, (Err Transient), r. split; [by apply TryLast|]. split; [lia|]. split; [lia|]. by rewrite <-Hid.
  - exists 1, (Err Permanent), r. split; [by apply TryLast|]. split; [lia|]. split; [done|]. by rewrite <-Hid.
  - exists 1, Panic, r. split; [by apply TryLast|]. split; [lia|]. split; [done|]. by rewrite <-Hid.
Qed.

(** An idempotent request is sent at most four times: again after a transient failure
    only, and until there is an answer, a failure of another kind, or the fourth attempt
    has failed; the pauses in between are 1, 2 and 4 seconds, as many as there are
    repetitions, and the loop always ends. *)
Theorem send_with_retry_spec c w :
  exists n o r', tries c n (ww_remote (aw_fw w)) o r' /\ 1 <= n <= 4 /\ (o = Err Transient -> n = 4) /\
    send_with_retry send c w = (o, set_remote r' (slept (take (n - 1) [1000; 2000; 4000]%Z) w)).
Proof using.
  destruct (send_go_spec (S RETRY_MAX_ATTEMPTS) 1 c w) as (n & o & r' & Ht & Hn & He & Es); [unfold RETRY_MAX_ATTEMPTS; lia..|].
  unfold RETRY_MAX_ATTEMPTS in *. assert (H1 : 1 <= n) by (inversion Ht; lia).
  exists n, o, r'. split; [done|]. split; [lia|]. split; [intros Ho; specialize (He Ho); lia|].
  unfold send_with_retry, RETRY_MAX_ATTEMPTS. rewrite Es. do 3 f_equal. do 5 (destruct n as [|n]; [try lia; reflexivity|]). lia.
Qed.
End client.

(** ** Claims *)

(** The disk and the environment stay. *)
Definition same_disk {R} (w w' : AgentWorld R) : Prop := disk_of w' = disk_of w /\ aw_env w' = aw_env w.

#[export] Instance same_disk_pre {R} : PreOrder (@same_disk R).
Proof. split; [done|]. intros w1 w2 w3 [H1 H1'] [H2 H2']. split; congruence. Qed.

Section claims.
Context {R : Type} {unicode : Unicode}.
Variable clock : nat -> DateTime.
Variable send : HttpCall -> R -> outcome SendError HttpReply * R.
Variable parse_config : string -> option AgentConfig.
Variable parse_state : string -> option AgentState.
Variable print_state : AgentState -> string.
Variable parse_json : bytes -> option Json.

Abbreviation World := (AgentWorld R).
Abbreviation Ag := (M World AgentError).
Abbreviation dry := (along (E:=AgentError) (@same_disk R)).

(** A state file is read back as it was written. *)
Hypothesis state_back : forall s, from_utf8 (bytes_of (print_state s)) = Some (print_state s) /\ parse_state (print_state s) = Some s.

Lemma dry_asks {A} (f : World -> A) : dry (asks f).
Proof using. done. Qed.
Lemma dry_reading {A} (f : Disk -> outcome AgentError A) : dry (reading f).
Proof using. done. Qed.
Lemma dry_or_fail {A} e (o : option A) : dry (or_fail e o).
Proof using. by destruct o. Qed.
Lemma dry_now : dry (now clock).
Proof using. done. Qed.
Lemma dry_once c w : same_disk w (send_once send c w).2.
Proof using. unfold send_once. by destruct (send c _). Qed.
Lemma dry_retry c w : same_disk w (send_with_retry send c w).2.
Proof using.
  destruct (send_go_spec send (S RETRY_MAX_ATTEMPTS) 1 c w) as (n & o & r' & _ & _ & _ & Es); [unfold RETRY_MAX_ATTEMPTS; lia..|].
  unfold send_with_retry. by rewrite Es.
Qed.
Lemma dry_unreachable {A} url (m : M World SendError A) : (forall w, same_disk w (m w).2) -> dry (unreachable url m).
Proof using. intros Hm w. specialize (Hm w). unfold unreachable. by destruct (m w). Qed.
Lemma dry_json r : dry (json_reply parse_json r).
Proof using. unfold json_reply. case_match; [apply dry_or_fail|apply along_fail, _]. Qed.
Lemma dry_get s p k : dry (agent_get send parse_json s p k).
Proof using. apply along_bind; [apply _|apply dry_unreachable, dry_retry|intros; apply dry_json]. Qed.
Lemma dry_post s p k b : dry (agent_post send parse_json s p k b).
Proof using. apply along_bind; [apply _|apply dry_unreachable, dry_once|intros; apply dry_json]. Qed.

(** What a successful request was. *)
Lemma post_ok s p k b w v w' :
  agent_post send parse_json s p k b w = (Ok v, w') ->
  exists reply, send (mkCall POST (url_of s p) (bearer k) (Some b)) (ww_remote (aw_fw w)) = (Ok reply, ww_remote (aw_fw w')) /\
    is_success reply = true /\ parse_json (hr_body reply) = Some v /\ w' = set_remote (ww_remote (aw_fw w')) w.
Proof using.
  unfold agent_post, mbind, M_bind, unreachable, send_once. destruct (send _ _) as [[reply|e|] r] eqn:E; [|done..]. simpl.
  unfold json_reply. destruct (is_success reply) eqn:Hs; [|done]. unfold or_fail. destruct (parse_json (hr_body reply)) as [x|] eqn:Hj; [|done].
  intros [= -> <-]. exists reply. simpl. done.
Qed.

Lemma get_ok s p k w v w' :
  agent_get send parse_json s p k w = (Ok v, w') ->
  exists n reply, tries send (mkCall GET (url_of s p) (bearer k) None) n (ww_remote (aw_fw w)) (Ok reply) (ww_remote (aw_fw w')) /\
    is_success reply = true /\ parse_json (hr_body reply) = Some v.
Proof using.
  unfold agent_get, mbind, M_bind, unreachable. destruct (send_go_spec send (S RETRY_MAX_ATTEMPTS) 1
    (mkCall GET (url_of s p) (bearer k) None) w) as (n & o & r' & Ht & _ & _ & Es); [unfold RETRY_MAX_ATTEMPTS; lia..|].
  unfold send_with_retry. rewrite Es. destruct o as [reply|e|]; [|done..]. simpl.
  unfold json_reply. destruct (is_success reply) eqn:Hs; [|done]. unfold or_fail. destruct (parse_json (hr_body reply)) as [x|] eqn:Hj; [|done].
  intros [= -> <-]. exists n, reply. done.
Qed.

Abbreviation load_state_in := (load_state parse_state).
Abbreviation claim_in := (claim clock send parse_config parse_state print_state parse_json).

Lemma load_saved dir s d : load_state_in dir (<[state_path dir := bytes_of (print_state s)]> d) = Ok s.
Proof using state_back.
  unfold load_state, path_exists. rewrite lookup_insert_eq. simpl. unfold read_text. rewrite lookup_insert_eq. simpl.
  destruct (state_back s) as [-> ->]. done.
Qed.

Lemma save_state_ok dir s (w w' : World) :
  save_state print_state dir s w = (Ok tt, w') -> w' = set_disk (<[state_path dir := bytes_of (print_state s)]> (disk_of w)) w.
Proof using. unfold save_state, as_other, write_text. destruct (is_dir _ _ || below_file _ _); [done|]. by intros [= <-]. Qed.

Lemma save_state_fails dir s (w : World) e w' : save_state print_state dir s w = (Err e, w') -> w' = w.
Proof using. unfold save_state, as_other, write_text. destruct (is_dir _ _ || below_file _ _); [by intros [= _ <-]|done]. Qed.

(** The two requests of a claim: the work queue, and the claim of its first entry. *)
Definition claimed_top (w w' : World) (s : AgentState) : Prop :=
  exists server repo key n r1 reply queue top rest reply2 answer,
    tries send (mkCall GET (url_of server (repo_path repo "/work-queue")) (bearer key) None) n (ww_remote (aw_fw w)) (Ok reply) r1 /\
    parse_json (hr_body reply) = Some queue /\ as_array (field "available_work" queue) = Some (top :: rest) /\
    as_str (field "issue_id" top) = Some (as_issue_id s) /\
    send (mkCall POST (url_of server (repo_path repo "/work-queue/claim")) (bearer key)
            (Some (claim_body (as_issue_id s) (VAI_WORKER_ID (aw_env w))))) r1 = (Ok reply2, ww_remote (aw_fw w')) /\
    is_success reply2 = true /\ parse_json (hr_body reply2) = Some answer /\
    as_str (field "workspace_id" answer) = Some (as_workspace_id s).

Abbreviation claim_next_in := (claim_next clock send parse_config print_state parse_json).

(** A claim of an entry writes the state at the end, or nothing. *)
Lemma claim_entry_spec dir config key top w :
  match claim_entry clock send print_state parse_json dir config key top w with
  | (Ok (ClClaimed s), w') =>
      as_str (field "issue_id" top) = Some (as_issue_id s) /\ phase s = Claimed /\
      disk_of w' = <[state_path dir := bytes_of (print_state s)]> (disk_of w) /\
      exists reply answer,
        send (mkCall POST (url_of (ac_server config) (repo_path (ac_repo config) "/work-queue/claim")) (bearer key)
               (Some (claim_body (as_issue_id s) (VAI_WORKER_ID (aw_env w))))) (ww_remote (aw_fw w)) = (Ok reply, ww_remote (aw_fw w')) /\
        is_success reply = true /\ parse_json (hr_body reply) = Some answer /\ as_str (field "workspace_id" answer) = Some (as_workspace_id s)
  | (Ok _, _) => False
  | (_, w') => disk_of w' = disk_of w
  end.
Proof using.
  unfold claim_entry, mbind, M_bind, or_fail, asks. destruct (as_str (field "issue_id" top)) as [i|] eqn:Ei; [|done]. simpl.
  set (call := agent_post _ _ _ _ _ _). pose proof (dry_post (ac_server config) (repo_path (ac_repo config) "/work-queue/claim") key
    (claim_body i (VAI_WORKER_ID (aw_env w))) w) as Hd. fold call in Hd.
  destruct (call w) as [[answer|e|] w1] eqn:Ep; simpl in Hd; [|exact (proj1 Hd)..]. subst call.
  destruct (as_str (field "workspace_id" answer)) as [ws|] eqn:Ew; [|exact (proj1 Hd)]. simpl.
  unfold ensure_vai. destruct (negb _ && below_file _ _); [exact (proj1 Hd)|]. simpl.
  set (s := mkAgentState _ _ _ _ _). set (w2 := mkWorld _ _ _ _ _). destruct (save_state print_state dir s w2) as [[[]|e|] w3] eqn:Es.
  - apply save_state_ok in Es as ->. apply post_ok in Ep as (reply & Hs & Hok & Hj & _). split; [done|]. split; [done|].
    split; [by rewrite <-(proj1 Hd)|]. by exists reply, answer.
  - apply save_state_fails in Es as ->. exact (proj1 Hd).
  - unfold save_state, as_other, write_text in Es. by destruct (is_dir _ _ || below_file _ _).
Qed.

Lemma claim_next_spec dir so ro w :
  match claim_next_in dir so ro w with
  | (Ok (ClClaimed s), w') =>
      claimed_top w w' s /\ phase s = Claimed /\ disk_of w' = <[state_path dir := bytes_of (print_state s)]> (disk_of w)
  | (Ok (AlreadyClaimed _), _) => False
  | (_, w') => disk_of w' = disk_of w
  end.
Proof using.
  unfold claim_next, configured, mbind at 1 2, M_bind at 1 2. destruct (resolve_config parse_config dir so ro w) as [config|e|]; [|done..].
  unfold asks. set (key := resolve_api_key (aw_env w)). unfold mbind, M_bind.
  pose proof (dry_get (ac_server config) (repo_path (ac_repo config) "/work-queue") key w) as Hg.
  destruct (agent_get _ _ _ _ key w) as [[queue|e|] w1] eqn:Eg; simpl in Hg; [|exact (proj1 Hg)..].
  destruct (as_array (field "available_work" queue)) as [[|top rest]|] eqn:Ea; simpl; [exact (proj1 Hg)| |exact (proj1 Hg)].
  pose proof (claim_entry_spec dir config key top w1) as Hc.
  destruct (claim_entry _ _ _ _ dir config key top w1) as [[[s|s|]|e|] w2]; simpl in Hc;
    [|done|done|by rewrite Hc; exact (proj1 Hg)..].
  destruct Hc as (Hi & Hp & Hd & reply2 & answer & Hs & Hok & Hj & Hw). apply get_ok in Eg as (n & reply & Ht & _ & Hq).
  rewrite (proj2 Hg) in Hs. split; [|split; [done|by rewrite Hd, (proj1 Hg)]].
  by exists (ac_server config), (ac_repo config), key, n, (ww_remote (aw_fw w1)), reply, queue, top, rest, reply2, answer.
Qed.

(** A claim survives a crash. A claim that succeeds took the first entry of the queue
    with one request, and left a state file from which every later claim resumes without
    a request and without a change, whatever flags it is given; a claim that finds a
    readable state file is such a resumption; any other outcome leaves the disk as it was. *)
Theorem claim_resumes dir so ro w :
  match claim_in dir so ro w with
  | (Ok (ClClaimed s), w') =>
      claimed_top w w' s /\ phase s = Claimed /\ disk_of w' = <[state_path dir := bytes_of (print_state s)]> (disk_of w) /\
      load_state_in dir (disk_of w') = Ok s /\ (forall so' ro', claim_in dir so' ro' w' = (Ok (AlreadyClaimed s), w'))
  | (Ok (AlreadyClaimed s), w') => w' = w /\ load_state_in dir (disk_of w) = Ok s
  | (_, w') => disk_of w' = disk_of w
  end.
Proof using state_back.
  pose proof (claim_next_spec dir so ro w) as Hc. unfold claim at 1. destruct (load_state_in dir (disk_of w)) as [s0|e0|] eqn:E0; [done|..].
  all: destruct (claim_next_in dir so ro w) as [[[s|s|]|e|] w'] eqn:E; [|done..]; destruct Hc as (Ht & Hp & Hd);
    assert (Hl : load_state_in dir (disk_of w') = Ok s) by (rewrite Hd; apply load_saved);
    split_and!; [done..|]; intros so' ro'; unfold claim; by rewrite Hl.
Qed.
End claims.

(** ** Downloads *)

(** Files that [X] does not name stay, and so does the environment. *)
Definition kept {R} (X : string -> Prop) (w w' : AgentWorld R) : Prop :=
  (forall p, ~ X p -> disk_of w' !! p = disk_of w !! p) /\ aw_env w' = aw_env w.

#[export] Instance kept_pre {R} X : PreOrder (@kept R X).
Proof. split; [done|]. intros w1 w2 w3 [H1 H1'] [H2 H2']. split; [|congruence]. intros p Hp. by rewrite H2, H1. Qed.

Lemma same_disk_kept {R} X (w w' : AgentWorld R) : same_disk w w' -> kept X w w'.
Proof. intros [Hd He]. split; [by intros p _; rewrite Hd|done]. Qed.
Lemma kept_weaken {R} (X Y : string -> Prop) (w w' : AgentWorld R) : (forall p, X p -> Y p) -> kept X w w' -> kept Y w w'.
Proof. intros HXY [Hd He]. split; [|done]. intros p Hp. apply Hd. auto. Qed.

Definition is_regular (e : TarEntry) : bool := match te_type e with Regular => true | _ => false end.
(** The files of an archive: a later entry for a path replaces an earlier one. *)
Definition archive_view (es : list TarEntry) : gmap string bytes :=
  foldl (fun m e => if is_regular e then <[clean_path (te_path e) := te_content e]> m else m) ∅ es.
Definition regular_count (es : list TarEntry) : nat := length (filter (fun e => is_regular e = true) es).

(** The files of a directory are those of a map. *)
Definition dir_holds (root : string) (m : gmap string bytes) (d : Disk) : Prop := forall rel, d !! (root +:+ "/" +:+ rel) = m !! rel.

Lemma split_on_no_sep c s x : x ∈ split_on c s -> has_char c x = false.
Proof.
  unfold split_on. revert x. induction s as [|a s IH]; intros x; simpl; [by intros ->%list_elem_of_singleton|].
  destruct (Ascii.eqb_spec a c) as [->|Hac].
  - intros [->|Hx]%elem_of_cons; [done|by apply IH].
  - destruct (split_by _ s) as [|p ps]; intros [->|Hx]%elem_of_cons; simpl; rewrite ?bool_decide_eq_false_2 by done.
    + done.
    + by apply not_elem_of_nil in Hx.
    + apply IH. by left.
    + apply IH. by right.
Qed.

Lemma slash_head a s : starts_with "/" (String a s) = bool_decide (a = "/"%char).
Proof.
  unfold starts_with. cbn [String.prefix]. destruct (ascii_dec "/" a) as [<-|Ha]; [by destruct s|].
  symmetry. apply bool_decide_eq_false. congruence.
Qed.

Lemma NoDup_omap_strip p l : NoDup l -> NoDup (omap (strip_prefix p) l).
Proof.
  induction 1 as [|x l Hx _ IH]; simpl; [constructor|]. destruct (strip_prefix p x) as [r|] eqn:E; [|done]. constructor; [|done].
  intros (y & Hy & Hs)%list_elem_of_omap. apply strip_prefix_Some in E as ->, Hs as ->. done.
Qed.

Lemma state_manifest dir : state_path dir <> manifest_path dir.
Proof.
  unfold state_path, manifest_path. generalize (vai_path dir). intros v. unfold path_join. cbn -[ends_with].
  destruct (ends_with "/" v || String.eqb v "")%bool; intros E; apply string_app_inj_l in E; discriminate E.
Qed.

Section downloads.
Context {R : Type} {unicode : Unicode}.
Variable send : HttpCall -> R -> outcome SendError HttpReply * R.
Variable parse_config : string -> option AgentConfig.
Variable parse_state : string -> option AgentState.
Variable print_state : AgentState -> string.
Variable print_strings : list string -> string.
Variable unpack : bytes -> option (list (option TarEntry)).
Variable walk : gset string -> list string.
Variables dir target : string.

Hypothesis state_back : forall s, from_utf8 (bytes_of (print_state s)) = Some (print_state s) /\ parse_state (print_state s) = Some s.
Hypothesis walk_perm : forall X, walk X ≡ₚ elements X.
(** The target is the text of a path that does not end in a separator, and the metadata
    directory is not in it. *)
Hypothesis target_plain : ends_with "/" target = false /\ target <> EmptyString.
Hypothesis apart : below target (state_path dir) = false /\ below target (manifest_path dir) = false.

Abbreviation World := (AgentWorld R).

Lemma join_target rel : starts_with "/" rel = false -> path_join target rel = target +:+ "/" +:+ rel.
Proof using target_plain.
  intros Hr. unfold path_join. rewrite Hr, (proj1 target_plain).
  destruct (String.eqb target "") eqn:E; [|done]. apply String.eqb_eq in E. by destruct (proj2 target_plain).
Qed.

Lemma below_join rel : below target (target +:+ "/" +:+ rel) = true.
Proof using. apply starts_with_spec. exists rel. by rewrite string_app_assoc. Qed.

Lemma join_no_slash l : Forall (fun c => c <> EmptyString /\ starts_with "/" c = false) l -> starts_with "/" (join "/" l) = false.
Proof using.
  destruct l as [|x l]; [done|]. intros [[Hx Hs] _]%Forall_cons. destruct x as [|a x]; [done|].
  rewrite slash_head in Hs. destruct l; unfold join; cbn [String.concat]; [by rewrite slash_head|]. by rewrite string_app_cons, slash_head.
Qed.

Lemma clean_no_slash p : starts_with "/" (clean_path p) = false.
Proof using.
  apply join_no_slash, Forall_forall. intros c [[Hc _] Hin]%list_elem_of_filter. split; [done|].
  apply split_on_no_sep in Hin. destruct c as [|a c]; [done|]. simpl has_char in Hin. apply orb_false_iff in Hin as [Hin _].
  by rewrite slash_head.
Qed.

(** One entry of the archive, written below the target. *)
Definition put_entry (d : Disk) (e : TarEntry) : Disk :=
  if is_regular e then <[target +:+ "/" +:+ clean_path (te_path e) := te_content e]> d else d.

Lemma extract_spec entries (w : World) :
  kept (fun p => below target p = true) w (extract_entries_to entries target w).2 /\
  forall n w', extract_entries_to entries target w = (Ok n, w') ->
    ww_remote (aw_fw w') = ww_remote (aw_fw w) /\
    exists es, entries = Some <$> es /\ n = regular_count es /\ disk_of w' = foldl put_entry (disk_of w) es.
Proof using target_plain.
  revert w; induction entries as [|[e|] entries IH]; intros w; simpl.
  - split; [done|]. intros n w' [= <- <-]. split; [done|]. by exists [].
  - assert (Hskip : is_regular e = false -> forall n w', extract_entries_to entries target w = (Ok n, w') ->
      ww_remote (aw_fw w') = ww_remote (aw_fw w) /\
      exists es, Some e :: entries = Some <$> es /\ n = regular_count es /\ disk_of w' = foldl put_entry (disk_of w) es).
    { intros He n w' E. destruct (proj2 (IH w) n w' E) as (Hr & es & -> & -> & Hd). split; [done|]. exists (e :: es).
      unfold regular_count, put_entry. rewrite filter_cons. simpl. rewrite He. simpl. done. }
    assert (Hreg : is_regular e = match te_type e with Regular => true | _ => false end) by done.
    destruct (te_type e) eqn:Et; try (split; [apply IH|apply Hskip; by rewrite Hreg]).
    + destruct (unsafe_path (te_path e)); [by split|]. unfold mbind, M_bind, unpack_file.
      destruct (String.eqb (clean_path (te_path e)) ""); [by split|]. rewrite join_target by apply clean_no_slash.
      destruct (below_file _ _); [by split|]. destruct (is_dir _ _); [by split|].
      set (w1 := set_disk _ w). destruct (IH w1) as [Hk Hn].
      assert (Hk1 : kept (fun p => below target p = true) w w1).
      { split; [|done]. intros p Hp. change (disk_of w1) with (<[target +:+ "/" +:+ clean_path (te_path e) := te_content e]> (disk_of w)). rewrite lookup_insert_ne; [done|]. intros <-. by apply Hp, below_join. }
      destruct (extract_entries_to entries target w1) as [[m|x|] w2] eqn:E; simpl in *; (split; [by transitivity w1|]); [|done..].
      intros n w' [= <- <-]. destruct (Hn m w2 eq_refl) as (Hr & es & -> & -> & Hd). split; [done|]. exists (e :: es).
      unfold regular_count, put_entry. rewrite filter_cons. simpl. rewrite Hreg. simpl. done.
    + destruct (unsafe_path (te_path e)); [by split|]. unfold mbind, M_bind, make_dir.
      destruct (_ || _); [by split|]. split; [apply IH|apply Hskip; by rewrite Hreg].
  - by split.
Qed.

Lemma holds_put m d e : dir_holds target m d -> dir_holds target (if is_regular e then <[clean_path (te_path e) := te_content e]> m else m) (put_entry d e).
Proof using.
  intros Hm rel. unfold put_entry. destruct (is_regular e); [|apply Hm]. destruct (decide (rel = clean_path (te_path e))) as [->|Hne].
  - by rewrite !lookup_insert_eq.
  - rewrite !lookup_insert_ne; [apply Hm|done|]. intros E. apply Hne. do 2 apply string_app_inj_l in E. done.
Qed.

Lemma holds_archive es d : dir_holds target ∅ d -> dir_holds target (archive_view es) (foldl put_entry d es).
Proof using.
  unfold archive_view. generalize (∅ : gmap string bytes). revert d. induction es as [|e es IH]; intros d m Hm; [done|]. simpl.
  apply IH, holds_put, Hm.
Qed.

Lemma below_spec p : below target p = true <-> exists rel, p = target +:+ "/" +:+ rel.
Proof using.
  unfold below. rewrite starts_with_spec. split; intros [rel ->]; exists rel; by rewrite string_app_assoc.
Qed.

Lemma remove_dir_spec (w : World) :
  kept (fun p => below target p = true) w (remove_dir_all target w).2 /\
  ww_remote (aw_fw (remove_dir_all target w).2) = ww_remote (aw_fw w) /\
  ((remove_dir_all target w).1 = Ok tt -> dir_holds target ∅ (disk_of (remove_dir_all target w).2)).
Proof using.
  unfold remove_dir_all. destruct (disk_of w !! target); [done|]. split; [|split; [done|intros _ rel]]; [split; [|done]; intros p Hp|]; simpl;
    unfold disk_of; simpl.
  - apply option_eq. intros c. rewrite map_lookup_filter_Some. simpl. split; [by intros [? _]|]. intros Hc. split; [done|].
    by apply not_true_is_false.
  - apply map_lookup_filter_None. right. intros c _. simpl. by rewrite below_join.
Qed.

Lemma fresh_spec (w : World) :
  kept (fun p => below target p = true) w (fresh_dir target w).2 /\
  ww_remote (aw_fw (fresh_dir target w).2) = ww_remote (aw_fw w) /\
  ((fresh_dir target w).1 = Ok tt -> dir_holds target ∅ (disk_of (fresh_dir target w).2)).
Proof using.
  unfold fresh_dir. destruct (path_exists (disk_of w) target) eqn:E; [apply remove_dir_spec|].
  destruct (below_file _ _); [done|]. split; [done|]. split; [done|]. intros _ rel. simpl. rewrite lookup_empty.
  destruct (disk_of w !! _) eqn:Hc; [|done]. unfold path_exists, is_dir in E. apply orb_false_iff in E as [_ E].
  apply not_true_iff_false in E. exfalso. apply E. apply existsb_exists. exists (target +:+ "/" +:+ rel).
  split; [|apply below_join]. apply list_elem_of_In, elem_of_elements, elem_of_dom. by eexists.
Qed.

Lemma manifest_spec m d : dir_holds target m d -> build_file_manifest walk d target = sorted_elements (dom m).
Proof using walk_perm.
  intros Hm. apply sort_strings_unique. unfold collect_files. rewrite walk_perm. apply NoDup_Permutation.
  - apply NoDup_omap_strip, NoDup_elements.
  - apply NoDup_elements.
  - intros rel. rewrite elem_of_elements, elem_of_dom, <-(Hm rel), list_elem_of_omap. split.
    + intros (p & Hp & Hs%strip_prefix_Some). rewrite elem_of_elements, elem_of_dom in Hp. by rewrite Hs, <-string_app_assoc in Hp.
    + intros Hr. exists (target +:+ "/" +:+ rel). rewrite elem_of_elements, elem_of_dom, string_app_assoc. split; [|apply strip_prefix_app].
      by rewrite <-string_app_assoc.
Qed.

Definition downloaded (s : AgentState) : AgentState :=
  mkAgentState (as_issue_id s) (as_issue_title s) (as_workspace_id s) Downloaded (claimed_at s).

Abbreviation advance_in := (advance print_state print_strings walk dir target).

Lemma advance_spec s n m (w : World) :
  dir_holds target m (disk_of w) ->
  match advance_in s n w with
  | (Ok r, w') => r = mkDownload n target None /\ ww_remote (aw_fw w') = ww_remote (aw_fw w) /\ aw_env w' = aw_env w /\
      disk_of w' = <[state_path dir := bytes_of (print_state (downloaded s))]>
        (<[manifest_path dir := bytes_of (print_strings (sorted_elements (dom m)))]> (disk_of w))
  | (_, w') => kept (fun p => p = manifest_path dir) w w'
  end.
Proof using walk_perm.
  intros Hm. unfold advance, mbind, M_bind, asks. rewrite (manifest_spec m) by done. unfold as_other at 1, write_text at 1.
  destruct (is_dir _ _ || below_file _ _); [by split|]. simpl. set (w1 := set_disk _ w).
  assert (H1 : kept (fun p => p = manifest_path dir) w w1).
  { split; [|done]. intros p Hp. unfold w1, disk_of. simpl. by rewrite lookup_insert_ne. }
  fold (downloaded s). destruct (save_state print_state dir (downloaded s) w1) as [[[]|e|] w2] eqn:Es.
  - apply save_state_ok in Es as ->. done.
  - by apply save_state_fails in Es as ->.
  - unfold save_state, as_other, write_text in Es. by destruct (is_dir _ _ || below_file _ _).
Qed.

(** What a download reached: an archive whose declared number of files is its own, all of
    whose files, and no other, are in the target; the rest of the disk but the two files
    of the metadata directory. *)
Definition arrived (call : HttpCall) (s : AgentState) (r : DownloadResult) (w w' : World) : Prop :=
  exists n r0 reply es,
    tries send call n r0 (Ok reply) (ww_remote (aw_fw w')) /\ unpack (hr_body reply) = Some (Some <$> es) /\
    (forall k, hr_expected_files reply = Some k -> regular_count es = k) /\
    r = mkDownload (regular_count es) target None /\ dir_holds target (archive_view es) (disk_of w') /\
    disk_of w' !! manifest_path dir = Some (bytes_of (print_strings (sorted_elements (dom (archive_view es))))) /\
    load_state parse_state dir (disk_of w') = Ok (downloaded s) /\
    kept (fun p => below target p = true \/ p = manifest_path dir \/ p = state_path dir) w w'.

(** What a download that fails leaves. *)
Definition refused (e : AgentError) (w w' : World) : Prop :=
  kept (fun p => below target p = true \/ p = manifest_path dir) w w' /\
  forall got declared, e = AgPartialDownload got declared -> got <> declared /\ (is_Some (disk_of w' !! target) \/ dir_holds target ∅ (disk_of w')).

Definition fetch_call (server repo : string) (key : option string) : HttpCall :=
  mkCall GET (trim_end_matches "/" server +:+ "/" +:+ repo_path repo "/files/download") (bearer key) None.

Lemma fetch_spec server repo key (w : World) :
  same_disk w (fetch_files_tarball send server repo key w).2 /\
  forall gz expected w', fetch_files_tarball send server repo key w = (Ok (gz, expected), w') ->
    exists n reply, tries send (fetch_call server repo key) n (ww_remote (aw_fw w)) (Ok reply) (ww_remote (aw_fw w')) /\
      gz = hr_body reply /\ expected = hr_expected_files reply.
Proof using.
  unfold fetch_files_tarball, mbind, M_bind, unreachable. fold (fetch_call server repo key).
  destruct (send_go_spec send (S RETRY_MAX_ATTEMPTS) 1 (fetch_call server repo key) w) as (n & o & r' & Ht & _ & _ & Es);
    [unfold RETRY_MAX_ATTEMPTS; lia..|].
  unfold send_with_retry. rewrite Es. destruct o as [reply|e|]; [|done..]. simpl.
  destruct (is_success reply); [|done]. split; [done|]. intros gz expected w' [= <- <- <-]. by exists n, reply.
Qed.

Lemma extract_tarball_spec gz (w : World) :
  kept (fun p => below target p = true) w (extract_tarball_to_dir unpack gz target w).2 /\
  forall n w', extract_tarball_to_dir unpack gz target w = (Ok n, w') ->
    ww_remote (aw_fw w') = ww_remote (aw_fw w) /\
    exists es, unpack gz = Some (Some <$> es) /\ n = regular_count es /\ disk_of w' = foldl put_entry (disk_of w) es.
Proof using target_plain.
  unfold extract_tarball_to_dir, mbind, M_bind, or_fail. destruct (unpack gz) as [entries|]; [|done]. simpl.
  destruct (extract_spec entries w) as [Hk Hn]. split; [done|]. intros n w' E. destruct (Hn n w' E) as (Hr & es & -> & -> & Hd).
  split; [done|]. by exists es.
Qed.

Lemma fetch_not_partial server repo key (w w' : World) a b :
  fetch_files_tarball send server repo key w <> (Err (AgPartialDownload a b), w').
Proof using.
  unfold fetch_files_tarball, mbind, M_bind, unreachable. destruct (send_with_retry send _ w) as [[reply|e|] w1]; simpl; [|done..].
  by destruct (is_success reply).
Qed.

Lemma extract_not_partial gz (w w' : World) a b : extract_tarball_to_dir unpack gz target w <> (Err (AgPartialDownload a b), w').
Proof using.
  unfold extract_tarball_to_dir, mbind, M_bind, or_fail. destruct (unpack gz) as [entries|]; [|done]. simpl. revert w w'.
  induction entries as [|[e|] entries IH]; intros w w'; simpl; [done| |done]. destruct (te_type e); try apply IH.
  - destruct (unsafe_path _); [done|]. unfold mbind, M_bind, unpack_file. destruct (String.eqb _ _); [done|].
    destruct (below_file _ _); [done|]. destruct (is_dir _ _); [done|].
    specialize (IH (set_disk (<[path_join target (clean_path (te_path e)):=te_content e]> (disk_of w)) w)).
    destruct (extract_entries_to entries target _) as [[n|x|] w2]; [done| |done]. intros [= -> ->]. by apply (IH w').
  - destruct (unsafe_path _); [done|]. unfold mbind, M_bind, make_dir. destruct (_ || _); [done|]. apply IH.
Qed.

Lemma advance_arrived call n r0 reply es s (w0 w : World) :
  tries send call n r0 (Ok reply) (ww_remote (aw_fw w)) -> unpack (hr_body reply) = Some (Some <$> es) ->
  (forall k, hr_expected_files reply = Some k -> regular_count es = k) -> dir_holds target (archive_view es) (disk_of w) ->
  kept (fun p => below target p = true) w0 w ->
  match advance_in s (regular_count es) w with
  | (Ok r, w') => arrived call s r w0 w'
  | (Err e, w') => refused e w0 w'
  | (Panic, w') => True
  end.
Proof using walk_perm apart state_back.
  clear parse_config target_plain. intros Ht Hu Hk Hh H0. pose proof (advance_spec s (regular_count es) (archive_view es) w Hh) as Ha.
  destruct (advance_in s (regular_count es) w) as [[r|e|] w'] eqn:E; [| |done].
  - destruct Ha as (-> & Hr & He & Hd). exists n, r0, reply, es. rewrite Hr. split_and!; try done.
    + intros rel. pose proof (below_join rel) as Hb. destruct apart as [A1 A2]. rewrite Hd, !lookup_insert_ne; [apply Hh|congruence..].
    + rewrite Hd. destruct (decide (state_path dir = manifest_path dir)) as [Es|Es]; [exfalso; by apply (state_manifest dir)|].
      by rewrite lookup_insert_ne, lookup_insert_eq.
    + rewrite Hd. by apply load_saved.
    + split; [|by rewrite He, (proj2 H0)]. intros p Hp. rewrite Hd, !lookup_insert_ne; [apply H0; tauto|intros <-; tauto..].
  - split.
    + etransitivity; [eapply kept_weaken, H0; auto|eapply kept_weaken, Ha; auto].
    + intros got declared ->. exfalso. revert E. unfold advance, mbind, M_bind, asks, as_other. 
      destruct (write_text (manifest_path dir) _ w) as [[|e|] w1]; simpl; try done.
      unfold save_state, as_other. by destruct (write_text (state_path dir) _ w1) as [[|e|] w2].
Qed.

Lemma download_go_spec fuel attempt config s key (w0 w : World) :
  attempt + fuel = S DOWNLOAD_MAX_ATTEMPTS -> 1 <= fuel -> kept (fun p => below target p = true) w0 w ->
  match download_go send print_state print_strings unpack walk fuel attempt dir target config s key w with
  | (Ok r, w') => arrived (fetch_call (ac_server config) (ac_repo config) key) s r w0 w'
  | (Err e, w') => refused e w0 w'
  | (Panic, _) => True
  end.
Proof using target_plain walk_perm apart state_back.
  clear parse_config. set (X := fun p => below target p = true). revert attempt w. induction fuel as [|fuel IH]; intros attempt w Hf H1 H0; [lia|]. cbn [download_go].
  assert (Hr : forall e w', kept X w0 w' -> (forall a b, e <> AgPartialDownload a b) -> refused e w0 w').
  { intros e w' Hk Hne. split; [eapply kept_weaken, Hk; auto|]. intros a b ->. by destruct (Hne a b). }
  unfold mbind at 1, M_bind at 1. destruct (fresh_spec w) as (Hk1 & _ & Hh1).
  destruct (fresh_dir target w) as [[[]|e|] w1] eqn:E1; simpl in *; [| |done].
  2:{ apply Hr; [by etransitivity|]. intros a b ->. revert E1. unfold fresh_dir, remove_dir_all. repeat case_match; done. }
  specialize (Hh1 eq_refl). unfold mbind at 1, M_bind at 1.
  destruct (fetch_spec (ac_server config) (ac_repo config) key w1) as [Hk2 Hf2].
  destruct (fetch_files_tarball send _ _ key w1) as [[[gz expected]|e|] w2] eqn:E2; simpl in *; [| |done].
  2:{ apply Hr; [etransitivity; [by etransitivity|by apply same_disk_kept]|]. intros a b ->. by apply (fetch_not_partial _ _ _ _ _ _ _ E2). }
  destruct (Hf2 _ _ _ eq_refl) as (n & reply & Ht & -> & ->). unfold mbind at 1, M_bind at 1.
  destruct (extract_tarball_spec (hr_body reply) w2) as [Hk3 Hx3].
  assert (H2 : kept X w0 w2) by (etransitivity; [by etransitivity|by apply same_disk_kept]).
  destruct (extract_tarball_to_dir unpack (hr_body reply) target w2) as [[count|e|] w3] eqn:E3; simpl in *; [| |done].
  2:{ apply Hr; [by etransitivity|]. intros a b ->. by apply (extract_not_partial _ _ _ _ _ E3). }
  assert (H3 : kept X w0 w3) by by etransitivity.
  destruct (Hx3 _ _ eq_refl) as (Hrem & es & Hu & -> & Hd). rewrite <-Hrem in Ht.
  assert (Hh3 : dir_holds target (archive_view es) (disk_of w3)).
  { rewrite Hd. apply holds_archive. intros rel. rewrite (proj1 Hk2). apply Hh1. }
  destruct (hr_expected_files reply) as [k|] eqn:Ek.
  - destruct (Nat.eqb_spec (regular_count es) k) as [Hc|Hc]; cbn [negb].
    + eapply (advance_arrived _ n); [exact Ht|exact Hu| |exact Hh3|exact H3]. intros k' Hk'. rewrite Ek in Hk'. by injection Hk' as <-.
    + destruct (Nat.ltb_spec attempt DOWNLOAD_MAX_ATTEMPTS) as [Hl|Hl].
      * unfold mbind, M_bind. simpl. apply IH; [lia|unfold DOWNLOAD_MAX_ATTEMPTS in *; lia|]. by etransitivity.
      * destruct (remove_dir_spec w3) as (Hk4 & _ & Hh4). split; [eapply kept_weaken; [|by etransitivity]; auto|].
        intros got declared [= <- <-]. split; [done|]. revert Hh4. unfold remove_dir_all.
        destruct (disk_of w3 !! target) eqn:Et; simpl; [intros _; left; by eexists|intros Hh4; right; by apply Hh4].
  - eapply (advance_arrived _ n); [exact Ht|exact Hu| |exact Hh3|exact H3]. intros k' Hk'. by rewrite Ek in Hk'.
Qed.

Lemma config_not_partial d a b : load_config parse_config dir d <> Err (AgPartialDownload a b).
Proof using. unfold load_config. destruct (read_text d (config_path dir)) as [t|]; [by destruct (parse_config t)|done]. Qed.
Lemma state_not_partial d a b : load_state parse_state dir d <> Err (AgPartialDownload a b).
Proof using.
  unfold load_state. destruct (negb _); [done|]. destruct (read_text d (state_path dir)) as [t|]; [by destruct (parse_state t)|done].
Qed.

(** C11. A download is complete or refused. When it succeeds the target directory holds
    exactly the files of an archive that the server sent for this call, as many as the
    server declared; the manifest lists them in order, and the state is that of before in
    the phase downloaded. Whatever goes wrong, on any of its three attempts, the state file
    and everything outside the target but the manifest stay, so that the command can be
    run again; after the third archive with a wrong number of files the target is empty. *)
Theorem download_complete (w : World) :
  match download send parse_config parse_state print_state print_strings unpack walk dir target w with
  | (Ok r, w') => exists config s,
      load_config parse_config dir (disk_of w) = Ok config /\ load_state parse_state dir (disk_of w) = Ok s /\
      arrived (fetch_call (ac_server config) (ac_repo config) (resolve_api_key (aw_env w))) s r w w'
  | (Err e, w') => refused e w w' /\ disk_of w' !! state_path dir = disk_of w !! state_path dir
  | (Panic, _) => True
  end.
Proof using target_plain walk_perm apart state_back.
  assert (Hs : forall e w', refused e w w' -> refused e w w' /\ disk_of w' !! state_path dir = disk_of w !! state_path dir).
  { intros e w' Hr. split; [done|]. apply (proj1 Hr). intros [Hb|Hm]; [by rewrite (proj1 apart) in Hb|by apply (state_manifest dir)]. }
  unfold download, mbind, M_bind, reading, asks. destruct (load_config parse_config dir (disk_of w)) as [config|e|] eqn:Ec; [| |done].
  2:{ apply Hs. split; [done|]. intros a b ->. by apply config_not_partial in Ec. }
  destruct (load_state parse_state dir (disk_of w)) as [s|e|] eqn:El; [| |done].
  2:{ apply Hs. split; [done|]. intros a b ->. by apply state_not_partial in El. }
  pose proof (download_go_spec DOWNLOAD_MAX_ATTEMPTS 1 config s (resolve_api_key (aw_env w)) w w eq_refl ltac:(unfold DOWNLOAD_MAX_ATTEMPTS; lia)
    ltac:(done)) as Hg.
  destruct (download_go _ _ _ _ _ _ _ _ _ _ _ _ w) as [[r|e|] w']; [by exists config, s|by apply Hs|done].
Qed.
End downloads.

(** ** Quality checks *)

Section checks.
Context {R : Type} {unicode : Unicode}.
Variable parse_config : string -> option AgentConfig.
Variable parse_project : string -> option VaiProjectConfig.
Variable work_dir : string.
Variable sh : list (string * string) -> string -> string -> option Output.

Abbreviation World := (AgentWorld R).

Definition ran (cmds : list string) : list (string * string) := pair work_dir <$> cmds.
Definition has_run (cmds : list string) (w : World) : World :=
  mkWorld (aw_fw w) (aw_env w) (aw_ticks w) (aw_slept w) (aw_ran w ++ ran cmds).

(** What the commands give one after the other, each after all that stand before it; [None] for
    one that cannot be started. *)
Fixpoint outputs (h : list (string * string)) (cmds : list string) : list (option Output) :=
  match cmds with [] => [] | c :: cmds' => sh h work_dir c :: outputs (h ++ [(work_dir, c)]) cmds' end.

Definition started (o : option Output) : bool := match o with Some _ => true | None => false end.
Definition went_well (o : option Output) : bool := match o with Some o => succeeded o | None => false end.

(** The first command whose result is not as asked, with its position. *)
Definition first_not (good : option Output -> bool) (h : list (string * string)) (cmds : list string) : option (nat * (string * option Output)) :=
  list_find (fun co => good co.2 = false) (zip cmds (outputs h cmds)).

(** Those of the commands that can be started when each that can be is. *)
Fixpoint startable (h : list (string * string)) (cmds : list string) : list string :=
  match cmds with
  | [] => []
  | c :: cmds' => if started (sh h work_dir c) then c :: startable (h ++ [(work_dir, c)]) cmds' else startable h cmds'
  end.
Definition torn_down (cmds : list string) (w : World) : World := has_run (startable (aw_ran w) cmds) w.

Lemma has_run_nil w : has_run [] w = w.
Proof using. unfold has_run. simpl. rewrite app_nil_r. by destruct w. Qed.
Lemma has_run_app l1 l2 w : has_run l2 (has_run l1 w) = has_run (l1 ++ l2) w.
Proof using. unfold has_run, ran. simpl. by rewrite fmap_app, <-app_assoc. Qed.

Lemma run_in_spec c w :
  run_in sh work_dir c w = match sh (aw_ran w) work_dir c with Some o => (Ok o, has_run [c] w) | None => (Err AgOther, w) end.
Proof using. done. Qed.

Lemma run_all_spec cmds w :
  run_all sh work_dir cmds w =
  match first_not started (aw_ran w) cmds with
  | None => (Ok (zip_with check_of cmds (omap id (outputs (aw_ran w) cmds))), has_run cmds w)
  | Some (i, _) => (Err AgOther, has_run (take i cmds) w)
  end.
Proof using.
  unfold first_not. revert w. induction cmds as [|c cmds IH]; intros w; simpl; [by rewrite has_run_nil|].
  unfold mbind, M_bind. rewrite run_in_spec. destruct (sh (aw_ran w) work_dir c) as [o|]; simpl; [|by rewrite has_run_nil].
  rewrite IH. simpl. destruct (list_find _ _) as [[i co]|]; simpl; by rewrite has_run_app.
Qed.

Lemma run_teardown_spec cmds w : run_teardown sh work_dir cmds w = (Ok tt, torn_down cmds w).
Proof using.
  unfold torn_down. revert w. induction cmds as [|c cmds IH]; intros w; simpl; [by rewrite has_run_nil|]. rewrite run_in_spec.
  destruct (sh (aw_ran w) work_dir c) as [o|] eqn:E; simpl; rewrite IH; [by rewrite has_run_app|done].
Qed.

Lemma run_setup_spec cmds w :
  run_setup sh work_dir cmds w =
  match first_not went_well (aw_ran w) cmds with
  | None => (Ok None, has_run cmds w)
  | Some (i, (c, Some o)) => (Ok (Some (setup_failure c o)), has_run (take (S i) cmds) w)
  | Some (i, (c, None)) => (Err AgOther, has_run (take i cmds) w)
  end.
Proof using.
  unfold first_not. revert w. induction cmds as [|c cmds IH]; intros w; simpl; [by rewrite has_run_nil|].
  unfold mbind, M_bind. rewrite run_in_spec. destruct (sh (aw_ran w) work_dir c) as [o|]; simpl; [|by rewrite has_run_nil].
  destruct (succeeded o) eqn:Es; simpl.
  - rewrite IH. simpl. destruct (list_find _ _) as [[i [c' [o'|]]]|]; simpl; by rewrite has_run_app.
  - done.
Qed.

Lemma verdict h cmds : first_not started h cmds = None ->
  forallb cr_passed (zip_with check_of cmds (omap id (outputs h cmds))) = forallb went_well (outputs h cmds).
Proof using.
  unfold first_not. revert h. induction cmds as [|c cmds IH]; intros h; [done|]. simpl. destruct (sh h work_dir c) as [o|]; simpl; [|done].
  intros Hl. rewrite IH; [done|]. by destruct (list_find _ _) as [[??]|].
Qed.

(** C21. The quality checks run in order: the setup commands up to the first that fails; the
    checks, all of them whatever their results, if none fails; and then the teardown, of
    which nothing is asked. The verdict is the conjunction of the checks, and a setup that
    fails is the only result and a negative one. A command of the setup or of the checks
    that cannot be started at all ends everything at once with an error, and then the
    teardown does not run. Nothing else of the machine is touched. *)
Theorem verify_spec dir w checks ignore legacy :
  resolve_checks_config parse_config parse_project dir (disk_of w) = Ok (Some checks, ignore, legacy) -> ck_commands checks <> [] ->
  verify parse_config parse_project sh dir work_dir w =
  match first_not went_well (aw_ran w) (ck_setup checks) with
  | Some (i, (c, None)) => (Err AgOther, has_run (take i (ck_setup checks)) w)
  | Some (i, (c, Some o)) =>
      (Ok (mkVerify [setup_failure c o] false false), torn_down (ck_teardown checks) (has_run (take (S i) (ck_setup checks)) w))
  | None =>
      let w1 := has_run (ck_setup checks) w in
      match first_not started (aw_ran w1) (ck_commands checks) with
      | Some (i, _) => (Err AgOther, has_run (take i (ck_commands checks)) w1)
      | None =>
          let os := outputs (aw_ran w1) (ck_commands checks) in
          (Ok (mkVerify (zip_with check_of (ck_commands checks) (omap id os)) (forallb went_well os) false),
           torn_down (ck_teardown checks) (has_run (ck_commands checks) w1))
      end
  end.
Proof using.
  intros Hc Hne. unfold verify, mbind, M_bind, reading. rewrite Hc. cbn [fmap option_fmap option_map default from_option].
  destruct (ck_commands checks) as [|c0 cs]; [done|]. clear Hne. unfold id. cbv beta iota. generalize (c0 :: cs). intros cmds.
  rewrite run_setup_spec. destruct (first_not went_well (aw_ran w) (ck_setup checks)) as [[i [c [o|]]]|]; [|done|].
  - simpl. rewrite run_teardown_spec. unfold setup_failure. by destruct (is_background c).
  - rewrite run_all_spec. cbn beta iota zeta. destruct (first_not started _ cmds) as [[i co]|] eqn:Ef; [done|].
    rewrite run_teardown_spec. rewrite <-(verdict _ _ Ef). done.
Qed.
End checks.
