(* ===== verification/AgentSystem.v ===== *)
(** An agent and the server: the commands of [Agent] over a network that answers with the
    handlers of the work queue, the issues and the workspaces, or loses a message. What a
    claim, a reset and a closing do from one end to the other. *)
From S2P Require Import Prelude Table RustStr Graph EventLog MergeEngine MergeFs VaiDir Workspace Submit Conflict Issue WorkQueue Pagination ServerRepo ServerPull Auth AuthServer IssuePg IssueServer QueueServer DeskSystem DeskProps.
From S2P Require Import ScopeHistory ScopeInference FileWorkspace Agent AgentProps.

(** What becomes of a message, and of the reply to it. *)
Inductive Fate : Type := Delivered | RequestLost | ReplyLost.
(** The server of one repository, and the fates of the next messages; later ones arrive. *)
Record Net : Type := mkNet { nt_desk : Desk; nt_fates : list Fate }.

Inductive Route : Type :=
  | RtQueue
  | RtIssue (id : string)
  | RtClaim (issue_id : string)
  | RtClose (issue_id resolution : string)
  | RtDiscard (workspace_id : string).

Definition status_code (e : HttpError) : Z :=
  match e with
  | HtForbidden => 403 | HtNotFound => 404 | HtBadRequest => 400 | HtConflict => 409 | HtWorkspaceEmpty => 409
  | HtTooLarge => 413 | HtRateLimited => 429 | HtInternal => 500
  end%Z.

(** [s.strip_suffix(suf)] *)
Fixpoint strip_suffix (suf s : string) : option string :=
  if String.eqb s suf then Some EmptyString
  else match s with EmptyString => None | String a s' => String a <$> strip_suffix suf s' end.

(** A path segment that a parameter of a route takes. *)
Definition segment (s : string) : option string := if has_char "/" s || String.eqb s "" then None else Some s.

Section network.
Context `{AuthEnv} {unicode : Unicode}.
Variable scan : forall A, list A -> list A.
Variable collate : string -> string -> comparison.
Variable pg_lower : string -> string.
Variable iter_order : gset string -> list string.
Variable values : Engine -> list WorkspaceScope.
Variable g : GraphSnapshot.
(** The check of a credential, the texts of JSON values and of times, and the values of a
    scope and of the source of an issue. *)
Variables may_read may_write : option string -> bool.
Variable print_json : Json -> bytes.
Variable scope_json : ScopePrediction -> Json.
Variable source_json : AgentSource -> Json.
Variable rfc3339 : DateTime -> string.
(** The address of the server and the name of the repository. *)
Variables server repo : string.

(** The routes of the router under [/api/repos/{repo}] that agents use. *)
Definition route (c : HttpCall) : option Route :=
  path ← strip_prefix (server +:+ "/api/repos/" +:+ repo) (hc_url c);
  match hc_method c with
  | GET =>
      if String.eqb path "/work-queue" then Some RtQueue
      else RtIssue <$> (strip_prefix "/issues/" path ≫= segment)
  | POST =>
      body ← hc_body c;
      if String.eqb path "/work-queue/claim" then RtClaim <$> as_str (field "issue_id" body)
      else
        rest ← strip_prefix "/issues/" path; id ← strip_suffix "/close" rest ≫= segment;
        RtClose id <$> as_str (field "resolution" body)
  | DELETE => RtDiscard <$> (strip_prefix "/workspaces/" path ≫= segment)
  end.

Definition available_json (a : AvailableWork) : Json :=
  JObj [("issue_id", JStr (aw_issue_id a)); ("title", JStr (aw_title a)); ("priority", JStr (aw_priority a));
        ("predicted_scope", scope_json (aw_scope a))]%string.
Definition blocked_json (b : BlockedWork) : Json :=
  JObj [("issue_id", JStr (bw_issue_id b)); ("title", JStr (bw_title b)); ("priority", JStr (bw_priority b));
        ("blocked_by", JArr (JStr <$> blocked_by b)); ("reason", JStr (bw_reason b))]%string.
Definition queue_json (q : list AvailableWork * list BlockedWork) : Json :=
  JObj [("available_work", JArr (available_json <$> q.1)); ("blocked_work", JArr (blocked_json <$> q.2))]%string.
Definition claim_json (c : ClaimResult) : Json :=
  JObj [("issue_id", JStr (cl_issue_id c)); ("workspace_id", JStr (cl_workspace_id c)); ("intent", JStr (cl_intent c));
        ("predicted_scope", scope_json (cl_scope c))]%string.

Definition opt_json {A} (f : A -> Json) (o : option A) : Json := from_option f JNull o.
Definition strings_json (l : list string) : Json := JArr (JStr <$> l).
Definition mention_json (m : MentionRef) : Json :=
  JObj [("id", JStr (mr_id m)); ("name", JStr (mr_name m)); ("mention_type", JStr (mr_type m))]%string.
Definition comment_json (c : CommentResponse) : Json :=
  let k := cr_comment c in
  JObj [("id", JStr (c_id k)); ("issue_id", JStr (c_issue_id k)); ("author", JStr (c_author k)); ("body", opt_json JStr (c_body k));
        ("author_type", JStr (c_author_type k)); ("author_id", opt_json JStr (c_author_id k));
        ("created_at", JStr (rfc3339 (c_created_at k))); ("parent_id", opt_json JStr (c_parent_id k));
        ("edited_at", opt_json (fun t => JStr (rfc3339 t)) (c_edited_at k));
        ("deleted_at", opt_json (fun t => JStr (rfc3339 t)) (c_deleted_at k)); ("mentions", JArr (mention_json <$> cr_mentions c))]%string.
Definition link_json (l : IssueLinkDetail) : Json :=
  JObj [("other_issue_id", JStr (other_issue_id l)); ("relationship", JStr (relationship l)); ("title", JStr (ld_title l));
        ("status", JStr (status_as_str (ld_status l)))]%string.
Definition attachment_json (a : IssueAttachment) : Json :=
  JObj [("id", JStr (at_id a)); ("issue_id", JStr (at_issue_id a)); ("filename", JStr (at_filename a));
        ("content_type", JStr (at_content_type a)); ("size_bytes", JNum (size_bytes a)); ("uploaded_by", JStr (uploaded_by a));
        ("created_at", JStr (rfc3339 (at_created_at a)))]%string.
Definition issue_json (d : IssueDetailResponse) : Json :=
  let r := id_issue d in
  let i := ir_issue r in
  JObj ([("id", JStr (i_id i)); ("title", JStr (i_title i)); ("description", JStr (i_description i));
         ("status", JStr (status_as_str (i_status i))); ("priority", JStr (priority_as_str (i_priority i)));
         ("labels", strings_json (i_labels i)); ("creator", JStr (i_creator i)); ("resolution", opt_json JStr (i_resolution i));
         ("agent_source", opt_json source_json (i_agent_source i))]%string ++
        match possible_duplicate_of r with Some u => [("possible_duplicate_of"%string, JStr u)] | None => [] end ++
        [("linked_workspace_ids", strings_json (linked_ids r)); ("blocked_by", strings_json (ir_blocked_by r));
         ("blocking", strings_json (blocking r)); ("acceptance_criteria", strings_json (i_acceptance_criteria i));
         ("created_at", JStr (rfc3339 (i_created_at i))); ("updated_at", JStr (rfc3339 (i_updated_at i)));
         ("links", JArr (link_json <$> id_links d)); ("attachments", JArr (attachment_json <$> id_attachments d));
         ("comments", JArr (comment_json <$> id_comments d))]%string).

Definition reply_of {A} (code : Z) (f : A -> bytes) (o : outcome HttpError A) : option HttpReply :=
  match o with
  | Ok a => Some (mkReply code (f a) None)
  | Err e => Some (mkReply (status_code e) [] None)
  | Panic => None
  end.

(** The server's side of a call; no route is 404. The body of a closed issue is not looked at. *)
Definition handle_call (c : HttpCall) (d : Desk) : option HttpReply * Desk :=
  let allowed := may_write (hc_auth c) in
  match route c with
  | Some RtQueue =>
      let '(o, d') := get_work_queue_handler scan collate pg_lower iter_order values g (may_read (hc_auth c)) d in
      (reply_of 200 (fun q => print_json (queue_json q)) o, d')
  | Some (RtIssue id) =>
      let '(o, d') := get_issue_handler scan (may_read (hc_auth c)) id d in
      (reply_of 200 (fun i => print_json (issue_json i)) o, d')
  | Some (RtClaim id) =>
      let '(o, d') := claim_work_handler iter_order values g allowed id d in
      (reply_of 201 (fun r => print_json (claim_json r)) o, d')
  | Some (RtClose id resolution) =>
      let '(o, d') := close_issue_handler scan allowed id resolution d in
      (reply_of 200 (fun _ => print_json (JObj [])) o, d')
  | Some (RtDiscard id) =>
      let '(o, d') := discard_handler allowed id d in (reply_of 204 (fun _ => []) o, d')
  | None => (Some (mkReply 404 [] None), d)
  end.

Definition deliver (c : HttpCall) (n : Net) : outcome SendError HttpReply * Net :=
  match nt_fates n with
  | [] | Delivered :: _ =>
      let '(reply, d) := handle_call c (nt_desk n) in
      (from_option Ok (Err Permanent) reply, mkNet d (tail (nt_fates n)))
  | RequestLost :: fates => (Err Transient, mkNet (nt_desk n) fates)
  | ReplyLost :: fates => (Err Transient, mkNet (handle_call c (nt_desk n)).2 fates)
  end.

(** ** One agent and the server *)

Variable clock_a : nat -> DateTime.
Variable parse_config : string -> option AgentConfig.
Variable parse_state : string -> option AgentState.
Variable print_state : AgentState -> string.
Variable parse_json : bytes -> option Json.

Hypothesis scan_perm : forall A (l : list A), scan A l ≡ₚ l.
Hypothesis json_back : forall j, parse_json (print_json j) = Some j.
Hypothesis state_back : forall s, from_utf8 (bytes_of (print_state s)) = Some (print_state s) /\ parse_state (print_state s) = Some s.
Hypothesis values_are : forall e s, s ∈ values e <-> exists w, e !! w = Some s.
Hypothesis parse_uuid_plain : forall id u, parse_uuid id = Some u -> segment u = Some u.
Hypothesis server_plain : trim_end_matches "/" server = server.

Abbreviation World := (AgentWorld Net).
Abbreviation Ag := (M World AgentError).

Definition net_of (w : World) : Net := ww_remote (aw_fw w).
Definition desk_at (w : World) : Desk := nt_desk (net_of w).
(** The server has moved on. *)
Definition arrived_at (d : Desk) (w : World) : World := set_remote (mkNet d []) w.

Lemma send_delivered c d' reply w :
  nt_fates (net_of w) = [] -> handle_call c (desk_at w) = (Some reply, d') -> send_once deliver c w = (Ok reply, arrived_at d' w).
Proof using.
  intros Hn Hc. unfold send_once, deliver. fold (net_of w). rewrite Hn. fold (desk_at w). by rewrite Hc.
Qed.

Lemma get_delivered s p k d' reply j w :
  nt_fates (net_of w) = [] -> handle_call (mkCall GET (url_of s p) (bearer k) None) (desk_at w) = (Some reply, d') ->
  is_success reply = true -> parse_json (hr_body reply) = Some j ->
  agent_get deliver parse_json s p k w = (Ok j, arrived_at d' w).
Proof using.
  intros Hn Hc Hs Hj. unfold agent_get, mbind, M_bind, unreachable, send_with_retry. cbn [send_go].
  rewrite (send_delivered _ _ _ _ Hn Hc). simpl. unfold json_reply. by rewrite Hs, Hj.
Qed.

Lemma post_delivered s p k b d' reply j w :
  nt_fates (net_of w) = [] -> handle_call (mkCall POST (url_of s p) (bearer k) (Some b)) (desk_at w) = (Some reply, d') ->
  is_success reply = true -> parse_json (hr_body reply) = Some j ->
  agent_post deliver parse_json s p k b w = (Ok j, arrived_at d' w).
Proof using.
  intros Hn Hc Hs Hj. unfold agent_post, mbind, M_bind, unreachable.
  rewrite (send_delivered _ _ _ _ Hn Hc). simpl. unfold json_reply. by rewrite Hs, Hj.
Qed.

Lemma route_path p : strip_prefix (server +:+ "/api/repos/" +:+ repo) (url_of server (repo_path repo p)) = Some p.
Proof using server_plain.
  unfold url_of, repo_path. rewrite server_plain. change (trim_start_slashes ("api/repos/" +:+ repo +:+ p)) with ("api/repos/" +:+ repo +:+ p).
  replace (server +:+ "/" +:+ "api/repos/" +:+ repo +:+ p) with ((server +:+ "/api/repos/" +:+ repo) +:+ p); [apply strip_prefix_app|].
  rewrite <-!string_app_assoc. done.
Qed.

(** An agent about to claim: its configuration names the server and the repository, its
    key may write, there is no state, and the state file can be written; the server is in
    order, its identifiers are texts of identifiers, and no message gets lost. *)
Record ready (dir : string) (cfg : AgentConfig) (w : World) : Prop := {
  rd_config : load_config parse_config dir (disk_of w) = Ok cfg;
  rd_names : ac_server cfg = server /\ ac_repo cfg = repo;
  rd_env : VAI_SERVER_URL (aw_env w) = None /\ VAI_REPO (aw_env w) = None;
  rd_key : may_read (bearer (resolve_api_key (aw_env w))) = true /\ may_write (bearer (resolve_api_key (aw_env w))) = true;
  rd_new : load_state parse_state dir (disk_of w) = Err NoState;
  rd_dir : path_exists (disk_of w) (vai_path dir) = true /\ below_file (disk_of w) (state_path dir) = false;
  rd_net : nt_fates (net_of w) = [];
  rd_desk : desk_ok (desk_at w) /\ fresh (desk_at w);
  rd_ids : forall u, is_Some (info_of u (desk_at w)) \/ u = next_id (desk_at w) -> parse_uuid u = Some u
}.

(** An agent at work: the state file was written into the disk it started from. *)
Record at_work (dir : string) (cfg : AgentConfig) (s : AgentState) (w0 w : World) : Prop := {
  wk_disk : disk_of w = <[state_path dir := bytes_of (print_state s)]> (disk_of w0);
  wk_env : aw_env w = aw_env w0;
  wk_net : nt_fates (net_of w) = []
}.

Abbreviation available_in := (shown_available scan collate pg_lower iter_order values g).
Abbreviation agent_claim := (claim clock_a deliver parse_config parse_state print_state parse_json).

Lemma no_state dir d : load_state parse_state dir d = Err NoState -> d !! state_path dir = None /\ is_dir d (state_path dir) = false.
Proof using.
  unfold load_state. destruct (path_exists d (state_path dir)) eqn:E; simpl.
  - destruct (read_text d (state_path dir)) as [t|]; [by destruct (parse_state t)|done].
  - intros _. unfold path_exists in E. apply orb_false_iff in E as [E1 E2]. apply bool_decide_eq_false in E1.
    split; [by apply eq_None_not_Some|done].
Qed.

Lemma config_state dir : config_path dir <> state_path dir.
Proof using.
  unfold state_path, config_path. generalize (vai_path dir). intros v. unfold path_join. cbn -[ends_with].
  destruct (ends_with "/" v || String.eqb v "")%bool; intros E; apply string_app_inj_l in E; discriminate E.
Qed.

Lemma resolve_file dir cfg w :
  ready dir cfg w -> exists cfg', resolve_config parse_config dir None None w = Ok cfg' /\ ac_server cfg' = server /\ ac_repo cfg' = repo.
Proof using.
  intros R. unfold resolve_config. rewrite (rd_config _ _ _ R), (proj1 (rd_env _ _ _ R)), (proj2 (rd_env _ _ _ R)). simpl.
  eexists. split; [reflexivity|]. simpl. apply (rd_names _ _ _ R).
Qed.

Lemma queue_call key d :
  may_read (bearer key) = true ->
  handle_call (mkCall GET (url_of server (repo_path repo "/work-queue")) (bearer key) None) d =
  (Some (mkReply 200 (print_json (queue_json (available_in d, shown_blocked scan collate pg_lower iter_order values g d))) None), d).
Proof using server_plain.
  intros Hk. unfold handle_call, route. cbn [hc_method hc_url hc_auth hc_body]. rewrite route_path, Hk. simpl.
  by rewrite queue_eq.
Qed.

Lemma claim_call key id worker d :
  may_write (bearer key) = true ->
  handle_call (mkCall POST (url_of server (repo_path repo "/work-queue/claim")) (bearer key) (Some (claim_body id worker))) d =
  let '(o, d') := claim_work_handler iter_order values g true id d in (reply_of 201 (fun r => print_json (claim_json r)) o, d').
Proof using server_plain.
  intros Hk. unfold handle_call, route. cbn [hc_method hc_url hc_auth hc_body]. rewrite route_path, Hk. done.
Qed.

(** The first entry of the queue becomes the work of the agent. *)
Lemma claim_runs dir cfg w a rest :
  ready dir cfg w -> available_in (desk_at w) = a :: rest ->
  exists r s w', agent_claim dir None None w = (Ok (ClClaimed s), w') /\ at_work dir cfg s w w' /\
    as_issue_id s = aw_issue_id a /\ as_workspace_id s = next_id (desk_at w) /\
    claimable iter_order values g (desk_at w) (aw_issue_id a) r /\ claimed (aw_issue_id a) r (desk_at w) (desk_at w') /\
    desk_ok (desk_at w').
Proof using scan_perm json_back state_back server_plain.
  intros R Ha. destruct (rd_desk _ _ _ R) as [Hd [_ Hf]]. destruct (resolve_file _ _ _ R) as (cfg' & Hc & Hs & Hr).
  assert (Hof : offered iter_order values g (desk_at w) (aw_issue_id a)).
  { apply (shown_available_iff scan collate pg_lower iter_order values g scan_perm); [apply do_issues, Hd|]. rewrite Ha. by left. }
  destruct Hof as [[r Hcl] _].
  pose proof (rd_ids _ _ _ R (aw_issue_id a) (or_introl (ex_intro _ r (proj1 Hcl)))) as Hp.
  destruct (claim_succeeds iter_order values g _ _ _ _ Hp Hcl Hf) as (d' & Ec & C).
  unfold claim. rewrite (rd_new _ _ _ R). unfold claim_next, configured, mbind at 1 2, M_bind at 1 2. rewrite Hc. unfold asks.
  set (key := resolve_api_key (aw_env w)). unfold mbind at 1, M_bind at 1. rewrite Hs, Hr.
  erewrite get_delivered; [|apply (rd_net _ _ _ R)|apply queue_call, (proj1 (rd_key _ _ _ R))|done|apply json_back].
  rewrite Ha. change (default [] (as_array _)) with (available_json a :: (available_json <$> rest)). cbv iota beta.
  set (w1 := arrived_at (desk_at w) w). set (c := mkClaim _ _ _ _) in Ec. set (w2 := arrived_at d' w1).
  assert (Hv : ensure_vai dir w2 = (Ok tt, w2)).
  { unfold ensure_vai. change (disk_of w2) with (disk_of w). by rewrite (proj1 (rd_dir _ _ _ R)). }
  set (w3 := mkWorld (aw_fw w2) (aw_env w2) (S (aw_ticks w2)) (aw_slept w2) (aw_ran w2)).
  set (s := mkAgentState (aw_issue_id a) (aw_title a) (next_id (desk_at w)) Claimed (clock_a (aw_ticks w2))).
  assert (Es : save_state print_state dir s w3 = (Ok tt, set_disk (<[state_path dir := bytes_of (print_state s)]> (disk_of w)) w3)).
  { destruct (no_state _ _ (rd_new _ _ _ R)) as [_ Hi]. unfold save_state, as_other, write_text. change (disk_of w3) with (disk_of w).
    by rewrite Hi, (proj2 (rd_dir _ _ _ R)). }
  unfold claim_entry. rewrite (M_bind_ok _ _ w1 (aw_issue_id a) w1) by done. cbv zeta.
  rewrite (M_bind_ok _ _ w1 (VAI_WORKER_ID (aw_env w)) w1), Hs, Hr by done. rewrite (M_bind_ok _ _ w1 (claim_json c) w2).
  2:{ apply (post_delivered _ _ _ _ d' (mkReply 201 (print_json (claim_json c)) None)); [done| |done|apply json_back].
      rewrite claim_call by apply (proj2 (rd_key _ _ _ R)). change (desk_at w1) with (desk_at w). by rewrite Ec. }
  rewrite (M_bind_ok _ _ w2 (next_id (desk_at w)) w2) by done. rewrite (M_bind_ok _ _ w2 tt w2 Hv).
  rewrite (M_bind_ok _ _ w2 (clock_a (aw_ticks w2)) w3) by done. change (default _ (as_str _)) with (aw_title a). fold s.
  rewrite (M_bind_ok _ _ w3 tt _ Es). exists r, s.
  pose proof (claim_ok iter_order values g true (aw_issue_id a) (desk_at w) Hd (conj (proj1 (proj2 (rd_desk _ _ _ R))) Hf)) as Hok.
  rewrite Ec in Hok. by eexists.
Qed.

Abbreviation agent_reset := (reset deliver parse_config parse_state).
Abbreviation agent_close := (close_issue_as_resolved deliver parse_config parse_state parse_json).

(** What an agent at work reads, and what clearing its state leaves. *)
Lemma at_work_reads dir cfg s w0 w :
  ready dir cfg w0 -> at_work dir cfg s w0 w ->
  load_config parse_config dir (disk_of w) = Ok cfg /\ load_state parse_state dir (disk_of w) = Ok s /\
  (forall d, clear_state dir (arrived_at d w) = (Ok tt, set_disk (disk_of w0) (arrived_at d w))).
Proof using state_back.
  intros R K. rewrite (wk_disk _ _ _ _ _ K). split; [|split].
  - rewrite <-(rd_config _ _ _ R). unfold load_config, read_text. rewrite lookup_insert_ne; [done|]. apply not_eq_sym, config_state.
  - by apply load_saved.
  - intros d. unfold clear_state. change (disk_of (arrived_at d w)) with (disk_of w). rewrite (wk_disk _ _ _ _ _ K).
    unfold path_exists. rewrite lookup_insert_eq. simpl. destruct (no_state _ _ (rd_new _ _ _ R)) as [Hn _].
    by rewrite delete_insert_id.
Qed.

Abbreviation offered_in := (offered iter_order values g).

(** The blockers and the scope of an issue after a claim and a release. *)
Lemma offered_again u x d d1 d2 :
  offered_in d u -> (exists r, claimed u r d d1) -> reopened u x d1 d2 -> offered_in d2 u.
Proof using values_are.
  clear server_plain. intros [(r & Hr & Ho & Hc) Hb] [r' C] Re. destruct (cd_issues _ _ _ _ C) as [t1 Hi1]. destruct (re_info _ _ _ _ Re) as [t2 Hi2].
  assert (Hinfo : forall b, info_of b d2 = if decide (b = u)
    then with_issue_update (status_update Open None) t2 <$> (with_issue_update (status_update InProgress None) t1 <$> info_of b d) else info_of b d).
  { intros b. unfold info_of. rewrite Hi2, find_by_update, Hi1, find_by_update by done. by destruct (decide (b = u)). }
  assert (Hst : forall b, status_of d2 b = status_of d b).
  { intros b. rewrite (re_status _ _ _ _ Re), (claimed_status _ _ _ _ b C). case_decide as Hbu; [by subst|done]. }
  split.
  - eexists. split; [rewrite Hinfo, decide_True, Hr by done; reflexivity|]. split; [by rewrite Hst|].
    intros s Hs Hov. apply (Hc s); [|exact Hov]. unfold scopes in *. rewrite (re_engine _ _ _ _ Re), (cd_engine _ _ _ _ C) in Hs.
    apply values_are in Hs as [w Hw%lookup_delete_Some]. apply values_are. exists w. apply Hw.
  - intros (b & Hl & [y Hy] & Hs). apply Hb. exists b. rewrite <-!Hst. split; [|split; [|exact Hs]].
    + by rewrite <-(cd_links _ _ _ _ C), <-(re_links _ _ _ _ Re).
    + rewrite Hinfo in Hy. case_decide; [|by eexists]. by destruct (info_of b d); [eexists|].
Qed.

(** C5. A claim that is given up leaves no trace of the agent. Over a network that delivers,
    an agent without state takes the first entry of the queue, and its workspace is the only
    one at work on the issue, which the queue then does not offer; after [reset] the disk is
    as it was before the claim, no workspace is at work on the issue and the queue offers
    it again. *)
Theorem reset_returns_work dir cfg w a rest :
  ready dir cfg w -> available_in (desk_at w) = a :: rest ->
  exists s w1 res w2,
    agent_claim dir None None w = (Ok (ClClaimed s), w1) /\ as_issue_id s = aw_issue_id a /\
    ws_id <$> holders (desk_at w1) (aw_issue_id a) = [as_workspace_id s] /\ ~ offered_in (desk_at w1) (aw_issue_id a) /\
    agent_reset dir w1 = (Ok res, w2) /\ disk_of w2 = disk_of w /\
    holders (desk_at w2) (aw_issue_id a) = [] /\ offered_in (desk_at w2) (aw_issue_id a).
Proof using scan_perm json_back state_back values_are server_plain parse_uuid_plain.
  intros R Ha. destruct (claim_runs _ _ _ _ _ R Ha) as (r & s & w1 & Ec & K & Hi & Hw & Hcl & C & Hd1).
  destruct (rd_desk _ _ _ R) as [Hd Hf]. set (u := aw_issue_id a) in *.
  assert (Hst : status_of (desk_at w1) u = InProgress) by (rewrite (claimed_status _ _ _ _ _ C); by apply decide_True).
  pose proof (claim_holds u r _ _ Hd (proj1 (proj2 Hcl)) C) as Hh.
  assert (Hof : offered_in (desk_at w) u).
  { apply (shown_available_iff scan collate pg_lower iter_order values g scan_perm); [apply do_issues, Hd|]. rewrite Ha. by left. }
  destruct (holders (desk_at w1) u) as [|x []] eqn:Eh; try discriminate Hh. injection Hh as Hx.
  destruct (discard_runs (as_workspace_id s) (desk_at w1) x u Hd1) as (d2 & Ed & Re); [rewrite Eh; by left|rewrite Hw, Hx; apply (rd_ids _ _ _ R); by right|done|].
  destruct (at_work_reads _ _ _ _ _ R K) as (Lc & Ls & Hclr). exists s, w1, (mkReset (as_issue_id s) (as_issue_title s) (as_workspace_id s)).
  exists (set_disk (disk_of w) (arrived_at d2 w1)). split; [exact Ec|]. split; [done|]. split; [by rewrite Eh, Hw, <-Hx|].
  split; [intros [(r2 & _ & Ho & _) _]; by rewrite Hst in Ho|]. split; [|split; [done|split; [apply (re_holders _ _ _ _ Re)|]]].
  - unfold reset. rewrite (M_bind_ok _ _ w1 s w1) by (unfold reading; by rewrite Ls).
    rewrite (M_bind_ok _ _ w1 cfg w1) by (unfold reading; by rewrite Lc).
    rewrite (M_bind_ok _ _ w1 (resolve_api_key (aw_env w1)) w1) by done. cbv zeta.
    rewrite (proj1 (rd_names _ _ _ R)), (proj2 (rd_names _ _ _ R)).
    rewrite (M_bind_ok _ _ w1 (mkReply 204 [] None) (arrived_at d2 w1)).
    + change (is_success _) with true. cbv iota. by rewrite (M_bind_ok _ _ _ tt _ (Hclr d2)).
    + unfold unreachable. rewrite (send_delivered _ d2 (mkReply 204 [] None)); [done|apply (wk_net _ _ _ _ _ K)|].
      unfold handle_call, route. cbn [hc_method hc_url hc_auth hc_body]. fold (url_of server (repo_path repo ("/workspaces/" +:+ as_workspace_id s))).
      change (trim_end_matches "/" server +:+ "/" +:+ repo_path repo ("/workspaces/" +:+ as_workspace_id s)) with
        (url_of server (repo_path repo ("/workspaces/" +:+ as_workspace_id s))).
      rewrite route_path, (wk_env _ _ _ _ _ K), (proj2 (rd_key _ _ _ R)). cbn [mbind option_bind]. rewrite strip_prefix_app. cbn [mbind option_bind].
      rewrite (parse_uuid_plain (as_workspace_id s)) by (rewrite Hw; apply (rd_ids _ _ _ R); by right). simpl. by rewrite Ed.
  - apply (offered_again u (ws_id x) (desk_at w) (desk_at w1) d2 Hof); [by exists r|exact Re].
Qed.

Lemma length_string_app x y : String.length (x +:+ y) = String.length x + String.length y.
Proof using. induction x as [|c x IH]; [done|]. rewrite string_app_cons. simpl. by rewrite IH. Qed.

Lemma strip_suffix_app suf x : strip_suffix suf (x +:+ suf) = Some x.
Proof using.
  induction x as [|c x IH].
  - rewrite string_app_nil. destruct suf; simpl; [done|]. by rewrite Ascii.eqb_refl, String.eqb_refl.
  - rewrite string_app_cons. cbn [strip_suffix]. rewrite IH. destruct (String.eqb (String c (x +:+ suf)) suf) eqn:E; [|done].
    apply String.eqb_eq in E. exfalso. assert (Hl : String.length (String c (x +:+ suf)) = String.length suf) by by rewrite E.
    simpl in Hl. rewrite length_string_app in Hl. lia.
Qed.

(** An agent that closes its issue as resolved is done with it: the disk is as it was
    before the claim, the issue is closed, no workspace is at work on it and the queue does
    not offer it again, which giving the claim up would do. *)
Theorem close_settles_work dir cfg w a rest :
  ready dir cfg w -> available_in (desk_at w) = a :: rest ->
  exists s w1 w2,
    agent_claim dir None None w = (Ok (ClClaimed s), w1) /\ as_issue_id s = aw_issue_id a /\
    agent_close dir w1 = (Ok (as_issue_id s, as_issue_title s), w2) /\ disk_of w2 = disk_of w /\
    status_of (desk_at w2) (aw_issue_id a) = Closed /\ holders (desk_at w2) (aw_issue_id a) = [] /\
    ~ offered_in (desk_at w2) (aw_issue_id a).
Proof using scan_perm json_back state_back server_plain parse_uuid_plain.
  intros R Ha. destruct (claim_runs _ _ _ _ _ R Ha) as (r & s & w1 & Ec & K & Hi & Hw & Hcl & C & Hd1).
  set (u := aw_issue_id a) in *. pose proof (rd_ids _ _ _ R u (or_introl (ex_intro _ r (proj1 Hcl)))) as Hp.
  assert (Hr1 : is_Some (info_of u (desk_at w1))).
  { destruct (cd_issues _ _ _ _ C) as [t Ht]. unfold info_of. rewrite Ht, find_by_update, decide_True by done.
    destruct Hcl as [Hr _]. unfold info_of in Hr. rewrite Hr. by eexists. }
  destruct Hr1 as [r1 Hr1]. destruct (close_runs scan scan_perm u "resolved" (desk_at w1) u r1 Hp Hr1) as (reply & d2 & Ed & Hh & Hst & _).
  destruct (at_work_reads _ _ _ _ _ R K) as (Lc & Ls & Hclr). exists s, w1, (set_disk (disk_of w) (arrived_at d2 w1)).
  split; [exact Ec|]. split; [done|]. assert (Hs2 : status_of d2 u = Closed) by (rewrite Hst; by apply decide_True).
  split; [|split; [done|split; [exact Hs2|split; [exact Hh|intros [(r2 & _ & Ho & _) _]; change (status_of d2 u = Open) in Ho; congruence]]]].
  unfold close_issue_as_resolved. rewrite (M_bind_ok _ _ w1 cfg w1) by (unfold reading; by rewrite Lc).
  rewrite (M_bind_ok _ _ w1 s w1) by (unfold reading; by rewrite Ls).
  rewrite (M_bind_ok _ _ w1 (resolve_api_key (aw_env w1)) w1), (proj1 (rd_names _ _ _ R)), (proj2 (rd_names _ _ _ R)) by done.
  rewrite (M_bind_ok _ _ w1 (JObj []) (arrived_at d2 w1)).
  - by rewrite (M_bind_ok _ _ _ tt _ (Hclr d2)).
  - apply (post_delivered _ _ _ _ d2 (mkReply 200 (print_json (JObj [])) None)); [apply (wk_net _ _ _ _ _ K)| |done|apply json_back].
    unfold handle_call, route, close_path. cbn [hc_method hc_url hc_auth hc_body].
    rewrite route_path, (wk_env _ _ _ _ _ K), (proj2 (rd_key _ _ _ R)). cbn [mbind option_bind].
    replace (String.eqb ("/issues/" +:+ as_issue_id s +:+ "/close") "/work-queue/claim") with false by done.
    rewrite strip_prefix_app. cbn [mbind option_bind]. rewrite strip_suffix_app, Hi. cbn [mbind option_bind].
    rewrite (parse_uuid_plain _ _ Hp). simpl. by rewrite Ed.
Qed.

(** ** The issue that the agent sees *)

Definition comment_view (c : CommentResponse) : option AgComment :=
  (fun b => mkAgComment (c_author (cr_comment c)) b (rfc3339 (c_created_at (cr_comment c)))) <$> c_body (cr_comment c).
Definition link_seen (l : IssueLinkDetail) : AgLink :=
  mkAgLink (other_issue_id l) (relationship l) (ld_title l) (status_as_str (ld_status l)).
Definition issue_view (d : IssueDetailResponse) : option AgIssue :=
  let i := ir_issue (id_issue d) in
  mkAgIssue (i_id i) (i_title i) (i_description i) (status_as_str (i_status i)) (priority_as_str (i_priority i)) (i_labels i)
    (i_creator i) (i_resolution i) (i_acceptance_criteria i) (rfc3339 (i_created_at i)) (rfc3339 (i_updated_at i))
    (link_seen <$> id_links d) <$> mapM comment_view (id_comments d).

Lemma mapM_read {A B} (print : A -> Json) (read : Json -> option B) (view : A -> option B) l :
  (forall x, read (print x) = view x) -> mapM read (print <$> l) = mapM view l.
Proof using. intros Hr. induction l as [|x l IH]; [done|]. csimpl. rewrite Hr. destruct (view x) as [b|]; [|done].
  exact (f_equal (fun o => k ← o; Some (b :: k)) IH).
Qed.

Lemma mapM_all {A B} (f : A -> B) l : mapM (fun x => Some (f x)) l = Some (f <$> l).
Proof using. induction l as [|x l IH]; [done|]. exact (f_equal (fun o => k ← o; Some (f x :: k)) IH). Qed.

Lemma read_strings l : as_array (strings_json l) ≫= mapM as_str = Some l.
Proof using.
  change (mapM as_str (JStr <$> l) = Some l). rewrite (mapM_read JStr as_str (fun x => Some x)) by done.
  by rewrite (mapM_all (fun x => x)), list_fmap_id.
Qed.

Lemma read_comment_json c : read_comment (comment_json c) = comment_view c.
Proof using. unfold comment_view. destruct c as [k l]. simpl. unfold read_comment, comment_json. simpl. by destruct (c_body k). Qed.

Lemma read_issue_json d : read_issue (issue_json d) = issue_view d.
Proof using.
  unfold issue_view. assert (Hl : mapM read_link (link_json <$> id_links d) = Some (link_seen <$> id_links d)).
  { rewrite (mapM_read link_json read_link (fun x => Some (link_seen x))) by done. apply mapM_all. }
  assert (Hc : mapM read_comment (comment_json <$> id_comments d) = mapM comment_view (id_comments d)) by apply mapM_read, read_comment_json.
  set (i := ir_issue (id_issue d)).
  trans (l ← as_array (strings_json (i_labels i)) ≫= mapM as_str; ac ← as_array (strings_json (i_acceptance_criteria i)) ≫= mapM as_str;
         ls ← mapM read_link (link_json <$> id_links d); cs ← mapM read_comment (comment_json <$> id_comments d);
         Some (mkAgIssue (i_id i) (i_title i) (i_description i) (status_as_str (i_status i)) (priority_as_str (i_priority i)) l
           (i_creator i) (i_resolution i) ac (rfc3339 (i_created_at i)) (rfc3339 (i_updated_at i)) ls cs)).
  - unfold issue_json. fold i. destruct (possible_duplicate_of _), (i_resolution i); reflexivity.
  - rewrite !read_strings, Hl, Hc. cbn [mbind option_bind]. by destruct (mapM _ _).
Qed.

Lemma get_issue_idle ok id d : (get_issue_handler scan ok id d).2 = d /\ (get_issue_handler scan ok id d).1 <> Panic.
Proof using.
  unfold get_issue_handler, mbind, M_bind, check_access, on_repo, parse_id, stored, get_issue. destruct ok; [|by destruct d].
  simpl. replace (set_repo (dk_repo d) d) with d by by destruct d. destruct (parse_uuid id); [|done]. simpl. by destruct (info_of _ d).
Qed.

(** The issue that an agent reads is the issue that the server holds. Over a network
    that delivers, [fetch_issue] answers with the fields of the server's reply, its links
    and its comments, and changes nothing; it fails when the server refuses, and when one
    of the last fifty comments has no body, which the server's type allows and the agent's
    does not. *)
Theorem fetched_issue dir cfg s w :
  load_config parse_config dir (disk_of w) = Ok cfg -> load_state parse_state dir (disk_of w) = Ok s ->
  ac_server cfg = server -> ac_repo cfg = repo -> segment (as_issue_id s) = Some (as_issue_id s) ->
  may_read (bearer (resolve_api_key (aw_env w))) = true -> nt_fates (net_of w) = [] ->
  fetch_issue deliver parse_config parse_state parse_json dir w =
  (match (get_issue_handler scan true (as_issue_id s) (desk_at w)).1 with
   | Ok reply => from_option Ok (Err AgOther) (issue_view reply)
   | _ => Err AgOther
   end, w).
Proof using json_back server_plain.
  intros Lc Ls Hs Hr Hseg Hk Hn. unfold fetch_issue. rewrite (M_bind_ok _ _ w cfg w) by (unfold reading; by rewrite Lc).
  rewrite (M_bind_ok _ _ w s w) by (unfold reading; by rewrite Ls). rewrite (M_bind_ok _ _ w (resolve_api_key (aw_env w)) w), Hs, Hr by done.
  set (key := resolve_api_key (aw_env w)) in *. set (url := url_of server (repo_path repo ("/issues/" +:+ as_issue_id s))).
  destruct (get_issue_idle true (as_issue_id s) (desk_at w)) as [Hidle Hpanic].
  assert (Hc : handle_call (mkCall GET url (bearer key) None) (desk_at w) =
    (reply_of 200 (fun i => print_json (issue_json i)) (get_issue_handler scan true (as_issue_id s) (desk_at w)).1, desk_at w)).
  { unfold handle_call, route. cbn [hc_method hc_url hc_auth hc_body]. subst url. rewrite route_path. cbn [mbind option_bind].
    replace (String.eqb ("/issues/" +:+ as_issue_id s) "/work-queue") with false by done. rewrite strip_prefix_app. cbn [mbind option_bind].
    rewrite Hseg. simpl. rewrite Hk. destruct (get_issue_handler scan true (as_issue_id s) (desk_at w)); simpl in *. by subst. }
  assert (Hw : arrived_at (desk_at w) w = w).
  { unfold arrived_at, desk_at, net_of in *. destruct w as [[v f [dk ft] iss h] e t sl ra]. simpl in *. by subst. }
  destruct (get_issue_handler scan true (as_issue_id s) (desk_at w)).1 as [reply|e|] eqn:Eo; [| |done].
  - rewrite (M_bind_ok _ _ w (issue_json reply) w).
    + rewrite read_issue_json. by destruct (issue_view reply).
    + rewrite <-Hw at 2.
      exact (get_delivered server (repo_path repo ("/issues/" +:+ as_issue_id s)) key (desk_at w)
               (mkReply 200 (print_json (issue_json reply)) None) (issue_json reply) w Hn Hc eq_refl (json_back _)).
  - unfold agent_get, mbind, M_bind, unreachable, send_with_retry. fold url. cbn [send_go].
    rewrite (send_delivered _ _ _ _ Hn Hc). simpl. unfold json_reply. rewrite Hw. by destruct e.
Qed.
End network.
