(* ===== verification/AgentExamples.v ===== *)
(** Concrete formats, disks and servers on which the theorems about the agent apply, and
    computations of what happens when the reply to a claim is lost, when a command cannot
    be started, and when an agent is configured by its environment only. *)
From S2P Require Import Prelude Table RustStr Graph EventLog MergeEngine MergeFs VaiDir Workspace Submit Conflict Issue WorkQueue Pagination ServerRepo ServerPull Auth AuthServer AuthProps IssuePg IssueServer QueueServer DeskSystem DeskProps.
From S2P Require Import ScopeHistory ScopeInference FileWorkspace HttpAdapter Agent AgentProps AgentSystem.

(** ** Formats *)

Lemma digits_utf8 p : from_utf8 (bytes_of (digits_of p)) = Some (digits_of p).
Proof.
  unfold from_utf8. assert (Hv : forall n, utf8_valid_go n (bytes_of (digits_of p)) = true).
  { induction p as [p IH|p IH|]; intros [|n]; try done; simpl; apply IH. }
  by rewrite Hv, string_of_bytes_of.
Qed.

(** The state as the digits of its code. *)
Definition phase_code (p : AgentPhase) : nat := match p with Claimed => 0 | Downloaded => 1 | Verified => 2 | Submitted => 3 end.
Definition code_phase (n : nat) : AgentPhase := match n with 0 => Claimed | 1 => Downloaded | 2 => Verified | _ => Submitted end.
Definition state_tuple (s : AgentState) := (as_issue_id s, as_issue_title s, as_workspace_id s, phase_code (phase s), claimed_at s).
Definition tuple_state (t : string * string * string * nat * Z) : AgentState :=
  let '(i, n, w, p, c) := t in mkAgentState i n w (code_phase p) c.
Definition ex_print_state (s : AgentState) : string := digits_of (encode (state_tuple s)).
Definition ex_parse_state (t : string) : option AgentState := tuple_state <$> (of_digits t ≫= decode).

Lemma ex_state_back s : from_utf8 (bytes_of (ex_print_state s)) = Some (ex_print_state s) /\ ex_parse_state (ex_print_state s) = Some s.
Proof.
  split; [apply digits_utf8|]. unfold ex_parse_state, ex_print_state. rewrite of_digits_of. cbn [mbind option_bind].
  rewrite decode_encode. by destruct s as [? ? ? []].
Qed.

(** A value as a tree. *)
Abbreviation tree := (gen_tree (string + (Z + bool))).
Fixpoint tree_of (j : Json) : tree :=
  match j with
  | JNull => GenNode 0 []
  | JBool b => GenLeaf (inr (inr b))
  | JNum n => GenLeaf (inr (inl n))
  | JStr s => GenLeaf (inl s)
  | JArr l => GenNode 1 (map tree_of l)
  | JObj fs => GenNode 2 (map (fun f => match f with (k, v) => GenNode 3 [GenLeaf (inl k); tree_of v] end) fs)
  end.
Fixpoint of_tree (t : tree) : Json :=
  match t with
  | GenLeaf (inl s) => JStr s
  | GenLeaf (inr (inl n)) => JNum n
  | GenLeaf (inr (inr b)) => JBool b
  | GenNode 1 l => JArr (map of_tree l)
  | GenNode 2 l => JObj (map (fun t => match t with GenNode _ [GenLeaf (inl k); v] => (k, of_tree v) | _ => (EmptyString, JNull) end) l)
  | GenNode _ _ => JNull
  end.

Fixpoint tree_back (j : Json) : of_tree (tree_of j) = j.
Proof.
  destruct j as [|b|n|s|l|fs]; [done..| |]; simpl; f_equal.
  - induction l as [|x l IH]; simpl; [done|]. by rewrite tree_back, IH.
  - induction fs as [|[k v] fs IH]; simpl; [done|]. by rewrite tree_back, IH.
Qed.

Definition ex_print_json (j : Json) : bytes := bytes_of (digits_of (encode (tree_of j))).
Definition ex_parse_json (b : bytes) : option Json := of_tree <$> (of_digits (string_of b) ≫= decode).

Lemma ex_json_back j : ex_parse_json (ex_print_json j) = Some j.
Proof.
  unfold ex_parse_json, ex_print_json. rewrite string_of_bytes_of, of_digits_of. cbn [mbind option_bind]. rewrite decode_encode.
  simpl. by rewrite tree_back.
Qed.

(** ** An agent and a machine *)

Definition ex_config : AgentConfig := mkAgentConfig "http://s" "r" None None None None.
Definition ex_parse_config (t : string) : option AgentConfig := Some ex_config.
Definition ex_env : AgentEnv := mkEnv None None (Some "k"%string) None.
Definition ex_disk : Disk := {["d/.vai/agent.toml" := bytes_of "server"]}.
Definition ex_world {R} (d : Disk) (r : R) : AgentWorld R := mkWorld (mkFwWorld (HttpAdapter.wit_vai "v1") d r None None) ex_env 0 [] [].
Definition ex_state : AgentState := mkAgentState "w0" "Fix" "w1" Claimed 7.
Definition ex_state_disk : Disk := <["d/.vai/agent-state.json" := bytes_of (ex_print_state ex_state)]> ex_disk.

#[local] Existing Instances desk_env ascii_unicode.

(** A server that answers every call with the same reply. *)
Definition answers (r : HttpReply) (c : HttpCall) (u : unit) : outcome SendError HttpReply * unit := (Ok r, u).

Definition ex_sh (h : list (string * string)) (dir c : string) : option Output :=
  if String.eqb c "absent" then None else Some (mkOutput (Some (if String.eqb c "lint" then 1 else 0)%Z) "" "").

Lemma verify_spec_witness :
  verify (R:=unit) ex_parse_config
    (fun _ => Some (mkProject (Some (mkProjectAgent None ["make"] ["test"; "lint"] ["absent"; "clean"] None))))
    ex_sh "d" "work"
    (ex_world (<["d/vai.toml" := bytes_of "agent"]> ex_disk) tt) =
  (Ok (mkVerify [mkCheck "test" "" "" 0 true; mkCheck "lint" "" "" 1 false] false false),
   has_run "work" ["make"; "test"; "lint"; "clean"] (ex_world (<["d/vai.toml" := bytes_of "agent"]> ex_disk) tt)).
Proof.
  etransitivity; [apply (verify_spec ex_parse_config _ "work" ex_sh "d" _ (mkChecks ["make"] ["test"; "lint"] ["absent"; "clean"]) [] false)|].
  - vm_compute. reflexivity.
  - discriminate.
  - vm_compute. reflexivity.
Defined.

(** An archive of one file, and a server that declares one. *)
Definition ex_unpack (b : bytes) : option (list (option TarEntry)) := Some [Some (mkEntry Regular "./src/a" b)].
Definition ex_download (n : nat) : M (AgentWorld unit) AgentError DownloadResult :=
  download (answers (mkReply 200 (bytes_of "x") (Some n))) ex_parse_config ex_parse_state ex_print_state (join ",") ex_unpack elements
    "d" "t".

Lemma download_complete_witness :
  exists r w', ex_download 1 (ex_world ex_state_disk tt) = (Ok r, w') /\ dr_file_count r = 1 /\ disk_of w' !! "t/src/a"%string = Some (bytes_of "x") /\
    load_state ex_parse_state "d" (disk_of w') = Ok (downloaded ex_state).
Proof.
  pose proof (download_complete (answers (mkReply 200 (bytes_of "x") (Some 1))) ex_parse_config ex_parse_state ex_print_state (join ",")
    ex_unpack elements "d" "t" ex_state_back (fun X => Permutation_refl _) ltac:(done) ltac:(done) (ex_world ex_state_disk tt)) as Hd.
  fold (ex_download 1) in Hd.
  assert (E : (ex_download 1 (ex_world ex_state_disk tt)).1 = Ok (mkDownload 1 "t" None)) by (vm_compute; reflexivity).
  destruct (ex_download 1 (ex_world ex_state_disk tt)) as [o w']. simpl in E. subst o.
  destruct Hd as (config & s & _ & Hs & n & r0 & reply & es & Ht & Hu & _ & _ & Hh & _ & Hl & _).
  assert (Hes : es = [mkEntry Regular "./src/a" (bytes_of "x")]).
  { inversion Ht as [? ? ? Hr|? ? ? ? ? Hr]; [|discriminate Hr]. injection Hr as <-. assert (Hs1 : Some <$> [mkEntry Regular "./src/a" (bytes_of "x")] = Some <$> es) by exact (f_equal (default []) Hu).
    symmetry. exact (inj (fmap Some) _ _ Hs1). }
  subst es. replace s with ex_state in * by (cut (Ok (E:=AgentError) ex_state = Ok s); [congruence|rewrite <-Hs; vm_compute; reflexivity]).
  exists (mkDownload 1 "t" None), w'. split_and!; [done|done| |exact Hl]. exact (Hh "src/a"%string).
Defined.

(** Three archives with fewer files than the server declares: nothing is left of them. *)
Lemma short_download_refused :
  let r := ex_download 2 (ex_world ex_state_disk tt) in
  r.1 = Err (AgPartialDownload 1 2) /\ disk_of r.2 = ex_state_disk /\ aw_slept r.2 = [1000; 2000]%Z.
Proof. split_and!; vm_compute; reflexivity. Qed.

Definition ex_queue : Json := JObj [("available_work", JArr [JObj [("issue_id", JStr "w0"); ("title", JStr "Fix")]])]%string.
Definition ex_claimed : Json := JObj [("workspace_id", JStr "w1")]%string.
Definition ex_send (c : HttpCall) (u : unit) : outcome SendError HttpReply * unit :=
  (Ok (mkReply 200 (ex_print_json match hc_method c with GET => ex_queue | _ => ex_claimed end) None), u).
Definition ex_claim (d : Disk) : outcome AgentError ClaimOutcome * AgentWorld unit :=
  claim (fun n => Z.of_nat n) ex_send ex_parse_config ex_parse_state ex_print_state ex_parse_json "d" None None (ex_world d tt).

Lemma claim_resumes_witness :
  exists s w', ex_claim ex_disk = (Ok (ClClaimed s), w') /\ as_workspace_id s = "w1"%string /\ load_state ex_parse_state "d" (disk_of w') = Ok s.
Proof.
  pose proof (claim_resumes (fun n => Z.of_nat n) ex_send ex_parse_config ex_parse_state ex_print_state ex_parse_json ex_state_back
    "d" None None (ex_world ex_disk tt)) as Hc.
  fold (ex_claim ex_disk) in Hc. assert (E : (ex_claim ex_disk).1 = Ok (ClClaimed (mkAgentState "w0" "Fix" "w1" Claimed 0))) by (vm_compute; reflexivity).
  destruct (ex_claim ex_disk) as [o w']. simpl in E. subst o. destruct Hc as (_ & _ & _ & Hl & _).
  exists (mkAgentState "w0" "Fix" "w1" Claimed 0), w'. by split_and!.
Defined.

(** ** An agent and a server with one issue *)

Lemma ex_uuid_plain id u : parse_uuid id = Some u -> segment u = Some u.
Proof.
  cbn [parse_uuid desk_env]. unfold wit_parse_uuid, segment. destruct (has_char "/" id) eqn:Hs; [done|]. case_bool_decide; [|done].
  destruct (String.eqb id "") eqn:E; [done|]. intros [= <-]. by rewrite Hs, E.
Qed.

Lemma ex_values_are e s : s ∈ ex_values e <-> exists w, e !! w = Some s.
Proof.
  unfold ex_values. rewrite list_elem_of_fmap. split.
  - intros ([w x] & -> & Hw%elem_of_map_to_list). by exists w.
  - intros [w Hw]. exists (w, s). split; [done|]. by apply elem_of_map_to_list.
Qed.

Lemma one_issue_ok : desk_ok one_issue.
Proof.
  apply (requests_ok (fun _ l => l) String.compare (fun s => s) String.eqb wit_decode (fun _ => None)
    (mkAuthDb [] [] [] [] [] ∅ [] [] [] [] [] ∅ 0 0) "repo" elements ex_values ex_graph string_of wit_unpack wit_manifest wit_dir
    wit_parser wit_parser empty_desk one_issue); [|apply empty_desk_ok].
  apply rtc_once, (Request _ _ _ _ _ _ _ _ _ _ _ _ _ _ _ _ _ empty_desk true (DqCreateIssue ex_issue)); [|done].
  split; [done|apply not_elem_of_nil].
Qed.

Definition ex_deliver : HttpCall -> Net -> outcome SendError HttpReply * Net :=
  deliver (fun _ l => l) String.compare (fun s => s) elements ex_values ex_graph (fun _ => true) (fun _ => true) ex_print_json
    (fun _ => JNull) (fun _ => JNull) (fun _ => "t"%string) "http://s" "r".
Definition ex_net (fates : list Fate) : AgentWorld Net := ex_world ex_disk (mkNet one_issue fates).

Lemma one_issue_shown :
  shown_available (fun _ l => l) String.compare (fun s => s) elements ex_values ex_graph one_issue = [ex_available].
Proof. vm_compute. reflexivity. Qed.

Lemma one_issue_ids : ii_id <$> dk_issues one_issue = ["w0"%string].
Proof. vm_compute. reflexivity. Qed.

Lemma one_issue_rows : rows one_issue = [].
Proof. vm_compute. reflexivity. Qed.

Lemma one_issue_fresh : fresh one_issue.
Proof. split; [vm_compute; reflexivity|]. rewrite one_issue_rows. apply not_elem_of_nil. Qed.

Lemma one_issue_known u : is_Some (info_of u one_issue) \/ u = next_id one_issue -> wit_parse_uuid u = Some u.
Proof.
  intros [Hu| ->]; [|vm_compute; reflexivity]. apply info_is_Some in Hu. rewrite one_issue_ids in Hu.
  apply list_elem_of_singleton in Hu as ->. reflexivity.
Qed.

Lemma ready_with d :
  desk_ok d -> fresh d -> (forall u, is_Some (info_of u d) \/ u = next_id d -> wit_parse_uuid u = Some u) ->
  ready (fun _ => true) (fun _ => true) "http://s" "r" ex_parse_config ex_parse_state "d" ex_config (ex_world ex_disk (mkNet d [])).
Proof. intros Hd Hf Hu. by constructor. Qed.

Lemma ex_ready :
  ready (fun _ => true) (fun _ => true) "http://s" "r" ex_parse_config ex_parse_state "d" ex_config (ex_net []).
Proof. exact (ready_with one_issue one_issue_ok one_issue_fresh one_issue_known). Qed.

Abbreviation ex_reset := (reset ex_deliver ex_parse_config ex_parse_state).
Definition ex_claim_over (w : AgentWorld Net) : outcome AgentError ClaimOutcome * AgentWorld Net :=
  claim (fun n => Z.of_nat n) ex_deliver ex_parse_config ex_parse_state ex_print_state ex_parse_json "d" None None w.

Lemma reset_returns_work_witness :
  exists s w1 res w2, ex_claim_over (ex_net []) = (Ok (ClClaimed s), w1) /\ ws_id <$> holders (desk_at w1) "w0" = [as_workspace_id s] /\
    ex_reset "d" w1 = (Ok res, w2) /\ disk_of w2 = ex_disk /\ offered elements ex_values ex_graph (desk_at w2) "w0".
Proof.
  destruct (reset_returns_work (fun _ l => l) String.compare (fun s => s) elements ex_values ex_graph (fun _ => true) (fun _ => true)
    ex_print_json (fun _ => JNull) (fun _ => JNull) (fun _ => "t"%string) "http://s" "r" (fun n => Z.of_nat n) ex_parse_config
    ex_parse_state ex_print_state ex_parse_json (fun _ _ => Permutation_refl _) ex_json_back ex_state_back ex_values_are ex_uuid_plain
    eq_refl "d" ex_config (ex_net []) ex_available [] ex_ready one_issue_shown)
    as (s & w1 & res & w2 & E & _ & Hh & _ & Er & Hd & _ & Ho).
  exists s, w1, res, w2. exact (conj E (conj Hh (conj Er (conj Hd Ho)))).
Defined.

Lemma close_settles_work_witness :
  exists s w1 w2, ex_claim_over (ex_net []) = (Ok (ClClaimed s), w1) /\
    close_issue_as_resolved ex_deliver ex_parse_config ex_parse_state ex_parse_json "d" w1 = (Ok (as_issue_id s, as_issue_title s), w2) /\
    disk_of w2 = ex_disk /\ status_of (desk_at w2) "w0" = Closed.
Proof.
  destruct (close_settles_work (fun _ l => l) String.compare (fun s => s) elements ex_values ex_graph (fun _ => true) (fun _ => true)
    ex_print_json (fun _ => JNull) (fun _ => JNull) (fun _ => "t"%string) "http://s" "r" (fun n => Z.of_nat n) ex_parse_config
    ex_parse_state ex_print_state ex_parse_json (fun _ _ => Permutation_refl _) ex_json_back ex_state_back ex_uuid_plain
    eq_refl "d" ex_config (ex_net []) ex_available [] ex_ready one_issue_shown)
    as (s & w1 & w2 & E & _ & Ec & Hd & Hs & _).
  exists s, w1, w2. exact (conj E (conj Ec (conj Hd Hs))).
Defined.

(** The agent of [ex_state] reads its issue. *)
Definition ex_reading : AgentWorld Net := ex_world ex_state_disk (mkNet one_issue []).

Lemma fetched_issue_witness :
  fetch_issue ex_deliver ex_parse_config ex_parse_state ex_parse_json "d" ex_reading =
  (Ok (mkAgIssue "w0" "Fix the parser" "" "open" "high" [] "alice" None [] "t" "t" [] []), ex_reading).
Proof.
  etransitivity; [apply (fetched_issue (fun _ l => l) String.compare (fun s => s) elements ex_values ex_graph (fun _ => true)
    (fun _ => true) ex_print_json (fun _ => JNull) (fun _ => JNull) (fun _ => "t"%string) "http://s" "r" ex_parse_config ex_parse_state
    ex_parse_json ex_json_back eq_refl "d" ex_config ex_state ex_reading)|]; done.
Defined.

(** ** What a lost reply does *)

(** The reply to the claim is lost: the agent has no state, the issue is in progress with a
    workspace that no agent knows, and the next claim finds no work. *)
Lemma lost_claim_orphans_issue :
  let r := ex_claim_over (ex_net [Delivered; ReplyLost]) in
  r.1 = Err (ServerUnreachable "http://s/api/repos/r/work-queue/claim") /\ disk_of r.2 = ex_disk /\
  status_of (desk_at r.2) "w0" = InProgress /\ ws_id <$> holders (desk_at r.2) "w0" = ["w1"%string] /\
  (ex_claim_over r.2).1 = Ok NoWork.
Proof. split_and!; vm_compute; reflexivity. Qed.

(** An agent that the environment configures claims, and can do nothing else: the other
    commands read the file only. *)
Lemma environment_claims_only :
  let env := mkEnv (Some "http://s") (Some "r") None None in
  let w := mkWorld (mkFwWorld (HttpAdapter.wit_vai "v1") (∅ : Disk) (mkNet one_issue []) None None) env 0 [] [] in
  let r := ex_claim_over w in
  r.1 = Ok (ClClaimed (mkAgentState "w0" "Fix the parser" "w1" Claimed 0)) /\ (ex_reset "d" r.2).1 = Err AgOther.
Proof. split; vm_compute; reflexivity. Qed.

(** A check that cannot be started is an error, and the teardown does not run. *)
Lemma unstartable_check_skips_teardown :
  let w := ex_world (<["d/vai.toml" := bytes_of "agent"]> ex_disk) tt in
  let r := verify (R:=unit) ex_parse_config
    (fun _ => Some (mkProject (Some (mkProjectAgent None ["serve &"] ["test"] ["kill"] None))))
    (fun _ _ c => if String.eqb c "test" then None else Some (mkOutput (Some 0%Z) "" "")) "d" "work" w in
  r.1 = Err AgOther /\ aw_ran r.2 = [("work", "serve &")]%string.
Proof. split; vm_compute; reflexivity. Qed.

(** Submitting opens the metadata directory, which asks for a head that neither [init] nor
    [claim] writes. *)
Lemma submit_without_head {R} clk dr prs send (http : string -> string -> string -> RemoteRepo Disk R) pc ps pj walk rd pr pf sha io sf cf st dir work_dir
    (w : AgentWorld R) config s ws :
  load_config pc dir (disk_of w) = Ok config -> load_state ps dir (disk_of w) = Ok s -> prs (as_workspace_id s) = Some ws ->
  head_file (ww_vai (aw_fw w)) = None ->
  (Agent.submit clk dr prs send http pc ps pj walk rd pr pf sha io sf cf st dir work_dir w).1 = Err AgOther.
Proof.
  intros Hc Hs Hw Hh. unfold Agent.submit, mbind, M_bind, reading. rewrite Hc, Hs. unfold asks, or_fail. rewrite Hw.
  simpl. unfold open_agent_work, mbind, M_bind, asks, in_workspace, FileWorkspace.open, local_head, mbind, M_bind, vai_now, read_head.
  destruct (is_dir _ _); [|done]. cbn [negb]. rewrite Hh. done.
Qed.
