(* ===== verification/GraphServer.v ===== *)
(** The semantic graph of the hosted server: its tables ([src/src/storage/postgres/graph.rs]),
    and the handlers that search it and rebuild it from the files of the project
    ([src/src/server/graph.rs]). *)
From S2P Require Import Prelude Table RustStr Graph ServerRepo.

(** ** Tables *)

(** A line number goes through a column of 32 bits and comes back with 64. *)
Definition as_i32 (n : nat) : Z :=
  let m := (Z.of_nat n mod 2 ^ 32)%Z in if (m <? 2 ^ 31)%Z then m else (m - 2 ^ 32)%Z.
Definition as_usize (z : Z) : nat := Z.to_nat (z mod 2 ^ 64).
Definition stored_line (n : nat) : nat := as_usize (as_i32 n).

(** A text that is no kind reads as a function, or as a call. *)
Definition row_kind (s : string) : EntityKind := default Function (kind_from_str s).
Definition row_rel_kind (s : string) : RelationshipKind := default Calls (rel_kind_from_str s).

(** The row of an entity, as it reads back: without its byte range. *)
Definition row_of_entity (e : Entity) : Entity :=
  mkEntity (e_id e) (row_kind (kind_as_str (e_kind e))) (e_name e) (qualified_name e) (e_file_path e) (0, 0)
    (stored_line (line_range e).1, stored_line (line_range e).2) (parent_entity e).
Definition row_of_relationship (r : Relationship) : Relationship :=
  mkRelationship (r_id r) (row_rel_kind (rel_kind_as_str (r_kind r))) (from_entity r) (to_entity r).

(** [INSERT .. ON CONFLICT DO UPDATE] *)
Definition upsert {A} (key : A -> string) (x : A) (l : list A) : list A :=
  match find_by key (key x) l with Some _ => update_by key (key x) (fun _ => x) l | None => l ++ [x] end.

Definition upsert_entities (es : list Entity) (g : GraphSnapshot) : GraphSnapshot :=
  mkSnapshot (foldl (fun l e => upsert e_id (row_of_entity e) l) (entities g) es) (relationships g).
Definition upsert_relationships (rs : list Relationship) (g : GraphSnapshot) : GraphSnapshot :=
  mkSnapshot (entities g) (foldl (fun l r => upsert r_id (row_of_relationship r) l) (relationships g) rs).

(** The relationships that leave the file go, those that enter it stay. *)
Definition clear_file (file_path : string) (g : GraphSnapshot) : GraphSnapshot :=
  let ids := e_id <$> filter (fun e => e_file_path e = file_path) (entities g) in
  mkSnapshot (filter (fun e => e_file_path e <> file_path) (entities g))
    (filter (fun r => ~ from_entity r ∈ ids) (relationships g)).

Definition get_entity (id : string) (g : GraphSnapshot) : option Entity := find_by e_id id (entities g).

(** ** Replies *)

Record EntitySummary : Type := mkSummary {
  es_id : string; es_kind : string; es_name : string; es_qualified_name : string; es_file : string; es_line_start : nat;
  es_line_end : nat; es_parent : option string
}.
Definition summary (e : Entity) : EntitySummary :=
  mkSummary (e_id e) (kind_as_str (e_kind e)) (e_name e) (qualified_name e) (e_file_path e) (line_range e).1 (line_range e).2
    (parent_entity e).
Record RelationshipSummary : Type := mkRelSummary { rs_id : string; rs_kind : string; rs_from : string; rs_to : string }.
Definition rel_summary (r : Relationship) : RelationshipSummary :=
  mkRelSummary (r_id r) (rel_kind_as_str (r_kind r)) (from_entity r) (to_entity r).

Record GraphEntityFilter : Type := mkGraphFilter { gf_kind : option string; gf_file : option string; gf_name : option string }.
Record BlastRadiusQuery : Type := mkBlastQuery { bq_entities : string; bq_hops : nat }.
Record EntityDetailResponse : Type := mkDetail { ed_entity : EntitySummary; ed_relationships : list RelationshipSummary }.
Record EntityDepsResponse : Type := mkDeps {
  dp_entity_id : string; deps : list EntitySummary; dp_relationships : list RelationshipSummary
}.
Record BlastRadiusResponse : Type := mkBlast {
  seed_entities : list string; br_hops : nat; br_entities : list EntitySummary; br_relationships : list RelationshipSummary
}.
Record ServerGraphRefreshResponse : Type := mkRefresh { files_scanned : nat; rf_entities : nat; rf_relationships : nat }.

Definition GRAPH_PARSEABLE_EXTENSIONS : list string := ["rs"; "ts"; "js"; "tsx"; "jsx"].

(** [Path::extension] *)
Definition path_extension (p : string) : option string :=
  match last (filter (fun c => c <> EmptyString /\ c <> ".") (split_on "/" p)) with
  | Some name =>
      match split_on "." name with
      | [] | [_] => None
      | [EmptyString; _] => None
      | parts => last parts
      end
  | None => None
  end.

(** ** The walk *)

(** The state of a search: the set and the queue, and what it has found. *)
Record Walk : Type := mkWalk {
  wk_visited : gset string; wk_queue : list (string * nat); wk_entities : gmap string Entity; wk_rels : list Relationship
}.

Section walk.
(** The edges of a node, their other end, and the entity of a node. *)
Variable edges : string -> list Relationship.
Variable far : Relationship -> string.
Variable entity : string -> option Entity.

Definition reach_id (hop : nat) (id : string) (w : Walk) : Walk :=
  if decide (id ∈ wk_visited w) then w
  else
    mkWalk ({[id]} ∪ wk_visited w) (wk_queue w ++ [(id, hop)])
      (match entity id with Some e => <[id := e]> (wk_entities w) | None => wk_entities w end) (wk_rels w).

Definition follow (hop : nat) (w : Walk) (r : Relationship) : Walk :=
  reach_id (S hop) (far r) (mkWalk (wk_visited w) (wk_queue w) (wk_entities w) (wk_rels w ++ [r])).

Definition set_queue (q : list (string * nat)) (w : Walk) : Walk := mkWalk (wk_visited w) q (wk_entities w) (wk_rels w).

(** [while let Some((current, hop)) = queue.pop_front()] *)
Fixpoint walk_loop (fuel max_hops : nat) (w : Walk) : Walk :=
  match fuel, wk_queue w with
  | S fuel, (current, hop) :: q =>
      if max_hops <=? hop then walk_loop fuel max_hops (set_queue q w)
      else walk_loop fuel max_hops (foldl (follow hop) (set_queue q w) (edges current))
  | _, _ => w
  end.

Definition walk_from (seeds : list string) : Walk := foldl (fun w id => reach_id 0 id w) (mkWalk ∅ [] ∅ []) seeds.
Definition bfs (fuel max_hops : nat) (seeds : list string) : Walk := walk_loop fuel max_hops (walk_from seeds).
End walk.

Section handlers.
Context {unicode : Unicode}.
(** The order of a scan, of a hash map, and of texts in the database. *)
Variable scan : forall A, list A -> list A.
Variable into_values : gmap string Entity -> list Entity.
Variable collate : string -> string -> comparison.

Definition text_le (a b : string) : bool := match collate a b with Gt => false | _ => true end.

Definition list_entities (file : option string) (g : GraphSnapshot) : list Entity :=
  match file with
  | Some f => sort_by (fun x y => (line_range x).1 <=? (line_range y).1) (scan _ (filter (fun e => e_file_path e = f) (entities g)))
  | None =>
      sort_by (fun x y => if String.eqb (e_file_path x) (e_file_path y) then (line_range x).1 <=? (line_range y).1
                          else text_le (e_file_path x) (e_file_path y)) (scan _ (entities g))
  end.
Definition get_relationships (id : string) (g : GraphSnapshot) : list Relationship :=
  scan _ (filter (fun r => from_entity r = id) (relationships g)).
Definition get_inverse_relationships (id : string) (g : GraphSnapshot) : list Relationship :=
  scan _ (filter (fun r => to_entity r = id) (relationships g)).

(** A node enters the queue once, so the seeds and the relationships bound the iterations. *)
Definition walk_fuel (g : GraphSnapshot) (seeds : list string) : nat := length seeds + length (relationships g).

Definition bfs_forward (g : GraphSnapshot) (seeds : list string) (max_hops : nat) : list Entity * list Relationship :=
  let w := bfs (fun id => get_relationships id g) to_entity (fun id => get_entity id g) (walk_fuel g seeds) max_hops seeds in
  (into_values (wk_entities w), wk_rels w).
Definition bfs_inverse (g : GraphSnapshot) (seeds : list string) (max_hops : nat) : list Entity * list Relationship :=
  let w := bfs (fun id => get_inverse_relationships id g) from_entity (fun id => get_entity id g) (walk_fuel g seeds) max_hops seeds in
  (into_values (wk_entities w), wk_rels w).

(** *** Searching *)

Definition list_graph_entities_handler (allowed : bool) (f : GraphEntityFilter) (g : GraphSnapshot) :
    outcome HttpError (list EntitySummary) :=
  if negb allowed then Err HtForbidden
  else
    let l := list_entities (gf_file f) g in
    let l := match gf_kind f with Some k => filter (fun e => kind_as_str (e_kind e) = k) l | None => l end in
    let l := match gf_name f with
             | Some n => filter (fun e => str_contains (to_lowercase n) (to_lowercase (e_name e)) = true) l
             | None => l
             end in
    Ok (summary <$> l).

(** [dedup_by]: of neighbours with the same id the first stays. *)
Fixpoint dedup_from (x : Relationship) (l : list Relationship) : list Relationship :=
  match l with
  | [] => [x]
  | y :: l' => if String.eqb (r_id x) (r_id y) then dedup_from x l' else x :: dedup_from y l'
  end.
Definition dedup_ids (l : list Relationship) : list Relationship := match l with [] => [] | x :: l' => dedup_from x l' end.

Definition get_graph_entity_handler (allowed : bool) (id : string) (g : GraphSnapshot) : outcome HttpError EntityDetailResponse :=
  if negb allowed then Err HtForbidden
  else
    match get_entity id g with
    | None => Err HtNotFound
    | Some e =>
        let all := get_relationships id g ++ get_inverse_relationships id g in
        Ok (mkDetail (summary e) (rel_summary <$> dedup_ids (sort_by (fun a b => String.leb (r_id a) (r_id b)) all)))
    end.

Definition MAX_DEPS_HOPS : nat := 20.

Definition get_entity_deps_handler (allowed : bool) (id : string) (g : GraphSnapshot) : outcome HttpError EntityDepsResponse :=
  if negb allowed then Err HtForbidden
  else
    match get_entity id g with
    | None => Err HtNotFound
    | Some _ =>
        let '(es, rs) := bfs_forward g [id] MAX_DEPS_HOPS in
        Ok (mkDeps id (summary <$> filter (fun e => e_id e <> id) es) (rel_summary <$> rs))
    end.

Definition seed_ids_of (q : BlastRadiusQuery) : list string :=
  filter (fun s => s <> EmptyString) (trim <$> split_on "," (bq_entities q)).

Definition get_blast_radius_handler (allowed : bool) (q : BlastRadiusQuery) (g : GraphSnapshot) : outcome HttpError BlastRadiusResponse :=
  if negb allowed then Err HtForbidden
  else
    match seed_ids_of q with
    | [] => Err HtBadRequest
    | seeds =>
        let '(es, rs) := bfs_inverse g seeds (bq_hops q) in
        Ok (mkBlast seeds (bq_hops q) (summary <$> es) (rel_summary <$> rs))
    end.

(** *** Rebuilding *)

Variable parse_source_file : string -> bytes -> outcome GraphError (list Entity * list Relationship).
(** The [ignore] list of a configuration that parses, and the order in which a prefix is listed. *)
Variable ignore_of : string -> option (list string).
Variable list_order : gset string -> list string.

(** [VaiToml::default], its [ignore] list. *)
Definition default_ignore : list string :=
  [".vai/"; ".git/"; "target/"; "node_modules/"; "*.o"; "*.class"; ".env"; ".env.local"; ".env.development"; ".env.production";
   ".env.test"; "*.pem"; "*.key"; "id_rsa"; "id_ed25519"].

Definition ignore_patterns (files : gmap string bytes) : list string :=
  match files !! "current/vai.toml"%string with
  | Some b => default default_ignore (ignore_of (from_utf8_lossy b))
  | None => []
  end.

Definition listed_source (ignore : list string) (rel : string) : bool :=
  negb (existsb (fun pat => starts_with pat rel) ignore) &&
  bool_decide (default EmptyString (path_extension rel) ∈ GRAPH_PARSEABLE_EXTENSIONS).

(** One file: its rows are replaced, unless it cannot be read or parsed. *)
Definition refresh_file (files : gmap string bytes) (ignore : list string) (acc : nat * nat * nat) (path : string) (g : GraphSnapshot) :
    outcome HttpError (nat * nat * nat) * GraphSnapshot :=
  let '(scanned, ne, nr) := acc in
  let rel := default path (strip_prefix "current/" path) in
  if negb (listed_source ignore rel) then (Ok acc, g)
  else
    match files !! path with
    | None => (Ok acc, g)
    | Some source =>
        match parse_source_file rel source with
        | Err _ => (Ok acc, g)
        | Panic => (Panic, g)
        | Ok (es, rs) =>
            (Ok (S scanned, ne + length es, nr + length rs), upsert_relationships rs (upsert_entities es (clear_file rel g)))
        end
    end.

Fixpoint refresh_files (files : gmap string bytes) (ignore : list string) (acc : nat * nat * nat) (paths : list string) (g : GraphSnapshot) :
    outcome HttpError (nat * nat * nat) * GraphSnapshot :=
  match paths with
  | [] => (Ok acc, g)
  | p :: paths' =>
      match refresh_file files ignore acc p g with
      | (Ok acc', g') => refresh_files files ignore acc' paths' g'
      | (Err e, g') => (Err e, g')
      | (Panic, g') => (Panic, g')
      end
  end.

Definition refresh_graph_from_files (files : gmap string bytes) : GraphSnapshot -> outcome HttpError (nat * nat * nat) * GraphSnapshot :=
  refresh_files files (ignore_patterns files) (0, 0, 0) (filter (fun p => starts_with "current/" p = true) (list_order (dom files))).

Definition server_graph_refresh_handler (allowed : bool) (files : gmap string bytes) (g : GraphSnapshot) :
    outcome HttpError ServerGraphRefreshResponse * GraphSnapshot :=
  if negb allowed then (Err HtForbidden, g)
  else
    match refresh_graph_from_files files g with
    | (Ok (n, e, r), g') => (Ok (mkRefresh n e r), g')
    | (Err e, g') => (Err e, g')
    | (Panic, g') => (Panic, g')
    end.
End handlers.
