(* ===== verification/GraphServerProps.v ===== *)
(** What the searches of the server's graph find, and what a rebuild of it leaves. *)
From S2P Require Import Prelude Table RustStr Graph ServerRepo GraphServer.

(** ** The walk finds what is within reach *)

Section walk_facts.
Variable edges : string -> list Relationship.
Variable far : Relationship -> string.
Variable entity : string -> option Entity.
Variable seeds : list string.

Definition leads (x y : string) : Prop := exists r, r ∈ edges x /\ far r = y.

(** At most [k] edges away from a seed. *)
Fixpoint within (k : nat) (x : string) : Prop :=
  match k with
  | 0 => x ∈ seeds
  | S k => within k x \/ exists y, within k y /\ leads y x
  end.

Lemma within_le k k' x : k <= k' -> within k x -> within k' x.
Proof using. induction 1; simpl; auto. Qed.

(** The entities that were found are those of the nodes that were visited. *)
Definition found_ok (w : Walk) : Prop :=
  forall id, wk_entities w !! id = if decide (id ∈ wk_visited w) then entity id else None.

Lemma reach_spec hop id w :
  exists new, let w' := reach_id entity hop id w in
    wk_queue w' = wk_queue w ++ ((fun n => (n, hop)) <$> new) /\
    (forall x, x ∈ wk_visited w' <-> x ∈ wk_visited w \/ x = id) /\
    (forall x, x ∈ new <-> x ∈ wk_visited w' /\ x ∉ wk_visited w) /\ NoDup new /\
    wk_rels w' = wk_rels w /\ (found_ok w -> found_ok w').
Proof using.
  clear edges far seeds. unfold reach_id. case_decide as Hid.
  - exists []. rewrite app_nil_r. setoid_rewrite elem_of_nil. split_and!; [done| | |constructor|done|done].
    + intros x. split; [by left|]. by intros [?| ->].
    + intros x. split; [done|]. tauto.
  - exists [id]. simpl. setoid_rewrite list_elem_of_singleton. split_and!; [done|set_solver|set_solver|apply NoDup_singleton|done|].
    intros Hf x. unfold found_ok in Hf. simpl. specialize (Hf x) as Hx. destruct (decide (x = id)) as [->|Hne].
    + rewrite decide_True by set_solver. rewrite decide_False in Hx by done. destruct (entity id); [by rewrite lookup_insert_eq|done].
    + destruct (decide (x ∈ wk_visited w)); [rewrite decide_True by set_solver|rewrite decide_False by set_solver];
        destruct (entity id); rewrite ?lookup_insert_ne by done; exact Hx.
Qed.

Lemma follow_spec hop rs w :
  exists new, let w' := foldl (follow far entity hop) w rs in
    wk_queue w' = wk_queue w ++ ((fun n => (n, S hop)) <$> new) /\
    (forall x, x ∈ wk_visited w' <-> x ∈ wk_visited w \/ exists r, r ∈ rs /\ far r = x) /\
    (forall x, x ∈ new <-> x ∈ wk_visited w' /\ x ∉ wk_visited w) /\ NoDup new /\
    wk_rels w' = wk_rels w ++ rs /\ (found_ok w -> found_ok w').
Proof using.
  clear edges seeds. revert w. induction rs as [|r rs IH]; intros w; cbn [foldl].
  { exists []. simpl. rewrite !app_nil_r. setoid_rewrite elem_of_nil. split_and!; [done|naive_solver|naive_solver|constructor|done|done]. }
  set (w0 := mkWalk (wk_visited w) (wk_queue w) (wk_entities w) (wk_rels w ++ [r])).
  change (follow far entity hop w r) with (reach_id entity (S hop) (far r) w0). destruct (reach_spec (S hop) (far r) w0) as (n1 & Q1 & V1 & N1 & D1 & R1 & F1).
  destruct (IH (reach_id entity (S hop) (far r) w0)) as (n2 & Q2 & V2 & N2 & D2 & R2 & F2). exists (n1 ++ n2). cbv zeta in *. split_and!.
  - rewrite Q2, Q1, fmap_app, app_assoc. done.
  - intros x. rewrite V2, V1. change (wk_visited w0) with (wk_visited w). setoid_rewrite elem_of_cons. naive_solver.
  - intros x. rewrite elem_of_app, N1, N2, V2, V1. change (wk_visited w0) with (wk_visited w).
    destruct (decide (x ∈ wk_visited w)), (decide (x = far r)); naive_solver.
  - apply NoDup_app. split; [done|]. split; [|done]. intros x Hx%N1 [_ Hn]%N2. tauto.
  - rewrite R2, R1. unfold w0. simpl. by rewrite <-app_assoc.
  - intros Hf. by apply F2, F1.
Qed.

Lemma seeds_spec :
  let w := walk_from entity seeds in
  exists new, wk_queue w = (fun n => (n, 0)) <$> new /\ (forall x, x ∈ wk_visited w <-> x ∈ seeds) /\
    (forall x, x ∈ new <-> x ∈ seeds) /\ NoDup new /\ wk_rels w = [] /\ found_ok w.
Proof using.
  clear edges far. assert (Hg : forall w, exists new, let w' := foldl (fun w id => reach_id entity 0 id w) w seeds in
    wk_queue w' = wk_queue w ++ ((fun n => (n, 0)) <$> new) /\ (forall x, x ∈ wk_visited w' <-> x ∈ wk_visited w \/ x ∈ seeds) /\
    (forall x, x ∈ new <-> x ∈ wk_visited w' /\ x ∉ wk_visited w) /\ NoDup new /\ wk_rels w' = wk_rels w /\ (found_ok w -> found_ok w')).
  { induction seeds as [|id ids IH]; intros w; cbn [foldl].
    { exists []. simpl. rewrite !app_nil_r. setoid_rewrite elem_of_nil. split_and!; [done|naive_solver|naive_solver|constructor|done|done]. }
    destruct (reach_spec 0 id w) as (n1 & Q1 & V1 & N1 & D1 & R1 & F1).
    destruct (IH (reach_id entity 0 id w)) as (n2 & Q2 & V2 & N2 & D2 & R2 & F2). exists (n1 ++ n2). cbv zeta in *. split_and!.
    - rewrite Q2, Q1, fmap_app, app_assoc. done.
    - intros x. rewrite V2, V1, elem_of_cons. naive_solver.
    - intros x. rewrite elem_of_app, N1, N2, V2, V1. destruct (decide (x ∈ wk_visited w)), (decide (x = id)); naive_solver.
    - apply NoDup_app. split; [done|]. split; [|done]. intros x Hx%N1 [_ Hn]%N2. tauto.
    - by rewrite R2, R1.
    - intros Hf. by apply F2, F1. }
  unfold walk_from. destruct (Hg (mkWalk ∅ [] ∅ [])) as (new & Q & V & N & D & R & F). exists new. split_and!; [exact Q| | |done|exact R|].
  - intros x. rewrite V. simpl. set_solver.
  - intros x. rewrite N, V. simpl. set_solver.
  - apply F. intros id. simpl. by rewrite decide_False by set_solver.
Qed.

(** *** The loop *)

Variable U : gset string.
Hypothesis seeds_in : forall x, x ∈ seeds -> x ∈ U.
Hypothesis edges_in : forall x y, leads x y -> y ∈ U.
Variable max_hops : nat.

Definition levels (h : nat) (A B : list string) : list (string * nat) := ((fun n => (n, h)) <$> A) ++ ((fun n => (n, S h)) <$> B).

(** The queue holds the nodes [A] at [h] hops and then [B], one hop further; [X] are the
    nodes that were expanded, in order. *)
Record walk_inv (h : nat) (A B X : list string) (w : Walk) : Prop := {
  wi_queue : wk_queue w = levels h A B;
  wi_h : h <= max_hops;
  wi_sound x : x ∈ wk_visited w -> within h x \/ x ∈ B;
  wi_A x : x ∈ A -> within h x;
  wi_B x : x ∈ B -> h < max_hops /\ within (S h) x /\ ~ within h x /\ x ∈ wk_visited w;
  wi_all x : within h x -> x ∈ wk_visited w;
  wi_done x y : h < max_hops -> within h x -> x ∉ A -> leads x y -> y ∈ wk_visited w;
  wi_in : wk_visited w ⊆ U;
  wi_X x : h < max_hops -> x ∈ X <-> within h x /\ x ∉ A;
  wi_end x : h = max_hops -> x ∈ X <-> exists k, k < max_hops /\ within k x;
  wi_NoDup : NoDup A /\ NoDup B /\ NoDup X;
  wi_rels : wk_rels w = X ≫= edges;
  wi_found : found_ok w
}.

Lemma walk_shift h b B X w : walk_inv h [] (b :: B) X w -> walk_inv (S h) (b :: B) [] X w.
Proof using.
  clear seeds_in edges_in. intros I. destruct (wi_B _ _ _ _ _ I b) as (Hlt & _); [by left|].
  assert (Hall : forall x, within (S h) x -> x ∈ wk_visited w).
  { intros x [Hx|(y & Hy & Hyx)]; [by apply (wi_all _ _ _ _ _ I)|]. apply (wi_done _ _ _ _ _ I y); [done|done|by apply not_elem_of_nil|done]. }
  assert (HX : forall x, x ∈ X <-> within h x).
  { intros x. rewrite (wi_X _ _ _ _ _ I) by done. split; [by intros []|]. intros Hx. split; [done|by apply not_elem_of_nil]. }
  constructor; try apply I.
  - rewrite (wi_queue _ _ _ _ _ I). unfold levels. simpl. by rewrite app_nil_r.
  - lia.
  - intros x [Hx|Hx]%(wi_sound _ _ _ _ _ I); left; [by left|by apply (wi_B _ _ _ _ _ I)].
  - by intros x ?%not_elem_of_nil.
  - exact Hall.
  - intros x y _ Hx HxB Hxy. destruct (wi_sound _ _ _ _ _ I x (Hall x Hx)) as [Hh|?]; [|done].
    apply (wi_done _ _ _ _ _ I x); [done|done|by apply not_elem_of_nil|done].
  - intros x _. rewrite HX. split.
    + intros Hx. split; [by left|]. intros Hb. by apply (wi_B _ _ _ _ _ I) in Hb as (_ & _ & ? & _).
    + intros [Hx Hn]. by destruct (wi_sound _ _ _ _ _ I x (Hall x Hx)).
  - intros x Hm. rewrite HX. split; [intros Hx; exists h; split; [lia|done]|]. intros (k & Hk & Hx). by apply (within_le k); [lia|].
  - split; [apply I|]. split; [constructor|apply I].
Qed.

Lemma walk_expand h a A B X w :
  walk_inv h (a :: A) B X w -> h < max_hops ->
  let w' := foldl (follow far entity h) (set_queue (levels h A B) w) (edges a) in
  exists new, walk_inv h A (B ++ new) (X ++ [a]) w' /\ length new + size (wk_visited w) = size (wk_visited w').
Proof using edges_in.
  clear seeds_in. intros I Hlt. destruct (follow_spec h (edges a) (set_queue (levels h A B) w)) as (new & Q & V & N & D & R & F).
  cbv zeta in *. change (wk_visited (set_queue _ w)) with (wk_visited w) in *. change (wk_rels (set_queue _ w)) with (wk_rels w) in *.
  change (wk_queue (set_queue _ w)) with (levels h A B) in *. change (exists r, r ∈ edges a /\ far r = ?x) with (leads a x) in V.
  set (w' := foldl _ _ _) in *. exists new. destruct (wi_NoDup _ _ _ _ _ I) as ([Ha HA]%NoDup_cons & HB & HX). split.
  - constructor.
    + rewrite Q. unfold levels. by rewrite fmap_app, app_assoc.
    + lia.
    + intros x Hx. rewrite elem_of_app, N. destruct (decide (x ∈ wk_visited w)) as [Hv|]; [|tauto].
      destruct (wi_sound _ _ _ _ _ I x Hv); tauto.
    + intros x Hx. apply (wi_A _ _ _ _ _ I). by right.
    + intros x [Hx|Hx]%elem_of_app.
      * destruct (wi_B _ _ _ _ _ I x Hx) as (? & ? & ? & ?). split_and!; try done. apply V. by left.
      * apply N in Hx as [Hx Hn]. split; [done|]. split; [|split; [intros Hw; by apply Hn, (wi_all _ _ _ _ _ I)|done]].
        apply V in Hx as [?|Hl]; [done|]. right. exists a. split; [|exact Hl]. apply (wi_A _ _ _ _ _ I). by left.
    + intros x Hx. apply V. left. by apply (wi_all _ _ _ _ _ I).
    + intros x y _ Hx HxA Hxy. apply V. destruct (decide (x = a)) as [->|Hne]; [by right|]. left.
      apply (wi_done _ _ _ _ _ I x); [done|done| |done]. by intros [?|?]%elem_of_cons.
    + intros x [Hx|Hx]%V; [by apply (wi_in _ _ _ _ _ I)|]. by apply (edges_in a).
    + intros x _. rewrite elem_of_app, list_elem_of_singleton, (wi_X _ _ _ _ _ I) by done. rewrite elem_of_cons.
      destruct (decide (x = a)) as [->|Hne]; [|tauto]. split; [intros _|by right]. split; [|done]. apply (wi_A _ _ _ _ _ I). by left.
    + intros x ->. lia.
    + split; [done|]. split.
      * apply NoDup_app. split; [done|]. split; [|done]. intros x Hx%(wi_B _ _ _ _ _ I) [_ Hn]%N. tauto.
      * apply NoDup_app. split; [done|]. split; [|apply NoDup_singleton]. intros x Hx ->%list_elem_of_singleton.
        apply (wi_X _ _ _ _ _ I) in Hx as [_ Hn]; [|done]. apply Hn. by left.
    + rewrite R, (wi_rels _ _ _ _ _ I), bind_app. simpl. by rewrite app_nil_r.
    + apply F. exact (wi_found _ _ _ _ _ I).
  - rewrite <-(size_list_to_set (C := gset string)) by exact D. rewrite <-size_union.
    + f_equal. apply leibniz_equiv. intros x. rewrite elem_of_union, elem_of_list_to_set, N, V.
      destruct (decide (x ∈ wk_visited w)); naive_solver.
    + intros x. rewrite elem_of_list_to_set, N. naive_solver.
Qed.

Lemma levels_length h A B : length (levels h A B) = length A + length B.
Proof using. unfold levels. by rewrite length_app, !length_fmap. Qed.

(** What the walk returns. *)
Definition walked (w : Walk) : Prop :=
  (forall id, wk_entities w !! id = if decide (id ∈ wk_visited w) then entity id else None) /\
  (forall x, x ∈ wk_visited w <-> within max_hops x) /\
  exists X, wk_rels w = X ≫= edges /\ NoDup X /\ forall x, x ∈ X <-> exists k, k < max_hops /\ within k x.

Lemma walk_final h X w : walk_inv h [] [] X w -> walked w.
Proof using.
  clear seeds_in edges_in. intros I.
  assert (Hcl : h < max_hops -> forall k x, within k x -> within h x).
  { intros Hlt. induction k as [|k IH]; intros x Hx; [by apply (within_le 0); [lia|]|].
    destruct Hx as [Hx|(y & Hy & Hyx)]; [by apply IH|]. apply IH in Hy.
    pose proof (wi_done _ _ _ _ _ I y x Hlt Hy (not_elem_of_nil _) Hyx) as Hv.
    by destruct (wi_sound _ _ _ _ _ I x Hv) as [?|?%not_elem_of_nil]. }
  pose proof (wi_h _ _ _ _ _ I) as Hh. split; [apply I|]. split.
  - intros x. split.
    + intros [Hx|?%not_elem_of_nil]%(wi_sound _ _ _ _ _ I); [|done]. by apply (within_le h).
    + intros Hx. apply (wi_all _ _ _ _ _ I). destruct (decide (h = max_hops)) as [->|]; [done|]. apply (Hcl ltac:(lia) _ _ Hx).
  - exists X. split; [apply I|]. split; [apply I|]. intros x. destruct (decide (h = max_hops)) as [Hm|Hm]; [by apply (wi_end _ _ _ _ _ I)|].
    rewrite (wi_X _ _ _ _ _ I) by lia. split.
    + intros [Hx _]. exists h. split; [lia|done].
    + intros (k & _ & Hx). split; [|apply not_elem_of_nil]. apply (Hcl ltac:(lia) _ _ Hx).
Qed.

Lemma walk_loop_spec fuel h A B X w :
  walk_inv h A B X w -> length A + length B + size U <= fuel + size (wk_visited w) ->
  walked (walk_loop edges far entity fuel max_hops w).
Proof using edges_in.
  clear seeds_in. revert h A B X w. induction fuel as [|fuel IH]; intros h A B X w I Hf.
  { pose proof (subseteq_size _ _ (wi_in _ _ _ _ _ I)). destruct A, B; simpl in Hf; try lia. by apply (walk_final h X). }
  assert (Hstep : forall h a A B, walk_inv h (a :: A) B X w -> S (length A) + length B + size U <= S fuel + size (wk_visited w) ->
    walked (walk_loop edges far entity (S fuel) max_hops w)).
  { clear h A B I Hf. intros h a A B I Hf. cbn [walk_loop]. rewrite (wi_queue _ _ _ _ _ I).
    change (levels h (a :: A) B) with ((a, h) :: levels h A B). cbv beta iota. destruct (Nat.leb_spec max_hops h) as [Hle|Hlt].
    - apply (IH h A B X); [|simpl; lia]. constructor; try apply I; try done; try lia.
      + intros x Hx. apply (wi_A _ _ _ _ _ I). by right.
      + destruct (wi_NoDup _ _ _ _ _ I) as ([_ ?]%NoDup_cons & ? & ?). done.
    - destruct (walk_expand h a A B X w I Hlt) as (new & I' & Hn). apply (IH h A (B ++ new) (X ++ [a])); [exact I'|].
      rewrite length_app. lia. }
  destruct A as [|a A]; [|by apply (Hstep h a A B)]. destruct B as [|b B].
  - cbn [walk_loop]. rewrite (wi_queue _ _ _ _ _ I). by apply (walk_final h X).
  - apply (Hstep (S h) b B []); [by apply walk_shift|]. simpl in *. lia.
Qed.

Lemma bfs_walked fuel : size U <= fuel -> walked (bfs edges far entity fuel max_hops seeds).
Proof using edges_in seeds_in.
  intros Hf. unfold bfs. destruct seeds_spec as (new & Q & V & N & D & R & F).
  apply (walk_loop_spec fuel 0 new [] []).
  - constructor; try done.
    + rewrite Q. unfold levels. simpl. by rewrite app_nil_r.
    + lia.
    + intros x Hx. left. by apply V.
    + intros x Hx. by apply N.
    + by intros x ?%not_elem_of_nil.
    + intros x Hx. by apply V.
    + intros x y _ Hx Hn _. destruct Hn. by apply N.
    + intros x Hx. by apply seeds_in, V.
    + intros x _. split; [by intros ?%not_elem_of_nil|]. intros [Hx Hn]. destruct Hn. by apply N.
    + intros x Hm. split; [by intros ?%not_elem_of_nil|]. intros (k & Hk & _). lia.
    + split; [done|]. split; constructor.
  - assert (Hl : length new = size (wk_visited (walk_from entity seeds))).
    { rewrite <-(size_list_to_set (C := gset string)) by exact D. f_equal. apply leibniz_equiv. intros x. by rewrite elem_of_list_to_set, N, V. }
    simpl. lia.
Qed.
End walk_facts.

(** ** Listing *)

Lemma sorted_filter {A} (R : A -> A -> Prop) (P : A -> Prop) `{!forall x, Decision (P x)} l :
  StronglySorted R l -> StronglySorted R (filter P l).
Proof.
  induction 1 as [|x l _ IH Hx]; [constructor|]. rewrite filter_cons. case_decide; [|done]. constructor; [done|].
  rewrite Forall_forall in *. intros y [_ Hy]%list_elem_of_filter. by apply Hx.
Qed.

Section listing.
Context {unicode : Unicode}.
Variable scan : forall A, list A -> list A.
Variable collate : string -> string -> comparison.
Hypothesis scan_perm : forall A (l : list A), scan A l ≡ₚ l.

(** All the conditions that the query states. *)
Definition matches_filter (f : GraphEntityFilter) (e : Entity) : Prop :=
  match gf_file f with Some p => e_file_path e = p | None => True end /\
  match gf_kind f with Some k => kind_as_str (e_kind e) = k | None => True end /\
  match gf_name f with Some n => str_contains (to_lowercase n) (to_lowercase (e_name e)) = true | None => True end.

Lemma list_entities_elem file g e :
  e ∈ list_entities scan collate file g <-> e ∈ entities g /\ match file with Some p => e_file_path e = p | None => True end.
Proof using scan_perm.
  destruct file; unfold list_entities; rewrite sort_by_elem_of, scan_perm, ?list_elem_of_filter; naive_solver.
Qed.

(** The listing shows, to whoever may read, exactly the entities that meet all the conditions of the query; those
    of one file come in the order of their lines. *)
Theorem entity_list_spec f g :
  list_graph_entities_handler scan collate false f g = Err HtForbidden /\
  exists es, list_graph_entities_handler scan collate true f g = Ok (summary <$> es) /\
    (forall e, e ∈ es <-> e ∈ entities g /\ matches_filter f e) /\
    (is_Some (gf_file f) -> StronglySorted (fun a b => (line_range a).1 <= (line_range b).1) es).
Proof using scan_perm.
  split; [done|]. unfold list_graph_entities_handler, matches_filter. cbn [negb]. eexists. split; [reflexivity|]. split.
  - intros e. destruct (gf_kind f), (gf_name f); rewrite ?list_elem_of_filter, list_entities_elem; tauto.
  - intros [p Hp]. rewrite Hp. cbn [list_entities].
    pose proof (sort_by_key_sorted (fun e => (line_range e).1) (scan _ (filter (fun e => e_file_path e = p) (entities g)))) as Hs.
    destruct (gf_kind f), (gf_name f); repeat apply sorted_filter; exact Hs.
Qed.
End listing.

(** ** Dependencies and the blast radius *)

(** A chain of [k] relationships from one entity to another. *)
Inductive chain (g : GraphSnapshot) : nat -> string -> string -> Prop :=
  | ChainNil x : chain g 0 x x
  | ChainCons r k y : r ∈ relationships g -> chain g k (to_entity r) y -> chain g (S k) (from_entity r) y.

Definition reaches (g : GraphSnapshot) (k : nat) (x y : string) : Prop := exists n, n <= k /\ chain g n x y.

Lemma chain_snoc g k x r : chain g k x (from_entity r) -> r ∈ relationships g -> chain g (S k) x (to_entity r).
Proof.
  intros Hc Hr. remember (from_entity r) as y eqn:Hy. revert Hy. induction Hc as [x|r0 k y Hr0 Hc IH]; intros Hy.
  - rewrite Hy. apply ChainCons; [done|apply ChainNil].
  - apply ChainCons; [done|by apply IH].
Qed.

Lemma chain_last g k x y : chain g (S k) x y -> exists r, r ∈ relationships g /\ to_entity r = y /\ chain g k x (from_entity r).
Proof.
  revert x. induction k as [|k IH]; intros x Hc; inversion Hc as [|r k' y' Hr Hc']; subst.
  - inversion Hc'; subst. exists r. split; [done|]. split; [done|apply ChainNil].
  - destruct (IH _ Hc') as (r' & Hr' & <- & Hc''). exists r'. split; [done|]. split; [done|by apply ChainCons].
Qed.

(** *** Neighbours with one id *)

Definition id_le (a b : Relationship) : Prop := String.leb (r_id a) (r_id b) = true.

Lemma sorted_by_id l : StronglySorted id_le (sort_by (fun a b => String.leb (r_id a) (r_id b)) l).
Proof.
  eapply StronglySorted_mono; [|apply sort_by_sorted; intros *; [apply string_leb_total|apply string_leb_trans]].
  intros x y. by rewrite Is_true_true.
Qed.

Lemma dedup_from_spec l x :
  StronglySorted id_le (x :: l) ->
  NoDup (r_id <$> dedup_from x l) /\ (forall y, y ∈ dedup_from x l -> y ∈ x :: l) /\ forall i, i ∈ r_id <$> x :: l -> i ∈ r_id <$> dedup_from x l.
Proof.
  revert x. induction l as [|y l IH]; intros x Hs; cbn [dedup_from]; [split_and!; [apply NoDup_singleton|done|done]|].
  apply StronglySorted_inv in Hs as [Hs Hx]. apply Forall_cons in Hx as [Hxy Hx]. destruct (String.eqb_spec (r_id x) (r_id y)) as [He|Hne].
  - apply StronglySorted_inv in Hs as [Hs _]. destruct (IH x) as (Hnd & Hin & Hall); [by constructor|]. split; [done|]. split.
    + intros z [->|Hz]%Hin%elem_of_cons; [by left|by right; right].
    + intros i. rewrite !fmap_cons, <-He, !elem_of_cons. intros [?|[?|?]]; apply Hall; rewrite fmap_cons, elem_of_cons; tauto.
  - destruct (IH y Hs) as (Hnd & Hin & Hall). split; [|split].
    + rewrite fmap_cons. apply NoDup_cons. split; [|done]. intros (z & Hxz & Hz%Hin)%list_elem_of_fmap. apply Hne.
      apply elem_of_cons in Hz as [->|Hz]; [done|]. apply string_leb_antisym; [exact Hxy|]. rewrite Hxz.
      apply StronglySorted_inv in Hs as [_ Hy]. rewrite Forall_forall in Hy. by apply Hy.
    + intros z. rewrite !elem_of_cons. intros [->|Hz%Hin%elem_of_cons]; tauto.
    + intros i. rewrite !fmap_cons, !(elem_of_cons _ i). intros [?|Hi]; [by left|]. right. apply Hall. by rewrite fmap_cons, elem_of_cons.
Qed.

Section searches.

Variable scan : forall A, list A -> list A.
Variable into_values : gmap string Entity -> list Entity.
Hypothesis scan_perm : forall A (l : list A), scan A l ≡ₚ l.
Hypothesis values_perm : forall m, into_values m ≡ₚ (map_to_list m).*2.
Variable g : GraphSnapshot.
Hypothesis ids : NoDup (e_id <$> entities g).

Abbreviation out_of := (fun id => get_relationships scan id g).
Abbreviation into := (fun id => get_inverse_relationships scan id g).

Lemma out_elem x r : r ∈ out_of x <-> r ∈ relationships g /\ from_entity r = x.
Proof using scan_perm. unfold get_relationships. rewrite scan_perm, list_elem_of_filter. tauto. Qed.
Lemma into_elem x r : r ∈ into x <-> r ∈ relationships g /\ to_entity r = x.
Proof using scan_perm. unfold get_inverse_relationships. rewrite scan_perm, list_elem_of_filter. tauto. Qed.

Lemma within_forward seeds k y : within out_of to_entity seeds k y <-> exists s, s ∈ seeds /\ reaches g k s y.
Proof using scan_perm.
  revert y. induction k as [|k IH]; intros y; simpl.
  - split; [intros Hy; exists y; split; [done|]; exists 0; split; [done|apply ChainNil]|].
    intros (s & Hs & n & Hn & Hc). destruct n; [|lia]. by inversion Hc; subst.
  - rewrite IH. split.
    + intros [(s & Hs & n & Hn & Hc)|(x & (s & Hs & n & Hn & Hc)%IH & r & [Hr <-]%out_elem & <-)].
      * exists s. split; [done|]. exists n. split; [lia|done].
      * exists s. split; [done|]. exists (S n). split; [lia|]. by apply chain_snoc.
    + intros (s & Hs & n & Hn & Hc). destruct (decide (n <= k)) as [Hk|Hk]; [left; exists s; split; [done|]; by exists n|].
      right. replace n with (S k) in Hc by lia. apply chain_last in Hc as (r & Hr & <- & Hc). exists (from_entity r).
      split; [apply IH; exists s; split; [done|]; by exists k|]. exists r. split; [by apply out_elem|done].
Qed.

Lemma within_inverse seeds k x : within into from_entity seeds k x <-> exists s, s ∈ seeds /\ reaches g k x s.
Proof using scan_perm.
  revert x. induction k as [|k IH]; intros x; simpl.
  - split; [intros Hx; exists x; split; [done|]; exists 0; split; [done|apply ChainNil]|].
    intros (s & Hs & n & Hn & Hc). destruct n; [|lia]. by inversion Hc; subst.
  - rewrite IH. split.
    + intros [(s & Hs & n & Hn & Hc)|(y & (s & Hs & n & Hn & Hc)%IH & r & [Hr <-]%into_elem & <-)].
      * exists s. split; [done|]. exists n. split; [lia|done].
      * exists s. split; [done|]. exists (S n). split; [lia|]. by apply ChainCons.
    + intros (s & Hs & n & Hn & Hc). destruct (decide (n <= k)) as [Hk|Hk]; [left; exists s; split; [done|]; by exists n|].
      right. replace n with (S k) in Hc by lia. inversion Hc as [|r k' y' Hr Hc']; subst. exists (to_entity r).
      split; [apply IH; exists s; split; [done|]; by exists k|]. exists r. split; [by apply into_elem|done].
Qed.

(** The entities and the relationships of a walk, in either direction. *)
Lemma search_spec (edges : string -> list Relationship) (far near : Relationship -> string) seeds hops :
  (forall x r, r ∈ edges x <-> r ∈ relationships g /\ near r = x) -> (forall x, NoDup (relationships g) -> NoDup (edges x)) ->
  let w := bfs edges far (fun id => get_entity id g) (walk_fuel g seeds) hops seeds in
  NoDup (into_values (wk_entities w)) /\
  (forall e, e ∈ into_values (wk_entities w) <-> e ∈ entities g /\ within edges far seeds hops (e_id e)) /\
  (forall r, r ∈ wk_rels w <-> r ∈ relationships g /\ exists k, k < hops /\ within edges far seeds k (near r)) /\
  (NoDup (relationships g) -> NoDup (wk_rels w)).
Proof using values_perm ids.
  clear scan scan_perm. intros He Hnd. set (U := list_to_set (seeds ++ (far <$> relationships g)) : gset string).
  destruct (bfs_walked edges far (fun id => get_entity id g) seeds U) with (max_hops := hops) (fuel := walk_fuel g seeds) as (Hf & Hv & X & Hr & HX & HXe).
  - intros x Hx. unfold U. rewrite elem_of_list_to_set, elem_of_app. by left.
  - intros x y (r & [Hr _]%He & <-). unfold U. rewrite elem_of_list_to_set, elem_of_app. right. by apply list_elem_of_fmap_2.
  - unfold U, walk_fuel. etransitivity; [apply size_list_to_set_le|]. by rewrite length_app, length_fmap.
  - set (w := bfs _ _ _ _ _ _) in *. cbv zeta.
    assert (Hval : forall id e, (id, e) ∈ map_to_list (wk_entities w) <-> e ∈ entities g /\ e_id e = id /\ within edges far seeds hops id).
    { intros id e. rewrite elem_of_map_to_list, Hf, <-Hv. case_decide as Hid; [|naive_solver]. unfold get_entity. split.
      - intros Hs. destruct (find_by_Some _ _ _ _ Hs). done.
      - intros (? & <- & _). by apply find_by_elem. }
    split_and!.
    + rewrite values_perm. apply NoDup_fmap_2_strong; [|apply NoDup_map_to_list].
      intros [i1 e1] [i2 e2] (_ & <- & _)%Hval (_ & <- & _)%Hval. simpl. by intros ->.
    + intros e. rewrite values_perm, list_elem_of_fmap. split.
      * intros ([id e'] & -> & (? & <- & ?)%Hval). done.
      * intros [He' Hw]. exists (e_id e, e). split; [done|]. by apply Hval.
    + intros r. rewrite Hr, list_elem_of_bind. setoid_rewrite He. setoid_rewrite HXe. naive_solver.
    + intros Hd. rewrite Hr. apply NoDup_bind; [|auto|done].
      intros x y r _ _ [_ Hx]%He [_ Hy]%He. by subst.
Qed.
Hypothesis rel_ids : NoDup (r_id <$> relationships g).

(** C14. The blast radius of a query is exactly the entities from which a chain of at most the
    given number of relationships leads to a seed, each once, with exactly the relationships on which such chains of at
    most that length end; a query without seeds and a caller who may not read are refused. *)
Theorem blast_radius_spec q :
  get_blast_radius_handler scan into_values false q g = Err HtForbidden /\
  (seed_ids_of q = [] -> get_blast_radius_handler scan into_values true q g = Err HtBadRequest) /\
  (seed_ids_of q <> [] -> exists es rs,
     get_blast_radius_handler scan into_values true q g = Ok (mkBlast (seed_ids_of q) (bq_hops q) (summary <$> es) (rel_summary <$> rs)) /\
     NoDup es /\ (forall e, e ∈ es <-> e ∈ entities g /\ exists s, s ∈ seed_ids_of q /\ reaches g (bq_hops q) (e_id e) s) /\
     NoDup rs /\ forall r, r ∈ rs <->
       r ∈ relationships g /\ exists k s, k < bq_hops q /\ s ∈ seed_ids_of q /\ reaches g k (to_entity r) s).
Proof using scan_perm values_perm ids rel_ids.
  split; [done|]. unfold get_blast_radius_handler. split; [by intros ->|]. intros Hs. remember (seed_ids_of q) as seeds.
  destruct (search_spec into from_entity to_entity seeds (bq_hops q)) as (Hnd & He & Hr & Hrd).
  - intros x r. by rewrite into_elem.
  - intros x Hd. unfold get_inverse_relationships. rewrite scan_perm. by apply NoDup_filter.
  - destruct seeds as [|s0 seeds]; [done|]. cbn [negb]. eexists _, _. split; [reflexivity|]. split; [exact Hnd|].
    split; [|split; [apply Hrd; by apply (NoDup_fmap_1 r_id)|]].
    + intros e. by rewrite He, within_inverse.
    + intros r. rewrite Hr. setoid_rewrite within_inverse. naive_solver.
Qed.

(** The dependencies of an entity are exactly the other entities to which a chain of at
    most twenty relationships leads from it, each once; an entity that is not in the graph is not found. *)
Theorem deps_spec id :
  get_entity_deps_handler scan into_values false id g = Err HtForbidden /\
  (id ∉ e_id <$> entities g -> get_entity_deps_handler scan into_values true id g = Err HtNotFound) /\
  (id ∈ e_id <$> entities g -> exists es rs,
     get_entity_deps_handler scan into_values true id g = Ok (mkDeps id (summary <$> es) (rel_summary <$> rs)) /\
     NoDup es /\ (forall e, e ∈ es <-> e ∈ entities g /\ e_id e <> id /\ reaches g MAX_DEPS_HOPS id (e_id e)) /\
     NoDup rs /\ forall r, r ∈ rs <-> r ∈ relationships g /\ exists k, k < MAX_DEPS_HOPS /\ reaches g k id (from_entity r)).
Proof using scan_perm values_perm ids rel_ids.
  split; [done|]. unfold get_entity_deps_handler, get_entity. cbn [negb]. split; [by intros ->%find_by_None|]. intros Hid.
  destruct (find_by e_id id (entities g)) eqn:Hf; [|by apply find_by_None in Hf]. generalize MAX_DEPS_HOPS as hops. intros hops.
  destruct (search_spec out_of to_entity from_entity [id] hops) as (Hnd & He & Hr & Hrd).
  - intros x r. by rewrite out_elem.
  - intros x Hd. unfold get_relationships. rewrite scan_perm. by apply NoDup_filter.
  - eexists _, _. split; [reflexivity|]. split; [by apply NoDup_filter|]. split; [|split; [apply Hrd; by apply (NoDup_fmap_1 r_id)|]].
    + intros e'. rewrite list_elem_of_filter, He, within_forward. setoid_rewrite list_elem_of_singleton. naive_solver.
    + intros r. rewrite Hr. setoid_rewrite within_forward. setoid_rewrite list_elem_of_singleton. naive_solver.
Qed.

(** The details of an entity list exactly the relationships that leave it or enter it, each once, although one
    that does both is read twice; an entity that is not in the graph is not found. *)
Theorem entity_detail_spec id :
  get_graph_entity_handler scan false id g = Err HtForbidden /\
  (id ∉ e_id <$> entities g -> get_graph_entity_handler scan true id g = Err HtNotFound) /\
  forall e, e ∈ entities g -> e_id e = id -> exists rs,
    get_graph_entity_handler scan true id g = Ok (mkDetail (summary e) (rel_summary <$> rs)) /\
    NoDup (r_id <$> rs) /\ forall r, r ∈ rs <-> r ∈ relationships g /\ (from_entity r = id \/ to_entity r = id).
Proof using scan_perm ids rel_ids.
  clear into_values values_perm. split; [done|]. unfold get_graph_entity_handler, get_entity. cbn [negb]. split; [by intros ->%find_by_None|].
  intros e He Hid. rewrite (find_by_elem e_id id _ e ids He Hid). eexists. split; [reflexivity|].
  remember (sort_by _ _) as l eqn:Hl.
  assert (Hs : StronglySorted id_le l) by (rewrite Hl; apply sorted_by_id).
  assert (Hin : forall r, r ∈ l <-> r ∈ relationships g /\ (from_entity r = id \/ to_entity r = id)).
  { intros r. rewrite Hl, sort_by_elem_of, elem_of_app, out_elem, into_elem. tauto. }
  clear Hl. destruct l as [|x l]; cbn [dedup_ids].
  { split; [constructor|]. intros r. split; [by intros ?%not_elem_of_nil|]. intros Hr. by apply (Hin r). }
  destruct (dedup_from_spec l x Hs) as (Hnd & Hsub & Hall). split; [exact Hnd|]. intros r. split; [by intros Hr%Hsub%Hin|].
  intros Hr. assert (Hx : r ∈ x :: l) by by apply Hin.
  destruct (proj1 (list_elem_of_fmap r_id (dedup_from x l) (r_id r)) (Hall _ (list_elem_of_fmap_2 _ _ _ Hx))) as (r' & Hk & Hr').
  rewrite (keys_inj r_id (relationships g) r r' rel_ids); [done|apply Hr| |done]. apply Hsub, Hin in Hr'. tauto.
Qed.
End searches.

(** ** Rebuilding *)

(** An element of which no later one has the key. *)
Definition last_of {A} (key : A -> string) (l : list A) (x : A) : Prop := exists l1 l2, l = l1 ++ x :: l2 /\ key x ∉ key <$> l2.

Lemma last_of_cons {A} (key : A -> string) x l y : last_of key (x :: l) y <-> last_of key l y \/ (y = x /\ key x ∉ key <$> l).
Proof.
  split.
  - intros (l1 & l2 & Hl & Hn). destruct l1 as [|z l1]; simplify_eq/=; [by right|]. left. by exists l1, l2.
  - intros [(l1 & l2 & -> & Hn)|[-> Hn]]; [exists (x :: l1), l2; done|by exists [], l].
Qed.

Lemma last_of_elem {A} (key : A -> string) l x : last_of key l x -> x ∈ l.
Proof. intros (l1 & l2 & -> & _). apply elem_of_app. right. by left. Qed.

Section upserts.
Context {A : Type} (key : A -> string) (row : A -> A).
Hypothesis row_key : forall x, key (row x) = key x.

Lemma upsert_elem y l x : x ∈ upsert key y l <-> x = y \/ (x ∈ l /\ key x <> key y).
Proof using.
  clear row row_key. unfold upsert. destruct (find_by key (key y) l) as [z|] eqn:Hz.
  - apply find_by_Some in Hz as [Hz Hk]. rewrite update_by_elem. split.
    + intros (x' & Hx & ->). case_decide; [by left|by right].
    + intros [->|[Hx Hn]]; [exists z|exists x]; (split; [done|]); [by rewrite decide_True|by rewrite decide_False].
  - apply find_by_None in Hz. rewrite elem_of_app, list_elem_of_singleton. split; [|tauto].
    intros [Hx| ->]; [|by left]. right. split; [done|]. intros Hk. apply Hz. rewrite <-Hk. by apply list_elem_of_fmap_2.
Qed.

Lemma upsert_NoDup y l : NoDup (key <$> l) -> NoDup (key <$> upsert key y l).
Proof using.
  clear row row_key. intros Hl. unfold upsert. destruct (find_by key (key y) l) eqn:Hz; [|by apply snoc_keys_NoDup].
  by rewrite update_by_keys.
Qed.

Lemma upserts_elem l es x :
  x ∈ foldl (fun l e => upsert key (row e) l) l es <-> (exists e, last_of key es e /\ x = row e) \/ (x ∈ l /\ key x ∉ key <$> es).
Proof using row_key.
  revert l. induction es as [|e es IH]; intros l; cbn [foldl].
  { split; [intros Hx; right; split; [done|apply not_elem_of_nil]|]. by intros [(e & (l1 & l2 & Hl & _) & _)|[? _]]; [destruct l1|]. }
  rewrite IH, upsert_elem. setoid_rewrite last_of_cons. rewrite row_key, fmap_cons, not_elem_of_cons. split.
  - intros [(e' & He & ->)|[[->|[Hx Hn]] Hk]]; [left; exists e'; tauto| |by right].
    left. exists e. rewrite row_key in Hk. tauto.
  - intros [(e' & [He|[-> Hn]] & ->)|(Hx & Hn & Hk)]; [left; by exists e'| |right; tauto].
    right. rewrite row_key. tauto.
Qed.

Lemma upserts_NoDup l es : NoDup (key <$> l) -> NoDup (key <$> foldl (fun l e => upsert key (row e) l) l es).
Proof using. clear row_key. revert l. induction es as [|e es IH]; intros l Hl; [done|]. by apply IH, upsert_NoDup. Qed.
End upserts.

Section rebuild.
Variable parse_source_file : string -> bytes -> outcome GraphError (list Entity * list Relationship).
Variable ignore_of : string -> option (list string).
Variable list_order : gset string -> list string.
(** The file of an entity is a part of its id. *)
Variable home : string -> string.
Hypothesis parse_no_panic : forall p c, parse_source_file p c <> Panic.
Hypothesis parse_home : forall p c es rs, parse_source_file p c = Ok (es, rs) -> Forall (fun e => e_file_path e = p /\ home (e_id e) = p) es.
Hypothesis list_perm : forall s, list_order s ≡ₚ elements s.

Definition placed (g : GraphSnapshot) : Prop := NoDup (e_id <$> entities g) /\ forall e, e ∈ entities g -> home (e_id e) = e_file_path e.

(** The files of a list of paths that are read, and what they hold. *)
Definition scanned (files : gmap string bytes) (ignore : list string) (paths : list string) (rel : string) (es : list Entity) (rs : list Relationship) : Prop :=
  "current/" +:+ rel ∈ paths /\ listed_source ignore rel = true /\
  exists source, files !! ("current/" +:+ rel) = Some source /\ parse_source_file rel source = Ok (es, rs).

(** The graph after the files of the paths were read. *)
Definition rebuilt (files : gmap string bytes) (ignore : list string) (paths : list string) (g g' : GraphSnapshot) : Prop :=
  placed g' /\
  (forall e, e ∈ entities g' <->
     (exists rel es rs e0, scanned files ignore paths rel es rs /\ last_of e_id es e0 /\ e = row_of_entity e0) \/
     (e ∈ entities g /\ forall es rs, ~ scanned files ignore paths (e_file_path e) es rs)) /\
  forall r, r ∈ relationships g' ->
    (exists rel es rs r0, scanned files ignore paths rel es rs /\ r0 ∈ rs /\ r = row_of_relationship r0) \/
    (r ∈ relationships g /\ forall e es rs, e ∈ entities g -> e_id e = from_entity r -> ~ scanned files ignore paths (e_file_path e) es rs).

Lemma rebuilt_skip files ignore paths g :
  placed g -> (forall rel es rs, ~ scanned files ignore paths rel es rs) -> rebuilt files ignore paths g g.
Proof using.
  clear parse_no_panic parse_home list_perm ignore_of list_order. intros Hg Hn. split; [done|]. split.
  - intros e. split; [intros He; right; split; [done|]; intros; apply Hn|]. intros [(rel & es & rs & e0 & H & _)|[? _]]; [by apply Hn in H|done].
  - intros r Hr. right. split; [done|]. intros; apply Hn.
Qed.

Lemma rebuilt_one files ignore rel es rs g :
  placed g -> scanned files ignore ["current/" +:+ rel] rel es rs ->
  rebuilt files ignore ["current/" +:+ rel] g (upsert_relationships rs (upsert_entities es (clear_file rel g))).
Proof using parse_home.
  clear parse_no_panic list_perm ignore_of list_order. intros [Hnd Hg] Hs. pose proof Hs as (_ & _ & source & Hsrc & Hp). pose proof (parse_home _ _ _ _ Hp) as Hes.
  rewrite Forall_forall in Hes.
  assert (Hone : forall f es' rs', scanned files ignore ["current/" +:+ rel] f es' rs' -> f = rel /\ es' = es /\ rs' = rs).
  { intros f es' rs' (->%list_elem_of_singleton%string_app_inj_l & _ & source' & Hsrc' & Hp').
    simplify_eq. rewrite Hp in Hp'. by injection Hp' as -> ->. }
  assert (Hrow : forall x, e_id (row_of_entity x) = e_id x) by done.
  assert (Hel : forall e, e ∈ entities (upsert_entities es (clear_file rel g)) <->
    (exists e0, last_of e_id es e0 /\ e = row_of_entity e0) \/ (e ∈ entities g /\ e_file_path e <> rel)).
  { intros e. simpl. rewrite (upserts_elem e_id row_of_entity Hrow), list_elem_of_filter. split; [tauto|].
    intros [?|[He Hf]]; [by left|]. right. split; [done|]. intros (e' & Hid & He')%list_elem_of_fmap.
    apply Hf. rewrite <-(Hg e He), Hid. by apply Hes. }
  split; [split|split].
  - apply upserts_NoDup. by apply filter_keys_NoDup.
  - intros e [(e0 & Hl%last_of_elem & ->)|[He _]]%Hel; [|by apply Hg].
    simpl. by destruct (Hes e0 Hl) as [-> ->].
  - intros e. rewrite Hel. split.
    + intros [(e0 & Hl & ->)|[He Hf]]; [left; by exists rel, es, rs, e0|]. right. split; [done|]. by intros es' rs' [? _]%Hone.
    + intros [(f & es' & rs' & e0 & (-> & -> & ->)%Hone & Hl & ->)|[He Hf]]; [left; by exists e0|]. right. split; [done|].
      intros Hrel. rewrite Hrel in Hf. by apply (Hf es rs).
  - intros r [(r0 & Hr0%last_of_elem & ->)|[[Hr Hm]%list_elem_of_filter _]]%(upserts_elem r_id row_of_relationship); [left; by exists rel, es, rs, r0| |done].
    right. split; [done|]. intros e es' rs' He Hid [Hrel _]%Hone. apply Hr. rewrite <-Hid. apply list_elem_of_fmap_2. by apply list_elem_of_filter.
Qed.

Lemma scanned_cons files ignore p paths rel es rs :
  scanned files ignore (p :: paths) rel es rs <-> scanned files ignore [p] rel es rs \/ scanned files ignore paths rel es rs.
Proof using. clear parse_no_panic parse_home list_perm ignore_of list_order home. unfold scanned. rewrite elem_of_cons, list_elem_of_singleton. tauto. Qed.

Lemma scanned_home files ignore paths rel es rs e :
  scanned files ignore paths rel es rs -> last_of e_id es e -> e_file_path (row_of_entity e) = rel.
Proof using parse_home.
  clear parse_no_panic list_perm ignore_of list_order. intros (_ & _ & source & _ & Hes%parse_home) He%last_of_elem.
  rewrite Forall_forall in Hes. simpl. by apply Hes.
Qed.

Lemma rebuilt_cons files ignore p paths g g1 g2 :
  p ∉ paths -> rebuilt files ignore [p] g g1 -> rebuilt files ignore paths g1 g2 -> rebuilt files ignore (p :: paths) g g2.
Proof using parse_home.
  clear parse_no_panic list_perm ignore_of list_order. intros Hp (P1 & E1 & R1) (P2 & E2 & R2).
  assert (Hdis : forall rel es rs es' rs', scanned files ignore [p] rel es rs -> ~ scanned files ignore paths rel es' rs').
  { intros rel es rs es' rs' (<-%list_elem_of_singleton & _) (Hin & _). done. }
  split; [done|]. split.
  - intros e. rewrite E2, E1. setoid_rewrite (scanned_cons files ignore p paths). split.
    + intros [(rel & es & rs & e0 & Hs & Hl & ->)|[[(rel & es & rs & e0 & Hs & Hl & ->)|[He Hn]] Hn']]; [left; exists rel, es, rs, e0; split; [by right|done]|left; exists rel, es, rs, e0; split; [by left|done]|].
      right. split; [done|]. intros es rs [Hs|Hs]; [by apply (Hn es rs)|by apply (Hn' es rs)].
    + intros [(rel & es & rs & e0 & [Hs|Hs] & Hl & ->)|[He Hn]].
      * right. split; [left; by exists rel, es, rs, e0|]. intros es' rs'. rewrite (scanned_home _ _ _ _ _ _ _ Hs Hl). by apply (Hdis rel es rs).
      * left. by exists rel, es, rs, e0.
      * right. split; [right; split; [done|]; intros es rs Hs; apply (Hn es rs); by left|]. intros es rs Hs. apply (Hn es rs). by right.
  - intros r Hr%R2. setoid_rewrite (scanned_cons files ignore p paths). destruct Hr as [(rel & es & rs & r0 & Hs & Hl & ->)|[Hr Hn]]; [left; exists rel, es, rs, r0; tauto|].
    apply R1 in Hr as [(rel & es & rs & r0 & Hs & Hl & ->)|[Hr Hn']]; [left; exists rel, es, rs, r0; tauto|]. right. split; [done|].
    intros e es rs He Hid [Hs|Hs]; [by apply (Hn' e es rs)|]. apply (Hn e es rs); [|done..]. apply E1. right. split; [done|]. intros es' rs'.
    apply Hn'; done.
Qed.
Lemma refresh_file_spec files ignore acc p g :
  placed g -> starts_with "current/" p = true ->
  exists acc' g', refresh_file parse_source_file files ignore acc p g = (Ok acc', g') /\ rebuilt files ignore [p] g g'.
Proof using parse_home parse_no_panic.
  clear list_perm ignore_of list_order. intros Hg (rel & ->)%starts_with_spec. destruct acc as [[n ne] nr].
  assert (Hn : forall f es rs, scanned files ignore ["current/" +:+ rel] f es rs -> f = rel)
    by by intros f es rs (?%list_elem_of_singleton%string_app_inj_l & _).
  unfold refresh_file. rewrite strip_prefix_app. cbn [default id].
  destruct (listed_source ignore rel) eqn:Hl; cbn [negb];
    [|eexists _, _; split; [done|]; apply rebuilt_skip; [done|]; intros f es rs Hs; rewrite (Hn _ _ _ Hs) in Hs; destruct Hs as (_ & ? & _); congruence].
  destruct (files !! _) as [source|] eqn:Hf;
    [|eexists _, _; split; [done|]; apply rebuilt_skip; [done|]; intros f es rs Hs; rewrite (Hn _ _ _ Hs) in Hs; destruct Hs as (_ & _ & ? & ? & _); congruence].
  destruct (parse_source_file rel source) as [[es rs]|e|] eqn:Hp; [|eexists _, _; split; [done|]|by destruct (parse_no_panic rel source)].
  - eexists _, _. split; [done|]. apply rebuilt_one; [done|]. split; [by left|]. split; [done|]. by exists source.
  - apply rebuilt_skip; [done|]. intros f es rs Hs. rewrite (Hn _ _ _ Hs) in Hs. destruct Hs as (_ & _ & ? & ? & ?). congruence.
Qed.

Lemma refresh_files_spec files ignore paths acc g :
  placed g -> NoDup paths -> Forall (fun p => starts_with "current/" p = true) paths ->
  exists acc' g', refresh_files parse_source_file files ignore acc paths g = (Ok acc', g') /\ rebuilt files ignore paths g g'.
Proof using parse_home parse_no_panic.
  clear list_perm ignore_of list_order. revert acc g. induction paths as [|p paths IH]; intros acc g Hg Hnd Hc; cbn [refresh_files].
  { exists acc, g. split; [done|]. apply rebuilt_skip; [done|]. by intros rel es rs [?%not_elem_of_nil _]. }
  apply NoDup_cons in Hnd as [Hp Hnd]. apply Forall_cons in Hc as [Hcp Hc].
  destruct (refresh_file_spec files ignore acc p g Hg Hcp) as (acc1 & g1 & -> & H1).
  destruct (IH acc1 g1 (proj1 H1) Hnd Hc) as (acc2 & g2 & -> & H2). exists acc2, g2. split; [done|]. by apply (rebuilt_cons _ _ _ _ _ g1).
Qed.

(** What the project holds in the file of a path. *)
Definition source_of (files : gmap string bytes) (rel : string) (es : list Entity) (rs : list Relationship) : Prop :=
  listed_source (ignore_patterns ignore_of files) rel = true /\
  exists source, files !! ("current/" +:+ rel) = Some source /\ parse_source_file rel source = Ok (es, rs).

(** C20. A refresh of the server's graph succeeds for whoever may write: for each source file
    of the project that no ignore pattern of its [vai.toml] is a prefix of and that parses, the graph then has exactly the
    entities of the file, of those with one id the last, and it keeps exactly the entities of the other files, those of
    files that were deleted included; a relationship is one of such a file, or an
    old one that does not leave an entity of such a file. The ids stay unique, and a refresh again changes no entity. *)
Theorem refresh_spec files g :
  placed g ->
  server_graph_refresh_handler parse_source_file ignore_of list_order false files g = (Err HtForbidden, g) /\
  exists r g', server_graph_refresh_handler parse_source_file ignore_of list_order true files g = (Ok r, g') /\ placed g' /\
    (forall e, e ∈ entities g' <->
       (exists rel es rs e0, source_of files rel es rs /\ last_of e_id es e0 /\ e = row_of_entity e0) \/
       (e ∈ entities g /\ forall es rs, ~ source_of files (e_file_path e) es rs)) /\
    (forall q, q ∈ relationships g' ->
       (exists rel es rs q0, source_of files rel es rs /\ q0 ∈ rs /\ q = row_of_relationship q0) \/
       (q ∈ relationships g /\ forall e es rs, e ∈ entities g -> e_id e = from_entity q -> ~ source_of files (e_file_path e) es rs)) /\
    exists r' g'', server_graph_refresh_handler parse_source_file ignore_of list_order true files g' = (Ok r', g'') /\
      forall e, e ∈ entities g'' <-> e ∈ entities g'.
Proof using parse_home parse_no_panic list_perm.
  intros Hg. split; [done|].
  set (paths := filter (fun p => starts_with "current/" p = true) (list_order (dom files))).
  assert (Hnd : NoDup paths) by (apply NoDup_filter; rewrite list_perm; apply NoDup_elements).
  assert (Hcur : Forall (fun p => starts_with "current/" p = true) paths) by (apply Forall_forall; by intros p [? _]%list_elem_of_filter).
  assert (Hs : forall rel es rs, scanned files (ignore_patterns ignore_of files) paths rel es rs <-> source_of files rel es rs).
  { intros rel es rs. split; [by intros [_ ?]|]. intros Hs. split; [|exact Hs]. destruct Hs as (_ & source & Hf & _).
    apply list_elem_of_filter. split; [apply starts_with_spec; by exists rel|]. rewrite list_perm. apply elem_of_elements, elem_of_dom. by exists source. }
  destruct (refresh_files_spec files (ignore_patterns ignore_of files) paths (0, 0, 0) g Hg Hnd Hcur) as ([[n ne] nr] & g' & Hr & Hg' & He & Hrel).
  destruct (refresh_files_spec files (ignore_patterns ignore_of files) paths (0, 0, 0) g' Hg' Hnd Hcur) as ([[n' ne'] nr'] & g'' & Hr' & _ & He' & _).
  unfold server_graph_refresh_handler, refresh_graph_from_files. cbn [negb]. fold paths. rewrite Hr. exists (mkRefresh n ne nr), g'.
  setoid_rewrite Hs in He. setoid_rewrite Hs in Hrel. setoid_rewrite Hs in He'. split_and!; [done..|].
  rewrite Hr'. exists (mkRefresh n' ne' nr'), g''. split; [done|]. intros e. rewrite He', He. tauto.
Qed.
End rebuild.

(** A project that has lost its files keeps its whole graph, which the reply reports as empty. *)
Lemma empty_project_keeps_graph parse_source_file ignore_of list_order g :
  (forall s, list_order s ≡ₚ elements s) ->
  server_graph_refresh_handler parse_source_file ignore_of list_order true ∅ g = (Ok (mkRefresh 0 0 0), g).
Proof.
  intros Hl. unfold server_graph_refresh_handler, refresh_graph_from_files. cbn [negb].
  assert (list_order (dom (∅ : gmap string bytes)) = []) as -> by (apply Permutation_nil_r; rewrite Hl, dom_empty_L; by rewrite elements_empty).
  done.
Qed.

(** ** Examples *)

Definition plain_entity (id file : string) : Entity := mkEntity id Function id id file (0, 0) (1, 2) None.
Definition call_of (from to : string) : Relationship := mkRelationship (from +:+ ">" +:+ to) Calls from to.
Definition calls_graph : GraphSnapshot :=
  mkSnapshot ((fun i => plain_entity i "src/a.rs") <$> ["a"; "b"; "c"; "d"]) [call_of "a" "b"; call_of "b" "c"; call_of "d" "a"].
Definition in_order A (l : list A) : list A := l.
Definition map_values (m : gmap string Entity) : list Entity := (map_to_list m).*2.
Definition two_hops : BlastRadiusQuery := mkBlastQuery "c, missing" 2.

Lemma calls_graph_ids : NoDup (e_id <$> entities calls_graph) /\ NoDup (r_id <$> relationships calls_graph).
Proof. split; apply (bool_decide_unpack _); vm_compute; reflexivity. Qed.

Lemma blast_radius_spec_witness :
  (forall A (l : list A), in_order A l ≡ₚ l) /\
  exists es rs,
    get_blast_radius_handler in_order map_values true two_hops calls_graph = Ok (mkBlast ["c"; "missing"] 2 (summary <$> es) (rel_summary <$> rs)) /\
    NoDup es /\ forall e, e ∈ es <-> e ∈ entities calls_graph /\ exists s, s ∈ ["c"; "missing"] /\ reaches calls_graph 2 (e_id e) s.
Proof.
  split; [done|].
  destruct (blast_radius_spec in_order map_values (fun A l => reflexivity l) (fun m => reflexivity _) calls_graph
    (proj1 calls_graph_ids) (proj2 calls_graph_ids) two_hops) as (_ & _ & H).
  assert (Hs : seed_ids_of two_hops = ["c"; "missing"]) by (vm_compute; reflexivity). rewrite Hs in H.
  destruct H as (es & rs & Ho & Hnd & He & _); [discriminate|]. exists es, rs. exact (conj Ho (conj Hnd He)).
Defined.

(** Two hops lead back from [c] to [b] and [a], not to [d]. *)
Example two_hops_found :
  (fun r => es_id <$> br_entities r) <$> match get_blast_radius_handler in_order map_values true two_hops calls_graph with Ok r => Some r | _ => None end
  = Some ["c"; "a"; "b"].
Proof. vm_compute. reflexivity. Qed.

Lemma deps_spec_witness :
  (forall A (l : list A), in_order A l ≡ₚ l) /\
  exists es rs, get_entity_deps_handler in_order map_values true "a" calls_graph = Ok (mkDeps "a" (summary <$> es) (rel_summary <$> rs)) /\
    NoDup es /\ forall e, e ∈ es <-> e ∈ entities calls_graph /\ e_id e <> "a" /\ reaches calls_graph MAX_DEPS_HOPS "a" (e_id e).
Proof.
  split; [done|].
  destruct (deps_spec in_order map_values (fun A l => reflexivity l) (fun m => reflexivity _) calls_graph
    (proj1 calls_graph_ids) (proj2 calls_graph_ids) "a") as (_ & _ & H).
  destruct H as (es & rs & Ho & Hnd & He & _); [apply (bool_decide_unpack _); vm_compute; reflexivity|]. exists es, rs. exact (conj Ho (conj Hnd He)).
Defined.

Lemma entity_detail_spec_witness :
  (forall A (l : list A), in_order A l ≡ₚ l) /\
  exists rs, get_graph_entity_handler in_order true "a" calls_graph = Ok (mkDetail (summary (plain_entity "a" "src/a.rs")) (rel_summary <$> rs)) /\
    NoDup (r_id <$> rs) /\ forall r, r ∈ rs <-> r ∈ relationships calls_graph /\ (from_entity r = "a" \/ to_entity r = "a").
Proof.
  split; [done|].
  destruct (entity_detail_spec in_order (fun A l => reflexivity l) calls_graph (proj1 calls_graph_ids) (proj2 calls_graph_ids) "a") as (_ & _ & H).
  apply H; [apply (bool_decide_unpack _); vm_compute; reflexivity|reflexivity].
Defined.

Lemma entity_list_spec_witness :
  (forall A (l : list A), in_order A l ≡ₚ l) /\
  let f := mkGraphFilter None (Some "src/a.rs") (Some "B") in
  exists es, @list_graph_entities_handler ascii_unicode in_order String.compare true f calls_graph = Ok (summary <$> es) /\
    plain_entity "b" "src/a.rs" ∈ es /\ plain_entity "a" "src/a.rs" ∉ es.
Proof.
  split; [done|]. intros f.
  destruct (@entity_list_spec ascii_unicode in_order String.compare (fun A l => reflexivity l) f calls_graph) as (_ & es & Ho & He & _).
  exists es. split; [exact Ho|]. split.
  - apply He. split; [apply (bool_decide_unpack _); vm_compute; reflexivity|]. vm_compute. done.
  - intros (_ & _ & _ & Hn)%He. vm_compute in Hn. discriminate.
Defined.

(** A parser that finds one entity in every file, named by its file. *)
Definition one_entity (p : string) (_ : bytes) : outcome GraphError (list Entity * list Relationship) :=
  Ok ([plain_entity ("in:" +:+ p) p], []).
Definition named_home (id : string) : string := default EmptyString (strip_prefix "in:" id).
Definition old_graph : GraphSnapshot := mkSnapshot [plain_entity "in:src/gone.rs" "src/gone.rs"; plain_entity "in:src/a.rs" "src/a.rs"] [].
Definition one_file : gmap string bytes := {["current/src/a.rs"%string := []]}.

Lemma old_graph_placed : placed named_home old_graph.
Proof. split; [apply (bool_decide_unpack _); vm_compute; reflexivity|]. apply Forall_forall. repeat constructor. Qed.

Lemma one_entity_home p c es rs :
  one_entity p c = Ok (es, rs) -> Forall (fun e => e_file_path e = p /\ named_home (e_id e) = p) es.
Proof.
  intros [= <- <-]. apply Forall_singleton. split; [done|]. unfold named_home. simpl. done.
Qed.

Lemma refresh_spec_witness :
  placed named_home old_graph /\
  exists r g', server_graph_refresh_handler one_entity (fun _ => None) elements true one_file old_graph = (Ok r, g') /\
    placed named_home g' /\ plain_entity "in:src/gone.rs" "src/gone.rs" ∈ entities g' /\ plain_entity "in:src/a.rs" "src/a.rs" ∈ entities g'.
Proof.
  split; [exact old_graph_placed|].
  destruct (refresh_spec one_entity (fun _ => None) elements named_home ltac:(discriminate) one_entity_home (fun s => reflexivity _) one_file old_graph
    old_graph_placed) as (_ & r & g' & Ho & Hp & He & _). exists r, g'. split; [exact Ho|]. split; [exact Hp|]. split; apply He.
  - right. split; [by left|]. intros es rs (_ & source & Hs & _). vm_compute in Hs. discriminate.
  - left. exists "src/a.rs", [plain_entity "in:src/a.rs" "src/a.rs"], [], (plain_entity "in:src/a.rs" "src/a.rs").
    split; [split; [vm_compute; reflexivity|]; exists []; split; [vm_compute; reflexivity|reflexivity]|].
    split; [exists [], []; split; [reflexivity|apply not_elem_of_nil]|vm_compute; reflexivity].
Defined.
