(* ===== verification/WatcherServer.v ===== *)
(** The watchers of the hosted server: their tables ([src/src/storage/postgres/watcher.rs]), and the handlers that
    register them, pause them and take their reports ([src/src/server/watcher.rs]), next to the issues in a [Desk]. *)
From S2P Require Import Prelude Table RustStr EventLog Issue Pagination ServerRepo Auth IssuePg IssueServer Watcher.

(** One repository with its watchers; the counters are by watcher and hour. *)
Record WatchDesk : Type := mkWatchDesk {
  wd_desk : Desk; wd_watchers : list WatcherRow; wd_discoveries : list DiscoveryRow; wd_limits : gmap (string * Z) Z
}.

(** [StorageError], with the error that only watchers have. *)
Inductive WatchStoreError : Type := WsStorage (e : StorageError) | WsRateLimitExceeded.

Definition i32_max : Z := (2 ^ 31 - 1)%Z.
Definition i32_wrap (x : Z) : Z := let m := (x mod 2 ^ 32)%Z in if (m <? 2 ^ 31)%Z then m else (m - 2 ^ 32)%Z.

(** ** Requests and replies *)

Record RegisterWatcherRequest : Type := mkRegister {
  rw_agent_id : string; rw_watch_type : string; rw_description : string; rw_issue_creation_policy : IssueCreationPolicy
}.
Record WatcherResponse : Type := mkWatcherResponse {
  wp_agent_id : string; wp_watch_type : string; wp_description : string; wp_issue_creation_policy : IssueCreationPolicy;
  wp_status : string; wp_registered_at : DateTime; wp_last_discovery_at : option DateTime; wp_discovery_count : Z
}.
Definition watcher_response (w : Watcher) : WatcherResponse :=
  mkWatcherResponse (wt_agent_id w) (watch_type_as_str (watch_type w)) (wt_description w) (issue_creation_policy w)
    (watcher_status_as_str (wt_status w)) (registered_at w) (last_discovery_at w) (discovery_count w).

Record SubmitDiscoveryRequest : Type := mkSubmitDiscovery { sd_agent_id : string; sd_event : DiscoveryEventKind }.
Record DiscoveryOutcomeResponse : Type := mkOutcomeResponse {
  do_record_id : Uuid; do_agent_id : string; do_event_type : string; do_received_at : DateTime;
  do_created_issue_id : option Uuid; do_suppressed : bool; do_message : string
}.

Section watchers.
Context `{AuthEnv} {unicode : Unicode}.
(** [serde_json] on policies and events; the order in which a query visits the rows. *)
Variable policy_to_json : IssueCreationPolicy -> string.
Variable policy_from_json : string -> option IssueCreationPolicy.
Variable event_to_json event_to_json_pretty : DiscoveryEventKind -> string.
Variable scan : forall A, list A -> list A.

Abbreviation Wd := (M WatchDesk WatchStoreError).
Abbreviation Hw := (M WatchDesk HttpError).

Definition on_desk {E A} (m : M Desk E A) : M WatchDesk E A := fun s =>
  let '(o, d) := m (wd_desk s) in (o, mkWatchDesk d (wd_watchers s) (wd_discoveries s) (wd_limits s)).
Definition on_rows {E : Type} (f : list WatcherRow -> list WatcherRow) : M WatchDesk E unit :=
  modify_st (fun s => mkWatchDesk (wd_desk s) (f (wd_watchers s)) (wd_discoveries s) (wd_limits s)).
Definition on_counters {E : Type} (f : gmap (string * Z) Z -> gmap (string * Z) Z) : M WatchDesk E unit :=
  modify_st (fun s => mkWatchDesk (wd_desk s) (wd_watchers s) (wd_discoveries s) (f (wd_limits s))).

(** ** The tables *)

Definition pg_hour_bucket : Wd Z := t ← on_desk desk_now; mret (hour_bucket t).

Definition watcher_row (w : Watcher) : WatcherRow :=
  mkWatcherRow (wt_agent_id w) (watch_type_as_str (watch_type w)) (wt_description w) (policy_to_json (issue_creation_policy w))
    (watcher_status_as_str (wt_status w)) (registered_at w) (last_discovery_at w) (i32_wrap (discovery_count w)).

(** A policy that does not parse reads as the default one. *)
Definition pg_row_to_watcher (r : WatcherRow) : Watcher :=
  mkWatcher (wr_agent_id r) (watch_type_from_db_str (wr_watch_type r)) (wr_description r)
    (default default_policy (policy_from_json (wr_policy_json r))) (watcher_status_from_db_str (wr_status r)) (wr_registered_at r)
    (wr_last_discovery_at r) (u32_wrap (wr_discovery_count r)).

Definition register_watcher (w : Watcher) : Wd Watcher :=
  s ← get_st;
  match find_by wr_agent_id (wt_agent_id w) (wd_watchers s) with
  | Some _ => fail (WsStorage SeConflict)
  | None => _ ← on_rows (fun l => l ++ [watcher_row w]); mret w
  end.

Definition pg_get_watcher (agent_id : string) : Wd Watcher :=
  s ← get_st;
  match find_by wr_agent_id agent_id (wd_watchers s) with
  | Some r => mret (pg_row_to_watcher r)
  | None => fail (WsStorage SeNotFound)
  end.

(** [ORDER BY registered_at DESC] *)
Definition pg_list_watchers (s : WatchDesk) : list Watcher :=
  pg_row_to_watcher <$> sort_by (fun a b => (wr_registered_at b <=? wr_registered_at a)%Z) (scan _ (wd_watchers s)).

Definition with_status (st : string) (r : WatcherRow) : WatcherRow :=
  mkWatcherRow (wr_agent_id r) (wr_watch_type r) (wr_description r) (wr_policy_json r) st (wr_registered_at r)
    (wr_last_discovery_at r) (wr_discovery_count r).
Definition write_status (st agent_id : string) : Wd Watcher :=
  s ← get_st;
  match find_by wr_agent_id agent_id (wd_watchers s) with
  | Some _ => _ ← on_rows (update_by wr_agent_id agent_id (with_status st)); pg_get_watcher agent_id
  | None => fail (WsStorage SeNotFound)
  end.
Definition pause_watcher : string -> Wd Watcher := write_status "paused".
Definition resume_watcher : string -> Wd Watcher := write_status "active".

(** The counter of an hour, one higher; the column has 32 bits. *)
Definition count_report (agent_id : string) (bucket : Z) : Wd Z :=
  s ← get_st;
  let c := (default 0 (wd_limits s !! (agent_id, bucket)) + 1)%Z in
  if (i32_max <? c)%Z then fail (WsStorage SeDatabase)
  else _ ← on_counters <[(agent_id, bucket) := c]>; mret c.
Definition uncount_report (agent_id : string) (bucket : Z) : Wd unit :=
  on_counters (alter (fun c => c - 1)%Z (agent_id, bucket)).

(** The last report of the problem that has an issue. Whether the issue is open is not asked. *)
Definition latest_tracked (agent_id key : string) (l : list DiscoveryRow) : option Uuid :=
  head (sort_by (fun a b => (dr_received_at b <=? dr_received_at a)%Z)
    (filter (fun r => dr_agent_id r = agent_id /\ dr_dedup_key r = key /\ dr_suppressed r = false /\
                      dr_created_issue_id r <> None) (scan _ l))) ≫= dr_created_issue_id.

Definition pg_prepare_discovery (agent_id : string) (event : DiscoveryEventKind) : Wd DiscoveryPreparation :=
  watcher ← pg_get_watcher agent_id;
  if decide (wt_status watcher = WtPaused) then fail (WsStorage SeNotFound)
  else
    bucket ← pg_hour_bucket;
    count ← count_report agent_id bucket;
    if (max_per_hour (issue_creation_policy watcher) <? u32_wrap count)%Z then
      _ ← uncount_report agent_id bucket;
      fail WsRateLimitExceeded
    else
      s ← get_st;
      let existing := latest_tracked agent_id (dedup_key event) (wd_discoveries s) in
      let priority := default_priority event in
      let should_create := should_auto_create (issue_creation_policy watcher) priority in
      record_id ← on_desk desk_draw;
      now ← on_desk desk_now;
      mret (mkPreparation record_id (dedup_key event) now existing should_create priority).

(** The record is there even when the statistics cannot be written. *)
Definition insert_record (row : DiscoveryRow) : Wd unit :=
  s ← get_st;
  match find_by dr_id (dr_id row) (wd_discoveries s), find_by wr_agent_id (dr_agent_id row) (wd_watchers s) with
  | None, Some _ => modify_st (fun s => mkWatchDesk (wd_desk s) (wd_watchers s) (wd_discoveries s ++ [row]) (wd_limits s))
  | _, _ => fail (WsStorage SeDatabase)
  end.
Definition with_report (t : DateTime) (r : WatcherRow) : WatcherRow :=
  mkWatcherRow (wr_agent_id r) (wr_watch_type r) (wr_description r) (wr_policy_json r) (wr_status r) (wr_registered_at r)
    (Some t) (wr_discovery_count r + 1).
Definition write_stats (agent_id : string) (t : DateTime) : Wd unit :=
  s ← get_st;
  if existsb (fun r => String.eqb (wr_agent_id r) agent_id && (wr_discovery_count r =? i32_max)%Z) (wd_watchers s)
  then fail (WsStorage SeDatabase)
  else on_rows (update_by wr_agent_id agent_id (with_report t)).

Definition pg_record_discovery (agent_id : string) (event : DiscoveryEventKind) (p : DiscoveryPreparation)
    (issue : option Uuid) (suppressed : bool) : Wd DiscoveryRecord :=
  _ ← insert_record (mkDiscoveryRow (pr_record_id p) agent_id (event_type event) (event_to_json event) (pr_dedup_key p)
                       (pr_received_at p) issue suppressed);
  _ ← write_stats agent_id (pr_received_at p);
  mret (mkDiscovery (pr_record_id p) agent_id event (pr_received_at p) issue suppressed).

(** ** Handlers *)

(** An error of the store as the reply of a handler, and every one as an internal error. *)
Definition watch_error (e : WatchStoreError) : HttpError :=
  match e with WsStorage e => http_error e | WsRateLimitExceeded => HtRateLimited end.
Definition kept_store {A} (m : Wd A) : Hw A := fun s => let '(o, s') := m s in (map_err watch_error o, s').
Definition internal {A} (m : Wd A) : Hw A := fun s => let '(o, s') := m s in (map_err (fun _ => HtInternal) o, s').

Definition register_watcher_handler (allowed : bool) (b : RegisterWatcherRequest) : Hw WatcherResponse :=
  _ ← on_desk (check_access allowed);
  now ← on_desk desk_now;
  watcher ← kept_store (register_watcher (mkWatcher (rw_agent_id b) (watch_type_from_db_str (rw_watch_type b)) (rw_description b)
              (rw_issue_creation_policy b) WtActive now None 0));
  _ ← on_desk (announce "WatcherRegistered");
  mret (watcher_response watcher).

Definition list_watchers_handler (allowed : bool) : Hw (list WatcherResponse) :=
  _ ← on_desk (check_access allowed);
  s ← get_st;
  mret (watcher_response <$> pg_list_watchers s).

Definition pause_watcher_handler (allowed : bool) (agent_id : string) : Hw WatcherResponse :=
  _ ← on_desk (check_access allowed);
  w ← kept_store (pause_watcher agent_id);
  mret (watcher_response w).
Definition resume_watcher_handler (allowed : bool) (agent_id : string) : Hw WatcherResponse :=
  _ ← on_desk (check_access allowed);
  w ← kept_store (resume_watcher agent_id);
  mret (watcher_response w).

(** The issue of a report; the reports of the server have no limit of their own on issues. *)
Definition issue_of_report (agent_id : string) (event : DiscoveryEventKind) (priority : IssuePriority) : NewIssue :=
  mkNewIssue (default_title event) (issue_description event_to_json_pretty agent_id event) priority
    [event_type event; "watcher"%string] agent_id (Some (mkAgentSource (event_type event) (event_to_json event))) [].

(** An issue that cannot be created is left out. *)
Definition open_issue (agent_id : string) (event : DiscoveryEventKind) (priority : IssuePriority) : Hw (option Uuid) :=
  created ← (fun s => match on_desk (create_issue (issue_of_report agent_id event priority)) s with
                      | (Ok i, s') => (Ok (Some i), s')
                      | (Err _, s') => (Ok None, s')
                      | (Panic, s') => (Panic, s')
                      end);
  match created with
  | Some i =>
      _ ← on_desk (record_event (IssueCreated (i_id i) (i_title i) agent_id (priority_as_str (i_priority i))));
      mret (Some (i_id i))
  | None => mret None
  end.

Definition outcome_response (event : DiscoveryEventKind) (r : DiscoveryRecord) (message : string) : DiscoveryOutcomeResponse :=
  mkOutcomeResponse (d_id r) (d_agent_id r) (event_type event) (received_at r) (created_issue_id r) (d_suppressed r) message.

(** The status of the reply and its body. *)
Definition submit_discovery_handler (allowed : bool) (b : SubmitDiscoveryRequest) : Hw (nat * DiscoveryOutcomeResponse) :=
  _ ← on_desk (check_access allowed);
  prep ← kept_store (pg_prepare_discovery (sd_agent_id b) (sd_event b));
  match suppressed_with_issue_id prep with
  | Some existing =>
      r ← internal (pg_record_discovery (sd_agent_id b) (sd_event b) prep (Some existing) true);
      mret (200, outcome_response (sd_event b) r ("Suppressed duplicate: issue " +:+ existing +:+ " already tracks this problem"))
  | None =>
      created ← (if should_create_issue prep then open_issue (sd_agent_id b) (sd_event b) (pr_priority prep) else mret None);
      let message :=
        match created with
        | Some id => "Discovery recorded; issue " +:+ id +:+ " created"
        | None => if should_create_issue prep then "Discovery recorded; issue creation failed or rate-limited"
                  else "Discovery recorded; auto-create disabled by policy"
        end in
      r ← internal (pg_record_discovery (sd_agent_id b) (sd_event b) prep created false);
      _ ← match created with Some _ => on_desk (announce "IssueCreated") | None => mret tt end;
      mret (201, outcome_response (sd_event b) r message)
  end.
End watchers.
