(* ===== verification/WatcherServerProps.v ===== *)
(** What the watchers of the hosted server are safe from and what they are not: a problem has at most one issue, the
    reports of an hour stay within the policy, and a problem whose issue was closed is never reported again. *)
From S2P Require Import Prelude Table RustStr Graph EventLog MergeEngine MergeFs VaiDir Workspace Submit Conflict Issue WorkQueue Pagination ServerRepo ServerPull Auth AuthServer IssuePg IssueServer QueueServer DeskSystem DeskFrame Watcher WatcherServer.

#[local] Instance tracks_dec r : Decision (tracks r).
Proof. unfold tracks. apply _. Defined.

(** ** Issues are never lost *)

Definition issues_kept (d d' : Desk) : Prop := forall i, i ∈ ii_id <$> dk_issues d -> i ∈ ii_id <$> dk_issues d'.

#[export] Instance issues_kept_pre : PreOrder issues_kept.
Proof. split; [by intros d i|]. intros d1 d2 d3 H1 H2 i Hi. auto. Qed.

#[export] Instance issues_kept_frame : DeskFrame issues_kept.
Proof.
  split; [apply _|..]; try (intros; intros i Hi; exact Hi).
  - intros u f d Hf i Hi. simpl. by rewrite update_by_keys.
  - intros x d i Hi. simpl. rewrite fmap_app, elem_of_app. by left.
Qed.

Section watching.
Context `{AuthEnv} {unicode : Unicode}.
Variable policy_to_json : IssueCreationPolicy -> string.
Variable policy_from_json : string -> option IssueCreationPolicy.
Variable event_to_json event_to_json_pretty : DiscoveryEventKind -> string.
Variable scan : forall A, list A -> list A.

(** The fields of a policy are a [u32] and what the kernel needs no bound for. *)
Hypothesis scan_perm : forall A (l : list A), scan A l ≡ₚ l.
Hypothesis policy_u32 : forall j p, policy_from_json j = Some p -> (0 <= max_per_hour p < 2 ^ 32)%Z.

Abbreviation policy_of r := (issue_creation_policy (pg_row_to_watcher policy_from_json r)).
Abbreviation prepare := (pg_prepare_discovery policy_from_json scan).
Abbreviation record := (pg_record_discovery event_to_json).
Abbreviation submit := (submit_discovery_handler policy_from_json event_to_json event_to_json_pretty scan).

Definition reports_of (a : string) (s : WatchDesk) : list DiscoveryRow := filter (fun r => dr_agent_id r = a) (wd_discoveries s).

(** Identifiers are unique and references hold; a problem has at most one report with an issue, which exists, and a
    suppressed report names this issue; the statistics count the reports, and the counters of the hours are within the policy. *)
Record wd_ok (s : WatchDesk) : Prop := {
  wk_agents : NoDup (wr_agent_id <$> wd_watchers s);
  wk_records : NoDup (dr_id <$> wd_discoveries s);
  wk_refs r : r ∈ wd_discoveries s -> is_Some (find_by wr_agent_id (dr_agent_id r) (wd_watchers s));
  wk_tracked : NoDup (problem <$> filter tracks (wd_discoveries s));
  wk_issues r i : r ∈ wd_discoveries s -> dr_created_issue_id r = Some i -> i ∈ ii_id <$> dk_issues (wd_desk s);
  wk_suppressed r : r ∈ wd_discoveries s -> dr_suppressed r = true ->
    exists r0, r0 ∈ wd_discoveries s /\ tracks r0 /\ problem r0 = problem r /\ dr_created_issue_id r0 = dr_created_issue_id r;
  wk_count w : w ∈ wd_watchers s -> wr_discovery_count w = Z.min i32_max (Z.of_nat (length (reports_of (wr_agent_id w) s)));
  wk_limits a b c : wd_limits s !! (a, b) = Some c ->
    exists w, find_by wr_agent_id a (wd_watchers s) = Some w /\ (0 <= c <= max_per_hour (policy_of w))%Z /\ (c <= i32_max)%Z
}.

(** *** Steps that leave the reports alone *)

(** The row of a watcher, up to its status. *)
Definition same_watcher (r r' : WatcherRow) : Prop :=
  wr_agent_id r' = wr_agent_id r /\ wr_policy_json r' = wr_policy_json r /\ wr_discovery_count r' = wr_discovery_count r.

Record quiet (s s' : WatchDesk) : Prop := {
  qu_rows : Forall2 same_watcher (wd_watchers s) (wd_watchers s');
  qu_discoveries : wd_discoveries s' = wd_discoveries s;
  qu_limits : wd_limits s' = wd_limits s;
  qu_desk : issues_kept (wd_desk s) (wd_desk s')
}.

Lemma same_watcher_refl l : Forall2 same_watcher l l.
Proof using. clear. induction l; by constructor. Qed.

Lemma same_watcher_ids l l' : Forall2 same_watcher l l' -> wr_agent_id <$> l' = wr_agent_id <$> l.
Proof using. clear. induction 1 as [|w w' l l' (Hi & _) _ IH]; [done|]. rewrite !fmap_cons. by rewrite Hi, IH. Qed.

Lemma same_watcher_find l l' a w :
  Forall2 same_watcher l l' -> find_by wr_agent_id a l = Some w -> exists w', find_by wr_agent_id a l' = Some w' /\ same_watcher w w'.
Proof using.
  clear. induction 1 as [|x x' l l' Hx _ IH]; [done|]. unfold find_by in *. rewrite !filter_cons. pose proof Hx as (Hi & _). rewrite Hi.
  case_decide; [|done]. simpl. intros [= <-]. by exists x'.
Qed.

Lemma same_policy w w' : same_watcher w w' -> policy_of w' = policy_of w.
Proof using. clear. intros (_ & Hp & _). simpl. by rewrite Hp. Qed.

Lemma quiet_ok s s' : quiet s s' -> wd_ok s -> wd_ok s'.
Proof using.
  clear policy_u32 scan_perm. intros [R D L I] Hok. constructor; unfold reports_of; rewrite ?D, ?L; try apply Hok.
  - rewrite (same_watcher_ids _ _ R). apply Hok.
  - intros r Hr. destruct (wk_refs _ Hok r Hr) as [w Hw]. destruct (same_watcher_find _ _ _ _ R Hw) as (w' & -> & _). by eexists.
  - intros r i Hr Hi. by apply I, (wk_issues _ Hok r).
  - intros w' Hw'. apply list_elem_of_lookup in Hw' as [k Hk]. destruct (Forall2_lookup_r _ _ _ _ _ R Hk) as (w & Hw & Hi & _ & Hc).
    rewrite Hc, Hi. apply (wk_count _ Hok). by eapply list_elem_of_lookup_2.
  - intros a b c Hl. destruct (wk_limits _ Hok a b c Hl) as (w & Hw & Hc & Hm).
    destruct (same_watcher_find _ _ _ _ R Hw) as (w' & -> & Hs). exists w'. by rewrite (same_policy _ _ Hs).
Qed.

#[export] Instance quiet_pre : PreOrder quiet.
Proof using.
  split; [intros s; split; [apply same_watcher_refl|done..]|]. intros s1 s2 s3 [R1 D1 L1 I1] [R2 D2 L2 I2]. split; [|congruence..|by etransitivity].
  revert R2. generalize (wd_watchers s3). induction R1 as [|x y l l' Hxy _ IH]; intros l3 R2; inversion R2 as [|? z ? ? Hyz]; subst; [done|].
  constructor; [|by apply IH]. destruct Hxy as (? & ? & ?), Hyz as (? & ? & ?). split_and!; congruence.
Qed.

Lemma quiet_on_desk {E A} (m : M Desk E A) : along issues_kept m -> along quiet (on_desk m).
Proof using.
  clear. intros Hm s. specialize (Hm (wd_desk s)). unfold on_desk. destruct (m (wd_desk s)) as [o d]. by split; [apply same_watcher_refl|..].
Qed.

Lemma write_status_quiet st a : along quiet (write_status policy_from_json st a).
Proof using.
  clear policy_u32 scan_perm. intros s. unfold write_status, pg_get_watcher, mbind, M_bind, get_st. simpl.
  destruct (find_by wr_agent_id a (wd_watchers s)); [|reflexivity]. cbv [on_rows modify_st]. simpl.
  set (s' := mkWatchDesk _ _ _ _). assert (Hq : quiet s s').
  { split; [|done..]. unfold s', update_by. simpl. clear. induction (wd_watchers s) as [|r l IH]; simpl; [constructor|].
    constructor; [|exact IH]. by case_decide. }
  by destruct (find_by wr_agent_id a _).
Qed.

(** ** The screening of a report *)

(** What the counter of the hour says once the report is counted. *)
Definition hour_now (s : WatchDesk) : Z := hour_bucket (clock (sv_ticks (dk_repo (wd_desk s)))).
Definition counted (a : string) (s : WatchDesk) : Z := (default 0 (wd_limits s !! (a, hour_now s)) + 1)%Z.

(** The desk after clock readings and draws. *)
Definition later (draws ticks : nat) (d : Desk) : Desk :=
  set_repo (set_streams (draws + sv_draws (dk_repo d)) (ticks + sv_ticks (dk_repo d)) (dk_repo d)) d.

Lemma prepare_eq a e s :
  prepare a e s =
  match find_by wr_agent_id a (wd_watchers s) with
  | None => (Err (WsStorage SeNotFound), s)
  | Some w =>
      if decide (watcher_status_from_db_str (wr_status w) = WtPaused) then (Err (WsStorage SeNotFound), s)
      else
        let key := (a, hour_now s) in
        let limits := <[key := counted a s]> (wd_limits s) in
        if (i32_max <? counted a s)%Z then
          (Err (WsStorage SeDatabase), mkWatchDesk (later 0 1 (wd_desk s)) (wd_watchers s) (wd_discoveries s) (wd_limits s))
        else if (max_per_hour (policy_of w) <? u32_wrap (counted a s))%Z then
          (Err WsRateLimitExceeded, mkWatchDesk (later 0 1 (wd_desk s)) (wd_watchers s) (wd_discoveries s)
                                      (alter (fun c => c - 1)%Z key limits))
        else
          (Ok (mkPreparation (uuid (sv_draws (dk_repo (wd_desk s)))) (dedup_key e) (clock (S (sv_ticks (dk_repo (wd_desk s)))))
                 (latest_tracked scan a (dedup_key e) (wd_discoveries s)) (should_auto_create (policy_of w) (default_priority e))
                 (default_priority e)),
           mkWatchDesk (later 1 2 (wd_desk s)) (wd_watchers s) (wd_discoveries s) limits)
  end.
Proof using.
  clear policy_u32 scan_perm. unfold pg_prepare_discovery, pg_get_watcher, mbind, M_bind, get_st.
  destruct (find_by wr_agent_id a (wd_watchers s)) as [w|]; [|done]. cbn [mret M_ret]. cbn beta iota.
  change (wt_status (pg_row_to_watcher policy_from_json w)) with (watcher_status_from_db_str (wr_status w)).
  case_decide as Hp; [done|]. unfold pg_hour_bucket, count_report, mbind, M_bind, get_st. simpl.
  change (hour_bucket (clock (sv_ticks (dk_repo (wd_desk s))))) with (hour_now s).
  change (default 0 (wd_limits s !! (a, hour_now s)) + 1)%Z with (counted a s).
  destruct (i32_max <? counted a s)%Z; [done|]. simpl. by destruct (_ <? u32_wrap (counted a s))%Z.
Qed.

Lemma policy_nonneg w : (0 <= max_per_hour (policy_of w))%Z.
Proof using policy_u32.
  simpl. destruct (policy_from_json (wr_policy_json w)) as [p|] eqn:Hp; simpl; [by apply (policy_u32 _ _ Hp)|done].
Qed.

Lemma later_kept n k d : issues_kept d (later n k d).
Proof using. clear. intros i Hi. exact Hi. Qed.

Lemma limits_ok s d a b c w :
  wd_ok s -> issues_kept (wd_desk s) d -> find_by wr_agent_id a (wd_watchers s) = Some w ->
  (0 <= c <= max_per_hour (policy_of w))%Z -> (c <= i32_max)%Z ->
  wd_ok (mkWatchDesk d (wd_watchers s) (wd_discoveries s) (<[(a, b) := c]> (wd_limits s))).
Proof using.
  clear policy_u32 scan_perm. intros Hok Hd Hw Hc Hm. constructor; simpl; try apply Hok.
  - intros r i Hr Hi. by apply Hd, (wk_issues _ Hok r).
  - intros a' b' c' [[[= <- <-] <-]|[_ Hl]]%lookup_insert_Some; [by exists w|]. by apply (wk_limits _ Hok a' b').
Qed.

Lemma counted_nonneg a s : wd_ok s -> (0 < counted a s)%Z.
Proof using.
  clear policy_u32 scan_perm. intros Hok. unfold counted. destruct (wd_limits s !! (a, hour_now s)) as [c|] eqn:Hl; simpl; [|lia].
  destruct (wk_limits _ Hok _ _ _ Hl) as (w & _ & Hc & _). lia.
Qed.

Lemma u32_small c : (0 <= c <= i32_max)%Z -> u32_wrap c = c.
Proof using. clear. intros Hc. unfold u32_wrap. apply Z.mod_small. unfold i32_max in Hc. lia. Qed.

Lemma prepare_ok a e s : wd_ok s -> wd_ok (prepare a e s).2.
Proof using policy_u32.
  clear scan_perm. intros Hok. rewrite prepare_eq. destruct (find_by wr_agent_id a (wd_watchers s)) as [w|] eqn:Hw; [|done].
  case_decide; [done|]. cbv zeta. pose proof (counted_nonneg a s Hok) as Hpos. destruct (Z.ltb_spec i32_max (counted a s)) as [|Hm].
  { apply (quiet_ok s); [|done]. split; [apply same_watcher_refl|done|done|apply later_kept]. }
  rewrite u32_small by lia. destruct (Z.ltb_spec (max_per_hour (policy_of w)) (counted a s)) as [Hx|Hx]; simpl.
  - rewrite alter_insert_eq. apply (limits_ok _ _ _ _ _ w); [done|apply later_kept|done| |lia]. unfold counted in *.
    destruct (wd_limits s !! (a, hour_now s)) as [c|] eqn:Hl; simpl in *; [|split; [lia|apply policy_nonneg]].
    destruct (wk_limits _ Hok _ _ _ Hl) as (w' & Hw' & Hc & _). rewrite Hw in Hw'. injection Hw' as <-. simpl in Hc. lia.
  - apply (limits_ok _ _ _ _ _ w); [done|apply later_kept|done|lia|lia].
Qed.

(** ** The record of a report *)

Lemma record_eq a e p i sup s :
  record a e p i sup s =
  match find_by dr_id (pr_record_id p) (wd_discoveries s), find_by wr_agent_id a (wd_watchers s) with
  | None, Some _ =>
      let row := mkDiscoveryRow (pr_record_id p) a (event_type e) (event_to_json e) (pr_dedup_key p) (pr_received_at p) i sup in
      if existsb (fun r => String.eqb (wr_agent_id r) a && (wr_discovery_count r =? i32_max)%Z) (wd_watchers s)
      then (Err (WsStorage SeDatabase), mkWatchDesk (wd_desk s) (wd_watchers s) (wd_discoveries s ++ [row]) (wd_limits s))
      else (Ok (mkDiscovery (pr_record_id p) a e (pr_received_at p) i sup),
            mkWatchDesk (wd_desk s) (update_by wr_agent_id a (with_report (pr_received_at p)) (wd_watchers s))
              (wd_discoveries s ++ [row]) (wd_limits s))
  | _, _ => (Err (WsStorage SeDatabase), s)
  end.
Proof using.
  clear policy_u32 scan_perm. unfold pg_record_discovery, insert_record, mbind, M_bind, get_st. simpl.
  destruct (find_by dr_id _ _); [done|]. destruct (find_by wr_agent_id a _); [|done]. cbv [modify_st]. simpl. unfold write_stats, mbind, M_bind, get_st. simpl.
  by destruct (existsb _ _).
Qed.

Lemma find_update_report a a' t l :
  find_by wr_agent_id a' (update_by wr_agent_id a (with_report t) l) =
  if decide (a' = a) then with_report t <$> find_by wr_agent_id a' l else find_by wr_agent_id a' l.
Proof using. clear. by apply find_by_update. Qed.

(** A report that is recorded: it names no issue, the tracked one, or a new one of a problem that has none. *)
Definition recordable (s : WatchDesk) (row : DiscoveryRow) : Prop :=
  (forall i, dr_created_issue_id row = Some i -> i ∈ ii_id <$> dk_issues (wd_desk s)) /\
  (tracks row -> forall r, r ∈ wd_discoveries s -> tracks r -> problem r <> problem row) /\
  (dr_suppressed row = true -> exists r0, r0 ∈ wd_discoveries s /\ tracks r0 /\ problem r0 = problem row /\ dr_created_issue_id r0 = dr_created_issue_id row).

Lemma append_ok s row ws :
  wd_ok s -> recordable s row -> find_by dr_id (dr_id row) (wd_discoveries s) = None -> is_Some (find_by wr_agent_id (dr_agent_id row) ws) ->
  NoDup (wr_agent_id <$> ws) -> (forall a w, find_by wr_agent_id a (wd_watchers s) = Some w -> exists w', find_by wr_agent_id a ws = Some w' /\ policy_of w' = policy_of w) ->
  (forall w, w ∈ ws -> wr_discovery_count w =
     Z.min i32_max (Z.of_nat (length (reports_of (wr_agent_id w) s) + (if decide (dr_agent_id row = wr_agent_id w) then 1 else 0)))) ->
  wd_ok (mkWatchDesk (wd_desk s) ws (wd_discoveries s ++ [row]) (wd_limits s)).
Proof using.
  clear policy_u32 scan_perm. intros Hok (Hi & Ht & Hs) Hid Hw Hnd Hpol Hc. constructor; simpl.
  - done.
  - by apply snoc_keys_NoDup; [apply Hok|].
  - intros r [Hr| ->%list_elem_of_singleton]%elem_of_app; [|done]. destruct (wk_refs _ Hok r Hr) as [w Hf].
    destruct (Hpol _ _ Hf) as (w' & -> & _). by eexists.
  - rewrite filter_app, fmap_app. apply NoDup_app. split; [apply Hok|]. rewrite filter_cons. case_decide as Hr; simpl.
    + split; [|apply NoDup_singleton]. intros q (r & -> & [Htr Hin]%list_elem_of_filter)%list_elem_of_fmap ?%list_elem_of_singleton.
      by apply (Ht Hr r).
    + split; [by intros q _ ?%not_elem_of_nil|constructor].
  - intros r i [Hr| ->%list_elem_of_singleton]%elem_of_app; [by apply (wk_issues _ Hok r)|apply Hi].
  - intros r Hr Hsup. apply elem_of_app in Hr as [Hr| ->%list_elem_of_singleton].
    + destruct (wk_suppressed _ Hok r Hr Hsup) as (r0 & Hin & H0). exists r0. split; [|done]. apply elem_of_app. by left.
    + destruct (Hs Hsup) as (r0 & Hin & H0). exists r0. split; [|done]. apply elem_of_app. by left.
  - intros w Hin. rewrite (Hc w Hin). unfold reports_of. simpl. rewrite filter_app, length_app, filter_cons. by case_decide.
  - intros a b c Hl. destruct (wk_limits _ Hok a b c Hl) as (w & Hf & Hcm & Hm). destruct (Hpol _ _ Hf) as (w' & -> & Hp). exists w'. simpl in *. by rewrite Hp.
Qed.

Lemma record_ok a e p i sup s :
  wd_ok s ->
  recordable s (mkDiscoveryRow (pr_record_id p) a (event_type e) (event_to_json e) (pr_dedup_key p) (pr_received_at p) i sup) ->
  wd_ok (record a e p i sup s).2.
Proof using.
  clear policy_u32 scan_perm. intros Hok Hr. rewrite record_eq. destruct (find_by dr_id _ _) eqn:Hid; [done|].
  destruct (find_by wr_agent_id a (wd_watchers s)) as [w|] eqn:Hw; [|done]. cbv zeta. set (row := mkDiscoveryRow _ _ _ _ _ _ _ _) in *.
  destruct (existsb _ _) eqn:Hfull; simpl; (apply append_ok; [done..| | | |]).
  - simpl. rewrite Hw. by eexists.
  - apply Hok.
  - intros a' w' Hf. by exists w'.
  - intros w' Hin. rewrite (wk_count _ Hok w' Hin). case_decide as Ha; [|by rewrite Nat.add_0_r]. simpl in Ha.
    apply existsb_exists in Hfull as (x & Hx & [Hxa%String.eqb_eq Hxm%Z.eqb_eq]%andb_prop). apply list_elem_of_In in Hx.
    assert (x = w') as -> by (apply (keys_inj wr_agent_id _ _ _ (wk_agents _ Hok) Hx Hin); congruence).
    rewrite (wk_count _ Hok w' Hin) in Hxm. lia.
  - simpl. rewrite find_update_report, decide_True, Hw by done. by eexists.
  - rewrite update_by_keys by done. apply Hok.
  - intros a' w' Hf. rewrite find_update_report, Hf. case_decide; by eexists.
  - intros w' (x & Hx & ->)%update_by_elem. destruct (decide (wr_agent_id x = a)) as [Ha|Ha].
    + change (wr_agent_id (with_report (pr_received_at p) x)) with (wr_agent_id x). rewrite decide_True by done.
      assert (Hn : wr_discovery_count x <> i32_max).
      { intros Hm. apply not_true_iff_false in Hfull. apply Hfull, existsb_exists. exists x. split; [by apply list_elem_of_In|].
        rewrite Ha, String.eqb_refl, Hm. by apply Z.eqb_eq. }
      rewrite (wk_count _ Hok x Hx) in Hn. simpl. rewrite (wk_count _ Hok x Hx). lia.
    + rewrite decide_False by done. rewrite Nat.add_0_r. by apply (wk_count _ Hok).
Qed.

(** *** The report that a new one is compared with *)

Lemma latest_Some a k l i :
  latest_tracked scan a k l = Some i -> exists r, r ∈ l /\ tracks r /\ problem r = (a, k) /\ dr_created_issue_id r = Some i.
Proof using scan_perm.
  clear policy_u32. unfold latest_tracked. destruct (head _) as [r|] eqn:Hr; [|done]. simpl. intros Hi.
  apply head_Some_elem_of in Hr. rewrite sort_by_elem_of in Hr. apply list_elem_of_filter in Hr as [(Ha & Hk & Hs & Hc) Hin]. rewrite scan_perm in Hin.
  exists r. unfold tracks, problem. by rewrite Ha, Hk.
Qed.

Lemma latest_None a k l r : latest_tracked scan a k l = None -> r ∈ l -> tracks r -> problem r <> (a, k).
Proof using scan_perm.
  clear policy_u32. unfold latest_tracked. intros Hn Hin [Hs Hc] [= Ha Hk].
  assert (Hr : r ∈ sort_by (fun a b => (dr_received_at b <=? dr_received_at a)%Z)
    (filter (fun r => dr_agent_id r = a /\ dr_dedup_key r = k /\ dr_suppressed r = false /\ dr_created_issue_id r <> None) (scan _ l))).
  { rewrite sort_by_elem_of. apply list_elem_of_filter. by rewrite scan_perm. }
  destruct (sort_by _ _) as [|x l'] eqn:El; [by apply not_elem_of_nil in Hr|]. simpl in Hn.
  assert (Hx : x ∈ x :: l') by by left. rewrite <-El, sort_by_elem_of in Hx. apply list_elem_of_filter in Hx as [(_ & _ & _ & ?) _]. done.
Qed.

Lemma prepare_inv a e s p s1 :
  prepare a e s = (Ok p, s1) ->
  exists w, find_by wr_agent_id a (wd_watchers s) = Some w /\ watcher_status_from_db_str (wr_status w) = WtActive /\
    (counted a s <= i32_max)%Z /\ (u32_wrap (counted a s) <= max_per_hour (policy_of w))%Z /\
    p = mkPreparation (uuid (sv_draws (dk_repo (wd_desk s)))) (dedup_key e) (clock (S (sv_ticks (dk_repo (wd_desk s)))))
          (latest_tracked scan a (dedup_key e) (wd_discoveries s)) (should_auto_create (policy_of w) (default_priority e)) (default_priority e) /\
    s1 = mkWatchDesk (later 1 2 (wd_desk s)) (wd_watchers s) (wd_discoveries s) (<[(a, hour_now s) := counted a s]> (wd_limits s)).
Proof using.
  clear policy_u32 scan_perm. rewrite prepare_eq. destruct (find_by _ _ _) as [w|]; [|done]. case_decide as Hp; [done|]. cbv zeta.
  destruct (Z.ltb_spec i32_max (counted a s)); [done|]. destruct (Z.ltb_spec (max_per_hour (policy_of w)) (u32_wrap (counted a s))) as [Hx|Hx]; [done|].
  intros [= <- <-]. exists w. split; [done|]. split; [by destruct (watcher_status_from_db_str _)|]. done.
Qed.

(** ** The issue of a report *)

Abbreviation opening := (open_issue event_to_json event_to_json_pretty).

Lemma create_issue_out ni d :
  let '(o, d') := create_issue ni d in
  issues_kept d d' /\
  match o with
  | Ok i => i_id i ∈ ii_id <$> dk_issues d' /\ i_id i = uuid (sv_draws (dk_repo d))
  | Err _ => info_of (uuid (sv_draws (dk_repo d))) d <> None
  | Panic => False
  end.
Proof using.
  clear. unfold create_issue, mbind, M_bind, desk_draw, desk_now, get_st. simpl.
  destruct (info_of _ _) as [r|] eqn:Hi; simpl; [split; [intros x Hx; exact Hx|]; unfold info_of in *; simpl in *; congruence|].
  unfold get_issue, mbind, M_bind, modify_st. cbn [fst snd]. rewrite info_of_status. unfold info_of in *. simpl in *.
  rewrite find_by_snoc, Hi, decide_True by done. simpl. split.
  - intros x Hx. simpl. rewrite fmap_app, elem_of_app. by left.
  - rewrite fmap_app. split; [|done]. apply elem_of_app. right. by left.
Qed.

Lemma open_issue_spec a e pr s :
  let '(o, s') := opening a e pr s in
  (exists c, o = Ok c /\ (forall i, c = Some i -> i ∈ ii_id <$> dk_issues (wd_desk s')) /\
     (info_of (uuid (sv_draws (dk_repo (wd_desk s)))) (wd_desk s) = None -> c = Some (uuid (sv_draws (dk_repo (wd_desk s)))))) /\
  wd_watchers s' = wd_watchers s /\ wd_discoveries s' = wd_discoveries s /\ wd_limits s' = wd_limits s /\ issues_kept (wd_desk s) (wd_desk s').
Proof using.
  clear policy_u32 scan_perm. unfold open_issue. unfold mbind at 1, M_bind at 1, on_desk at 1.
  pose proof (create_issue_out (issue_of_report event_to_json event_to_json_pretty a e pr) (wd_desk s)) as Hc.
  destruct (create_issue _ _) as [[i|er|] d]; destruct Hc as [Hk Hin]; [destruct Hin as [Hin Hid]|split; [by exists None|done]|done].
  cbv [mbind M_bind on_desk record_event on_repo append_stored]. simpl.
  split; [|done]. exists (Some (i_id i)). split; [done|]. split; [by intros j [= <-]|]. by rewrite Hid.
Qed.

(** ** Submissions *)

Lemma access_eq ok s : on_desk (check_access ok) s = ((if ok then Ok tt else Err HtForbidden), s).
Proof using. clear. unfold on_desk, check_access, on_repo. by destruct ok, s as [[]]. Qed.

Lemma announce_quiet ty s : quiet s (on_desk (announce ty) s).2.
Proof using. clear. apply quiet_on_desk, framed_announce, _. Qed.

(** What a report does once it is counted: it is recorded with the issue of its problem, or with one that it opens. *)
Lemma submit_cases b s p s1 :
  prepare (sd_agent_id b) (sd_event b) s = (Ok p, s1) ->
  exists i sup s2,
    (forall x, x ∈ ii_id <$> dk_issues (wd_desk s1) -> x ∈ ii_id <$> dk_issues (wd_desk s2)) /\ wd_watchers s2 = wd_watchers s1 /\
    wd_discoveries s2 = wd_discoveries s1 /\ wd_limits s2 = wd_limits s1 /\
    match suppressed_with_issue_id p with
    | Some x => i = Some x /\ sup = true /\ s2 = s1
    | None => sup = false /\ (forall x, i = Some x -> x ∈ ii_id <$> dk_issues (wd_desk s2)) /\
        (info_of (uuid (sv_draws (dk_repo (wd_desk s1)))) (wd_desk s1) = None ->
         i = if should_create_issue p then Some (uuid (sv_draws (dk_repo (wd_desk s1)))) else None)
    end /\
    match record (sd_agent_id b) (sd_event b) p i sup s2, submit true b s with
    | (Ok r, s3), (Ok (st, o), s') => st = (if sup then 200 else 201) /\ do_suppressed o = sup /\ do_created_issue_id o = i /\ quiet s3 s' /\ (sup = true -> s' = s3)
    | (Err _, s3), (Err e, s') => e = HtInternal /\ s' = s3
    | _, _ => False
    end.
Proof using.
  clear policy_u32 scan_perm. intros Hp. remember (submit true b s) as out eqn:Hout. unfold submit_discovery_handler in Hout.
  unfold mbind at 1, M_bind at 1 in Hout. rewrite access_eq in Hout.
  unfold mbind at 1, M_bind at 1, kept_store at 1 in Hout. rewrite Hp in Hout. cbn [map_err] in Hout. destruct (suppressed_with_issue_id p) as [x|].
  - exists (Some x), true, s1. split; [done|]. do 4 (split; [done|]). rewrite Hout. clear Hout. unfold mbind, M_bind, internal. rewrite record_eq.
    destruct (find_by dr_id _ _); [done|]. destruct (find_by wr_agent_id _ _); [|done]. cbv zeta. destruct (existsb _ _); [done|]. simpl.
    split_and!; try done.
  - pose proof (open_issue_spec (sd_agent_id b) (sd_event b) (pr_priority p) s1) as Ho.
    set (m := if should_create_issue p then opening _ _ _ else _) in Hout.
    assert (Hm : exists c s2, m s1 = (Ok c, s2) /\ (forall i, c = Some i -> i ∈ ii_id <$> dk_issues (wd_desk s2)) /\
      (info_of (uuid (sv_draws (dk_repo (wd_desk s1)))) (wd_desk s1) = None ->
       c = if should_create_issue p then Some (uuid (sv_draws (dk_repo (wd_desk s1)))) else None) /\
      wd_watchers s2 = wd_watchers s1 /\ wd_discoveries s2 = wd_discoveries s1 /\ wd_limits s2 = wd_limits s1 /\ issues_kept (wd_desk s1) (wd_desk s2)).
    { unfold m. destruct (should_create_issue p); [|exists None, s1; split; [done|]; split_and!; try done; intros x Hx; exact Hx].
      destruct (open_issue _ _ _ _ _ s1) as [o s2]. destruct Ho as ((c & -> & Hc & Hn) & Hw & Hd & Hl & Hk). by exists c, s2. }
    clearbody m. clear Ho. destruct Hm as (c & s2 & Hm & Hc & Hs & Hw & Hd & Hl & Hk). exists c, false, s2. split; [exact Hk|].
    do 3 (split; [done|]). split; [split; [done|]; split; [exact Hc|exact Hs]|].
    unfold mbind at 1, M_bind at 1 in Hout. rewrite Hm in Hout. rewrite Hout. clear Hout. unfold mbind, M_bind, internal. rewrite record_eq.
    destruct (find_by dr_id _ _); [done|]. destruct (find_by wr_agent_id _ _); [|done]. cbv zeta. destruct (existsb _ _); [done|]. simpl.
    destruct c; simpl; split_and!; try done. apply (announce_quiet "IssueCreated").
Qed.

Lemma submit_refused b s e s1 :
  prepare (sd_agent_id b) (sd_event b) s = (Err e, s1) -> submit true b s = (Err (watch_error e), s1).
Proof using.
  clear policy_u32 scan_perm. intros Hp. unfold submit_discovery_handler. unfold mbind at 1, M_bind at 1. rewrite access_eq.
  unfold mbind at 1, M_bind at 1, kept_store at 1. by rewrite Hp.
Qed.

Lemma prepare_no_panic a e s s1 : prepare a e s <> (Panic, s1).
Proof using. clear policy_u32 scan_perm. rewrite prepare_eq. repeat case_match; done. Qed.

Lemma submit_ok ok b s : wd_ok s -> wd_ok (submit ok b s).2.
Proof using policy_u32 scan_perm.
  intros Hok. destruct ok.
  2:{ unfold submit_discovery_handler, mbind, M_bind. by rewrite access_eq. }
  pose proof (prepare_ok (sd_agent_id b) (sd_event b) s Hok) as H1.
  destruct (prepare (sd_agent_id b) (sd_event b) s) as [[p|e|] s1] eqn:Hp; [|by rewrite (submit_refused _ _ _ _ Hp)|by destruct (prepare_no_panic _ _ _ _ Hp)].
  simpl in H1. destruct (submit_cases b s p s1 Hp) as (i & sup & s2 & Hk & Hw & Hd & Hl & Hi & Hs).
  destruct (prepare_inv _ _ _ _ _ Hp) as (w & _ & _ & _ & _ & Hpe & Hs1).
  assert (H2 : wd_ok s2) by (apply (quiet_ok s1); [split; [rewrite Hw; apply same_watcher_refl|done..]|done]).
  assert (Hds : wd_discoveries s2 = wd_discoveries s) by by rewrite Hd, Hs1.
  assert (Hr : wd_ok (record (sd_agent_id b) (sd_event b) p i sup s2).2); [apply (record_ok _ _ _ _ _ _ H2)|].
  - unfold recordable. rewrite Hds. rewrite Hpe in Hi |- *. clear Hs. simpl in *. destruct (latest_tracked _ _ _ _) as [x|] eqn:Hx.
    + destruct Hi as (-> & -> & ->). apply latest_Some in Hx as (r & Hin & Ht & Hpr & Hri). split; [|split].
      * intros y [= <-]. apply (wk_issues _ H2 r); [by rewrite Hds|done].
      * by intros [? _].
      * intros _. by exists r.
    + destruct Hi as (-> & Hc & _). split; [exact Hc|]. split; [|done]. intros _ r Hin Ht. by apply (latest_None _ _ _ _ Hx).
  - destruct (record _ _ _ _ _ _) as [[r|e|] s3]; destruct (submit true b s) as [[[st o]|e'|] s']; try done.
    + destruct Hs as (_ & _ & _ & Hq & _). by apply (quiet_ok s3).
    + by destruct Hs as [_ ->].
Qed.

(** What a report does to the records and to the counters. *)
Lemma submit_effect b s :
  wd_ok s ->
  (exists l, wd_discoveries (submit true b s).2 = wd_discoveries s ++ l) /\
  ((forall x, (submit true b s).1 <> Ok x) /\ (forall k, default 0%Z (wd_limits (submit true b s).2 !! k) = default 0%Z (wd_limits s !! k)) \/
   wd_limits (submit true b s).2 = <[(sd_agent_id b, hour_now s) := counted (sd_agent_id b) s]> (wd_limits s)).
Proof using.
  clear policy_u32 scan_perm. intros Hok. destruct (prepare (sd_agent_id b) (sd_event b) s) as [[p|e|] s1] eqn:Hp; [| |by destruct (prepare_no_panic _ _ _ _ Hp)].
  - destruct (submit_cases b s p s1 Hp) as (i & sup & s2 & _ & _ & Hd & Hl & _ & Hs). destruct (prepare_inv _ _ _ _ _ Hp) as (w & _ & _ & _ & _ & _ & ->).
    rewrite record_eq in Hs. simpl in Hd, Hl. destruct (submit true b s) as [o s']. simpl. rewrite <-Hl, <-Hd. clear Hp Hok.
    destruct (find_by dr_id _ _); [destruct o as [[]| |]; try done; destruct Hs as [_ ->]; split; [exists []; by rewrite app_nil_r|by right]|].
    destruct (find_by wr_agent_id _ _); [|destruct o as [[]| |]; try done; destruct Hs as [_ ->]; split; [exists []; by rewrite app_nil_r|by right]].
    cbv zeta in Hs. destruct (existsb _ _); destruct o as [[st o]|e|]; try done.
    + destruct Hs as [_ ->]. simpl. split; [by eexists|by right].
    + destruct Hs as (_ & _ & _ & [_ Hd' Hl' _] & _). rewrite Hd', Hl'. split; [by eexists|by right].
  - rewrite (submit_refused _ _ _ _ Hp). rewrite prepare_eq in Hp. simpl.
    assert (Hs1 : wd_discoveries s1 = wd_discoveries s /\ forall k, default 0%Z (wd_limits s1 !! k) = default 0%Z (wd_limits s !! k)).
    { destruct (find_by _ _ _); [|by simplify_eq]. case_decide; [by simplify_eq|]. cbv zeta in Hp. destruct (_ <? counted _ _)%Z; [by simplify_eq|].
      destruct (_ <? u32_wrap _)%Z; simplify_eq. simpl. split; [done|]. intros k. rewrite alter_insert_eq.
      destruct (decide (k = (sd_agent_id b, hour_now s))) as [->|Hk]; [|by rewrite lookup_insert_ne]. rewrite lookup_insert_eq. simpl. unfold counted. lia. }
    destruct Hs1 as [Hd Hl]. split; [exists []; by rewrite app_nil_r|]. left. by split.
Qed.

(** ** Requests *)

Variable collate : string -> string -> comparison.
Variable pg_lower : string -> string.
Variable ilike : string -> string -> bool.
Variable b64_decode : string -> option bytes.
Variable parse_upload : bytes -> option UploadAttachmentRequest.
Variable db : AuthDb.
Variable repo_id : Uuid.
Variable iter_order : gset string -> list string.
Variable values : Engine -> list WorkspaceScope.
Variable g : GraphSnapshot.
Variable hash : bytes -> string.
Variable unpack : bytes -> option (list TarEntry).
Variable parse_manifest : bytes -> option DeltaManifest.
Variable read_dir : gmap string VersionMeta -> list VersionMeta.
Variable parse_rust_source : string -> bytes -> outcome GraphError (list Entity * list Relationship).
Variable parse_source_file : string -> bytes -> outcome GraphError (list Entity * list Relationship).

Inductive WatchRequest : Type :=
  | WqRegister (b : RegisterWatcherRequest)
  | WqPause (agent_id : string)
  | WqResume (agent_id : string)
  | WqReport (b : SubmitDiscoveryRequest)
  | WqDesk (rq : DeskRequest).

Definition unit_reply {A} (m : M WatchDesk HttpError A) : M WatchDesk HttpError unit := _ ← m; mret tt.

(** A request about watchers or about issues, and whether the permission check lets it pass. *)
Definition watch_handle (allowed : bool) (rq : WatchRequest) : M WatchDesk HttpError unit :=
  match rq with
  | WqRegister b => unit_reply (register_watcher_handler policy_to_json allowed b)
  | WqPause a => unit_reply (pause_watcher_handler policy_from_json allowed a)
  | WqResume a => unit_reply (resume_watcher_handler policy_from_json allowed a)
  | WqReport b => unit_reply (submit allowed b)
  | WqDesk rq =>
      on_desk (handle scan collate pg_lower ilike b64_decode parse_upload db repo_id iter_order values g hash unpack parse_manifest
        read_dir parse_rust_source parse_source_file allowed rq)
  end.
Definition watch_serve (rqs : list (bool * WatchRequest)) (s : WatchDesk) : WatchDesk :=
  foldl (fun s rq => (watch_handle rq.1 rq.2 s).2) s rqs.

Lemma unit_reply_state {A} (m : M WatchDesk HttpError A) s : (unit_reply m s).2 = (m s).2.
Proof using. clear. unfold unit_reply, mbind, M_bind. by destruct (m s) as [[]]. Qed.

Lemma kept_store_along (R : WatchDesk -> WatchDesk -> Prop) {A} (m : M WatchDesk WatchStoreError A) : along R m -> along R (kept_store m).
Proof using. clear. intros Hm s. specialize (Hm s). unfold kept_store. by destruct (m s). Qed.

Lemma status_quiet st ok a :
  along quiet (_ ← on_desk (check_access ok); w ← kept_store (write_status policy_from_json st a); mret (watcher_response w)).
Proof using.
  clear policy_u32 scan_perm. apply along_bind; [apply _|apply quiet_on_desk, framed_check, _|intros _]. apply along_bind; [apply _| |intros; apply along_ret, _].
  apply kept_store_along, write_status_quiet.
Qed.

(** Registration adds a watcher that has not reported anything. *)
Lemma new_watcher_ok s d row :
  wd_ok s -> issues_kept (wd_desk s) d -> find_by wr_agent_id (wr_agent_id row) (wd_watchers s) = None -> wr_discovery_count row = 0%Z ->
  wd_ok (mkWatchDesk d (wd_watchers s ++ [row]) (wd_discoveries s) (wd_limits s)).
Proof using.
  clear policy_u32 scan_perm. intros Hok Hd Hn H0. constructor; simpl; try apply Hok.
  - by apply snoc_keys_NoDup; [apply Hok|].
  - intros r Hr. rewrite find_by_snoc. destruct (wk_refs _ Hok r Hr) as [w ->]. by eexists.
  - intros r i Hr Hi. by apply Hd, (wk_issues _ Hok r).
  - intros w [Hw| ->%list_elem_of_singleton]%elem_of_app; [by apply (wk_count _ Hok)|]. rewrite H0. unfold reports_of. simpl.
    rewrite filter_none; [done|]. apply Forall_forall. intros r Hr Ha. destruct (wk_refs _ Hok r Hr) as [w Hw]. congruence.
  - intros a b c Hl. destruct (wk_limits _ Hok a b c Hl) as (w & Hf & Hc). rewrite find_by_snoc, Hf. by exists w.
Qed.

Lemma register_ok ok b s : wd_ok s -> wd_ok (register_watcher_handler policy_to_json ok b s).2.
Proof using.
  clear policy_u32 scan_perm. intros Hok. unfold register_watcher_handler, mbind, M_bind. rewrite access_eq. destruct ok; [|done].
  unfold kept_store, register_watcher, mbind, M_bind, get_st. simpl. destruct (find_by _ _ _) eqn:Hf; simpl.
  - apply (quiet_ok s); [|done]. split; [apply same_watcher_refl|done|done|apply later_kept with (n:=0) (k:=1)].
  - apply new_watcher_ok; [done|intros x Hx; exact Hx|exact Hf|done].
Qed.

Lemma watch_handle_ok ok rq s : wd_ok s -> wd_ok (watch_handle ok rq s).2.
Proof using policy_u32 scan_perm.
  intros Hok. destruct rq as [b|a|a|b|rq]; simpl; rewrite ?unit_reply_state.
  - by apply register_ok.
  - apply (quiet_ok s); [apply status_quiet|done].
  - apply (quiet_ok s); [apply status_quiet|done].
  - by apply submit_ok.
  - apply (quiet_ok s); [|done]. apply quiet_on_desk. apply requests_framed; [apply _|]. intros x d i Hi. exact Hi.
Qed.

Lemma watch_serve_ok rqs s : wd_ok s -> wd_ok (watch_serve rqs s).
Proof using policy_u32 scan_perm.
  revert s. induction rqs as [|rq rqs IH]; intros s Hok; [done|]. by apply IH, watch_handle_ok.
Qed.

(** A repository without watchers. *)
Lemma no_watchers_ok d : wd_ok (mkWatchDesk d [] [] ∅).
Proof using. clear policy_u32 scan_perm. constructor; simpl; try constructor; try (by intros * ?%not_elem_of_nil). intros a b c Hl. by rewrite lookup_empty in Hl. Qed.

(** C38. Whatever requests about watchers, reports and issues reach a repository, each problem of a watcher has at most
    one report that opened an issue, the issue exists, and every suppressed report names it, whatever has become of it since; the statistics of a watcher count
    its reports up to the width of the column, and the counter of every hour is within the policy of its watcher. *)
Theorem watch_requests_ok d rqs : wd_ok (watch_serve rqs (mkWatchDesk d [] [] ∅)).
Proof using policy_u32 scan_perm. apply watch_serve_ok, no_watchers_ok. Qed.

(** A report of the watcher in the hour that is accepted. *)
Definition accepts (a : string) (hour : Z) (rq : bool * WatchRequest) (s : WatchDesk) : bool :=
  match rq with
  | (ok, WqReport b) =>
      String.eqb (sd_agent_id b) a && (hour_now s =? hour)%Z && match (submit ok b s).1 with Ok _ => true | _ => false end
  | _ => false
  end.
Fixpoint accepted (a : string) (hour : Z) (rqs : list (bool * WatchRequest)) (s : WatchDesk) : nat :=
  match rqs with
  | [] => 0
  | rq :: rqs' => (if accepts a hour rq s then 1 else 0) + accepted a hour rqs' (watch_handle rq.1 rq.2 s).2
  end.

(** What is neither a registration nor a report leaves the reports alone. *)
Lemma handle_effect rq s :
  wd_ok s ->
  (exists l, wd_discoveries (watch_handle rq.1 rq.2 s).2 = wd_discoveries s ++ l) /\
  forall a h, (default 0 (wd_limits s !! (a, h)) + (if accepts a h rq s then 1 else 0) <= default 0 (wd_limits (watch_handle rq.1 rq.2 s).2 !! (a, h)))%Z.
Proof using.
  clear policy_u32 scan_perm. intros Hok. assert (Hq : forall s', quiet s s' -> (exists l, wd_discoveries s' = wd_discoveries s ++ l) /\
    forall a h, (default 0 (wd_limits s !! (a, h)) + 0 <= default 0 (wd_limits s' !! (a, h)))%Z).
  { intros s' [_ -> -> _]. split; [exists []; by rewrite app_nil_r|]. intros; lia. }
  destruct rq as [ok [b|a|a|b|rq]]; simpl; rewrite ?unit_reply_state.
  - unfold register_watcher_handler, mbind, M_bind. rewrite access_eq. destruct ok; [|apply Hq; reflexivity].
    unfold kept_store, register_watcher, mbind, M_bind, get_st. simpl.
    destruct (find_by _ _ _); simpl; (split; [exists []; by rewrite app_nil_r|intros; lia]).
  - apply Hq, status_quiet.
  - apply Hq, status_quiet.
  - destruct ok.
    2:{ unfold submit_discovery_handler, mbind, M_bind. rewrite access_eq. simpl. setoid_rewrite andb_false_r. apply Hq. reflexivity. }
    destruct (submit_effect b s Hok) as [Hd Hl]. split; [exact Hd|]. intros a h. destruct Hl as [[Hn Hl]|Hl].
    + rewrite Hl. destruct (submit true b s) as [[x| |] s'] eqn:Hs; simpl in *; [by destruct (Hn x)|rewrite andb_false_r; lia..].
    + rewrite Hl. destruct (decide ((a, h) = (sd_agent_id b, hour_now s))) as [[= -> ->]|Hne].
      * rewrite lookup_insert_eq. simpl. unfold counted. case_match; lia.
      * rewrite lookup_insert_ne by congruence. destruct (String.eqb_spec (sd_agent_id b) a), (Z.eqb_spec (hour_now s) h); subst; [done|simpl; lia..].
  - apply Hq, quiet_on_desk, requests_framed; [apply _|]. intros x d i Hi. exact Hi.
Qed.

Lemma accepted_counted a h rqs s :
  wd_ok s -> (default 0 (wd_limits s !! (a, h)) + Z.of_nat (accepted a h rqs s) <= default 0 (wd_limits (watch_serve rqs s) !! (a, h)))%Z.
Proof using policy_u32 scan_perm.
  revert s. induction rqs as [|rq rqs IH]; intros s Hok; cbn [accepted watch_serve foldl]; [lia|].
  pose proof (IH _ (watch_handle_ok rq.1 rq.2 s Hok)) as Hr. destruct (handle_effect rq s Hok) as [_ Hl]. specialize (Hl a h). unfold watch_serve in *. destruct (accepts a h rq s); lia.
Qed.

(** Whatever requests arrive, the reports of a watcher that are accepted in one hour are at most as many as its
    policy allows. *)
Theorem reports_within_policy a h w rqs s :
  wd_ok s -> wd_limits s !! (a, h) = None -> find_by wr_agent_id a (wd_watchers (watch_serve rqs s)) = Some w ->
  (Z.of_nat (accepted a h rqs s) <= max_per_hour (policy_of w))%Z.
Proof using policy_u32 scan_perm.
  intros Hok Hn Hw. pose proof (accepted_counted a h rqs s Hok) as Hc. rewrite Hn in Hc. simpl in Hc.
  assert (Hok' : wd_ok (watch_serve rqs s)) by by apply watch_serve_ok.
  destruct (wd_limits (watch_serve rqs s) !! (a, h)) as [c|] eqn:Hl; simpl in Hc; [|pose proof (policy_nonneg w); lia].
  destruct (wk_limits _ Hok' _ _ _ Hl) as (w' & Hw' & Hm & _). rewrite Hw in Hw'. injection Hw' as <-. lia.
Qed.

(** ** What a report does *)

Lemma served_records rqs s r : wd_ok s -> r ∈ wd_discoveries s -> r ∈ wd_discoveries (watch_serve rqs s).
Proof using policy_u32 scan_perm.
  revert s. induction rqs as [|rq rqs IH]; intros s Hok Hr; [done|]. apply IH; [by apply watch_handle_ok|].
  destruct (handle_effect rq s Hok) as [[l ->] _]. apply elem_of_app. by left.
Qed.

(** In tables that are in order, all reports of a problem that have an issue are one. *)
Lemma latest_is s r :
  wd_ok s -> r ∈ wd_discoveries s -> tracks r -> latest_tracked scan (dr_agent_id r) (dr_dedup_key r) (wd_discoveries s) = dr_created_issue_id r.
Proof using scan_perm.
  clear policy_u32. intros Hok Hr Ht. destruct (latest_tracked _ _ _ _) as [i|] eqn:Hl.
  - apply latest_Some in Hl as (r' & Hr' & Ht' & Hp & <-). f_equal. apply (keys_inj problem _ _ _ (wk_tracked _ Hok)); [by apply list_elem_of_filter..|exact Hp].
  - by destruct (latest_None _ _ _ r Hl Hr Ht).
Qed.

(** Once a problem had an issue, the server never opens another one for it: after any requests, the issue being
    closed among them, a report of the problem is refused or suppressed with that issue, and the issues stay as they are. *)
Theorem reported_once r b rqs s :
  wd_ok s -> r ∈ wd_discoveries s -> tracks r -> problem r = (sd_agent_id b, dedup_key (sd_event b)) ->
  let s' := watch_serve rqs s in
  match submit true b s' with
  | (Ok (st, o), s'') =>
      st = 200 /\ do_suppressed o = true /\ do_created_issue_id o = dr_created_issue_id r /\
      dk_issues (wd_desk s'') = dk_issues (wd_desk s') /\ sv_issues (dk_repo (wd_desk s'')) = sv_issues (dk_repo (wd_desk s'))
  | (Err _, s'') => dk_issues (wd_desk s'') = dk_issues (wd_desk s')
  | (Panic, _) => False
  end.
Proof using policy_u32 scan_perm.
  intros Hok Hr Ht Hp s'. apply (served_records rqs) in Hr; [|done]. apply (watch_serve_ok rqs) in Hok. fold s' in Hok, Hr.
  injection Hp as Ha Hk. pose proof (latest_is s' r Hok Hr Ht) as Hlat. rewrite Ha, Hk in Hlat. destruct Ht as [_ Hi].
  destruct (prepare (sd_agent_id b) (sd_event b) s') as [[p|e|] s1] eqn:Hpr; [| |by destruct (prepare_no_panic _ _ _ _ Hpr)].
  - destruct (submit_cases b s' p s1 Hpr) as (i & sup & s2 & _ & _ & _ & _ & Hc & Hs).
    destruct (prepare_inv _ _ _ _ _ Hpr) as (w & _ & _ & _ & _ & Hpe & Hs1).
    rewrite Hpe in Hc. simpl in Hc. rewrite Hlat in Hc. destruct (dr_created_issue_id r) as [x|]; [|done]. destruct Hc as (-> & -> & ->).
    rewrite record_eq in Hs. destruct (find_by dr_id _ _); [destruct (submit true b s') as [[[]| |] s'']; try done; destruct Hs as [_ ->]; by rewrite Hs1|].
    destruct (find_by wr_agent_id _ _); [|destruct (submit true b s') as [[[]| |] s'']; try done; destruct Hs as [_ ->]; by rewrite Hs1].
    cbv zeta in Hs. destruct (existsb _ _); destruct (submit true b s') as [[[st o]| |] s'']; try done.
    + destruct Hs as [_ ->]. simpl. by rewrite Hs1.
    + destruct Hs as (-> & -> & -> & _ & Hs3). rewrite (Hs3 eq_refl). simpl. by rewrite Hs1.
  - rewrite (submit_refused _ _ _ _ Hpr). rewrite prepare_eq in Hpr.
    destruct (find_by _ _ _); [|by simplify_eq]. case_decide; [by simplify_eq|]. cbv zeta in Hpr. destruct (_ <? counted _ _)%Z; [by simplify_eq|].
    by destruct (_ <? u32_wrap _)%Z; simplify_eq.
Qed.

(** A report is refused without the right to write, for an unknown or paused watcher, and over the
    limit of the hour, when nothing is recorded; otherwise it is recorded, with the issue of its problem when there is one, and
    else with an issue that it opens when the policy says so. *)
Theorem report_spec b s :
  wd_ok s ->
  let d := wd_desk s in let a := sd_agent_id b in let id n := uuid (n + sv_draws (dk_repo d)) in
  submit false b s = (Err HtForbidden, s) /\
  match find_by wr_agent_id a (wd_watchers s) with
  | None => submit true b s = (Err HtNotFound, s)
  | Some w =>
      (watcher_status_from_db_str (wr_status w) = WtPaused -> submit true b s = (Err HtNotFound, s)) /\
      (watcher_status_from_db_str (wr_status w) = WtActive -> (counted a s <= i32_max)%Z ->
       ((max_per_hour (policy_of w) < counted a s)%Z ->
          (submit true b s).1 = Err HtRateLimited /\ wd_discoveries (submit true b s).2 = wd_discoveries s) /\
       ((counted a s <= max_per_hour (policy_of w))%Z -> (wr_discovery_count w < i32_max)%Z ->
          find_by dr_id (id 0) (wd_discoveries s) = None -> info_of (id 1) d = None ->
          let should := should_auto_create (policy_of w) (default_priority (sd_event b)) in
          exists st o s', submit true b s = (Ok (st, o), s') /\
            wd_discoveries s' = wd_discoveries s ++
              [mkDiscoveryRow (id 0) a (event_type (sd_event b)) (event_to_json (sd_event b)) (dedup_key (sd_event b))
                 (clock (S (sv_ticks (dk_repo d)))) (do_created_issue_id o) (do_suppressed o)] /\
            match latest_tracked scan a (dedup_key (sd_event b)) (wd_discoveries s) with
            | Some i => st = 200 /\ do_suppressed o = true /\ do_created_issue_id o = Some i
            | None => st = 201 /\ do_suppressed o = false /\ do_created_issue_id o = (if should then Some (id 1) else None)
            end))
  end.
Proof using policy_u32.
  clear scan_perm. intros Hok d a id. split; [unfold submit_discovery_handler, mbind, M_bind; by rewrite access_eq|].
  pose proof (prepare_eq a (sd_event b) s) as Hpr. destruct (find_by wr_agent_id a (wd_watchers s)) as [w|] eqn:Hw; [|by rewrite (submit_refused _ _ _ _ Hpr)].
  split; [intros Hs; rewrite decide_True in Hpr by done; by rewrite (submit_refused _ _ _ _ Hpr)|].
  intros Hs Hm. rewrite decide_False in Hpr by (by rewrite Hs). cbv zeta in Hpr. rewrite (proj2 (Z.ltb_ge _ _) Hm) in Hpr.
  pose proof (counted_nonneg a s Hok). rewrite u32_small in Hpr by lia. split.
  - intros Hx. rewrite (proj2 (Z.ltb_lt _ _) Hx) in Hpr. by rewrite (submit_refused _ _ _ _ Hpr).
  - intros Hx Hcnt Hid Hi. rewrite (proj2 (Z.ltb_ge _ _) Hx) in Hpr. destruct (submit_cases b s _ _ Hpr) as (i & sup & s2 & _ & Hw2 & Hd2 & _ & Hc & Hrec).
    simpl in Hw2, Hd2. rewrite record_eq, Hw2, Hd2 in Hrec. cbn [pr_record_id] in Hrec. change (uuid (sv_draws (dk_repo (wd_desk s)))) with (id 0) in Hrec.
    fold a in Hrec. rewrite Hid, Hw in Hrec. cbv zeta in Hrec. destruct (existsb _ _) eqn:He.
    { apply existsb_exists in He as (x & Hin & [Hxa%String.eqb_eq Hxm%Z.eqb_eq]%andb_prop). apply list_elem_of_In in Hin.
      rewrite (find_by_elem wr_agent_id a _ x (wk_agents _ Hok) Hin Hxa) in Hw. injection Hw as ->. lia. }
    destruct (submit true b s) as [[[st o]| |] s']; [|done..]. destruct Hrec as (-> & <- & <- & [_ Hds _ _] & _). eexists _, _, s'. split; [reflexivity|].
    split; [rewrite Hds; reflexivity|]. cbn [suppressed_with_issue_id should_create_issue] in Hc. fold a in Hc.
    destruct (latest_tracked _ _ _ _); [by destruct Hc as (-> & -> & _)|]. destruct Hc as (-> & _ & Hn). split; [done|]. split; [done|]. apply Hn, Hi.
Qed.
End watching.

(** ** A repository to compute with *)

#[local] Existing Instances desk_env ascii_unicode.

(** A watcher that opens issues by itself, two reports an hour; the JSON of its policy is one word. *)
Definition ex_policy : IssueCreationPolicy := mkPolicy true 2 None.
Definition ex_policy_to (p : IssueCreationPolicy) : string := "auto".
Definition ex_policy_from (j : string) : option IssueCreationPolicy := if String.eqb j "auto" then Some ex_policy else None.
Definition ex_event_to (e : DiscoveryEventKind) : string := dedup_key e.
Definition ex_scan A (l : list A) : list A := l.

Definition ex_watch_serve : list (bool * WatchRequest) -> WatchDesk -> WatchDesk :=
  watch_serve ex_policy_to ex_policy_from ex_event_to ex_event_to ex_scan String.compare (fun s => s) String.eqb wit_decode (fun _ => None)
    (mkAuthDb [] [] [] [] [] ∅ [] [] [] [] [] ∅ 0 0) "repo" elements ex_values ex_graph string_of wit_unpack wit_manifest wit_dir
    wit_parser wit_parser.
Definition ex_report_with : SubmitDiscoveryRequest -> M WatchDesk HttpError (nat * DiscoveryOutcomeResponse) :=
  submit_discovery_handler ex_policy_from ex_event_to ex_event_to ex_scan true.

Definition ex_register : RegisterWatcherRequest := mkRegister "ci" "test_suite" "" ex_policy.
Definition ex_failure : SubmitDiscoveryRequest := mkSubmitDiscovery "ci" (TestFailureDiscovered "unit" "login" "" None).
Definition bare_desk : WatchDesk := mkWatchDesk empty_desk [] [] ∅.
Definition watched_desk : WatchDesk := ex_watch_serve [(true, WqRegister ex_register)] bare_desk.
Definition reported_desk : WatchDesk := ex_watch_serve [(true, WqReport ex_failure)] watched_desk.
Definition ex_reported : DiscoveryRow :=
  mkDiscoveryRow "w0" "ci" "test_failure" "test_failure::unit::login" "test_failure::unit::login" 2 (Some "w1"%string) false.

Lemma ex_scan_perm A (l : list A) : ex_scan A l ≡ₚ l.
Proof. done. Qed.
Lemma ex_policy_u32 j p : ex_policy_from j = Some p -> (0 <= max_per_hour p < 2 ^ 32)%Z.
Proof. unfold ex_policy_from. case_match; [|done]. by intros [= <-]. Qed.

Lemma watched_desk_ok : wd_ok ex_policy_from watched_desk.
Proof. apply watch_serve_ok; [exact ex_scan_perm|exact ex_policy_u32|apply no_watchers_ok]. Qed.
Lemma reported_desk_ok : wd_ok ex_policy_from reported_desk.
Proof. apply watch_serve_ok; [exact ex_scan_perm|exact ex_policy_u32|exact watched_desk_ok]. Qed.

Lemma ex_reported_there : wd_discoveries reported_desk = [ex_reported].
Proof. vm_compute. reflexivity. Qed.

Lemma watch_requests_ok_witness :
  let s := ex_watch_serve [(true, WqRegister ex_register); (true, WqReport ex_failure); (true, WqReport ex_failure)] bare_desk in
  wd_ok ex_policy_from s /\ length (wd_discoveries s) = 2 /\ ii_id <$> dk_issues (wd_desk s) = ["w1"%string].
Proof.
  intros s. split; [|vm_compute; split; reflexivity]. unfold s, ex_watch_serve, bare_desk.
  apply watch_requests_ok; [exact ex_scan_perm|exact ex_policy_u32].
Defined.

(** Of three reports in an hour two are accepted. *)
Definition ex_three : list (bool * WatchRequest) := [(true, WqReport ex_failure); (true, WqReport ex_failure); (true, WqReport ex_failure)].
Definition ex_accepted (rqs : list (bool * WatchRequest)) (s : WatchDesk) : nat :=
  accepted ex_policy_to ex_policy_from ex_event_to ex_event_to ex_scan String.compare (fun s => s) String.eqb wit_decode (fun _ => None)
    (mkAuthDb [] [] [] [] [] ∅ [] [] [] [] [] ∅ 0 0) "repo" elements ex_values ex_graph string_of wit_unpack wit_manifest wit_dir
    wit_parser wit_parser "ci" 0 rqs s.

Lemma reports_within_policy_witness : ex_accepted ex_three watched_desk = 2 /\ (Z.of_nat (ex_accepted ex_three watched_desk) <= 2)%Z.
Proof.
  split; [vm_compute; reflexivity|].
  assert (Hw : exists w, find_by wr_agent_id "ci"%string (wd_watchers (ex_watch_serve ex_three watched_desk)) = Some w /\
    max_per_hour (issue_creation_policy (pg_row_to_watcher ex_policy_from w)) = 2%Z) by (eexists; split; vm_compute; reflexivity).
  destruct Hw as (w & Hw & Hp).
  rewrite <-Hp. unfold ex_accepted.
  apply reports_within_policy; [exact ex_scan_perm|exact ex_policy_u32|exact watched_desk_ok|vm_compute; reflexivity|exact Hw].
Defined.

(** The issue is closed, and the problem comes back. *)
Definition closed_desk : WatchDesk := ex_watch_serve [(true, WqDesk (DqCloseIssue "w1" "fixed"))] reported_desk.

Lemma reported_once_witness :
  status_of (wd_desk closed_desk) "w1" = Closed /\
  exists o s, ex_report_with ex_failure closed_desk = (Ok (200, o), s) /\ do_suppressed o = true /\ do_created_issue_id o = Some "w1"%string /\
    dk_issues (wd_desk s) = dk_issues (wd_desk closed_desk).
Proof.
  split; [vm_compute; reflexivity|].
  assert (Hin : ex_reported ∈ wd_discoveries reported_desk) by (rewrite ex_reported_there; by left).
  assert (Ht : tracks ex_reported) by (split; [reflexivity|discriminate]).
  pose proof (reported_once ex_policy_to ex_policy_from ex_event_to ex_event_to ex_scan ex_scan_perm ex_policy_u32 String.compare (fun s => s) String.eqb
    wit_decode (fun _ => None) (mkAuthDb [] [] [] [] [] ∅ [] [] [] [] [] ∅ 0 0) "repo" elements ex_values ex_graph string_of wit_unpack
    wit_manifest wit_dir wit_parser wit_parser ex_reported ex_failure [(true, WqDesk (DqCloseIssue "w1" "fixed"))] reported_desk reported_desk_ok Hin Ht eq_refl) as H.
  cbv zeta in H. fold ex_watch_serve in H. fold closed_desk in H. fold ex_report_with in H.
  assert (Hok : exists x s, ex_report_with ex_failure closed_desk = (Ok x, s)) by (do 2 eexists; vm_compute; reflexivity).
  destruct Hok as ([st o] & s & Ho). rewrite Ho in H. destruct H as (-> & Hs & Hc & Hi & _). exists o, s. split; [exact Ho|]. split; [exact Hs|]. split; [exact Hc|exact Hi].
Defined.

Lemma report_spec_witness :
  exists o s, ex_report_with ex_failure watched_desk = (Ok (201, o), s) /\ do_created_issue_id o = Some "w1"%string /\ length (wd_discoveries s) = 1.
Proof.
  pose proof (report_spec ex_policy_from ex_event_to ex_event_to ex_scan ex_policy_u32 ex_failure watched_desk watched_desk_ok) as (_ & H).
  destruct (find_by wr_agent_id (sd_agent_id ex_failure) (wd_watchers watched_desk)) as [w|] eqn:Hw; [|vm_compute in Hw; discriminate].
  vm_compute in Hw. injection Hw as <-. destruct H as (_ & H). destruct H as [_ H]; [vm_compute; reflexivity|vm_compute; discriminate|].
  destruct H as (st & o & s & Ho & Hd & Hc); [vm_compute; discriminate|vm_compute; reflexivity..|].
  exists o, s. assert (Hl : wd_discoveries watched_desk = []) by (vm_compute; reflexivity). rewrite Hl in Hd, Hc. destruct Hc as (-> & _ & Hc).
  split; [exact Ho|]. split; [rewrite Hc; vm_compute; reflexivity|]. by rewrite Hd.
Defined.
