(* ===== verification/VersionServer.v ===== *)
(** The versions of the hosted server: the row of a version, what it changed, the patches of its files, and the
    rollback ([src/src/server/version.rs], [src/src/storage/postgres/version.rs]). *)
From S2P Require Import Prelude Table RustStr Graph EventLog MergeFs VaiDir Workspace Version Submit Issue ServerRepo.

(** ** Replies *)

Record VersionDiffFile : Type := mkVersionDiffFile { vd_path : string; vd_change_type : string; vd_diff : string }.
Record VersionDiffResponse : Type := mkVersionDiff {
  vd_version_id : string; vd_base_version_id : string; vd_files : list VersionDiffFile
}.

(** A change with the hashes of its contents. *)
Record FileChangeHashes : Type := mkChangeHashes {
  fh_path : string; fh_change_type : VersionChangeType; fh_new_hash : option string; fh_old_hash : option string
}.

Definition hashes_of (k : EventKind) : option FileChangeHashes :=
  match k with
  | FileAdded _ path hash => Some (mkChangeHashes path VcAdded (Some hash) None)
  | FileModified _ path old_hash new_hash => Some (mkChangeHashes path VcModified (Some new_hash) (Some old_hash))
  | FileRemoved _ path => Some (mkChangeHashes path VcRemoved None None)
  | _ => None
  end.

(** A refused rollback: with the analysis of its impact, or with a status alone. *)
Inductive RollbackRefusal : Type := RbImpact (i : ImpactAnalysis) | RbError (e : HttpError).

Section versions.
Variable clock : nat -> DateTime.
Variable parse_uuid : string -> option Uuid.
(** The id that the database gave to the row of a version; the library that prints patches. *)
Variable row_id : string -> Uuid.
Variable create_patch : string -> string -> string.

Abbreviation H := (M ServerRepo HttpError).

(** [get_version] of the store: by the id of the row, then by name. *)
Definition version_row (id : string) : H VersionMeta := fun s =>
  let by_name := match find_by version_id id (sv_versions s) with Some v => Ok v | None => Err HtNotFound end in
  (match parse_uuid id ≫= (fun u => find_by (row_id ∘ version_id) u (sv_versions s)) with
   | Some v => Ok v
   | None => by_name
   end, s).

(** The workspace that a version merged, through its merge event. *)
Definition merge_workspace (meta : VersionMeta) (s : ServerRepo) : option Uuid :=
  merge_event_id ← merge_event_id meta;
  e ← find_by ev_id merge_event_id (query_by_type (sv_events s) "MergeCompleted");
  event_workspace_id (ev_kind e).

Definition get_version_handler (allowed : bool) (id : string) : H VersionChanges :=
  _ ← check allowed;
  meta ← version_row id;
  s ← get_st;
  match merge_workspace meta s with
  | None => mret (mkChanges meta [] [])
  | Some workspace_id =>
      let events := query_by_workspace (sv_events s) workspace_id in
      mret (mkChanges meta (omap (entity_change_of ∘ ev_kind) events) (omap (file_change_of ∘ ev_kind) events))
  end.

(** ** Patches *)

(** The last hash of each path before the workspace: its own events are left out. *)
Definition path_to_hash (workspace_id : Uuid) (s : ServerRepo) : gmap string string :=
  foldl (fun m e => if bool_decide (event_workspace_id (ev_kind e) = Some workspace_id) then m else path_hash m e) ∅
    (filter (fun e => (0 < ev_id e)%N) (sv_events s)).

Definition is_removed (c : FileChangeHashes) : bool := bool_decide (fh_change_type c = VcRemoved).

Definition resolve_removed (workspace_id : Uuid) (s : ServerRepo) (cs : list FileChangeHashes) : list FileChangeHashes :=
  if existsb is_removed cs then
    let hashes := path_to_hash workspace_id s in
    (fun c => if is_removed c && bool_decide (fh_old_hash c = None)
              then mkChangeHashes (fh_path c) (fh_change_type c) (fh_new_hash c) (hashes !! fh_path c) else c) <$> cs
  else cs.

Definition stored_text (key : string) (s : ServerRepo) : option string := sv_files s !! key ≫= from_utf8.

(** The directory of the repository on the server itself, for contents that the store does not have. *)
Variables (disk : Disk) (vai_dir : string).

Definition disk_text (p : string) : option string := if path_exists disk p then disk !! p ≫= from_utf8 else None.

Definition first_text (a b : option string) : option string := match a with Some t => Some t | None => b end.

Definition old_text (id : string) (s : ServerRepo) (c : FileChangeHashes) : option string :=
  first_text (fh_old_hash c ≫= fun hash => stored_text (blob_key hash) s)
    (first_text (stored_text ("versions/" +:+ id +:+ "/snapshot/" +:+ fh_path c) s)
       (disk_text (path_join (path_join (path_join (path_join vai_dir "versions") id) "snapshot") (fh_path c)))).

Definition new_text (workspace_id : Uuid) (s : ServerRepo) (c : FileChangeHashes) : option string :=
  match fh_new_hash c with
  | None => None
  | Some hash =>
      first_text (stored_text (blob_key hash) s)
        (first_text (stored_text (overlay_prefix_of workspace_id +:+ fh_path c) s)
           (disk_text (path_join (path_join (path_join (path_join vai_dir "workspaces") workspace_id) "overlay")
                         (fh_path c))))
  end.

Definition diff_text (old new : option string) : string :=
  match old, new with
  | None, Some new => create_patch "" new
  | Some old, None => create_patch old ""
  | Some old, Some new => create_patch old new
  | None, None => ""
  end.

Definition diff_file (id : string) (workspace_id : Uuid) (s : ServerRepo) (c : FileChangeHashes) : VersionDiffFile :=
  mkVersionDiffFile (fh_path c) (change_label (fh_change_type c)) (diff_text (old_text id s c) (new_text workspace_id s c)).

Definition get_version_diff_handler (allowed : bool) (id : string) (base : option string) : H VersionDiffResponse :=
  _ ← check allowed;
  meta ← version_row id;
  s ← get_st;
  let base_version_id := default "" (first_text base (parent_version_id meta)) in
  match merge_workspace meta s with
  | None => mret (mkVersionDiff id base_version_id [])
  | Some workspace_id =>
      let file_changes := omap (hashes_of ∘ ev_kind) (query_by_workspace (sv_events s) workspace_id) in
      mret (mkVersionDiff id base_version_id
              (diff_file id workspace_id s <$> resolve_removed workspace_id s file_changes))
  end.

(** ** Rollback *)

Definition version_error (e : VersionError) : HttpError :=
  match e with VNotFound _ => HtNotFound | VIo => HtInternal end.

(** The stores next to the directory of the repository on the server. *)
Definition Hosted : Type := ServerRepo * (VaiDir * Disk).

(** [create_version] of the store: the database dates the row. *)
Definition create_version_row (v : VersionMeta) : H unit :=
  t ← tick clock;
  insert_version (mkVersion (version_id v) (parent_version_id v) (v_intent v) (created_by v) t (merge_event_id v)).

Variable read_dir : gmap string VersionMeta -> list VersionMeta.
Variable repo_root : string.

(** The impact and the rollback are those of the directory; the stores get the new version and HEAD. *)
Definition rollback_handler (allowed : bool) (version : string) (force : bool) : M Hosted RollbackRefusal RollbackResult :=
  fun '(s, (v, d)) =>
  if negb allowed then (Err (RbError HtForbidden), (s, (v, d)))
  else match analyze_rollback_impact read_dir v version with
  | Err e => (Err (RbError (version_error e)), (s, (v, d)))
  | Panic => (Panic, (s, (v, d)))
  | Ok impact =>
      if negb force && negb (bool_decide (length (downstream_impacts impact) = 0))
      then (Err (RbImpact impact), (s, (v, d)))
      else match rollback clock read_dir vai_dir repo_root version None (v, d) with
      | (Ok result, local) =>
          let s' := ((_ ← best_effort (create_version_row (new_version result));
                      advance_head (version_id (new_version result))) s).2 in
          (Ok result, (s', local))
      | (Err e, local) => (Err (RbError (version_error e)), (s, local))
      | (Panic, local) => (Panic, (s, local))
      end
  end.
End versions.
