(* ===== verification/VersionServerProps.v ===== *)
(** What the version requests answer about a history of requests: the contents that the log names are in the store,
    the details of a version cover what it changed, its patches are between recorded contents, and a rollback. *)
From S2P Require Import Prelude Table RustStr TextMerge Graph EventLog MergeEngine MergeFs VaiDir Workspace Version Diff Submit SubmitFrame Conflict Escalation Issue ServerRepo ServerPull VersionServer.

(** ** Contents by hash *)

Section blobs.
Variable sha256_hex : bytes -> string.

(** The hash of the content that an event brings. *)
Definition brings (k : EventKind) : option string :=
  match k with FileAdded _ _ h | FileModified _ _ _ h => Some h | _ => None end.

Definition has_blob (h : string) (s : ServerRepo) : Prop :=
  exists c, sv_files s !! blob_key h = Some c /\ sha256_hex c = h.

(** Each content that the log names is in the store, under its hash. *)
Definition blobs_ok (s : ServerRepo) : Prop :=
  forall e h, e ∈ sv_events s -> brings (ev_kind e) = Some h -> has_blob h s.

(** No content is lost, and the log names none that is missing. *)
Definition keeps_blobs (s s' : ServerRepo) : Prop :=
  (forall h, has_blob h s -> has_blob h s') /\ (blobs_ok s -> blobs_ok s').

#[local] Instance keeps_blobs_pre : PreOrder keeps_blobs.
Proof using. split; [by split|]. intros s1 s2 s3 [H1 B1] [H2 B2]. split; auto. Qed.

Lemma keeps_blobs_files s s' :
  (forall h, has_blob h s -> has_blob h s') -> sv_events s' = sv_events s -> keeps_blobs s s'.
Proof using. intros Hf He. split; [done|]. intros Hok e h. rewrite He. eauto. Qed.

Lemma keeps_blobs_same s s' : sv_files s' = sv_files s -> sv_events s' = sv_events s -> keeps_blobs s s'.
Proof using. intros Hf. apply keeps_blobs_files. intros h (c & Hc & Hh). exists c. by rewrite Hf. Qed.

Lemma keeps_blobs_put k c s :
  (forall h, k = blob_key h -> sha256_hex c = h) -> keeps_blobs s (set_files (<[k := c]> (sv_files s)) s).
Proof using.
  intros Hk. apply keeps_blobs_files; [|done]. intros h (c' & Hc' & Hh). destruct (decide (k = blob_key h)) as [->|Hne].
  - exists c. simpl. rewrite lookup_insert_eq. auto.
  - exists c'. simpl. by rewrite lookup_insert_ne.
Qed.

Lemma keeps_blobs_append clock k s : (forall h, brings k = Some h -> has_blob h s) ->
  keeps_blobs s (append_stored clock k s).2.
Proof using.
  intros Hk. split; [intros h (c & ?); by exists c|]. intros Hok e h [He|He]%elem_of_app Hh.
  - destruct (Hok e h He Hh) as (c & ?). by exists c.
  - apply list_elem_of_singleton in He as ->. destruct (Hk h Hh) as (c & ?). by exists c.
Qed.

Lemma blob_key_inj h h' : blob_key h = blob_key h' -> h = h'.
Proof using. intros [= E]. exact E. Qed.

Lemma has_blob_put h c s : sha256_hex c = h -> has_blob h (set_files (<[blob_key h := c]> (sv_files s)) s).
Proof using. intros Hh. exists c. simpl. by rewrite lookup_insert_eq. Qed.
End blobs.
#[export] Existing Instance keeps_blobs_pre.

(** ** The requests *)

Section server.
Variable clock : nat -> DateTime.
Variable uuid : nat -> Uuid.
Variable parse_uuid : string -> option Uuid.
Variable sha256_hex : bytes -> string.
Variable iter_order : gset string -> list string.
Variable unpack : bytes -> option (list TarEntry).
Variable parse_manifest : bytes -> option DeltaManifest.
Variable b64_decode : string -> option bytes.
Variable values : Engine -> list WorkspaceScope.
Variable read_dir : gmap string VersionMeta -> list VersionMeta.
Variable parse_rust_source : string -> bytes -> outcome GraphError (list Entity * list Relationship).
Variable parse_source_file : string -> bytes -> outcome GraphError (list Entity * list Relationship).
Hypothesis parse_uuid_ok : forall id u, parse_uuid id = Some u -> has_char "/" id = false /\ id_ok u.
Hypothesis read_dir_ok : dir_ok read_dir.

Abbreviation H := (M ServerRepo HttpError).
Abbreviation keeps m := (along (keeps_blobs sha256_hex) m).
Abbreviation server_handle := (handle clock uuid parse_uuid sha256_hex iter_order unpack parse_manifest b64_decode values
  read_dir parse_rust_source parse_source_file).
Abbreviation server_serve := (serve clock uuid parse_uuid sha256_hex iter_order unpack parse_manifest b64_decode values
  read_dir parse_rust_source parse_source_file).

(** A request that touches neither the files nor the log. *)
Lemma keeps_same {A} (m : H A) :
  (forall s, sv_files (m s).2 = sv_files s /\ sv_events (m s).2 = sv_events s) -> keeps m.
Proof using. intros Hm s. by apply keeps_blobs_same; apply Hm. Qed.

Lemma keeps_append k : brings k = None -> keeps (append_stored clock k).
Proof using. intros Hk s. apply keeps_blobs_append. by rewrite Hk. Qed.

Lemma keeps_tick : keeps (tick clock).
Proof using. by apply keeps_same. Qed.
Lemma keeps_new_uuid : keeps (new_uuid uuid).
Proof using. by apply keeps_same. Qed.
Lemma keeps_modify f : (forall s, sv_files (f s) = sv_files s /\ sv_events (f s) = sv_events s) -> keeps (modify_st f : H unit).
Proof using. intros Hf. apply keeps_same. exact Hf. Qed.
Lemma keeps_broadcast ty ws : keeps (broadcast ty ws).
Proof using. by apply keeps_same. Qed.
Lemma keeps_forget_scope u : keeps (forget_scope u).
Proof using. by apply keeps_same. Qed.
Lemma keeps_check b : keeps (check b).
Proof using. by destruct b; apply keeps_same. Qed.
Lemma keeps_check_len n s : keeps (check_len n s).
Proof using. unfold check_len. case_match; by apply keeps_same. Qed.
Lemma keeps_find_workspace id : keeps (find_workspace parse_uuid id).
Proof using.
  apply keeps_same. intros s. unfold find_workspace, get_ws, mbind, M_bind, get_st. by repeat case_match; simplify_eq/=.
Qed.
Lemma keeps_best_effort {A} (m : H A) : keeps m -> keeps (best_effort m).
Proof using. intros Hm s. apply Hm. Qed.
Lemma keeps_insert_version v : keeps (insert_version v).
Proof using. apply keeps_same. intros s. unfold insert_version. by case_match. Qed.
Lemma keeps_advance_head v : keeps (advance_head v).
Proof using. by apply keeps_same. Qed.
Lemma keeps_reopen i : keeps (reopen_issue i).
Proof using.
  apply keeps_same. intros s. unfold reopen_issue, mbind, M_bind, get_st. destruct i as [i|]; [|done]. by repeat case_match.
Qed.
Lemma keeps_update_conflicts ws intent paths : keeps (update_conflicts values ws intent paths).
Proof using.
  intros s. unfold update_conflicts, mbind, M_bind at 1, get_st. destruct (update_scope _ _ _ _ _) as [overlaps e].
  unfold put_st. apply (PreOrder_Transitive _ (set_engine e s)); [by apply keeps_blobs_same|].
  apply (along_for_each (keeps_blobs sha256_hex)). intros o. apply along_bind; [apply _|apply keeps_broadcast|intros; apply keeps_broadcast].
Qed.

Create HintDb blobs.
#[local] Hint Resolve along_ret along_fail along_get along_lift along_for_each keeps_append keeps_tick
  keeps_broadcast keeps_forget_scope keeps_check keeps_check_len keeps_find_workspace keeps_best_effort
  keeps_insert_version keeps_advance_head keeps_reopen keeps_update_conflicts : blobs.

Ltac keeps := repeat (first [solve [auto 3 with blobs]|progress intros|apply along_bind; [apply _|..]|apply along_for_each; [apply _|]|case_match|
  by apply keeps_modify]).

Lemma keeps_update_workspace u st iss del : keeps (update_workspace clock u st iss del).
Proof using. unfold update_workspace, get_ws. keeps. Qed.
#[local] Hint Resolve keeps_update_workspace : blobs.

Lemma keeps_record_deletions w paths merged : keeps (record_deletions clock w paths merged).
Proof using. revert merged; induction paths as [|p paths IH]; intros merged; simpl; keeps. Qed.
#[local] Hint Resolve keeps_record_deletions : blobs.

Lemma keeps_finish_upload meta any merged : keeps (finish_upload clock meta any merged).
Proof using. unfold finish_upload. keeps. Qed.
#[local] Hint Resolve keeps_finish_upload : blobs.

(** Calls made when a content is in the store may append an event that names it. *)
Definition keeps_with {A} (h : string) (m : H A) : Prop :=
  forall s, has_blob sha256_hex h s -> keeps_blobs sha256_hex s (m s).2.

Lemma with_keeps {A} h (m : H A) : keeps m -> keeps_with h m.
Proof using. intros Hm s _. apply Hm. Qed.
Lemma with_bind {A B} h (m : H A) (k : A -> H B) : keeps_with h m -> (forall a, keeps_with h (k a)) -> keeps_with h (m ≫= k).
Proof using.
  intros Hm Hk s Hs. specialize (Hm s Hs). unfold mbind, M_bind. destruct (m s) as [[a|e|] s1]; simpl in *; [|done..].
  etransitivity; [exact Hm|apply Hk, Hm, Hs].
Qed.
Lemma with_append h k : brings k = Some h -> keeps_with h (append_stored clock k).
Proof using. intros Hk s Hs. apply keeps_blobs_append. rewrite Hk. by intros h' [= <-]. Qed.

Lemma keeps_put_overlay id p c : keeps (put_file (overlay_prefix_of id +:+ p) c).
Proof using. intros s. apply keeps_blobs_put. by intros h [=]. Qed.
Lemma keeps_put_blob c : keeps (put_file (blob_key (sha256_hex c)) c).
Proof using. intros s. apply keeps_blobs_put. by intros h ->%blob_key_inj. Qed.
Lemma put_blob_bind {B} c (k : unit -> H B) :
  keeps_with (sha256_hex c) (k tt) -> keeps (put_file (blob_key (sha256_hex c)) c ≫= k).
Proof using.
  intros Hk s. etransitivity; [apply (keeps_put_blob c)|]. apply Hk. by apply has_blob_put.
Qed.
#[local] Hint Resolve keeps_put_overlay keeps_put_blob with_keeps with_append : blobs.

Lemma keeps_upload_file u id entry : keeps (upload_file clock sha256_hex b64_decode u id entry).
Proof using.
  unfold upload_file. case_match; [|apply along_fail, _]. case_match; [apply along_fail, _|]. case_match; [|apply along_fail, _].
  apply along_bind; [apply _|apply along_get, _|intros st]. apply along_bind; [apply _|apply keeps_put_overlay|intros _].
  apply put_blob_bind. set (existing := match sv_files st !! _ with Some c => Some c | None => _ end).
  apply with_bind; [|intros _; apply with_bind; [|intros; apply with_keeps, along_ret, _]].
  - apply with_keeps. destruct existing; [apply keeps_put_blob|apply along_ret, _].
  - apply with_append. by destruct existing.
Qed.

Lemma keeps_upload_files u id entries : keeps (upload_files clock sha256_hex b64_decode u id entries).
Proof using.
  induction entries as [|e entries IH]; simpl; [apply along_ret, _|].
  apply along_bind; [apply _|apply keeps_upload_file|intros]. apply along_bind; [apply _|exact IH|intros; apply along_ret, _].
Qed.

Lemma keeps_diff_entry u id current acc f : keeps (diff_entry clock sha256_hex u id current acc f).
Proof using.
  destruct f as [path c]. unfold diff_entry.
  assert (Hst : forall kind acc, brings kind = Some (sha256_hex c) ->
    keeps ((_ ← put_file (overlay_prefix_of id +:+ path) c; _ ← put_file (blob_key (sha256_hex c)) c;
      _ ← append_stored clock kind;
      mret (mkCounts (uc_added acc) (uc_modified acc) (uc_unchanged acc) (uc_paths acc ++ [path])) : H UploadCounts))).
  { intros kind acc' Hk. apply along_bind; [apply _|apply keeps_put_overlay|intros _]. apply put_blob_bind.
    apply with_bind; [by apply with_append|intros; apply with_keeps, along_ret, _]. }
  destruct (current !! path) as [h|]; [destruct (String.eqb h _); [apply along_ret, _|]|]; by apply Hst.
Qed.

Lemma keeps_diff_entries u id current files acc : keeps (diff_entries clock sha256_hex u id current files acc).
Proof using.
  revert acc; induction files as [|f files IH]; intros acc; simpl; [apply along_ret, _|].
  apply along_bind; [apply _|apply keeps_diff_entry|done].
Qed.
#[local] Hint Resolve keeps_upload_files keeps_diff_entries : blobs.

Lemma keeps_upload ok id files deleted :
  keeps (upload_workspace_files_handler clock parse_uuid sha256_hex iter_order b64_decode values ok id files deleted).
Proof using. unfold upload_workspace_files_handler. keeps. Qed.

Lemma keeps_snapshot ok id destructive body :
  keeps (upload_snapshot_handler clock parse_uuid sha256_hex iter_order unpack parse_manifest ok id destructive body).
Proof using. unfold upload_snapshot_handler. keeps. Qed.

Lemma keeps_discard ok id : keeps (discard_workspace_handler clock parse_uuid ok id).
Proof using. unfold discard_workspace_handler, discard_row. keeps. Qed.

Lemma keeps_cascade u reason : keeps (cascade_workspace_teardown clock u reason).
Proof using. unfold cascade_workspace_teardown, discard_row. keeps. Qed.

Lemma keeps_record_merge meta id r : keeps (record_merge clock meta id r).
Proof using. unfold record_merge. keeps. Qed.
#[local] Hint Resolve keeps_new_uuid : blobs.

Lemma keeps_create ok intent : keeps (create_workspace_handler clock uuid ok intent).
Proof using. unfold create_workspace_handler, insert_workspace. keeps. Qed.

Lemma keeps_escalate meta id n cs : keeps (escalate clock uuid iter_order meta id n cs).
Proof using. unfold escalate. keeps. Qed.

#[local] Hint Resolve keeps_cascade keeps_record_merge keeps_escalate : blobs.

Abbreviation submission := (run_submit clock uuid sha256_hex iter_order read_dir parse_rust_source parse_source_file).

Lemma run_submit_blobs meta id hd s :
  id_ok (ws_id meta) -> (version_num hd + 1 < u64_bound)%N -> keeps_blobs sha256_hex s (submission meta id hd s).2.
Proof using parse_uuid read_dir_ok.
  intros Hid Hb. destruct (submission meta id hd s) as [o s'] eqn:Es.
  apply (run_submit_cases clock uuid parse_uuid) in Es as [(r & _ & _ & Hm)|(_ & Hf & He & _)]; [| |done..]; [|by apply keeps_blobs_same].
  apply keeps_blobs_files; [|apply Hm]. intros h (c & Hc & Hh). exists c. simpl.
  rewrite (mg_outside _ _ _ _ Hm); [done|]. intros x. split; by intros [=].
Qed.

Lemma submit_blobs ok id s :
  server_wf parse_uuid s -> (head_num s + 1 < u64_bound)%N -> keeps_blobs sha256_hex s
    (submit_workspace_handler clock uuid parse_uuid sha256_hex iter_order read_dir parse_rust_source parse_source_file ok id s).2.
Proof using parse_uuid_ok read_dir_ok.
  intros Hwf Hb. unfold submit_workspace_handler. destruct ok; [|reflexivity].
  rewrite (M_bind_ok (check true) _ s tt s) by done.
  destruct (find_workspace parse_uuid id s) as [[meta|e|] s0] eqn:Ef;
    [|pose proof (keeps_find_workspace id s) as Hq; rewrite Ef in Hq;
      first [rewrite (M_bind_err _ _ _ _ _ Ef)|rewrite (M_bind_panic _ _ _ _ Ef)]; exact Hq..].
  rewrite (M_bind_ok _ _ _ _ _ Ef). apply find_workspace_ok in Ef as (-> & Hu & Hin).
  rewrite (M_bind_ok get_st _ s s s) by done.
  destruct (bool_decide _).
  { apply (along_bind (keeps_blobs sha256_hex)); [apply keeps_cascade|intros; apply along_fail, _]. }
  assert (Hnum : version_num (default (base_version meta) (sv_head s)) = head_num s).
  { unfold head_num. destruct (sv_head s) as [h|] eqn:Eh; [done|]. simpl. by apply (sw_base _ _ Hwf). }
  pose proof (run_submit_blobs meta id (default (base_version meta) (sv_head s)) s) as Hr.
  destruct (submission meta id _ s) as [o s1] eqn:Es. simpl in Hr.
  specialize (Hr ltac:(by apply (parse_uuid_ok _ _ Hu)) ltac:(by rewrite Hnum)).
  destruct o as [o|e|];
    [rewrite (M_bind_ok _ _ _ _ _ Es)|by rewrite (M_bind_err _ _ _ _ _ Es)|by rewrite (M_bind_panic _ _ _ _ Es)].
  etransitivity; [exact Hr|]. revert s1 Hr Es. intros s1 _ _.
  match goal with |- keeps_blobs _ _ (?m s1).2 => enough (keeps m) as Hm by apply Hm end. keeps.
Qed.

Lemma handle_blobs r s :
  server_wf parse_uuid s -> (head_num s + 1 < u64_bound)%N -> keeps_blobs sha256_hex s (server_handle r s).2.
Proof using parse_uuid_ok read_dir_ok.
  intros Hwf Hb.
  assert (Hdrop : forall A (m : H A), keeps_blobs sha256_hex s (m s).2 -> keeps_blobs sha256_hex s ((_ ← m; mret tt : H unit) s).2).
  { intros A m. unfold mbind, M_bind. by destruct (m s) as [[]]. }
  destruct r; simpl; try apply Hdrop.
  - apply keeps_create.
  - apply keeps_discard.
  - apply keeps_upload.
  - apply keeps_snapshot.
  - by apply submit_blobs.
Qed.

(** After any requests every content that the log names is in the store. *)
Lemma serve_blobs rs s0 :
  server_wf parse_uuid s0 -> (head_num s0 + N.of_nat (length rs) < u64_bound)%N ->
  keeps_blobs sha256_hex s0 (server_serve rs s0).
Proof using parse_uuid_ok read_dir_ok.
  intros Hwf. unfold serve. induction rs as [|r rs IH] using rev_ind; intros Hb; [reflexivity|].
  rewrite length_app in *. simpl in Hb. rewrite foldl_app. simpl. etransitivity; [apply IH; lia|].
  destruct (serve_history clock uuid parse_uuid sha256_hex iter_order unpack parse_manifest b64_decode values read_dir
    parse_rust_source parse_source_file parse_uuid_ok read_dir_ok rs s0 Hwf) as (Hwf' & _ & Hle); [lia|]. unfold serve in Hle.
  apply handle_blobs; [exact Hwf'|]. lia.
Qed.

(** Versions are only added. *)
Lemma serve_versions rs s0 :
  server_wf parse_uuid s0 -> (head_num s0 + N.of_nat (length rs) < u64_bound)%N ->
  sv_versions s0 `prefix_of` sv_versions (server_serve rs s0).
Proof using parse_uuid_ok read_dir_ok.
  intros Hwf. unfold serve. induction rs as [|r rs IH] using rev_ind; intros Hb; [done|].
  rewrite length_app in *. simpl in Hb. rewrite foldl_app. simpl. etransitivity; [apply IH; lia|].
  destruct (serve_history clock uuid parse_uuid sha256_hex iter_order unpack parse_manifest b64_decode values read_dir
    parse_rust_source parse_source_file parse_uuid_ok read_dir_ok rs s0 Hwf) as (Hwf' & _ & Hle); [lia|]. unfold serve in Hle, Hwf'.
  set (s := foldl _ s0 rs) in *.
  destruct (handle_step clock uuid parse_uuid sha256_hex iter_order unpack parse_manifest b64_decode values read_dir
    parse_rust_source parse_source_file parse_uuid_ok read_dir_ok r s Hwf') as [Q|[w Mg]]; [lia|..].
  - by rewrite (q_versions _ _ _ Q).
  - destruct (ms_version _ _ _ _ Mg) as (v & e & -> & _). by apply prefix_app_r.
Qed.

(** ** The details of a version *)

Variable row_id : string -> Uuid.
Variable create_patch : string -> string -> string.
Variables (disk : Disk) (vai_dir : string).

(** The name is not the database id of a row. *)
Definition not_an_id (id : string) : Prop := forall u x, parse_uuid id = Some u -> row_id x <> u.

Lemma version_row_named id v s :
  not_an_id id -> find_by version_id id (sv_versions s) = Some v -> version_row parse_uuid row_id id s = (Ok v, s).
Proof using.
  intros Hn Hv. unfold version_row. rewrite Hv. destruct (parse_uuid id) as [u|] eqn:Eu; simpl; [|done].
  destruct (find_by (row_id ∘ version_id) u (sv_versions s)) as [x|] eqn:Ex; [|done].
  apply find_by_Some in Ex as [_ Ex]. by destruct (Hn u (version_id x) Eu).
Qed.

Lemma merge_workspace_found s v e w :
  log_ok (sv_events s) -> merge_event_id v = Some (ev_id e) -> e ∈ sv_events s ->
  event_type (ev_kind e) = "MergeCompleted"%string -> event_workspace_id (ev_kind e) = Some w ->
  merge_workspace v s = Some w.
Proof using.
  intros [Hwf _] Hm He Ht Hw. unfold merge_workspace. rewrite Hm. simpl.
  rewrite (find_by_elem ev_id _ _ e); [done|apply filter_keys_NoDup, log_wf_NoDup, Hwf| |done].
  apply list_elem_of_filter. by split.
Qed.

Lemma details_ok id v w s :
  not_an_id id -> find_by version_id id (sv_versions s) = Some v -> merge_workspace v s = Some w ->
  get_version_handler parse_uuid row_id true id s =
    (Ok (mkChanges v (omap (entity_change_of ∘ ev_kind) (query_by_workspace (sv_events s) w))
           (omap (file_change_of ∘ ev_kind) (query_by_workspace (sv_events s) w))), s).
Proof using.
  intros Hn Hv Hw. unfold get_version_handler. rewrite (M_bind_ok (check true) _ s tt s) by done.
  rewrite (M_bind_ok _ _ _ _ _ (version_row_named id v s Hn Hv)), (M_bind_ok get_st _ s s s) by done. by rewrite Hw.
Qed.

(** An event of the workspace for a path is a change of the path. *)
Lemma logged_change w p s :
  logged w p (sv_events s) -> p ∈ vfc_path <$> omap (file_change_of ∘ ev_kind) (query_by_workspace (sv_events s) w).
Proof using.
  intros (e & He & Hk). apply list_elem_of_fmap.
  assert (event_workspace_id (ev_kind e) = Some w /\ exists c, file_change_of (ev_kind e) = Some c /\ p = vfc_path c)
    as (Hw & c & Hc & Hp) by (destruct (ev_kind e); try done; destruct Hk as [-> ->]; eauto).
  exists c. split; [done|]. apply list_elem_of_omap. exists e. split; [|done]. by apply list_elem_of_filter.
Qed.

(** C33. A request moves HEAD; the details of the new version, asked after any further
    requests, succeed: they name the version, list exactly the file events of the
    workspace that it merged, those of uploads after the merge included, in the order of
    the log, and each path whose content in
    the project the version changed is among them. *)
Theorem version_details_cover s r rs :
  server_wf parse_uuid s -> (head_num s + 1 + N.of_nat (length rs) < u64_bound)%N ->
  (forall n, not_an_id ("v" +:+ print_u64 n)) ->
  let s1 := (server_handle r s).2 in
  let s2 := server_serve rs s1 in
  sv_head s1 <> sv_head s ->
  exists v w changes, sv_head s1 = Some (version_id v) /\
    get_version_handler parse_uuid row_id true (version_id v) s2 = (Ok changes, s2) /\ vc_version changes = v /\
    file_changes changes = omap (file_change_of ∘ ev_kind) (query_by_workspace (sv_events s2) w) /\
    forall p, current_at s1 p <> current_at s p -> p ∈ vfc_path <$> file_changes changes.
Proof using parse_uuid_ok read_dir_ok.
  intros Hwf Hb Hids s1 s2 Hne.
  destruct (handle_step clock uuid parse_uuid sha256_hex iter_order unpack parse_manifest b64_decode values read_dir
    parse_rust_source parse_source_file parse_uuid_ok read_dir_ok r s Hwf) as [Q|[w Mg]]; [lia|by destruct Hne; apply Q|].
  fold s1 in Mg. pose proof (merges_wf _ _ _ _ Hwf Mg) as Hwf1.
  destruct (ms_version _ _ _ _ Mg) as (v & e & V & N & Hd & I & E & T & W & C). pose proof (ms_head _ _ _ _ Mg) as Hh.
  assert (Hb1 : (head_num s1 + N.of_nat (length rs) < u64_bound)%N) by (unfold head_num at 1; rewrite Hd; simpl; lia).
  destruct (serve_history clock uuid parse_uuid sha256_hex iter_order unpack parse_manifest b64_decode values read_dir
    parse_rust_source parse_source_file parse_uuid_ok read_dir_ok rs s1 Hwf1 Hb1) as (Hwf2 & [[l G] _ _] & _).
  destruct (serve_versions rs s1 Hwf1 Hb1) as [vs V2]. fold s2 in G, V2, Hwf2.
  assert (Hrow : find_by version_id (version_id v) (sv_versions s2) = Some v).
  { rewrite V2. apply find_by_app_l. rewrite V, find_by_snoc, decide_True by done.
    rewrite (proj2 (find_by_None version_id _ _)); [done|]. intros (x & Hx & Hin)%list_elem_of_fmap.
    pose proof (sw_versions _ _ Hwf x Hin). rewrite <-Hx, N in *. lia. }
  assert (Hw : merge_workspace v s2 = Some w).
  { apply (merge_workspace_found s2 v e w (sw_log _ _ Hwf2)); [done| |done..]. rewrite G. apply elem_of_app. by left. }
  exists v, w. eexists. split; [done|]. split; [apply details_ok; [|done..]|split_and!; [done..|]].
  - rewrite Hh in Hd. injection Hd as <-. apply Hids.
  - simpl. intros p Hp. apply logged_change. rewrite G. by apply logged_grows, C.
Qed.

(** ** Patches *)

(** The patch of a change: from the content under its old hash, if that is a text in the
    store, to the content under its new hash, or to nothing. *)
Definition shows (s : ServerRepo) (c : FileChangeHashes) (f : VersionDiffFile) : Prop :=
  vd_path f = fh_path c /\ vd_change_type f = change_label (fh_change_type c) /\
  match fh_new_hash c with
  | Some h => exists content, sv_files s !! blob_key h = Some content /\ sha256_hex content = h /\
      forall new, from_utf8 content = Some new -> exists old, vd_diff f = create_patch old new /\
        forall h' old', fh_old_hash c = Some h' -> stored_text (blob_key h') s = Some old' -> old = old'
  | None => vd_diff f = EmptyString \/ exists old, vd_diff f = create_patch old EmptyString
  end.

Abbreviation file_of := (diff_file create_patch disk vai_dir).

Lemma hashes_brought k c h : hashes_of k = Some c -> fh_new_hash c = Some h -> brings k = Some h.
Proof using. destruct k; simpl; intros [= <-]; simpl; congruence. Qed.

Lemma hashes_removed k c : hashes_of k = Some c -> is_removed c = true <-> fh_new_hash c = None.
Proof using. destruct k; simpl; intros [= <-]; by split. Qed.

(** A patch is not changed by the hashes that are found for removed files. *)
Lemma diff_file_shows id w s k c c' :
  blobs_ok sha256_hex s -> hashes_of k = Some c -> (exists e, e ∈ sv_events s /\ ev_kind e = k) ->
  fh_path c' = fh_path c -> fh_change_type c' = fh_change_type c -> fh_new_hash c' = fh_new_hash c ->
  fh_new_hash c = None \/ fh_old_hash c' = fh_old_hash c ->
  shows s c (file_of id w s c').
Proof using.
  intros Hok Hk (e & He & Hek) Hp Ht Hn Hold. unfold shows, diff_file. simpl. split_and!; [done|by rewrite Ht|].
  unfold new_text. rewrite Hn. destruct (fh_new_hash c) as [h|] eqn:Eh.
  - destruct Hold as [|Hold]; [done|].
    destruct (Hok e h He) as (content & Hc & Hh); [rewrite Hek; by eapply hashes_brought|].
    exists content. split_and!; [done..|]. intros new Hnew. unfold stored_text at 1. rewrite Hc. simpl. rewrite Hnew.
    simpl. unfold diff_text. destruct (old_text disk vai_dir id s c') as [o|] eqn:Eo; eexists; (split; [reflexivity|]);
      intros h' old' Hh' Htx; unfold old_text in Eo; rewrite Hold, Hh' in Eo; simpl in Eo; rewrite Htx in Eo;
      simpl in Eo; congruence.
  - destruct (old_text disk vai_dir id s c') as [o|]; simpl; eauto.
Qed.

(** C37. The patches of a version of any history of requests: one for each file event of
    the workspace that it merged, later uploads included, in the order of the log; the base
    of the request, or the parent, is named in the answer and compared with nothing. A patch ends in the content
    whose hash the event names, which the store has, and starts from the content under
    the old hash if the store has that as a text; a removal ends in nothing. *)
Theorem version_diff_shows_contents rs s0 id base v w :
  server_wf parse_uuid s0 -> (head_num s0 + N.of_nat (length rs) < u64_bound)%N -> blobs_ok sha256_hex s0 ->
  let s := server_serve rs s0 in
  not_an_id id -> find_by version_id id (sv_versions s) = Some v -> merge_workspace v s = Some w ->
  exists resp, get_version_diff_handler parse_uuid row_id create_patch disk vai_dir true id base s = (Ok resp, s) /\
    vd_version_id resp = id /\ vd_base_version_id resp = default EmptyString (first_text base (parent_version_id v)) /\
    Forall2 (shows s) (omap (hashes_of ∘ ev_kind) (query_by_workspace (sv_events s) w)) (vd_files resp).
Proof using parse_uuid_ok read_dir_ok.
  intros Hwf Hb Hok0 s Hn Hv Hw. assert (Hok : blobs_ok sha256_hex s) by by apply (serve_blobs rs s0).
  eexists. split.
  { unfold get_version_diff_handler. rewrite (M_bind_ok (check true) _ s tt s) by done.
    rewrite (M_bind_ok _ _ _ _ _ (version_row_named id v s Hn Hv)), (M_bind_ok get_st _ s s s) by done. by rewrite Hw. }
  simpl. split_and!; [done..|].
  set (cs := omap (hashes_of ∘ ev_kind) (query_by_workspace (sv_events s) w)).
  assert (Hcs : forall c, c ∈ cs -> exists k, hashes_of k = Some c /\ exists e, e ∈ sv_events s /\ ev_kind e = k).
  { intros c (e & [_ He]%list_elem_of_filter & Hc)%list_elem_of_omap. eauto. }
  unfold resolve_removed. rewrite Forall2_fmap_r. destruct (existsb is_removed cs); [rewrite Forall2_fmap_r|];
    apply Forall_Forall2_diag, Forall_forall; intros c Hc; destruct (Hcs c Hc) as (k & Hk & He);
    apply (diff_file_shows id w s k); auto; destruct (is_removed c) eqn:Er; simpl; auto; case_bool_decide; auto.
  left. by apply (hashes_removed k).
Qed.
End server.

(** ** Rollback *)

Section rollback.
Variable clock : nat -> DateTime.
Variable read_dir : gmap string VersionMeta -> list VersionMeta.
Variables (vai_dir repo_root : string).

Abbreviation rollback_request := (rollback_handler clock vai_dir read_dir repo_root true).

(** What the stores keep of a rollback: the new version, dated by them, and HEAD. *)
Record records (m : VersionMeta) (s s' : ServerRepo) : Prop := {
  rc_files : sv_files s' = sv_files s;
  rc_events : sv_events s' = sv_events s;
  rc_head : sv_head s' = Some (version_id m);
  rc_versions : if existsb (fun x => String.eqb (version_id x) (version_id m)) (sv_versions s)
    then sv_versions s' = sv_versions s
    else exists t, sv_versions s' = sv_versions s ++
      [mkVersion (version_id m) (parent_version_id m) (v_intent m) (created_by m) t (merge_event_id m)]
}.

Lemma rollback_recorded m s :
  records m s ((_ ← best_effort (create_version_row clock m); advance_head (version_id m)) s).2.
Proof using.
  unfold create_version_row, best_effort, insert_version, mbind, M_bind. simpl.
  destruct (existsb _ (sv_versions s)) eqn:Ex; split; simpl; try done; rewrite Ex; [done|by eexists].
Qed.

Lemma rollback_request_ok s v d vid force r local s' :
  rollback_request vid force (s, (v, d)) = (Ok r, (s', local)) ->
  rollback clock read_dir vai_dir repo_root vid None (v, d) = (Ok r, local) /\ records (new_version r) s s'.
Proof using.
  unfold rollback_handler. cbn [negb]. destruct (analyze_rollback_impact _ _ _) as [i|e|]; [|done..].
  destruct (_ && _); [done|].
  destruct (rollback clock read_dir vai_dir repo_root vid None (v, d)) as [[r'|e|] l]; [|done..].
  intros [= <- <- <-]. split; [done|apply rollback_recorded].
Qed.

(** A rollback over HTTP. While later versions depend on the target and the request
    does not force it, it is refused with the analysis and nothing changes. Otherwise,
    for a version that the directory of the server knows, it succeeds: the files of
    that directory are as before the version, and the stores get the new version
    after HEAD and the new HEAD, and change in nothing else. *)
Theorem rollback_request_spec s v d vid force impact m changes hd :
  analyze_rollback_impact read_dir v vid = Ok impact ->
  versions_wf v -> dir_ok read_dir ->
  (forall k m, versions v !! k = Some m -> parse_version_number k + 1 < u64_bound)%N ->
  versions v !! vid = Some m -> get_version_changes v vid = Ok changes -> read_head v = Some hd ->
  rollback_ok vai_dir repo_root vid (file_changes changes) d ->
  NoDup (project_file repo_root ∘ vfc_path <$> file_changes changes) ->
  if negb force && negb (bool_decide (downstream_impacts impact = []))
  then rollback_request vid force (s, (v, d)) = (Err (RbImpact impact), (s, (v, d)))
  else exists r s' v' d', rollback_request vid force (s, (v, d)) = (Ok r, (s', (v', d'))) /\
    records (new_version r) s s' /\ parent_version_id (new_version r) = Some hd /\
    read_head v' = sv_head s' /\
    (forall c, c ∈ file_changes changes -> d' !! project_file repo_root (vfc_path c) =
       match vfc_change_type c with
       | VcAdded => None
       | _ => match d !! snapshot_file vai_dir vid (vfc_path c) with
              | Some content => Some content | None => d !! project_file repo_root (vfc_path c) end
       end) /\
    (forall q, (forall c, c ∈ file_changes changes -> project_file repo_root (vfc_path c) <> q) -> d' !! q = d !! q).
Proof using.
  intros Hi Hwf Hdir Hb Hm Hc Hh Hok Hnd.
  assert (Hdec : bool_decide (length (downstream_impacts impact) = 0) = bool_decide (downstream_impacts impact = []))
    by (apply bool_decide_ext, length_zero_iff_nil).
  unfold rollback_handler. cbn [negb]. rewrite Hi, Hdec. destruct (negb force && _); [done|].
  destruct (rollback_undoes clock read_dir vai_dir repo_root v d vid m changes hd None Hwf Hdir Hb Hm Hc Hh Hok)
    as (r & v' & d' & -> & [Hf _ Ho _ Hp Hhd _ _ _]). cbn [chosen] in *.
  pose proof (rollback_recorded (new_version r) s) as R.
  exists r. eexists. exists v', d'. split; [reflexivity|]. split_and!; try done.
  intros c Hin. apply Hf; [done|]. intros c' Hin' E.
  apply list_elem_of_lookup in Hin as [i Hi1], Hin' as [j Hj]. assert (i = j) as ->; [|split; congruence].
  eapply NoDup_lookup; [exact Hnd| |]; rewrite list_lookup_fmap; [by rewrite Hi1|]. rewrite Hj. simpl. by rewrite E.
Qed.

(** A version that only the stores know cannot be rolled back. *)
Lemma rollback_request_unknown s v d vid force :
  versions v !! vid = None -> rollback_request vid force (s, (v, d)) = (Err (RbError HtNotFound), (s, (v, d))).
Proof using.
  intros Hv. unfold rollback_handler, analyze_rollback_impact, get_version_changes, get_version. by rewrite Hv.
Qed.

Lemma rolled_version_unmerged v d vid r local :
  rollback clock read_dir vai_dir repo_root vid None (v, d) = (Ok r, local) -> merge_event_id (new_version r) = None.
Proof using.
  unfold rollback. destruct (get_version_changes v vid) as [c| |]; [|done..].
  destruct (rollback_files vai_dir repo_root vid _ _ 0 0 d) as [[[x y]| |] d']; [|done..].
  unfold rollback_commit, mbind, M_bind, get_st. destruct (read_head v) as [hd|]; [|done]. by intros [= <- _].
Qed.

(** A clone at the HEAD before a rollback pulls after it: HEAD is the new version, and
    no file is reported. *)
Theorem rollback_reports_no_file parse_uuid iter_order b64_encode s v d vid force r local s' since :
  server_wf parse_uuid s -> rollback_request vid force (s, (v, d)) = (Ok r, (s', local)) -> version_num since = head_num s ->
  files_pull_handler iter_order b64_encode true since s' = (Ok (mkPullResponse since (version_id (new_version r)) []), s').
Proof using.
  intros Hwf [Hr R]%rollback_request_ok Hs. apply rolled_version_unmerged in Hr.
  unfold files_pull_handler. rewrite (M_bind_ok (check true) _ s' tt s'), (M_bind_ok get_st _ s' s' s') by done.
  rewrite (rc_head _ _ _ R), Hs. simpl. destruct (N.leb_spec (version_num (version_id (new_version r))) (head_num s)); [done|].
  rewrite bool_decide_eq_true_2; [done|]. apply elem_of_nil_inv. intros id (x & Hx & Hid)%list_elem_of_omap.
  unfold list_versions_since in Hx. rewrite sort_by_perm in Hx. apply list_elem_of_filter in Hx as [[Hlt _] Hx].
  pose proof (rc_versions _ _ _ R) as V. destruct (existsb _ _) in V; [|destruct V as [t V]]; rewrite V in Hx.
  - pose proof (sw_versions _ _ Hwf x Hx). lia.
  - apply elem_of_app in Hx as [Hx| ->%list_elem_of_singleton]; [pose proof (sw_versions _ _ Hwf x Hx); lia|].
    simpl in Hid. congruence.
Qed.
End rollback.

(** ** Witnesses *)

Definition wit_row_id (name : string) : Uuid := "row-" +:+ name.
Definition wit_patch (old new : string) : string := old +:+ " -> " +:+ new.

Abbreviation wit_handle := (handle wit_clock wit_uuid wit_parse_uuid string_of wit_iter wit_unpack wit_manifest
  wit_decode wit_values wit_dir wit_parser wit_parser).
Abbreviation wit_details := (get_version_handler wit_parse_uuid wit_row_id true).
Abbreviation wit_diff := (get_version_diff_handler wit_parse_uuid wit_row_id wit_patch ∅ ".vai" true).

Lemma wit_names n : not_an_id wit_parse_uuid wit_row_id ("v" +:+ print_u64 n).
Proof.
  intros u x. unfold wit_parse_uuid. destruct (_ && _); [|done]. intros [= <-]. discriminate.
Qed.

(** The project before the submission of [w0]. *)
Definition wit_before : ServerRepo := wit_serve (take 3 wit_requests) wit_server.

Lemma wit_before_wf : server_wf wit_parse_uuid wit_before /\ (head_num wit_before <= 5)%N.
Proof.
  destruct (serve_history wit_clock wit_uuid wit_parse_uuid string_of wit_iter wit_unpack wit_manifest wit_decode wit_values
    wit_dir wit_parser wit_parser wit_parse_uuid_ok wit_dir_ok (take 3 wit_requests) wit_server wit_server_wf) as (Hwf & _ & Hb).
  - vm_compute. reflexivity.
  - split; [exact Hwf|]. etransitivity; [exact Hb|]. vm_compute. discriminate.
Qed.

Lemma version_details_cover_witness :
  let s1 := (wit_handle (ReqSubmit true "w0") wit_before).2 in
  exists changes, wit_details "v2" (wit_serve [ReqCreate true "next"] s1) = (Ok changes, wit_serve [ReqCreate true "next"] s1) /\
    forall p, current_at s1 p <> current_at wit_before p -> p ∈ vfc_path <$> file_changes changes.
Proof.
  intros s1. destruct wit_before_wf as [Hwf Hb].
  destruct (version_details_cover wit_clock wit_uuid wit_parse_uuid string_of wit_iter wit_unpack wit_manifest wit_decode
    wit_values wit_dir wit_parser wit_parser wit_parse_uuid_ok wit_dir_ok wit_row_id wit_before (ReqSubmit true "w0")
    [ReqCreate true "next"] Hwf) as (v & w & changes & Hh & E & _ & _ & Hc).
  - change (length _) with 1. eapply N.le_lt_trans; [apply N.add_le_mono; [apply N.add_le_mono; [exact Hb|reflexivity]|reflexivity]|].
    vm_compute. reflexivity.
  - exact wit_names.
  - vm_compute. discriminate.
  - assert (sv_head (wit_handle (ReqSubmit true "w0") wit_before).2 = Some "v2"%string) as Hv by (vm_compute; reflexivity).
    rewrite Hv in Hh. injection Hh as Hid. rewrite <-Hid in E.
    exists changes. split; [exact E|exact Hc].
Defined.

Lemma version_diff_shows_contents_witness :
  exists resp, wit_diff "v2" None (wit_serve wit_requests wit_server) = (Ok resp, wit_serve wit_requests wit_server) /\
    vd_files resp = [mkVersionDiffFile "a" "modified" "old -> new"; mkVersionDiffFile "b" "added" " -> x"].
Proof.
  edestruct (version_diff_shows_contents wit_clock wit_uuid wit_parse_uuid string_of wit_iter wit_unpack wit_manifest wit_decode
    wit_values wit_dir wit_parser wit_parser wit_parse_uuid_ok wit_dir_ok wit_row_id wit_patch ∅ ".vai" wit_requests wit_server
    "v2" None) as (resp & E & _).
  - exact wit_server_wf.
  - vm_compute. reflexivity.
  - intros e h He. by apply not_elem_of_nil in He.
  - apply (wit_names 2).
  - vm_compute. reflexivity.
  - vm_compute. reflexivity.
  - exists resp. split; [exact E|]. vm_compute in E. injection E as <-. reflexivity.
Defined.

(** A workspace takes uploads after its merge too, and its later events count as changes
    of the version: the details of a version change after the fact. *)
Lemma late_upload_rewrites_version :
  let s := wit_serve wit_requests wit_server in
  let s' := wit_serve [ReqUpload true "w0" [mkFileUpload "late" "y"] []] s in
  current_at s' "late" = None /\ sv_head s' = Some "v2"%string /\
  (exists c, (wit_details "v2" s).1 = Ok c /\ vfc_path <$> file_changes c = ["a"; "b"]%string) /\
  exists c, (wit_details "v2" s').1 = Ok c /\ vfc_path <$> file_changes c = ["a"; "b"; "late"]%string.
Proof.
  intros s s'. split; [vm_compute; reflexivity|]. split; [vm_compute; reflexivity|].
  split; eexists; (split; [vm_compute; reflexivity|reflexivity]).
Qed.

(** The version to compare with is named in the answer and has no other effect. *)
Lemma base_is_only_echoed parse_uuid row_id create_patch disk vai_dir id base base' s resp :
  (get_version_diff_handler parse_uuid row_id create_patch disk vai_dir true id base s).1 = Ok resp ->
  exists resp', (get_version_diff_handler parse_uuid row_id create_patch disk vai_dir true id base' s).1 = Ok resp' /\
    vd_files resp' = vd_files resp.
Proof.
  unfold get_version_diff_handler. rewrite !(M_bind_ok (check true) _ s tt s) by done.
  destruct (version_row parse_uuid row_id id s) as [[meta|e|] s'] eqn:E;
    [|by rewrite (M_bind_err _ _ _ _ _ E)|by rewrite (M_bind_panic _ _ _ _ E)].
  rewrite !(M_bind_ok _ _ _ _ _ E), !(M_bind_ok get_st _ s' s' s') by done.
  destruct (merge_workspace meta s') as [w|]; intros [= <-]; eexists; (split; [reflexivity|done]).
Qed.

(** A version that the server merged in its stores is not in its directory, and cannot
    be rolled back. *)
Lemma merged_version_not_rolled_back :
  let s := wit_serve wit_requests wit_server in
  let directory := (set_versions ∅ wit_history, ∅ : Disk) in
  is_Some (find_by version_id "v2"%string (sv_versions s)) /\
  rollback_handler wit_clock ".vai" wit_dir "." true "v2" true (s, directory) = (Err (RbError HtNotFound), (s, directory)).
Proof. intros s directory. split; [vm_compute; eauto|]. by apply rollback_request_unknown. Qed.
