(* ===== verification/EscalationServer.v ===== *)
(** The escalations of the hosted server: their table ([src/src/storage/postgres/escalation.rs]) and the handlers that
    list, show and resolve them ([src/src/server/escalation.rs]), next to the requests that raise them. *)
From S2P Require Import Prelude Table RustStr Graph EventLog MergeEngine VaiDir Workspace Version Submit Conflict Escalation Pagination ServerRepo ServerPull.

(** ** Replies *)

Record EscalationConflictResponse : Type := mkConflictResponse {
  cx_file : string; cx_merge_level : Z; cx_entity_ids : list string; cx_description : string;
  cx_ours_content : option string; cx_theirs_content : option string; cx_base_content : option string
}.
Record ResolutionOptionResponse : Type := mkOptionResponse { ro_id : string; ro_label : string }.
Record EscalationResponse : Type := mkEscalationResponse {
  ex_id : string; ex_escalation_type : string; ex_severity : string; ex_status : string; ex_summary : string;
  ex_intents : list string; ex_agents : list string; ex_workspace_ids : list string; ex_affected_entities : list string;
  ex_conflicts : list EscalationConflictResponse; ex_resolution_options : list ResolutionOptionResponse;
  ex_resolution : option string; ex_resolved_by : option string; ex_created_at : string; ex_resolved_at : option string
}.

Definition conflict_response (c : EscalationConflict) : EscalationConflictResponse :=
  mkConflictResponse (ec_file c) (ec_merge_level c) (ec_entity_ids c) (ec_description c) (ours_content c)
    (theirs_content c) (base_content c).
Definition option_response (o : ResolutionOption) : ResolutionOptionResponse := mkOptionResponse (option_as_str o) (option_label o).

Record ResolveEscalationRequest : Type := mkResolve { rq_option : string; rq_resolved_by : option string }.
Definition default_resolved_by : string := "api".

Record ListEscalationsQuery : Type := mkListEscalations {
  lq_status : option string; lq_page : option Z; lq_per_page : option Z; lq_sort : option string
}.

Section escalations.
Context {unicode : Unicode}.
Variable clock : nat -> DateTime.
Variable parse_uuid : string -> option Uuid.
Variable rfc3339 : DateTime -> string.
(** The database on an [ORDER BY]. *)
Variable order_rows : list SortField -> list Escalation -> list Escalation.

Abbreviation H := (M ServerRepo HttpError).

Definition escalation_response (e : Escalation) : EscalationResponse :=
  mkEscalationResponse (esc_id e) (type_as_str (escalation_type e)) (esc_severity_as_str (esc_severity e))
    (esc_status_as_str (esc_status e)) (esc_summary e) (esc_intents e) (esc_agents e) (esc_workspace_ids e)
    (affected_entities e) (conflict_response <$> esc_conflicts e) (option_response <$> resolution_options e)
    (option_as_str <$> esc_resolution e) (resolved_by e) (rfc3339 (esc_created_at e)) (rfc3339 <$> resolved_at e).

(** ** The table *)

Definition set_escalation_rows (x : list Escalation) (s : ServerRepo) : ServerRepo :=
  mkServer (sv_files s) (sv_events s) (sv_versions s) (sv_head s) (sv_workspaces s) (sv_issues s) x (sv_engine s)
    (sv_broadcasts s) (sv_draws s) (sv_ticks s).

Definition get_escalation (id : Uuid) : H Escalation := fun s =>
  (match find_escalation id (sv_escalations s) with Some e => Ok e | None => Err HtNotFound end, s).

Definition list_escalation_rows (pending_only : bool) (query : ListQuery) (s : ServerRepo) : ListResult Escalation :=
  let rows := filter (fun e => pending_only = true -> esc_status e = EsPending) (sv_escalations s) in
  mkListResult (select_page query (order_rows (sort query) rows)) (Z.of_nat (length rows)).

(** [UPDATE] whatever the row holds, then the row. *)
Definition resolve_row (id : Uuid) (resolution : ResolutionOption) (resolved_by : string) : H Escalation :=
  now ← tick clock;
  _ ← modify_st (fun s => set_escalation_rows (update_by esc_id id (resolved_as resolution resolved_by now) (sv_escalations s)) s);
  get_escalation id.

(** ** Handlers *)

Definition list_escalations_handler (allowed : bool) (params : ListEscalationsQuery) : H (PaginatedResponse EscalationResponse) :=
  _ ← check allowed;
  status_filter ← (match lq_status params with
                   | None => mret None
                   | Some s => match esc_status_from_db_str s with Some st => mret (Some st) | None => fail HtBadRequest end
                   end);
  match from_params (lq_page params) (lq_per_page params) (lq_sort params) ["created_at"; "status"; "id"; "severity"]%string with
  | Ok list_query =>
      s ← get_st;
      let pending_only := bool_decide (status_filter = Some EsPending) in
      let result := list_escalation_rows pending_only list_query s in
      let '(shown, total) := match status_filter with
        | Some sf =>
            if pending_only then (items result, lr_total result)
            else let filtered := filter (fun e => esc_status e = sf) (items result) in
                 (filtered, Z.of_nat (length filtered))
        | None => (items result, lr_total result)
        end in
      mret (paginated (escalation_response <$> shown) total list_query)
  | _ => fail HtBadRequest
  end.

Definition parse_id (id : string) : H Uuid :=
  match parse_uuid id with Some u => mret u | None => fail HtBadRequest end.

Definition get_escalation_handler (allowed : bool) (id : string) : H EscalationResponse :=
  _ ← check allowed;
  esc_id ← parse_id id;
  escalation ← get_escalation esc_id;
  mret (escalation_response escalation).

Definition resolve_escalation_handler (allowed : bool) (id : string) (body : ResolveEscalationRequest) : H EscalationResponse :=
  _ ← check allowed;
  esc_id ← parse_id id;
  match option_from_db_str (rq_option body) with
  | None => fail HtBadRequest
  | Some option =>
      escalation ← resolve_row esc_id option (default default_resolved_by (rq_resolved_by body));
      _ ← broadcast "EscalationResolved" (head (esc_workspace_ids escalation));
      mret (escalation_response escalation)
  end.
End escalations.
