(* ===== verification/EscalationServerProps.v ===== *)
(** The life of the escalations of the hosted server: a merge that fails on a conflict raises one, no request loses or
    changes one except a resolution, and the last resolution counts. *)
From S2P Require Import Prelude Table RustStr TextMerge Graph EventLog MergeEngine MergeFs VaiDir Workspace Version Diff Submit Conflict Escalation Issue Pagination ServerRepo ServerPull EscalationServer.

(** ** What the requests about the repository do to the table *)

Definition more_escalations (s s' : ServerRepo) : Prop := sv_escalations s `prefix_of` sv_escalations s'.

#[export] Instance more_escalations_pre : PreOrder more_escalations.
Proof. split; unfold more_escalations; [intros s|intros s1 s2 s3]; [reflexivity|apply transitivity]. Qed.

Section server.
Context {unicode : Unicode}.
Variable clock : nat -> DateTime.
Variable uuid : nat -> Uuid.
Variable parse_uuid : string -> option Uuid.
Variable sha256_hex : bytes -> string.
Variable iter_order : gset string -> list string.
Variable unpack : bytes -> option (list TarEntry).
Variable parse_manifest : bytes -> option DeltaManifest.
Variable b64_decode : string -> option bytes.
Variable values : Engine -> list WorkspaceScope.
Variable read_dir : gmap string VersionMeta -> list VersionMeta.
Variable parse_rust_source : string -> bytes -> outcome GraphError (list Entity * list Relationship).
Variable parse_source_file : string -> bytes -> outcome GraphError (list Entity * list Relationship).
Variable rfc3339 : DateTime -> string.
Variable order_rows : list SortField -> list Escalation -> list Escalation.

Abbreviation H := (M ServerRepo HttpError).
Abbreviation adds m := (along more_escalations m).
Abbreviation server_handle := (handle clock uuid parse_uuid sha256_hex iter_order unpack parse_manifest b64_decode values
  read_dir parse_rust_source parse_source_file).
Abbreviation submission := (run_submit clock uuid sha256_hex iter_order read_dir parse_rust_source parse_source_file).
Abbreviation submit_request := (submit_workspace_handler clock uuid parse_uuid sha256_hex iter_order read_dir
  parse_rust_source parse_source_file).

Lemma adds_none {A} (m : H A) : (forall s, sv_escalations (m s).2 = sv_escalations s) -> adds m.
Proof using. intros Hm s. unfold more_escalations. by rewrite Hm. Qed.

Lemma adds_broadcast ty ws : adds (broadcast ty ws).
Proof using. by apply adds_none. Qed.
Lemma adds_put_file k c : adds (put_file k c).
Proof using. by apply adds_none. Qed.
Lemma adds_append k : adds (append_stored clock k).
Proof using. by apply adds_none. Qed.
Lemma adds_modify f : (forall s, more_escalations s (f s)) -> adds (modify_st f : H unit).
Proof using. intros Hf s. apply Hf. Qed.
Lemma adds_check b : adds (check b).
Proof using. by destruct b; apply adds_none. Qed.
Lemma adds_check_len n s : adds (check_len n s).
Proof using. unfold check_len. case_match; by apply adds_none. Qed.
Lemma adds_tick : adds (tick clock).
Proof using. by apply adds_none. Qed.
Lemma adds_find_workspace id : adds (find_workspace parse_uuid id).
Proof using.
  apply adds_none. intros s. unfold find_workspace, get_ws, mbind, M_bind, get_st. by repeat case_match; simplify_eq/=.
Qed.
Lemma adds_best_effort {A} (m : H A) : adds m -> adds (best_effort m).
Proof using. intros Hm s. apply Hm. Qed.
Lemma adds_insert_version v : adds (insert_version v).
Proof using. apply adds_none. intros s. unfold insert_version. by case_match. Qed.
Lemma adds_reopen i : adds (reopen_issue i).
Proof using.
  apply adds_none. intros s. unfold reopen_issue, mbind, M_bind, get_st. destruct i as [i|]; [|done]. by repeat case_match.
Qed.

Create HintDb escalations.
#[local] Hint Resolve along_ret along_fail along_get along_lift adds_broadcast adds_put_file adds_append adds_check
  adds_check_len adds_tick adds_find_workspace adds_best_effort adds_insert_version adds_reopen : escalations.

Ltac adds := repeat (first [solve [auto 3 with escalations]|progress intros|apply along_bind; [apply _|..]
  |apply along_for_each; [apply _|]|case_match|apply adds_modify; intros; unfold more_escalations; simpl; by first [reflexivity|apply prefix_app_r]]).

Lemma adds_update_conflicts ws intent paths : adds (update_conflicts values ws intent paths).
Proof using.
  intros s. unfold update_conflicts, mbind, M_bind at 1, get_st. destruct (update_scope _ _ _ _ _) as [overlaps e].
  unfold put_st. apply (PreOrder_Transitive _ (set_engine e s)); [unfold more_escalations; reflexivity|].
  apply (along_for_each more_escalations). intros o. apply along_bind; [apply _|apply adds_broadcast|intros; apply adds_broadcast].
Qed.
Lemma adds_update_workspace u st iss del : adds (update_workspace clock u st iss del).
Proof using. unfold update_workspace, get_ws. adds. Qed.
Lemma adds_record_deletions w paths merged : adds (record_deletions clock w paths merged).
Proof using. revert merged; induction paths as [|p paths IH]; intros merged; simpl; adds. Qed.
#[local] Hint Resolve adds_update_conflicts adds_update_workspace adds_record_deletions : escalations.
Lemma adds_finish_upload meta any merged : adds (finish_upload clock meta any merged).
Proof using. unfold finish_upload. adds. Qed.
Lemma adds_upload_file u id entry : adds (upload_file clock sha256_hex b64_decode u id entry).
Proof using. unfold upload_file. adds. Qed.
#[local] Hint Resolve adds_finish_upload adds_upload_file : escalations.
Lemma adds_upload_files u id entries : adds (upload_files clock sha256_hex b64_decode u id entries).
Proof using. induction entries as [|e entries IH]; simpl; adds. Qed.
Lemma adds_diff_entry u id current acc f : adds (diff_entry clock sha256_hex u id current acc f).
Proof using. destruct f as [path c]. unfold diff_entry. adds. Qed.
#[local] Hint Resolve adds_upload_files adds_diff_entry : escalations.
Lemma adds_diff_entries u id current files acc : adds (diff_entries clock sha256_hex u id current files acc).
Proof using. revert acc; induction files as [|f files IH]; intros acc; simpl; adds. Qed.
Lemma adds_record_merge meta id r : adds (record_merge clock meta id r).
Proof using. unfold record_merge, forget_scope, advance_head. adds. Qed.
Lemma adds_cascade u reason : adds (cascade_workspace_teardown clock u reason).
Proof using. unfold cascade_workspace_teardown, discard_row, forget_scope. adds. Qed.
Lemma adds_new_uuid : adds (new_uuid uuid).
Proof using. by apply adds_none. Qed.
#[local] Hint Resolve adds_diff_entries adds_record_merge adds_cascade adds_new_uuid : escalations.
Lemma adds_escalate meta id n cs : adds (escalate clock uuid iter_order meta id n cs).
Proof using. unfold escalate. adds. Qed.
#[local] Hint Resolve adds_escalate : escalations.

(** A merge that fails leaves the files. *)
Lemma run_submit_rest meta id hd s :
  sv_escalations (submission meta id hd s).2 = sv_escalations s /\ sv_head (submission meta id hd s).2 = sv_head s /\
  forall e, (submission meta id hd s).1 = Ok (Err e) -> sv_files (submission meta id hd s).2 = sv_files s.
Proof using.
  unfold run_submit. destruct (submit_with_fs _ _ _ _ _ _ _ _ _ _) as [[r|e|] [v fs]]; [|done..].
  destruct (s3_flush fs) as [fl fs']. split; [done|]. split; [done|]. by destruct fl.
Qed.
Lemma adds_submission meta id hd : adds (submission meta id hd).
Proof using. apply adds_none. intros s. apply run_submit_rest. Qed.
#[local] Hint Resolve adds_submission : escalations.

Lemma adds_handle r : adds (server_handle r).
Proof using.
  destruct r; simpl.
  - unfold create_workspace_handler, insert_workspace. adds.
  - unfold discard_workspace_handler, discard_row, forget_scope. adds.
  - unfold upload_workspace_files_handler. adds.
  - unfold upload_snapshot_handler. adds.
  - unfold submit_workspace_handler. adds.
Qed.

(** ** Conflicts *)

(** What a merge did is always recorded. *)
Lemma record_merge_total meta id r s : exists s', record_merge clock meta id r s = (Ok tt, s').
Proof using.
  set (a := set_engine (remove_workspace (sv_engine s) (ws_id meta)) s).
  set (kind := MergeCompleted (ws_id meta) (version_id (sr_version r)) (N.of_nat (auto_resolved r))).
  set (b := (append_stored clock kind a).2).
  destruct (log_removals clock (fun _ => None) (ws_id meta) (ws_deleted_paths meta) b) as ([c E] & _).
  unfold record_merge. rewrite (M_bind_ok (forget_scope _) _ s tt a) by done.
  rewrite (M_bind_ok (append_stored clock kind) _ a (mkEvent (next_id (sv_events s)) (clock (sv_ticks s)) kind) b) by done.
  rewrite (M_bind_ok _ _ b tt c) by exact E. by eexists.
Qed.

(** A submission that is answered with a conflict, though the issue of its workspace is
    not closed, raises one escalation: it waits for a decision, names the workspace and
    offers to send the work back or to pause; HEAD and the files stay. *)
Theorem conflict_is_escalated id s s' meta :
  submit_request true id s = (Err HtConflict, s') -> find_workspace parse_uuid id s = (Ok meta, s) ->
  (ws_issue_id meta ≫= fun i => sv_issues s !! i) <> Some Closed ->
  exists esc, sv_escalations s' = sv_escalations s ++ [esc] /\ esc_id esc = uuid (sv_draws s' - 1) /\
    esc_status esc = EsPending /\ esc_workspace_ids esc = [ws_id meta] /\
    resolution_options esc = [SendBackToAgentA; PauseBoth] /\ sv_head s' = sv_head s /\ sv_files s' = sv_files s.
Proof using.
  intros E Ef Hi. unfold submit_workspace_handler in E. rewrite (M_bind_ok (check true) _ s tt s) in E by done.
  rewrite (M_bind_ok _ _ _ _ _ Ef), (M_bind_ok get_st _ s s s), bool_decide_eq_false_2 in E by done.
  destruct (run_submit_rest meta id (default (base_version meta) (sv_head s)) s) as (He & Hh & Hf).
  destruct (submission meta id _ s) as [[[r|e|]|e|] s1] eqn:Es; simpl in He, Hh, Hf.
  - rewrite (M_bind_ok _ _ _ _ _ Es) in E. destruct (record_merge_total meta id r s1) as [s2 Er].
    by rewrite (M_bind_ok _ _ _ _ _ Er) in E.
  - rewrite (M_bind_ok _ _ _ _ _ Es) in E. destruct e as [|e'|e'| |i|count conflicts|]; try done; [by destruct e'|].
    specialize (Hf _ eq_refl). revert E. unfold escalate, mbind, M_bind. simpl. intros [= <-]. simpl.
    rewrite He, Hh, Hf, Nat.sub_0_r. eexists. by split_and!.
  - by rewrite (M_bind_ok _ _ _ _ _ Es) in E.
  - rewrite (M_bind_err _ _ _ _ _ Es) in E. exfalso. injection E as -> ->. revert Es. unfold run_submit.
    destruct (submit_with_fs _ _ _ _ _ _ _ _ _ _) as [[r|e|] [v fs]]; [|done..]. destruct (s3_flush fs) as [fl fs']. by destruct fl.
  - by rewrite (M_bind_panic _ _ _ _ Es) in E.
Qed.

(** ** The life of an escalation *)

(** The requests about the repository, and the resolutions. *)
Inductive EscRequest : Type :=
  | EqRepo (r : Request)
  | EqResolve (allowed : bool) (id : string) (body : ResolveEscalationRequest).

Definition esc_handle (rq : EscRequest) (s : ServerRepo) : ServerRepo :=
  match rq with
  | EqRepo r => (server_handle r s).2
  | EqResolve allowed id body => (resolve_escalation_handler clock parse_uuid rfc3339 allowed id body s).2
  end.
Definition esc_serve (rqs : list EscRequest) (s : ServerRepo) : ServerRepo := foldl (fun s rq => esc_handle rq s) s rqs.

(** What a request decides about an escalation, and the last decision of several. *)
Definition decides (u : Uuid) (rq : EscRequest) : option (ResolutionOption * string) :=
  match rq with
  | EqResolve true id body =>
      if bool_decide (parse_uuid id = Some u) then
        o ← option_from_db_str (rq_option body); Some (o, default default_resolved_by (rq_resolved_by body))
      else None
  | _ => None
  end.
Definition last_decision (u : Uuid) (rqs : list EscRequest) : option (ResolutionOption * string) := last (omap (decides u) rqs).

(** The same case, whatever its standing. *)
Definition same_case (e e' : Escalation) : Prop :=
  esc_id e' = esc_id e /\ escalation_type e' = escalation_type e /\ esc_severity e' = esc_severity e /\
  esc_summary e' = esc_summary e /\ esc_intents e' = esc_intents e /\ esc_agents e' = esc_agents e /\
  esc_workspace_ids e' = esc_workspace_ids e /\ affected_entities e' = affected_entities e /\
  esc_conflicts e' = esc_conflicts e /\ resolution_options e' = resolution_options e /\ esc_created_at e' = esc_created_at e.

#[local] Instance same_case_pre : PreOrder same_case.
Proof using. split; [intros e; by split_and!|]. intros e1 e2 e3 H1 H2. unfold same_case in *. intuition congruence. Qed.

(** The standing after the decision. *)
Definition decided (e e' : Escalation) (d : option (ResolutionOption * string)) : Prop :=
  same_case e e' /\
  match d with
  | None => e' = e
  | Some (o, by_) => esc_status e' = EsResolved /\ esc_resolution e' = Some o /\ resolved_by e' = Some by_
  end.

Lemma resolve_rows allowed id body s :
  let s' := (resolve_escalation_handler clock parse_uuid rfc3339 allowed id body s).2 in
  sv_escalations s' =
    match (if allowed then u ← parse_uuid id; o ← option_from_db_str (rq_option body); Some (u, o) else None) with
    | Some (u, o) =>
        update_by esc_id u (resolved_as o (default default_resolved_by (rq_resolved_by body)) (clock (sv_ticks s))) (sv_escalations s)
    | None => sv_escalations s
    end.
Proof using.
  unfold resolve_escalation_handler. destruct allowed; [|done]. rewrite (M_bind_ok (check true) _ s tt s) by done.
  unfold parse_id. destruct (parse_uuid id) as [u|]; [|done]. rewrite (M_bind_ok (mret u) _ s u s) by done. simpl.
  destruct (option_from_db_str (rq_option body)) as [o|]; [|done]. unfold resolve_row, mbind, M_bind, get_escalation. simpl.
  by destruct (find_escalation u _).
Qed.

Lemma esc_handle_decided rq s e : e ∈ sv_escalations s ->
  exists e', e' ∈ sv_escalations (esc_handle rq s) /\ decided e e' (decides (esc_id e) rq).
Proof using.
  intros He. destruct rq as [r|allowed id body]; simpl.
  - exists e. split; [|by split]. destruct (adds_handle r s) as [l ->]. apply elem_of_app. by left.
  - rewrite resolve_rows. destruct allowed; [|by exists e]. case_bool_decide as Hid.
    + rewrite Hid. simpl. destruct (option_from_db_str (rq_option body)) as [o|]; [|by exists e]. simpl.
      exists (resolved_as o (default default_resolved_by (rq_resolved_by body)) (clock (sv_ticks s)) e).
      split; [|by split_and!]. apply list_elem_of_fmap. exists e. by rewrite decide_True.
    + exists e. split; [|by split]. destruct (parse_uuid id) as [u|]; [|done]. simpl.
      destruct (option_from_db_str (rq_option body)) as [o|]; [|done]. simpl. apply list_elem_of_fmap. exists e.
      rewrite decide_False; [done|congruence].
Qed.

(** C22. Whatever requests about the repository and resolutions follow: an escalation is
    never lost, its case never changes, and its standing is that of the last accepted
    resolution of its id, which an escalation that is resolved takes as well as a pending
    one, or the old one if there is none. *)
Theorem escalation_life rqs s e : e ∈ sv_escalations s ->
  exists e', e' ∈ sv_escalations (esc_serve rqs s) /\ decided e e' (last_decision (esc_id e) rqs).
Proof using.
  intros He. unfold esc_serve, last_decision. induction rqs as [|rq rqs IH] using rev_ind; [by exists e|].
  destruct IH as (e1 & He1 & Hc1 & Hd1). rewrite foldl_snoc, omap_app.
  destruct (esc_handle_decided rq _ e1 He1) as (e2 & He2 & Hc2 & Hd2). exists e2. split; [exact He2|].
  split; [by etransitivity|]. rewrite (proj1 Hc1) in Hd2. simpl.
  destruct (decides (esc_id e) rq) as [[o by_]|]; simpl; [by rewrite last_snoc|]. rewrite app_nil_r. by subst e2.
Qed.

(** ** Lists *)

(** The list of what waits: the page of those escalations, and their number. *)
Lemma pending_list s page per_page sort_str q :
  from_params page per_page sort_str ["created_at"; "status"; "id"; "severity"]%string = Ok q ->
  let pending := filter (fun e => esc_status e = EsPending) (sv_escalations s) in
  list_escalations_handler rfc3339 order_rows true (mkListEscalations (Some "pending"%string) page per_page sort_str) s =
    (Ok (paginated (escalation_response rfc3339 <$> select_page q (order_rows (sort q) pending)) (Z.of_nat (length pending)) q), s).
Proof using.
  intros Hq pending. unfold list_escalations_handler. rewrite (M_bind_ok (check true) _ s tt s) by done. simpl.
  rewrite (M_bind_ok (mret (Some EsPending)) _ s (Some EsPending) s) by done. rewrite Hq.
  rewrite (M_bind_ok get_st _ s s s), bool_decide_eq_true_2 by done. unfold list_escalation_rows. simpl.
  rewrite !(list_filter_iff (fun e => true = true -> esc_status e = EsPending) (fun e => esc_status e = EsPending)) by naive_solver.
  done.
Qed.
End server.

(** ** Witnesses *)

(** Two workspaces change the same line, and both are submitted. *)
Definition wit_clash : list Request :=
  [ReqCreate true "one"; ReqCreate true "two"; ReqUpload true "w0" [mkFileUpload "a" "left"] [];
   ReqUpload true "w1" [mkFileUpload "a" "right"] []; ReqSubmit true "w0"].

Definition wit_clashed : ServerRepo := wit_serve wit_clash wit_server.
Definition wit_time (t : DateTime) : string := print_u64 (Z.to_N t).
Definition wit_rows (f : list SortField) (l : list Escalation) : list Escalation := l.

Abbreviation wit_submit := (submit_workspace_handler wit_clock wit_uuid wit_parse_uuid string_of wit_iter wit_dir wit_parser
  wit_parser true).
Abbreviation wit_esc_serve := (esc_serve wit_clock wit_uuid wit_parse_uuid string_of wit_iter wit_unpack wit_manifest
  wit_decode wit_values wit_dir wit_parser wit_parser wit_time).
Abbreviation wit_list st per_page := (list_escalations_handler (unicode := ascii_unicode) wit_time wit_rows true
  (mkListEscalations (Some st) (Some 1%Z) (Some per_page) None)).

(** The second submission raised an escalation. *)
Definition wit_raised : ServerRepo := (wit_submit "w1" wit_clashed).2.
Definition wit_resolve (option by_ : string) : EscRequest := EqResolve true "w3" (mkResolve option (Some by_)).

Lemma wit_refused : (wit_submit "w1" wit_clashed).1 = Err HtConflict.
Proof. vm_compute. reflexivity. Qed.

Lemma conflict_is_escalated_witness :
  exists esc, sv_escalations wit_raised = sv_escalations wit_clashed ++ [esc] /\ esc_id esc = "w3"%string /\
    esc_status esc = EsPending /\ sv_files wit_raised = sv_files wit_clashed.
Proof.
  destruct (find_workspace wit_parse_uuid "w1" wit_clashed) as [[meta|e|] s0] eqn:Ef; [|vm_compute in Ef; discriminate..].
  pose proof Ef as Ew. apply find_workspace_ok in Ew as (-> & Hid & _).
  destruct (conflict_is_escalated wit_clock wit_uuid wit_parse_uuid string_of wit_iter wit_dir wit_parser wit_parser "w1"
    wit_clashed wit_raised meta) as (esc & E & Hesc & Hs & _ & _ & _ & Hf).
  - unfold wit_raised. rewrite <-wit_refused. apply surjective_pairing.
  - exact Ef.
  - assert (sv_issues wit_clashed = ∅) as -> by (vm_compute; reflexivity). by destruct (ws_issue_id meta).
  - exists esc. split; [exact E|]. split; [rewrite Hesc; vm_compute; reflexivity|]. by split.
Defined.

Lemma escalation_life_witness :
  exists e e', e ∈ sv_escalations wit_raised /\
    e' ∈ sv_escalations (wit_esc_serve [wit_resolve "pause_both" "ann"; EqRepo (ReqCreate true "next");
                                        wit_resolve "keep_agent_a" "bob"] wit_raised) /\
    same_case e e' /\ esc_resolution e' = Some KeepAgentA /\ resolved_by e' = Some "bob"%string.
Proof.
  destruct conflict_is_escalated_witness as (e & He & Hid & _).
  assert (Hin : e ∈ sv_escalations wit_raised) by (rewrite He; apply elem_of_app; right; by left).
  destruct (escalation_life wit_clock wit_uuid wit_parse_uuid string_of wit_iter wit_unpack wit_manifest wit_decode wit_values
    wit_dir wit_parser wit_parser wit_time
    [wit_resolve "pause_both" "ann"; EqRepo (ReqCreate true "next"); wit_resolve "keep_agent_a" "bob"] wit_raised e Hin)
    as (e' & He' & Hc & Hd).
  exists e, e'. split; [exact Hin|]. split; [exact He'|]. split; [exact Hc|]. rewrite Hid in Hd.
  assert (last_decision wit_parse_uuid "w3" [wit_resolve "pause_both" "ann"; EqRepo (ReqCreate true "next");
    wit_resolve "keep_agent_a" "bob"] = Some (KeepAgentA, "bob"%string)) as E by (vm_compute; reflexivity).
  rewrite E in Hd. destruct Hd as (_ & Ho & Hby). split; [exact Ho|exact Hby].
Defined.

(** A second resolution succeeds and replaces the first, with an option that was not
    offered, and the log tells of neither. *)
Lemma resolution_is_replaced :
  let s := wit_esc_serve [wit_resolve "pause_both" "ann"] wit_raised in
  let s' := wit_esc_serve [wit_resolve "keep_agent_a" "bob"] s in
  (fun e => (esc_resolution e, resolved_by e)) <$> sv_escalations s = [(Some PauseBoth, Some "ann"%string)] /\
  (fun e => (esc_resolution e, resolved_by e)) <$> sv_escalations s' = [(Some KeepAgentA, Some "bob"%string)] /\
  sv_events s' = sv_events wit_raised.
Proof. vm_compute. split_and!; reflexivity. Qed.

(** The filter for resolved escalations looks at one page of all of them: the first page
    of one entry holds a pending one, and the answer is that none is resolved. *)
Lemma resolved_filter_looks_at_one_page :
  let s := (wit_submit "w1" (wit_esc_serve [wit_resolve "pause_both" "ann"] wit_raised)).2 in
  let newest_first := set_escalation_rows (reverse (sv_escalations s)) s in
  esc_status <$> sv_escalations newest_first = [EsPending; EsResolved] /\
  exists r, (wit_list "resolved" 1%Z newest_first).1 = Ok r /\ data r = [] /\ m_total (pagination r) = 0%Z.
Proof.
  intros s newest_first. split; [vm_compute; reflexivity|]. eexists. split; [vm_compute; reflexivity|]. by split.
Qed.
