(* ===== verification/Migration.v ===== *)
(** The move of a local repository to a hosted server: what the client gathers ([src/src/migration/mod.rs]), the
    transaction that inserts it, the upload of the source files and the checks after it ([src/src/server/mod.rs]). *)
From S2P Require Import Prelude Table RustStr TextMerge Graph EventLog MergeFs VaiDir Workspace Version Issue Escalation Pagination ServerRepo Auth IssuePg.

(** ** What the client sends *)

Record MigrationPayload : Type := mkPayload {
  mp_events : list Event; mp_issues : list Issue; mp_versions : list VersionMeta; mp_escalations : list Escalation;
  mp_head_version : option string
}.

Record MigrationSummary : Type := mkSummary {
  events_migrated : nat; issues_migrated : nat; versions_migrated : nat; escalations_migrated : nat;
  ms_head_version : option string; migrated_at : DateTime
}.

(** The metadata directory; a store that was never opened has no file. *)
Record LocalRepo : Type := mkLocalRepo {
  lr_vai : VaiDir; lr_issues : option IssueStore; lr_escalations : option Escalation.Desk
}.

Section gather.
Context {unicode : Unicode}.
Variable source_from_json : string -> option AgentSource.
Variable criteria_from_json : string -> option (list string).
Variable scan : forall A, list A -> list A.
Variable read_dir : gmap string VersionMeta -> list VersionMeta.

Definition gather_local_data (r : LocalRepo) : MigrationPayload :=
  mkPayload (log (lr_vai r))
    (match lr_issues r with
     | Some s => Issue.list_issues source_from_json criteria_from_json scan (mkFilter None None None None None) s
     | None => []
     end)
    (Version.list_versions read_dir (lr_vai r))
    (match lr_escalations r with Some k => Escalation.list_escalations (scan Escalation) None k | None => [] end)
    (read_head (lr_vai r)).
End gather.

(** The marker that the client leaves, as a TOML file. *)
Record MigrationMarker : Type := mkMarker {
  mk_migrated_at : DateTime; mk_remote_url : string; mk_events : nat; mk_issues : nat; mk_versions : nat;
  mk_escalations : nat; mk_head_version : option string
}.

Section marker.
Variable print_toml : MigrationMarker -> string.
Variable parse_toml : string -> option MigrationMarker.
Variable vai_dir : string.

Definition write_marker (m : MigrationMarker) (d : Disk) : Disk :=
  <[path_join vai_dir "migrated_at" := bytes_of (print_toml m)]> d.
Definition read_marker (d : Disk) : option MigrationMarker :=
  content ← d !! path_join vai_dir "migrated_at" ≫= from_utf8; parse_toml content.
End marker.

(** ** The tables *)

(** One repository in a database. Event ids come from one sequence for all
    repositories; [md_others] are those of the other ones. [md_local_ids] is the column
    [local_event_id] of the repository, [md_state] the table [migration_state], [md_foreign] the keys of the issues and
    escalations of the other repositories, which are keys of the same tables. *)
Record MigrationDb : Type := mkMigrationDb {
  md_desk : Desk; md_local_ids : list Z; md_state : gmap string string; md_others : list N; md_sequence : N;
  md_foreign : list Uuid
}.

Definition md_repo (d : MigrationDb) : ServerRepo := dk_repo (md_desk d).
Definition set_desk (x : Desk) (d : MigrationDb) : MigrationDb :=
  mkMigrationDb x (md_local_ids d) (md_state d) (md_others d) (md_sequence d) (md_foreign d).
Definition set_md_repo (r : ServerRepo) (d : MigrationDb) : MigrationDb := set_desk (set_repo r (md_desk d)) d.
Definition set_sequence (n : N) (d : MigrationDb) : MigrationDb :=
  mkMigrationDb (md_desk d) (md_local_ids d) (md_state d) (md_others d) n (md_foreign d).
Definition set_state (x : gmap string string) (d : MigrationDb) : MigrationDb :=
  mkMigrationDb (md_desk d) (md_local_ids d) x (md_others d) (md_sequence d) (md_foreign d).

Definition set_log (x : EventLog) (r : ServerRepo) : ServerRepo :=
  mkServer (sv_files r) x (sv_versions r) (sv_head r) (sv_workspaces r) (sv_issues r) (sv_escalations r) (sv_engine r)
    (sv_broadcasts r) (sv_draws r) (sv_ticks r).
Definition set_version_rows (x : list VersionMeta) (r : ServerRepo) : ServerRepo :=
  mkServer (sv_files r) (sv_events r) x (sv_head r) (sv_workspaces r) (sv_issues r) (sv_escalations r) (sv_engine r)
    (sv_broadcasts r) (sv_draws r) (sv_ticks r).
Definition set_head_row (x : option string) (r : ServerRepo) : ServerRepo :=
  mkServer (sv_files r) (sv_events r) (sv_versions r) x (sv_workspaces r) (sv_issues r) (sv_escalations r) (sv_engine r)
    (sv_broadcasts r) (sv_draws r) (sv_ticks r).
Definition set_escalation_table (x : list Escalation) (r : ServerRepo) : ServerRepo :=
  mkServer (sv_files r) (sv_events r) (sv_versions r) (sv_head r) (sv_workspaces r) (sv_issues r) x (sv_engine r)
    (sv_broadcasts r) (sv_draws r) (sv_ticks r).

Section server.
Variable clock : nat -> DateTime.
Variable sha256_hex : bytes -> string.
Variable b64_encode : bytes -> string.
Variable b64_decode : string -> option bytes.
(** Whether the server stores its tables in Postgres. *)
Variable postgres : bool.

Abbreviation Mg := (M MigrationDb HttpError).

(** ** The transaction *)

(** [ON CONFLICT DO NOTHING] everywhere: 1 for a row that is inserted, 0 for one that is
    skipped. The id of an event is drawn before the conflict is seen. *)
Definition insert_event (e : Event) : Mg nat := fun d =>
  let id := (md_sequence d + 1)%N in
  let local_id := i64_wrap (Z.of_N (ev_id e)) in
  if bool_decide (local_id ∈ md_local_ids d) then (Ok 0, set_sequence id d)
  else
    let r := set_log (sv_events (md_repo d) ++ [mkEvent id (timestamp e) (ev_kind e)]) (md_repo d) in
    (Ok 1, mkMigrationDb (set_repo r (md_desk d)) (md_local_ids d ++ [local_id]) (md_state d) (md_others d) id (md_foreign d)).

Definition issue_row (i : Issue) : IssueInfo :=
  mkInfo (i_id i) (i_title i) (i_description i) (i_priority i) (i_labels i) (i_creator i) (i_agent_source i) (i_resolution i)
    (i_acceptance_criteria i) (i_created_at i) (i_updated_at i).

Definition insert_issue_row (i : Issue) : Mg nat := fun d =>
  match info_of (i_id i) (md_desk d) with
  | Some _ => (Ok 0, d)
  | None =>
      if bool_decide (i_id i ∈ md_foreign d) then (Ok 0, d)
      else (Ok 1, set_desk (set_status (i_id i) (i_status i) (set_infos (dk_issues (md_desk d) ++ [issue_row i]) (md_desk d))) d)
  end.

(** The merge event is a reference to the events of the database. *)
Definition known_event (id : N) (d : MigrationDb) : bool :=
  bool_decide (id ∈ ev_id <$> sv_events (md_repo d)) || bool_decide (id ∈ md_others d).

Definition insert_version_row (v : VersionMeta) : Mg nat := fun d =>
  match find_by version_id (version_id v) (sv_versions (md_repo d)) with
  | Some _ => (Ok 0, d)
  | None =>
      if match merge_event_id v with Some id => known_event id d | None => true end
      then (Ok 1, set_md_repo (set_version_rows (sv_versions (md_repo d) ++ [v]) (md_repo d)) d)
      else (Err HtInternal, d)
  end.

(** The column of the conflicts is not among those that are written. *)
Definition escalation_row (e : Escalation) : Escalation :=
  mkEscalation (esc_id e) (escalation_type e) (esc_severity e)
    (if bool_decide (esc_status e = EsPending) then EsPending else EsResolved) (esc_summary e) (esc_intents e) (esc_agents e)
    (esc_workspace_ids e) (affected_entities e) [] (resolution_options e) (esc_resolution e) (resolved_by e)
    (esc_created_at e) (resolved_at e).

Definition insert_escalation_row (e : Escalation) : Mg nat := fun d =>
  match find_escalation (esc_id e) (sv_escalations (md_repo d)) with
  | Some _ => (Ok 0, d)
  | None =>
      if bool_decide (esc_id e ∈ md_foreign d) then (Ok 0, d)
      else (Ok 1, set_md_repo (set_escalation_table (sv_escalations (md_repo d) ++ [escalation_row e]) (md_repo d)) d)
  end.

Fixpoint insert_all {A} (insert : A -> Mg nat) (l : list A) : Mg nat :=
  match l with
  | [] => mret 0
  | x :: l' => n ← insert x; m ← insert_all insert l'; mret (n + m)
  end.

(** [REGEXP_REPLACE(s, '[^0-9]', '', 'g')::BIGINT]; an empty text and an overflow are errors. *)
Definition is_decimal (a : ascii) : bool := (48 <=? Ascii.N_of_ascii a)%N && (Ascii.N_of_ascii a <=? 57)%N.
Definition version_bigint (s : string) : option N :=
  match filter (fun a => is_decimal a = true) (bytes_of s) with
  | [] => None
  | ds => let n := foldl (fun n a => 10 * n + (Ascii.N_of_ascii a - 48))%N 0%N ds in
          if (Z.of_N n <=? i64_max)%Z then Some n else None
  end.

Definition migrate_head (head : string) : Mg unit := fun d =>
  let set := (Ok tt, set_md_repo (set_head_row (Some head) (md_repo d)) d) in
  match sv_head (md_repo d) with
  | None => set
  | Some current =>
      match version_bigint current, version_bigint head with
      | Some a, Some b => if (a <? b)%N then set else (Ok tt, d)
      | _, _ => (Err HtInternal, d)
      end
  end.

Definition migrate_rows (payload : MigrationPayload) : Mg (nat * nat * nat * nat) :=
  events ← insert_all insert_event (mp_events payload);
  issues ← insert_all insert_issue_row (mp_issues payload);
  versions ← insert_all insert_version_row (mp_versions payload);
  escalations ← insert_all insert_escalation_row (mp_escalations payload);
  _ ← match mp_head_version payload with Some head => migrate_head head | None => mret tt end;
  mret (events, issues, versions, escalations).

(** A transaction that fails leaves everything but the sequence. *)
Definition transaction {A} (m : Mg A) : Mg A := fun d =>
  match m d with
  | (Ok a, d') => (Ok a, d')
  | (Err e, d') => (Err e, set_sequence (md_sequence d') d)
  | (Panic, d') => (Panic, set_sequence (md_sequence d') d)
  end.

Definition check_access (allowed : bool) : Mg unit := if allowed then mret tt else fail HtForbidden.

Definition md_now : Mg DateTime := fun d =>
  let r := md_repo d in (Ok (clock (sv_ticks r)), set_md_repo (set_streams (sv_draws r) (S (sv_ticks r)) r) d).

Definition migrate_handler (allowed : bool) (payload : MigrationPayload) : Mg MigrationSummary :=
  _ ← check_access allowed;
  if negb postgres then fail HtBadRequest
  else
    '(events, issues, versions, escalations) ← transaction (migrate_rows payload);
    now ← md_now;
    mret (mkSummary events issues versions escalations (mp_head_version payload) now).

Record MigrationStatsResponse : Type := mkStats {
  st_events : nat; st_issues : nat; st_versions : nat; st_escalations : nat; st_head_version : option string
}.

Definition migration_stats_handler (allowed : bool) : Mg MigrationStatsResponse :=
  _ ← check_access allowed;
  if negb postgres then fail HtBadRequest
  else
    d ← get_st;
    mret (mkStats (length (sv_events (md_repo d))) (length (dk_issues (md_desk d))) (length (sv_versions (md_repo d)))
            (length (sv_escalations (md_repo d))) (sv_head (md_repo d))).

(** ** The source files *)

Record UploadFilesResponse : Type := mkUploadFiles { uf_uploaded : nat; uf_skipped : nat; uf_paths : list string }.

Definition put_source (key : string) (content : bytes) (d : MigrationDb) : MigrationDb :=
  set_md_repo (set_files (<[key := content]> (sv_files (md_repo d))) (md_repo d)) d.

(** One file: its path, unless the same content was uploaded for the path before. *)
Definition upload_source_file (entry : FileUploadEntry) : Mg (option string) :=
  match b64_decode (fe_content_base64 entry) with
  | None => fail HtBadRequest
  | Some content =>
      if over MAX_FILE_SIZE_BYTES content then fail HtBadRequest
      else match stored_path (fe_path entry) with
      | None => fail HtBadRequest
      | Some path_str =>
          let hash := sha256_hex content in
          d ← get_st;
          if postgres && bool_decide (md_state d !! path_str = Some hash) then mret None
          else
            _ ← modify_st (put_source (blob_key hash) content);
            _ ← modify_st (put_source (current_key path_str) content);
            _ ← (if postgres then modify_st (fun d => set_state (<[path_str := hash]> (md_state d)) d) else mret tt);
            mret (Some path_str)
      end
  end.

Fixpoint upload_source_loop (files : list FileUploadEntry) (uploaded_paths : list string) (skipped : nat) :
    Mg UploadFilesResponse :=
  match files with
  | [] => mret (mkUploadFiles (length uploaded_paths) skipped uploaded_paths)
  | f :: files' =>
      r ← upload_source_file f;
      match r with
      | Some p => upload_source_loop files' (uploaded_paths ++ [p]) skipped
      | None => upload_source_loop files' uploaded_paths (S skipped)
      end
  end.

Definition upload_source_files_handler (allowed : bool) (files : list FileUploadEntry) : Mg UploadFilesResponse :=
  _ ← check_access allowed;
  if MAX_FILES_PER_REQUEST <? length files then fail HtBadRequest
  else if existsb (fun f => MAX_PATH_LEN <? String.length (fe_path f)) files then fail HtBadRequest
  else upload_source_loop files [] 0.

(** ** Reading single files and the list of all *)

Abbreviation H := (M ServerRepo HttpError).
Variable disk : Disk.
Variable repo_root : string.
(** [collect_all_files_relative] on the directory of the repository, for a server without a store. *)
Variable collect_all_files : Disk -> string -> list string.

Record RepoFileListResponse : Type := mkRepoFileList { rf_files : list string; rf_count : nat; rf_head_version : string }.

Definition list_repo_files_handler (allowed : bool) : H RepoFileListResponse :=
  _ ← check allowed;
  s ← get_st;
  let head_version := default "v0"%string (sv_head s) in
  let stored := filter (fun key => starts_with "current/" key = true) (map_to_list (sv_files s)).*1 in
  let files := if bool_decide (stored = []) then collect_all_files disk repo_root
               else filter (fun rel => rel <> EmptyString) (omap (strip_prefix "current/") stored) in
  mret (mkRepoFileList (sort_strings files) (length files) head_version).

Definition get_main_file_handler (allowed : bool) (path : string) : H FileDownloadResponse :=
  _ ← check allowed;
  match sanitize_path path with
  | None => fail HtBadRequest
  | Some rel =>
      s ← get_st;
      let path_str := normalise_separators rel in
      let reply (content : bytes) : FileDownloadResponse :=
        mkDownload path_str (b64_encode content) (length content) "base" in
      match sv_files s !! current_key path_str with
      | Some content => mret (reply content)
      | None =>
          let file_path := path_join repo_root rel in
          if path_exists disk file_path then
            match disk !! file_path with Some content => mret (reply content) | None => fail HtInternal end
          else fail HtNotFound
      end
  end.
End server.
