(* ===== verification/MigrationProps.v ===== *)
(** A migration into a new repository brings everything but the details of the escalations, and one that is repeated
    brings nothing twice; the links of versions to their merges hold only in a database without other events. *)
From S2P Require Import Prelude Table RustStr TextMerge Graph EventLog MergeFs VaiDir Workspace Version Issue Escalation Pagination ServerRepo ServerPull VersionServer Auth IssuePg Migration.

Lemma marker_roundtrip print_toml parse_toml vai_dir m d :
  from_utf8 (bytes_of (print_toml m)) = Some (print_toml m) -> parse_toml (print_toml m) = Some m ->
  read_marker parse_toml vai_dir (write_marker print_toml vai_dir m d) = Some m.
Proof. intros Hu Hp. unfold read_marker, write_marker. rewrite lookup_insert_eq. simpl. by rewrite Hu. Qed.

Section server.
Variable clock : nat -> DateTime.

Abbreviation Mg := (M MigrationDb HttpError).

(** ** A first migration *)

Definition local_id (e : Event) : Z := i64_wrap (Z.of_N (ev_id e)).

(** The events with the ids that the sequence gives them. *)
Fixpoint renumber (n : N) (l : list Event) : list Event :=
  match l with [] => [] | e :: l' => mkEvent (n + 1) (timestamp e) (ev_kind e) :: renumber (n + 1) l' end.

Lemma renumber_length n l : length (renumber n l) = length l.
Proof using. revert n; induction l as [|e l IH]; intros n; simpl; [done|by rewrite IH]. Qed.

Lemma renumber_contents n l : ((fun e => (timestamp e, ev_kind e)) <$> renumber n l) = ((fun e => (timestamp e, ev_kind e)) <$> l).
Proof using. revert n; induction l as [|e l IH]; intros n; simpl; [done|by rewrite IH]. Qed.

Definition with_events (l : list Event) (d : MigrationDb) : MigrationDb :=
  mkMigrationDb (set_repo (set_log (sv_events (md_repo d) ++ renumber (md_sequence d) l) (md_repo d)) (md_desk d))
    (md_local_ids d ++ (local_id <$> l)) (md_state d) (md_others d) (md_sequence d + N.of_nat (length l)) (md_foreign d).

Lemma events_inserted l d : NoDup (local_id <$> l) -> (forall e, e ∈ l -> local_id e ∉ md_local_ids d) ->
  insert_all insert_event l d = (Ok (length l), with_events l d).
Proof using.
  revert d. induction l as [|e l IH]; intros d Hnd Hfresh; simpl.
  { unfold mret, M_ret, with_events. simpl. rewrite !app_nil_r, N.add_0_r. by destruct d as [[[]] ? ? ? ? ?]. }
  apply NoDup_cons in Hnd as [He Hnd].
  erewrite (M_bind_ok (insert_event e) _ d 1).
  2:{ unfold insert_event. rewrite bool_decide_eq_false_2 by (apply Hfresh; by left). reflexivity. }
  erewrite M_bind_ok.
  2:{ apply IH; [done|]. intros e' He'. simpl. rewrite not_elem_of_app, list_elem_of_singleton. split.
      - apply Hfresh. by right.
      - intros E. apply He. change (local_id e ∈ local_id <$> l). apply list_elem_of_fmap. exists e'. by split. }
  unfold mret, M_ret, with_events. simpl. rewrite <-!app_assoc. simpl. do 2 f_equal. lia.
Qed.

Definition with_issues (l : list Issue) (d : MigrationDb) : MigrationDb :=
  set_desk (foldl (fun k i => set_status (i_id i) (i_status i) (set_infos (dk_issues k ++ [issue_row i]) k)) (md_desk d) l) d.

(** Those whose key no other repository of the database has. *)
Definition unclaimed {A} (key : A -> Uuid) (d : MigrationDb) (l : list A) : list A := filter (fun x => key x ∉ md_foreign d) l.

Lemma issues_inserted l d : NoDup (i_id <$> l) -> (forall i, i ∈ l -> i_id i ∉ ii_id <$> dk_issues (md_desk d)) ->
  insert_all insert_issue_row l d = (Ok (length (unclaimed i_id d l)), with_issues (unclaimed i_id d l) d).
Proof using.
  revert d. induction l as [|i l IH]; intros d Hnd Hfresh; simpl.
  { unfold mret, M_ret, with_issues. simpl. by destruct d. }
  apply NoDup_cons in Hnd as [Hi Hnd]. unfold unclaimed in *. rewrite filter_cons.
  assert (E : insert_issue_row i d = if decide (i_id i ∉ md_foreign d) then (Ok 1, with_issues [i] d) else (Ok 0, d)).
  { unfold insert_issue_row, info_of. rewrite (proj2 (find_by_None ii_id _ _)) by (apply Hfresh; by left).
    destruct (decide (i_id i ∉ md_foreign d)) as [Hf|Hf]; [by rewrite bool_decide_eq_false_2|by rewrite bool_decide_eq_true_2 by (by apply dec_stable)]. }
  unfold mbind, M_bind. rewrite E. clear E. destruct (decide (i_id i ∉ md_foreign d)) as [Hf|Hf].
  - rewrite IH; [done|done|]. intros j Hj. simpl. rewrite fmap_app, not_elem_of_app. simpl. rewrite list_elem_of_singleton.
    split; [apply Hfresh; by right|]. intros E. apply Hi, list_elem_of_fmap. exists j. by split.
  - rewrite IH; [done|done|]. intros j Hj. apply Hfresh. by right.
Qed.

Definition with_versions (l : list VersionMeta) (d : MigrationDb) : MigrationDb :=
  set_md_repo (set_version_rows (sv_versions (md_repo d) ++ l) (md_repo d)) d.

Definition known_merge (d : MigrationDb) (v : VersionMeta) : bool :=
  match merge_event_id v with Some id => known_event id d | None => true end.

(** Those whose name the repository has not yet. *)
Definition unnamed (d : MigrationDb) (l : list VersionMeta) : list VersionMeta :=
  filter (fun v => version_id v ∉ version_id <$> sv_versions (md_repo d)) l.

Lemma unnamed_ext d d' l : (forall v, v ∈ l -> version_id v ∈ version_id <$> sv_versions (md_repo d) <-> version_id v ∈ version_id <$> sv_versions (md_repo d')) ->
  unnamed d l = unnamed d' l.
Proof using.
  unfold unnamed. induction l as [|v l IH]; intros H; [done|]. rewrite !filter_cons, IH by (intros x Hx; apply H; by right).
  pose proof (H v ltac:(by left)). by destruct (decide (_ ∉ _)), (decide (_ ∉ _)); tauto || done.
Qed.

Lemma insert_version_cases v d :
  insert_version_row v d =
  if decide (version_id v ∉ version_id <$> sv_versions (md_repo d)) then
    if known_merge d v then (Ok 1, with_versions [v] d) else (Err HtInternal, d)
  else (Ok 0, d).
Proof using.
  unfold insert_version_row, known_merge. destruct (decide _) as [Hn|Hn]; [by rewrite (proj2 (find_by_None version_id _ _) Hn)|].
  apply dec_stable in Hn. destruct (find_by _ _ _) eqn:Ef; [done|]. by apply find_by_None in Ef.
Qed.

Lemma versions_inserted l d : NoDup (version_id <$> l) ->
  (Forall (fun v => known_merge d v = true) (unnamed d l) /\
     insert_all insert_version_row l d = (Ok (length (unnamed d l)), with_versions (unnamed d l) d)) \/
  (~ Forall (fun v => known_merge d v = true) (unnamed d l) /\
     exists d', insert_all insert_version_row l d = (Err HtInternal, d') /\ md_sequence d' = md_sequence d).
Proof using.
  revert d. induction l as [|v l IH]; intros d Hnd; simpl.
  { left. split; [by apply Forall_nil|]. unfold mret, M_ret, with_versions. simpl. rewrite app_nil_r. by destruct d as [[[]] ? ? ? ? ?]. }
  apply NoDup_cons in Hnd as [Hv Hnd]. unfold unnamed. rewrite filter_cons. fold (unnamed d l). unfold mbind, M_bind.
  rewrite insert_version_cases. destruct (decide (version_id v ∉ version_id <$> sv_versions (md_repo d))) as [Hn|Hn].
  2:{ destruct (IH d Hnd) as [[Hk ->]|(Hk & d' & -> & Hs)]; [by left|right]. split; [done|]. by exists d'. }
  destruct (known_merge d v) eqn:Hk.
  2:{ right. split; [by intros [? _]%Forall_cons; congruence|]. by exists d. }
  assert (Hu : unnamed (with_versions [v] d) l = unnamed d l).
  { apply unnamed_ext. intros x Hx. simpl. rewrite fmap_app, elem_of_app. simpl. rewrite list_elem_of_singleton.
    split; [|tauto]. intros [H|H]; [done|]. destruct Hv. rewrite <-H. apply list_elem_of_fmap. by exists x. }
  assert (Hw : forall l', with_versions l' (with_versions [v] d) = with_versions (v :: l') d)
    by (intros l'; unfold with_versions; simpl; by rewrite <-app_assoc).
  destruct (IH (with_versions [v] d) Hnd) as [[Hl ->]|(Hl & d' & -> & Hs)]; rewrite Hu in *.
  - left. split; [by apply Forall_cons|]. rewrite Hw. done.
  - right. split; [by intros [_ ?]%Forall_cons|]. by exists d'.
Qed.

Definition with_escalations (l : list Escalation) (d : MigrationDb) : MigrationDb :=
  set_md_repo (set_escalation_table (sv_escalations (md_repo d) ++ (escalation_row <$> l)) (md_repo d)) d.

Lemma escalations_inserted l d : NoDup (esc_id <$> l) -> (forall e, e ∈ l -> esc_id e ∉ esc_id <$> sv_escalations (md_repo d)) ->
  insert_all insert_escalation_row l d = (Ok (length (unclaimed esc_id d l)), with_escalations (unclaimed esc_id d l) d).
Proof using.
  revert d. induction l as [|e l IH]; intros d Hnd Hfresh; simpl.
  { unfold mret, M_ret, with_escalations. simpl. rewrite app_nil_r. by destruct d as [[[]] ? ? ? ? ?]. }
  apply NoDup_cons in Hnd as [He Hnd]. unfold unclaimed in *. rewrite filter_cons.
  assert (E : insert_escalation_row e d = if decide (esc_id e ∉ md_foreign d) then (Ok 1, with_escalations [e] d) else (Ok 0, d)).
  { unfold insert_escalation_row, find_escalation. rewrite (proj2 (find_by_None esc_id _ _)) by (apply Hfresh; by left).
    destruct (decide (esc_id e ∉ md_foreign d)) as [Hf|Hf]; [by rewrite bool_decide_eq_false_2|by rewrite bool_decide_eq_true_2 by (by apply dec_stable)]. }
  unfold mbind, M_bind. rewrite E. clear E. destruct (decide (esc_id e ∉ md_foreign d)) as [Hf|Hf].
  - rewrite IH; [|done|].
    + unfold mret, M_ret, with_escalations. simpl. by rewrite <-app_assoc.
    + intros j Hj. simpl. rewrite fmap_app, not_elem_of_app. simpl. rewrite list_elem_of_singleton.
      split; [apply Hfresh; by right|]. intros E. apply He, list_elem_of_fmap. exists j. by split.
  - rewrite IH; [done|done|]. intros j Hj. apply Hfresh. by right.
Qed.

(** The desk after issues were added. *)
Definition add_issues (l : list Issue) (k : IssuePg.Desk) : IssuePg.Desk :=
  foldl (fun k i => set_status (i_id i) (i_status i) (set_infos (dk_issues k ++ [issue_row i]) k)) k l.

Lemma add_issues_rows l k : dk_issues (add_issues l k) = dk_issues k ++ (issue_row <$> l).
Proof using.
  unfold add_issues. revert k. induction l as [|i l IH]; intros k; simpl; [by rewrite app_nil_r|].
  rewrite IH. simpl. by rewrite <-app_assoc.
Qed.

Lemma add_issues_other l k u : u ∉ i_id <$> l -> sv_issues (dk_repo (add_issues l k)) !! u = sv_issues (dk_repo k) !! u.
Proof using.
  unfold add_issues. revert k. induction l as [|i l IH]; intros k Hu; simpl; [done|].
  apply not_elem_of_cons in Hu as [Hi Hu]. rewrite IH by done. simpl. by rewrite lookup_insert_ne.
Qed.

Lemma add_issues_status l k i : NoDup (i_id <$> l) -> i ∈ l -> status_of (add_issues l k) (i_id i) = i_status i.
Proof using.
  intros Hnd Hi. apply list_elem_of_split in Hi as (l1 & l2 & ->). unfold status_of, add_issues.
  rewrite foldl_app. simpl. fold (add_issues l1 k). set (k1 := set_status _ _ _). fold (add_issues l2 k1).
  rewrite fmap_app in Hnd. apply NoDup_app in Hnd as (_ & _ & Hnd). apply NoDup_cons in Hnd as [Hn _].
  rewrite add_issues_other by done. unfold k1. simpl. by rewrite lookup_insert_eq.
Qed.

(** The rows come back as the issues that were sent. *)
Lemma add_issues_back l k : NoDup (i_id <$> l) -> info_to_issue (add_issues l k) <$> (issue_row <$> l) = l.
Proof using.
  intros Hnd. rewrite <-list_fmap_compose. etransitivity; [|apply list_fmap_id]. apply list_fmap_ext. intros n i Hi.
  apply list_elem_of_lookup_2 in Hi. simpl. unfold info_to_issue. simpl. rewrite add_issues_status by done. by destruct i.
Qed.

(** The repository as its creation leaves it, with the seeded version and HEAD. *)
Record new_repo (d : MigrationDb) : Prop := {
  nr_local : md_local_ids d = [];
  nr_events : sv_events (md_repo d) = [];
  nr_issues : dk_issues (md_desk d) = [];
  nr_versions : exists t, sv_versions (md_repo d) = [mkVersion "v1" None "initial repository" "system" t None];
  nr_escalations : sv_escalations (md_repo d) = [];
  nr_head : sv_head (md_repo d) = Some "v1"%string
}.

(** The keys of the local stores: no row is sent twice. *)
Record payload_ok (p : MigrationPayload) : Prop := {
  po_events : NoDup (local_id <$> mp_events p);
  po_issues : NoDup (i_id <$> mp_issues p);
  po_versions : NoDup (version_id <$> mp_versions p);
  po_escalations : NoDup (esc_id <$> mp_escalations p)
}.

(** The versions that the new repository has not: all but the first. *)
Definition later_versions (p : MigrationPayload) : list VersionMeta := filter (fun v => version_id v ∉ ["v1"%string]) (mp_versions p).

(** Every merge that they name is an event of the database once those of the payload are there. *)
Definition merges_known (d : MigrationDb) (p : MigrationPayload) : Prop :=
  Forall (fun v => forall id, merge_event_id v = Some id ->
    id ∈ ev_id <$> renumber (md_sequence d) (mp_events p) \/ id ∈ md_others d) (later_versions p).

(** The HEAD afterwards; [None] when that of the payload has no number. *)
Definition head_after (p : MigrationPayload) : option string :=
  match mp_head_version p with
  | None => Some "v1"%string
  | Some h => n ← version_bigint h; Some (if (1 <? n)%N then h else "v1"%string)
  end.

Lemma add_issues_repo l k : exists statuses, dk_repo (add_issues l k) = set_issue_rows statuses (dk_repo k).
Proof using.
  unfold add_issues. revert k. induction l as [|i l IH]; intros k; simpl; [exists (sv_issues (dk_repo k)); by destruct k as [[]]|].
  destruct (IH (set_status (i_id i) (i_status i) (set_infos (dk_issues k ++ [issue_row i]) k))) as [m ->]. by exists m.
Qed.

Lemma set_head_same d : set_md_repo (set_head_row (sv_head (md_repo d)) (md_repo d)) d = d.
Proof using. by destruct d as [[[]] ? ? ? ? ?]. Qed.

Lemma info_to_issue_ext k k' r : sv_issues (dk_repo k) = sv_issues (dk_repo k') -> info_to_issue k r = info_to_issue k' r.
Proof using. intros E. unfold info_to_issue, status_of. by rewrite E. Qed.

Lemma migrate_head_new head d : sv_head (md_repo d) = Some "v1"%string ->
  (match head with Some h => migrate_head h | None => mret tt end : Mg unit) d =
    match match head with None => Some "v1"%string | Some h => n ← version_bigint h; Some (if (1 <? n)%N then h else "v1"%string) end with
    | Some h => (Ok tt, set_md_repo (set_head_row (Some h) (md_repo d)) d)
    | None => (Err HtInternal, d)
    end.
Proof using.
  intros Hn. pose proof (set_head_same d) as Hs. rewrite Hn in Hs. destruct head as [h|]; [|by rewrite Hs].
  unfold migrate_head. rewrite Hn. change (version_bigint "v1") with (Some 1%N). destruct (version_bigint h) as [b|]; [|done]. simpl.
  destruct (1 <? b)%N; [done|by rewrite Hs].
Qed.

(** The repository that the migration makes of a new one. *)
Record migrated (d : MigrationDb) (p : MigrationPayload) (head : string) (d' : MigrationDb) : Prop := {
  mg_events : sv_events (md_repo d') = renumber (md_sequence d) (mp_events p);
  mg_issues : info_to_issue (md_desk d') <$> dk_issues (md_desk d') = unclaimed i_id d (mp_issues p);
  mg_versions : sv_versions (md_repo d') = sv_versions (md_repo d) ++ later_versions p;
  mg_escalations : sv_escalations (md_repo d') = escalation_row <$> unclaimed esc_id d (mp_escalations p);
  mg_head : sv_head (md_repo d') = Some head;
  mg_count : length (dk_issues (md_desk d')) = length (unclaimed i_id d (mp_issues p))
}.

Definition counts (d : MigrationDb) (p : MigrationPayload) : nat * nat * nat * nat :=
  (length (mp_events p), length (unclaimed i_id d (mp_issues p)), length (later_versions p), length (unclaimed esc_id d (mp_escalations p))).

(** The events and the issues always find their place. *)
Lemma migrate_front d p : new_repo d -> payload_ok p ->
  exists d2, insert_all insert_event (mp_events p) d = (Ok (length (mp_events p)), with_events (mp_events p) d) /\
    insert_all insert_issue_row (mp_issues p) (with_events (mp_events p) d) = (Ok (length (unclaimed i_id d (mp_issues p))), d2) /\
    (exists st, md_repo d2 = set_issue_rows st (md_repo (with_events (mp_events p) d))) /\
    dk_issues (md_desk d2) = issue_row <$> unclaimed i_id d (mp_issues p) /\
    info_to_issue (md_desk d2) <$> (issue_row <$> unclaimed i_id d (mp_issues p)) = unclaimed i_id d (mp_issues p) /\
    md_sequence d2 = (md_sequence d + N.of_nat (length (mp_events p)))%N /\ md_foreign d2 = md_foreign d /\ md_others d2 = md_others d.
Proof using.
  intros [Nl Ne Ni Nv Nx Nh] [Pe Pi Pv Px]. set (d1 := with_events (mp_events p) d). set (l := unclaimed i_id d (mp_issues p)).
  exists (set_desk (add_issues l (md_desk d1)) d1). split; [apply events_inserted; [done|]; intros; rewrite Nl; apply not_elem_of_nil|].
  split; [apply (issues_inserted _ d1 Pi); intros; simpl; rewrite Ni; apply not_elem_of_nil|].
  split; [apply add_issues_repo|]. split; [simpl; rewrite add_issues_rows; simpl; by rewrite Ni|].
  split_and!; try done. apply add_issues_back. unfold l, unclaimed. clear -Pi. induction (mp_issues p) as [|i js IH]; [done|].
  apply NoDup_cons in Pi as [Hi Pi]. rewrite filter_cons. case_decide; [|by apply IH]. apply NoDup_cons. split; [|by apply IH].
  intros (j & E & [_ Hj]%list_elem_of_filter)%list_elem_of_fmap. apply Hi. rewrite E. apply list_elem_of_fmap. by exists j.
Qed.

Lemma migrate_rows_new d p : new_repo d -> payload_ok p ->
  (merges_known d p /\ exists head d', head_after p = Some head /\ migrate_rows p d = (Ok (counts d p), d') /\ migrated d p head d') \/
  ((~ merges_known d p \/ head_after p = None) /\ exists d', migrate_rows p d = (Err HtInternal, d') /\
     md_sequence d' = (md_sequence d + N.of_nat (length (mp_events p)))%N).
Proof using.
  intros Hn Hp. destruct (migrate_front d p Hn Hp) as (d2 & E1 & E2 & (st & Hr) & Hk & Hb & Hsq & Hf & Ho).
  destruct Hn as [Nl Ne Ni [t Nv] Nx Nh]. destruct Hp as [_ _ Pv Px]. unfold migrate_rows.
  rewrite (M_bind_ok _ _ _ _ _ E1), (M_bind_ok _ _ _ _ _ E2).
  assert (Hu : unnamed d2 (mp_versions p) = later_versions p).
  { unfold unnamed, later_versions. rewrite Hr. simpl. rewrite Nv. done. }
  assert (Hm : Forall (fun v => known_merge d2 v = true) (later_versions p) <-> merges_known d p).
  { unfold merges_known. rewrite !Forall_forall. split; intros H v Hv.
    - intros id Ev. specialize (H v Hv). unfold known_merge, known_event in H. rewrite Ev, orb_true_iff, !bool_decide_eq_true, Hr, Ho in H.
      simpl in H. rewrite Ne in H. exact H.
    - unfold known_merge, known_event. destruct (merge_event_id v) as [id|] eqn:Ev; [|done].
      rewrite orb_true_iff, !bool_decide_eq_true, Hr, Ho. simpl. rewrite Ne. by apply (H v). }
  destruct (versions_inserted (mp_versions p) d2 Pv) as [[Hkn E3]|(Hkn & d3 & E3 & Hs3)]; rewrite Hu in *.
  2:{ right. split; [left; by rewrite <-Hm|]. exists d3. unfold mbind at 1, M_bind at 1. rewrite E3. by rewrite Hs3, Hsq. }
  rewrite (M_bind_ok _ _ _ _ _ E3). set (d3 := with_versions (later_versions p) d2) in *.
  assert (Hr3 : md_repo d3 = set_version_rows (sv_versions (md_repo d) ++ later_versions p) (md_repo d2)).
  { unfold d3, with_versions. rewrite Hr. done. }
  pose proof (escalations_inserted (mp_escalations p) d3 Px) as E4. replace (unclaimed esc_id d3 _) with (unclaimed esc_id d (mp_escalations p)) in E4
    by (unfold unclaimed; simpl; by rewrite Hf).
  rewrite (M_bind_ok _ _ _ _ _ (E4 ltac:(intros; rewrite Hr3, Hr; simpl; rewrite Nx; apply not_elem_of_nil))). clear E4.
  set (d4 := with_escalations _ d3).
  assert (Hr4 : md_repo d4 = set_escalation_table (escalation_row <$> unclaimed esc_id d (mp_escalations p)) (md_repo d3)).
  { unfold d4, with_escalations. rewrite Hr3, Hr. simpl. by rewrite Nx. }
  pose proof (migrate_head_new (mp_head_version p) d4 ltac:(rewrite Hr4, Hr3, Hr; exact Nh)) as E5. fold (head_after p) in E5.
  destruct (head_after p) as [head|] eqn:Eh.
  - left. split; [by apply Hm|]. exists head. eexists. split; [done|]. rewrite (M_bind_ok _ _ _ _ _ E5). split; [reflexivity|].
    assert (Hi : dk_issues (md_desk (set_md_repo (set_head_row (Some head) (md_repo d4)) d4)) = issue_row <$> unclaimed i_id d (mp_issues p)) by exact Hk.
    split; rewrite ?Hi, ?length_fmap; try done; change (md_repo (set_md_repo ?r d4)) with r; rewrite ?Hr4, ?Hr3, ?Hr; simpl; rewrite ?Ne; try done.
  - right. split; [by right|]. exists d4. unfold mbind, M_bind. rewrite E5. by rewrite <-Hsq.
Qed.

(** The ids of a log are the numbers after [n]. *)
Fixpoint numbered (n : N) (l : list Event) : Prop :=
  match l with [] => True | e :: l' => ev_id e = (n + 1)%N /\ numbered (n + 1) l' end.

Lemma renumber_same n l : numbered n l -> renumber n l = l.
Proof using.
  revert n. induction l as [|e l IH]; intros n; [done|]. simpl. intros [He Hl]. rewrite IH by done. rewrite <-He.
  by destruct e.
Qed.

Lemma md_now_repo d : exists r, md_now clock d = (Ok (clock (sv_ticks (md_repo d))), set_md_repo r d) /\
  sv_events r = sv_events (md_repo d) /\ sv_versions r = sv_versions (md_repo d) /\
  sv_escalations r = sv_escalations (md_repo d) /\ sv_head r = sv_head (md_repo d) /\ sv_issues r = sv_issues (md_repo d) /\
  sv_files r = sv_files (md_repo d).
Proof using. eexists. by split_and!. Qed.

(** C40. A local repository, of which no store has a key twice, is migrated into a new one, as
    its creation leaves it with a first version and HEAD. Two things make the request fail,
    and then every table stays as it was: a version whose merge is no event of the database,
    and a HEAD without a number. Otherwise the server has the events in their order with new
    numbers, the issues as they were, the versions after the first as they were, with the
    numbers of their merges, and the escalations without the details of their conflicts;
    issues and escalations whose key another repository has are left out. HEAD is the one that
    is sent when it comes after the first version. The answer counts what was inserted, and
    the check that the client makes finds these numbers, one version more, and this HEAD. In a
    database without events a log that is numbered from one keeps its numbers. *)
Theorem migrate_new_repo d p : new_repo d -> payload_ok p ->
  (merges_known d p /\ exists s d' head, head_after p = Some head /\ migrate_handler clock true true p d = (Ok s, d') /\
     (events_migrated s, issues_migrated s, versions_migrated s, escalations_migrated s) = counts d p /\
     ((fun e => (timestamp e, ev_kind e)) <$> sv_events (md_repo d')) = ((fun e => (timestamp e, ev_kind e)) <$> mp_events p) /\
     info_to_issue (md_desk d') <$> dk_issues (md_desk d') = unclaimed i_id d (mp_issues p) /\
     sv_versions (md_repo d') = sv_versions (md_repo d) ++ later_versions p /\
     sv_escalations (md_repo d') = escalation_row <$> unclaimed esc_id d (mp_escalations p) /\
     migration_stats_handler true true d' = (Ok (mkStats (events_migrated s) (issues_migrated s) (S (versions_migrated s))
                                                   (escalations_migrated s) (Some head)), d') /\
     (md_sequence d = 0%N -> numbered 0 (mp_events p) -> sv_events (md_repo d') = mp_events p)) \/
  ((~ merges_known d p \/ head_after p = None) /\
     migrate_handler clock true true p d = (Err HtInternal, set_sequence (md_sequence d + N.of_nat (length (mp_events p))) d)).
Proof using.
  intros Hn Hp. destruct (migrate_rows_new d p Hn Hp) as [(Hm & head & d1 & Hh & Er & [He Hi Hv Hx Hhd Hl])|(Hw & d1 & Er & Hs)].
  2:{ right. split; [done|]. unfold migrate_handler. rewrite (M_bind_ok (check_access true) _ d tt d) by done. cbn [negb].
      unfold mbind, M_bind, transaction. by rewrite Er, Hs. }
  left. split; [done|]. unfold counts in Er. destruct (md_now_repo d1) as (r & En & Re & Rv & Rx & Rh & Ri & _).
  do 2 eexists. exists head. split; [done|]. split.
  { unfold migrate_handler. rewrite (M_bind_ok (check_access true) _ d tt d) by done. cbn [negb].
    erewrite (M_bind_ok (transaction _)) by (unfold transaction; rewrite Er; reflexivity). cbv beta iota.
    rewrite (M_bind_ok _ _ _ _ _ En). reflexivity. }
  simpl events_migrated. simpl issues_migrated. simpl versions_migrated. simpl escalations_migrated.
  change (md_repo (set_md_repo r d1)) with r. rewrite Re, Rv, Rx, He, Hv, Hx. split_and!; try done.
  - apply renumber_contents.
  - rewrite <-Hi. apply list_fmap_ext. intros n i _. apply info_to_issue_ext. exact Ri.
  - unfold migration_stats_handler. rewrite (M_bind_ok (check_access true) _ _ tt (set_md_repo r d1)) by done. cbn [negb].
    rewrite (M_bind_ok get_st _ _ (set_md_repo r d1) (set_md_repo r d1)) by done.
    change (dk_issues (md_desk (set_md_repo r d1))) with (dk_issues (md_desk d1)).
    change (md_repo (set_md_repo r d1)) with r. rewrite Re, Rv, Rx, Rh, Hl, He, Hv, Hx, Hhd, renumber_length, length_fmap, length_app.
    destruct Hn as [_ _ _ [t ->] _ _]. done.
  - intros Hs Hids. rewrite Hs. by apply renumber_same.
Qed.

(** A version finds its merge among the events of its own repository, by its id. *)
Lemma merge_workspace_log v s s' : sv_events s = sv_events s' -> merge_workspace v s = merge_workspace v s'.
Proof using. intros E. unfold merge_workspace. by rewrite E. Qed.

Lemma renumber_above n l id : id ∈ ev_id <$> renumber n l -> (n < id)%N.
Proof using.
  revert n. induction l as [|e l IH]; intros n; simpl; [by intros ?%not_elem_of_nil|].
  intros [->|H]%elem_of_cons; [lia|]. apply IH in H. lia.
Qed.

(** The number that a version keeps for its merge was given by the local log. When the
    database of the server has given that number to an event before, which is the case as
    soon as another repository has enough events, the version of the new repository has no
    merge, and its details come without changes, if the migration does not fail. *)
Theorem migrated_merge_lost d p v id : new_repo d -> payload_ok p -> v ∈ later_versions p ->
  merge_event_id v = Some id -> (id <= md_sequence d)%N ->
  (exists s d', migrate_handler clock true true p d = (Ok s, d') /\ v ∈ sv_versions (md_repo d') /\
     merge_workspace v (md_repo d') = None) \/
  exists d', migrate_handler clock true true p d = (Err HtInternal, d') /\ v ∉ sv_versions (md_repo d').
Proof using.
  intros Hn Hp Hv Hid Hle. pose proof (nr_versions _ Hn) as [t Hseed].
  destruct (migrate_rows_new d p Hn Hp) as [(_ & head & d1 & _ & Er & [He _ Hvs _ _ _])|(_ & d1 & Er & Hs)].
  - left. unfold counts in Er. destruct (md_now_repo d1) as (r & En & Re & Rv & _). do 2 eexists. split.
    { unfold migrate_handler. rewrite (M_bind_ok (check_access true) _ d tt d) by done. cbn [negb].
      erewrite (M_bind_ok (transaction _)) by (unfold transaction; rewrite Er; reflexivity). cbv beta iota.
      rewrite (M_bind_ok _ _ _ _ _ En). reflexivity. }
    change (md_repo (set_md_repo r d1)) with r. rewrite Rv, Hvs. split; [apply elem_of_app; by right|]. unfold merge_workspace. rewrite Re, Hid, He. simpl.
    rewrite (proj2 (find_by_None ev_id id _)); [done|]. intros (e & -> & H)%list_elem_of_fmap.
    unfold query_by_type in H. apply list_elem_of_filter in H as [_ H].
    assert (ev_id e ∈ ev_id <$> renumber (md_sequence d) (mp_events p)) as Hlt%renumber_above by (apply list_elem_of_fmap; by exists e).
    lia.
  - right. eexists. split.
    { unfold migrate_handler. rewrite (M_bind_ok (check_access true) _ d tt d) by done. cbn [negb].
      unfold mbind, M_bind, transaction. rewrite Er. reflexivity. }
    simpl. change (md_repo (set_sequence _ d)) with (md_repo d). rewrite Hseed. intros ->%list_elem_of_singleton. done.
Qed.

(** ** A second migration *)

(** Rows are only added. *)
Record keeps_rows (d d' : MigrationDb) : Prop := {
  kr_events : md_local_ids d ⊆ md_local_ids d';
  kr_issues : (ii_id <$> dk_issues (md_desk d)) ⊆ (ii_id <$> dk_issues (md_desk d'));
  kr_versions : (version_id <$> sv_versions (md_repo d)) ⊆ (version_id <$> sv_versions (md_repo d'));
  kr_foreign : md_foreign d ⊆ md_foreign d';
  kr_escalations : (esc_id <$> sv_escalations (md_repo d)) ⊆ (esc_id <$> sv_escalations (md_repo d'))
}.

#[local] Instance keeps_rows_pre : PreOrder keeps_rows.
Proof using.
  split; [by intros d; split|]. intros d1 d2 d3 [] []. split; etransitivity; eassumption.
Qed.

Ltac keep_rows := split; simpl; rewrite ?fmap_app; try done; apply list_subseteq_app_l; done.

Lemma keeps_event e : along keeps_rows (insert_event e).
Proof using. intros d. unfold insert_event. case_bool_decide; keep_rows. Qed.
Lemma keeps_issue i : along keeps_rows (insert_issue_row i).
Proof using. intros d. unfold insert_issue_row. repeat case_match; keep_rows. Qed.
Lemma keeps_version v : along keeps_rows (insert_version_row v).
Proof using. intros d. unfold insert_version_row. repeat case_match; keep_rows. Qed.
Lemma keeps_escalation e : along keeps_rows (insert_escalation_row e).
Proof using. intros d. unfold insert_escalation_row. repeat case_match; keep_rows. Qed.
Lemma keeps_all {A} (insert : A -> Mg nat) l : (forall x, along keeps_rows (insert x)) -> along keeps_rows (insert_all insert l).
Proof using.
  intros Hi. induction l as [|x l IH]; simpl; [apply along_ret, _|].
  apply along_bind; [apply _|apply Hi|intros n]. apply along_bind; [apply _|exact IH|intros; apply along_ret, _].
Qed.

(** After an insertion of all, each has its place. *)
Lemma all_present {A} (insert : A -> Mg nat) (there : A -> MigrationDb -> Prop) l d n d' :
  (forall x, along keeps_rows (insert x)) ->
  (forall x d n d', insert x d = (Ok n, d') -> there x d') ->
  (forall x d d', keeps_rows d d' -> there x d -> there x d') ->
  insert_all insert l d = (Ok n, d') -> forall x, x ∈ l -> there x d'.
Proof using.
  intros Hk Ht Hm. revert d n. induction l as [|y l IH]; intros d n E x Hx; [by apply not_elem_of_nil in Hx|].
  simpl in E. unfold mbind, M_bind in E. destruct (insert y d) as [[m|e|] d1] eqn:E1; [|done..].
  destruct (insert_all insert l d1) as [[m'|e|] d2] eqn:E2; [|done..]. injection E as _ <-.
  apply elem_of_cons in Hx as [->|Hx]; [|by eapply IH].
  eapply Hm; [|by eapply Ht]. pose proof (keeps_all insert l Hk d1) as K. by rewrite E2 in K.
Qed.

(** What has its place is skipped. *)
Lemma all_skipped {A} (insert : A -> Mg nat) (skip : MigrationDb -> MigrationDb) (there : A -> MigrationDb -> Prop) l d :
  (forall x d, there x d -> insert x d = (Ok 0, skip d)) -> (forall x d, there x d -> there x (skip d)) ->
  (forall x, x ∈ l -> there x d) -> insert_all insert l d = (Ok 0, Nat.iter (length l) skip d).
Proof using.
  intros Hs Ht. revert d. induction l as [|x l IH]; intros d Hl; simpl; [done|].
  rewrite (M_bind_ok _ _ _ _ _ (Hs x d (Hl x ltac:(by left)))).
  rewrite (M_bind_ok _ _ _ _ _ (IH (skip d) ltac:(intros y Hy; apply Ht, Hl; by right))).
  unfold mret, M_ret. by rewrite <-Nat.iter_succ_r.
Qed.

Lemma M_bind_inv {S E A B} (m : M S E A) (f : A -> M S E B) s b s' :
  (m ≫= f) s = (Ok b, s') -> exists a s1, m s = (Ok a, s1) /\ f a s1 = (Ok b, s').
Proof using. unfold mbind, M_bind. destruct (m s) as [[a|e|] s1]; [|done..]. intros H. by exists a, s1. Qed.

Lemma found_there {A K} `{EqDecision K} (key : A -> K) k l x : find_by key k l = Some x -> k ∈ key <$> l.
Proof using. intros [Hin <-]%find_by_Some. apply list_elem_of_fmap. by exists x. Qed.

Lemma there_there {A K} `{EqDecision K} (key : A -> K) k l : k ∈ key <$> l -> exists x, find_by key k l = Some x.
Proof using. intros H. destruct (find_by key k l) as [x|] eqn:E; [by exists x|]. by apply find_by_None in E. Qed.

Definition event_there (e : Event) (d : MigrationDb) : Prop := local_id e ∈ md_local_ids d.
Definition issue_there (i : Issue) (d : MigrationDb) : Prop :=
  i_id i ∈ ii_id <$> dk_issues (md_desk d) \/ i_id i ∈ md_foreign d.
Definition version_there (v : VersionMeta) (d : MigrationDb) : Prop := version_id v ∈ version_id <$> sv_versions (md_repo d).
Definition escalation_there (e : Escalation) (d : MigrationDb) : Prop :=
  esc_id e ∈ esc_id <$> sv_escalations (md_repo d) \/ esc_id e ∈ md_foreign d.

Lemma event_there_after e d n d' : insert_event e d = (Ok n, d') -> event_there e d'.
Proof using.
  unfold insert_event, event_there. case_bool_decide as H; intros [= _ <-]; [done|].
  simpl. apply elem_of_app. right. by apply list_elem_of_singleton.
Qed.
Lemma issue_there_after i d n d' : insert_issue_row i d = (Ok n, d') -> issue_there i d'.
Proof using.
  unfold insert_issue_row, issue_there. destruct (info_of (i_id i) (md_desk d)) eqn:E; [intros [= _ <-]|case_bool_decide; intros [= _ <-]].
  - left. by eapply (found_there ii_id).
  - by right.
  - left. simpl. rewrite fmap_app. apply elem_of_app. right. by apply list_elem_of_singleton.
Qed.
Lemma version_there_after v d n d' : insert_version_row v d = (Ok n, d') -> version_there v d'.
Proof using.
  unfold insert_version_row, version_there. destruct (find_by _ _ _) eqn:E; [intros [= _ <-]|].
  - by eapply (found_there version_id).
  - case_match; [|done]. intros [= _ <-]. simpl. rewrite fmap_app. apply elem_of_app. right. by apply list_elem_of_singleton.
Qed.
Lemma escalation_there_after e d n d' : insert_escalation_row e d = (Ok n, d') -> escalation_there e d'.
Proof using.
  unfold insert_escalation_row, escalation_there. destruct (find_escalation _ _) eqn:E; [intros [= _ <-]|case_bool_decide; intros [= _ <-]].
  - left. by eapply (found_there esc_id).
  - by right.
  - left. simpl. rewrite fmap_app. apply elem_of_app. right. by apply list_elem_of_singleton.
Qed.

(** Every row of the payload has its place. *)
Record present (p : MigrationPayload) (d : MigrationDb) : Prop := {
  pr_events e : e ∈ mp_events p -> event_there e d;
  pr_issues i : i ∈ mp_issues p -> issue_there i d;
  pr_versions v : v ∈ mp_versions p -> version_there v d;
  pr_escalations e : e ∈ mp_escalations p -> escalation_there e d
}.

Lemma keeps_head h : along keeps_rows (migrate_head h).
Proof using. intros d. unfold migrate_head. repeat case_match; by split. Qed.

Lemma event_kept e d d' : keeps_rows d d' -> event_there e d -> event_there e d'.
Proof using. intros K. apply K. Qed.
Lemma issue_kept i d d' : keeps_rows d d' -> issue_there i d -> issue_there i d'.
Proof using. intros K [H|H]; [left|right]; by apply K. Qed.
Lemma version_kept v d d' : keeps_rows d d' -> version_there v d -> version_there v d'.
Proof using. intros K. apply K. Qed.
Lemma escalation_kept e d d' : keeps_rows d d' -> escalation_there e d -> escalation_there e d'.
Proof using. intros K [H|H]; [left|right]; by apply K. Qed.

Lemma migrate_rows_present p d ns d' : migrate_rows p d = (Ok ns, d') -> present p d'.
Proof using.
  unfold migrate_rows. intros E.
  apply M_bind_inv in E as (n1 & d1 & E1 & E). apply M_bind_inv in E as (n2 & d2 & E2 & E).
  apply M_bind_inv in E as (n3 & d3 & E3 & E). apply M_bind_inv in E as (n4 & d4 & E4 & E).
  apply M_bind_inv in E as (u & d5 & E5 & [= _ <-]).
  pose proof (keeps_all _ (mp_issues p) keeps_issue d1) as K2. rewrite E2 in K2.
  pose proof (keeps_all _ (mp_versions p) keeps_version d2) as K3. rewrite E3 in K3.
  pose proof (keeps_all _ (mp_escalations p) keeps_escalation d3) as K4. rewrite E4 in K4.
  assert (K5 : keeps_rows d4 d5).
  { destruct (mp_head_version p) as [h|]; [|by injection E5 as _ <-]. pose proof (keeps_head h d4) as K. by rewrite E5 in K. }
  simpl in *. split.
  - intros e He. do 4 (eapply event_kept; [eassumption|]).
    eapply (all_present insert_event event_there); eauto using keeps_event, event_there_after, event_kept.
  - intros i Hi. do 3 (eapply issue_kept; [eassumption|]).
    eapply (all_present insert_issue_row issue_there); eauto using keeps_issue, issue_there_after, issue_kept.
  - intros v Hv. do 2 (eapply version_kept; [eassumption|]).
    eapply (all_present insert_version_row version_there); eauto using keeps_version, version_there_after, version_kept.
  - intros e He. eapply escalation_kept; [eassumption|].
    eapply (all_present insert_escalation_row escalation_there); eauto using keeps_escalation, escalation_there_after, escalation_kept.
Qed.

Definition skip_event (d : MigrationDb) : MigrationDb := set_sequence (md_sequence d + 1) d.

Lemma event_skipped e d : event_there e d -> insert_event e d = (Ok 0, skip_event d).
Proof using. intros H. unfold insert_event. rewrite bool_decide_eq_true_2 by exact H. done. Qed.
Lemma issue_skipped i d : issue_there i d -> insert_issue_row i d = (Ok 0, d).
Proof using.
  unfold insert_issue_row, info_of, issue_there. destruct (find_by ii_id (i_id i) _) eqn:E; [done|].
  intros [H|H]; [by apply find_by_None in E|]. by rewrite bool_decide_eq_true_2.
Qed.
Lemma version_skipped v d : version_there v d -> insert_version_row v d = (Ok 0, d).
Proof using. intros [x Hx]%(there_there version_id). unfold insert_version_row. by rewrite Hx. Qed.
Lemma escalation_skipped e d : escalation_there e d -> insert_escalation_row e d = (Ok 0, d).
Proof using.
  unfold insert_escalation_row, find_escalation, escalation_there. destruct (find_by esc_id (esc_id e) _) eqn:E; [done|].
  intros [H|H]; [by apply find_by_None in E|]. by rewrite bool_decide_eq_true_2.
Qed.

Lemma iter_skip n d : Nat.iter n skip_event d = set_sequence (md_sequence d + N.of_nat n) d.
Proof using.
  induction n as [|n IH]; simpl; [rewrite N.add_0_r; by destruct d|]. rewrite IH. unfold skip_event, set_sequence. simpl.
  f_equal. lia.
Qed.

Lemma iter_same {A} n (x : A) : Nat.iter n id x = x.
Proof using. by induction n. Qed.

Lemma present_skipped p d : present p d ->
  insert_all insert_event (mp_events p) d = (Ok 0, set_sequence (md_sequence d + N.of_nat (length (mp_events p))) d).
Proof using.
  intros [He _ _ _]. rewrite <-iter_skip. apply (all_skipped insert_event skip_event event_there); [apply event_skipped|done|done].
Qed.

(** A list that is there is not inserted again. *)
Lemma there_skipped {A} (insert : A -> Mg nat) (there : A -> MigrationDb -> Prop) l d :
  (forall x d, there x d -> insert x d = (Ok 0, d)) -> (forall x, x ∈ l -> there x d) -> insert_all insert l d = (Ok 0, d).
Proof using.
  intros Hs Hl. rewrite (all_skipped insert id there); [by rewrite iter_same|exact Hs|done|exact Hl].
Qed.

(** The HEAD of a payload has its place when it is not after the one that is stored. *)
Definition head_settled (p : MigrationPayload) (d : MigrationDb) : Prop :=
  match mp_head_version p with
  | None => True
  | Some h => exists c a b, sv_head (md_repo d) = Some c /\ version_bigint c = Some a /\ version_bigint h = Some b /\ (b <= a)%N
  end.

Lemma head_settled_kept p d : head_settled p d ->
  (match mp_head_version p with Some h => migrate_head h | None => mret tt end : Mg unit) d = (Ok tt, d).
Proof using.
  unfold head_settled. destruct (mp_head_version p) as [h|]; [|done]. intros (c & a & b & Hc & Ha & Hb & Hle).
  unfold migrate_head. rewrite Hc, Ha, Hb, (proj2 (N.ltb_ge a b) Hle). done.
Qed.

Lemma migrate_rows_settled p d ns d' : migrate_rows p d = (Ok ns, d') ->
  (forall h, mp_head_version p = Some h -> exists b, version_bigint h = Some b) -> head_settled p d'.
Proof using.
  unfold migrate_rows, head_settled. intros E Hnum.
  apply M_bind_inv in E as (n1 & d1 & _ & E). apply M_bind_inv in E as (n2 & d2 & _ & E).
  apply M_bind_inv in E as (n3 & d3 & _ & E). apply M_bind_inv in E as (n4 & d4 & _ & E).
  apply M_bind_inv in E as (u & d5 & E5 & [= _ <-]).
  destruct (mp_head_version p) as [h|]; [|done]. destruct (Hnum h eq_refl) as [b Hb]. unfold migrate_head in E5.
  destruct (sv_head (md_repo d4)) as [c|] eqn:Hc.
  - destruct (version_bigint c) as [a|] eqn:Ha; [|done]. rewrite Hb in E5. destruct (a <? b)%N eqn:Hlt; injection E5 as _ <-.
    + exists h, b, b. by split_and!.
    + exists c, a, b. apply N.ltb_ge in Hlt. by split_and!.
  - injection E5 as _ <-. exists h, b, b. by split_and!.
Qed.

(** A migration that is repeated, as after a connection that broke, brings nothing twice:
    when a migration succeeded and its HEAD has a number, the same request succeeds again,
    answers that no event, issue, version and escalation was added, and leaves every table as
    it was; only the sequence of the event ids moves on, by one for every event that is sent. *)
Theorem migrate_again d p s d1 : migrate_handler clock true true p d = (Ok s, d1) ->
  (forall h, mp_head_version p = Some h -> exists b, version_bigint h = Some b) ->
  exists now r, migrate_handler clock true true p d1 =
      (Ok (mkSummary 0 0 0 0 (mp_head_version p) now),
       set_md_repo r (set_sequence (md_sequence d1 + N.of_nat (length (mp_events p))) d1)) /\
    sv_events r = sv_events (md_repo d1) /\ sv_versions r = sv_versions (md_repo d1) /\
    sv_escalations r = sv_escalations (md_repo d1) /\ sv_head r = sv_head (md_repo d1) /\
    sv_issues r = sv_issues (md_repo d1) /\ sv_files r = sv_files (md_repo d1).
Proof using.
  unfold migrate_handler. cbn [negb]. intros E Hnum. apply M_bind_inv in E as (u & d0 & [= _ <-] & E).
  apply M_bind_inv in E as ([[[n1 n2] n3] n4] & d2 & E2 & E). apply M_bind_inv in E as (now & d3 & E3 & [= _ <-]).
  unfold transaction in E2. destruct (migrate_rows p d) as [[ns|e|] d2'] eqn:Er; [|done..]. injection E2 as -> <-.
  pose proof (migrate_rows_settled _ _ _ _ Er Hnum) as Hh. apply migrate_rows_present in Er.
  destruct (md_now_repo d2') as (r & En & Re & Rv & Rx & Rh & Ri & Rf). rewrite En in E3. injection E3 as _ <-.
  assert (Hp : present p (set_md_repo r d2')).
  { destruct Er as [A B C D]. split; [exact A|exact B| |]; intros x Hx; unfold version_there, escalation_there;
      change (md_repo (set_md_repo r d2')) with r; rewrite ?Rv, ?Rx; [by apply C|by apply D]. }
  set (d3 := set_md_repo r d2') in *. set (n := (md_sequence d3 + _)%N). set (d4 := set_sequence n d3).
  assert (Hp4 : present p d4) by (destruct Hp; by split).
  assert (Hh4 : head_settled p d4).
  { unfold head_settled in *. change (md_repo d4) with r. destruct (mp_head_version p); [|done]. by rewrite Rh. }
  assert (Ha : migrate_rows p d3 = (Ok (0, 0, 0, 0), d4)).
  { unfold migrate_rows. rewrite (M_bind_ok _ _ _ _ _ (present_skipped p d3 Hp)). fold n. fold d4.
    rewrite (M_bind_ok _ _ _ _ _ (there_skipped _ issue_there _ _ issue_skipped (pr_issues _ _ Hp4))).
    rewrite (M_bind_ok _ _ _ _ _ (there_skipped _ version_there _ _ version_skipped (pr_versions _ _ Hp4))).
    rewrite (M_bind_ok _ _ _ _ _ (there_skipped _ escalation_there _ _ escalation_skipped (pr_escalations _ _ Hp4))).
    by rewrite (M_bind_ok _ _ _ _ _ (head_settled_kept p d4 Hh4)). }
  destruct (md_now_repo d4) as (r4 & En4 & R4). exists (clock (sv_ticks (md_repo d4))), r4. split; [|exact R4].
  rewrite (M_bind_ok (check_access true) _ d3 tt d3) by done.
  erewrite (M_bind_ok (transaction _)) by (unfold transaction; rewrite Ha; reflexivity). cbv beta iota.
  by rewrite (M_bind_ok _ _ _ _ _ En4).
Qed.
End server.

(** ** The source files *)

Section files.
Variable sha256_hex : bytes -> string.
Variable b64_decode : string -> option bytes.

Abbreviation Mg := (M MigrationDb HttpError).
Abbreviation upload_file := (upload_source_file sha256_hex b64_decode true).
Abbreviation upload_loop := (upload_source_loop sha256_hex b64_decode true).

Definition main_file (d : MigrationDb) (p : string) : option bytes := sv_files (md_repo d) !! current_key p.

(** The hash of the file that is served for the path. *)
Definition main_hash (d : MigrationDb) (p : string) : option string := sha256_hex <$> main_file d p.

(** What is recorded as uploaded is what is served. *)
Definition record_true (d : MigrationDb) : Prop := forall p h, md_state d !! p = Some h -> main_hash d p = Some h.

Lemma current_key_inj p q : current_key p = current_key q -> p = q.
Proof using. intros [= E]. exact E. Qed.

Definition uploaded_to (p : string) (c : bytes) (d : MigrationDb) : MigrationDb :=
  set_state (<[p := sha256_hex c]> (md_state d)) (put_source (current_key p) c (put_source (blob_key (sha256_hex c)) c d)).

Lemma uploaded_main p c d q : main_file (uploaded_to p c d) q = if decide (q = p) then Some c else main_file d q.
Proof using.
  unfold main_file, uploaded_to. simpl. case_decide as E.
  { subst. by rewrite lookup_insert_eq. }
  rewrite lookup_insert_ne by (intros ?%current_key_inj; congruence). by rewrite lookup_insert_ne.
Qed.

(** One entry: the path serves a content with the hash of what was sent, the others what they served. *)
Lemma upload_file_inv f d r d' : upload_file f d = (Ok r, d') ->
  exists c p, b64_decode (fe_content_base64 f) = Some c /\ over MAX_FILE_SIZE_BYTES c = false /\ stored_path (fe_path f) = Some p /\
    ((r = None /\ md_state d !! p = Some (sha256_hex c) /\ d' = d) \/ (r = Some p /\ d' = uploaded_to p c d)).
Proof using.
  unfold upload_source_file. destruct (b64_decode _) as [c|]; [|done]. destruct (over _ c) eqn:Hov; [done|].
  destruct (stored_path _) as [p|]; [|done]. intros E. exists c, p. split_and!; [done|exact Hov|done|].
  rewrite (M_bind_ok get_st _ d d d) in E by done. simpl in E. case_bool_decide.
  - left. by injection E as <- <-.
  - right. by injection E as <- <-.
Qed.

Lemma upload_file_true f d r d' : upload_file f d = (Ok r, d') -> record_true d ->
  record_true d' /\ (exists c p, b64_decode (fe_content_base64 f) = Some c /\ stored_path (fe_path f) = Some p /\
    main_hash d' p = Some (sha256_hex c)) /\
  (forall q, stored_path (fe_path f) <> Some q -> main_file d' q = main_file d q).
Proof using.
  intros (c & p & Hc & _ & Hp & [(_ & Hs & ->)|(_ & ->)])%upload_file_inv Hr.
  - split_and!; [done| |done]. exists c, p. split_and!; [done|done|]. by apply Hr.
  - split_and!.
    + intros q h. unfold main_hash. rewrite uploaded_main. simpl. case_decide as E.
      * subst. rewrite lookup_insert_eq. by intros [= <-].
      * rewrite lookup_insert_ne by congruence. apply Hr.
    + exists c, p. split_and!; [done|done|]. unfold main_hash. rewrite uploaded_main. by rewrite decide_True.
    + intros q Hq. rewrite uploaded_main, decide_False; [done|]. congruence.
Qed.

Lemma upload_loop_true files acc sk d r d' : upload_loop files acc sk d = (Ok r, d') -> record_true d -> record_true d'.
Proof using.
  revert acc sk d. induction files as [|f files IH]; intros acc sk d; simpl; [by intros [= _ <-]|].
  intros E Hr. apply M_bind_inv in E as (o & d1 & E1 & E). apply upload_file_true in E1 as [Hr1 _]; [|done].
  destruct o; eauto.
Qed.

Lemma upload_loop_other files acc sk d r d' q : upload_loop files acc sk d = (Ok r, d') ->
  (forall f, f ∈ files -> stored_path (fe_path f) <> Some q) -> record_true d -> main_file d' q = main_file d q.
Proof using.
  revert acc sk d. induction files as [|f files IH]; intros acc sk d; simpl; [by intros [= _ <-]|].
  intros E Hq Hr. apply M_bind_inv in E as (o & d1 & E1 & E).
  destruct (upload_file_true _ _ _ _ E1 Hr) as (Hr1 & _ & Ho). rewrite <-(Ho q) by (apply Hq; by left).
  destruct o; eapply IH; eauto; intros g Hg; apply Hq; by right.
Qed.

Lemma upload_loop_last files1 f files2 acc sk d r d' : upload_loop (files1 ++ f :: files2) acc sk d = (Ok r, d') ->
  (forall g, g ∈ files2 -> stored_path (fe_path g) <> stored_path (fe_path f)) -> record_true d ->
  exists c p, b64_decode (fe_content_base64 f) = Some c /\ stored_path (fe_path f) = Some p /\
    main_hash d' p = Some (sha256_hex c).
Proof using.
  intros E Hg. revert acc sk d E. induction files1 as [|f' files1 IH]; intros acc sk d; simpl; intros E Hr;
    apply M_bind_inv in E as (o & d1 & E1 & E); destruct (upload_file_true _ _ _ _ E1 Hr) as (Hr1 & H & _).
  - destruct H as (c & p & Hc & Hp & Hh). exists c, p. split_and!; [done|done|]. rewrite Hp in Hg. rewrite <-Hh. unfold main_hash. f_equal.
    destruct o; eapply upload_loop_other; eauto.
  - destruct o; eapply IH; eauto.
Qed.

Lemma upload_loop_counts files acc sk d r d' : upload_loop files acc sk d = (Ok r, d') ->
  uf_uploaded r = length (uf_paths r) /\ uf_uploaded r + uf_skipped r = length acc + sk + length files.
Proof using.
  revert acc sk d. induction files as [|f files IH]; intros acc sk d; simpl; [intros [= <- _]; simpl; lia|].
  intros E. apply M_bind_inv in E as (o & d1 & E1 & E). destruct o as [p|]; apply IH in E as [E2 E3].
  - rewrite length_app in E3. simpl in E3. split; [done|lia].
  - split; [done|lia].
Qed.

(** An upload of source files that succeeds brings the contents: in a database where what
    is recorded as uploaded is what is served, this stays so, every file that was sent is
    served with the hash of the content that came last for its path, files that were not sent
    are as they were, and the files that were stored and those that were skipped are together
    those that were sent. *)
Theorem source_upload_serves files d r d' : upload_source_files_handler sha256_hex b64_decode true true files d = (Ok r, d') ->
  record_true d ->
  record_true d' /\ uf_uploaded r + uf_skipped r = length files /\
  (forall q, (forall f, f ∈ files -> stored_path (fe_path f) <> Some q) -> main_file d' q = main_file d q) /\
  (forall files1 f files2, files = files1 ++ f :: files2 ->
    (forall g, g ∈ files2 -> stored_path (fe_path g) <> stored_path (fe_path f)) ->
    exists c p, b64_decode (fe_content_base64 f) = Some c /\ stored_path (fe_path f) = Some p /\
      main_hash d' p = Some (sha256_hex c)).
Proof using.
  unfold upload_source_files_handler. intros E Hr. apply M_bind_inv in E as (u & d0 & [= _ <-] & E).
  destruct (MAX_FILES_PER_REQUEST <? length files); [done|]. destruct (existsb _ files); [done|].
  destruct (upload_loop_counts _ _ _ _ _ _ E) as [_ Hn]. split_and!.
  - by eapply upload_loop_true.
  - by rewrite Hn.
  - intros q Hq. by eapply upload_loop_other.
  - intros files1 f files2 -> Hg. by eapply upload_loop_last.
Qed.
End files.

(** ** Witnesses *)

Definition wit_log : list Event :=
  [mkEvent 1 10 (WorkspaceCreated "w" "add a" "v1"); mkEvent 2 11 (FileAdded "w" "a.rs" "h");
   mkEvent 3 12 (MergeCompleted "w" "v2" 0)].
Definition wit_payload : MigrationPayload :=
  mkPayload wit_log [mkIssue "i" "First" "" InProgress PrHigh [] "ann" None None [] 1 2]
    [mkVersion "v1" None "init" "ann" 1 None; mkVersion "v2" (Some "v1"%string) "add a" "ann" 12 (Some 3%N)]
    [mkEscalation "e" MergeConflict EsHigh EsPending "clash" [] [] [] [] [mkEsConflict "a.rs" 3 [] "both" None None None] []
       None None 5 None]
    (Some "v2"%string).

(** A database in which other repositories have the first [n] events. *)
Definition wit_db (n : nat) : MigrationDb :=
  mkMigrationDb (mkDesk (mkServer ∅ [] [mkVersion "v1" None "initial repository" "system" 0 None] (Some "v1"%string) [] ∅ [] ∅ [] 0 0) [] [] [] [] [])
    [] ∅ (N.of_nat <$> seq 1 n) (N.of_nat n) [].

Lemma wit_new n : new_repo (wit_db n).
Proof. split; try done. by exists 0%Z. Qed.

Lemma wit_ok : payload_ok wit_payload.
Proof. split; refine (bool_decide_unpack _ _); vm_compute; exact I. Qed.

Lemma wit_merges n : n = 0 \/ n = 5 -> merges_known (wit_db n) wit_payload.
Proof.
  intros Hn. apply Forall_cons. split; [|by apply Forall_nil]. intros id [= <-].
  destruct Hn as [->| ->]; [left|right]; refine (bool_decide_unpack _ _); vm_compute; exact I.
Qed.

(** Without other events the numbers of the merges stay true; an event of which the database
    knows nothing makes the whole migration fail. *)
Lemma migrate_new_repo_witness :
  (exists s d', migrate_handler wit_clock true true wit_payload (wit_db 0) = (Ok s, d') /\ events_migrated s = 3 /\ versions_migrated s = 1 /\
     sv_events (md_repo d') = wit_log /\ (version_id <$> sv_versions (md_repo d')) = ["v1"; "v2"]%string /\
     (esc_conflicts <$> sv_escalations (md_repo d')) = [[]]) /\
  migrate_handler wit_clock true true (mkPayload [] [] (mp_versions wit_payload) [] None) (wit_db 0) = (Err HtInternal, wit_db 0).
Proof.
  split.
  - destruct (migrate_new_repo wit_clock (wit_db 0) wit_payload (wit_new 0) wit_ok)
      as [(_ & s & d' & head & _ & E & Hc & _ & _ & Hv & Hx & _ & Hlog)|([Hm|Hh] & _)]; [|destruct (Hm (wit_merges 0 (or_introl eq_refl)))|discriminate Hh].
    exists s, d'. split; [exact E|]. injection Hc as He _ Hn _. split; [exact He|]. split; [exact Hn|].
    split; [apply Hlog; [reflexivity|vm_compute; split_and!; exact eq_refl || exact I]|].
    rewrite Hv, Hx. split; reflexivity.
  - destruct (migrate_new_repo wit_clock (wit_db 0) (mkPayload [] [] (mp_versions wit_payload) [] None) (wit_new 0)) as [(Hm & _)|[_ ->]];
      [split; refine (bool_decide_unpack _ _); vm_compute; exact I| |reflexivity].
    exfalso. apply Forall_cons in Hm as [Hm _]. destruct (Hm 3%N eq_refl) as [H|H]; revert H; apply not_elem_of_nil.
Defined.

Lemma migrated_merge_lost_witness :
  exists v s d', migrate_handler wit_clock true true wit_payload (wit_db 5) = (Ok s, d') /\ merge_event_id v = Some 3%N /\
    v ∈ sv_versions (md_repo d') /\ merge_workspace v (md_repo d') = None /\
    merge_workspace v (set_log wit_log (md_repo d')) = Some "w"%string.
Proof.
  set (v := mkVersion "v2" (Some "v1"%string) "add a" "ann" 12 (Some 3%N)). exists v.
  destruct (migrated_merge_lost wit_clock (wit_db 5) wit_payload v 3 (wit_new 5) wit_ok)
    as [(s & d' & E & Hv & Hm)|(d' & E & _)]; [by left|reflexivity|simpl; lia| |vm_compute in E; discriminate E].
  exists s, d'. split; [exact E|]. split; [reflexivity|]. split; [exact Hv|]. split; [exact Hm|]. reflexivity.
Defined.

Lemma migrate_again_witness :
  exists s d1 now d2, migrate_handler wit_clock true true wit_payload (wit_db 0) = (Ok s, d1) /\
    migrate_handler wit_clock true true wit_payload d1 = (Ok (mkSummary 0 0 0 0 (Some "v2"%string) now), d2) /\
    sv_events (md_repo d2) = sv_events (md_repo d1).
Proof.
  destruct (migrate_handler wit_clock true true wit_payload (wit_db 0)) as [[s|e|] d1] eqn:E; [|vm_compute in E; discriminate E..].
  destruct (migrate_again wit_clock (wit_db 0) wit_payload s d1 E) as (now & r & E2 & Hev & _).
  { intros h [= <-]. exists 2%N. vm_compute. reflexivity. }
  exists s, d1, now. eexists. split; [reflexivity|]. split; [exact E2|exact Hev].
Defined.

Definition wit_upload := upload_source_files_handler string_of wit_decode true true.

Lemma source_upload_serves_witness :
  exists r d', wit_upload [mkFileUpload "a.rs" "one"; mkFileUpload "b.rs" "two"; mkFileUpload "a.rs" "three"] (wit_db 0) = (Ok r, d') /\
    uf_uploaded r = 3 /\ main_hash string_of d' "a.rs" = Some "three"%string /\ main_hash string_of d' "b.rs" = Some "two"%string.
Proof.
  set (files := [_; _; _]). destruct (wit_upload files (wit_db 0)) as [[r|e|] d'] eqn:E; [|vm_compute in E; discriminate E..].
  exists r, d'. split; [reflexivity|].
  destruct (source_upload_serves string_of wit_decode files (wit_db 0) r d' E) as (_ & _ & _ & Hlast).
  { intros p h H. vm_compute in H. discriminate H. }
  assert (Hr : uf_uploaded r = 3) by (vm_compute in E; injection E as <- _; reflexivity). split; [exact Hr|]. split.
  - destruct (Hlast [mkFileUpload "a.rs" "one"; mkFileUpload "b.rs" "two"] (mkFileUpload "a.rs" "three") [] eq_refl) as (c & p & Hc & Hp & Hh);
      [by intros g ?%not_elem_of_nil|]. vm_compute in Hp. injection Hp as <-. injection Hc as <-. exact Hh.
  - destruct (Hlast [mkFileUpload "a.rs" "one"] (mkFileUpload "b.rs" "two") [mkFileUpload "a.rs" "three"] eq_refl) as (c & p & Hc & Hp & Hh).
    { intros g ->%list_elem_of_singleton. vm_compute. discriminate. }
    vm_compute in Hp. injection Hp as <-. injection Hc as <-. exact Hh.
Defined.

(** The keys of issues and escalations are shared by all repositories: a second migration of a
    local repository, into another repository of the server, succeeds with its events and
    versions and leaves out every issue and escalation. *)
Definition wit_elsewhere : MigrationDb :=
  mkMigrationDb (md_desk (wit_db 5)) [] ∅ (md_others (wit_db 5)) 5 ["i"%string; "e"%string].

Lemma second_home_has_no_issues :
  exists s d', migrate_handler wit_clock true true wit_payload wit_elsewhere = (Ok s, d') /\
    events_migrated s = 3 /\ versions_migrated s = 1 /\ issues_migrated s = 0 /\ escalations_migrated s = 0 /\
    dk_issues (md_desk d') = [] /\ sv_escalations (md_repo d') = [].
Proof. do 2 eexists. split; [vm_compute; reflexivity|]. split_and!; reflexivity. Qed.
